(* ===== verification/_CoqProject ===== *)
-Q . S2P
Prelude.v
Float32.v
Rounding.v
Json.v
Config.v
Tensors.v
Sequences.v
Params.v
GraphPool.v
State.v
Inputs.v
Models.v
ImagePrompt.v
KVCache.v
Logits.v
Decoders.v
Whisper.v
Vision.v
Cuda.v
BeamScorer.v
Search.v
Generator.v
Generation.v
CApi.v
CudaSequences.v
CudaScorer.v
CudaTopK.v
CudaSearch.v
CudaSoftmax.v
CudaSampling.v
CudaGreedy.v
DmlQueue.v
DmlDescriptors.v
DmlContext.v
DmlHeaps.v
DmlMemory.v
DmlKernels.v
