(* ===== verification/Prelude.v ===== *)
(** * onnxruntime-genai: a verification development for the C++ generation core

    ** The program

    onnxruntime-genai runs generative models.  A configuration file says what
    the model is; sessions of ONNX Runtime compute logits from tokens and
    caches; a search turns logits into tokens; a generator drives both until
    every sequence is complete; a C interface hands all of it to bindings.
    All of that is C++ under src/src.  Paths below are relative to it.

    ** The parts, and the files that model them

    - [Prelude] (this file): what a C++ call can do ([outcome]), machine
      integers, spans and vectors, loops, and the lemmas and tactics shared by
      all files.  [Float32]: IEEE binary32 and binary64.  [Rounding]: what
      rounding to binary32 keeps.
    - [Json], [Config] (json.cpp, config.cpp): the parser calls the methods of
      an element; the class [Element] is that interface and [Config] is its
      client.
    - [Tensors] (tensor.h, models/utils.cpp, models/static_buffer.cpp):
      tensors in a heap of pointers.  [Params], [GraphPool] (generators.cpp,
      models/captured_graph_pool.cpp): what a generator is made from, and the
      pool of captured graphs, a step relation over interleaved generators.
    - [State], [Inputs], [KVCache], [Logits] (models/model.cpp,
      input_ids.cpp, position_inputs.cpp, extra_inputs.cpp, embeddings.cpp,
      kv_cache.cpp, logits.cpp): the parts of a model state.  [Decoders],
      [Whisper], [Vision] (gpt.cpp, decoder_only.cpp, whisper.cpp,
      multi_modal_vision_model.cpp): the states made of them.
    - [Models], [ImagePrompt] (models/model.cpp,
      models/prompt_image_processor.cpp): loading, the tokenizer, prompts with
      images.
    - [Sequences], [BeamScorer], [Search] (sequences.cpp,
      beam_search_scorer.cpp, search.cpp, softmax_cpu.cpp, top_k_cpu.cpp): the
      search on the CPU.
    - [Generator], [Generation] (generators.cpp): the generator over an
      interface of model states, [ModelState], with the law [StateLaw]; the four
      model states are instances.
    - [CApi] (ort_genai_c.cpp): the C interface and the lifetimes of the
      objects behind its handles.
    - [Cuda], [CudaSequences], [CudaScorer], [CudaTopK], [CudaSearch],
      [CudaSoftmax], [CudaSampling], [CudaGreedy] (models/kernels.cu,
      sequences_cuda.cu, beam_search_scorer_cuda.cu, beam_search_topk.cu,
      search_cuda.cu, cuda_sampling.cu and their hosts): the same search on a
      CUDA device.
    - [DmlQueue], [DmlDescriptors], [DmlContext] (dml/dml_gpu_event.h,
      dml_command_queue.cpp, dml_command_allocator_ring.h,
      dml_descriptor_pool.cpp, dml_command_recorder.cpp,
      dml_execution_context.cpp): recording and submitting commands of
      DirectML.  [DmlHeaps], [DmlMemory] (dml_pooled_upload_heap.cpp,
      dml_readback_heap.cpp): bytes to the device and back.  [DmlKernels]
      (dml_helpers.cpp, dml_update_mask_kernel.cpp,
      dml_increment_values_kernel.cpp, dml_shaders, models/position_inputs.cpp):
      the kernels of the mask and the positions.

    The state of a part is a record with the members of the C++ class under
    their names; an operation is the definition with the name of the method.

    ** Conventions

    A call returns an [outcome]: [Ok], [Throw] for a C++ exception, [Undef]
    for everything without meaning (an access out of range, a failed [assert],
    signed overflow, a dangling pointer).  A theorem that a call is [Ok]
    is therefore one of memory safety and of termination too.
    Recursion that is not structural has fuel.  The JSON parser's is linear in
    the length of the text, which is enough ([parse_total]); [Generate] returns
    for any fuel above the maximum length less the prompt's
    ([Generate_greedy], [Generate_beam]); the block size of the CUDA softmax
    doubles at most ten times ([SoftmaxGetBlockSize_warps]);
    the readback heap doubles at most 64 times ([ComputeNewCapacity_ok]); a
    kernel of DirectML takes at most 257 dispatches
    ([record_dispatches_ok]); elsewhere
    ([split_tags], [release], [strided_from]) the fuel is the length, or count,
    of what is consumed, and the lemmas beside the definition use no more.
    Integers are unbounded ([nat], [Z]) where the code cannot overflow or a
    hypothesis says so; where it checks nothing, [chk32] and [int_nat] make
    overflow of an int [Undef], and [i32] and [u32] are the conversions that
    wrap.  That an int holds the size of a buffer is then a hypothesis
    ([int_rows] of the sequences, [mask_int] of the mask, [pt_scores] of the
    logits).

    A launch of a CUDA kernel runs its threads as whole steps in any order
    ([order], with the law [Schedule]).  Where the threads of a block share
    memory between barriers (softmax, sampling, top k) the block is one step,
    and inside it the threads run in any order between two barriers.

    ** What is proved

    - Parsing and loading: the parser makes the callbacks of a walk over the
      document, on every input it stops; a configuration names at most one
      provider; [CreateModel] makes what the configuration says.
    - Model states: every run of every model returns, gives the session the
      inputs that follow the sequences (tokens, mask, positions, caches, for
      beams reordered) and never reads a destroyed tensor.
    - The search: the sequences are those of list-level greedy and beam search
      ([Sequences_refines], [Process_refines], [BeamSearch_SelectTop_spec],
      [SelectTop_spec], [SampleTopKTopP_spec], [Finalize_spec]); the
      processors change the scores they should.
    - The generator: which calls fail and what they leave; runs, choices and
      tokens match one to one; [Generate] returns, with any library, and says
      what; sampling needs of [exp] that it lies between 0 and 1 below 0
      ([ExpLaw], [SoftMax_numbers]).  [SampleTopK] is modelled but left out of
      [Generate_greedy].
    - The C interface: prompts, strings, and that an object is live exactly
      while a handle the client has not destroyed reaches it.
    - CUDA: the beam search step is the CPU's for one order of equal scores,
      whatever the schedule; a step of greedy search picks a best token or
      samples of the [k] best; the softmax writes every element once.  A launch
      the device refuses (an empty grid, too many threads, too much shared
      memory) does nothing.
    - DirectML: whatever the calls and the pace of the device, no call fails,
      an allocator is not reset in use, descriptors in use are disjoint and the
      device ends with the commands in the order of the calls
      ([context_refines], [descriptors_in_use_disjoint]); uploads and readbacks
      on top of it are those of a plain memory ([heaps_refine_memory],
      [chunk_never_overlaps]); the mask of a captured graph is one per row up to
      the current length ([mask_updates_spec]).

    ** Parameters

    Code that is not in the repository, and what the C++ standard leaves open,
    are parameters: sessions, file system, tokenizer, image preprocessing,
    [exp], [log], [pow], random numbers, the order of equal scores in sorts and
    queues, of sets, of maps and of names, cub and curand, the address of buffers,
    the contents of fresh memory, what a command of Direct3D does to memory
    ([Device]), the pace of the device and its new buffers and heaps.  Each has
    the documented behaviour it needs as a law (a class or record such as
    [Sorter], [Unordered], [Schedule], [StateLaw]), and every property with such
    a law has a witness with a concrete instance.

    ** What is not modelled

    - The model states are those of the CPU build: branches under USE_CUDA
      and USE_DML are left out of them, but for the kernels of the
      attention mask and positions in [Cuda] and [DmlKernels].
    - Calls of ONNX Runtime are assumed to succeed; running out of memory and
      failing CUDA calls are left out.
    - Vendored wrappers (models/onnxruntime_api.h, onnxruntime_inline.h),
      bindings, the C++ wrapper of the C interface, logging and tensor dumps,
      the smart pointers and the file system shim: they forward, print or own
      memory and no result depends on them.
    - DirectML: choosing an adapter and a device, compiling the cast operator
      and its reusable command list (dml/dml_helpers.cpp, dml_adapter_info.cpp,
      dml_adapter_selection.cpp) are calls of DXCore, Direct3D and DirectML;
      failing calls of Direct3D are left out, and dml/generated_dml_shaders is
      byte code.
    *)

From Stdlib Require Import ZArith Lia.
From stdpp Require Import base numbers list strings.

(** ** Results of C++ code

    [Ok a] is a normal return.  [Throw e] is a C++ exception leaving the
    function.  [Undef] is everything the C++ standard gives no meaning to and
    everything an [assert] rejects: a span access out of range, a failed
    assertion, a signed overflow.  A theorem that says a call is not [Undef]
    is a memory-safety and assertion-freedom statement. *)
Inductive exn : Type :=
  | RuntimeError (msg : string)      (* std::runtime_error *)
  | UnknownValueError                (* JSON::unknown_value_error *)
  | BadOptionalAccess                (* std::bad_optional_access *)
  | LengthError                      (* std::length_error *)
  | OutOfRange                       (* std::out_of_range *)
  | ResultException (hr : Z).        (* wil::ResultException, with its HRESULT *)

Inductive outcome (A : Type) : Type :=
  | Ok (a : A)
  | Throw (e : exn)
  | Undef.
Arguments Ok {A} _.
Arguments Throw {A} _.
Arguments Undef {A}.

#[export] Instance exn_eq_dec : EqDecision exn.
Proof. solve_decision. Defined.
#[export] Instance outcome_eq_dec {A} `{EqDecision A} : EqDecision (outcome A).
Proof. solve_decision. Defined.

#[export] Instance outcome_ret : MRet outcome := fun A a => Ok a.
#[export] Instance outcome_bind : MBind outcome := fun A B f m =>
  match m with Ok a => f a | Throw e => Throw e | Undef => Undef end.

(** [assert(b)] of a debug build. *)
Definition assert_ (b : bool) : outcome unit := if b then Ok () else Undef.

Lemma bind_Ok {A B} (a : A) (f : A -> outcome B) : (Ok a ≫= f) = f a.
Proof. reflexivity. Qed.

Lemma bind_Throw {A B} e (f : A -> outcome B) : (Throw e ≫= f) = Throw e.
Proof. reflexivity. Qed.

Lemma bind_Undef {A B} (f : A -> outcome B) : (Undef ≫= f) = Undef.
Proof. reflexivity. Qed.

Lemma bind_Ok_inv {A B} (m : outcome A) (f : A -> outcome B) b :
  (m ≫= f) = Ok b -> ∃ a, m = Ok a ∧ f a = Ok b.
Proof. destruct m; intros H; [eauto | discriminate H | discriminate H]. Qed.

Lemma bind_assoc_outcome {A B C} (m : outcome A) (f : A -> outcome B) (g : B -> outcome C) :
  ((m ≫= f) ≫= g) = (m ≫= fun a => f a ≫= g).
Proof. by destruct m. Qed.

Create Rewrite HintDb outcome.
Create HintDb span discriminated.
#[export] Hint Rewrite @bind_Ok @bind_Throw @bind_Undef : outcome.

(** [inv_ok] turns every hypothesis [(m ≫= f) = Ok b] into its two halves. *)
Ltac inv_ok :=
  repeat match goal with
  | H : (_ ≫= _) = Ok _ |- _ =>
      apply bind_Ok_inv in H; destruct H as (? & ? & H)
  | H : Ok _ = Ok _ |- _ => injection H as H; subst
  | H : mret _ = Ok _ |- _ => injection H as H; subst
  | H : Throw _ = Ok _ |- _ => discriminate H
  | H : Undef = Ok _ |- _ => discriminate H
  | x : unit |- _ => destruct x
  end.

(** [lia] with division and remainder by constants. *)
Ltac div_lia := Z.div_mod_to_equations; lia.

(** ** Machine integers

    Values are kept in [Z]; these are the conversions of the program. *)
Definition INT_MAX : Z := 2147483647.
Definition INT_MIN : Z := -2147483648.
Definition u64 (z : Z) : Z := z mod 2 ^ 64.
Definition u32 (z : Z) : Z := z mod 2 ^ 32.
Definition i32 (z : Z) : Z := (z + 2 ^ 31) mod 2 ^ 32 - 2 ^ 31.
Definition in_i32 (z : Z) : bool := (INT_MIN <=? z)%Z && (z <=? INT_MAX)%Z.

Lemma i32_id z : (INT_MIN <= z <= INT_MAX)%Z -> i32 z = z.
Proof. unfold INT_MIN, INT_MAX, i32. intros H. rewrite Z.mod_small; lia. Qed.

Lemma u64_id z : (0 <= z < 2 ^ 64)%Z -> u64 z = z.
Proof. apply Z.mod_small. Qed.

Lemma u32_id z : (0 <= z < 2 ^ 32)%Z -> u32 z = z.
Proof. apply Z.mod_small. Qed.

Lemma in_i32_spec z : in_i32 z = true ↔ (INT_MIN <= z <= INT_MAX)%Z.
Proof. unfold in_i32. rewrite andb_true_iff, !Z.leb_le. reflexivity. Qed.

(** [int] arithmetic: overflow is undefined. *)
Definition chk32 (z : Z) : outcome Z := if in_i32 z then Ok z else Undef.
(* the same for a count kept in [nat] *)
Definition int_nat (n : nat) : outcome nat :=
  if decide (Z.of_nat n <= INT_MAX)%Z then Ok n else Undef.

Lemma chk32_ok z : (INT_MIN <= z <= INT_MAX)%Z -> chk32 z = Ok z.
Proof. unfold chk32. by intros ->%in_i32_spec. Qed.

Lemma int_nat_ok n : (Z.of_nat n <= INT_MAX)%Z -> int_nat n = Ok n.
Proof. unfold int_nat. intros. by rewrite decide_True. Qed.

Lemma int_nat_inv n m : int_nat n = Ok m -> m = n ∧ (Z.of_nat n <= INT_MAX)%Z.
Proof. unfold int_nat. case_decide; [|done]. by intros [= <-]. Qed.

Lemma chk32_inv z m : chk32 z = Ok m -> m = z ∧ (INT_MIN <= z <= INT_MAX)%Z.
Proof. unfold chk32. destruct (in_i32 z) eqn:E; [|done]. intros [= <-]. by apply in_i32_spec in E. Qed.

(** Row-major index arithmetic: the offset of row [i] and its bound. *)
Lemma row_bound (i n w : nat) : i < n -> i * w + w <= n * w.
Proof. nia. Qed.

Lemma row_index (i n j w : nat) : i < n -> j < w -> i * w + j < n * w.
Proof. nia. Qed.

(** Two cells of a row-major buffer coincide only if row and column do. *)
Lemma row_index_inj (w i j a b : nat) :
  a < w -> b < w -> i * w + a = j * w + b -> i = j ∧ a = b.
Proof.
  intros Ha Hb E. assert (i = j) by nia. subst. lia.
Qed.

(** Two lists that agree pointwise below a common length are equal. *)
Lemma list_eq_lt {A} (l k : list A) n :
  length l = n -> length k = n -> (∀ i, i < n -> l !! i = k !! i) -> l = k.
Proof.
  intros Hl Hk H. apply list_eq. intros i. destruct (decide (i < n)); [auto|].
  rewrite !lookup_ge_None_2 by lia. done.
Qed.

(** ** Spans

    A [std::span] is the list of its elements; an access out of its bounds is
    undefined. *)
Section span.
Context {A : Type}.
Implicit Types (l src : list A).

Definition get l (i : nat) : outcome A :=
  match l !! i with Some v => Ok v | None => Undef end.

Definition put l (i : nat) (v : A) : outcome (list A) :=
  if decide (i < length l) then Ok (<[i := v]> l) else Undef.

(* span::subspan(off, cnt) *)
Definition subspan l (off cnt : nat) : outcome (list A) :=
  if decide (off + cnt <= length l) then Ok (take cnt (drop off l)) else Undef.

(* std::copy of [src] into the elements of [l] from [off] on *)
Definition blit l (off : nat) src : outcome (list A) :=
  if decide (off + length src <= length l) then Ok (list_inserts off src l) else Undef.

(* the same accesses with an index computed in a signed type *)
Definition getZ l (i : Z) : outcome A :=
  if decide (0 <= i)%Z then get l (Z.to_nat i) else Undef.
Definition putZ l (i : Z) (v : A) : outcome (list A) :=
  if decide (0 <= i)%Z then put l (Z.to_nat i) v else Undef.
Definition subspanZ l (off cnt : Z) : outcome (list A) :=
  if decide (0 <= off ∧ 0 <= cnt ∧ off + cnt <= Z.of_nat (length l))%Z then subspan l (Z.to_nat off) (Z.to_nat cnt) else Undef.

Lemma get_Some l i v : l !! i = Some v -> get l i = Ok v.
Proof. unfold get. by intros ->. Qed.

Lemma get_Ok_inv l i v : get l i = Ok v -> l !! i = Some v.
Proof. unfold get. destruct (l !! i); congruence. Qed.

Lemma get_lt l i : i < length l -> ∃ v, get l i = Ok v ∧ l !! i = Some v.
Proof. intros [v Hv]%lookup_lt_is_Some_2. exists v. by rewrite (get_Some _ _ _ Hv). Qed.

Lemma put_lt l i v : i < length l -> put l i v = Ok (<[i := v]> l).
Proof. unfold put. intros. by rewrite decide_True. Qed.

Lemma put_middle l x k v : put (l ++ x :: k) (length l) v = Ok (l ++ v :: k).
Proof.
  rewrite put_lt by (rewrite length_app; simpl; lia).
  rewrite insert_app_r_alt by lia. by rewrite Nat.sub_diag.
Qed.

Lemma put_seg l m k i v : i < length m -> put (l ++ m ++ k) (length l + i) v = Ok (l ++ <[i := v]> m ++ k).
Proof.
  intros H. rewrite put_lt by (rewrite !length_app; lia). f_equal.
  by rewrite insert_app_r, insert_app_l by done.
Qed.

Lemma put_Ok_inv l i v l' : put l i v = Ok l' -> i < length l ∧ l' = <[i := v]> l.
Proof. unfold put. case_decide; intros; inv_ok; auto; congruence. Qed.

Lemma getZ_get l i : (0 <= i)%Z -> getZ l i = get l (Z.to_nat i).
Proof. unfold getZ. intros. by rewrite decide_True. Qed.

Lemma putZ_put l i v : (0 <= i)%Z -> putZ l i v = put l (Z.to_nat i) v.
Proof. unfold putZ. intros. by rewrite decide_True. Qed.

Lemma subspan_le l off cnt :
  off + cnt <= length l -> subspan l off cnt = Ok (take cnt (drop off l)).
Proof. unfold subspan. intros. by rewrite decide_True. Qed.

Lemma blit_le l off src :
  off + length src <= length l -> blit l off src = Ok (list_inserts off src l).
Proof. unfold blit. intros. by rewrite decide_True. Qed.

Lemma length_window l off cnt : off + cnt <= length l -> length (take cnt (drop off l)) = cnt.
Proof. intros. rewrite length_take, length_drop. lia. Qed.

Lemma lookup_window l off cnt j :
  j < cnt -> take cnt (drop off l) !! j = l !! (off + j).
Proof. intros. by rewrite lookup_take_lt, lookup_drop by done. Qed.

Lemma window_inserts_same l off src :
  off + length src <= length l ->
  take (length src) (drop off (list_inserts off src l)) = src.
Proof.
  intros H. apply list_eq. intros j.
  destruct (decide (j < length src)) as [Hj|Hj].
  - rewrite lookup_window by done. rewrite list_lookup_inserts by lia. f_equal. lia.
  - rewrite lookup_ge_None_2, lookup_ge_None_2; [done| |]; rewrite ?length_take; lia.
Qed.

Lemma window_inserts_ne l off src off' cnt :
  off' + cnt <= off ∨ off + length src <= off' ->
  take cnt (drop off' (list_inserts off src l)) = take cnt (drop off' l).
Proof.
  intros H. apply list_eq. intros j.
  destruct (decide (j < cnt)) as [Hj|Hj].
  - rewrite !lookup_window by done.
    destruct H as [H|H]; [apply list_lookup_inserts_lt | apply list_lookup_inserts_ge]; lia.
  - rewrite !(lookup_ge_None_2 (take _ _)); [done| |]; rewrite length_take; lia.
Qed.

(* a short write at the start of a window *)
Lemma window_inserts_prefix l off src cnt :
  length src <= cnt -> off + cnt <= length l ->
  take cnt (drop off (list_inserts off src l)) = src ++ drop (length src) (take cnt (drop off l)).
Proof.
  intros Hs Hl. apply (list_eq_lt _ _ cnt).
  - apply length_window. by rewrite length_inserts.
  - rewrite length_app, length_drop, length_window by done. lia.
  - intros j Hj. rewrite lookup_window by done. destruct (decide (j < length src)) as [Hlt|Hge].
    + rewrite list_lookup_inserts by lia. rewrite lookup_app_l by done. f_equal. lia.
    + rewrite list_lookup_inserts_ge by lia. rewrite lookup_app_r by lia.
      rewrite lookup_drop, lookup_window by lia. f_equal. lia.
Qed.
End span.

(* the members of a list with their numbers *)
Lemma zip_seq_lookup {A} (l : list A) (s k : nat) x : l !! k = Some x -> zip (seq s (length l)) l !! k = Some ((s + k)%nat, x).
Proof. intros Hk. apply lookup_zip_Some. split; [|done]. apply lookup_seq_lt. by eapply lookup_lt_Some. Qed.

(* two members of a list, at different places *)
Lemma pair_cons {A} (x y a : A) l : [x; y] ⊆+ a :: l -> [x; y] ⊆+ l ∨ (x = a ∧ y ∈ l) ∨ (y = a ∧ x ∈ l).
Proof.
  intros [H|(k & Hp & Hk)]%submseteq_cons_r; [by left|right].
  assert (a ∈ [x; y]) as Hin by (rewrite Hp; left).
  apply elem_of_cons in Hin as [E|E%list_elem_of_singleton]; subst; [left|right]; (split; [done|]).
  - apply Permutation_cons_inv in Hp. eapply elem_of_submseteq; [|exact Hk]. rewrite <- Hp. left.
  - rewrite (Permutation_swap y x []) in Hp. apply Permutation_cons_inv in Hp. eapply elem_of_submseteq; [|exact Hk]. rewrite <- Hp. left.
Qed.

Lemma filter_all {A} (P : A -> Prop) `{∀ x, Decision (P x)} l : Forall P l -> filter P l = l.
Proof. induction 1; [done|]. rewrite filter_cons_True by done. by f_equal. Qed.

Lemma filter_none {A} (P : A -> Prop) `{∀ x, Decision (P x)} l : Forall (fun x => ¬ P x) l -> filter P l = [].
Proof. induction 1; [done|]. by rewrite filter_cons_False by done. Qed.

Lemma inserts_snoc {A} off (k l : list A) x :
  <[off + length k := x]> (list_inserts off k l) = list_inserts off (k ++ [x]) l.
Proof. rewrite list_inserts_app_l. simpl. by rewrite Nat.add_comm. Qed.

#[export] Hint Rewrite @length_insert @length_inserts : outcome.

(** Memory from [new T[n]] is uninitialised: its cells are [None] until they
    are written and reading one that was not is undefined. *)
Definition uninit {A} (n : nat) : list (option A) := replicate n None.
Definition initialised {A} (o : option A) : outcome A :=
  match o with Some a => Ok a | None => Undef end.
Definition get_init {A} (l : list (option A)) (i : nat) : outcome A :=
  o ← get l i; initialised o.
Fixpoint read_all {A} (l : list (option A)) : outcome (list A) :=
  match l with
  | [] => Ok []
  | o :: l' => a ← initialised o; r ← read_all l'; Ok (a :: r)
  end.

Lemma get_init_Some {A} (l : list (option A)) i v :
  l !! i = Some (Some v) -> get_init l i = Ok v.
Proof. intros H. unfold get_init. by rewrite (get_Some _ _ _ H). Qed.

Lemma read_all_Some {A} (l : list A) : read_all (map Some l) = Ok l.
Proof. induction l as [|x l IH]; simpl; [done|]. by rewrite IH. Qed.

(** ** Counting loops

    [for_ n body s] is [for (i = 0; i < n; i++) body] over the state [s];
    an exception or undefined behaviour in the body ends it. *)
Fixpoint loop {S} (n i : nat) (body : nat -> S -> outcome S) (s : S) : outcome S :=
  match n with
  | O => Ok s
  | Datatypes.S n' => s' ← body i s; loop n' (Datatypes.S i) body s'
  end.

Definition for_ {S} (n : nat) (body : nat -> S -> outcome S) (s : S) : outcome S :=
  loop n 0 body s.

(** [for_each body l s]: the range-based [for] over the elements of [l]. *)
Section for_each.
Context {A S : Type} (body : A -> S -> outcome S).
Fixpoint for_each (l : list A) (s : S) : outcome S :=
  match l with
  | [] => Ok s
  | x :: l' => s' ← body x s; for_each l' s'
  end.

Lemma for_each_cons x l s : for_each (x :: l) s = (s' ← body x s; for_each l s').
Proof. reflexivity. Qed.

Lemma for_each_app l k s : for_each (l ++ k) s = (s' ← for_each l s; for_each k s').
Proof. revert s. induction l as [|x l IH]; intros s; [done|]. cbn [app for_each]. destruct (body x s); [|done|done]. apply IH. Qed.
End for_each.

(** Total correctness rule: an invariant indexed by the loop counter. *)
Lemma loop_inv {S} (P : nat -> S -> Prop) n i body (s : S) :
  P i s ->
  (∀ j s, i <= j < i + n -> P j s -> ∃ s', body j s = Ok s' ∧ P (Datatypes.S j) s') ->
  ∃ s', loop n i body s = Ok s' ∧ P (i + n) s'.
Proof.
  revert i s. induction n as [|n IH]; intros i s H0 Hstep; simpl.
  - exists s. by rewrite Nat.add_0_r.
  - destruct (Hstep i s) as (s1 & E & H1); [lia|done|]. rewrite E. simpl.
    destruct (IH (Datatypes.S i) s1 H1) as (s2 & E2 & H2).
    { intros j t Hj. apply Hstep. lia. }
    exists s2. split; [done|]. by rewrite <- Nat.add_succ_comm.
Qed.

Lemma for_inv {S} (P : nat -> S -> Prop) n body (s : S) :
  P 0 s ->
  (∀ j s, j < n -> P j s -> ∃ s', body j s = Ok s' ∧ P (Datatypes.S j) s') ->
  ∃ s', for_ n body s = Ok s' ∧ P n s'.
Proof. intros H0 H. apply (loop_inv P n 0); [done|]. intros j t Hj. apply H. lia. Qed.

(** The same rule when the result of the loop is already known. *)
Lemma for_inv_Ok {S} (P : nat -> S -> Prop) n body (s s' : S) :
  for_ n body s = Ok s' ->
  P 0 s ->
  (∀ j s s1, j < n -> P j s -> body j s = Ok s1 -> P (Datatypes.S j) s1) ->
  P n s'.
Proof.
  intros H H0 Hstep.
  assert (∀ m i s, i + m = n -> P i s -> loop m i body s = Ok s' -> P n s') as G.
  { induction m as [|m IH]; intros i t Hi Ht Hl; simpl in Hl; inv_ok.
    - by rewrite Nat.add_0_r.
    - eapply (IH (Datatypes.S i)); [lia| |eassumption]. eapply Hstep; [lia|eassumption..]. }
  eapply (G n 0); eauto.
Qed.

(** The rule for a body that may throw, [Q] being what an exception says. *)
Lemma for_inv_throw {S} (P : nat -> S -> Prop) (Q : exn -> Prop) n body (s : S) :
  P 0 s ->
  (∀ j s, j < n -> P j s -> match body j s with Ok s' => P (Datatypes.S j) s' | Throw e => Q e | Undef => False end) ->
  match for_ n body s with Ok s' => P n s' | Throw e => Q e | Undef => False end.
Proof.
  intros H0 Hstep.
  assert (∀ m i s, i + m = n -> P i s ->
    match loop m i body s with Ok s' => P n s' | Throw e => Q e | Undef => False end) as G; [|by apply (G n 0)].
  induction m as [|m IH]; intros i t Hi Ht; simpl; [by rewrite <- Hi, Nat.add_0_r|].
  specialize (Hstep i t ltac:(lia) Ht). destruct (body i t) as [t'|e|]; [|done|done]. apply IH; [lia|done].
Qed.

Lemma for_each_inv {A S} (P : list A -> S -> Prop) l body (s : S) :
  P [] s ->
  (∀ done x s, P done s -> x ∈ l -> ∃ s', body x s = Ok s' ∧ P (done ++ [x]) s') ->
  ∃ s', for_each body l s = Ok s' ∧ P l s'.
Proof.
  intros H0 Hstep.
  assert (∀ todo pre s, (∀ x, x ∈ todo -> x ∈ l) -> P pre s ->
            ∃ s', for_each body todo s = Ok s' ∧ P (pre ++ todo) s') as G.
  { induction todo as [|x todo IH]; intros pre t Hsub Ht; simpl.
    - exists t. by rewrite app_nil_r.
    - destruct (Hstep pre x t) as (t1 & E & H1); [done|apply Hsub; left|].
      rewrite E. simpl. destruct (IH (pre ++ [x]) t1) as (t2 & E2 & H2); [|done|].
      { intros y Hy. apply Hsub. by right. }
      exists t2. split; [done|]. by rewrite <- app_assoc in H2. }
  apply (G l []); auto.
Qed.

(** Code that throws nothing: it returns or is undefined. *)
Definition no_throw {A} (m : outcome A) : Prop := ∀ e, m ≠ Throw e.

Lemma no_throw_bind {A B} (m : outcome A) (f : A -> outcome B) : no_throw m -> (∀ a, no_throw (f a)) -> no_throw (m ≫= f).
Proof. intros Hm Hf e. destruct m as [a|e'|]; simpl; [apply Hf|intros _; by apply (Hm e')|done]. Qed.

Section no_throw.
Context {A B : Type}.
Lemma no_throw_Ok (a : A) : no_throw (Ok a). Proof. done. Qed.
Lemma no_throw_Undef : no_throw (@Undef A). Proof. done. Qed.
Lemma no_throw_for n body (a : A) : (∀ i a, no_throw (body i a)) -> no_throw (for_ n body a).
Proof.
  intros H. unfold for_. generalize 0. revert a. induction n as [|n IH]; intros a i; [by intros e|].
  simpl. apply no_throw_bind; [apply H|]. intros b. apply IH.
Qed.
Lemma no_throw_for_each (l : list B) body (a : A) : (∀ b a, no_throw (body b a)) -> no_throw (for_each body l a).
Proof.
  intros H. revert a. induction l as [|b l IH]; intros a; [by intros e|].
  simpl. apply no_throw_bind; [apply H|done].
Qed.
Lemma no_throw_get (l : list A) i : no_throw (get l i). Proof. intros e. unfold get. by case_match. Qed.
Lemma no_throw_put (l : list A) i v : no_throw (put l i v). Proof. intros e. unfold put. by case_match. Qed.
Lemma no_throw_subspan (l : list A) i n : no_throw (subspan l i n). Proof. intros e. unfold subspan. by case_match. Qed.
Lemma no_throw_blit (l src : list A) i : no_throw (blit l i src). Proof. intros e. unfold blit. by case_match. Qed.
Lemma no_throw_initialised (o : option A) : no_throw (initialised o). Proof. by destruct o. Qed.
End no_throw.
Lemma no_throw_subspanZ {A} (l : list A) i n : no_throw (subspanZ l i n).
Proof. unfold subspanZ. case_match; [apply no_throw_subspan|apply no_throw_Undef]. Qed.
Lemma no_throw_read_all {A} (l : list (option A)) : no_throw (read_all l).
Proof.
  induction l as [|o l IH]; [by intros e|]. apply no_throw_bind; [apply no_throw_initialised|].
  intros a. by apply no_throw_bind.
Qed.
Lemma no_throw_get_init {A} (l : list (option A)) i : no_throw (get_init l i).
Proof. apply no_throw_bind; [apply no_throw_get|apply no_throw_initialised]. Qed.
Lemma no_throw_assert b : no_throw (assert_ b). Proof. by destruct b. Qed.
Lemma no_throw_chk32 z : no_throw (chk32 z). Proof. intros e. unfold chk32. by case_match. Qed.
Lemma no_throw_int_nat n : no_throw (int_nat n). Proof. intros e. unfold int_nat. by case_match. Qed.

Create HintDb nothrow.
#[export] Hint Resolve no_throw_Ok no_throw_Undef no_throw_get no_throw_put no_throw_subspan no_throw_blit
  no_throw_initialised no_throw_subspanZ no_throw_read_all no_throw_get_init no_throw_assert no_throw_chk32
  no_throw_int_nat : nothrow.
Ltac no_throw := repeat first [ assumption | solve [auto with nothrow nocore] | apply no_throw_bind | apply no_throw_for
  | apply no_throw_for_each | case_match
  | match goal with |- ∀ _, _ => intros ? end ].

(** Filling a buffer from the front: the part written and the rest of the old
    contents. *)
Definition filled {A} (a d : list A) : list A := a ++ drop (length a) d.

Lemma length_filled {A} (a d : list A) : length a <= length d -> length (filled a d) = length d.
Proof. intros. unfold filled. rewrite length_app, length_drop. lia. Qed.

Lemma blit_filled {A} (a d src : list A) :
  length a + length src <= length d -> blit (filled a d) (length a) src = Ok (filled (a ++ src) d).
Proof.
  intros H. rewrite blit_le by (rewrite length_filled; lia). f_equal. unfold filled.
  pose proof (list_inserts_app_r src a (drop (length a) d) 0) as E. rewrite Nat.add_0_r in E. rewrite E.
  rewrite length_app, <- app_assoc. f_equal.
  rewrite <- (take_drop (length src) (drop (length a) d)) at 1.
  rewrite list_inserts_0_r by (rewrite length_take, length_drop; lia).
  by rewrite drop_drop, Nat.add_comm.
Qed.

Lemma blit_next {A} (a d src : list A) i :
  i = length a -> length a + length src <= length d -> blit (filled a d) i src = Ok (filled (a ++ src) d).
Proof. intros ->. apply blit_filled. Qed.

Lemma put_filled {A} (a d : list A) x :
  length a < length d -> put (filled a d) (length a) x = Ok (filled (a ++ [x]) d).
Proof.
  intros H. rewrite <- (blit_filled a d [x]) by (simpl; lia).
  rewrite put_lt by (rewrite length_filled; lia). rewrite blit_le by (rewrite length_filled; simpl; lia). done.
Qed.

Lemma put_next {A} (a d : list A) i x :
  i = length a -> length a < length d -> put (filled a d) i x = Ok (filled (a ++ [x]) d).
Proof. intros ->. apply put_filled. Qed.

Lemma filled_full {A} (a d : list A) : length a = length d -> filled a d = a.
Proof. intros H. unfold filled. rewrite H, drop_all. apply app_nil_r. Qed.

Lemma blit_all {A} (d src : list A) : length src = length d -> blit d 0 src = Ok src.
Proof.
  intros H. change (blit (filled [] d) (length (@nil A)) src = Ok src).
  rewrite blit_filled by (simpl; lia). f_equal. by apply filled_full.
Qed.

(** Buffers put together from rows. *)
Lemma concat_map_S {A} (f : nat -> list A) k : concat (map f (seq 0 (S k))) = concat (map f (seq 0 k)) ++ f k.
Proof. rewrite seq_S, map_app, concat_app. simpl. by rewrite app_nil_r. Qed.

Lemma length_concat_map {A} (f : nat -> list A) w k : (∀ i, i < k -> length (f i) = w) ->
length (concat (map f (seq 0 k))) = k * w.
Proof.
induction k as [|k IH]; intros H; [done|]. rewrite concat_map_S, length_app, IH, H by (intros; try apply H; lia). lia.
Qed.

(** Sum of a list of naturals; used for totals of sizes and capacities. *)
Fixpoint sumZ (l : list Z) : Z :=
  match l with [] => 0 | x :: l' => x + sumZ l' end%Z.

Lemma sumZ_app l1 l2 : sumZ (l1 ++ l2) = (sumZ l1 + sumZ l2)%Z.
Proof. induction l1 as [|x l1 IH]; simpl; lia. Qed.
