(* ===== verification/Float32.v ===== *)
(** * Floating point

    [float] is IEEE binary32 and [double] is IEEE binary64, as the
    [spec_float] values of the Standard Library at those formats; every
    operation below rounds to nearest even.  The order lemmas of the last
    part ([flt_trans], [flt_total], ...) hold of all values that are not NaN
    and are what the components that compare scores use. *)
From Stdlib Require Import ZArith Lia SpecFloat.
From stdpp Require Import base numbers list.
From S2P Require Import Prelude.
Local Open Scope Z_scope.

Abbreviation f32 := spec_float (only parsing).
Abbreviation f64 := spec_float (only parsing).

#[export] Instance spec_float_eq_dec : EqDecision spec_float.
Proof. solve_decision. Defined.

Definition is_nan (x : spec_float) : bool := match x with S754_nan => true | _ => false end.

(** ** Arithmetic and comparison at binary32 *)
Definition fadd : f32 -> f32 -> f32 := SFadd 24 128.
Definition fsub : f32 -> f32 -> f32 := SFsub 24 128.
Definition fmul : f32 -> f32 -> f32 := SFmul 24 128.
Definition fdiv : f32 -> f32 -> f32 := SFdiv 24 128.
Definition flt (x y : spec_float) : bool := SFltb x y.
Definition fle (x y : spec_float) : bool := SFleb x y.
Definition feq (x y : spec_float) : bool := SFeqb x y.

Definition f0 : f32 := S754_zero false.
(* static_cast<float> of an integer *)
Definition f32_of_Z (z : Z) : f32 := binary_normalize 24 128 z 0 false.
Definition f1 : f32 := f32_of_Z 1.
(* std::numeric_limits<float>::lowest() *)
Definition f32_lowest : f32 := S754_finite true 16777215 104.

(** [static_cast<float>(double)]: rounding of the value (IEC 559). *)
Definition f32_of_f64 (x : f64) : f32 :=
  match x with
  | S754_finite s m e => binary_normalize 24 128 (cond_Zopp s (Zpos m)) e s
  | _ => x
  end.

(** [static_cast<int>(double)]: truncation; undefined when the truncated value
    is not an [int]. *)
Definition int_of_f64 (x : f64) : outcome Z :=
  match x with
  | S754_zero _ => Ok 0
  | S754_finite s m e =>
      let a := if 0 <=? e then Zpos m * 2 ^ e else Zpos m / 2 ^ (- e) in
      let z := cond_Zopp s a in
      if in_i32 z then Ok z else Undef
  | _ => Undef
  end.

Definition f64_of_Z (z : Z) : f64 := binary_normalize 53 1024 z 0 false.

(** ** Bit patterns *)
Definition f32_of_bits (b : Z) : f32 :=
  let s := Z.testbit b 31 in
  let e := Z.land (Z.shiftr b 23) 255 in
  let m := Z.land b 8388607 in
  if e =? 255 then (if m =? 0 then S754_infinity s else S754_nan)
  else if e =? 0 then
    match m with Zpos p => S754_finite s p (-149) | _ => S754_zero s end
  else S754_finite s (Z.to_pos (m + 8388608)) (e - 150).

Definition bits_of_f32 (x : f32) : Z :=
  let sg (s : bool) := if s then 2147483648 else 0 in
  match x with
  | S754_zero s => sg s
  | S754_infinity s => sg s + 2139095040
  | S754_nan => 2143289344
  | S754_finite s m e =>
      if Zpos m <? 8388608 then sg s + Zpos m
      else sg s + Z.shiftl (e + 150) 23 + (Zpos m - 8388608)
  end.

(** ** The order of the values that are not NaN *)
Section order.
(* a key whose lexicographic order is the order of the floats *)
Definition fkey (x : spec_float) : Z * Z * Z :=
  match x with
  | S754_infinity true => (-2, 0, 0)
  | S754_finite true m e => (-1, - e, - Zpos m)
  | S754_zero _ => (0, 0, 0)
  | S754_finite false m e => (1, e, Zpos m)
  | S754_infinity false => (2, 0, 0)
  | S754_nan => (3, 0, 0)
  end.

Definition lexlt (a b : Z * Z * Z) : Prop :=
  let '(a1, a2, a3) := a in let '(b1, b2, b3) := b in
  a1 < b1 ∨ (a1 = b1 ∧ (a2 < b2 ∨ (a2 = b2 ∧ a3 < b3))).

Lemma flt_key x y :
  flt x y = true ↔ is_nan x = false ∧ is_nan y = false ∧ lexlt (fkey x) (fkey y).
Proof.
  unfold flt, SFltb, lexlt.
  destruct x as [sx|sx| |sx mx ex], y as [sy|sy| |sy my ey]; simpl;
    try destruct sx; try destruct sy; simpl;
    try (split; [try discriminate; intros; repeat split; try reflexivity; lia
                |intros (?&?&?); try discriminate; try reflexivity; lia]).
  - destruct (Z.compare_spec ex ey); [change (Pos.compare_cont Eq mx my) with (Pos.compare mx my);
      destruct (Pos.compare_spec mx my)| |]; simpl; split;
      try discriminate; try (intros (?&?&?)); repeat split; try reflexivity; lia.
  - destruct (Z.compare_spec ex ey); [change (Pos.compare_cont Eq mx my) with (Pos.compare mx my);
      destruct (Pos.compare_spec mx my)| |]; simpl; split;
      try discriminate; try (intros (?&?&?)); repeat split; try reflexivity; lia.
Qed.

Lemma lexlt_trans a b c : lexlt a b -> lexlt b c -> lexlt a c.
Proof. destruct a as [[??]?], b as [[??]?], c as [[??]?]. unfold lexlt. lia. Qed.

Lemma lexlt_irrefl a : ¬ lexlt a a.
Proof. destruct a as [[??]?]. unfold lexlt. lia. Qed.

Lemma lexlt_total a b : lexlt a b ∨ a = b ∨ lexlt b a.
Proof.
  destruct a as [[a1 a2] a3], b as [[b1 b2] b3]. unfold lexlt.
  destruct (Z.lt_trichotomy a1 b1) as [?|[->|?]]; [lia| |lia].
  destruct (Z.lt_trichotomy a2 b2) as [?|[->|?]]; [lia| |lia].
  destruct (Z.lt_trichotomy a3 b3) as [?|[->|?]]; [lia|auto|lia].
Qed.

Lemma flt_irrefl x : flt x x = false.
Proof.
  apply not_true_iff_false. rewrite flt_key. intros (_&_&H). by apply lexlt_irrefl in H.
Qed.

Lemma flt_trans x y z : flt x y = true -> flt y z = true -> flt x z = true.
Proof. rewrite !flt_key. intros (?&?&?) (?&?&?). eauto using lexlt_trans. Qed.

Lemma flt_asym x y : flt x y = true -> flt y x = false.
Proof.
  intros H. apply not_true_iff_false. intros H'.
  pose proof (flt_trans _ _ _ H H') as E. by rewrite flt_irrefl in E.
Qed.

(* negative transitivity: [flt] is a strict weak order on non-NaN values *)
Lemma flt_neg_trans x y z :
  is_nan x = false -> is_nan y = false -> is_nan z = false ->
  flt x y = false -> flt y z = false -> flt x z = false.
Proof.
  intros Hx Hy Hz H1 H2. apply not_true_iff_false. rewrite flt_key. intros (_&_&H3).
  apply not_true_iff_false in H1, H2. rewrite flt_key in H1, H2.
  destruct (lexlt_total (fkey x) (fkey y)) as [?|[E|?]]; [tauto|rewrite E in *; tauto|].
  apply H2. eauto using lexlt_trans.
Qed.

Lemma flt_le_trans x y z :
  is_nan y = false -> is_nan z = false ->
  flt x y = true -> flt z y = false -> flt x z = true.
Proof.
  intros Hy Hz H1 H2. apply not_true_iff_false in H2. rewrite flt_key in *.
  destruct H1 as (Hx&_&H1). repeat split; [done..|].
  destruct (lexlt_total (fkey z) (fkey y)) as [?|[E|?]]; [tauto|by rewrite E|].
  eauto using lexlt_trans.
Qed.

Lemma fle_flt x y : is_nan x = false -> is_nan y = false -> fle x y = negb (flt y x).
Proof.
  unfold fle, flt, SFleb, SFltb.
  destruct x as [sx|sx| |sx mx ex], y as [sy|sy| |sy my ey]; try discriminate; intros _ _;
    simpl; try destruct sx; try destruct sy; try reflexivity; simpl;
    rewrite (Z.compare_antisym ex ey); destruct (Z.compare ex ey); try reflexivity; simpl;
    change (Pos.compare_cont Eq ?a ?b) with (Pos.compare a b);
    rewrite (Pos.compare_antisym mx my); by destruct (Pos.compare mx my).
Qed.

Lemma flt_nan_l y : flt S754_nan y = false.
Proof. reflexivity. Qed.

Lemma flt_nan_r x : flt x S754_nan = false.
Proof. by destruct x as [[]|[]| |[]]. Qed.
End order.

(** [std::max_element] over a span: the index of the first element that no
    later element exceeds (the comparison is [operator<]). *)
Fixpoint max_element_from (best : nat) (bv : spec_float) (i : nat) (l : list spec_float) : nat :=
  match l with
  | [] => best
  | x :: l' =>
      if flt bv x then max_element_from i x (S i) l' else max_element_from best bv (S i) l'
  end.

Definition max_element (l : list spec_float) : nat :=
  match l with [] => O | x :: l' => max_element_from 0 x 1 l' end.

Lemma max_element_from_lt l : ∀ best bv i,
  (best < i)%nat -> (max_element_from best bv i l < i + length l)%nat.
Proof.
  induction l as [|x l IH]; intros best bv i Hb; simpl; [lia|].
  destruct (flt bv x).
  - pose proof (IH i x (S i) ltac:(lia)). lia.
  - pose proof (IH best bv (S i) ltac:(lia)). lia.
Qed.

Lemma max_element_lt l : l ≠ [] -> (max_element l < length l)%nat.
Proof.
  destruct l as [|x l]; [done|]. intros _. simpl.
  pose proof (max_element_from_lt l 0 x 1 ltac:(lia)). lia.
Qed.

(** The element found is not exceeded by any other, and every earlier element
    is strictly below it. *)
Lemma max_element_from_spec l : ∀ pre best bv,
  (pre ++ l) !! best = Some bv -> (best < length pre)%nat ->
  Forall (fun x => is_nan x = false) (pre ++ l) ->
  (∀ j x, pre !! j = Some x -> flt bv x = false ∧ ((j < best)%nat -> flt x bv = true)) ->
  let r := max_element_from best bv (length pre) l in
  ∃ v, (pre ++ l) !! r = Some v ∧
       ∀ j x, (pre ++ l) !! j = Some x -> flt v x = false ∧ ((j < r)%nat -> flt x v = true).
Proof.
  induction l as [|y l IH]; intros pre best bv Hb Hlt Hn Hinv; simpl.
  - rewrite app_nil_r in *. eauto.
  - assert ((pre ++ [y]) ++ l = pre ++ y :: l) as Eapp by by rewrite <- app_assoc.
    assert (length (pre ++ [y]) = S (length pre)) as El by (rewrite length_app; simpl; lia).
    assert (is_nan y = false) as Hy.
    { eapply (proj1 (Forall_lookup _ _) Hn (length pre)). by rewrite lookup_app_r, Nat.sub_diag. }
    assert (is_nan bv = false) as Hbv by (eapply (proj1 (Forall_lookup _ _) Hn); eauto).
    rewrite <- Eapp, <- El. destruct (flt bv y) eqn:E.
    + apply IH.
      * rewrite Eapp, lookup_app_r, Nat.sub_diag by lia. done.
      * lia.
      * by rewrite Eapp.
      * intros j x Hj. apply lookup_app_Some in Hj as [Hj|[Hj1 Hj2]].
        -- apply lookup_lt_Some in Hj as ?. destruct (Hinv j x Hj) as [H1 H2].
           assert (is_nan x = false).
           { eapply (proj1 (Forall_lookup _ _) Hn j). by rewrite lookup_app_l. }
           split.
           ++ apply flt_asym. destruct (flt x y) eqn:E3; [done|].
              pose proof (flt_neg_trans bv x y Hbv ltac:(done) Hy H1 E3). congruence.
           ++ intros _. destruct (flt x y) eqn:E3; [done|].
              pose proof (flt_neg_trans bv x y Hbv ltac:(done) Hy H1 E3). congruence.
        -- apply list_lookup_singleton_Some in Hj2 as [Hj2 ->].
           split; [apply flt_irrefl | lia].
    + apply IH.
      * by rewrite Eapp.
      * lia.
      * by rewrite Eapp.
      * intros j x Hj. apply lookup_app_Some in Hj as [Hj|[Hj1 Hj2]]; [by apply Hinv|].
        apply list_lookup_singleton_Some in Hj2 as [Hj2 ->]. split; [done|lia].
Qed.

Lemma max_element_spec l :
  l ≠ [] -> Forall (fun x => is_nan x = false) l ->
  ∃ v, l !! max_element l = Some v ∧
       ∀ j x, l !! j = Some x ->
         flt v x = false ∧ ((j < max_element l)%nat -> flt x v = true).
Proof.
  destruct l as [|x l]; [done|]. intros _ Hn.
  apply (max_element_from_spec l [x] 0 x); [done|simpl; lia|done|].
  intros j y Hj. apply list_lookup_singleton_Some in Hj as [-> ->].
  split; [apply flt_irrefl|lia].
Qed.
