(* ===== verification/Rounding.v ===== *)
(** * What single-precision rounding keeps

    Signs and definedness of the [f32] operations: a rounded result is a number
    of the sign asked for, the sum of a positive and a nonnegative float is
    positive, and a float less one that is not smaller is not positive. *)
From Stdlib Require Import ZArith Lia SpecFloat.
From stdpp Require Import base numbers list.
From S2P Require Import Prelude Float32.
Local Open Scope Z_scope.

(* a finite float in its canonical form; the infinities and NaN are not *)
Definition finite (x : f32) : Prop :=
  match x with S754_zero _ => True | S754_finite _ m e => bounded 24 128 m e = true | _ => False end.

(* a number with the sign [s], zeros and infinities included *)
Definition signed (s : bool) (x : f32) : Prop :=
  match x with S754_zero t | S754_infinity t | S754_finite t _ _ => t = s | S754_nan => False end.

(* zero, below zero or the negative infinity *)
Definition nonpos (x : f32) : Prop :=
  match x with S754_zero _ => True | S754_infinity t | S754_finite t _ _ => t = true | S754_nan => False end.

(* above zero, not below the least exponent *)
Definition above0 (x : f32) : Prop :=
  match x with S754_infinity t => t = false | S754_finite t _ e => t = false ∧ -149 <= e | _ => False end.

(* zero or above, and finite *)
Definition nonneg_finite (x : f32) : Prop :=
  match x with S754_zero _ => True | S754_finite t _ e => t = false ∧ -149 <= e | _ => False end.

Definition pos_finite (x : f32) : bool := match x with S754_finite false _ _ => true | _ => false end.

Lemma signed_number s x : signed s x -> is_nan x = false.
Proof. by destruct x. Qed.

Lemma finite_number x : finite x -> is_nan x = false.
Proof. by destruct x. Qed.

Lemma nonpos_number x : nonpos x -> is_nan x = false.
Proof. by destruct x. Qed.

(** ** Mantissas *)
Lemma digits2_bounds p : 2 ^ (Z.pos (digits2_pos p) - 1) <= Z.pos p < 2 ^ Z.pos (digits2_pos p).
Proof.
  induction p as [p IH|p IH|]; [..|simpl; lia]; simpl digits2_pos; rewrite Pos2Z.inj_succ.
  all: replace (Z.succ (Z.pos (digits2_pos p)) - 1) with (Z.succ (Z.pos (digits2_pos p) - 1)) by lia.
  all: rewrite !Z.pow_succ_r by lia; lia.
Qed.

Lemma shr_1_div r : 0 <= shr_m r -> shr_m (shr_1 r) = shr_m r / 2.
Proof.
  destruct r as [[|[p|p|]|p] a b]; simpl; intros H; try lia; try done.
  - apply (Z.div_unique_pos _ _ _ 1); lia.
  - apply (Z.div_unique_pos _ _ _ 0); lia.
Qed.

Lemma iter_shr p : ∀ r, 0 <= shr_m r -> shr_m (SpecFloat.iter_pos shr_1 p r) = shr_m r / 2 ^ Z.pos p.
Proof.
  induction p as [p IH|p IH|]; intros r Hr; simpl SpecFloat.iter_pos.
  - assert (0 <= shr_m (shr_1 r)) as H1 by (rewrite shr_1_div by done; by apply Z.div_pos).
    assert (0 <= shr_m (SpecFloat.iter_pos shr_1 p (shr_1 r))) as H2 by (rewrite IH by done; apply Z.div_pos; lia).
    rewrite IH, IH, shr_1_div by done. rewrite !Z.div_div by lia. f_equal.
    rewrite Pos2Z.inj_xI. replace (2 * Z.pos p + 1) with (1 + (Z.pos p + Z.pos p)) by lia. rewrite !Z.pow_add_r by lia. lia.
  - assert (0 <= shr_m (SpecFloat.iter_pos shr_1 p r)) as H2 by (rewrite IH by done; apply Z.div_pos; lia).
    rewrite IH, IH by done. rewrite Z.div_div by lia. f_equal.
    by rewrite (Pos2Z.inj_xO p), <- Z.add_diag, Z.pow_add_r by lia.
  - by rewrite shr_1_div.
Qed.

Lemma shr_m_of_loc m l : shr_m (shr_record_of_loc m l) = m.
Proof. by destruct l as [|[]]. Qed.

Abbreviation shift := (shr_fexp 24 128).

Lemma shr_fexp_nonneg m e l : 0 <= m -> 0 <= shr_m (shift m e l).1.
Proof.
  intros H. unfold shr_fexp, shr. destruct (_ - e) as [|n|n]; simpl; rewrite ?iter_shr; rewrite ?shr_m_of_loc; try done.
  apply Z.div_pos; lia.
Qed.

(* shifting a mantissa to 24 digits leaves some of it *)
Lemma shr_fexp_pos m e l : 0 < m -> -149 <= e -> 0 < shr_m (shift m e l).1 ∧ -149 <= (shift m e l).2.
Proof.
  intros Hm He. destruct m as [|m|m]; try lia. pose proof (digits2_bounds m) as [Hd _].
  unfold shr_fexp, shr. simpl Zdigits2. unfold fexp, emin.
  destruct (Z.max (Z.pos (digits2_pos m) + e - 24) (3 - 128 - 24) - e) as [|n|n] eqn:E; simpl fst; simpl snd.
  - rewrite shr_m_of_loc. lia.
  - rewrite iter_shr by (rewrite shr_m_of_loc; lia). rewrite shr_m_of_loc. split; [|lia].
    apply Z.div_str_pos. split; [lia|]. etransitivity; [|exact Hd]. apply Z.pow_le_mono_r; lia.
  - rewrite shr_m_of_loc. lia.
Qed.

Lemma round_le m l : m <= round_nearest_even m l.
Proof. destruct l as [|[]]; simpl; try destruct (Z.even m); lia. Qed.

(** ** Rounding *)
Lemma binary_round_aux_signed s m e l : 0 <= m -> signed s (binary_round_aux 24 128 s m e l).
Proof.
  intros Hm. unfold binary_round_aux. pose proof (shr_fexp_nonneg m e l Hm) as H1. destruct (shift m e l) as [r1 e1]. cbn [fst] in H1.
  pose proof (round_le (shr_m r1) (loc_of_shr_record r1)) as H2.
  pose proof (shr_fexp_nonneg (round_nearest_even (shr_m r1) (loc_of_shr_record r1)) e1 loc_Exact ltac:(lia)) as H3.
  destruct (shift _ e1 loc_Exact) as [r2 e2]. cbn [fst] in H3. destruct (shr_m r2); [done| |lia]. by destruct (_ <=? _).
Qed.

Lemma binary_round_aux_positive m e l : 0 < m -> -149 <= e -> above0 (binary_round_aux 24 128 false m e l).
Proof.
  intros Hm He. unfold binary_round_aux. pose proof (shr_fexp_pos m e l Hm He) as [H1 H1'].
  destruct (shift m e l) as [r1 e1]. cbn [fst snd] in H1, H1'.
  pose proof (round_le (shr_m r1) (loc_of_shr_record r1)) as H2.
  pose proof (shr_fexp_pos (round_nearest_even (shr_m r1) (loc_of_shr_record r1)) e1 loc_Exact ltac:(lia) H1') as [H3 H3'].
  destruct (shift _ e1 loc_Exact) as [r2 e2]. cbn [fst snd] in H3, H3'. destruct (shr_m r2); [lia| |lia]. by destruct (_ <=? _).
Qed.

Lemma binary_round_signed s m e : signed s (binary_round 24 128 s m e).
Proof. unfold binary_round. destruct (shl_align _ _ _) as [mz ez]. by apply binary_round_aux_signed. Qed.

Lemma binary_round_positive m e : -149 <= e -> above0 (binary_round 24 128 false m e).
Proof.
  intros He. unfold binary_round, shl_align. destruct (_ - e) as [|d|d] eqn:E; apply binary_round_aux_positive; try lia.
  unfold fexp, emin in *. lia.
Qed.

(** ** Sums *)
Lemma fadd_positive x y : above0 x -> nonneg_finite y -> above0 (fadd x y) ∧ above0 (fadd y x).
Proof.
  unfold fadd. destruct x as [|s| |s m e], y as [t|t| |t m' e']; try done; simpl;
    intros Hx Hy; destruct_and?; subst; try done.
  split; apply binary_round_positive; lia.
Qed.

Lemma fadd_nonneg x y : nonneg_finite x -> nonneg_finite y -> (∃ s, fadd x y = S754_zero s) ∨ above0 (fadd x y).
Proof.
  intros Hx Hy. destruct x as [s|s| |s m e]; try done.
  - destruct y as [t|t| |t m' e']; try done; [left; destruct s, t; by eexists|by right].
  - right. by apply (fadd_positive (S754_finite s m e) y).
Qed.

(* a sum of floats that are not negative, one of them not zero *)
Lemma fold_fadd_positive l : Forall nonneg_finite l -> ∀ a, above0 a -> above0 (fold_left fadd l a).
Proof.
  induction 1 as [|x l Hx _ IH]; intros a Ha; [done|]. cbn [fold_left]. apply IH. by apply (fadd_positive a x).
Qed.

Lemma fold_fadd_sum l : Forall nonneg_finite l -> ∀ s, (∃ x, x ∈ l ∧ above0 x) -> above0 (fold_left fadd l (S754_zero s)).
Proof.
  induction 1 as [|x l Hx Hl IH]; intros s (y & Hy & Hp); [by apply elem_of_nil in Hy|]. cbn [fold_left].
  destruct (fadd_nonneg (S754_zero s) x ltac:(done) Hx) as [[t Et]|H]; [|by apply fold_fadd_positive].
  rewrite Et. apply IH. apply elem_of_cons in Hy as [->|Hy]; [|by exists y].
  destruct (fadd_positive x (S754_zero s) Hp I) as [_ H]. by rewrite Et in H.
Qed.

(** ** Quotients *)
Lemma SFdiv_core_nonneg m e m' e' q ez lz : SFdiv_core_binary 24 128 (Z.pos m) e (Z.pos m') e' = (q, ez, lz) -> 0 <= q.
Proof.
  unfold SFdiv_core_binary. match goal with |- context [Z.div_eucl ?a _] => assert (0 <= a) as Ha end.
  { destruct (_ - _ - _) as [|n|n]; [lia| |lia]. rewrite Z.shiftl_mul_pow2 by lia. lia. }
  match goal with |- context [Z.div_eucl ?a ?b] => pose proof (Z.div_pos a b Ha ltac:(lia)) as Hq; unfold Z.div in Hq; destruct (Z.div_eucl a b) end.
  by intros [= <- _ _].
Qed.

Lemma fdiv_finite s m e t m' e' : signed (xorb s t) (fdiv (S754_finite s m e) (S754_finite t m' e')).
Proof.
  unfold fdiv, SFdiv. destruct (SFdiv_core_binary 24 128 (Z.pos m) e (Z.pos m') e') as [[q ez] lz] eqn:E.
  apply binary_round_aux_signed. by eapply SFdiv_core_nonneg.
Qed.

Lemma fdiv_nonpos x t : nonpos x -> pos_finite t = true -> nonpos (fdiv x t).
Proof.
  destruct t as [|?| |[] m' e']; try done. destruct x as [s|s| |s m e]; try done; intros Hs _; simpl in Hs; subst; [done|].
  pose proof (fdiv_finite true m e false m' e') as H. by destruct (fdiv _ _).
Qed.

Lemma fdiv_zero s t : pos_finite t = true -> ∃ s', fdiv (S754_zero s) t = S754_zero s'.
Proof. destruct t as [|?| |[] m' e']; try done. intros _. by eexists. Qed.

Lemma fdiv_share x y : nonneg_finite x -> above0 y -> is_nan (fdiv x y) = false.
Proof.
  destruct x as [s|s| |s m e], y as [t|t| |t m' e']; try done. intros _ _.
  by apply (signed_number (xorb s t)), fdiv_finite.
Qed.

(** ** Differences *)
Lemma shl_align_mul m e ez : ez <= e -> Z.pos (fst (shl_align m e ez)) = Z.pos m * 2 ^ (e - ez).
Proof.
  intros H. unfold shl_align. destruct (ez - e) as [|d|d] eqn:E; [|lia|].
  - replace (e - ez) with 0 by lia. simpl. lia.
  - replace (e - ez) with (Z.pos d) by lia. simpl fst. clear. change (Z.pos m * 2 ^ Z.pos d) with (Z.pos m * Z.pow_pos 2 d).
    unfold Z.pow_pos. induction d as [|d IH] using Pos.peano_ind; [simpl; lia|]. rewrite !Pos.iter_succ. lia.
Qed.

(* of two canonical mantissas the one with the greater exponent is not smaller *)
Lemma canonical_lt m e m' e' : bounded 24 128 m e = true -> bounded 24 128 m' e' = true -> e < e' ->
  Z.pos m * 2 ^ (e - e) < Z.pos m' * 2 ^ (e' - e).
Proof.
  unfold bounded, canonical_mantissa, fexp, emin. intros [H _]%andb_true_iff [H' _]%andb_true_iff Hlt.
  apply Z.eqb_eq in H, H'. pose proof (digits2_bounds m) as [_ Hm]. pose proof (digits2_bounds m') as [Hm' _].
  rewrite Z.sub_diag, Z.mul_1_r. apply Z.lt_le_trans with (2 ^ 24).
  - apply Z.lt_le_trans with (2 ^ Z.pos (digits2_pos m)); [done|]. apply Z.pow_le_mono_r; lia.
  - assert (Z.pos (digits2_pos m') - 1 = 23) as E by lia. rewrite E in Hm'.
    assert (2 ^ 1 <= 2 ^ (e' - e)) by (apply Z.pow_le_mono_r; lia). change (2 ^ 24) with (2 ^ 23 * 2 ^ 1). nia.
Qed.

Definition aligned (e : Z) (s : bool) (m : positive) (ex : Z) : Z := cond_Zopp s (Z.pos (fst (shl_align m ex e))).

Lemma SFsub_finite s m e t m' e' : SFsub 24 128 (S754_finite s m e) (S754_finite t m' e') =
  binary_normalize 24 128 (aligned (Z.min e e') s m e - aligned (Z.min e e') t m' e') (Z.min e e') false.
Proof. done. Qed.

(* the order of canonical floats is that of their values *)
Lemma aligned_le s m e t m' e' : bounded 24 128 m e = true -> bounded 24 128 m' e' = true ->
  flt (S754_finite t m' e') (S754_finite s m e) = false ->
  aligned (Z.min e e') s m e <= aligned (Z.min e e') t m' e'.
Proof.
  intros Hm Hm' Hlt. unfold aligned. rewrite !shl_align_mul by lia.
  assert (0 < 2 ^ (e - Z.min e e')) by (apply Z.pow_pos_nonneg; lia). assert (0 < 2 ^ (e' - Z.min e e')) by (apply Z.pow_pos_nonneg; lia).
  unfold flt, SFltb in Hlt. simpl in Hlt.
  destruct s, t; simpl cond_Zopp; [|nia|done|]; destruct (Z.compare_spec e' e) as [->|Hc|Hc]; try done.
  - rewrite Z.min_id, Z.sub_diag, Z.pow_0_r, !Z.mul_1_r. destruct (Pos.compare_cont Eq m' m) eqn:E; simpl in Hlt; try done;
      change (Pos.compare_cont Eq m' m) with (m' ?= m)%positive in E.
    + apply Pos.compare_eq in E as ->. lia.
    + change (m' < m)%positive in E. lia.
  - rewrite Z.min_r by lia. pose proof (canonical_lt m' e' m e Hm' Hm Hc). lia.
  - rewrite Z.min_id, Z.sub_diag, Z.pow_0_r, !Z.mul_1_r. destruct (Pos.compare_cont Eq m' m) eqn:E; simpl in Hlt; try done;
      change (Pos.compare_cont Eq m' m) with (m' ?= m)%positive in E.
    + apply Pos.compare_eq in E as ->. lia.
    + apply Pos.compare_gt_iff, Pos2Z.pos_lt_pos in E. lia.
  - rewrite Z.min_l by lia. pose proof (canonical_lt m e m' e' Hm Hm' Hc). lia.
Qed.

Lemma fsub_nonpos x y : finite x -> finite y -> flt y x = false -> nonpos (fsub x y).
Proof.
  unfold fsub. destruct x as [s|s| |s m e], y as [t|t| |t m' e']; try done; intros Hx Hy Hlt.
  - by destruct s, t.
  - by destruct t.
  - by destruct s.
  - rewrite SFsub_finite. pose proof (aligned_le s m e t m' e' Hx Hy Hlt) as H.
    destruct (aligned _ s m e - aligned _ t m' e') as [|z|z] eqn:E; [done|lia|].
    unfold binary_normalize. pose proof (binary_round_signed true z (Z.min e e')) as Hs. by destruct (binary_round _ _ _ _ _).
Qed.

Lemma fsub_self x : finite x -> ∃ s, fsub x x = S754_zero s.
Proof.
  unfold fsub. destruct x as [s|s| |s m e]; try done; intros _.
  - exists (match s with true => false | false => false end). by destruct s.
  - rewrite SFsub_finite, Z.sub_diag. by eexists.
Qed.

Lemma fsub_infinity y : finite y -> fsub (S754_infinity true) y = S754_infinity true.
Proof. by destruct y. Qed.
