(* ===== verification/Json.v ===== *)
(** * JSON parser (src/json.h, src/json.cpp)

    The recursive-descent parser and its callback interface
    [JSON::Element].  [Element] is the interface as a type class: an element
    type [E] (the C++ objects) and the state [S] the callbacks mutate.  The
    parser is a state monad over the unread input and [S]; a callback or the
    parser may throw, and the position at the throw is kept because the
    top-level handler reports it.

    [parse_value_walk] is the functional specification: on the text of a
    document the parser performs exactly the callbacks of a walk over the
    document tree.  [parse_total] is termination: the fuel [parse] supplies is
    always enough. *)
From Stdlib Require Import ZArith Lia SpecFloat Ascii String.
From stdpp Require Import base numbers list strings pretty.
From S2P Require Import Prelude Float32.
Local Open Scope Z_scope.

(** ** [JSON::Element] *)
Class Element (E S : Type) := {
  on_complete : E -> bool -> S -> outcome S;
  on_string : E -> string -> string -> S -> outcome S;
  on_number : E -> string -> f64 -> S -> outcome S;
  on_bool : E -> string -> bool -> S -> outcome S;
  on_null : E -> string -> S -> outcome S;
  on_array : E -> string -> S -> outcome (E * S);
  on_object : E -> string -> S -> outcome (E * S);
}.

(** The bodies of the base class: an override replaces one of them. *)
Definition default_on_complete {S} (_ : bool) (s : S) : outcome S := Ok s.
Definition default_on_value {S V} (_ : string) (_ : V) (_ : S) : outcome S := Throw UnknownValueError.
Definition default_on_null {S} (_ : string) (_ : S) : outcome S := Throw UnknownValueError.
Definition default_on_child {E S} (_ : string) (_ : S) : outcome (E * S) := Throw UnknownValueError.

(** ** Characters *)
Definition is_digit (c : ascii) : bool :=
  (48 <=? N_of_ascii c)%N && (N_of_ascii c <=? 57)%N.
Definition digit_val (c : ascii) : Z := Z.of_N (N_of_ascii c) - 48.
Definition is_hex (c : ascii) : bool :=
  is_digit c || ((65 <=? N_of_ascii c)%N && (N_of_ascii c <=? 70)%N)
  || ((97 <=? N_of_ascii c)%N && (N_of_ascii c <=? 102)%N).
Definition is_ws (c : ascii) : bool :=
  (N_of_ascii c =? 32)%N || (N_of_ascii c =? 9)%N || (N_of_ascii c =? 13)%N || (N_of_ascii c =? 10)%N.
Definition ch (n : N) : ascii := ascii_of_N n.
Definition lf : ascii := ch 10.
Definition dquote : ascii := ch 34.
Definition backslash : ascii := ch 92.

(** ** [std::from_chars] for [double] (chars_format::general) *)
Fixpoint span_digits (l : list ascii) : list ascii * list ascii :=
  match l with
  | c :: l' => if is_digit c then let '(d, r) := span_digits l' in (c :: d, r) else ([], l)
  | [] => ([], [])
  end.

Definition digits_val (ds : list ascii) : Z := fold_left (fun a c => 10 * a + digit_val c) ds 0.

(* the double nearest to (-1)^s * d * 10^x *)
Definition f64_of_dec (s : bool) (d x : Z) : f64 :=
  match d with
  | Zpos p =>
      if 0 <=? x then binary_normalize 53 1024 (cond_Zopp s (d * 10 ^ x)) 0 s
      else let '(m, e, lz) := SFdiv_core_binary 53 1024 d 0 (10 ^ (- x)) 0 in
           binary_round_aux 53 1024 s m e lz
  | _ => S754_zero s
  end.

Definition lower (c : ascii) : ascii :=
  if (65 <=? N_of_ascii c)%N && (N_of_ascii c <=? 90)%N then ascii_of_N (N_of_ascii c + 32) else c.

(* case-insensitive prefix; the rest after it *)
Fixpoint strip_ci (pat l : list ascii) : option (list ascii) :=
  match pat, l with
  | [], _ => Some l
  | p :: pat', c :: l' => if Ascii.eqb p (lower c) then strip_ci pat' l' else None
  | _, [] => None
  end.

Definition is_alnum_ (c : ascii) : bool :=
  is_digit c || ((97 <=? N_of_ascii (lower c))%N && (N_of_ascii (lower c) <=? 122)%N)
  || (N_of_ascii c =? 95)%N.

(* the optional "(n-char-seq)" after "nan" *)
Fixpoint strip_nan_tail (l : list ascii) : option (list ascii) :=
  match l with
  | c :: l' => if (N_of_ascii c =? 41)%N then Some l'
               else if is_alnum_ c then strip_nan_tail l' else None
  | [] => None
  end.

Definition from_chars_special (s : bool) (l : list ascii) : option (f64 * list ascii) :=
  match strip_ci (list_ascii_of_string "inf") l with
  | Some r => Some (S754_infinity s,
                    match strip_ci (list_ascii_of_string "inity") r with Some r' => r' | None => r end)
  | None =>
      match strip_ci (list_ascii_of_string "nan") l with
      | Some (c :: r) =>
          Some (S754_nan, if (N_of_ascii c =? 40)%N
                          then match strip_nan_tail r with Some r' => r' | None => c :: r end
                          else c :: r)
      | Some [] => Some (S754_nan, [])
      | None => None
      end
  end.

(* the optional exponent part: its value and the rest *)
Definition from_chars_exp (l : list ascii) : Z * list ascii :=
  match l with
  | c :: l' =>
      if (N_of_ascii (lower c) =? 101)%N then
        let '(neg, l2) := match l' with
                          | s :: t => if (N_of_ascii s =? 45)%N then (true, t)
                                      else if (N_of_ascii s =? 43)%N then (false, t) else (false, l')
                          | [] => (false, l') end in
        match span_digits l2 with
        | ([], _) => (0, l)
        | (ds, r) => (if (neg : bool) then - digits_val ds else digits_val ds, r)
        end
      else (0, l)
  | [] => (0, [])
  end.

(** [None] is any error code; the value and the unread rest otherwise. *)
Definition from_chars (l : list ascii) : option (f64 * list ascii) :=
  let '(s, l1) := match l with
                  | c :: t => if (N_of_ascii c =? 45)%N then (true, t) else (false, l)
                  | [] => (false, l) end in
  let '(ip, l2) := span_digits l1 in
  let '(fp, l3) := match l2 with
                   | c :: t => if (N_of_ascii c =? 46)%N then
                                 match ip, span_digits t with
                                 | [], ([], _) => ([], l2)
                                 | _, (fp, r) => (fp, r) end
                               else ([], l2)
                   | [] => ([], l2) end in
  match ip ++ fp with
  | [] => from_chars_special s l1
  | ds =>
      let '(x, l4) := from_chars_exp l3 in
      let d := digits_val ds in
      match f64_of_dec s d (x - Z.of_nat (length fp)) with
      | S754_infinity _ => None                                  (* result_out_of_range *)
      | S754_zero z => if d =? 0 then Some (S754_zero z, l4) else None
      | v => Some (v, l4)
      end
  end.

(** ** The parser object

    The unread input stands for [current_] (its length is [end_ - current_]). *)
Section parser.
Context {E S : Type} `{EL : !Element E S}.

Record pst := PSt { rest : list ascii; st : S }.

(* [None]: out of fuel *)
Definition P (A : Type) : Type := pst -> option (outcome A * pst).
Definition ret {A} (a : A) : P A := fun s => Some (Ok a, s).
Definition bindP {A B} (m : P A) (f : A -> P B) : P B := fun s =>
  match m s with
  | Some (Ok a, s') => f a s'
  | Some (Throw e, s') => Some (Throw e, s')
  | Some (Undef, s') => Some (Undef, s')
  | None => None
  end.
Definition throw {A} (msg : string) : P A := fun s => Some (Throw (RuntimeError msg), s).
Definition call {A} (f : S -> outcome (A * S)) : P A := fun s =>
  match f (st s) with
  | Ok (a, t) => Some (Ok a, PSt (rest s) t)
  | Throw e => Some (Throw e, s)
  | Undef => Some (Undef, s)
  end.
Definition call_ (f : S -> outcome S) : P unit := call (fun s => t ← f s; Ok ((), t)).
Definition out_of_fuel {A} : P A := fun _ => None.

Notation "'let!' x := m 'in' k" := (bindP m (fun x => k))
  (at level 10, x name, m at level 100, k at level 200).
Notation "m ;! k" := (bindP m (fun _ => k)) (at level 90, right associativity).

(* catch (const unknown_value_error&) { throw runtime_error("Unknown value: " + name) } *)
Definition catch_unknown (name : string) (m : P unit) : P unit := fun s =>
  match m s with
  | Some (Throw UnknownValueError, s') => Some (Throw (RuntimeError ("Unknown value: " ++ name)%string), s')
  | r => r
  end.

(** [bool Skip(char c)] *)
Definition Skip (c : ascii) : P bool := fun s =>
  match rest s with
  | c' :: r => if Ascii.eqb c' c then Some (Ok true, PSt r (st s)) else Some (Ok false, s)
  | [] => Some (Ok false, s)
  end.

(** [bool Skip(const char (&sz)[TCount])] *)
Definition Skip_str (sz : string) : P bool := fun s =>
  let pat := list_ascii_of_string sz in
  if decide (length (rest s) <= length pat)%nat then Some (Ok false, s)
  else if decide (take (length pat) (rest s) = pat)
       then Some (Ok true, PSt (drop (length pat) (rest s)) (st s))
       else Some (Ok false, s).

Definition GetChar : P ascii := fun s =>
  match rest s with
  | [] => Some (Throw (RuntimeError "Unexpected end of JSON data"), s)
  | c :: r => Some (Ok c, PSt r (st s))
  end.

Fixpoint skip_ws (l : list ascii) : list ascii :=
  match l with
  | c :: l' => if is_ws c then skip_ws l' else l
  | [] => []
  end.

Definition Parse_Whitespace : P unit := fun s => Some (Ok (), PSt (skip_ws (rest s)) (st s)).

Definition Parse_Number : P f64 := fun s =>
  match from_chars (rest s) with
  | Some (v, r) => Some (Ok v, PSt r (st s))
  | None => Some (Throw (RuntimeError "Expecting number"), s)
  end.

(* the character an escape sequence stands for, or an error message;
   [l] is the input after the escape letter, the second component the
   input left when the error is raised *)
Definition escape (c : ascii) (l : list ascii) : ascii + (string * list ascii) :=
  match N_of_ascii c with
  | 98%N => inl (ch 8)      (* \b *)
  | 110%N => inl (ch 10)    (* \n *)
  | 102%N => inl (ch 12)    (* \f *)
  | 114%N => inl (ch 13)    (* \r *)
  | 116%N => inl (ch 9)     (* \t *)
  | 117%N =>                (* \u *)
      if decide (length l < 4)%nat then inr ("End of file parsing string uXXXX code"%string, l)
      else if forallb is_hex (take 4 l) then inr ("Unsupported uXXXX code used"%string, drop 4 l)
      else inr ("Error parsing uXXXX code"%string, l)
  | _ => inl c
  end.

Fixpoint parse_string_loop (l acc : list ascii) : outcome string * list ascii :=
  match l with
  | [] => (Throw (RuntimeError "Unexpected end of JSON data"), [])
  | c :: l1 =>
      if (N_of_ascii c =? 0)%N || Ascii.eqb c dquote then
        (Ok (string_of_list_ascii (rev acc)), l1)
      else if Ascii.eqb c backslash then
        match l1 with
        | [] => (Throw (RuntimeError "Unexpected end of JSON data"), [])
        | c2 :: l2 =>
            match escape c2 l2 with
            | inl c3 => parse_string_loop l2 (c3 :: acc)
            | inr (msg, r) => (Throw (RuntimeError msg), r)
            end
        end
      else parse_string_loop l1 (c :: acc)
  end.

Definition Parse_String : P string := fun s =>
  let '(r, l) := parse_string_loop (rest s) [] in Some (r, PSt l (st s)).

(** The [switch] of [Parse_Value], with the continuations of [Parse_Object]
    and [Parse_Array] after their leading whitespace and their empty case.
    The literals [true], [false] and [null] are skipped without an error when
    they do not match, and an unknown first character is ignored, as in the
    source. *)
Definition value_switch (object_loop array_loop : E -> P unit) (e : E) (name : string) : P unit :=
  let! c := GetChar in
  match N_of_ascii c with
  | 123%N => (* { *)
      let! e' := call (on_object e name) in
      Parse_Whitespace ;!
      let! b := Skip (ch 125) in
      if b : bool then call_ (on_complete e' true) else object_loop e'
  | 91%N => (* [ *)
      let! e' := call (on_array e name) in
      Parse_Whitespace ;!
      let! b := Skip (ch 93) in
      if b : bool then call_ (on_complete e' true) else array_loop e'
  | 34%N => (* dquote *)
      let! v := Parse_String in call_ (on_string e name v)
  | 116%N => let! b := Skip_str "rue" in
             if b : bool then call_ (on_bool e name true) else ret ()
  | 102%N => let! b := Skip_str "alse" in
             if b : bool then call_ (on_bool e name false) else ret ()
  | 110%N => let! b := Skip_str "ull" in
             if b : bool then call_ (on_null e name) else ret ()
  | _ =>
      if is_digit c || (N_of_ascii c =? 45)%N then
        (fun s => Some (Ok (), PSt (c :: rest s) (st s))) ;!   (* --current_ *)
        let! v := Parse_Number in call_ (on_number e name v)
      else ret ()
  end.

(** [Parse_Value], and the [while (true)] loops of [Parse_Object] and
    [Parse_Array]. *)
Fixpoint Parse_Value (fuel : nat) (e : E) (name : string) {struct fuel} : P unit :=
  match fuel with
  | O => out_of_fuel
  | Datatypes.S fuel =>
      Parse_Whitespace ;!
      catch_unknown name (value_switch (Object_loop fuel) (Array_loop fuel) e name) ;!
      Parse_Whitespace
  end
with Object_loop (fuel : nat) (e : E) {struct fuel} : P unit :=
  match fuel with
  | O => out_of_fuel
  | Datatypes.S fuel =>
      let! b := Skip dquote in
      if negb b then throw ("Expecting " ++ String dquote " to start next object name, possibly due to an extra trailing ',' before this")
      else
        let! name := Parse_String in
        Parse_Whitespace ;!
        let! c := GetChar in
        if negb (Ascii.eqb c (ch 58)) then throw "Expecting :"
        else
          Parse_Value fuel e name ;!
          let! c := GetChar in
          if Ascii.eqb c (ch 44) then Parse_Whitespace ;! Object_loop fuel e
          else if Ascii.eqb c (ch 125) then call_ (on_complete e false)
          else throw "Expecting } or ,"
  end
with Array_loop (fuel : nat) (e : E) {struct fuel} : P unit :=
  match fuel with
  | O => out_of_fuel
  | Datatypes.S fuel =>
      Parse_Value fuel e "" ;!
      let! c := GetChar in
      if Ascii.eqb c (ch 44) then Array_loop fuel e
      else if Ascii.eqb c (ch 93) then call_ (on_complete e false)
      else throw "Expecting ] or ,"
  end.

(* one unfolding of each of the three *)
Lemma Parse_Value_S fuel e name :
  Parse_Value (Datatypes.S fuel) e name =
    (Parse_Whitespace ;!
     catch_unknown name (value_switch (Object_loop fuel) (Array_loop fuel) e name) ;!
     Parse_Whitespace).
Proof. reflexivity. Qed.

Lemma Object_loop_S fuel e :
  Object_loop (Datatypes.S fuel) e =
    (let! b := Skip dquote in
     if negb b then throw ("Expecting " ++ String dquote " to start next object name, possibly due to an extra trailing ',' before this")
     else
       let! name := Parse_String in
       Parse_Whitespace ;!
       let! c := GetChar in
       if negb (Ascii.eqb c (ch 58)) then throw "Expecting :"
       else
         Parse_Value fuel e name ;!
         let! c := GetChar in
         if Ascii.eqb c (ch 44) then Parse_Whitespace ;! Object_loop fuel e
         else if Ascii.eqb c (ch 125) then call_ (on_complete e false)
         else throw "Expecting } or ,").
Proof. reflexivity. Qed.

Lemma Array_loop_S fuel e :
  Array_loop (Datatypes.S fuel) e =
    (Parse_Value fuel e "" ;!
     let! c := GetChar in
     if Ascii.eqb c (ch 44) then Array_loop fuel e
     else if Ascii.eqb c (ch 93) then call_ (on_complete e false)
     else throw "Expecting ] or ,").
Proof. reflexivity. Qed.

(** The line and index the error report names, from the text before
    [current_]. *)
Fixpoint error_position (before : list ascii) (i last line : Z) : Z * Z :=
  match before with
  | [] => (line, i - last)
  | c :: l => if Ascii.eqb c lf then error_position l (i + 1) i (line + 1)
              else error_position l (i + 1) last line
  end.

Definition what (e : exn) : string :=
  match e with
  | RuntimeError m => m
  | UnknownValueError => "std::exception"
  | BadOptionalAccess => "bad optional access"
  | LengthError => "vector::_M_default_append"
  | OutOfRange => "out of range"
  | ResultException _ => ""            (* DirectML's, which no element throws *)
  end.

Definition json_error (doc : list ascii) (at_ : list ascii) (e : exn) : exn :=
  let '(line, index) := error_position (take (length doc - length at_) doc) 0 0 1 in
  RuntimeError ("JSON Error: " ++ what e ++ " at line " ++ pretty line ++ " index " ++ pretty index).

(** [void Parse(Element& element, std::string_view document)] *)
Definition parse (e : E) (doc : list ascii) (s : S) : option (outcome S) :=
  match Parse_Value (2 * length doc + 1) e "" (PSt doc s) with
  | Some (Ok _, s') => Some (Ok (st s'))
  | Some (Throw ex, s') => Some (Throw (json_error doc (rest s') ex))
  | Some (Undef, _) => Some Undef
  | None => None
  end.
End parser.

(** ** Termination *)
Section termination.
Context {E S : Type} `{EL : !Element E S}.
Local Abbreviation pst := (@pst S).
Local Abbreviation P := (@P S).

(** [runs m s Q]: [m] does not run out of fuel, and when it returns
    normally [Q] holds of the value and the state. *)
Definition runs {A} (m : P A) (s : pst) (Q : A -> pst -> Prop) : Prop :=
  ∃ r s', m s = Some (r, s') ∧ match r with Ok a => Q a s' | _ => True end.

Ltac runs_ok := first [exact I | eexists _, _; split; [reflexivity|]; cbn; solve [auto]].

Lemma runs_bind {A B} (m : P A) (f : A -> P B) s (Q : B -> pst -> Prop) :
  runs m s (fun a s' => runs (f a) s' Q) -> runs (bindP m f) s Q.
Proof.
  intros (r & s' & E1 & HQ). unfold runs, bindP. rewrite E1.
  destruct r as [a| |]; [exact HQ|runs_ok|runs_ok].
Qed.

Lemma runs_mono {A} (m : P A) s (Q Q' : A -> pst -> Prop) :
  (∀ a s', Q a s' -> Q' a s') -> runs m s Q -> runs m s Q'.
Proof. intros HQ (r & s' & E1 & Hr). exists r, s'. destruct r; auto. Qed.

Lemma runs_ret {A} (a : A) s (Q : A -> pst -> Prop) : Q a s -> runs (ret a) s Q.
Proof. intros. eexists _, _. split; [reflexivity|done]. Qed.

Lemma runs_throw {A} msg s (Q : A -> pst -> Prop) : runs (throw msg) s Q.
Proof. eexists _, _. by split. Qed.

Lemma runs_call {A} (f : S -> outcome (A * S)) s (Q : A -> pst -> Prop) :
  (∀ a t, Q a (PSt (rest s) t)) -> runs (call f) s Q.
Proof.
  intros HQ. unfold runs, call. destruct (f (st s)) as [[a t]| |].
  all: runs_ok.
Qed.

Lemma runs_catch name (m : P unit) s Q : runs m s Q -> runs (catch_unknown name m) s Q.
Proof.
  intros (r & s' & E1 & HQ). unfold runs, catch_unknown. rewrite E1.
  destruct r as [|[]|]; runs_ok.
Qed.

Lemma runs_GetChar s (Q : ascii -> pst -> Prop) :
  (∀ c r, rest s = c :: r -> Q c (PSt r (st s))) -> runs GetChar s Q.
Proof. intros HQ. unfold runs, GetChar. destruct (rest s) eqn:E1; runs_ok. Qed.

Lemma skip_ws_length l : (length (skip_ws l) <= length l)%nat.
Proof. induction l as [|c l IH]; simpl; [lia|]. destruct (is_ws c); simpl; lia. Qed.

Lemma runs_ws s (Q : unit -> pst -> Prop) :
  (∀ r, (length r <= length (rest s))%nat -> Q () (PSt r (st s))) -> runs Parse_Whitespace s Q.
Proof. intros HQ. eexists _, _. split; [reflexivity|]. apply HQ, skip_ws_length. Qed.

Lemma runs_Skip c s (Q : bool -> pst -> Prop) :
  (∀ r, rest s = c :: r -> Q true (PSt r (st s))) -> Q false s -> runs (Skip c) s Q.
Proof.
  intros H1 H2. unfold runs, Skip. destruct (rest s) as [|c' r] eqn:E1; [runs_ok|].
  destruct (Ascii.eqb_spec c' c); subst; runs_ok.
Qed.

Lemma runs_Skip_str sz s (Q : bool -> pst -> Prop) :
  (∀ b r, (length r <= length (rest s))%nat -> Q b (PSt r (st s))) -> runs (Skip_str sz) s Q.
Proof.
  intros HQ. unfold runs, Skip_str. destruct s as [l t]; simpl in *.
  case_decide; [eexists _, _; split; [reflexivity|]; apply HQ; simpl; lia|].
  case_decide; eexists _, _; (split; [reflexivity|]); apply HQ; rewrite ?length_drop; lia.
Qed.

Lemma parse_string_loop_length l : ∀ acc,
  (length (parse_string_loop l acc).2 <= length l)%nat.
Proof.
  induction l as [l IH] using (induction_ltof1 _ (@length ascii)). unfold ltof in IH.
  intros acc. destruct l as [|c l1]; simpl; [lia|].
  destruct (_ || _); simpl; [lia|].
  destruct (Ascii.eqb c backslash).
  - destruct l1 as [|c2 l2]; simpl; [lia|].
    destruct (escape c2 l2) as [c3|[msg r]] eqn:E1.
    + pose proof (IH l2 ltac:(simpl; lia) (c3 :: acc)). lia.
    + simpl. unfold escape in E1.
      repeat (case_match; try discriminate); injection E1 as <- <-; rewrite ?length_drop; simpl; lia.
  - pose proof (IH l1 ltac:(simpl; lia) (c :: acc)). lia.
Qed.

Lemma runs_Parse_String s (Q : string -> pst -> Prop) :
  (∀ v r, (length r <= length (rest s))%nat -> Q v (PSt r (st s))) -> runs Parse_String s Q.
Proof.
  intros HQ. unfold runs, Parse_String.
  pose proof (parse_string_loop_length (rest s) []) as Hl.
  destruct (parse_string_loop (rest s) []) as [[v| |] l]; runs_ok.
Qed.

Lemma span_digits_length l :
  (length (span_digits l).1 + length (span_digits l).2 = length l)%nat.
Proof.
  induction l as [|c l IH]; simpl; [lia|].
  destruct (is_digit c); [|simpl; lia]. destruct (span_digits l). simpl in *. lia.
Qed.

Lemma strip_ci_length pat : ∀ l r,
  strip_ci pat l = Some r -> (length pat + length r = length l)%nat.
Proof.
  induction pat as [|p pat IH]; intros l r; simpl; [by intros [= <-]|].
  destruct l as [|c l]; [done|]. destruct (Ascii.eqb _ _); [|done].
  intros Hr%IH. simpl. lia.
Qed.

Lemma strip_nan_tail_length l : ∀ r, strip_nan_tail l = Some r -> (length r <= length l)%nat.
Proof.
  induction l as [|c l IH]; intros r; simpl; [done|].
  destruct (_ =? _)%N; [intros [= <-]; lia|]. destruct (is_alnum_ c); [|done].
  intros Hr%IH. lia.
Qed.

Lemma strip_or_length pat l :
  (length (match strip_ci pat l with Some r => r | None => l end) <= length l)%nat.
Proof. destruct (strip_ci pat l) eqn:E1; [apply strip_ci_length in E1|]; lia. Qed.

Lemma from_chars_special_length s l v r :
  from_chars_special s l = Some (v, r) -> (length r < length l)%nat.
Proof.
  unfold from_chars_special.
  assert (length (list_ascii_of_string "inf") = 3)%nat as L1 by done.
  assert (length (list_ascii_of_string "nan") = 3)%nat as L2 by done. revert L1 L2.
  generalize (list_ascii_of_string "inf") as pinf.
  generalize (list_ascii_of_string "inity") as pinity.
  generalize (list_ascii_of_string "nan") as pnan. intros pnan pinity pinf L1 L2.
  destruct (strip_ci pinf l) as [l1|] eqn:E1.
  - apply strip_ci_length in E1. pose proof (strip_or_length pinity l1).
    intros [= _ <-]. lia.
  - clear E1. destruct (strip_ci pnan l) as [[|c l1]|] eqn:E1; [..|done];
      apply strip_ci_length in E1; simpl in E1; intros [= _ <-]; [simpl; lia|].
    destruct (_ =? _)%N; [|simpl; lia].
    destruct (strip_nan_tail l1) as [l2|] eqn:E2; [apply strip_nan_tail_length in E2|]; simpl; lia.
Qed.

Lemma from_chars_exp_length l : (length (from_chars_exp l).2 <= length l)%nat.
Proof.
  destruct l as [|c l]; simpl; [lia|]. destruct (_ =? _)%N; [|simpl; lia].
  destruct (match l with [] => _ | _ => _ end) as [neg l2] eqn:E1.
  assert (length l2 <= length l)%nat.
  { destruct l as [|s t]; [by injection E1 as _ <-|].
    destruct (_ =? 45)%N; [injection E1 as _ <-; simpl; lia|].
    destruct (_ =? 43)%N; injection E1 as _ <-; simpl; lia. }
  pose proof (span_digits_length l2). destruct (span_digits l2) as [[|] r]; simpl in *; lia.
Qed.

Lemma from_chars_length l v r : from_chars l = Some (v, r) -> (length r < length l)%nat.
Proof.
  unfold from_chars.
  destruct (match l with [] => _ | _ => _ end) as [s l1] eqn:E1.
  assert (length l1 <= length l)%nat as H1.
  { destruct l as [|c t]; [by injection E1 as _ <-|].
    destruct (_ =? 45)%N; injection E1 as _ <-; simpl; lia. }
  pose proof (span_digits_length l1) as H2. destruct (span_digits l1) as [ip l2]. simpl in H2.
  destruct (match l2 with [] => _ | _ => _ end) as [fp l3] eqn:E3.
  assert (length fp + length l3 <= length l2)%nat as H3.
  { destruct l2 as [|c t]; [by injection E3 as <- <-|].
    destruct (_ =? 46)%N; [|injection E3 as <- <-; simpl; lia].
    pose proof (span_digits_length t) as Ht. destruct (span_digits t) as [fp' t']. simpl in Ht.
    destruct ip; [destruct fp'|]; injection E3 as <- <-; simpl in *; lia. }
  pose proof (from_chars_exp_length l3) as H4.
  destruct (ip ++ fp) as [|d ds] eqn:E5.
  - intros ?%from_chars_special_length. lia.
  - apply (f_equal length) in E5. rewrite length_app in E5. simpl in E5.
    destruct (from_chars_exp l3) as [x l4]. simpl in H4.
    destruct (f64_of_dec s _ _); try destruct (_ =? 0);
      try discriminate; intros [= _ <-]; lia.
Qed.

Lemma runs_Parse_Number s (Q : f64 -> pst -> Prop) :
  (∀ v r, (length r < length (rest s))%nat -> Q v (PSt r (st s))) -> runs Parse_Number s Q.
Proof.
  intros HQ. unfold runs, Parse_Number.
  destruct (from_chars (rest s)) as [[v r]|] eqn:E1; [|runs_ok].
  apply from_chars_length in E1. runs_ok.
Qed.

Lemma runs_call_ (f : S -> outcome S) s (Q : unit -> pst -> Prop) :
  (∀ t, Q () (PSt (rest s) t)) -> runs (call_ f) s Q.
Proof. intros HQ. apply runs_call. intros [] t. apply HQ. Qed.
End termination.

(** One symbolic step of a [runs] goal. *)
Ltac run_step :=
  first
    [ apply runs_bind
    | apply runs_throw
    | apply runs_catch
    | apply runs_ws; intros ? ?
    | apply runs_GetChar; intros ? ? ?
    | apply runs_Skip; [intros ? ?|]
    | apply runs_Skip_str; intros [] ? ?
    | apply runs_Parse_String; intros ? ? ?
    | apply runs_Parse_Number; intros ? ? ?
    | apply runs_call_; intros ?
    | apply runs_call; intros ? ?
    | apply runs_ret ];
  cbn [rest st length negb] in *.

(** Turns the equations about the unread input into equations of lengths. *)
Ltac lengths :=
  repeat match goal with
  | H : _ = _ :: _ |- _ => apply (f_equal (@length ascii)) in H; cbn [length rest] in H
  end.

Section total.
Context {E S : Type} `{EL : !Element E S}.

Lemma parser_runs (fuel : nat) :
  (∀ e name (s : @pst S), (2 * length (rest s) + 1 <= fuel)%nat ->
     runs (Parse_Value fuel e name) s (fun _ s' => (length (rest s') < length (rest s))%nat)) ∧
  (∀ e (s : @pst S), (2 * length (rest s) + 2 <= fuel)%nat ->
     runs (Object_loop fuel e) s (fun _ s' => (length (rest s') <= length (rest s))%nat)) ∧
  (∀ e (s : @pst S), (2 * length (rest s) + 2 <= fuel)%nat ->
     runs (Array_loop fuel e) s (fun _ s' => (length (rest s') <= length (rest s))%nat)).
Proof.
  induction fuel as [|fuel (IHV & IHO & IHA)]; [repeat split; intros; lia|].
  repeat split.
  - intros e name s Hf. simpl. do 2 run_step. apply runs_bind, runs_catch. unfold value_switch.
    apply (runs_mono _ _ (fun _ s' => (length (rest s') < length (rest s))%nat)).
    { intros _ s' Hs'. run_step. lia. }
    do 2 run_step. lengths.
    repeat case_match; repeat run_step; lengths; try lia;
      try (eapply runs_mono; [|apply IHO || apply IHA; cbn [rest]; lia]; cbn [rest]; intros; lia).
  - intros e s Hf. simpl. do 2 run_step; [|repeat run_step].
    repeat run_step. destruct (negb _); repeat run_step. lengths.
    eapply runs_mono; [|apply IHV; cbn [rest]; lia]. cbn [rest]. intros _ s' Hs'.
    repeat run_step. lengths.
    repeat case_match; repeat run_step; try lia.
    eapply runs_mono; [|apply IHO; cbn [rest]; lia]. cbn [rest]. intros; lia.
  - intros e s Hf. simpl. run_step.
    eapply runs_mono; [|apply IHV; cbn [rest]; lia]. cbn [rest]. intros _ s' Hs'.
    repeat run_step. lengths.
    repeat case_match; repeat run_step; try lia.
    eapply runs_mono; [|apply IHA; cbn [rest]; lia]. cbn [rest]. intros; lia.
Qed.

(** C24: [JSON::Parse] returns on every document and for every element: the
    recursion and both [while (true)] loops always consume input. *)
Theorem parse_total (e : E) (doc : list ascii) (s : S) : parse e doc s ≠ None.
Proof.
  unfold parse. destruct (parser_runs (2 * length doc + 1)) as (HV & _ & _).
  destruct (HV e ""%string (PSt doc s)) as (r & s' & E1 & _); [simpl; lia|].
  rewrite E1. by destruct r.
Qed.
End total.

(** ** The parser is a walk over the document tree

    [jv] is a document, [print] its text, and [walk] the callbacks a reader of
    the tree makes, in order: the specification the parser is proved against
    for every implementation of the [Element] interface. *)
#[warnings="-register-all"]
Inductive jv : Type :=
  | JNull
  | JBool (b : bool)
  | JNum (neg : bool) (ds : list ascii)      (* the decimal digits of an integer *)
  | JStr (s : string)
  | JArr (l : list jv)
  | JObj (l : list (string * jv)).

Definition num_val (neg : bool) (ds : list ascii) : f64 := f64_of_dec neg (digits_val ds) 0.

Definition print_char (c : ascii) : list ascii :=
  if Ascii.eqb c dquote || Ascii.eqb c backslash then [backslash; c] else [c].
Definition print_str (s : string) : list ascii :=
  dquote :: (list_ascii_of_string s ≫= print_char) ++ [dquote].

Fixpoint join (sep : ascii) (l : list (list ascii)) : list ascii :=
  match l with [] => [] | [x] => x | x :: l' => x ++ sep :: join sep l' end.

Fixpoint print (v : jv) : list ascii :=
  match v with
  | JNull => list_ascii_of_string "null"
  | JBool true => list_ascii_of_string "true"
  | JBool false => list_ascii_of_string "false"
  | JNum neg ds => (if neg then [ch 45] else []) ++ ds
  | JStr s => print_str s
  | JArr l => ch 91 :: join (ch 44) (map print l) ++ [ch 93]
  | JObj l => ch 123 :: join (ch 44) (map (fun m => print_str m.1 ++ ch 58 :: print m.2) l) ++ [ch 125]
  end.

(** Text the grammar above can denote: no NUL inside strings, and numbers
    that are in the range of [double]. *)
Definition str_ok (s : string) : bool :=
  forallb (fun c => negb (N_of_ascii c =? 0)%N) (list_ascii_of_string s).
Definition num_ok (neg : bool) (ds : list ascii) : bool :=
  negb (match ds with [] => true | _ => false end) && forallb is_digit ds &&
  match num_val neg ds with S754_infinity _ => false | S754_zero _ => digits_val ds =? 0 | _ => true end.
Fixpoint jv_ok (v : jv) : bool :=
  match v with
  | JNum neg ds => num_ok neg ds
  | JStr s => str_ok s
  | JArr l => forallb jv_ok l
  | JObj l => forallb (fun m => str_ok m.1 && jv_ok m.2) l
  | _ => true
  end.

Section walk.
Context {E S : Type} `{EL : !Element E S}.

Fixpoint walk (v : jv) (e : E) (name : string) (s : S) : outcome S :=
  match v with
  | JNull => on_null e name s
  | JBool b => on_bool e name b s
  | JNum neg ds => on_number e name (num_val neg ds) s
  | JStr x => on_string e name x s
  | JArr l =>
      es ← on_array e name s;
      match l with
      | [] => on_complete es.1 true es.2
      | _ => s2 ← for_each (fun v s => walk v es.1 "" s) l es.2; on_complete es.1 false s2
      end
  | JObj l =>
      es ← on_object e name s;
      match l with
      | [] => on_complete es.1 true es.2
      | _ => s2 ← for_each (fun m s => walk m.2 es.1 m.1 s) l es.2; on_complete es.1 false s2
      end
  end.

(** what may follow a value: at least one character, and not one that would
    extend a number *)
Definition stops (k : list ascii) : bool :=
  match k with
  | [] => false
  | c :: _ => negb (is_digit c) && negb (N_of_ascii c =? 46)%N && negb (N_of_ascii (lower c) =? 101)%N
  end.

Lemma parse_string_print (s : list ascii) : ∀ acc k,
  forallb (fun c => negb (N_of_ascii c =? 0)%N) s = true ->
  parse_string_loop ((s ≫= print_char) ++ dquote :: k) acc
    = (Ok (string_of_list_ascii (rev acc ++ s)), k).
Proof.
  induction s as [|c s IH]; intros acc k Hs.
  - cbn. by rewrite app_nil_r.
  - simpl in Hs. apply andb_true_iff in Hs as [Hc Hs].
    assert (∀ c', rev (c' :: acc) ++ s = rev acc ++ c' :: s) as Erev
      by (intros; simpl; by rewrite <- app_assoc).
    rewrite bind_cons. unfold print_char at 1.
    destruct (Ascii.eqb_spec c dquote) as [->|Hq]; [|destruct (Ascii.eqb_spec c backslash) as [->|Hb]].
    + rewrite <- app_assoc. specialize (IH (dquote :: acc) k Hs). revert IH.
      generalize ((s ≫= print_char) ++ dquote :: k) as t. intros t IH. cbn. by rewrite <- Erev.
    + rewrite <- app_assoc. specialize (IH (backslash :: acc) k Hs). revert IH.
      generalize ((s ≫= print_char) ++ dquote :: k) as t. intros t IH. cbn. by rewrite <- Erev.
    + cbn [orb app parse_string_loop]. apply negb_true_iff in Hc. rewrite Hc.
      rewrite (proj2 (Ascii.eqb_neq _ _) Hq), (proj2 (Ascii.eqb_neq _ _) Hb).
      cbn [orb]. rewrite IH by done. by rewrite Erev.
Qed.

Lemma Parse_String_print (x : string) k (s : S) :
  str_ok x = true ->
  Parse_String (PSt (tail (print_str x) ++ k) s) = Some (Ok x, PSt k s).
Proof.
  intros Hx. unfold Parse_String, print_str. cbn [rest st tail].
  rewrite <- app_assoc. cbn [app]. rewrite parse_string_print by done.
  simpl. by rewrite string_of_list_ascii_of_string.
Qed.

Lemma span_digits_app ds c k :
  forallb is_digit ds = true -> is_digit c = false -> span_digits (ds ++ c :: k) = (ds, c :: k).
Proof.
  induction ds as [|d ds IH]; simpl; intros Hd Hc; [by rewrite Hc|].
  apply andb_true_iff in Hd as [-> Hd]. by rewrite IH.
Qed.

Lemma is_digit_not c n : is_digit c = true -> (n < 48 ∨ 57 < n)%N -> (N_of_ascii c =? n)%N = false.
Proof.
  unfold is_digit. rewrite andb_true_iff, !N.leb_le, N.eqb_neq. lia.
Qed.

Lemma from_chars_print neg ds k :
  num_ok neg ds = true -> stops k = true ->
  from_chars ((if neg then [ch 45] else []) ++ ds ++ k) = Some (num_val neg ds, k).
Proof.
  intros Hn Hk. unfold num_ok in Hn. apply andb_true_iff in Hn as [Hn Hv].
  apply andb_true_iff in Hn as [Hne Hd].
  destruct k as [|c k]; [done|]. simpl in Hk.
  apply andb_true_iff in Hk as [Hk He]. apply andb_true_iff in Hk as [Hc Hdot].
  apply negb_true_iff in He, Hc, Hdot.
  destruct ds as [|d ds]; [done|].
  assert (is_digit d = true) as Hd0 by (simpl in Hd; by apply andb_true_iff in Hd as [? _]).
  unfold from_chars.
  assert (∃ l1, (match (if neg then [ch 45] else []) ++ (d :: ds) ++ c :: k with
           | c' :: t => if (N_of_ascii c' =? 45)%N then (true, t)
                        else (false, (if neg then [ch 45] else []) ++ (d :: ds) ++ c :: k)
           | [] => (false, (if neg then [ch 45] else []) ++ (d :: ds) ++ c :: k) end) = (neg, l1)
           ∧ l1 = (d :: ds) ++ c :: k) as (l1 & -> & ->).
  { eexists. destruct neg; cbn [app]; [by split|]. by rewrite (is_digit_not d 45 Hd0) by lia. }
  rewrite span_digits_app by done. rewrite Hdot. cbn [app].
  assert (from_chars_exp (c :: k) = (0, c :: k)) as -> by (unfold from_chars_exp; by rewrite He).
  rewrite app_nil_r. cbn [length].
  change (f64_of_dec neg (digits_val (d :: ds)) (0 - Z.of_nat 0)) with (num_val neg (d :: ds)).
  destruct (num_val neg (d :: ds)); try done. by rewrite Hv.
Qed.

Lemma is_digit_not_ws c : is_digit c = true -> is_ws c = false.
Proof.
  intros Hd. unfold is_ws.
  rewrite !(is_digit_not c) by (done || lia). done.
Qed.

Lemma skip_ws_head c l : is_ws c = false -> skip_ws (c :: l) = c :: l.
Proof. intros Hc. simpl. by rewrite Hc. Qed.

Lemma print_head v : jv_ok v = true ->
  ∃ c t, print v = c :: t ∧ is_ws c = false ∧ Ascii.eqb c (ch 93) = false.
Proof.
  destruct v as [|[]|neg ds|s|l|l]; intros Hv; try (eexists _, _; by repeat split).
  simpl in Hv. unfold num_ok in Hv. apply andb_true_iff in Hv as [Hv _].
  apply andb_true_iff in Hv as [Hne Hd].
  destruct neg; [eexists _, _; by repeat split|].
  destruct ds as [|d ds]; [done|]. simpl in Hd. apply andb_true_iff in Hd as [Hd _].
  exists d, ds. repeat split; [by apply is_digit_not_ws|].
  apply Ascii.eqb_neq. intros ->. done.
Qed.

(** The steps of the parser on a known input. *)
Lemma bindP_Ok {A B} (m : @P S A) (f : A -> @P S B) s a s' :
  m s = Some (Ok a, s') -> bindP m f s = f a s'.
Proof. unfold bindP. by intros ->. Qed.

Lemma call_Ok {A} (f : S -> outcome (A * S)) s l a t :
  f s = Ok (a, t) -> call f (PSt l s) = Some (Ok a, PSt l t).
Proof. unfold call. simpl. by intros ->. Qed.

Lemma call__Ok (f : S -> outcome S) s l t :
  f s = Ok t -> call_ f (PSt l s) = Some (Ok (), PSt l t).
Proof. intros Hf. apply call_Ok. by rewrite Hf. Qed.

Lemma ws_head c l (s : S) :
  is_ws c = false -> Parse_Whitespace (PSt (c :: l) s) = Some (Ok (), PSt (c :: l) s).
Proof. intros Hc. unfold Parse_Whitespace. simpl. by rewrite Hc. Qed.

Lemma Skip_str_prefix pat k (s : S) :
  stops k = true ->
  Skip_str pat (PSt (list_ascii_of_string pat ++ k) s) = Some (Ok true, PSt k s).
Proof.
  intros Hk. unfold Skip_str. cbn [rest st].
  rewrite decide_False by (rewrite length_app; destruct k; simpl in *; [done|lia]).
  by rewrite decide_True, drop_app_length by (by rewrite take_app_length).
Qed.

Lemma join_cons (sep : ascii) x y l k :
  join sep (x :: y :: l) ++ k = x ++ sep :: join sep (y :: l) ++ k.
Proof. cbn [join]. by rewrite <- app_assoc. Qed.

Definition value_spec (fuel : nat) : Prop := ∀ v e name k s s',
  jv_ok v = true -> walk v e name s = Ok s' -> stops k = true ->
  (2 * length (print v ++ k) + 1 <= fuel)%nat ->
  Parse_Value fuel e name (PSt (print v ++ k) s) = Some (Ok (), PSt (skip_ws k) s').

Definition object_spec (fuel : nat) : Prop := ∀ l e k s s',
  l ≠ [] -> forallb (fun m => str_ok m.1 && jv_ok m.2) l = true ->
  (s2 ← for_each (fun m s => walk m.2 e m.1 s) l s; on_complete e false s2) = Ok s' ->
  (2 * length (join (ch 44) (map (fun m => print_str m.1 ++ ch 58 :: print m.2) l) ++ ch 125 :: k) + 2
     <= fuel)%nat ->
  Object_loop fuel e
    (PSt (join (ch 44) (map (fun m => print_str m.1 ++ ch 58 :: print m.2) l) ++ ch 125 :: k) s)
    = Some (Ok (), PSt k s').

Definition array_spec (fuel : nat) : Prop := ∀ l e k s s',
  l ≠ [] -> forallb jv_ok l = true ->
  (s2 ← for_each (fun v s => walk v e "" s) l s; on_complete e false s2) = Ok s' ->
  (2 * length (join (ch 44) (map print l) ++ ch 93 :: k) + 2 <= fuel)%nat ->
  Array_loop fuel e (PSt (join (ch 44) (map print l) ++ ch 93 :: k) s) = Some (Ok (), PSt k s').

Lemma digit_dispatch {A} (d : ascii) (o a q t f n dflt : A) :
  is_digit d = true ->
  match N_of_ascii d with
  | 123%N => o | 91%N => a | 34%N => q | 116%N => t | 102%N => f | 110%N => n | _ => dflt
  end = dflt.
Proof.
  unfold is_digit. rewrite andb_true_iff, !N.leb_le. intros Hd.
  assert (N_of_ascii d = 48 ∨ N_of_ascii d = 49 ∨ N_of_ascii d = 50 ∨ N_of_ascii d = 51 ∨
          N_of_ascii d = 52 ∨ N_of_ascii d = 53 ∨ N_of_ascii d = 54 ∨ N_of_ascii d = 55 ∨
          N_of_ascii d = 56 ∨ N_of_ascii d = 57)%N as Hc by lia.
  by destruct Hc as [->|[->|[->|[->|[->|[->|[->|[->|[->| ->]]]]]]]]].
Qed.

(* the call sequence of the numeric branch *)
Lemma number_branch e name c t k (s s' : S) v :
  from_chars (c :: t ++ k) = Some (v, k) -> on_number e name v s = Ok s' ->
  bindP (fun s => Some (Ok (), PSt (c :: rest s) (st s)))
    (fun _ => bindP Parse_Number (fun v => call_ (on_number e name v))) (PSt (t ++ k) s)
  = Some (Ok (), PSt k s').
Proof.
  intros Hf Hn. unfold bindP at 1. cbn [rest st].
  rewrite (bindP_Ok _ _ _ v (PSt k s)); [by apply call__Ok|].
  unfold Parse_Number. cbn [rest st]. by rewrite Hf.
Qed.

(* the character [c] just read is [n]: take its branch of the switch *)
Ltac eqb_chars :=
  cbv beta;
  repeat match goal with |- context [Ascii.eqb (ch ?a) (ch ?b)] =>
    let r := eval vm_compute in (Ascii.eqb (ch a) (ch b)) in
    change (Ascii.eqb (ch a) (ch b)) with r end;
  cbn [negb]; cbv iota beta.
Ltac at_char c n := cbv beta; change (N_of_ascii c) with n; cbv beta iota.

Lemma value_switch_print fuel v e name k s s' :
  object_spec fuel -> array_spec fuel ->
  jv_ok v = true -> walk v e name s = Ok s' -> stops k = true ->
  (2 * length (print v ++ k) <= fuel)%nat ->
  value_switch (Object_loop fuel) (Array_loop fuel) e name (PSt (print v ++ k) s)
    = Some (Ok (), PSt k s').
Proof.
  intros IHO IHA Hv Hw Hk Hf.
  destruct v as [|b|neg ds|x|l|l]; cbn [walk] in Hw; cbn [jv_ok] in Hv; unfold value_switch.
  - rewrite (bindP_Ok _ _ _ (ch 110) (PSt (list_ascii_of_string "ull" ++ k) s)) by done.
    at_char (ch 110) 110%N. rewrite (bindP_Ok _ _ _ true (PSt k s)) by (by apply Skip_str_prefix).
    by apply call__Ok.
  - destruct b.
    + rewrite (bindP_Ok _ _ _ (ch 116) (PSt (list_ascii_of_string "rue" ++ k) s)) by done.
      at_char (ch 116) 116%N. rewrite (bindP_Ok _ _ _ true (PSt k s)) by (by apply Skip_str_prefix).
      by apply call__Ok.
    + rewrite (bindP_Ok _ _ _ (ch 102) (PSt (list_ascii_of_string "alse" ++ k) s)) by done.
      at_char (ch 102) 102%N. rewrite (bindP_Ok _ _ _ true (PSt k s)) by (by apply Skip_str_prefix).
      by apply call__Ok.
  - pose proof (from_chars_print neg ds k Hv Hk) as Hfc. cbn [print].
    rewrite <- app_assoc. destruct neg.
    + rewrite (bindP_Ok _ _ _ (ch 45) (PSt (ds ++ k) s)) by done.
      at_char (ch 45) 45%N. cbn [is_digit orb]. by apply (number_branch _ _ (ch 45) ds k s s' (num_val true ds)).
    + unfold num_ok in Hv. apply andb_true_iff in Hv as [Hv _].
      apply andb_true_iff in Hv as [Hne Hd]. destruct ds as [|d ds]; [done|].
      simpl in Hd. apply andb_true_iff in Hd as [Hd _].
      rewrite (bindP_Ok _ _ _ d (PSt (ds ++ k) s)) by done.
      rewrite digit_dispatch, Hd by done. cbn [orb].
      by apply (number_branch _ _ d ds k s s' (num_val false (d :: ds))).
  - rewrite (bindP_Ok _ _ _ dquote (PSt (tail (print_str x) ++ k) s)) by done.
    at_char dquote 34%N.
    rewrite (bindP_Ok _ _ _ x (PSt k s)) by (by apply Parse_String_print).
    by apply call__Ok.
  - inv_ok. destruct x as [e' s1]. cbn [fst snd] in *.
    cbn [print] in *. cbn [app] in *. rewrite <- app_assoc in *. cbn [app] in *.
    rewrite (bindP_Ok _ _ _ (ch 91) (PSt (join (ch 44) (map print l) ++ ch 93 :: k) s)) by done.
    at_char (ch 91) 91%N. rewrite (bindP_Ok _ _ _ e' (PSt (join (ch 44) (map print l) ++ ch 93 :: k) s1))
      by (by apply call_Ok).
    destruct l as [|v l].
    + cbn [map join app]. rewrite (bindP_Ok _ _ _ () (PSt (ch 93 :: k) s1)) by done.
      rewrite (bindP_Ok _ _ _ true (PSt k s1)) by done. by apply call__Ok.
    + assert (∃ c t, join (ch 44) (map print (v :: l)) ++ ch 93 :: k = c :: t ∧ is_ws c = false
                ∧ Ascii.eqb c (ch 93) = false) as (c & t & Ec & Hc & Hcb).
      { simpl in Hv. apply andb_true_iff in Hv as [Hv _].
        destruct (print_head v Hv) as (c & t & Ec & Hc). exists c. cbn [map join].
        destruct (map print l); rewrite Ec; cbn [app]; eauto. }
      rewrite (bindP_Ok _ _ _ () (PSt (join (ch 44) (map print (v :: l)) ++ ch 93 :: k) s1))
        by (rewrite Ec; by apply ws_head).
      rewrite (bindP_Ok _ _ _ false (PSt (join (ch 44) (map print (v :: l)) ++ ch 93 :: k) s1))
        by (unfold Skip; cbn [rest]; rewrite Ec, Hcb; done).
      apply IHA; [done..|]. cbn [length] in Hf. lia.
  - inv_ok. destruct x as [e' s1]. cbn [fst snd] in *.
    cbn [print] in *. cbn [app] in *. rewrite <- app_assoc in *. cbn [app] in *.
    set (txt := join (ch 44) (map (fun m => print_str m.1 ++ ch 58 :: print m.2) l) ++ ch 125 :: k) in *.
    rewrite (bindP_Ok _ _ _ (ch 123) (PSt txt s)) by done.
    at_char (ch 123) 123%N. rewrite (bindP_Ok _ _ _ e' (PSt txt s1)) by (by apply call_Ok).
    destruct l as [|m l].
    + subst txt. cbn [map join app]. rewrite (bindP_Ok _ _ _ () (PSt (ch 125 :: k) s1)) by done.
      rewrite (bindP_Ok _ _ _ true (PSt k s1)) by done. by apply call__Ok.
    + assert (∃ t, txt = dquote :: t) as (t & Ec).
      { subst txt. cbn [map join]. unfold print_str at 1.
        destruct (map _ l); cbn [app]; eauto. }
      rewrite (bindP_Ok _ _ _ () (PSt txt s1)) by (rewrite Ec; by apply ws_head).
      rewrite (bindP_Ok _ _ _ false (PSt txt s1)) by (unfold Skip; cbn [rest]; rewrite Ec; done).
      apply IHO; [done..|]. cbn [length] in Hf. fold txt. lia.
Qed.

Lemma value_step fuel : object_spec fuel -> array_spec fuel -> value_spec (Datatypes.S fuel).
Proof.
  intros IHO IHA v e name k s s' Hv Hw Hk Hf.
  destruct (print_head v Hv) as (c & t & Ep & Hc & _). rewrite Parse_Value_S.
  rewrite (bindP_Ok _ _ _ () (PSt (print v ++ k) s)) by (rewrite Ep; by apply ws_head).
  rewrite (bindP_Ok _ _ _ () (PSt k s')); [done|]. unfold catch_unknown. cbv beta.
  rewrite (value_switch_print fuel v e name k s s'); [done..|lia].
Qed.

(* after a value, the next character is read at once: it is not whitespace *)
Lemma array_step fuel : value_spec fuel -> array_spec fuel -> array_spec (Datatypes.S fuel).
Proof.
  intros IHV IHA l e k s s' Hne Hok Hw Hf. destruct l as [|v l]; [done|].
  simpl in Hok. apply andb_true_iff in Hok as [Hv Hok]. rewrite for_each_cons in Hw.
  rewrite bind_assoc_outcome in Hw. inv_ok. rewrite Array_loop_S.
  destruct l as [|v2 l].
  - cbn [map join for_each] in *. inv_ok.
    rewrite (bindP_Ok _ _ _ () (PSt (ch 93 :: k) x0))
      by (apply (IHV v e ""%string (ch 93 :: k)); [done..|lia]).
    rewrite (bindP_Ok _ _ _ (ch 93) (PSt k x0)) by done. eqb_chars. by apply call__Ok.
  - cbn [map] in *. rewrite join_cons in *.
    rewrite (bindP_Ok _ _ _ () (PSt (ch 44 :: join (ch 44) (print v2 :: map print l) ++ ch 93 :: k) x))
      by (apply (IHV v e ""%string (ch 44 :: _)); [done..|lia]).
    rewrite (bindP_Ok _ _ _ (ch 44) (PSt (join (ch 44) (print v2 :: map print l) ++ ch 93 :: k) x))
      by done.
    eqb_chars. apply (IHA (v2 :: l)); [done|done|by rewrite H0|]. rewrite length_app in Hf. cbn [length map] in *. lia.
Qed.

Lemma object_step fuel : value_spec fuel -> object_spec fuel -> object_spec (Datatypes.S fuel).
Proof.
  intros IHV IHO l e k s s' Hne Hok Hw Hf. destruct l as [|[n v] l]; [done|].
  simpl in Hok. apply andb_true_iff in Hok as [Hv Hok]. apply andb_true_iff in Hv as [Hn Hv].
  rewrite for_each_cons in Hw. cbn [fst snd] in Hw.
  rewrite bind_assoc_outcome in Hw. inv_ok. rewrite Object_loop_S.
  assert (∀ txt, print_str n ++ txt = dquote :: tail (print_str n) ++ txt) as Eq by done.
  destruct l as [|[n2 v2] l].
  - cbn [map join fst snd for_each] in *. inv_ok. rewrite <- app_assoc in *. cbn [app] in *. rewrite Eq in *.
    rewrite (bindP_Ok _ _ _ true (PSt (tail (print_str n) ++ ch 58 :: print v ++ ch 125 :: k) s)) by done.
    cbn [negb]. rewrite (bindP_Ok _ _ _ n (PSt (ch 58 :: print v ++ ch 125 :: k) s))
      by (by apply Parse_String_print).
    rewrite (bindP_Ok _ _ _ () (PSt (ch 58 :: print v ++ ch 125 :: k) s)) by done.
    rewrite (bindP_Ok _ _ _ (ch 58) (PSt (print v ++ ch 125 :: k) s)) by done. eqb_chars.
    rewrite (bindP_Ok _ _ _ () (PSt (ch 125 :: k) x0))
      by (apply (IHV v e n (ch 125 :: k)); [done..|];
          cbn [length] in Hf; rewrite length_app in Hf; cbn [length] in Hf; lia).
    rewrite (bindP_Ok _ _ _ (ch 125) (PSt k x0)) by done. eqb_chars. by apply call__Ok.
  - cbn [map fst snd] in *. rewrite join_cons in *. rewrite <- app_assoc in *. cbn [app] in *.
    rewrite Eq in *.
    set (more := join (ch 44) _ ++ ch 125 :: k) in *.
    rewrite (bindP_Ok _ _ _ true (PSt (tail (print_str n) ++ ch 58 :: print v ++ ch 44 :: more) s)) by done.
    cbn [negb]. rewrite (bindP_Ok _ _ _ n (PSt (ch 58 :: print v ++ ch 44 :: more) s))
      by (by apply Parse_String_print).
    rewrite (bindP_Ok _ _ _ () (PSt (ch 58 :: print v ++ ch 44 :: more) s)) by done.
    rewrite (bindP_Ok _ _ _ (ch 58) (PSt (print v ++ ch 44 :: more) s)) by done. eqb_chars.
    assert (length (print v ++ ch 44 :: more) + 3 <= length (dquote :: tail (print_str n) ++ ch 58 :: print v ++ ch 44 :: more))%nat
      as Hlen by (cbn [length]; rewrite !length_app; cbn [length print_str tail]; rewrite !length_app; cbn [length]; lia).
    rewrite (bindP_Ok _ _ _ () (PSt (ch 44 :: more) x))
      by (apply (IHV v e n (ch 44 :: more)); [done..|lia]).
    rewrite (bindP_Ok _ _ _ (ch 44) (PSt more x)) by done. eqb_chars.
    assert (∃ t, more = dquote :: t) as (t & Ec).
    { subst more. cbn [join]. unfold print_str at 1. destruct (map _ l); cbn [app]; eauto. }
    set (whole := length (dquote :: _)) in *.
    rewrite length_app in Hlen. cbn [length] in Hlen.
    assert (Object_loop fuel e (PSt more x) = Some (Ok (), PSt k s')) as Hgo
      by (apply (IHO ((n2, v2) :: l)); [done|done|by rewrite H0|]; fold more; cbn [map fst snd]; fold more; lia).
    rewrite (bindP_Ok _ _ _ () (PSt more x)) by (rewrite Ec; by apply ws_head). done.
Qed.

Lemma parser_spec fuel : value_spec fuel ∧ object_spec fuel ∧ array_spec fuel.
Proof.
  induction fuel as [|fuel (IHV & IHO & IHA)].
  - repeat split; repeat intro; lia.
  - auto using value_step, object_step, array_step.
Qed.

(** C7: on the compact text of a document (its integers digits in the range of
    double, its strings without NUL) followed by anything that does not extend a
    number, such as a newline, the parser makes the callbacks of the walk over its
    tree, in order, and returns the state they leave, whenever the walk ends
    without a throw: for every implementation of the [Element] interface.
    Something must follow, for a literal at the end of the text is not read. *)
Theorem parse_walk (v : jv) (e : E) (k : list ascii) (s s' : S) :
  jv_ok v = true -> stops k = true -> walk v e "" s = Ok s' -> parse e (print v ++ k) s = Some (Ok s').
Proof.
  intros Hv Hk Hw. unfold parse.
  destruct (parser_spec (2 * length (print v ++ k) + 1)) as (HV & _ & _).
  by rewrite (HV v e ""%string k s s').
Qed.
End walk.

(** ** Invariants of the element state

    A property every callback preserves holds of whatever a successful parse
    leaves behind. *)
Section preservation.
Context {E S : Type} `{EL : !Element E S} (I : S -> Prop).
Hypothesis Hcomplete : ∀ e b s s', I s -> on_complete e b s = Ok s' -> I s'.
Hypothesis Hstring : ∀ e n v s s', I s -> on_string e n v s = Ok s' -> I s'.
Hypothesis Hnumber : ∀ e n v s s', I s -> on_number e n v s = Ok s' -> I s'.
Hypothesis Hbool : ∀ e n v s s', I s -> on_bool e n v s = Ok s' -> I s'.
Hypothesis Hnull : ∀ e n s s', I s -> on_null e n s = Ok s' -> I s'.
Hypothesis Harray : ∀ e n s e' s', I s -> on_array e n s = Ok (e', s') -> I s'.
Hypothesis Hobject : ∀ e n s e' s', I s -> on_object e n s = Ok (e', s') -> I s'.

Definition keeps {A} (m : @P S A) : Prop :=
  ∀ s r s', m s = Some (r, s') -> I (st s) -> I (st s').

Lemma keeps_bind {A B} (m : @P S A) (f : A -> @P S B) :
  keeps m -> (∀ a, keeps (f a)) -> keeps (bindP m f).
Proof.
  intros Hm Hf s r s'. unfold bindP. destruct (m s) as [[[a|e|] s1]|] eqn:E1; [| | |done].
  - intros E2 Hs. eapply Hf; eauto.
  - intros [= <- <-]. eauto.
  - intros [= <- <-]. eauto.
Qed.

Lemma keeps_same {A} (m : @P S A) :
  (∀ s r s', m s = Some (r, s') -> st s' = st s) -> keeps m.
Proof. intros Hm s r s' E1 Hs. by rewrite (Hm _ _ _ E1). Qed.

Lemma keeps_call {A} (f : S -> outcome (A * S)) :
  (∀ s a s', I s -> f s = Ok (a, s') -> I s') -> keeps (call f).
Proof.
  intros Hf s r s'. unfold call. destruct (f (st s)) as [[a t]| |] eqn:E1; intros [= <- <-] Hs;
    simpl; eauto.
Qed.

Lemma keeps_call_ (f : S -> outcome S) :
  (∀ s s', I s -> f s = Ok s' -> I s') -> keeps (call_ f).
Proof. intros Hf. apply keeps_call. intros s a s' Hs Ho. inv_ok. eauto. Qed.

Lemma keeps_catch name m : keeps m -> keeps (catch_unknown name m).
Proof.
  intros Hm s r s'. unfold catch_unknown.
  destruct (m s) as [[[|[]|] s1]|] eqn:E1; intros [= <- <-]; eauto.
Qed.

Lemma keeps_switch obj arr e name :
  (∀ e, keeps (obj e)) -> (∀ e, keeps (arr e)) -> keeps (value_switch obj arr e name).
Proof.
  assert (∀ c, keeps (Skip c)) as Hskip.
  { intros c. apply keeps_same. intros s r s'. unfold Skip.
    destruct (rest s) as [|c' t]; [by intros [= _ <-]|]. destruct (Ascii.eqb _ _); by intros [= _ <-]. }
  assert (∀ z, keeps (Skip_str z)) as Hskips.
  { intros z. apply keeps_same. intros s r s'. unfold Skip_str.
    repeat case_decide; by intros [= _ <-]. }
  assert (keeps Parse_Whitespace) as Hws by (apply keeps_same; intros s r s'; by intros [= _ <-]).
  assert (keeps Parse_String) as Hstr.
  { apply keeps_same. intros s r s'. unfold Parse_String.
    destruct (parse_string_loop (rest s) []). by intros [= _ <-]. }
  assert (keeps Parse_Number) as Hnum.
  { apply keeps_same. intros s r s'. unfold Parse_Number.
    destruct (from_chars (rest s)) as [[]|]; by intros [= _ <-]. }
  intros Hobj Harr. unfold value_switch. apply keeps_bind.
  { apply keeps_same. intros s r s'. unfold GetChar. destruct (rest s); by intros [= _ <-]. }
  intros c.
  assert (∀ b : bool, keeps (if b then
            bindP (fun s => Some (Ok (), PSt (c :: rest s) (st s)))
              (fun _ => bindP Parse_Number (fun v => call_ (on_number e name v)))
            else ret ())) as Bnum.
  { intros []; [|apply keeps_same; intros ??? Heq; by injection Heq as <- <-].
    apply keeps_bind; [apply keeps_same; intros ??? Heq; by injection Heq as <- <-|].
    intros _. apply keeps_bind; [done|]. intros v. apply keeps_call_. eauto. }
  assert (∀ f (k : E -> P unit) close, (∀ s e' s', I s -> f s = Ok (e', s') -> I s') -> (∀ e, keeps (k e)) ->
            keeps (bindP (call f) (fun e' => bindP Parse_Whitespace (fun _ =>
              bindP (Skip close) (fun b => if (b : bool) then call_ (on_complete e' true) else k e')))))
    as Bchild.
  { intros f k close Hf Hk. apply keeps_bind; [by apply keeps_call|]. intros e'.
    apply keeps_bind; [done|]. intros _. apply keeps_bind; [done|].
    intros []; [apply keeps_call_; eauto|done]. }
  assert (∀ z f, (∀ s s', I s -> f s = Ok s' -> I s') ->
            keeps (bindP (Skip_str z) (fun b => if (b : bool) then call_ f else ret ()))) as Blit.
  { intros z f Hf. apply keeps_bind; [done|].
    intros []; [by apply keeps_call_|apply keeps_same; intros ??? Heq; by injection Heq as <- <-]. }
  assert (keeps (bindP Parse_String (fun v => call_ (on_string e name v)))) as Bstr
    by (apply keeps_bind; [done|]; intros v; apply keeps_call_; eauto).
  pose proof (Bchild (on_object e name) obj (ch 125) (Hobject e name) Hobj) as Bo.
  pose proof (Bchild (on_array e name) arr (ch 93) (Harray e name) Harr) as Ba.
  pose proof (Blit "rue"%string (on_bool e name true) (Hbool e name true)) as Bt.
  pose proof (Blit "alse"%string (on_bool e name false) (Hbool e name false)) as Bf.
  pose proof (Blit "ull"%string (on_null e name) (Hnull e name)) as Bn.
  clear - Bnum Bstr Bo Ba Bt Bf Bn.
  repeat match goal with
  | |- keeps (if _ || _ then _ else _) => apply Bnum
  | |- keeps (match ?x with _ => _ end) => destruct x
  end; assumption.
Qed.

Lemma parser_keeps fuel :
  (∀ e name, keeps (Parse_Value fuel e name)) ∧ (∀ e, keeps (Object_loop fuel e)) ∧
  (∀ e, keeps (Array_loop fuel e)).
Proof.
  assert (keeps Parse_Whitespace) as Hws by (apply keeps_same; intros s r s'; by intros [= _ <-]).
  assert (keeps GetChar) as Hget.
  { apply keeps_same. intros s r s'. unfold GetChar. destruct (rest s); by intros [= _ <-]. }
  assert (∀ A msg, keeps (@throw S A msg)) as Hthrow
    by (intros; apply keeps_same; by intros ??? [= _ <-]).
  induction fuel as [|fuel (IHV & IHO & IHA)].
  { repeat split; intros; intros s r s'; done. }
  repeat split; intros.
  - rewrite Parse_Value_S. apply keeps_bind; [done|]. intros _. apply keeps_bind; [|done].
    apply keeps_catch. by apply keeps_switch.
  - rewrite Object_loop_S. apply keeps_bind.
    { apply keeps_same. intros s r s'. unfold Skip.
      destruct (rest s) as [|c' t]; [by intros [= _ <-]|].
      destruct (Ascii.eqb _ _); by intros [= _ <-]. }
    intros b. destruct (negb b); [done|]. apply keeps_bind.
    { apply keeps_same. intros s r s'. unfold Parse_String.
      destruct (parse_string_loop (rest s) []). by intros [= _ <-]. }
    intros name. apply keeps_bind; [done|]. intros _. apply keeps_bind; [done|]. intros c.
    destruct (negb _); [done|]. apply keeps_bind; [done|]. intros _.
    apply keeps_bind; [done|]. intros c'.
    destruct (Ascii.eqb _ _); [by apply keeps_bind|].
    destruct (Ascii.eqb _ _); [apply keeps_call_; eauto|done].
  - rewrite Array_loop_S. apply keeps_bind; [done|]. intros _.
    apply keeps_bind; [done|]. intros c'.
    destruct (Ascii.eqb _ _); [done|].
    destruct (Ascii.eqb _ _); [apply keeps_call_; eauto|done].
Qed.

Lemma parse_keeps e doc s s' : parse e doc s = Some (Ok s') -> I s -> I s'.
Proof.
  unfold parse. destruct (parser_keeps (2 * length doc + 1)) as (HV & _ & _).
  destruct (Parse_Value _ _ _ _) as [[[[]|e1|] s1]|] eqn:E1; try discriminate.
  intros [= <-] Hs. by apply (HV _ _ _ _ _ E1).
Qed.
End preservation.
