(* ===== verification/Config.v ===== *)
(** * Configuration (src/config.h, src/config.cpp)

    The records of [Config], the [JSON::Element] subclasses that fill them and
    the loader.  An element object is a constructor of [elem]; the references
    the C++ objects hold into the [Config] under construction are the paths the
    constructors stand for, and the callbacks mutate the [Loader] state: the
    [Config] and the one piece of state an element object has of its own, the
    [options_element_] pointer of the single [ProviderOptionsObject_Element]. *)
From Stdlib Require Import ZArith Lia SpecFloat Ascii String.
From stdpp Require Import base numbers list strings gmap.
From S2P Require Import Prelude Float32 Json.
Local Open Scope Z_scope.
Local Open Scope string_scope.

(** ** The records of config.h *)
(* members a C++ default member initialiser sets; the others are value-initialised *)
Definition InputIdsName : string := "input_ids".
Definition PixelValuesName : string := "pixel_values".
Definition ImageSizesName : string := "image_sizes".

Record ProviderOptions := mkProviderOptions {
  po_name : string;
  po_options : list (string * string) }.
Definition set_po_name (x : string) (r : ProviderOptions) : ProviderOptions := mkProviderOptions x (po_options r).
Definition set_po_options (x : list (string * string)) (r : ProviderOptions) : ProviderOptions := mkProviderOptions (po_name r) x.

Record SessionOptions := mkSessionOptions {
  intra_op_num_threads : option Z;
  inter_op_num_threads : option Z;
  enable_cpu_mem_arena : option bool;
  enable_mem_pattern : option bool;
  log_id : option string;
  log_severity_level : option Z;
  enable_profiling : option string;
  provider_options : list ProviderOptions }.
Definition SessionOptions_default : SessionOptions :=
  mkSessionOptions None None None None None None None [].
Definition set_intra_op_num_threads (x : option Z) (r : SessionOptions) : SessionOptions := mkSessionOptions x (inter_op_num_threads r) (enable_cpu_mem_arena r) (enable_mem_pattern r) (log_id r) (log_severity_level r) (enable_profiling r) (provider_options r).
Definition set_inter_op_num_threads (x : option Z) (r : SessionOptions) : SessionOptions := mkSessionOptions (intra_op_num_threads r) x (enable_cpu_mem_arena r) (enable_mem_pattern r) (log_id r) (log_severity_level r) (enable_profiling r) (provider_options r).
Definition set_enable_cpu_mem_arena (x : option bool) (r : SessionOptions) : SessionOptions := mkSessionOptions (intra_op_num_threads r) (inter_op_num_threads r) x (enable_mem_pattern r) (log_id r) (log_severity_level r) (enable_profiling r) (provider_options r).
Definition set_enable_mem_pattern (x : option bool) (r : SessionOptions) : SessionOptions := mkSessionOptions (intra_op_num_threads r) (inter_op_num_threads r) (enable_cpu_mem_arena r) x (log_id r) (log_severity_level r) (enable_profiling r) (provider_options r).
Definition set_log_id (x : option string) (r : SessionOptions) : SessionOptions := mkSessionOptions (intra_op_num_threads r) (inter_op_num_threads r) (enable_cpu_mem_arena r) (enable_mem_pattern r) x (log_severity_level r) (enable_profiling r) (provider_options r).
Definition set_log_severity_level (x : option Z) (r : SessionOptions) : SessionOptions := mkSessionOptions (intra_op_num_threads r) (inter_op_num_threads r) (enable_cpu_mem_arena r) (enable_mem_pattern r) (log_id r) x (enable_profiling r) (provider_options r).
Definition set_enable_profiling (x : option string) (r : SessionOptions) : SessionOptions := mkSessionOptions (intra_op_num_threads r) (inter_op_num_threads r) (enable_cpu_mem_arena r) (enable_mem_pattern r) (log_id r) (log_severity_level r) x (provider_options r).
Definition set_provider_options (x : list ProviderOptions) (r : SessionOptions) : SessionOptions := mkSessionOptions (intra_op_num_threads r) (inter_op_num_threads r) (enable_cpu_mem_arena r) (enable_mem_pattern r) (log_id r) (log_severity_level r) (enable_profiling r) x.

Record EncoderDecoderInit := mkEncoderDecoderInit {
  edi_filename : string }.
Definition EncoderDecoderInit_default : EncoderDecoderInit :=
  mkEncoderDecoderInit "".
Definition set_edi_filename (x : string) (r : EncoderDecoderInit) : EncoderDecoderInit := mkEncoderDecoderInit x.

Record EmbeddingInputs := mkEmbeddingInputs {
  ei_input_ids : string }.
Definition EmbeddingInputs_default : EmbeddingInputs :=
  mkEmbeddingInputs InputIdsName.
Definition set_ei_input_ids (x : string) (r : EmbeddingInputs) : EmbeddingInputs := mkEmbeddingInputs x.

Record EmbeddingOutputs := mkEmbeddingOutputs {
  eo_embeddings : string }.
Definition EmbeddingOutputs_default : EmbeddingOutputs :=
  mkEmbeddingOutputs "inputs_embeds".
Definition set_eo_embeddings (x : string) (r : EmbeddingOutputs) : EmbeddingOutputs := mkEmbeddingOutputs x.

Record Embedding := mkEmbedding {
  emb_filename : string;
  emb_inputs : EmbeddingInputs;
  emb_outputs : EmbeddingOutputs }.
Definition Embedding_default : Embedding :=
  mkEmbedding "" EmbeddingInputs_default EmbeddingOutputs_default.
Definition set_emb_filename (x : string) (r : Embedding) : Embedding := mkEmbedding x (emb_inputs r) (emb_outputs r).
Definition set_emb_inputs (x : EmbeddingInputs) (r : Embedding) : Embedding := mkEmbedding (emb_filename r) x (emb_outputs r).
Definition set_emb_outputs (x : EmbeddingOutputs) (r : Embedding) : Embedding := mkEmbedding (emb_filename r) (emb_inputs r) x.

Record VisionInputs := mkVisionInputs {
  pixel_values : string;
  image_sizes : string }.
Definition VisionInputs_default : VisionInputs :=
  mkVisionInputs PixelValuesName ImageSizesName.
Definition set_pixel_values (x : string) (r : VisionInputs) : VisionInputs := mkVisionInputs x (image_sizes r).
Definition set_image_sizes (x : string) (r : VisionInputs) : VisionInputs := mkVisionInputs (pixel_values r) x.

Record VisionOutputs := mkVisionOutputs {
  visual_features : string }.
Definition VisionOutputs_default : VisionOutputs :=
  mkVisionOutputs "visual_features".
Definition set_visual_features (x : string) (r : VisionOutputs) : VisionOutputs := mkVisionOutputs x.

Record Vision := mkVision {
  vis_filename : string;
  vis_inputs : VisionInputs;
  vis_outputs : VisionOutputs }.
Definition Vision_default : Vision :=
  mkVision "" VisionInputs_default VisionOutputs_default.
Definition set_vis_filename (x : string) (r : Vision) : Vision := mkVision x (vis_inputs r) (vis_outputs r).
Definition set_vis_inputs (x : VisionInputs) (r : Vision) : Vision := mkVision (vis_filename r) x (vis_outputs r).
Definition set_vis_outputs (x : VisionOutputs) (r : Vision) : Vision := mkVision (vis_filename r) (vis_inputs r) x.

Record DecoderInputs := mkDecoderInputs {
  input_ids : string;
  embeddings : string;
  position_ids : string;
  attention_mask : string;
  seqlens_k : string;
  total_sequence_length : string;
  past_key_names : string;
  past_value_names : string;
  past_names : string;
  cross_past_key_names : string;
  cross_past_value_names : string }.
Definition DecoderInputs_default : DecoderInputs :=
  mkDecoderInputs InputIdsName "inputs_embeds" "position_ids" "attention_mask" "seqlens_k" "total_seq_len" "past_key_values.%d.key" "past_key_values.%d.value" "" "" "".
Definition set_input_ids (x : string) (r : DecoderInputs) : DecoderInputs := mkDecoderInputs x (embeddings r) (position_ids r) (attention_mask r) (seqlens_k r) (total_sequence_length r) (past_key_names r) (past_value_names r) (past_names r) (cross_past_key_names r) (cross_past_value_names r).
Definition set_embeddings (x : string) (r : DecoderInputs) : DecoderInputs := mkDecoderInputs (input_ids r) x (position_ids r) (attention_mask r) (seqlens_k r) (total_sequence_length r) (past_key_names r) (past_value_names r) (past_names r) (cross_past_key_names r) (cross_past_value_names r).
Definition set_position_ids (x : string) (r : DecoderInputs) : DecoderInputs := mkDecoderInputs (input_ids r) (embeddings r) x (attention_mask r) (seqlens_k r) (total_sequence_length r) (past_key_names r) (past_value_names r) (past_names r) (cross_past_key_names r) (cross_past_value_names r).
Definition set_attention_mask (x : string) (r : DecoderInputs) : DecoderInputs := mkDecoderInputs (input_ids r) (embeddings r) (position_ids r) x (seqlens_k r) (total_sequence_length r) (past_key_names r) (past_value_names r) (past_names r) (cross_past_key_names r) (cross_past_value_names r).
Definition set_seqlens_k (x : string) (r : DecoderInputs) : DecoderInputs := mkDecoderInputs (input_ids r) (embeddings r) (position_ids r) (attention_mask r) x (total_sequence_length r) (past_key_names r) (past_value_names r) (past_names r) (cross_past_key_names r) (cross_past_value_names r).
Definition set_total_sequence_length (x : string) (r : DecoderInputs) : DecoderInputs := mkDecoderInputs (input_ids r) (embeddings r) (position_ids r) (attention_mask r) (seqlens_k r) x (past_key_names r) (past_value_names r) (past_names r) (cross_past_key_names r) (cross_past_value_names r).
Definition set_past_key_names (x : string) (r : DecoderInputs) : DecoderInputs := mkDecoderInputs (input_ids r) (embeddings r) (position_ids r) (attention_mask r) (seqlens_k r) (total_sequence_length r) x (past_value_names r) (past_names r) (cross_past_key_names r) (cross_past_value_names r).
Definition set_past_value_names (x : string) (r : DecoderInputs) : DecoderInputs := mkDecoderInputs (input_ids r) (embeddings r) (position_ids r) (attention_mask r) (seqlens_k r) (total_sequence_length r) (past_key_names r) x (past_names r) (cross_past_key_names r) (cross_past_value_names r).
Definition set_past_names (x : string) (r : DecoderInputs) : DecoderInputs := mkDecoderInputs (input_ids r) (embeddings r) (position_ids r) (attention_mask r) (seqlens_k r) (total_sequence_length r) (past_key_names r) (past_value_names r) x (cross_past_key_names r) (cross_past_value_names r).
Definition set_cross_past_key_names (x : string) (r : DecoderInputs) : DecoderInputs := mkDecoderInputs (input_ids r) (embeddings r) (position_ids r) (attention_mask r) (seqlens_k r) (total_sequence_length r) (past_key_names r) (past_value_names r) (past_names r) x (cross_past_value_names r).
Definition set_cross_past_value_names (x : string) (r : DecoderInputs) : DecoderInputs := mkDecoderInputs (input_ids r) (embeddings r) (position_ids r) (attention_mask r) (seqlens_k r) (total_sequence_length r) (past_key_names r) (past_value_names r) (past_names r) (cross_past_key_names r) x.

Record DecoderOutputs := mkDecoderOutputs {
  logits : string;
  present_key_names : string;
  present_value_names : string;
  present_names : string;
  cross_present_key_names : string;
  cross_present_value_names : string }.
Definition DecoderOutputs_default : DecoderOutputs :=
  mkDecoderOutputs "logits" "present.%d.key" "present.%d.value" "" "" "".
Definition set_logits (x : string) (r : DecoderOutputs) : DecoderOutputs := mkDecoderOutputs x (present_key_names r) (present_value_names r) (present_names r) (cross_present_key_names r) (cross_present_value_names r).
Definition set_present_key_names (x : string) (r : DecoderOutputs) : DecoderOutputs := mkDecoderOutputs (logits r) x (present_value_names r) (present_names r) (cross_present_key_names r) (cross_present_value_names r).
Definition set_present_value_names (x : string) (r : DecoderOutputs) : DecoderOutputs := mkDecoderOutputs (logits r) (present_key_names r) x (present_names r) (cross_present_key_names r) (cross_present_value_names r).
Definition set_present_names (x : string) (r : DecoderOutputs) : DecoderOutputs := mkDecoderOutputs (logits r) (present_key_names r) (present_value_names r) x (cross_present_key_names r) (cross_present_value_names r).
Definition set_cross_present_key_names (x : string) (r : DecoderOutputs) : DecoderOutputs := mkDecoderOutputs (logits r) (present_key_names r) (present_value_names r) (present_names r) x (cross_present_value_names r).
Definition set_cross_present_value_names (x : string) (r : DecoderOutputs) : DecoderOutputs := mkDecoderOutputs (logits r) (present_key_names r) (present_value_names r) (present_names r) (cross_present_key_names r) x.

Record Decoder := mkDecoder {
  dec_filename : string;
  session_options : SessionOptions;
  hidden_size : Z;
  num_attention_heads : Z;
  num_key_value_heads : Z;
  num_hidden_layers : Z;
  head_size : Z;
  dec_inputs : DecoderInputs;
  dec_outputs : DecoderOutputs }.
Definition Decoder_default : Decoder :=
  mkDecoder "" SessionOptions_default 0 0 0 0 0 DecoderInputs_default DecoderOutputs_default.
Definition set_dec_filename (x : string) (r : Decoder) : Decoder := mkDecoder x (session_options r) (hidden_size r) (num_attention_heads r) (num_key_value_heads r) (num_hidden_layers r) (head_size r) (dec_inputs r) (dec_outputs r).
Definition set_session_options (x : SessionOptions) (r : Decoder) : Decoder := mkDecoder (dec_filename r) x (hidden_size r) (num_attention_heads r) (num_key_value_heads r) (num_hidden_layers r) (head_size r) (dec_inputs r) (dec_outputs r).
Definition set_hidden_size (x : Z) (r : Decoder) : Decoder := mkDecoder (dec_filename r) (session_options r) x (num_attention_heads r) (num_key_value_heads r) (num_hidden_layers r) (head_size r) (dec_inputs r) (dec_outputs r).
Definition set_num_attention_heads (x : Z) (r : Decoder) : Decoder := mkDecoder (dec_filename r) (session_options r) (hidden_size r) x (num_key_value_heads r) (num_hidden_layers r) (head_size r) (dec_inputs r) (dec_outputs r).
Definition set_num_key_value_heads (x : Z) (r : Decoder) : Decoder := mkDecoder (dec_filename r) (session_options r) (hidden_size r) (num_attention_heads r) x (num_hidden_layers r) (head_size r) (dec_inputs r) (dec_outputs r).
Definition set_num_hidden_layers (x : Z) (r : Decoder) : Decoder := mkDecoder (dec_filename r) (session_options r) (hidden_size r) (num_attention_heads r) (num_key_value_heads r) x (head_size r) (dec_inputs r) (dec_outputs r).
Definition set_head_size (x : Z) (r : Decoder) : Decoder := mkDecoder (dec_filename r) (session_options r) (hidden_size r) (num_attention_heads r) (num_key_value_heads r) (num_hidden_layers r) x (dec_inputs r) (dec_outputs r).
Definition set_dec_inputs (x : DecoderInputs) (r : Decoder) : Decoder := mkDecoder (dec_filename r) (session_options r) (hidden_size r) (num_attention_heads r) (num_key_value_heads r) (num_hidden_layers r) (head_size r) x (dec_outputs r).
Definition set_dec_outputs (x : DecoderOutputs) (r : Decoder) : Decoder := mkDecoder (dec_filename r) (session_options r) (hidden_size r) (num_attention_heads r) (num_key_value_heads r) (num_hidden_layers r) (head_size r) (dec_inputs r) x.

Record Model := mkModel {
  type : string;
  pad_token_id : Z;
  eos_token_id : Z;
  eos_token_ids : list Z;
  bos_token_id : Z;
  sep_token_id : Z;
  decoder_start_token_id : Z;
  vocab_size : Z;
  context_length : Z;
  encoder_decoder_init : EncoderDecoderInit;
  embedding : Embedding;
  vision : Vision;
  decoder : Decoder }.
Definition Model_default : Model :=
  mkModel "" 0 0 [] 0 0 0 0 0 EncoderDecoderInit_default Embedding_default Vision_default Decoder_default.
Definition set_type (x : string) (r : Model) : Model := mkModel x (pad_token_id r) (eos_token_id r) (eos_token_ids r) (bos_token_id r) (sep_token_id r) (decoder_start_token_id r) (vocab_size r) (context_length r) (encoder_decoder_init r) (embedding r) (vision r) (decoder r).
Definition set_pad_token_id (x : Z) (r : Model) : Model := mkModel (type r) x (eos_token_id r) (eos_token_ids r) (bos_token_id r) (sep_token_id r) (decoder_start_token_id r) (vocab_size r) (context_length r) (encoder_decoder_init r) (embedding r) (vision r) (decoder r).
Definition set_eos_token_id (x : Z) (r : Model) : Model := mkModel (type r) (pad_token_id r) x (eos_token_ids r) (bos_token_id r) (sep_token_id r) (decoder_start_token_id r) (vocab_size r) (context_length r) (encoder_decoder_init r) (embedding r) (vision r) (decoder r).
Definition set_eos_token_ids (x : list Z) (r : Model) : Model := mkModel (type r) (pad_token_id r) (eos_token_id r) x (bos_token_id r) (sep_token_id r) (decoder_start_token_id r) (vocab_size r) (context_length r) (encoder_decoder_init r) (embedding r) (vision r) (decoder r).
Definition set_bos_token_id (x : Z) (r : Model) : Model := mkModel (type r) (pad_token_id r) (eos_token_id r) (eos_token_ids r) x (sep_token_id r) (decoder_start_token_id r) (vocab_size r) (context_length r) (encoder_decoder_init r) (embedding r) (vision r) (decoder r).
Definition set_sep_token_id (x : Z) (r : Model) : Model := mkModel (type r) (pad_token_id r) (eos_token_id r) (eos_token_ids r) (bos_token_id r) x (decoder_start_token_id r) (vocab_size r) (context_length r) (encoder_decoder_init r) (embedding r) (vision r) (decoder r).
Definition set_decoder_start_token_id (x : Z) (r : Model) : Model := mkModel (type r) (pad_token_id r) (eos_token_id r) (eos_token_ids r) (bos_token_id r) (sep_token_id r) x (vocab_size r) (context_length r) (encoder_decoder_init r) (embedding r) (vision r) (decoder r).
Definition set_vocab_size (x : Z) (r : Model) : Model := mkModel (type r) (pad_token_id r) (eos_token_id r) (eos_token_ids r) (bos_token_id r) (sep_token_id r) (decoder_start_token_id r) x (context_length r) (encoder_decoder_init r) (embedding r) (vision r) (decoder r).
Definition set_context_length (x : Z) (r : Model) : Model := mkModel (type r) (pad_token_id r) (eos_token_id r) (eos_token_ids r) (bos_token_id r) (sep_token_id r) (decoder_start_token_id r) (vocab_size r) x (encoder_decoder_init r) (embedding r) (vision r) (decoder r).
Definition set_encoder_decoder_init (x : EncoderDecoderInit) (r : Model) : Model := mkModel (type r) (pad_token_id r) (eos_token_id r) (eos_token_ids r) (bos_token_id r) (sep_token_id r) (decoder_start_token_id r) (vocab_size r) (context_length r) x (embedding r) (vision r) (decoder r).
Definition set_embedding (x : Embedding) (r : Model) : Model := mkModel (type r) (pad_token_id r) (eos_token_id r) (eos_token_ids r) (bos_token_id r) (sep_token_id r) (decoder_start_token_id r) (vocab_size r) (context_length r) (encoder_decoder_init r) x (vision r) (decoder r).
Definition set_vision (x : Vision) (r : Model) : Model := mkModel (type r) (pad_token_id r) (eos_token_id r) (eos_token_ids r) (bos_token_id r) (sep_token_id r) (decoder_start_token_id r) (vocab_size r) (context_length r) (encoder_decoder_init r) (embedding r) x (decoder r).
Definition set_decoder (x : Decoder) (r : Model) : Model := mkModel (type r) (pad_token_id r) (eos_token_id r) (eos_token_ids r) (bos_token_id r) (sep_token_id r) (decoder_start_token_id r) (vocab_size r) (context_length r) (encoder_decoder_init r) (embedding r) (vision r) x.

Record Search := mkSearch {
  do_sample : bool;
  min_length : Z;
  max_length : Z;
  num_beams : Z;
  num_return_sequences : Z;
  repetition_penalty : f32;
  top_k : Z;
  top_p : f32;
  temperature : f32;
  early_stopping : bool;
  no_repeat_ngram_size : Z;
  diversity_penalty : f32;
  length_penalty : f32;
  past_present_share_buffer : bool;
  random_seed : Z }.
Definition Search_default : Search :=
  mkSearch false 0 0 1 1 f1 0 f0 f1 true 0 f0 f1 false (-1).
Definition set_do_sample (x : bool) (r : Search) : Search := mkSearch x (min_length r) (max_length r) (num_beams r) (num_return_sequences r) (repetition_penalty r) (top_k r) (top_p r) (temperature r) (early_stopping r) (no_repeat_ngram_size r) (diversity_penalty r) (length_penalty r) (past_present_share_buffer r) (random_seed r).
Definition set_min_length (x : Z) (r : Search) : Search := mkSearch (do_sample r) x (max_length r) (num_beams r) (num_return_sequences r) (repetition_penalty r) (top_k r) (top_p r) (temperature r) (early_stopping r) (no_repeat_ngram_size r) (diversity_penalty r) (length_penalty r) (past_present_share_buffer r) (random_seed r).
Definition set_max_length (x : Z) (r : Search) : Search := mkSearch (do_sample r) (min_length r) x (num_beams r) (num_return_sequences r) (repetition_penalty r) (top_k r) (top_p r) (temperature r) (early_stopping r) (no_repeat_ngram_size r) (diversity_penalty r) (length_penalty r) (past_present_share_buffer r) (random_seed r).
Definition set_num_beams (x : Z) (r : Search) : Search := mkSearch (do_sample r) (min_length r) (max_length r) x (num_return_sequences r) (repetition_penalty r) (top_k r) (top_p r) (temperature r) (early_stopping r) (no_repeat_ngram_size r) (diversity_penalty r) (length_penalty r) (past_present_share_buffer r) (random_seed r).
Definition set_num_return_sequences (x : Z) (r : Search) : Search := mkSearch (do_sample r) (min_length r) (max_length r) (num_beams r) x (repetition_penalty r) (top_k r) (top_p r) (temperature r) (early_stopping r) (no_repeat_ngram_size r) (diversity_penalty r) (length_penalty r) (past_present_share_buffer r) (random_seed r).
Definition set_repetition_penalty (x : f32) (r : Search) : Search := mkSearch (do_sample r) (min_length r) (max_length r) (num_beams r) (num_return_sequences r) x (top_k r) (top_p r) (temperature r) (early_stopping r) (no_repeat_ngram_size r) (diversity_penalty r) (length_penalty r) (past_present_share_buffer r) (random_seed r).
Definition set_top_k (x : Z) (r : Search) : Search := mkSearch (do_sample r) (min_length r) (max_length r) (num_beams r) (num_return_sequences r) (repetition_penalty r) x (top_p r) (temperature r) (early_stopping r) (no_repeat_ngram_size r) (diversity_penalty r) (length_penalty r) (past_present_share_buffer r) (random_seed r).
Definition set_top_p (x : f32) (r : Search) : Search := mkSearch (do_sample r) (min_length r) (max_length r) (num_beams r) (num_return_sequences r) (repetition_penalty r) (top_k r) x (temperature r) (early_stopping r) (no_repeat_ngram_size r) (diversity_penalty r) (length_penalty r) (past_present_share_buffer r) (random_seed r).
Definition set_temperature (x : f32) (r : Search) : Search := mkSearch (do_sample r) (min_length r) (max_length r) (num_beams r) (num_return_sequences r) (repetition_penalty r) (top_k r) (top_p r) x (early_stopping r) (no_repeat_ngram_size r) (diversity_penalty r) (length_penalty r) (past_present_share_buffer r) (random_seed r).
Definition set_early_stopping (x : bool) (r : Search) : Search := mkSearch (do_sample r) (min_length r) (max_length r) (num_beams r) (num_return_sequences r) (repetition_penalty r) (top_k r) (top_p r) (temperature r) x (no_repeat_ngram_size r) (diversity_penalty r) (length_penalty r) (past_present_share_buffer r) (random_seed r).
Definition set_no_repeat_ngram_size (x : Z) (r : Search) : Search := mkSearch (do_sample r) (min_length r) (max_length r) (num_beams r) (num_return_sequences r) (repetition_penalty r) (top_k r) (top_p r) (temperature r) (early_stopping r) x (diversity_penalty r) (length_penalty r) (past_present_share_buffer r) (random_seed r).
Definition set_diversity_penalty (x : f32) (r : Search) : Search := mkSearch (do_sample r) (min_length r) (max_length r) (num_beams r) (num_return_sequences r) (repetition_penalty r) (top_k r) (top_p r) (temperature r) (early_stopping r) (no_repeat_ngram_size r) x (length_penalty r) (past_present_share_buffer r) (random_seed r).
Definition set_length_penalty (x : f32) (r : Search) : Search := mkSearch (do_sample r) (min_length r) (max_length r) (num_beams r) (num_return_sequences r) (repetition_penalty r) (top_k r) (top_p r) (temperature r) (early_stopping r) (no_repeat_ngram_size r) (diversity_penalty r) x (past_present_share_buffer r) (random_seed r).
Definition set_past_present_share_buffer (x : bool) (r : Search) : Search := mkSearch (do_sample r) (min_length r) (max_length r) (num_beams r) (num_return_sequences r) (repetition_penalty r) (top_k r) (top_p r) (temperature r) (early_stopping r) (no_repeat_ngram_size r) (diversity_penalty r) (length_penalty r) x (random_seed r).
Definition set_random_seed (x : Z) (r : Search) : Search := mkSearch (do_sample r) (min_length r) (max_length r) (num_beams r) (num_return_sequences r) (repetition_penalty r) (top_k r) (top_p r) (temperature r) (early_stopping r) (no_repeat_ngram_size r) (diversity_penalty r) (length_penalty r) (past_present_share_buffer r) x.

Record Config := mkConfig {
  config_path : string;
  model : Model;
  search : Search;
  nominal_names_to_graph_names_ : gmap string string }.
Definition Config_default : Config :=
  mkConfig "" Model_default Search_default ∅.
Definition set_config_path (x : string) (r : Config) : Config := mkConfig x (model r) (search r) (nominal_names_to_graph_names_ r).
Definition set_model (x : Model) (r : Config) : Config := mkConfig (config_path r) x (search r) (nominal_names_to_graph_names_ r).
Definition set_search (x : Search) (r : Config) : Config := mkConfig (config_path r) (model r) x (nominal_names_to_graph_names_ r).
Definition set_nominal_names_to_graph_names_ (x : gmap string string) (r : Config) : Config := mkConfig (config_path r) (model r) (search r) x.
(** ** The elements *)
Inductive elem : Type :=
  | RootObject_Element | Root_Element
  | Model_Element | EncoderDecoderInit_Element | Eos_Array_Element
  | Decoder_Element | SessionOptions_Element | Inputs_Element | Outputs_Element
  | ProviderOptionsArray_Element | ProviderOptionsObject_Element
  | ProviderOptions_Element (i : nat)    (* v_ is the i-th element of the vector *)
  | Vision_Element | VisionInputs_Element | VisionOutputs_Element
  | Embedding_Element | EmbeddingInputs_Element | EmbeddingOutputs_Element
  | Search_Element.

Record Loader := mkLoader {
  cfg : Config;
  options_element_ : option nat;    (* of the ProviderOptionsObject_Element *)
}.

Definition unknown {A} : outcome A := Throw UnknownValueError.

(** One definition per override, on the record the element's [v_] refers to. *)
Definition ProviderOptions_OnString (name value : string) (v : ProviderOptions) : outcome ProviderOptions :=
  Ok (set_po_options (po_options v ++ [(name, value)]) v).

Definition SessionOptions_OnString (name value : string) (v : SessionOptions) : outcome SessionOptions :=
  if name =? "log_id" then Ok (set_log_id (Some value) v)
  else if name =? "enable_profiling" then Ok (set_enable_profiling (Some value) v)
  else unknown.

Definition SessionOptions_OnNumber (name : string) (value : f64) (v : SessionOptions) : outcome SessionOptions :=
  if name =? "intra_op_num_threads" then n ← int_of_f64 value; Ok (set_intra_op_num_threads (Some n) v)
  else if name =? "inter_op_num_threads" then n ← int_of_f64 value; Ok (set_inter_op_num_threads (Some n) v)
  else if name =? "log_severity_level" then n ← int_of_f64 value; Ok (set_log_severity_level (Some n) v)
  else unknown.

Definition SessionOptions_OnBool (name : string) (value : bool) (v : SessionOptions) : outcome SessionOptions :=
  if name =? "enable_cpu_mem_arena" then Ok (set_enable_cpu_mem_arena (Some value) v)
  else if name =? "enable_mem_pattern" then Ok (set_enable_mem_pattern (Some value) v)
  else unknown.

Definition SessionOptions_OnArray (name : string) : outcome elem :=
  if name =? "provider_options" then Ok ProviderOptionsArray_Element else unknown.

Definition EncoderDecoderInit_OnString (name value : string) (v : EncoderDecoderInit) : outcome EncoderDecoderInit :=
  if name =? "filename" then Ok (set_edi_filename value v) else unknown.

Definition Inputs_OnString (name value : string) (v : DecoderInputs) : outcome DecoderInputs :=
  if name =? "input_ids" then Ok (set_input_ids value v)
  else if name =? "inputs_embeds" then Ok (set_embeddings value v)
  else if name =? "position_ids" then Ok (set_position_ids value v)
  else if name =? "attention_mask" then Ok (set_attention_mask value v)
  else if name =? "seqlens_k" then Ok (set_seqlens_k value v)
  else if name =? "total_seq_len" then Ok (set_total_sequence_length value v)
  else if name =? "past_key_names" then Ok (set_past_key_names value v)
  else if name =? "past_value_names" then Ok (set_past_value_names value v)
  else if name =? "past_names" then Ok (set_past_names value v)
  else if name =? "cross_past_key_names" then Ok (set_cross_past_key_names value v)
  else if name =? "cross_past_value_names" then Ok (set_cross_past_value_names value v)
  else unknown.

Definition Outputs_OnString (name value : string) (v : DecoderOutputs) : outcome DecoderOutputs :=
  if name =? "logits" then Ok (set_logits value v)
  else if name =? "present_key_names" then Ok (set_present_key_names value v)
  else if name =? "present_value_names" then Ok (set_present_value_names value v)
  else if name =? "present_names" then Ok (set_present_names value v)
  else if name =? "cross_present_key_names" then Ok (set_cross_present_key_names value v)
  else if name =? "cross_present_value_names" then Ok (set_cross_present_value_names value v)
  else unknown.

Definition Decoder_OnString (name value : string) (v : Decoder) : outcome Decoder :=
  if name =? "filename" then Ok (set_dec_filename value v) else unknown.

Definition Decoder_OnNumber (name : string) (value : f64) (v : Decoder) : outcome Decoder :=
  if name =? "hidden_size" then n ← int_of_f64 value; Ok (set_hidden_size n v)
  else if name =? "num_attention_heads" then n ← int_of_f64 value; Ok (set_num_attention_heads n v)
  else if name =? "num_key_value_heads" then n ← int_of_f64 value; Ok (set_num_key_value_heads n v)
  else if name =? "num_hidden_layers" then n ← int_of_f64 value; Ok (set_num_hidden_layers n v)
  else if name =? "head_size" then n ← int_of_f64 value; Ok (set_head_size n v)
  else unknown.

Definition Decoder_OnObject (name : string) : outcome elem :=
  if name =? "session_options" then Ok SessionOptions_Element
  else if name =? "inputs" then Ok Inputs_Element
  else if name =? "outputs" then Ok Outputs_Element
  else unknown.

Definition VisionInputs_OnString (name value : string) (v : VisionInputs) : outcome VisionInputs :=
  if name =? "pixel_values" then Ok (set_pixel_values value v)
  else if name =? "image_sizes" then Ok (set_image_sizes value v)
  else unknown.

Definition VisionOutputs_OnString (name value : string) (v : VisionOutputs) : outcome VisionOutputs :=
  if name =? "visual_features" then Ok (set_visual_features value v) else unknown.

Definition Vision_OnString (name value : string) (v : Vision) : outcome Vision :=
  if name =? "filename" then Ok (set_vis_filename value v) else unknown.

Definition Vision_OnObject (name : string) : outcome elem :=
  if name =? "inputs" then Ok VisionInputs_Element
  else if name =? "outputs" then Ok VisionOutputs_Element
  else unknown.

Definition Eos_Array_OnNumber (name : string) (value : f64) (v : Model) : outcome Model :=
  n ← int_of_f64 value; Ok (set_eos_token_ids (eos_token_ids v ++ [n]) v).

Definition Eos_Array_OnComplete (empty : bool) (v : Model) : outcome Model :=
  match eos_token_ids v with
  | [] => Ok v
  | front :: _ =>
      let v := set_eos_token_id front v in
      if decide (length (eos_token_ids v) = 1%nat) then Ok (set_eos_token_ids [] v) else Ok v
  end.

Definition EmbeddingInputs_OnString (name value : string) (v : EmbeddingInputs) : outcome EmbeddingInputs :=
  if name =? "input_ids" then Ok (set_ei_input_ids value v) else unknown.

Definition EmbeddingOutputs_OnString (name value : string) (v : EmbeddingOutputs) : outcome EmbeddingOutputs :=
  if name =? "inputs_embeds" then Ok (set_eo_embeddings value v) else unknown.

Definition Embedding_OnString (name value : string) (v : Embedding) : outcome Embedding :=
  if name =? "filename" then Ok (set_emb_filename value v) else unknown.

Definition Embedding_OnObject (name : string) : outcome elem :=
  if name =? "inputs" then Ok EmbeddingInputs_Element
  else if name =? "outputs" then Ok EmbeddingOutputs_Element
  else unknown.

Definition Model_OnString (name value : string) (v : Model) : outcome Model :=
  if name =? "type" then Ok (set_type value v) else unknown.

Definition Model_OnNumber (name : string) (value : f64) (v : Model) : outcome Model :=
  if name =? "vocab_size" then n ← int_of_f64 value; Ok (set_vocab_size n v)
  else if name =? "context_length" then n ← int_of_f64 value; Ok (set_context_length n v)
  else if name =? "pad_token_id" then n ← int_of_f64 value; Ok (set_pad_token_id n v)
  else if name =? "eos_token_id" then n ← int_of_f64 value; Ok (set_eos_token_id n v)
  else if name =? "bos_token_id" then n ← int_of_f64 value; Ok (set_bos_token_id n v)
  else if name =? "decoder_start_token_id" then n ← int_of_f64 value; Ok (set_decoder_start_token_id n v)
  else if name =? "sep_token_id" then n ← int_of_f64 value; Ok (set_sep_token_id n v)
  else unknown.

Definition Model_OnArray (name : string) : outcome elem :=
  if name =? "eos_token_id" then Ok Eos_Array_Element else unknown.

Definition Model_OnObject (name : string) : outcome elem :=
  if name =? "encoder_decoder_init" then Ok EncoderDecoderInit_Element
  else if name =? "decoder" then Ok Decoder_Element
  else if name =? "vision" then Ok Vision_Element
  else if name =? "embedding" then Ok Embedding_Element
  else unknown.

Definition Search_OnNumber (name : string) (value : f64) (v : Search) : outcome Search :=
  if name =? "min_length" then n ← int_of_f64 value; Ok (set_min_length n v)
  else if name =? "max_length" then n ← int_of_f64 value; Ok (set_max_length n v)
  else if name =? "num_beams" then n ← int_of_f64 value; Ok (set_num_beams n v)
  else if name =? "num_return_sequences" then n ← int_of_f64 value; Ok (set_num_return_sequences n v)
  else if name =? "top_k" then n ← int_of_f64 value; Ok (set_top_k n v)
  else if name =? "top_p" then Ok (set_top_p (f32_of_f64 value) v)
  else if name =? "temperature" then Ok (set_temperature (f32_of_f64 value) v)
  else if name =? "repetition_penalty" then Ok (set_repetition_penalty (f32_of_f64 value) v)
  else if name =? "length_penalty" then Ok (set_length_penalty (f32_of_f64 value) v)
  else if name =? "no_repeat_ngram_size" then n ← int_of_f64 value; Ok (set_no_repeat_ngram_size n v)
  else if name =? "diversity_penalty" then Ok (set_diversity_penalty (f32_of_f64 value) v)
  else if name =? "length_penalty" then Ok (set_length_penalty (f32_of_f64 value) v)
  else if name =? "random_seed" then n ← int_of_f64 value; Ok (set_random_seed n v)
  else unknown.

Definition Search_OnBool (name : string) (value : bool) (v : Search) : outcome Search :=
  if name =? "do_sample" then Ok (set_do_sample value v)
  else if name =? "past_present_share_buffer" then Ok (set_past_present_share_buffer value v)
  else if name =? "early_stopping" then Ok (set_early_stopping value v)
  else unknown.

Definition Root_OnObject (name : string) : outcome elem :=
  if name =? "model" then Ok Model_Element
  else if name =? "search" then Ok Search_Element
  else unknown.

(** The references [v_]: applying an update at the place an element refers to. *)
Definition upd_model (f : Model -> outcome Model) (s : Loader) : outcome Loader :=
  m ← f (model (cfg s)); Ok (mkLoader (set_model m (cfg s)) (options_element_ s)).
Definition upd_search (f : Search -> outcome Search) (s : Loader) : outcome Loader :=
  x ← f (search (cfg s)); Ok (mkLoader (set_search x (cfg s)) (options_element_ s)).
Definition upd_decoder (f : Decoder -> outcome Decoder) : Loader -> outcome Loader :=
  upd_model (fun m => d ← f (decoder m); Ok (set_decoder d m)).
Definition upd_session (f : SessionOptions -> outcome SessionOptions) : Loader -> outcome Loader :=
  upd_decoder (fun d => x ← f (session_options d); Ok (set_session_options x d)).
Definition upd_vision (f : Vision -> outcome Vision) : Loader -> outcome Loader :=
  upd_model (fun m => d ← f (vision m); Ok (set_vision d m)).
Definition upd_embedding (f : Embedding -> outcome Embedding) : Loader -> outcome Loader :=
  upd_model (fun m => d ← f (embedding m); Ok (set_embedding d m)).

(** [ProviderOptionsObject_Element::OnObject] *)
Definition ProviderOptionsObject_OnObject (name : string) (s : Loader) : outcome (elem * Loader) :=
  match options_element_ s with
  | Some _ => Throw (RuntimeError "Each object in the provider_options array can only have one member (named value)")
  | None =>
      let i := length (provider_options (session_options (decoder (model (cfg s))))) in
      s ← upd_session (fun v => Ok (set_provider_options (provider_options v ++ [mkProviderOptions name []]) v)) s;
      Ok (ProviderOptions_Element i, mkLoader (cfg s) (Some i))
  end.

Definition at_state {A} (f : outcome A) (s : Loader) : outcome (A * Loader) := a ← f; Ok (a, s).

#[export] Instance config_element : Element elem Loader := {
  on_complete e empty s :=
    match e with
    | Eos_Array_Element => upd_model (Eos_Array_OnComplete empty) s
    | _ => default_on_complete empty s
    end;
  on_string e name value s :=
    match e with
    | Root_Element => Ok s
    | Model_Element => upd_model (Model_OnString name value) s
    | EncoderDecoderInit_Element =>
        upd_model (fun m => x ← EncoderDecoderInit_OnString name value (encoder_decoder_init m);
                            Ok (set_encoder_decoder_init x m)) s
    | Decoder_Element => upd_decoder (Decoder_OnString name value) s
    | SessionOptions_Element => upd_session (SessionOptions_OnString name value) s
    | Inputs_Element =>
        upd_decoder (fun d => x ← Inputs_OnString name value (dec_inputs d); Ok (set_dec_inputs x d)) s
    | Outputs_Element =>
        upd_decoder (fun d => x ← Outputs_OnString name value (dec_outputs d); Ok (set_dec_outputs x d)) s
    | ProviderOptions_Element i =>
        upd_session (fun v => p ← get (provider_options v) i; p ← ProviderOptions_OnString name value p;
                              Ok (set_provider_options (<[i := p]> (provider_options v)) v)) s
    | Vision_Element => upd_vision (Vision_OnString name value) s
    | VisionInputs_Element =>
        upd_vision (fun d => x ← VisionInputs_OnString name value (vis_inputs d); Ok (set_vis_inputs x d)) s
    | VisionOutputs_Element =>
        upd_vision (fun d => x ← VisionOutputs_OnString name value (vis_outputs d); Ok (set_vis_outputs x d)) s
    | Embedding_Element => upd_embedding (Embedding_OnString name value) s
    | EmbeddingInputs_Element =>
        upd_embedding (fun d => x ← EmbeddingInputs_OnString name value (emb_inputs d); Ok (set_emb_inputs x d)) s
    | EmbeddingOutputs_Element =>
        upd_embedding (fun d => x ← EmbeddingOutputs_OnString name value (emb_outputs d); Ok (set_emb_outputs x d)) s
    | _ => default_on_value name value s
    end;
  on_number e name value s :=
    match e with
    | Root_Element => Ok s
    | Model_Element => upd_model (Model_OnNumber name value) s
    | Eos_Array_Element => upd_model (Eos_Array_OnNumber name value) s
    | Decoder_Element => upd_decoder (Decoder_OnNumber name value) s
    | SessionOptions_Element => upd_session (SessionOptions_OnNumber name value) s
    | Search_Element => upd_search (Search_OnNumber name value) s
    | _ => default_on_value name value s
    end;
  on_bool e name value s :=
    match e with
    | SessionOptions_Element => upd_session (SessionOptions_OnBool name value) s
    | Search_Element => upd_search (Search_OnBool name value) s
    | _ => default_on_value name value s
    end;
  on_null e name s := default_on_null name s;
  on_array e name s :=
    match e with
    | Model_Element => at_state (Model_OnArray name) s
    | SessionOptions_Element => at_state (SessionOptions_OnArray name) s
    | _ => default_on_child name s
    end;
  on_object e name s :=
    match e with
    | RootObject_Element => Ok (Root_Element, s)
    | Root_Element => at_state (Root_OnObject name) s
    | Model_Element => at_state (Model_OnObject name) s
    | Decoder_Element => at_state (Decoder_OnObject name) s
    | Vision_Element => at_state (Vision_OnObject name) s
    | Embedding_Element => at_state (Embedding_OnObject name) s
    | ProviderOptionsArray_Element => Ok (ProviderOptionsObject_Element, s)
    | ProviderOptionsObject_Element => ProviderOptionsObject_OnObject name s
    | _ => default_on_child name s
    end;
}.

(** ** Free functions of config.cpp *)
Definition SetSearchNumber (s : Search) (name : string) (value : f64) : outcome Search :=
  Search_OnNumber name value s.

Definition SetSearchBool (s : Search) (name : string) (value : bool) : outcome Search :=
  Search_OnBool name value s.

(* the inner loop over the options of a provider: the first "enable_cuda_graph" decides *)
Fixpoint cuda_graph_option (l : list (string * string)) : option bool :=
  match l with
  | [] => None
  | (k, v) :: l' => if k =? "enable_cuda_graph" then Some (v =? "1") else cuda_graph_option l'
  end.

Fixpoint cuda_graph_providers (l : list ProviderOptions) : bool :=
  match l with
  | [] => false
  | p :: l' =>
      if po_name p =? "cuda" then
        match cuda_graph_option (po_options p) with Some b => b | None => cuda_graph_providers l' end
      else if po_name p =? "dml" then true
      else cuda_graph_providers l'
  end.

Definition IsCudaGraphEnabled (o : SessionOptions) : bool := cuda_graph_providers (provider_options o).

Inductive ONNXTensorElementDataType : Type :=
  | T_FLOAT | T_FLOAT16 | T_BFLOAT16 | T_DOUBLE | T_BOOL
  | T_UINT8 | T_INT8 | T_UINT16 | T_INT16 | T_UINT32 | T_INT32 | T_UINT64 | T_INT64
  | T_OTHER (n : Z).    (* string, complex, ...: no case of the program names them *)

#[export] Instance elt_eq_dec : EqDecision ONNXTensorElementDataType.
Proof. solve_decision. Defined.

Definition TranslateTensorType (value : string) : outcome ONNXTensorElementDataType :=
  if value =? "float32" then Ok T_FLOAT
  else if value =? "float16" then Ok T_FLOAT16
  else Throw (RuntimeError ("Invalid tensor type: " ++ value)).

(** What the file system gives for a path. *)
Inductive file : Type := NoFile | ReadFails | Contents (text : list ascii).

(** [ParseConfig(filename, config)] *)
Definition ParseConfig (fs : string -> file) (filename : string) (c : Config) : outcome Config :=
  match fs filename with
  | NoFile => Throw (RuntimeError ("Error opening " ++ filename))
  | ReadFails => Throw (RuntimeError ("Error reading " ++ filename))
  | Contents text =>
      match parse RootObject_Element text (mkLoader c None) with
      | Some (Ok s) => Ok (cfg s)
      | Some (Throw e) =>
          Throw (RuntimeError ("Error encountered while parsing '" ++ filename ++ "' " ++ what e))
      | Some Undef => Undef
      | None => Undef
      end
  end.

(* fs::path::operator/ *)
Definition join_path (p q : string) : string := p ++ "/" ++ q.

(** [Config::Config(path)] *)
Definition Config_load (fs : string -> file) (path : string) : outcome Config :=
  c ← ParseConfig fs (join_path path "genai_config.json") (set_config_path path Config_default);
  if (context_length (model c) =? 0)%Z then
    Throw (RuntimeError "model context_length is 0 or was not set. It must be greater than 0")
  else if (max_length (search c) =? 0)%Z then
    Ok (set_search (set_max_length (context_length (model c)) (search c)) c)
  else Ok c.

Definition AddMapping (nominal graph : string) (c : Config) : outcome Config :=
  let names := nominal_names_to_graph_names_ c in
  let names' := match names !! nominal with Some _ => names | None => <[nominal := graph]> names end in
  match names' !! nominal with
  | Some g => if g =? graph then Ok (set_nominal_names_to_graph_names_ names' c)
              else Throw (RuntimeError ("Duplicate nominal name: " ++ nominal ++ " with graph names: "
                                        ++ graph ++ " and " ++ g))
  | None => Undef
  end.

Definition GetGraphName (c : Config) (nominal : string) : string * bool :=
  match nominal_names_to_graph_names_ c !! nominal with
  | Some g => (g, true)
  | None => (nominal, false)
  end.

(** ** Loading *)

(** The list of providers and the flag of the one element that appends to it. *)
Definition providers (s : Loader) : list ProviderOptions :=
  provider_options (session_options (decoder (model (cfg s)))).

Definition one_provider (s : Loader) : Prop :=
  (length (providers s) <= 1)%nat ∧ (options_element_ s = None -> providers s = []).

Create HintDb config discriminated.

(* destructs the chain of string comparisons of an [OnX] *)
Ltac by_names :=
  repeat match goal with
  | H : (if ?b then _ else _) = Ok _ |- _ => destruct b
  | H : unknown = Ok _ |- _ => discriminate H
  end.

Lemma one_provider_same s s' :
  providers s' = providers s -> options_element_ s' = options_element_ s ->
  one_provider s -> one_provider s'.
Proof. unfold one_provider. by intros -> ->. Qed.

(** Updates of the search section and updates of the model section that keep
    the provider list keep the invariant. *)
Lemma upd_search_providers f s s' : one_provider s -> upd_search f s = Ok s' -> one_provider s'.
Proof. intros Hs Hu. unfold upd_search in Hu. inv_ok. by apply (one_provider_same s). Qed.

Lemma upd_model_providers f s s' :
  (∀ m m', f m = Ok m' ->
     length (provider_options (session_options (decoder m')))
       = length (provider_options (session_options (decoder m)))) ->
  one_provider s -> upd_model f s = Ok s' -> one_provider s'.
Proof.
  intros Hf [H1 H2] Hu. unfold upd_model in Hu. inv_ok. apply Hf in H.
  unfold one_provider, providers in *. simpl. rewrite H. split; [done|].
  intros Hn. apply length_zero_iff_nil. by rewrite H, H2.
Qed.

Lemma config_one_provider (text : list ascii) (c' : Config) (i : option nat) s :
  one_provider s -> parse RootObject_Element text s = Some (Ok (mkLoader c' i)) ->
  one_provider (mkLoader c' i).
Proof.
  intros Hs Hp. revert Hp Hs. apply (parse_keeps one_provider); clear.
  - intros e b s s' Hs. destruct e; simpl; try (by intros [= <-]).
    intros Hu. eapply upd_model_providers; [|done|exact Hu].
    intros m m' Hm. unfold Eos_Array_OnComplete in Hm.
    destruct (eos_token_ids m); [by injection Hm as <-|]. case_decide; by injection Hm as <-.
  - intros e n v s s' Hs. destruct e; simpl; try discriminate; try (by intros [= <-]); intros Hu;
      (eapply upd_model_providers; [|done|exact Hu]); clear Hu; intros m m' Hm;
      repeat (unfold EncoderDecoderInit_OnString, Decoder_OnString, SessionOptions_OnString,
        Inputs_OnString, Outputs_OnString, ProviderOptions_OnString, Vision_OnString,
        VisionInputs_OnString, VisionOutputs_OnString, Embedding_OnString,
        EmbeddingInputs_OnString, EmbeddingOutputs_OnString, Model_OnString in *; inv_ok; by_names);
      simpl; rewrite ?length_insert; reflexivity.
  - intros e n v s s' Hs. destruct e; simpl; try discriminate; try (by intros [= <-]); intros Hu;
      try (eapply upd_search_providers; [done|exact Hu]);
      (eapply upd_model_providers; [|done|exact Hu]); clear Hu; intros m m' Hm;
      repeat (unfold Decoder_OnNumber, SessionOptions_OnNumber, Eos_Array_OnNumber,
        Model_OnNumber in *; inv_ok; by_names); reflexivity.
  - intros e n v s s' Hs. destruct e; simpl; try discriminate; try (by intros [= <-]); intros Hu;
      try (eapply upd_search_providers; [done|exact Hu]);
      (eapply upd_model_providers; [|done|exact Hu]); clear Hu; intros m m' Hm;
      repeat (unfold SessionOptions_OnBool in *; inv_ok; by_names); reflexivity.
  - done.
  - intros e n s e' s' Hs. destruct e; simpl; try discriminate; unfold at_state; intros Hu;
      inv_ok; done.
  - intros e n s e' s' Hs. destruct e; simpl; try discriminate; unfold at_state; intros Hu;
      try (inv_ok; done).
    unfold ProviderOptionsObject_OnObject in Hu. destruct (options_element_ s) eqn:Eo; [done|].
    inv_ok. unfold upd_session, upd_decoder, upd_model in H. inv_ok.
    destruct Hs as [_ Hn]. specialize (Hn Eo). unfold one_provider, providers in *. simpl.
    by rewrite Hn.
Qed.

Lemma ParseConfig_providers (fs : string -> file) (filename : string) (c c' : Config) :
  provider_options (session_options (decoder (model c))) = [] ->
  ParseConfig fs filename c = Ok c' ->
  (length (provider_options (session_options (decoder (model c')))) <= 1)%nat.
Proof.
  intros Hc. unfold ParseConfig. destruct (fs filename) as [| |text]; [done..|].
  destruct (parse _ text _) as [[[c1 i]| |]|] eqn:E; intros; inv_ok.
  apply config_one_provider in E as [H1 _]; [exact H1|].
  split; unfold providers; simpl; rewrite Hc; [apply Nat.le_0_l|done].
Qed.

(** Whatever the file says, a configuration that loads names at most one
    execution provider: the array element hands out one object element, and
    that element accepts one member in its whole life, so a second provider is
    an error even in an array entry of its own. *)
Theorem ParseConfig_one_provider (fs : string -> file) (filename : string) (c c' : Config) :
  provider_options (session_options (decoder (model c))) = [] ->
  ParseConfig fs filename c = Ok c' ->
  (length (provider_options (session_options (decoder (model c')))) <= 1)%nat.
Proof. apply ParseConfig_providers. Qed.

(** What a configuration that loads is. *)
Lemma Config_load_ok (fs : string -> file) (path : string) (c : Config) : Config_load fs path = Ok c ->
  context_length (model c) ≠ 0%Z ∧ max_length (search c) ≠ 0%Z ∧
  (length (provider_options (session_options (decoder (model c)))) <= 1)%nat.
Proof.
  unfold Config_load. intros H. inv_ok. rename x into c0.
  apply ParseConfig_providers in H0 as Hp; [|done].
  destruct (Z.eqb_spec (context_length (model c0)) 0) as [|Hctx]; [done|].
  destruct (Z.eqb_spec (max_length (search c0)) 0) as [Hm|Hm]; inv_ok; (split; [done|split; [done|exact Hp]]).
Qed.

(** A configuration that loads has a context length and a maximum length
    that are not 0, and its maximum length is the file's unless the file left
    it 0, in which case it is the context length. *)
Theorem Config_load_lengths (fs : string -> file) (path : string) (c : Config) :
  Config_load fs path = Ok c ->
  context_length (model c) ≠ 0%Z ∧ max_length (search c) ≠ 0%Z ∧
  ∃ c0, ParseConfig fs (join_path path "genai_config.json") (set_config_path path Config_default) = Ok c0 ∧
        model c = model c0 ∧
        (c = c0 ∨ (max_length (search c0) = 0%Z ∧ max_length (search c) = context_length (model c0))).
Proof.
  unfold Config_load. intros H. inv_ok. rename x into c0.
  destruct (Z.eqb_spec (context_length (model c0)) 0) as [|Hctx]; [done|].
  destruct (Z.eqb_spec (max_length (search c0)) 0) as [Hm|Hm]; inv_ok;
    (split; [done|split; [done|eauto 10]]).
Qed.

(** ** Search options *)
Inductive field_value : Type := FInt (z : Z) | FFloat (x : f32).

(** The numeric options and their names, in the order of [Search_OnNumber]. *)
Definition search_numbers (s : Search) : list (string * field_value) :=
  [("min_length", FInt (min_length s)); ("max_length", FInt (max_length s));
   ("num_beams", FInt (num_beams s)); ("num_return_sequences", FInt (num_return_sequences s));
   ("top_k", FInt (top_k s)); ("top_p", FFloat (top_p s)); ("temperature", FFloat (temperature s));
   ("repetition_penalty", FFloat (repetition_penalty s)); ("length_penalty", FFloat (length_penalty s));
   ("no_repeat_ngram_size", FInt (no_repeat_ngram_size s));
   ("diversity_penalty", FFloat (diversity_penalty s)); ("random_seed", FInt (random_seed s))].

Definition search_bools (s : Search) : list (string * bool) :=
  [("do_sample", do_sample s); ("past_present_share_buffer", past_present_share_buffer s);
   ("early_stopping", early_stopping s)].

(* the value stored in a field of the kind of [old] *)
Definition convert (old : field_value) (v : f64) : outcome field_value :=
  match old with
  | FInt _ => n ← int_of_f64 v; Ok (FInt n)
  | FFloat _ => Ok (FFloat (f32_of_f64 v))
  end.

(** The reference: replace the named field, convert the value to its type. *)
Fixpoint update_field (l : list (string * field_value)) (name : string) (v : f64)
  : outcome (list (string * field_value)) :=
  match l with
  | [] => Throw UnknownValueError
  | (n, old) :: l' =>
      if name =? n then new ← convert old v; Ok ((n, new) :: l')
      else l' ← update_field l' name v; Ok ((n, old) :: l')
  end.

(** [SetSearchNumber] is the update of the named option: it changes that
    option only, to the value converted to the option's type, leaves the
    boolean options, and throws exactly when the name is not an option. *)
Theorem SetSearchNumber_spec (s : Search) (name : string) (v : f64) :
  (s' ← SetSearchNumber s name v; Ok (search_numbers s', search_bools s'))
    = (l ← update_field (search_numbers s) name v; Ok (l, search_bools s)).
Proof.
  unfold SetSearchNumber, Search_OnNumber, search_numbers. simpl.
  repeat match goal with
  | |- context [name =? ?n] => destruct (String.eqb_spec name n); [subst; simpl|]
  end; try reflexivity. all: destruct (int_of_f64 v); reflexivity.
Qed.

(** ** The end-of-stream array *)

(* what the numbers [ns] of an "eos_token_id" array leave in the model *)
Definition eos_array_result (ns : list Z) (m : Model) : Model :=
  match ns with
  | [] => m
  | [n] => set_eos_token_id n m
  | n :: _ => set_eos_token_ids ns (set_eos_token_id n m)
  end.

Lemma eos_numbers (ds : list (bool * list ascii)) : ∀ ns s,
  Forall2 (fun d n => int_of_f64 (num_val d.1 d.2) = Ok n) ds ns ->
  for_each (fun v s => walk v Eos_Array_Element "" s) (map (fun d => JNum d.1 d.2) ds) s
    = Ok (mkLoader (set_model (set_eos_token_ids (eos_token_ids (model (cfg s)) ++ ns) (model (cfg s))) (cfg s))
                   (options_element_ s)).
Proof.
  induction ds as [|[neg d] ds IH]; intros ns s Hf; inversion Hf as [|? n ? ns' Hn Hf']; subst.
  - simpl. rewrite app_nil_r. by destruct s as [[? [] ? ?] ?].
  - cbn [map]. rewrite for_each_cons. cbn [walk fst snd]. simpl in Hn.
    simpl (on_number _ _ _ _). unfold upd_model, Eos_Array_OnNumber. rewrite Hn. cbn.
    rewrite (IH ns') by done. cbn. by rewrite <- app_assoc.
Qed.

(** An "eos_token_id" array of integers makes its first entry the primary
    end-of-stream token; the array itself is kept only when it has two or more
    entries, and an empty array changes nothing. *)
Theorem eos_array_walk (ds : list (bool * list ascii)) (ns : list Z) (s : Loader) :
  eos_token_ids (model (cfg s)) = [] ->
  Forall2 (fun d n => int_of_f64 (num_val d.1 d.2) = Ok n) ds ns ->
  walk (JArr (map (fun d => JNum d.1 d.2) ds)) Model_Element "eos_token_id" s
    = Ok (mkLoader (set_model (eos_array_result ns (model (cfg s))) (cfg s)) (options_element_ s)).
Proof.
  intros Hnil Hf. cbn [walk]. simpl (on_array _ _ _). cbn [at_state mbind outcome_bind fst snd].
  destruct ds as [|d ds]; inversion Hf as [|? n ? ns' Hn Hf']; subst.
  - simpl. unfold upd_model, Eos_Array_OnComplete. rewrite Hnil. simpl. by destruct s as [[? ? ? ?] ?].
  - cbn [map]. rewrite (eos_numbers (d :: ds) (n :: ns')) by done. cbn.
    rewrite Hnil. unfold upd_model, Eos_Array_OnComplete. simpl.
    destruct ns' as [|n' ns']; simpl; [|done].
    rewrite <- Hnil. by destruct s as [[? [] ? ?] ?].
Qed.

(** ** Name mapping *)

(** A mapping that was added is found, a second mapping of the same name to
    another graph name is refused and to the same one accepted, and the lookup
    of every other name is unchanged. *)
Theorem AddMapping_spec (c : Config) (nominal graph : string) :
  match nominal_names_to_graph_names_ c !! nominal with
  | Some g =>
      if decide (g = graph) then AddMapping nominal graph c = Ok c
      else ∃ msg, AddMapping nominal graph c = Throw (RuntimeError msg)
  | None =>
      ∃ c', AddMapping nominal graph c = Ok c' ∧ GetGraphName c' nominal = (graph, true) ∧
            ∀ n, n ≠ nominal -> GetGraphName c' n = GetGraphName c n
  end.
Proof.
  unfold AddMapping, GetGraphName.
  destruct (nominal_names_to_graph_names_ c !! nominal) as [g|] eqn:E.
  - rewrite E. destruct (String.eqb_spec g graph) as [->|Hne].
    + rewrite decide_True by done. by destruct c.
    + rewrite decide_False by done. eauto.
  - rewrite lookup_insert_eq, String.eqb_refl. eexists. split; [done|]. split.
    + simpl. by rewrite lookup_insert_eq.
    + intros n Hn. simpl. by rewrite lookup_insert_ne.
Qed.

(** ** Concrete documents *)
Definition text_of (v : jv) : list ascii := print v ++ [lf].
Definition num (s : string) : jv := JNum false (list_ascii_of_string s).

(** A small genai_config.json. *)
Definition sample_config : jv :=
  JObj [("model", JObj [("type", JStr "gpt2"); ("vocab_size", num "1000"); ("context_length", num "64");
                        ("eos_token_id", JArr [num "98"; num "7"]);
                        ("decoder", JObj [("session_options",
                           JObj [("provider_options", JArr [JObj [("cuda", JObj [("enable_cuda_graph", JStr "1")])]])])])]);
        ("search", JObj [("top_k", num "50"); ("do_sample", JBool true)])].
Definition sample_fs (path : string) : file :=
  if path =? "m/genai_config.json" then Contents (text_of sample_config) else NoFile.
Definition sample_loaded : Config :=
  match Config_load sample_fs "m" with Ok c => c | _ => Config_default end.

Lemma parse_walk_witness :
  parse RootObject_Element (print sample_config ++ [lf]) (mkLoader (set_config_path "m" Config_default) None)
    = Some (walk sample_config RootObject_Element "" (mkLoader (set_config_path "m" Config_default) None)).
Proof.
  destruct (walk sample_config RootObject_Element "" (mkLoader (set_config_path "m" Config_default) None))
    as [s'| |] eqn:E; [|vm_compute in E; discriminate E|vm_compute in E; discriminate E].
  apply parse_walk; [reflexivity|reflexivity|exact E].
Defined.

Lemma ParseConfig_one_provider_witness :
  (length (provider_options (session_options (decoder (model sample_loaded)))) <= 1)%nat
  ∧ provider_options (session_options (decoder (model sample_loaded)))
      = [mkProviderOptions "cuda" [("enable_cuda_graph", "1")]].
Proof.
  split; [|vm_compute; reflexivity].
  destruct (ParseConfig sample_fs "m/genai_config.json" (set_config_path "m" Config_default))
    as [c| |] eqn:E; [|vm_compute in E; discriminate E|vm_compute in E; discriminate E].
  refine (Nat.le_trans _ _ _ _ (ParseConfig_one_provider sample_fs "m/genai_config.json" (set_config_path "m" Config_default) c eq_refl E)).
  apply Nat.eq_le_incl. vm_compute in E. injection E as <-. vm_compute. reflexivity.
Defined.

Lemma Config_load_lengths_witness :
  context_length (model sample_loaded) ≠ 0%Z ∧ max_length (search sample_loaded) = 64%Z.
Proof.
  split; [|vm_compute; reflexivity].
  apply (Config_load_lengths sample_fs "m" sample_loaded). vm_compute. reflexivity.
Defined.

Lemma eos_array_walk_witness :
  walk (JArr (map (fun d => JNum d.1 d.2) [(false, list_ascii_of_string "98"); (false, list_ascii_of_string "7")]))
       Model_Element "eos_token_id" (mkLoader Config_default None)
    = Ok (mkLoader (set_model (eos_array_result [98; 7]%Z Model_default) Config_default) None).
Proof.
  apply (eos_array_walk [(false, list_ascii_of_string "98"); (false, list_ascii_of_string "7")] [98; 7]%Z
           (mkLoader Config_default None)); [reflexivity|].
  repeat constructor; vm_compute; reflexivity.
Defined.
