(* ===== verification/Tensors.v ===== *)
(** * Tensors (src/tensor.h, src/models/utils.cpp, src/models/static_buffer.cpp
      and the tensor helpers of src/models/model.cpp)

    An [OrtValue] is its element type, its shape and its elements: an integer is
    itself, a float its bit pattern.  Tensors live in a [heap]: a [unique_ptr] is the
    pointer it owns, a raw pointer the same number, and a pointer that is not in
    the heap dangles.  What fresh memory contains is the field [fresh] of the
    heap and nothing is assumed about it.  The build is the CPU one: neither
    [USE_CUDA] nor [USE_DML] is defined. *)
From Stdlib Require Import ZArith Lia SpecFloat.
From stdpp Require Import base numbers list strings gmap pretty.
From S2P Require Import Prelude Float32 Config.
Local Open Scope Z_scope.

Inductive DeviceType : Type := CPU | CUDA | DML.
#[export] Instance DeviceType_eq_dec : EqDecision DeviceType.
Proof. solve_decision. Defined.

Definition to_string (d : DeviceType) : string :=
  match d with CPU => "CPU" | CUDA => "CUDA" | DML => "DirectML" end.

(** ** Element types *)
Definition SizeOf (type : ONNXTensorElementDataType) : outcome Z :=
  match type with
  | T_UINT8 => Ok 1 | T_INT8 => Ok 1 | T_UINT16 => Ok 2 | T_INT16 => Ok 2
  | T_UINT32 => Ok 4 | T_INT32 => Ok 4 | T_UINT64 => Ok 8 | T_INT64 => Ok 8
  | T_BOOL => Ok 1 | T_FLOAT => Ok 4 | T_DOUBLE => Ok 8
  | T_FLOAT16 => Ok 2 | T_BFLOAT16 => Ok 2
  | T_OTHER _ => Throw (RuntimeError "Unsupported ONNXTensorElementDataType in GetTypeSize")
  end.

(** ** Half precision

    A shift by the width or more is undefined in C++; [oversize] is whatever the
    machine computes for it, and no theorem depends on what that is. *)
Section half.
Context (oversize : Z -> Z -> Z).

Definition shl32 (a s : Z) : Z := u32 (if s <? 32 then Z.shiftl a s else oversize a s).
Definition shr32 (a s : Z) : Z := u32 (if s <? 32 then Z.shiftr a s else oversize a s).
Definition b2Z (b : bool) : Z := if b then 1 else 0.

Definition Float16ToFloat32 (v : Z) : f32 :=
  let sign := Z.shiftr (Z.land v 0x8000) 15 in
  let exponent := Z.shiftr (Z.land v 0x7C00) 10 in
  let fraction := Z.land v 0x03FF in
  let unit := f32_of_Z (if negb (sign =? 0) then -1 else 1) in
  if exponent =? 0 then
    if fraction =? 0 then S754_zero (negb (sign =? 0))
    else SFldexp 24 128 (fdiv (fmul unit (f32_of_Z fraction)) (f32_of_Z 1024)) (-14)
  else if exponent =? 31 then
    if fraction =? 0 then S754_infinity (negb (sign =? 0)) else S754_nan
  else SFldexp 24 128 (fmul unit (fadd f1 (fdiv (f32_of_Z fraction) (f32_of_Z 1024)))) (exponent - 15).

Definition FastFloat16ToFloat32 (x : Z) : f32 :=
  let e := Z.shiftr (Z.land x 0x7C00) 10 in
  let m := Z.shiftl (Z.land x 0x03FF) 13 in
  let v := Z.shiftr (bits_of_f32 (f32_of_Z m)) 23 in
  f32_of_bits
    (Z.lor (Z.lor (u32 (Z.shiftl (Z.land x 0x8000) 16))
                  (u32 (b2Z (negb (e =? 0)) * Z.lor (u32 (Z.shiftl (e + 112) 23)) m)))
           (u32 (Z.land (b2Z (e =? 0)) (b2Z (negb (m =? 0)))
                 * Z.lor (u32 (Z.shiftl (u32 (v - 37)) 23))
                         (Z.land (shl32 m (u32 (150 - v))) 0x007FE000)))).

Definition FastFloat32ToFloat16 (v : f32) : Z :=
  let b := u32 (bits_of_f32 v + 0x00001000) in
  let e := Z.shiftr (Z.land b 0x7F800000) 23 in
  let m := Z.land b 0x007FFFFF in
  Z.land
    (Z.lor (Z.lor (Z.lor (Z.shiftr (Z.land b 0x80000000) 16)
              (b2Z (112 <? e) * Z.lor (Z.land (u32 (Z.shiftl (u32 (e - 112)) 10)) 0x7C00) (Z.shiftr m 13)))
              (Z.land (b2Z (e <? 113)) (b2Z (101 <? e))
               * Z.shiftr (u32 (shr32 (u32 (0x007FF000 + m)) (u32 (125 - e)) + 1)) 1))
           (b2Z (143 <? e) * 0x7FFF))
    0xFFFF.
End half.

(** ** OrtValue and the heap *)
Record OrtValue := mkOrt {
  element_type : ONNXTensorElementDataType;
  shape : list nat;
  data : list Z }.

#[export] Instance OrtValue_eq_dec : EqDecision OrtValue.
Proof. solve_decision. Defined.

Definition ptr : Type := nat.

Record heap := mkHeap {
  tensors : gmap ptr OrtValue;
  next_ptr : ptr;
  fresh : ptr -> nat -> Z;
  double_frees : nat }.

Fixpoint element_count (sh : list nat) : nat :=
  match sh with [] => 1%nat | d :: sh' => (d * element_count sh')%nat end.

Definition deref (h : heap) (p : ptr) : outcome OrtValue :=
  match tensors h !! p with Some t => Ok t | None => Undef end.

(* OrtValue::CreateTensor(allocator, shape, type) *)
Definition CreateTensor (sh : list nat) (ty : ONNXTensorElementDataType) (h : heap) : heap * ptr :=
  let p := next_ptr h in
  (mkHeap (<[p := mkOrt ty sh (map (fresh h p) (seq 0 (element_count sh)))]> (tensors h)) (S p) (fresh h) (double_frees h), p).

(* a tensor whose memory is given: CreateTensor(info, data, shape) and input tensors *)
Definition new_tensor (t : OrtValue) (h : heap) : heap * ptr :=
  (mkHeap (<[next_ptr h := t]> (tensors h)) (S (next_ptr h)) (fresh h) (double_frees h), next_ptr h).

Definition store (p : ptr) (t : OrtValue) (h : heap) : heap :=
  mkHeap (<[p := t]> (tensors h)) (next_ptr h) (fresh h) (double_frees h).

Definition set_data (p : ptr) (d : list Z) (h : heap) : outcome heap :=
  t ← deref h p; Ok (store p (mkOrt (element_type t) (shape t) d) h).

(* the destructor, or an assignment, of a unique_ptr; a tensor that is gone
   cannot be destroyed again *)
Definition free (o : option ptr) (h : heap) : heap :=
  match o with
  | Some p => mkHeap (delete p (tensors h)) (next_ptr h) (fresh h)
                (match tensors h !! p with Some _ => double_frees h | None => S (double_frees h) end)
  | None => h
  end.

(** ** StaticBuffer

    [buffer_] is the size in bytes of the allocation once there is one. *)
Record StaticBuffer := mkStaticBuffer {
  buffer_ : option Z;
  bytes_ : Z;
  max_beam_batch_size_ : Z }.

Definition StaticBuffer_new (max_beam_batch_size : Z) : StaticBuffer := mkStaticBuffer None 0 max_beam_batch_size.

Definition GetNumElements (sh : list Z) : Z := fold_left (fun n dim => u64 (n * dim)) sh 1.

(** The tensor it makes is the pair of the size in bytes and the shape. *)
Definition CreateTensorOnStaticBuffer (sh : list Z) (type : ONNXTensorElementDataType) (s : StaticBuffer)
  : outcome (StaticBuffer * (Z * list Z)) :=
  size ← SizeOf type;
  let new_bytes := u64 (size * GetNumElements sh) in
  match buffer_ s with
  | None =>
      match sh with
      | [] => Undef
      | first :: _ =>
          if u64 first =? 0 then Undef (* division by zero *) else
          let bytes := u64 (new_bytes * (max_beam_batch_size_ s / u64 first)) in
          Ok (mkStaticBuffer (Some bytes) bytes (max_beam_batch_size_ s), (new_bytes, sh))
      end
  | Some _ =>
      (* the comparison constructs an exception object and does not throw it *)
      Ok (s, (new_bytes, sh))
  end.

(** ** Padding of ragged prompts *)
Definition max_size (sequences : list (list Z)) : nat :=
  fold_left (fun m s => Nat.max m (length s)) sequences O.

Definition PadInputs (sequences : list (list Z)) (pad_token_id : Z) : outcome (list Z) :=
  let max_length := max_size sequences in
  for_ (length sequences) (fun i result =>
      input_span ← get sequences i;
      output_span ← subspan result (i * max_length) max_length;
      let pad_count := (max_length - length input_span)%nat in
      result ← blit result (i * max_length) input_span;
      (* std::fill(output_span.end() - pad_count, output_span.end(), pad_token_id) *)
      blit result (i * max_length + (max_length - pad_count)) (replicate pad_count pad_token_id))
    (replicate (max_length * length sequences) 0).

(** ** Conversions between float tensors *)

(* [for (i < count) dest[i] = f(src[i])] *)
Definition convert_loop {B} (f : Z -> B) (src : list Z) (write : nat -> B -> list Z -> outcome (list Z))
    (count : nat) (dest : list Z) : outcome (list Z) :=
  for_ count (fun i dest => v ← get src i; write i (f v) dest) dest.

(* the 16-bit cell [i] of the memory of a tensor of elements of [size] bytes *)
Definition write_u16 (size : Z) (i : nat) (v : Z) (dest : list Z) : outcome (list Z) :=
  if size =? 2 then put dest i v else
  if size =? 4 then
    old ← get dest (i / 2);
    put dest (i / 2)
      (if Nat.even i then Z.lor (Z.land old 0xFFFF0000) v
       else Z.lor (Z.land old 0x0000FFFF) (Z.shiftl v 16))
  else Undef.

Definition same_shape (h : heap) (p_out : option ptr) (sh : list nat) : outcome bool :=
  match p_out with
  | None => Ok false
  | Some p => t ← deref h p; Ok (bool_decide (shape t = sh))
  end.

(* if (allocate_p_out) p_out = OrtValue::CreateTensor<float>(allocator, shape) *)
Definition ensure_output (keep : bool) (p_out : option ptr) (sh : list nat) (h : heap) : heap * ptr :=
  match keep, p_out with
  | true, Some p => (h, p)
  | _, _ => let '(h, p) := CreateTensor sh T_FLOAT h in (free p_out h, p)
  end.

(* int count = static_cast<int>(shape_info->GetElementCount()): above [INT_MAX]
   the cast wraps, and a loop up to a negative count does nothing *)
Definition int_count (sh : list nat) : nat := Z.to_nat (i32 (Z.of_nat (element_count sh))).

Lemma int_count_id sh : Z.of_nat (element_count sh) <= INT_MAX -> int_count sh = element_count sh.
Proof. intros H. unfold int_count. rewrite i32_id by (unfold INT_MIN; lia). apply Nat2Z.id. Qed.

Section convert.
Context (oversize : Z -> Z -> Z).

Definition ConvertFp16ToFp32 (in_ : ptr) (p_out : option ptr) (device_type : DeviceType) (h : heap)
  : outcome (heap * ptr) :=
  t ← deref h in_;
  _ ← assert_ (bool_decide (element_type t = T_FLOAT16));
  keep ← same_shape h p_out (shape t);
  let '(h, out) := ensure_output keep p_out (shape t) h in
  match device_type with
  | CUDA => Throw (RuntimeError "ConvertFp16ToFp32 - Unsupported device type")
  | _ =>
      o ← deref h out;
      d ← convert_loop (fun z => bits_of_f32 (FastFloat16ToFloat32 oversize z)) (data t) (fun i v d => put d i v)
            (int_count (shape t)) (data o);
      h ← set_data out d h; Ok (h, out)
  end.

Definition ConvertFp32ToFp16 (in_ : ptr) (p_out : option ptr) (device_type : DeviceType) (h : heap)
  : outcome (heap * ptr) :=
  t ← deref h in_;
  _ ← assert_ (bool_decide (element_type t = T_FLOAT));
  keep ← same_shape h p_out (shape t);
  let '(h, out) := ensure_output keep p_out (shape t) h in
  match device_type with
  | CUDA => Throw (RuntimeError "ConvertFp32ToFp16 - Unsupported device type")
  | _ =>
      o ← deref h out;
      size ← SizeOf (element_type o);
      d ← convert_loop (fun z => FastFloat32ToFloat16 oversize (f32_of_bits z)) (data t) (write_u16 size)
            (int_count (shape t)) (data o);
      h ← set_data out d h; Ok (h, out)
  end.
End convert.

(** ** Model::ExpandInputs

    The rows are copied as bytes; a row holds [data_size_bytes / element_size]
    elements. *)
Definition expanded_copy (device_type : DeviceType) (input : ptr) (num_beams : nat) (h : heap) : outcome (heap * ptr) :=
  t ← deref h input;
  _ ← SizeOf (element_type t);
  match shape t with
  | [] => Undef
  | batch_size :: rest =>
      if decide (batch_size = 0%nat) then Undef (* division by zero *) else
      let row := (element_count (shape t) / batch_size)%nat in
      let '(h, p) := CreateTensor ((batch_size * num_beams)%nat :: rest) (element_type t) h in
      match device_type with
      | CUDA => Throw (RuntimeError "ExpandInputs - Unsupported device type")
      | _ =>
          e ← deref h p;
          '(d, _) ← for_ batch_size (fun i => for_ num_beams (fun j '(d, target) =>
              src ← subspan (data t) (i * row) row;
              d ← blit d target src;
              Ok (d, (target + row)%nat)))
            (data e, O);
          h ← set_data p d h; Ok (h, p)
      end
  end.

(* with one beam the input is moved and not copied *)
Definition moves_input (device_type : DeviceType) (num_beams : nat) : bool :=
  bool_decide (num_beams = 1%nat) && negb (bool_decide (device_type = CUDA)).

(** [x = model.ExpandInputs(x, num_beams)]: the caller's [unique_ptr] gets the
    copy, and its assignment frees the input. *)
Definition ExpandInputs (device_type : DeviceType) (input : ptr) (num_beams : nat) (h : heap) : outcome (heap * ptr) :=
  if moves_input device_type num_beams then Ok (h, input) else
  '(h, p) ← expanded_copy device_type input num_beams h; Ok (free (Some input) h, p).

(** [x = model.ExpandInputs(y, num_beams)] for a null [x]: what [y] and [x] hold
    afterwards. *)
Definition expand_from (device_type : DeviceType) (y : option ptr) (num_beams : nat) (h : heap)
  : outcome (option ptr * option ptr * heap) :=
  if moves_input device_type num_beams then Ok (None, y, h) else
  input ← initialised y;
  '(h, p) ← expanded_copy device_type input num_beams h; Ok (y, Some p, h).

(** ** SessionInfo *)
Record SessionInfo := mkSessionInfo {
  si_inputs : gmap string ONNXTensorElementDataType;
  si_outputs : gmap string ONNXTensorElementDataType }.

(* what a session reports: its inputs and its outputs, in order *)
Definition session_io : Type :=
  list (string * ONNXTensorElementDataType) * list (string * ONNXTensorElementDataType).

(* the enumerators of onnxruntime_c_api.h *)
Definition type_number (t : ONNXTensorElementDataType) : Z :=
  match t with
  | T_FLOAT => 1 | T_UINT8 => 2 | T_INT8 => 3 | T_UINT16 => 4 | T_INT16 => 5 | T_INT32 => 6 | T_INT64 => 7
  | T_BOOL => 9 | T_FLOAT16 => 10 | T_DOUBLE => 11 | T_UINT32 => 12 | T_UINT64 => 13 | T_BFLOAT16 => 16
  | T_OTHER n => n
  end.

(* unordered_map::emplace keeps the element that is there *)
Definition emplace (n : string) (t : ONNXTensorElementDataType) (m : gmap string ONNXTensorElementDataType)
  : gmap string ONNXTensorElementDataType :=
  match m !! n with Some _ => m | None => <[n := t]> m end.

Definition SessionInfo_Add (session : session_io) (s : SessionInfo) : outcome SessionInfo :=
  inputs ← for_each (fun '(name, input_type) m =>
      match m !! name with
      | Some found =>
          if decide (found = input_type) then Ok (emplace name input_type m)
          else Throw (RuntimeError ("Model input type mismatch: " +:+ name +:+ " expected "
                 +:+ pretty (type_number found) +:+ " got " +:+ pretty (type_number input_type)))
      | None => Ok (emplace name input_type m)
      end) (fst session) (si_inputs s);
  let outputs := fold_left (fun m '(name, output_type) => emplace name output_type m) (snd session) (si_outputs s) in
  Ok (mkSessionInfo inputs outputs).

Definition SessionInfo_new (session : session_io) : outcome SessionInfo :=
  SessionInfo_Add session (mkSessionInfo ∅ ∅).

Definition HasInput (s : SessionInfo) (name : string) : bool := bool_decide (is_Some (si_inputs s !! name)).
Definition HasOutput (s : SessionInfo) (name : string) : bool := bool_decide (is_Some (si_outputs s !! name)).

Definition GetInputDataType (s : SessionInfo) (name : string) : outcome ONNXTensorElementDataType :=
  match si_inputs s !! name with
  | Some t => Ok t
  | None => Throw (RuntimeError ("Model input was not found: " +:+ name))
  end.

Definition GetOutputDataType (s : SessionInfo) (name : string) : outcome ONNXTensorElementDataType :=
  match si_outputs s !! name with
  | Some t => Ok t
  | None => Throw (RuntimeError ("Model output was not found: " +:+ name))
  end.

(** ** Half precision: the fast conversion is exact

    A pattern is split into its sign, exponent and fraction; floats of 24-bit
    mantissa are moved by an exact power of two.  What is left are tables over
    the 1024 fractions. *)
Definition half_exponent (x : Z) : Z := Z.shiftr (Z.land x 0x7C00) 10.

(* an aligned mask takes a field *)
Lemma field (b n k : Z) : 0 <= n -> 0 <= k ->
  Z.shiftr (Z.land b (Z.shiftl (Z.ones k) n)) n = (b / 2 ^ n) mod 2 ^ k.
Proof.
  intros Hn Hk. rewrite Z.shiftr_land, Z.shiftr_shiftl_l, Z.sub_diag, Z.shiftl_0_r by lia.
  by rewrite Z.land_ones, Z.shiftr_div_pow2 by lia.
Qed.

Lemma mask_field (b n k : Z) : 0 <= n -> 0 <= k ->
  Z.land b (Z.shiftl (Z.ones k) n) = ((b / 2 ^ n) mod 2 ^ k) * 2 ^ n.
Proof.
  intros Hn Hk. rewrite <- (field b n k), <- Z.shiftl_mul_pow2 by done.
  rewrite Z.shiftr_land, Z.shiftl_land, (Z.shiftr_shiftl_l (Z.ones k)), Z.sub_diag, Z.shiftl_0_r by lia.
  apply Z.bits_inj'. intros j Hj. rewrite !Z.land_spec.
  destruct (Z.lt_ge_cases j n); [by rewrite !(Z.shiftl_spec_low _ n), !andb_false_r by lia|].
  rewrite (Z.shiftl_spec_high (Z.shiftr b n)), Z.shiftr_spec by lia. do 2 f_equal. lia.
Qed.

Lemma lor_add (a b n : Z) : 0 <= n -> 0 <= b < 2 ^ n -> Z.lor (a * 2 ^ n) b = a * 2 ^ n + b.
Proof.
  intros Hn Hb. assert (Z.land (a * 2 ^ n) b = 0) as Hand.
  { apply Z.bits_inj'. intros j Hj. rewrite Z.land_spec, Z.bits_0.
    destruct (Z.lt_ge_cases j n); [by rewrite Z.mul_pow2_bits_low|].
    rewrite <- (Z.mod_small b (2 ^ n)), Z.mod_pow2_bits_high by lia. apply andb_false_r. }
  rewrite Z.add_nocarry_lxor by done. symmetry. by apply Z.lxor_lor.
Qed.

Section pattern.
Context (s e f : Z) (Hs : 0 <= s < 2) (He : 0 <= e < 32) (Hf : 0 <= f < 1024).
Let x := s * 32768 + e * 1024 + f.

Lemma pattern_sign : Z.land x 0x8000 = s * 32768.
Proof.
  change 0x8000 with (Z.shiftl (Z.ones 1) 15). rewrite mask_field by lia.
  change (2 ^ 15) with 32768. change (2 ^ 1) with 2.
  f_equal. subst x. assert ((s * 32768 + e * 1024 + f) / 32768 = s) as -> by div_lia.
  by rewrite Z.mod_small.
Qed.

Lemma pattern_exponent : Z.shiftr (Z.land x 0x7C00) 10 = e.
Proof.
  change 0x7C00 with (Z.shiftl (Z.ones 5) 10). rewrite field by lia.
  change (2 ^ 10) with 1024. change (2 ^ 5) with 32. subst x. div_lia.
Qed.

Lemma pattern_fraction : Z.land x 0x03FF = f.
Proof.
  change 0x03FF with (Z.ones 10). rewrite Z.land_ones by lia. change (2 ^ 10) with 1024. subst x. div_lia.
Qed.
End pattern.

Lemma pattern_split (x : Z) : 0 <= x < 65536 ->
  ∃ s e f, 0 <= s < 2 ∧ 0 <= e < 32 ∧ 0 <= f < 1024 ∧ x = s * 32768 + e * 1024 + f.
Proof. intros H. exists (x / 32768), (x / 1024 mod 32), (x mod 1024). div_lia. Qed.

Lemma ldexp_normal (sg : bool) (m : positive) (e k : Z) :
  digits2_pos m = 24%positive -> -149 <= e + k <= 104 ->
  SFldexp 24 128 (S754_finite sg m e) k = S754_finite sg m (e + k).
Proof.
  intros Hd Hk. unfold SFldexp, binary_round.
  assert (fexp 24 128 (24 + (e + k)) = e + k) as Hf by (unfold fexp, emin; lia).
  rewrite Hd. change (Z.pos 24) with 24. rewrite Hf. unfold shl_align. rewrite Z.sub_diag.
  unfold binary_round_aux, shr_fexp. cbn [Zdigits2]. rewrite Hd. change (Z.pos 24) with 24.
  rewrite Hf, Z.sub_diag. cbn [shr shr_record_of_loc shr_m loc_of_shr_record round_nearest_even Zdigits2].
  rewrite Hd. change (Z.pos 24) with 24. rewrite Hf, Z.sub_diag. cbn [shr shr_m].
  by rewrite (proj2 (Z.leb_le _ _)) by lia.
Qed.

(** The value of a fraction, at exponent 0. *)
Definition half_unit (s f : Z) : spec_float :=
  fmul (f32_of_Z (if negb (s =? 0) then -1 else 1)) (fadd f1 (fdiv (f32_of_Z f) (f32_of_Z 1024))).

Lemma half_unit_table :
  forallb (fun f => forallb (fun s =>
      bool_decide (half_unit s f = S754_finite (s =? 1) (Z.to_pos (f * 8192 + 8388608)) (-23))
      && (digits2_pos (Z.to_pos (f * 8192 + 8388608)) =? 24)%positive) [0; 1]) (seqZ 0 1024) = true.
Proof. vm_compute. reflexivity. Qed.

Lemma half_unit_value s f : 0 <= s < 2 -> 0 <= f < 1024 ->
  half_unit s f = S754_finite (s =? 1) (Z.to_pos (f * 8192 + 8388608)) (-23) ∧
  digits2_pos (Z.to_pos (f * 8192 + 8388608)) = 24%positive.
Proof.
  intros Hs Hf. pose proof half_unit_table as H. rewrite forallb_forall in H.
  specialize (H f). rewrite forallb_forall in H. specialize (H ltac:(apply list_elem_of_In, elem_of_seqZ; lia) s).
  rewrite andb_true_iff, bool_decide_eq_true, Pos.eqb_eq in H. apply H. simpl. lia.
Qed.

(** The subnormal numbers and the zeros. *)
Lemma subnormal_table (oversize : Z -> Z -> Z) :
  forallb (fun f => forallb (fun s => let x := s * 32768 + f in
      bool_decide (FastFloat16ToFloat32 oversize x = Float16ToFloat32 x)
      && (FastFloat32ToFloat16 oversize (Float16ToFloat32 x) =? x)) [0; 1]) (seqZ 0 1024) = true.
Proof. vm_compute. reflexivity. Qed.

Lemma f32_of_bits_pack (s E M : Z) : 0 <= s < 2 -> 0 < E < 255 -> 0 <= M < 8388608 ->
  f32_of_bits (s * 2147483648 + E * 8388608 + M) = S754_finite (s =? 1) (Z.to_pos (M + 8388608)) (E - 150).
Proof.
  intros Hs HE HM. unfold f32_of_bits. cbv zeta. set (b := s * 2147483648 + E * 8388608 + M).
  rewrite Z.testbit_eqb, Z.shiftr_div_pow2 by lia.
  change 255 with (Z.ones 8). change 8388607 with (Z.ones 23). rewrite !Z.land_ones by lia.
  change (Z.ones 8) with 255.
  change (2 ^ 31) with 2147483648. change (2 ^ 23) with 8388608. change (2 ^ 8) with 256.
  assert (b / 2147483648 = s) as -> by (subst b; div_lia).
  assert (b / 8388608 mod 256 = E) as -> by (subst b; div_lia).
  assert (b mod 8388608 = M) as -> by (subst b; div_lia).
  rewrite (Z.mod_small s) by lia. by rewrite (proj2 (Z.eqb_neq E 255)), (proj2 (Z.eqb_neq E 0)) by lia.
Qed.

Lemma bits_of_f32_pack (s E M : Z) : 0 <= s < 2 -> 0 <= M ->
  bits_of_f32 (S754_finite (s =? 1) (Z.to_pos (M + 8388608)) (E - 150)) = s * 2147483648 + E * 8388608 + M.
Proof.
  intros Hs HM. unfold bits_of_f32. rewrite Z2Pos.id by lia.
  rewrite (proj2 (Z.ltb_ge _ _)), Z.shiftl_mul_pow2 by lia. change (2 ^ 23) with 8388608.
  destruct (Z.eqb_spec s 1); lia.
Qed.

Section normal.
Context (oversize : Z -> Z -> Z) (s e f : Z).
Context (Hs : 0 <= s < 2) (He : 0 < e < 31) (Hf : 0 <= f < 1024).
Let x := s * 32768 + e * 1024 + f.

Lemma Float16_normal : Float16ToFloat32 x = S754_finite (s =? 1) (Z.to_pos (f * 8192 + 8388608)) (e + 112 - 150).
Proof.
  unfold Float16ToFloat32. cbv zeta. subst x. rewrite pattern_sign, pattern_exponent, pattern_fraction by lia.
  rewrite (Z.shiftr_div_pow2 _ 15) by lia. change (2 ^ 15) with 32768. rewrite Z.div_mul by lia.
  rewrite (proj2 (Z.eqb_neq e 0)), (proj2 (Z.eqb_neq e 31)) by lia.
  destruct (half_unit_value s f Hs Hf) as [Hu Hd]. unfold half_unit in Hu. rewrite Hu.
  rewrite ldexp_normal by (done || lia). f_equal. lia.
Qed.

Lemma FastFloat16_normal :
  FastFloat16ToFloat32 oversize x = S754_finite (s =? 1) (Z.to_pos (f * 8192 + 8388608)) (e + 112 - 150).
Proof.
  unfold FastFloat16ToFloat32. cbv zeta. subst x. rewrite pattern_sign, pattern_exponent, pattern_fraction by lia.
  rewrite (proj2 (Z.eqb_neq e 0)) by lia. cbn [negb b2Z]. rewrite Z.land_0_l, Z.mul_0_l, Z.mul_1_l.
  change (u32 0) with 0. rewrite Z.lor_0_r.
  rewrite !(Z.shiftl_mul_pow2 _ 23), (Z.shiftl_mul_pow2 _ 16), (Z.shiftl_mul_pow2 _ 13) by lia.
  rewrite (u32_id (s * 32768 * 2 ^ 16)), (u32_id ((e + 112) * 2 ^ 23)) by lia.
  rewrite (lor_add (e + 112) (f * 2 ^ 13) 23) by lia. rewrite u32_id by lia.
  replace (s * 32768 * 2 ^ 16) with (s * 2 ^ 31) by lia. rewrite lor_add by lia.
  rewrite <- f32_of_bits_pack by lia. f_equal. lia.
Qed.

Lemma Fast32_normal :
  FastFloat32ToFloat16 oversize (S754_finite (s =? 1) (Z.to_pos (f * 8192 + 8388608)) (e + 112 - 150)) = x.
Proof.
  unfold FastFloat32ToFloat16. cbv zeta. rewrite bits_of_f32_pack by lia.
  set (b := u32 (s * 2147483648 + (e + 112) * 8388608 + f * 8192 + 4096)).
  assert (b = s * 2147483648 + (e + 112) * 8388608 + (f * 8192 + 4096)) as Eb by (subst b; rewrite u32_id; lia).
  assert (Z.shiftr (Z.land b 0x7F800000) 23 = e + 112) as ->.
  { change 0x7F800000 with (Z.shiftl (Z.ones 8) 23). rewrite field by lia.
    change (2 ^ 23) with 8388608. change (2 ^ 8) with 256. rewrite Eb. clear Eb b. div_lia. }
  assert (Z.land b 0x007FFFFF = f * 8192 + 4096) as ->.
  { change 0x007FFFFF with (Z.ones 23). rewrite Z.land_ones by lia. change (2 ^ 23) with 8388608. rewrite Eb. div_lia. }
  assert (Z.shiftr (Z.land b 0x80000000) 16 = s * 32768) as ->.
  { change 0x80000000 with (Z.shiftl (Z.ones 1) 31). rewrite mask_field, Z.shiftr_div_pow2 by lia.
    change (2 ^ 31) with 2147483648. change (2 ^ 1) with 2. change (2 ^ 16) with 65536.
    assert (b / 2147483648 = s) as -> by (rewrite Eb; div_lia). rewrite Z.mod_small by lia. div_lia. }
  rewrite (proj2 (Z.ltb_lt 112 (e + 112))), (proj2 (Z.ltb_ge (e + 112) 113)), (proj2 (Z.ltb_ge 143 (e + 112))) by lia.
  cbn [b2Z]. rewrite Z.land_0_l, !Z.mul_0_l, Z.mul_1_l, !Z.lor_0_r.
  rewrite (u32_id (e + 112 - 112)) by lia. replace (e + 112 - 112) with e by lia.
  rewrite (Z.shiftl_mul_pow2 e 10), (Z.shiftr_div_pow2 _ 13) by lia. rewrite u32_id by lia.
  change 0x7C00 with (Z.shiftl (Z.ones 5) 10). rewrite mask_field by lia.
  change (2 ^ 10) with 1024. change (2 ^ 5) with 32. change (2 ^ 13) with 8192.
  rewrite Z.div_mul, (Z.mod_small e) by lia.
  assert ((f * 8192 + 4096) / 8192 = f) as -> by div_lia.
  change 1024 with (2 ^ 10) at 1. rewrite lor_add by lia.
  change 32768 with (2 ^ 15). rewrite lor_add by lia.
  change 0xFFFF with (Z.ones 16). rewrite Z.land_ones, Z.mod_small by lia. subst x. lia.
Qed.
End normal.

Lemma half_cases (oversize : Z -> Z -> Z) (x : Z) :
  0 <= x < 65536 -> half_exponent x ≠ 31 ->
  FastFloat16ToFloat32 oversize x = Float16ToFloat32 x ∧ FastFloat32ToFloat16 oversize (Float16ToFloat32 x) = x.
Proof.
  intros Hx He. destruct (pattern_split x Hx) as (s & e & f & Hs & He' & Hf & ->).
  unfold half_exponent in He. rewrite pattern_exponent in He by done.
  destruct (Z.eq_dec e 0) as [->|He0].
  - pose proof (subnormal_table oversize) as H. rewrite forallb_forall in H.
    specialize (H f ltac:(apply list_elem_of_In, elem_of_seqZ; lia)). rewrite forallb_forall in H.
    specialize (H s). cbv zeta in H. rewrite andb_true_iff, bool_decide_eq_true, Z.eqb_eq in H.
    replace (s * 32768 + 0 * 1024 + f) with (s * 32768 + f) by lia. apply H. simpl. lia.
  - rewrite Float16_normal, FastFloat16_normal by lia. split; [done|]. apply Fast32_normal; lia.
Qed.

(** C39: on every half-precision number that is neither infinite nor NaN the bit
    trick computes the same float as the conversion by the definition of the
    format, whatever the machine does with the oversized shifts in it. *)
Theorem FastFloat16ToFloat32_exact (oversize : Z -> Z -> Z) (x : Z) :
  0 <= x < 65536 -> half_exponent x ≠ 31 -> FastFloat16ToFloat32 oversize x = Float16ToFloat32 x.
Proof. intros. by apply half_cases. Qed.

(** Converting such a number to a float and back gives its bits again. *)
Theorem half_roundtrip (oversize : Z -> Z -> Z) (x : Z) :
  0 <= x < 65536 -> half_exponent x ≠ 31 ->
  FastFloat32ToFloat16 oversize (FastFloat16ToFloat32 oversize x) = x.
Proof. intros Hx He. destruct (half_cases oversize x Hx He) as [-> H]. exact H. Qed.

(** ** Padding *)
Definition padded (n : nat) (pad : Z) (s : list Z) : list Z := s ++ replicate (n - length s) pad.

Lemma fold_max_ge (l : list (list Z)) : ∀ m,
  (m <= fold_left (fun m s => Nat.max m (length s)) l m)%nat ∧
  ∀ s, s ∈ l -> (length s <= fold_left (fun m s => Nat.max m (length s)) l m)%nat.
Proof.
  induction l as [|x l IH]; intros m; simpl; [split; [done|intros s Hs; by apply not_elem_of_nil in Hs]|].
  destruct (IH (Nat.max m (length x))) as [H1 H2]. split; [lia|].
  intros s [->|Hs]%elem_of_cons; [lia|auto].
Qed.

Lemma length_concat_const {A} (l : list (list A)) n :
  Forall (fun x => length x = n) l -> length (concat l) = (length l * n)%nat.
Proof. induction 1; simpl; [done|]. rewrite length_app. lia. Qed.

(** [PadInputs] makes one row per sequence, as long as the longest of them:
    the sequence, then the padding. *)
Theorem PadInputs_spec (sequences : list (list Z)) (pad_token_id : Z) :
  PadInputs sequences pad_token_id = Ok (concat (map (padded (max_size sequences) pad_token_id) sequences)).
Proof.
  unfold PadInputs. cbv zeta. set (n := max_size sequences). set (d0 := replicate _ 0).
  set (P := fun k => concat (map (padded n pad_token_id) (take k sequences))).
  assert (∀ s, s ∈ sequences -> (length s <= n)%nat) as Hn by (apply (fold_max_ge sequences 0)).
  assert (∀ k, (k <= length sequences)%nat -> length (P k) = (k * n)%nat) as HP.
  { intros k Hk. unfold P. rewrite (length_concat_const _ n); [rewrite length_map, length_take; nia|].
    apply Forall_forall. intros x (s & -> & Hs)%list_elem_of_fmap.
    unfold padded. rewrite length_app, length_replicate.
    assert (s ∈ sequences) as Hs' by (rewrite <- (take_drop k sequences); by apply elem_of_app; left).
    specialize (Hn s Hs'). lia. }
  destruct (for_inv (fun k r => r = filled (P k) d0) (length sequences) (fun i result =>
      input_span ← get sequences i;
      output_span ← subspan result (i * n) n;
      let pad_count := (n - length input_span)%nat in
      result ← blit result (i * n) input_span;
      blit result (i * n + (n - pad_count)) (replicate pad_count pad_token_id)) d0) as (r & E & ->).
  - done.
  - intros k r Hk ->. pose proof (row_bound k (length sequences) n Hk) as Hb.
    assert (length d0 = (n * length sequences)%nat) as Hd by apply length_replicate.
    destruct (get_lt sequences k Hk) as (s & E & Es). rewrite E, bind_Ok.
    assert (length s <= n)%nat as Hs by (apply Hn; by eapply list_elem_of_lookup_2).
    rewrite subspan_le, bind_Ok by (rewrite length_filled; rewrite ?HP; lia). cbv zeta.
    rewrite <- (HP k), blit_filled, bind_Ok by (rewrite ?HP; lia).
    replace (length (P k) + (n - (n - length s)))%nat with (length (P k ++ s)) by (rewrite length_app; lia).
    rewrite blit_filled by (rewrite length_app, length_replicate, HP; lia).
    eexists. split; [done|]. f_equal. unfold P. rewrite (take_S_r _ _ _ Es), map_app, concat_app. simpl.
    by rewrite app_nil_r, <- app_assoc.
  - cbv zeta in E. rewrite E. f_equal. rewrite filled_full; [unfold P; by rewrite firstn_all|].
    rewrite HP by done. unfold d0. rewrite length_replicate. lia.
Qed.

(** ** Heap *)
Definition heap_ok (h : heap) : Prop :=
  ∀ p t, tensors h !! p = Some t -> (p < next_ptr h)%nat ∧ length (data t) = element_count (shape t).

Lemma deref_Some h p t : tensors h !! p = Some t -> deref h p = Ok t.
Proof. unfold deref. by intros ->. Qed.

Lemma CreateTensor_ok sh ty h : heap_ok h -> heap_ok (CreateTensor sh ty h).1.
Proof.
  intros Hh p t. simpl. intros [[<- <-]|[Hne Ht]]%lookup_insert_Some.
  - split; [lia|]. simpl. by rewrite length_map, length_seq.
  - destruct (Hh p t Ht). split; [lia|done].
Qed.

Lemma free_ok o h : heap_ok h -> heap_ok (free o h).
Proof. intros Hh. destruct o as [q|]; [|done]. intros p t. simpl. intros [_ Ht]%lookup_delete_Some. by apply Hh. Qed.

Lemma store_ok p t h : heap_ok h -> (p < next_ptr h)%nat -> length (data t) = element_count (shape t) ->
  heap_ok (store p t h).
Proof. intros Hh Hp Ht q u. simpl. intros [[<- <-]|[_ Hu]]%lookup_insert_Some; [done|by apply Hh]. Qed.

Lemma convert_loop_spec {B} (f : Z -> B) (w : B -> Z) (src d : list Z) count :
  (count <= length src)%nat -> (count <= length d)%nat ->
  convert_loop f src (fun i v d => put d i (w v)) count d
    = Ok (filled (map (fun z => w (f z)) (take count src)) d).
Proof.
  intros Hs Hd. unfold convert_loop.
  destruct (for_inv (fun k r => r = filled (map (fun z => w (f z)) (take k src)) d) count
    (fun i dest => v ← get src i; put dest i (w (f v))) d) as (r & E & ->); [done| |done].
  intros k r Hk ->. destruct (get_lt src k) as (v & E & Ev); [lia|]. rewrite E, bind_Ok.
  pose proof (put_filled (map (fun z => w (f z)) (take k src)) d (w (f v))) as Hp.
  rewrite length_map, length_take, Nat.min_l in Hp by lia. rewrite Hp by lia.
  eexists. split; [done|]. by rewrite (take_S_r _ _ _ Ev), map_app.
Qed.

(** The output tensor a conversion writes to. *)
Lemma ensure_output_spec h in_ p_out t :
  heap_ok h -> tensors h !! in_ = Some t -> (∀ p, p_out = Some p -> p ≠ in_ ∧ is_Some (tensors h !! p)) ->
  ∃ keep h1 out o, same_shape h p_out (shape t) = Ok keep ∧
    ensure_output keep p_out (shape t) h = (h1, out) ∧ heap_ok h1 ∧ out ≠ in_ ∧
    tensors h1 !! out = Some o ∧ shape o = shape t ∧ tensors h1 !! in_ = Some t ∧
    (p_out = Some out ∨ element_type o = T_FLOAT ∧ ∀ p, p_out = Some p -> p ≠ out ∧ tensors h1 !! p = None).
Proof.
  intros Hh Ht Hout. destruct (Hh _ _ Ht) as [Hin _].
  assert (heap_ok (CreateTensor (shape t) T_FLOAT h).1) as Hc by by apply CreateTensor_ok.
  destruct p_out as [p|]; simpl.
  - destruct (Hout p eq_refl) as [Hne [u Hu]]. destruct (Hh _ _ Hu) as [Hp _].
    rewrite (deref_Some _ _ _ Hu), bind_Ok. case_bool_decide as Hs.
    + exists true, h, p, u. do 7 (split; [done|]). by left.
    + eexists false, _, (next_ptr h), _. split; [done|]. split; [done|]. split; [by apply (free_ok (Some p))|]. split; [lia|].
      simpl. rewrite lookup_delete_ne, lookup_insert_eq by lia. split; [done|]. split; [done|].
      rewrite lookup_delete_ne, lookup_insert_ne by (done || lia). split; [done|]. right. split; [done|].
      intros q [= <-]. split; [lia|]. apply lookup_delete_eq.
  - eexists _, _, (next_ptr h), _. split; [done|]. split; [done|]. split; [done|]. split; [lia|]. simpl.
    rewrite lookup_insert_eq, lookup_insert_ne by lia. repeat split; auto. right. by split.
Qed.

(** The conversion on the CPU of a half-precision tensor of at most [INT_MAX] elements.  The output has the
    shape of the input and the converted elements; the old output tensor is
    reused when its shape fits and freed otherwise; the input is not touched. *)
Theorem ConvertFp16ToFp32_spec (oversize : Z -> Z -> Z) (h : heap) (in_ : ptr) (p_out : option ptr) (t : OrtValue) :
  heap_ok h -> tensors h !! in_ = Some t -> element_type t = T_FLOAT16 -> Z.of_nat (element_count (shape t)) <= INT_MAX ->
  (∀ p, p_out = Some p -> p ≠ in_ ∧ is_Some (tensors h !! p)) ->
  ∃ h' out o, ConvertFp16ToFp32 oversize in_ p_out CPU h = Ok (h', out) ∧ heap_ok h' ∧
    tensors h' !! out = Some o ∧ shape o = shape t ∧
    data o = map (fun z => bits_of_f32 (FastFloat16ToFloat32 oversize z)) (data t) ∧
    tensors h' !! in_ = Some t ∧
    (p_out = Some out ∨ element_type o = T_FLOAT ∧ ∀ p, p_out = Some p -> tensors h' !! p = None).
Proof.
  intros Hh Ht Hty Hint Hout. destruct (Hh _ _ Ht) as [_ Hlen].
  destruct (ensure_output_spec h in_ p_out t Hh Ht Hout) as (keep & h1 & out & o & E1 & E2 & Hh1 & Hne & Ho & Hs & Hin & Hor).
  destruct (Hh1 _ _ Ho) as [Hlt Ho'].
  unfold ConvertFp16ToFp32. rewrite (deref_Some _ _ _ Ht), bind_Ok, bool_decide_true by done.
  unfold assert_. rewrite bind_Ok, E1, bind_Ok, E2, (deref_Some _ _ _ Ho), bind_Ok.
  generalize (fun z => bits_of_f32 (FastFloat16ToFloat32 oversize z)). intros conv.
  rewrite (int_count_id _ Hint), (convert_loop_spec _ (fun x => x)) by (rewrite ?Ho', ?Hs, ?Hlen; lia). rewrite bind_Ok.
  rewrite take_ge, filled_full by (rewrite ?length_map, ?Ho', ?Hs, ?Hlen; lia).
  unfold set_data. rewrite (deref_Some _ _ _ Ho), !bind_Ok. eexists _, out, _. split; [done|].
  split; [apply store_ok; [done|done|]; simpl; by rewrite length_map, Hs|]. simpl.
  rewrite lookup_insert_eq, lookup_insert_ne by done. do 4 (split; [done|]).
  destruct Hor as [Hor|[Hor1 Hor2]]; [by left|right]. split; [done|]. intros p Hp.
  destruct (Hor2 p Hp). by rewrite lookup_insert_ne.
Qed.

(** ** Expanding over the beams *)
Definition tensor_row (d : list Z) (w i : nat) : list Z := take w (drop (i * w) d).

Definition expanded_rows (d : list Z) (w b num_beams : nat) : list Z :=
  concat (map (fun i => concat (replicate num_beams (tensor_row d w i))) (seq 0 b)).

Lemma concat_replicate_S {A} (l : list A) n : concat (replicate (S n) l) = concat (replicate n l) ++ l.
Proof. rewrite replicate_S_end, concat_app. simpl. by rewrite app_nil_r. Qed.

Lemma length_concat_replicate {A} (l : list A) n : length (concat (replicate n l)) = (n * length l)%nat.
Proof. induction n as [|n IH]; simpl; [done|]. rewrite length_app. lia. Qed.

Lemma length_expanded_rows d w b nb : (b * w <= length d)%nat -> ∀ k, (k <= b)%nat ->
  length (expanded_rows d w k nb) = (k * nb * w)%nat.
Proof.
  intros Hd k. unfold expanded_rows. induction k as [|k IH]; intros Hk; [done|].
  rewrite seq_S, map_app, concat_app, length_app, IH by lia. simpl. rewrite app_nil_r, length_concat_replicate.
  unfold tensor_row. rewrite length_window by nia. lia.
Qed.

Lemma expand_loop (src d0 : list Z) (w b nb : nat) :
  length src = (b * w)%nat -> length d0 = (b * nb * w)%nat ->
  for_ b (fun i => for_ nb (fun j '(d, target) =>
      s ← subspan src (i * w) w; d ← blit d target s; Ok (d, (target + w)%nat))) (d0, O)
    = Ok (expanded_rows src w b nb, (b * nb * w)%nat).
Proof.
  intros Hsrc Hd0.
  destruct (for_inv (fun k st => st = (filled (expanded_rows src w k nb) d0, (k * nb * w)%nat)) b
    (fun i => for_ nb (fun j '(d, target) =>
      s ← subspan src (i * w) w; d ← blit d target s; Ok (d, (target + w)%nat))) (d0, O)) as (st & E & ->).
  - done.
  - intros k st Hk ->. pose proof (row_bound k b w Hk) as Hb.
    assert (k * nb + nb <= b * nb)%nat as Hkb by nia.
    assert (length (tensor_row src w k) = w) as Hr by (apply length_window; lia).
    pose proof (length_expanded_rows src w b nb ltac:(lia) k ltac:(lia)) as Hle.
    destruct (for_inv (fun j st => st = (filled (expanded_rows src w k nb ++ concat (replicate j (tensor_row src w k))) d0,
        (k * nb * w + j * w)%nat)) nb (fun j '(d, target) =>
        s ← subspan src (k * w) w; d ← blit d target s; Ok (d, (target + w)%nat))
      (filled (expanded_rows src w k nb) d0, (k * nb * w)%nat)) as (st & E & ->).
    + simpl. by rewrite app_nil_r, Nat.add_0_r.
    + intros j st Hj ->. rewrite subspan_le by lia. rewrite bind_Ok. fold (tensor_row src w k).
      set (A := expanded_rows src w k nb ++ concat (replicate j (tensor_row src w k))).
      assert (length A = k * nb * w + j * w)%nat as HA by (unfold A; rewrite length_app, length_concat_replicate; lia).
      assert ((k * nb + S j) * w <= b * nb * w)%nat by (apply Nat.mul_le_mono_r; lia).
      rewrite <- HA, blit_filled by (rewrite HA, Hr, Hd0; lia). rewrite bind_Ok.
      eexists. split; [done|]. unfold A. rewrite <- app_assoc, <- concat_replicate_S. f_equal. rewrite length_app, length_concat_replicate. lia.
    + eexists. split; [exact E|]. f_equal; [|lia]. f_equal. unfold expanded_rows.
      rewrite seq_S, map_app, concat_app. simpl. by rewrite app_nil_r.
  - rewrite E. do 2 f_equal. apply filled_full. rewrite (length_expanded_rows src w b) by lia. lia.
Qed.

Lemma expanded_copy_eq (h : heap) (input : ptr) (t : OrtValue) (b : nat) (rest : list nat) (num_beams : nat) :
  heap_ok h -> tensors h !! input = Some t -> shape t = b :: rest -> b ≠ O ->
  (∃ n, SizeOf (element_type t) = Ok n) ->
  expanded_copy CPU input num_beams h =
    Ok (mkHeap (<[next_ptr h := mkOrt (element_type t) ((b * num_beams)%nat :: rest)
                  (expanded_rows (data t) (element_count rest) b num_beams)]> (tensors h))
               (S (next_ptr h)) (fresh h) (double_frees h), next_ptr h).
Proof.
  intros Hh Ht Hs Hb [n Hn]. destruct (Hh _ _ Ht) as [Hin Hlen]. unfold expanded_copy.
  rewrite (deref_Some _ _ _ Ht), bind_Ok, Hn, bind_Ok, Hs, decide_False by done.
  assert ((element_count (b :: rest) / b)%nat = element_count rest) as -> by (simpl; rewrite Nat.mul_comm; by apply Nat.div_mul).
  unfold CreateTensor. cbv iota zeta. unfold deref at 1. simpl tensors. rewrite lookup_insert_eq, bind_Ok. simpl data.
  rewrite Hs in Hlen. simpl in Hlen.
  rewrite expand_loop by (rewrite ?length_map, ?length_seq; simpl; lia). rewrite bind_Ok.
  unfold set_data, deref. simpl tensors. rewrite lookup_insert_eq, !bind_Ok. do 2 f_equal.
  unfold store. simpl. by rewrite insert_insert_eq.
Qed.

Lemma ExpandInputs_eq (h : heap) (input : ptr) (t : OrtValue) (b : nat) (rest : list nat) (num_beams : nat) :
  heap_ok h -> tensors h !! input = Some t -> shape t = b :: rest -> b ≠ O ->
  (∃ n, SizeOf (element_type t) = Ok n) ->
  ExpandInputs CPU input num_beams h =
    if decide (num_beams = 1%nat) then Ok (h, input) else
    Ok (mkHeap (delete input (<[next_ptr h := mkOrt (element_type t) ((b * num_beams)%nat :: rest)
                  (expanded_rows (data t) (element_count rest) b num_beams)]> (tensors h)))
               (S (next_ptr h)) (fresh h) (double_frees h), next_ptr h).
Proof.
  intros Hh Ht Hs Hb Hn. unfold ExpandInputs, moves_input. case_decide as Hnb.
  - by rewrite bool_decide_true.
  - rewrite bool_decide_false by done. rewrite (expanded_copy_eq _ _ _ _ _ _ Hh Ht Hs Hb Hn), bind_Ok.
    destruct (Hh _ _ Ht). unfold free. cbn [tensors next_ptr fresh double_frees]. by rewrite lookup_insert_ne, Ht by lia.
Qed.

(** On the CPU, [ExpandInputs] repeats every row of the input once per beam,
    in a new tensor whose first dimension is multiplied by the beams; the input
    tensor is gone afterwards and every other tensor is as it was.  With one
    beam it hands the input tensor on. *)
Theorem ExpandInputs_spec (h : heap) (input : ptr) (t : OrtValue) (b : nat) (rest : list nat) (num_beams : nat) :
  heap_ok h -> tensors h !! input = Some t -> shape t = b :: rest -> b ≠ O ->
  (∃ n, SizeOf (element_type t) = Ok n) ->
  ExpandInputs CPU input num_beams h =
    if decide (num_beams = 1%nat) then Ok (h, input) else
    Ok (mkHeap (delete input (<[next_ptr h := mkOrt (element_type t) ((b * num_beams)%nat :: rest)
                  (expanded_rows (data t) (element_count rest) b num_beams)]> (tensors h)))
               (S (next_ptr h)) (fresh h) (double_frees h), next_ptr h).
Proof. apply ExpandInputs_eq. Qed.

(** ** Session info *)
Lemma emplace_lookup n t m n' : emplace n t m !! n' = match m !! n' with Some u => Some u | None => if decide (n = n') then Some t else None end.
Proof.
  unfold emplace. destruct (decide (n = n')) as [->|Hne].
  - destruct (m !! n') eqn:E; [done|]. by rewrite lookup_insert_eq.
  - destruct (m !! n) eqn:E; [by destruct (m !! n')|]. rewrite lookup_insert_ne by done. by destruct (m !! n').
Qed.

(* two declarations of the same name have the same type *)
Definition agree (m : gmap string ONNXTensorElementDataType) (l : list (string * ONNXTensorElementDataType)) : Prop :=
  (∀ n t u, (n, t) ∈ l -> m !! n = Some u -> t = u) ∧ (∀ n t u, (n, t) ∈ l -> (n, u) ∈ l -> t = u).

Definition add_inputs (l : list (string * ONNXTensorElementDataType)) (m : gmap string ONNXTensorElementDataType)
  : outcome (gmap string ONNXTensorElementDataType) :=
  for_each (fun '(name, input_type) m =>
      match m !! name with
      | Some found =>
          if decide (found = input_type) then Ok (emplace name input_type m)
          else Throw (RuntimeError ("Model input type mismatch: " +:+ name +:+ " expected "
                 +:+ pretty (type_number found) +:+ " got " +:+ pretty (type_number input_type)))
      | None => Ok (emplace name input_type m)
      end) l m.

Lemma add_inputs_spec l : ∀ m,
  match add_inputs l m with
  | Ok m' => (∀ n t, (n, t) ∈ l -> m' !! n = Some t) ∧ (∀ n u, m !! n = Some u -> m' !! n = Some u) ∧
             (∀ n, m' !! n = None ↔ m !! n = None ∧ n ∉ l.*1) ∧ agree m l
  | Throw _ => ¬ agree m l
  | Undef => False
  end.
Proof.
  unfold add_inputs. induction l as [|[n t] l IH]; intros m.
  - simpl. split; [by intros ?? ?%not_elem_of_nil|]. split; [done|]. split; [|by split; intros ??? ?%not_elem_of_nil].
    intros n. split; [|by intros [? _]]. split; [done|apply not_elem_of_nil].
  - rewrite for_each_cons.
    assert (∀ u, m !! n = Some u -> u ≠ t -> ¬ agree m ((n, t) :: l)) as Hbad.
    { intros u Hu Hne [H _]. apply Hne. symmetry. eapply H; [by left|done]. }
    assert ((match m !! n with
      | Some found =>
          if decide (found = t) then Ok (emplace n t m)
          else Throw (RuntimeError ("Model input type mismatch: " +:+ n +:+ " expected "
                 +:+ pretty (type_number found) +:+ " got " +:+ pretty (type_number t)))
      | None => Ok (emplace n t m)
      end = Ok (emplace n t m) ∧ (∀ u, m !! n = Some u -> u = t)) ∨
      (∃ e u, match m !! n with
      | Some found =>
          if decide (found = t) then Ok (emplace n t m)
          else Throw (RuntimeError ("Model input type mismatch: " +:+ n +:+ " expected "
                 +:+ pretty (type_number found) +:+ " got " +:+ pretty (type_number t)))
      | None => Ok (emplace n t m)
      end = Throw e ∧ m !! n = Some u ∧ u ≠ t)) as [[-> Hu]|(e & u & -> & Hu & Hne)].
    { destruct (m !! n) as [u|]; [|by left]. case_decide as Hd; [left|right; eauto 10].
      split; [done|]. intros ? [= <-]. done. }
    2:{ simpl. by eapply Hbad. }
    rewrite bind_Ok. specialize (IH (emplace n t m)).
    assert (emplace n t m !! n = Some t) as Hn.
    { rewrite emplace_lookup. destruct (m !! n) as [u|]; [by rewrite (Hu u)|by rewrite decide_True]. }
    assert (agree (emplace n t m) l ↔ agree m ((n, t) :: l)) as Hag.
    { split; intros [A1 A2]; split.
      - intros n' t' u' [[= -> ->]|Hin]%elem_of_cons Hm; [by symmetry; apply Hu|].
        eapply A1; [done|]. by rewrite emplace_lookup, Hm.
      - intros n' t' u' [E|Hin]%elem_of_cons [E'|Hin']%elem_of_cons; simplify_eq;
          [done|symmetry; by eapply A1|by eapply A1|by eapply A2].
      - intros n' t' u' Hin Hm. rewrite emplace_lookup in Hm. destruct (m !! n') as [u|] eqn:E.
        + injection Hm as <-. eapply A1; [by right|done].
        + case_decide; [|done]. subst. injection Hm as <-. eapply A2; [by right|by left].
      - intros n' t' u' H1 H2. eapply A2; by right. }
    destruct (for_each _ l _) as [m'|e|]; [|by rewrite <- Hag|done].
    destruct IH as (I1 & I2 & I3 & I4). split; [|split; [|split; [|by rewrite <- Hag]]].
    + intros n' t' [[= -> ->]|Hin]%elem_of_cons; [by apply I2|by apply I1].
    + intros n' u Hm. apply I2. by rewrite emplace_lookup, Hm.
    + intros n'. rewrite I3, emplace_lookup. simpl. rewrite not_elem_of_cons.
      destruct (m !! n'); [naive_solver|]. case_decide; naive_solver.
Qed.

(** [SessionInfo::Add] succeeds exactly when no input of the session has
    another type than one declared before; then every input of the session is
    known with its type, what was known before is kept, and every output name
    of the session is known. *)
Theorem SessionInfo_Add_spec (session : session_io) (s : SessionInfo) :
  match SessionInfo_Add session s with
  | Ok s' => agree (si_inputs s) (fst session) ∧
             (∀ n t, (n, t) ∈ fst session -> GetInputDataType s' n = Ok t) ∧
             (∀ n u, GetInputDataType s n = Ok u -> GetInputDataType s' n = Ok u) ∧
             (∀ n, HasInput s' n = HasInput s n || bool_decide (n ∈ (fst session).*1)) ∧
             (∀ n, HasOutput s' n = HasOutput s n || bool_decide (n ∈ (snd session).*1))
  | Throw e => ¬ agree (si_inputs s) (fst session)
  | Undef => False
  end.
Proof.
  unfold SessionInfo_Add. fold (add_inputs (fst session) (si_inputs s)).
  pose proof (add_inputs_spec (fst session) (si_inputs s)) as H.
  destruct (add_inputs _ _) as [m|e|]; simpl; [|done|done].
  destruct H as (H1 & H2 & H3 & H4). split; [done|]. split; [|split; [|split]].
  - intros n t Hin. unfold GetInputDataType. simpl. by rewrite (H1 n t).
  - intros n u. unfold GetInputDataType. simpl. destruct (si_inputs s !! n) as [u'|] eqn:E; [|done].
    intros [= <-]. by rewrite (H2 n u').
  - intros n. unfold HasInput. simpl. apply eq_bool_prop_intro.
    rewrite orb_True, !bool_decide_spec. unfold is_Some. specialize (H3 n).
    destruct (m !! n) as [t|], (si_inputs s !! n) as [u|]; split; try naive_solver.
    intros _. right. destruct (decide (n ∈ (fst session).*1)) as [|Hn]; [done|]. 
    destruct H3 as [_ H3]. discriminate (H3 (conj eq_refl Hn)).
  - intros n. unfold HasOutput. simpl. generalize (si_outputs s).
    induction (snd session) as [|[n' t'] l IH]; intros m0; simpl; [by rewrite orb_false_r|].
    rewrite IH. apply eq_bool_prop_intro. rewrite !orb_True, !bool_decide_spec, emplace_lookup, elem_of_cons.
    unfold is_Some. destruct (m0 !! n) as [u|]; [split; eauto|].
    destruct (decide (n' = n)) as [->|Hne]; [split; eauto|].
    split; [intros [[? [=]]|]|intros [[? [=]]|[->|]]]; auto; done.
Qed.

(** ** Static buffers *)
Lemma GetNumElements_acc (sh : list Z) : ∀ a, 0 <= a ->
  Forall (fun d => 0 < d) sh -> a * fold_right Z.mul 1 sh < 2 ^ 64 ->
  fold_left (fun n dim => u64 (n * dim)) sh a = a * fold_right Z.mul 1 sh.
Proof.
  induction sh as [|d sh IH]; intros a Ha Hpos Hlt; simpl in *; [lia|].
  apply Forall_cons_1 in Hpos as [Hd Hpos].
  assert (0 < fold_right Z.mul 1 sh) as Hp.
  { clear -Hpos. induction Hpos; simpl; nia. }
  rewrite u64_id by nia. rewrite IH; [lia|nia|done|lia].
Qed.

Lemma GetNumElements_exact (sh : list Z) :
  Forall (fun d => 0 < d) sh -> fold_right Z.mul 1 sh < 2 ^ 64 ->
  GetNumElements sh = fold_right Z.mul 1 sh.
Proof. intros. unfold GetNumElements. rewrite GetNumElements_acc; lia || done. Qed.

(** The static buffer is sized by the first tensor made on it, and a later
    tensor that differs only in its first dimension [b] fits the allocation
    exactly when [b] is at most the largest multiple of the first tensor's [b0]
    within the maximum; the call hands the tensor out either way. *)
Theorem CreateTensorOnStaticBuffer_fits (b0 b max n : Z) (rest : list Z) (type : ONNXTensorElementDataType)
    (s s1 s2 : StaticBuffer) (t1 t2 : Z * list Z) :
  SizeOf type = Ok n -> 0 < b0 <= max -> 0 < b <= max -> Forall (fun d => 0 < d) rest ->
  n * max * fold_right Z.mul 1 rest < 2 ^ 64 -> s = StaticBuffer_new max ->
  CreateTensorOnStaticBuffer (b0 :: rest) type s = Ok (s1, t1) ->
  CreateTensorOnStaticBuffer (b :: rest) type s1 = Ok (s2, t2) ->
  s2 = s1 ∧ t2 = (n * b * fold_right Z.mul 1 rest, b :: rest) ∧ buffer_ s1 = Some (bytes_ s1) ∧
  fst t1 <= bytes_ s1 ∧ (fst t2 <= bytes_ s1 ↔ b <= b0 * (max / b0)).
Proof.
  intros Hn Hb0 Hb Hrest Hov -> E1 E2.
  set (r := fold_right Z.mul 1 rest) in *.
  assert (0 < n) as Hpos by (destruct type; simpl in Hn; by simplify_eq).
  assert (0 < r) as Hr by (unfold r; clear -Hrest; induction Hrest; simpl; nia).
  assert (∀ c, 0 < c <= max -> c <= c * r <= n * (c * r) ∧ n * (c * r) <= n * (max * r)) as Hc by (intros; nia).
  assert (∀ c, 0 < c <= max -> u64 (n * GetNumElements (c :: rest)) = n * c * r) as Hsz.
  { intros c Hcm. specialize (Hc c Hcm).
    rewrite GetNumElements_exact; [|by constructor; [lia|]|simpl; fold r; lia].
    simpl. fold r. rewrite u64_id; lia. }
  assert (max < 2 ^ 64) as Hmax by (specialize (Hc max ltac:(lia)); lia).
  pose proof (Z.div_le_lower_bound max b0 1 ltac:(lia) ltac:(lia)) as Hq.
  pose proof (Z.mul_div_le max b0 ltac:(lia)) as Hqm. set (q := max / b0) in *.
  assert (n * b0 * r * q <= n * max * r) as Hle.
  { replace (n * b0 * r * q) with ((n * r) * (b0 * q)) by lia. replace (n * max * r) with ((n * r) * max) by lia.
    apply Z.mul_le_mono_nonneg_l; [nia|done]. }
  unfold CreateTensorOnStaticBuffer in E1. rewrite Hn, bind_Ok, (Hsz b0 Hb0) in E1. simpl in E1.
  rewrite (u64_id b0) in E1 by lia. destruct (b0 =? 0) eqn:E0; [apply Z.eqb_eq in E0; lia|].
  fold q in E1. rewrite (u64_id (_ * q)) in E1 by nia. injection E1 as <- <-.
  unfold CreateTensorOnStaticBuffer in E2. rewrite Hn, bind_Ok, (Hsz b Hb) in E2. simpl in E2.
  injection E2 as <- <-. simpl. split; [done|]. split; [done|]. split; [done|]. split; [nia|].
  replace (n * b0 * r * q) with ((n * r) * (b0 * q)) by lia. replace (n * b * r) with ((n * r) * b) by lia.
  symmetry. apply Z.mul_le_mono_pos_l. nia.
Qed.

(** ** Concrete runs *)
Module Examples.
Definition no_oversize : Z -> Z -> Z := fun _ _ => 0.
(* two rows of a 16-bit tensor at 0 *)
Definition ex_half : OrtValue := mkOrt T_FLOAT16 [2; 2]%nat [0x3C00; 0x0001; 0xC000; 0x7BFF].
Definition ex_heap : heap := fst (new_tensor ex_half (mkHeap ∅ O (fun _ _ => 77) O)).

Lemma ex_heap_ok : heap_ok ex_heap.
Proof.
  intros p t. unfold ex_heap. simpl. intros [[<- <-]|[_ H]]%lookup_insert_Some; [|by rewrite lookup_empty in H].
  split; [lia|reflexivity].
Qed.

Lemma FastFloat16ToFloat32_exact_witness :
  FastFloat16ToFloat32 no_oversize 0x0001 = Float16ToFloat32 0x0001.
Proof. apply FastFloat16ToFloat32_exact; [lia|by vm_compute]. Defined.

Lemma half_roundtrip_witness :
  FastFloat32ToFloat16 no_oversize (FastFloat16ToFloat32 no_oversize 0x8003) = 0x8003.
Proof. apply half_roundtrip; [lia|by vm_compute]. Defined.

Lemma ConvertFp16ToFp32_spec_witness :
  ∃ h' out, ConvertFp16ToFp32 no_oversize O None CPU ex_heap = Ok (h', out) ∧
    data <$> tensors h' !! out = Some [0x3F800000; 0x33800000; 0xC0000000; 0x477FE000].
Proof.
  destruct (ConvertFp16ToFp32_spec no_oversize ex_heap O None ex_half) as (h' & out & o & E & _ & Ho & _ & Hd & _);
    [apply ex_heap_ok|done|done|vm_compute; discriminate|done|].
  exists h', out. split; [exact E|]. rewrite Ho. simpl. rewrite Hd. vm_compute. reflexivity.
Defined.

Lemma ExpandInputs_spec_witness :
  ∃ h' p, ExpandInputs CPU O 2 ex_heap = Ok (h', p) ∧
    data <$> tensors h' !! p = Some [0x3C00; 1; 0x3C00; 1; 0xC000; 0x7BFF; 0xC000; 0x7BFF] ∧
    tensors h' !! O = None.
Proof.
  eexists _, _. split; [rewrite (ExpandInputs_spec ex_heap O ex_half 2 [2%nat] 2);
    [vm_compute; reflexivity|apply ex_heap_ok|done|done|done|by exists 2]|].
  split; reflexivity.
Defined.

(* float[1, 3] and float[4, 3] on a buffer for 4, then float[3, 3] first *)
Lemma CreateTensorOnStaticBuffer_fits_witness :
  let s := StaticBuffer_new 4 in
  ∃ s1 t1 s2 t2, CreateTensorOnStaticBuffer [3; 3] T_FLOAT s = Ok (s1, t1) ∧
    CreateTensorOnStaticBuffer [4; 3] T_FLOAT s1 = Ok (s2, t2) ∧ ¬ fst t2 <= bytes_ s1.
Proof.
  eexists _, _, _, _. split; [reflexivity|]. split; [reflexivity|].
  pose proof (CreateTensorOnStaticBuffer_fits 3 4 4 4 [3] T_FLOAT (StaticBuffer_new 4)) as H.
  edestruct H as (_ & _ & _ & _ & Hfit);
    [reflexivity|lia|lia|by repeat constructor|vm_compute; reflexivity|reflexivity|reflexivity|reflexivity|].
  rewrite Hfit. vm_compute. intros F. by apply F.
Defined.

(** [ConvertFp32ToFp16] without an output tensor allocates one of floats and
    writes the halves over the first half of its memory. *)
Example ConvertFp32ToFp16_makes_floats :
  match ConvertFp32ToFp16 no_oversize O None CPU
          (fst (new_tensor (mkOrt T_FLOAT [2%nat] [0x3F800000; 0xC0000000]) (mkHeap ∅ O (fun _ _ => 77) O))) with
  | Ok (h, p) => tensors h !! p = Some (mkOrt T_FLOAT [2%nat] [0xC0003C00; 77])
  | _ => False
  end.
Proof. vm_compute. reflexivity. Qed.
End Examples.
