(* ===== verification/Sequences.v ===== *)
(** * Token sequences (src/sequences.h, src/sequences.cpp)

    The row-major buffer of every sequence generated so far, with the second
    buffer beam search rotates.  [rows] is the abstraction: the list of the
    sequences; [Ops] below is the refinement of the two append operations
    against it. *)
From Stdlib Require Import ZArith Lia.
From stdpp Require Import base numbers list.
From S2P Require Import Prelude.
Local Open Scope nat_scope.

Record Sequences := mkSequences {
  sequences_ : list Z;
  sequences_next_ : list Z;       (* empty unless beam search *)
  batch_beam_size_ : nat;
  max_length_ : nat;
  current_length_ : nat;
}.

(** [Sequences::Sequences]; [make_unique<int32_t[]>] zero-initialises.  The
    number of rows, the input's size and the current length are [int]s: an input
    of more than [INT_MAX] tokens is cut by the cast and fails the assertion.
    The sizes and the offsets of the loops are [size_t]s. *)
Definition Sequences_new (input : list Z) (batch_size beam_size max_length : nat) : outcome Sequences :=
  if decide (batch_size = 0) then Undef (* division by zero *) else
  bb ← int_nat (batch_size * beam_size);
  size ← int_nat (length input);
  let cur := size / batch_size in
  _ ← assert_ (bool_decide (cur * batch_size = length input));
  let sequences_size := bb * max_length in
  let next := if decide (beam_size = 1) then [] else replicate sequences_size 0%Z in
  buf ← for_ batch_size (fun batch =>
          for_ beam_size (fun beam =>
            for_ cur (fun j buf =>
              v ← get input (batch * cur + j);
              put buf ((batch * beam_size + beam) * max_length + j) v)))
        (replicate sequences_size 0%Z);
  Ok (mkSequences buf next bb max_length cur).

Definition GetSequence (s : Sequences) (i : nat) : outcome (list Z) :=
  subspan (sequences_ s) (i * max_length_ s) (current_length_ s).

Definition GetSequenceLength (s : Sequences) : nat := current_length_ s.

(** The beam search overload: reorder, append, rotate.  The source's offset is
    a product of [int]s, the target's is a [ptrdiff_t]. *)
Definition AppendNextTokenToSequences_beam (s : Sequences) (indices tokens : list Z) : outcome Sequences :=
  next ← for_ (batch_beam_size_ s) (fun i next =>
      idx ← get indices i;
      off ← chk32 (idx * Z.of_nat (max_length_ s));
      source ← subspanZ (sequences_ s) off (Z.of_nat (current_length_ s));
      next ← blit next (i * max_length_ s) source;
      t ← get tokens i;
      put next (i * max_length_ s + current_length_ s) t)
    (sequences_next_ s);
  cur ← int_nat (S (current_length_ s));
  Ok (mkSequences next (sequences_ s) (batch_beam_size_ s) (max_length_ s) cur).

(** The greedy overload: append in place, at an offset computed in [int]. *)
Definition AppendNextTokenToSequences (s : Sequences) (tokens : list Z) : outcome Sequences :=
  buf ← for_ (batch_beam_size_ s) (fun i buf =>
      off ← int_nat (i * max_length_ s);
      off ← int_nat (off + current_length_ s);
      t ← get tokens i;
      put buf off t)
    (sequences_ s);
  cur ← int_nat (S (current_length_ s));
  Ok (mkSequences buf (sequences_next_ s) (batch_beam_size_ s) (max_length_ s) cur).

(** ** Well-formedness and abstraction *)
Definition wf (s : Sequences) : Prop :=
  length (sequences_ s) = batch_beam_size_ s * max_length_ s ∧ current_length_ s <= max_length_ s.

Definition wf_beam (s : Sequences) : Prop :=
  wf s ∧ length (sequences_next_ s) = batch_beam_size_ s * max_length_ s.

(** A buffer of [n] rows of [w] tokens is addressed with [int]s. *)
Definition int_rows (n w : nat) : Prop :=
  (Z.of_nat n <= INT_MAX ∧ Z.of_nat w <= INT_MAX ∧ Z.of_nat (n * w) <= INT_MAX)%Z.

Lemma int_rows_off n w i j : int_rows n w -> i < n -> j < w ->
  int_nat (i * w) = Ok (i * w) ∧ int_nat (i * w + j) = Ok (i * w + j).
Proof. intros (_ & _ & H) Hi Hj. pose proof (row_index i n j w Hi Hj). split; apply int_nat_ok; lia. Qed.

Lemma int_rows_S n w cur : int_rows n w -> cur < w -> int_nat (S cur) = Ok (S cur).
Proof. intros (_ & H & _) Hc. apply int_nat_ok. lia. Qed.

Lemma int_rows_offZ n w z : int_rows n w -> (0 <= z < Z.of_nat n)%Z ->
  chk32 (z * Z.of_nat w) = Ok (z * Z.of_nat w)%Z.
Proof. intros (_ & _ & H) Hz. apply chk32_ok. unfold INT_MIN. nia. Qed.

(* sequences of every length from [cur] to [w] take more room than the buffer *)
Lemma int_rows_triangle n (cur : Z) w : 0 < n -> (0 <= cur < Z.of_nat w)%Z ->
  (Z.of_nat n * (Z.of_nat w * (Z.of_nat w + 1) - (cur - 1) * cur) <= 2 * INT_MAX)%Z -> int_rows n w.
Proof.
  intros Hn Hc H. assert (2 * Z.of_nat w <= Z.of_nat w * (Z.of_nat w + 1) - (cur - 1) * cur)%Z as Ht by nia.
  assert (Z.of_nat n * (2 * Z.of_nat w) <= 2 * INT_MAX)%Z as Hw by (etransitivity; [|exact H]; apply Z.mul_le_mono_nonneg_l; lia).
  repeat split; nia.
Qed.

Definition row (s : Sequences) (i : nat) : list Z :=
  take (current_length_ s) (drop (i * max_length_ s) (sequences_ s)).

Definition rows (s : Sequences) : list (list Z) := map (row s) (seq 0 (batch_beam_size_ s)).

Lemma length_row s i : wf s -> i < batch_beam_size_ s -> length (row s i) = current_length_ s.
Proof. intros [Hl Hc] Hi. apply length_window. rewrite Hl. nia. Qed.

Lemma lookup_row s i j : j < current_length_ s ->
  row s i !! j = sequences_ s !! (i * max_length_ s + j).
Proof. apply lookup_window. Qed.

Lemma lookup_rows s i : i < batch_beam_size_ s -> rows s !! i = Some (row s i).
Proof.
  intros Hi. unfold rows. rewrite list_lookup_fmap, lookup_seq_lt by done. done.
Qed.

Lemma rows_eq s (l : list (list Z)) :
  length l = batch_beam_size_ s -> (∀ i r, l !! i = Some r -> row s i = r) -> rows s = l.
Proof.
  intros Hl Hr. apply (list_eq_lt _ _ (batch_beam_size_ s)); [unfold rows; by rewrite length_fmap, length_seq|done|].
  intros i Hi. rewrite lookup_rows by done.
  destruct (lookup_lt_is_Some_2 l i) as [r E]; [lia|]. rewrite E. by rewrite (Hr i r E).
Qed.

Lemma GetSequence_row s i : wf s -> i < batch_beam_size_ s -> GetSequence s i = Ok (row s i).
Proof. intros [Hl Hc] Hi. unfold GetSequence. rewrite subspan_le; [done|]. rewrite Hl. nia. Qed.

(** One row after the token column is written: the row and the token. *)
Lemma row_snoc (buf : list Z) off cur t :
  off + cur < length buf -> buf !! (off + cur) = Some t ->
  take (S cur) (drop off buf) = take cur (drop off buf) ++ [t].
Proof.
  intros Hlt Ht. apply take_S_r. by rewrite lookup_drop.
Qed.

Lemma append_greedy_spec s tokens :
  wf s -> int_rows (batch_beam_size_ s) (max_length_ s) ->
  current_length_ s < max_length_ s -> batch_beam_size_ s <= length tokens ->
  ∃ s', AppendNextTokenToSequences s tokens = Ok s' ∧ wf s' ∧
        sequences_next_ s' = sequences_next_ s ∧
        batch_beam_size_ s' = batch_beam_size_ s ∧ max_length_ s' = max_length_ s ∧
        current_length_ s' = S (current_length_ s) ∧
        ∀ i t, i < batch_beam_size_ s -> tokens !! i = Some t -> row s' i = row s i ++ [t].
Proof.
  intros [Hl Hc] Hint Hlt Ht. unfold AppendNextTokenToSequences.
  set (n := batch_beam_size_ s) in *. set (w := max_length_ s) in *. set (cur := current_length_ s) in *.
  destruct (for_inv (fun k buf => length buf = n * w ∧
      ∀ p, buf !! p = if decide (p mod w = cur ∧ p / w < k) then tokens !! (p / w) else sequences_ s !! p)
    n (fun i buf => off ← int_nat (i * w); off ← int_nat (off + cur); t ← get tokens i; put buf off t) (sequences_ s)) as (buf & E & Hb & Hp).
  - split; [done|]. intros p. rewrite decide_False by lia. done.
  - intros i buf Hi [Hb Hp]. destruct (get_lt tokens i) as (t & Eg & Et); [lia|].
    destruct (int_rows_off n w i cur Hint Hi Hlt) as [E1 E2].
    rewrite E1, bind_Ok, E2, bind_Ok, Eg, bind_Ok.
    rewrite put_lt by nia. eexists. split; [done|]. split; [by rewrite length_insert|].
    intros p. destruct (decide (p = i * w + cur)) as [->|Hne].
    + rewrite list_lookup_insert_eq by nia.
      assert ((i * w + cur) mod w = cur) as -> by (rewrite Nat.add_comm, Nat.Div0.mod_add, Nat.mod_small; lia).
      assert ((i * w + cur) / w = i) as -> by (rewrite Nat.div_add_l, Nat.div_small; lia).
      by rewrite decide_True by lia.
    + rewrite list_lookup_insert_ne by done. rewrite Hp.
      destruct (decide (p mod w = cur ∧ p / w < i)) as [H1|H1].
      * by rewrite decide_True by lia.
      * rewrite decide_False; [done|]. intros [H2 H3].
        assert (p / w = i) by lia. pose proof (Nat.div_mod_eq p w). nia.
  - rewrite E, bind_Ok, (int_rows_S n w cur Hint Hlt), bind_Ok.
    eexists. split; [done|]. repeat split; simpl; try done.
    intros i t Hi Et. unfold row. simpl. fold w cur.
    assert ((i * w + cur) mod w = cur) as M by (rewrite Nat.add_comm, Nat.Div0.mod_add, Nat.mod_small; lia).
    assert ((i * w + cur) / w = i) as D by (rewrite Nat.div_add_l, Nat.div_small; lia).
    rewrite (row_snoc _ _ _ t); [|nia|].
    + f_equal. apply (list_eq_lt _ _ cur); [apply length_window; nia..|].
      intros j Hj. rewrite !lookup_window by done. rewrite Hp, decide_False; [done|].
      rewrite Nat.add_comm, Nat.Div0.mod_add, Nat.mod_small by lia. lia.
    + rewrite Hp, M, D, decide_True by lia. done.
Qed.

Lemma append_beam_spec s indices tokens :
  wf_beam s -> int_rows (batch_beam_size_ s) (max_length_ s) ->
  current_length_ s < max_length_ s -> batch_beam_size_ s <= length tokens ->
  batch_beam_size_ s <= length indices ->
  (∀ i z, i < batch_beam_size_ s -> indices !! i = Some z -> (0 <= z < Z.of_nat (batch_beam_size_ s))%Z) ->
  ∃ s', AppendNextTokenToSequences_beam s indices tokens = Ok s' ∧ wf_beam s' ∧
        batch_beam_size_ s' = batch_beam_size_ s ∧ max_length_ s' = max_length_ s ∧
        current_length_ s' = S (current_length_ s) ∧
        ∀ i z t, i < batch_beam_size_ s -> indices !! i = Some z -> tokens !! i = Some t ->
          row s' i = row s (Z.to_nat z) ++ [t].
Proof.
  intros [[Hl Hc] Hn] Hint Hlt Ht Hi Hr. unfold AppendNextTokenToSequences_beam.
  set (n := batch_beam_size_ s) in *. set (w := max_length_ s) in *. set (cur := current_length_ s) in *.
  match goal with |- context [for_ n ?b _] => set (body := b) end.
  destruct (for_inv (fun k next => length next = n * w ∧
      ∀ i z t, i < k -> indices !! i = Some z -> tokens !! i = Some t ->
        take (S cur) (drop (i * w) next) = row s (Z.to_nat z) ++ [t])
    n body (sequences_next_ s)) as (next & E & Hb & Hp).
  - split; [done|]. lia.
  - intros i next Hi' [Hb Hp].
    destruct (get_lt indices i) as (z & Eg & Ez); [lia|]. destruct (get_lt tokens i) as (t & Eg' & Et); [lia|].
    pose proof (Hr i z Hi' Ez) as Hz. unfold body.
    rewrite Eg, bind_Ok. fold w. rewrite (int_rows_offZ n w z Hint Hz), bind_Ok.
    unfold subspanZ. rewrite decide_True by nia.
    replace (Z.to_nat (z * Z.of_nat w)) with (Z.to_nat z * w) by nia. rewrite Nat2Z.id.
    assert (Z.to_nat z * w + cur <= length (sequences_ s)) as Hsub by nia.
    rewrite subspan_le by done. fold (row s (Z.to_nat z)). cbn.
    assert (length (row s (Z.to_nat z)) = cur) as Lr by (apply length_window; nia).
    fold w cur. change (take cur (drop (Z.to_nat z * w) (sequences_ s))) with (row s (Z.to_nat z)).
    rewrite blit_le by (rewrite Lr; nia). cbn. rewrite Eg'. cbn.
    rewrite put_lt by (rewrite length_inserts; nia).
    assert (i * w + w <= length next) as Hw by (rewrite Hb; by apply row_bound).
    eexists. split; [done|]. split; [by rewrite length_insert, length_inserts|].
    intros i' z' t' Hi'' Ez' Et'. destruct (decide (i' = i)) as [->|Hne].
    + replace z' with z by congruence. replace t' with t by congruence.
      rewrite (row_snoc _ _ _ t); [f_equal|rewrite length_insert, length_inserts; nia|].
      * apply (list_eq_lt _ _ cur); [apply length_window; rewrite length_insert, length_inserts; nia|done|].
        intros j Hj. rewrite lookup_window by done. rewrite list_lookup_insert_ne by lia.
        rewrite list_lookup_inserts by (rewrite ?Lr; lia). f_equal. lia.
      * apply list_lookup_insert_eq. rewrite length_inserts. lia.
    + rewrite <- (Hp i' z' t') by (done || lia).
      apply (list_eq_lt _ _ (S cur)); [apply length_window; rewrite ?length_insert, ?length_inserts; nia..|].
      intros j Hj. rewrite !lookup_window by done.
      assert (i' * w + w <= i * w) by (apply row_bound; lia).
      rewrite list_lookup_insert_ne by lia. apply list_lookup_inserts_lt. lia.
  - rewrite E, bind_Ok, (int_rows_S n w cur Hint Hlt), bind_Ok.
    eexists. split; [done|]. repeat split; simpl; try done.
Qed.

(** ** Construction *)

(** The rows the constructor is to produce: every input row [beam_size] times. *)
Definition expand_input (input : list Z) (batch_size beam_size : nat) : list (list Z) :=
  let cur := length input / batch_size in
  map (fun r => take cur (drop (r / beam_size * cur) input)) (seq 0 (batch_size * beam_size)).

Lemma new_loops (input buf0 : list Z) batch beam w cur :
  length input = batch * cur -> cur <= w -> length buf0 = batch * beam * w ->
  ∃ buf, for_ batch (fun b => for_ beam (fun k => for_ cur (fun j buf =>
            v ← get input (b * cur + j); put buf ((b * beam + k) * w + j) v))) buf0 = Ok buf ∧
    length buf = batch * beam * w ∧
    ∀ r j, r < batch * beam -> j < cur -> buf !! (r * w + j) = input !! (r / beam * cur + j).
Proof.
  intros Hl Hc H0.
  apply (for_inv (fun kb buf => length buf = batch * beam * w ∧
    ∀ r j, r < kb * beam -> j < cur -> buf !! (r * w + j) = input !! (r / beam * cur + j))).
  { split; [done|]. lia. }
  intros b buf Hb [Hlen Hbuf].
  destruct (for_inv (fun kk buf => length buf = batch * beam * w ∧
    ∀ r j, r < b * beam + kk -> j < cur -> buf !! (r * w + j) = input !! (r / beam * cur + j))
    beam (fun k => for_ cur (fun j buf =>
            v ← get input (b * cur + j); put buf ((b * beam + k) * w + j) v)) buf)
    as (buf' & E & Hlen' & Hbuf'); [split; [done|]; rewrite Nat.add_0_r; done| |].
  2: { exists buf'. split; [done|]. split; [done|]. intros r j Hr. apply Hbuf'. lia. }
  clear buf Hlen Hbuf. intros k buf Hk [Hlen Hbuf].
  assert (b * beam + k < batch * beam) as Hrow by (by apply row_index).
  assert ((b * beam + k) * w + w <= batch * beam * w) as Hroww by (by apply row_bound).
  destruct (for_inv (fun jj buf => length buf = batch * beam * w ∧
    (∀ r j, r < b * beam + k -> j < cur -> buf !! (r * w + j) = input !! (r / beam * cur + j)) ∧
    ∀ j, j < jj -> buf !! ((b * beam + k) * w + j) = input !! (b * cur + j))
    cur (fun j buf => v ← get input (b * cur + j); put buf ((b * beam + k) * w + j) v) buf)
    as (buf' & E & Hlen' & Hold & Hnew); [repeat split; [done|done|lia]| |].
  2: { exists buf'. split; [done|]. split; [done|]. intros r j Hr Hj.
       destruct (decide (r = b * beam + k)) as [->|]; [|apply Hold; lia].
       rewrite Hnew by done. by rewrite Nat.div_add_l, Nat.div_small, Nat.add_0_r by lia. }
  clear buf Hlen Hbuf. intros j buf Hj (Hlen & Hold & Hnew).
  destruct (get_lt input (b * cur + j)) as (v & Eg & Ev).
  { rewrite Hl. by apply row_index. }
  rewrite Eg. cbn. rewrite put_lt by lia. eexists. split; [done|].
  split; [by rewrite length_insert|]. split.
  - intros r j' Hr Hj'. assert (r * w + w <= (b * beam + k) * w) by (by apply row_bound).
    rewrite list_lookup_insert_ne by lia. by apply Hold.
  - intros j' Hj'. destruct (decide (j' = j)) as [->|].
    + by rewrite list_lookup_insert_eq by lia.
    + rewrite list_lookup_insert_ne by lia. apply Hnew. lia.
Qed.

Lemma expand_rows (input buf next : list Z) (batch beam w cur : nat) :
  0 < batch -> length input = batch * cur -> cur <= w -> length buf = batch * beam * w ->
  (∀ r j, r < batch * beam -> j < cur -> buf !! (r * w + j) = input !! (r / beam * cur + j)) ->
  rows (mkSequences buf next (batch * beam) w cur) = expand_input input batch beam.
Proof.
  intros Hb Hl Hc Hlen Hbuf. unfold expand_input.
  assert (length input / batch = cur) as -> by (rewrite Hl, Nat.mul_comm; apply Nat.div_mul; lia).
  apply rows_eq; [by rewrite length_fmap, length_seq|]. intros i r Hr.
  apply list_lookup_fmap_Some in Hr as (i' & -> & [-> Hi]%lookup_seq). simpl in *.
  unfold row. simpl. apply (list_eq_lt _ _ cur).
  - apply length_window. rewrite Hlen. pose proof (row_bound i (batch * beam) w Hi). lia.
  - apply length_window. rewrite Hl. apply Nat.le_trans with (i / beam * cur + cur); [lia|].
    apply row_bound. apply Nat.Div0.div_lt_upper_bound. lia.
  - intros j Hj. rewrite !lookup_window by done. by apply Hbuf.
Qed.

Lemma Sequences_new_rows (input : list Z) (batch_size beam_size max_length cur : nat) :
  0 < batch_size -> 0 < beam_size -> length input = batch_size * cur -> cur <= max_length ->
  int_rows (batch_size * beam_size) max_length ->
  ∃ s, Sequences_new input batch_size beam_size max_length = Ok s ∧ wf s ∧
       (beam_size ≠ 1 -> wf_beam s) ∧ GetSequenceLength s = cur ∧
       batch_beam_size_ s = batch_size * beam_size ∧ max_length_ s = max_length ∧
       rows s = expand_input input batch_size beam_size.
Proof.
  intros Hb Hk Hl Hc Hint. unfold Sequences_new. rewrite decide_False by lia.
  rewrite (int_nat_ok (batch_size * beam_size)) by apply Hint.
  assert (length input <= batch_size * beam_size * max_length) as Hle
    by (rewrite Hl, <- Nat.mul_assoc; apply Nat.mul_le_mono_l; nia).
  rewrite (int_nat_ok (length input)) by (destruct Hint as (_ & _ & Hint); lia). cbn [mbind outcome_bind].
  assert (length input / batch_size = cur) as -> by (rewrite Hl, Nat.mul_comm; apply Nat.div_mul; lia).
  rewrite (bool_decide_true (cur * batch_size = length input)) by lia. cbn [assert_ mbind outcome_bind].
  destruct (new_loops input (replicate (batch_size * beam_size * max_length) 0%Z) batch_size beam_size max_length cur Hl Hc (length_replicate _ _))
    as (buf & E & Hlen & Hbuf).
  rewrite E. cbn [mbind outcome_bind]. eexists. split; [done|].
  match goal with |- wf ?s ∧ _ => assert (wf s) as Hwf by (split; simpl; lia) end.
  split; [done|]. split; [|split; [done|split; [done|split; [done|]]]].
  - intros Hne. split; [done|]. simpl. rewrite decide_False by done. by rewrite length_replicate.
  - by apply expand_rows.
Qed.

(** The constructor lays out every input sequence [beam_size] times in a
    buffer with room for [max_length] tokens per row, provided the input divides
    into rows no longer than that and an [int] holds the size of the buffer. *)
Theorem Sequences_new_spec (input : list Z) (batch_size beam_size max_length cur : nat) :
  0 < batch_size -> 0 < beam_size -> length input = batch_size * cur -> cur <= max_length ->
  int_rows (batch_size * beam_size) max_length ->
  ∃ s, Sequences_new input batch_size beam_size max_length = Ok s ∧ wf s ∧
       (beam_size ≠ 1 -> wf_beam s) ∧ GetSequenceLength s = cur ∧
       batch_beam_size_ s = batch_size * beam_size ∧ max_length_ s = max_length ∧
       rows s = expand_input input batch_size beam_size.
Proof. apply Sequences_new_rows. Qed.

(** ** Refinement of the append operations *)
Inductive op : Type :=
  | Greedy (tokens : list Z)
  | Beam (indices tokens : list Z).

Definition apply_op (s : Sequences) (o : op) : outcome Sequences :=
  match o with
  | Greedy tokens => AppendNextTokenToSequences s tokens
  | Beam indices tokens => AppendNextTokenToSequences_beam s indices tokens
  end.

Fixpoint apply_ops (s : Sequences) (os : list op) : outcome Sequences :=
  match os with [] => Ok s | o :: os => s ← apply_op s o; apply_ops s os end.

(** On the list of sequences: append a token to each, or replace each by
    another one extended by a token. *)
Definition spec_op (rs : list (list Z)) (o : op) : list (list Z) :=
  match o with
  | Greedy tokens => zip_with (fun r t => r ++ [t]) rs tokens
  | Beam indices tokens => zip_with (fun z t => default [] (rs !! Z.to_nat z) ++ [t]) indices tokens
  end.

(** One token per row, and for the beam overload one source row per row. *)
Definition op_ok (n : nat) (beam : bool) (o : op) : Prop :=
  match o with
  | Greedy tokens => length tokens = n
  | Beam indices tokens =>
      beam = true ∧ length tokens = n ∧ length indices = n ∧
      Forall (fun z => 0 <= z < Z.of_nat n)%Z indices
  end.

Definition wf_op (beam : bool) (s : Sequences) : Prop := if beam then wf_beam s else wf s.

Lemma wf_op_wf beam s : wf_op beam s -> wf s.
Proof. destruct beam; [intros [? _]|]; done. Qed.

Lemma apply_op_spec beam s o :
  wf_op beam s -> int_rows (batch_beam_size_ s) (max_length_ s) ->
  op_ok (batch_beam_size_ s) beam o -> current_length_ s < max_length_ s ->
  ∃ s', apply_op s o = Ok s' ∧ wf_op beam s' ∧ batch_beam_size_ s' = batch_beam_size_ s ∧
        max_length_ s' = max_length_ s ∧ current_length_ s' = S (current_length_ s) ∧
        rows s' = spec_op (rows s) o.
Proof.
  intros Hwf Hint Hok Hlt. assert (length (rows s) = batch_beam_size_ s) as Hrs
    by (unfold rows; by rewrite length_fmap, length_seq).
  destruct o as [tokens|indices tokens]; simpl in Hok.
  - destruct (append_greedy_spec s tokens (wf_op_wf _ _ Hwf) Hint) as (s' & E & W & En & Eb & Em & Ec & Hr); [lia..|].
    exists s'. split; [done|]. split; [|split; [done|split; [done|split; [done|]]]].
    + destruct beam; [|done]. split; [done|]. destruct Hwf as [_ Hn]. by rewrite En, Eb, Em.
    + apply rows_eq; [simpl; rewrite length_zip_with; lia|]. intros i r Hi. simpl in Hi.
      apply lookup_zip_with_Some in Hi as (r0 & t & -> & E0 & Et).
      assert (i < batch_beam_size_ s) by (apply lookup_lt_Some in E0; lia).
      rewrite lookup_rows in E0 by done. injection E0 as <-. by apply Hr.
  - destruct Hok as (-> & Ht & Hi & Hf).
    assert (∀ i z, i < batch_beam_size_ s -> indices !! i = Some z -> (0 <= z < Z.of_nat (batch_beam_size_ s))%Z)
      as Hr by (intros i z _ Ez; by apply (proj1 (Forall_lookup _ _) Hf i)).
    destruct (append_beam_spec s indices tokens Hwf Hint Hlt) as (s' & E & W & Eb & Em & Ec & Hrow); [lia|lia|done|].
    exists s'. split; [done|]. split; [done|]. split; [done|]. split; [done|]. split; [done|].
    apply rows_eq; [simpl; rewrite length_zip_with; lia|]. intros i r Hlk. simpl in Hlk.
    apply lookup_zip_with_Some in Hlk as (z & t & -> & Ez & Et).
    assert (i < batch_beam_size_ s) as Hii by (apply lookup_lt_Some in Ez; lia).
    rewrite (Hrow i z t) by done. f_equal. pose proof (Hr i z Hii Ez).
    rewrite lookup_rows by lia. done.
Qed.

(** C17: from construction on, any sequence of append operations that fits in
    [max_length], on a buffer whose size an [int] holds, runs without a fault and leaves exactly the sequences the
    operations describe, whichever of the two buffers is active. *)
Theorem Sequences_refines (input : list Z) (batch_size beam_size max_length cur : nat) (os : list op) :
  0 < batch_size -> 0 < beam_size -> length input = batch_size * cur -> cur + length os <= max_length ->
  int_rows (batch_size * beam_size) max_length ->
  Forall (op_ok (batch_size * beam_size) (negb (bool_decide (beam_size = 1)))) os ->
  ∃ s0 s, Sequences_new input batch_size beam_size max_length = Ok s0 ∧ apply_ops s0 os = Ok s ∧
          rows s = fold_left spec_op os (expand_input input batch_size beam_size) ∧
          ∀ i, i < batch_size * beam_size -> GetSequence s i = Ok (default [] (rows s !! i)).
Proof.
  intros Hb Hk Hl Hfit Hint Hok.
  destruct (Sequences_new_rows input batch_size beam_size max_length cur Hb Hk Hl)
    as (s0 & E0 & W0 & Wb0 & C0 & B0 & M0 & R0); [lia|done|].
  set (beam := negb (bool_decide (beam_size = 1))) in *.
  assert (wf_op beam s0) as W.
  { unfold wf_op, beam. case_bool_decide; simpl; [done|by apply Wb0]. }
  exists s0. unfold GetSequenceLength in C0. clear W0 Wb0.
  assert (∀ s, wf_op beam s -> batch_beam_size_ s = batch_size * beam_size -> max_length_ s = max_length ->
            current_length_ s + length os <= max_length ->
            ∃ s', apply_ops s os = Ok s' ∧ wf_op beam s' ∧ batch_beam_size_ s' = batch_size * beam_size ∧
                  rows s' = fold_left spec_op os (rows s)) as G.
  { clear Hfit s0 E0 C0 B0 M0 R0 W. induction os as [|o os IH]; intros s W B M C; simpl in *; [eauto|].
    apply Forall_cons_1 in Hok as [Ho Hok]. rewrite <- B in Ho.
    destruct (apply_op_spec beam s o W) as (s1 & E1 & W1 & B1 & M1 & C1 & R1); [by rewrite B, M|done|lia|].
    rewrite E1. cbn. destruct (IH Hok s1) as (s2 & E2 & W2 & B2 & R2); [done|congruence|congruence|lia|].
    exists s2. by rewrite R2, R1. }
  destruct (G s0 W B0 M0) as (s & E & W' & B' & R'); [lia|].
  exists s. split; [done|split; [done|split; [by rewrite R', R0|]]].
  intros i Hi. rewrite GetSequence_row; [|by apply wf_op_wf in W'|lia].
  by rewrite lookup_rows by lia.
Qed.

Lemma Sequences_new_spec_witness :
  ∃ s, Sequences_new [5; 6; 7; 8]%Z 2 2 3 = Ok s ∧ rows s = [[5; 6]; [5; 6]; [7; 8]; [7; 8]]%Z.
Proof.
  destruct (Sequences_new_spec [5; 6; 7; 8]%Z 2 2 3 2) as (s & E & _ & _ & _ & _ & _ & R);
    [lia|lia|reflexivity|lia|repeat split; vm_compute; discriminate|].
  exists s. split; [exact E|]. rewrite R. reflexivity.
Defined.

Lemma Sequences_refines_witness :
  ∃ s0 s, Sequences_new [5; 7]%Z 1 2 4 = Ok s0 ∧
    apply_ops s0 [Beam [1; 0]%Z [8; 9]%Z; Beam [1; 1]%Z [2; 3]%Z] = Ok s ∧
    rows s = [[5; 7; 9; 2]; [5; 7; 9; 3]]%Z.
Proof.
  destruct (Sequences_refines [5; 7]%Z 1 2 4 2 [Beam [1; 0]%Z [8; 9]%Z; Beam [1; 1]%Z [2; 3]%Z])
    as (s0 & s & E0 & E & R & _);
    [lia|lia|reflexivity|simpl; lia|repeat split; vm_compute; discriminate|repeat constructor; simpl; lia|].
  exists s0, s. split; [exact E0|]. split; [exact E|]. rewrite R. reflexivity.
Defined.
