(* ===== verification/Params.v ===== *)
(** * Generator parameters (struct GeneratorParams of src/generators.h and
      src/generators.cpp)

    The parameters a search and a model state are built from: what is copied
    from the configuration, graph capture, and the named input tensors. *)
From Stdlib Require Import ZArith Lia.
From stdpp Require Import base numbers list strings gmap.
From S2P Require Import Prelude Float32 Config Tensors.
Local Open Scope Z_scope.

Record Input := mkInput { in_name : string; in_tensor : ptr }.

Record GeneratorParams := mkParams {
  gp_search : Search;
  gp_pad_token_id : Z;
  gp_eos_token_id : Z;
  gp_vocab_size : Z;
  gp_context_length : Z;
  batch_size : Z;
  max_batch_size : Z;
  use_cuda_graph : bool;
  sequence_length : Z;
  gp_hidden_size : Z;
  device_type : DeviceType;
  prompt : list Z;                  (* the span input_ids *)
  extra_inputs : list Input;
  is_cuda_graph_enabled_ : bool }.

Definition set_cuda_graph (use : bool) (max_bs : Z) (p : GeneratorParams) : GeneratorParams :=
  mkParams (gp_search p) (gp_pad_token_id p) (gp_eos_token_id p) (gp_vocab_size p) (gp_context_length p)
    (batch_size p) max_bs use (sequence_length p) (gp_hidden_size p) (device_type p) (prompt p)
    (extra_inputs p) (is_cuda_graph_enabled_ p).
Definition set_prompt (ids : list Z) (bs sl : Z) (p : GeneratorParams) : GeneratorParams :=
  mkParams (gp_search p) (gp_pad_token_id p) (gp_eos_token_id p) (gp_vocab_size p) (gp_context_length p)
    bs (max_batch_size p) (use_cuda_graph p) sl (gp_hidden_size p) (device_type p) ids
    (extra_inputs p) (is_cuda_graph_enabled_ p).
Definition set_extra_inputs (e : list Input) (p : GeneratorParams) : GeneratorParams :=
  mkParams (gp_search p) (gp_pad_token_id p) (gp_eos_token_id p) (gp_vocab_size p) (gp_context_length p)
    (batch_size p) (max_batch_size p) (use_cuda_graph p) (sequence_length p) (gp_hidden_size p) (device_type p)
    (prompt p) e (is_cuda_graph_enabled_ p).

(** [GeneratorParams(const Model&)]: the context length keeps its initial 0. *)
Definition GeneratorParams_new (config : Config) (device : DeviceType) : GeneratorParams :=
  let m := model config in
  let enabled := IsCudaGraphEnabled (session_options (decoder m)) in
  mkParams (search config) (pad_token_id m) (eos_token_id m) (vocab_size m) 0 1
    (if enabled then 1 else 0) enabled 0 (hidden_size (decoder m)) device [] [] enabled.

Definition BatchBeamSize (p : GeneratorParams) : outcome Z := chk32 (num_beams (gp_search p) * batch_size p).

Definition TryGraphCapture (max_bs : Z) (p : GeneratorParams) : outcome GeneratorParams :=
  if negb (is_cuda_graph_enabled_ p) || bool_decide (device_type p = CPU) then Ok p else
  match device_type p with
  | CUDA | DML =>
      if max_bs =? 0
      then Throw (RuntimeError "Graph capture is enabled, but max_batch_size is not set.")
      else Ok (set_cuda_graph true max_bs p)
  | CPU => Throw (RuntimeError "CUDA graph is not supported on this device")
  end.

(** [SetInputs]: the tensors in the order the unordered map yields them. *)
Definition SetInput (h : heap) (config : Config) (nt : string * ptr) (p : GeneratorParams) : outcome GeneratorParams :=
  let '(name, tensor) := nt in
  if String.eqb name InputIdsName then
    t ← deref h tensor;
    match shape t with
    | [] => Undef
    | first :: _ =>
        let bs := i32 (Z.of_nat first) in
        if bs =? 0 then Undef (* division by zero *) else
        Ok (set_prompt (data t) bs (Z.quot (i32 (Z.of_nat (length (data t)))) bs) p)
    end
  else
    let '(graph_name, _) := GetGraphName config name in
    Ok (set_extra_inputs (extra_inputs p ++ [mkInput graph_name tensor]) p).

Definition SetInputs (h : heap) (config : Config) (named_tensors : list (string * ptr)) (p : GeneratorParams)
  : outcome GeneratorParams :=
  for_each (SetInput h config) named_tensors p.

(** ** Properties *)

(* the inputs that are not the prompt, by the names of the graph *)
Definition extra_of (config : Config) (l : list (string * ptr)) : list Input :=
  map (fun '(n, t) => mkInput (GetGraphName config n).1 t) (filter (fun nt => nt.1 ≠ InputIdsName) l).

Lemma SetInput_prompt h config q t (b s : nat) p :
  tensors h !! q = Some t -> shape t = [b; s] -> length (data t) = (b * s)%nat -> (0 < b)%nat -> (0 < s)%nat ->
  Z.of_nat (b * s) <= INT_MAX ->
  SetInput h config (InputIdsName, q) p = Ok (set_prompt (data t) (Z.of_nat b) (Z.of_nat s) p).
Proof.
  intros Ht Hsh Hlen Hb Hs Hmax. unfold SetInput. rewrite String.eqb_refl, (deref_Some _ _ t Ht), bind_Ok, Hsh.
  assert (b <= b * s)%nat by nia. unfold INT_MAX in Hmax.
  rewrite (i32_id (Z.of_nat b)) by (unfold INT_MIN, INT_MAX; lia).
  destruct (Z.of_nat b =? 0) eqn:E0; [lia|]. do 2 f_equal.
  rewrite Hlen, i32_id by (unfold INT_MIN, INT_MAX; lia). rewrite Z.quot_div_nonneg by lia.
  rewrite Nat2Z.inj_mul, Z.mul_comm. apply Z.div_mul. lia.
Qed.

Lemma SetInput_extra h config n q p : n ≠ InputIdsName ->
  SetInput h config (n, q) p = Ok (set_extra_inputs (extra_inputs p ++ [mkInput (GetGraphName config n).1 q]) p).
Proof.
  intros Hne. unfold SetInput. apply String.eqb_neq in Hne as ->. by destruct (GetGraphName config n).
Qed.

Lemma SetInputs_spec_from h config t (b s : nat) (l : list (string * ptr)) : ∀ p,
  (∀ q, (InputIdsName, q) ∈ l -> tensors h !! q = Some t) ->
  shape t = [b; s] -> length (data t) = (b * s)%nat -> (0 < b)%nat -> (0 < s)%nat -> Z.of_nat (b * s) <= INT_MAX ->
  ∃ p', SetInputs h config l p = Ok p' ∧ extra_inputs p' = extra_inputs p ++ extra_of config l ∧
    gp_search p' = gp_search p ∧
    (if decide (InputIdsName ∈ l.*1) then prompt p' = data t ∧ batch_size p' = Z.of_nat b ∧ sequence_length p' = Z.of_nat s
     else prompt p' = prompt p ∧ batch_size p' = batch_size p ∧ sequence_length p' = sequence_length p).
Proof.
  intros p Hin Hsh Hlen Hb Hs Hmax. unfold SetInputs. revert p Hin. induction l as [|[n q] l IH]; intros p Hin.
  - exists p. split; [done|]. split; [symmetry; apply app_nil_r|]. split; [done|].
    rewrite decide_False by apply not_elem_of_nil. done.
  - rewrite for_each_cons. unfold extra_of. destruct (decide (n = InputIdsName)) as [->|Hne].
    + rewrite (SetInput_prompt h config q t b s), bind_Ok by (done || apply Hin; by left).
      destruct (IH (set_prompt (data t) (Z.of_nat b) (Z.of_nat s) p)) as (p' & E & H1 & H2 & H3);
        [intros; apply Hin; by right|].
      exists p'. split; [done|]. rewrite filter_cons_False by (simpl; tauto). split; [done|]. split; [done|].
      rewrite decide_True by (by left). revert H3. by case_decide.
    + rewrite SetInput_extra, bind_Ok by done.
      destruct (IH (set_extra_inputs (extra_inputs p ++ [mkInput (GetGraphName config n).1 q]) p))
        as (p' & E & H1 & H2 & H3); [intros; apply Hin; by right|].
      exists p'. split; [done|]. rewrite filter_cons_True by done.
      split; [rewrite H1; simpl; by rewrite <- app_assoc|]. split; [done|].
      destruct (decide (InputIdsName ∈ l.*1)) as [Hi|Hi].
      * rewrite decide_True by (by right). done.
      * rewrite decide_False; [done|]. intros [E'|?]%elem_of_cons; simpl in *; congruence || done.
Qed.

(** Setting the named tensors of a prompt of [b] rows of [s] tokens makes
    the prompt, the batch size and the sequence length those of the tensor,
    whatever the order of the map, and files every other tensor as an extra
    input under its name in the graph. *)
Theorem SetInputs_spec (h : heap) (config : Config) (l : list (string * ptr)) (p : GeneratorParams) (q : ptr)
    (t : OrtValue) (b s : nat) :
  NoDup l.*1 -> (InputIdsName, q) ∈ l -> tensors h !! q = Some t ->
  shape t = [b; s] -> length (data t) = (b * s)%nat -> (0 < b)%nat -> (0 < s)%nat -> Z.of_nat (b * s) <= INT_MAX ->
  ∃ p', SetInputs h config l p = Ok p' ∧ prompt p' = data t ∧ batch_size p' = Z.of_nat b ∧
    sequence_length p' = Z.of_nat s ∧ extra_inputs p' = extra_inputs p ++ extra_of config l ∧
    gp_search p' = gp_search p.
Proof.
  intros Hnd Hin Ht Hsh Hlen Hb Hs Hmax.
  destruct (SetInputs_spec_from h config t b s l p) as (p' & E & H1 & H2 & H3); try done.
  - intros q' Hq'. replace q' with q; [done|].
    apply list_elem_of_lookup in Hin as [i Hi]. apply list_elem_of_lookup in Hq' as [j Hj].
    assert (i = j) as <-; [|congruence].
    eapply NoDup_lookup; [exact Hnd| |]; rewrite list_lookup_fmap; by rewrite ?Hi, ?Hj.
  - exists p'. rewrite decide_True in H3 by (apply list_elem_of_fmap; by exists (InputIdsName, q)).
    destruct H3 as (H3 & H4 & H5). done.
Qed.

(** Asking for graph capture never turns it on where the configuration
    does not enable it or on the CPU; where it does, it is on for the given
    batch size exactly when that is not zero. *)
Theorem TryGraphCapture_spec (max_bs : Z) (p : GeneratorParams) :
  match TryGraphCapture max_bs p with
  | Ok p' => gp_search p' = gp_search p ∧
             if is_cuda_graph_enabled_ p && negb (bool_decide (device_type p = CPU))
             then max_bs ≠ 0 ∧ use_cuda_graph p' = true ∧ max_batch_size p' = max_bs
             else p' = p
  | Throw _ => is_cuda_graph_enabled_ p = true ∧ device_type p ≠ CPU ∧ max_bs = 0
  | Undef => False
  end.
Proof.
  unfold TryGraphCapture. destruct (is_cuda_graph_enabled_ p); [|done].
  destruct (device_type p); simpl; [done| |];
    destruct (Z.eqb_spec max_bs 0) as [->|Hne]; simpl; done.
Qed.

(** ** Concrete runs *)
Module Examples.
Definition ex_prompt : OrtValue := mkOrt T_INT32 [2; 3]%nat [1; 2; 3; 4; 5; 6].
Definition ex_image : OrtValue := mkOrt T_FLOAT [1]%nat [0].
Definition ex_heap : heap := fst (new_tensor ex_image (fst (new_tensor ex_prompt (mkHeap ∅ O (fun _ _ => 77) O)))).

Lemma SetInputs_spec_witness :
  ∃ p', SetInputs ex_heap Config_default [("pixels", 1%nat); (InputIdsName, O)]
          (GeneratorParams_new Config_default CPU) = Ok p' ∧ sequence_length p' = 3.
Proof.
  destruct (SetInputs_spec ex_heap Config_default [("pixels", 1%nat); (InputIdsName, O)]
    (GeneratorParams_new Config_default CPU) O ex_prompt 2 3) as (p' & E & _ & _ & H & _).
  - by apply (bool_decide_unpack _).
  - by apply (bool_decide_unpack _).
  - reflexivity.
  - reflexivity.
  - reflexivity.
  - lia.
  - lia.
  - vm_compute. discriminate.
  - exists p'. split; [exact E|exact H].
Defined.

(** The parameters made for a model do not know its context length. *)
Example context_length_not_copied :
  gp_context_length (GeneratorParams_new (set_model (set_context_length 4096 Model_default) Config_default) CPU) = 0.
Proof. reflexivity. Qed.
End Examples.
