(* ===== verification/GraphPool.v ===== *)
(** * The pool of captured graphs (src/models/captured_graph_pool.h and .cpp)

    Generators with the same parameters and shapes reuse captured graphs.  A
    graph is in the pool or held by one generator; the steps of the generators
    are those of [step], each under the pool's mutex.  The order std::sort gives
    to equal names is open ([NameSort]). *)
From Stdlib Require Import ZArith Lia.
From stdpp Require Import base numbers list strings gmap sorting.
From S2P Require Import Prelude Float32 Config Tensors Params.
Local Open Scope Z_scope.

Record InputKey := mkInputKey {
  name_ : string;
  tensor_type_ : ONNXTensorElementDataType;
  tensor_shape_ : list nat }.

#[export] Instance InputKey_eq_dec : EqDecision InputKey.
Proof. solve_decision. Defined.

Record CapturedGraphKey := mkGraphKey {
  key_max_batch_size_ : Z;
  key_max_length_ : Z;
  key_num_beams_ : Z;
  extra_inputs_ : list InputKey }.

#[export] Instance CapturedGraphKey_eq_dec : EqDecision CapturedGraphKey.
Proof. solve_decision. Defined.

(* std::sort by name *)
Definition name_le (a b : InputKey) : Prop := String.le (name_ a) (name_ b).
Class NameSort (sort : list InputKey -> list InputKey) : Prop := {
  name_sort_perm l : sort l ≡ₚ l;
  name_sort_sorted l : StronglySorted name_le (sort l) }.

Section keys.
Context (sort : list InputKey -> list InputKey).

Fixpoint input_keys (h : heap) (l : list Input) : outcome (list InputKey) :=
  match l with
  | [] => Ok []
  | i :: l =>
      t ← deref h (in_tensor i);
      ks ← input_keys h l;
      Ok (mkInputKey (in_name i) (element_type t) (shape t) :: ks)
  end.

Definition CapturedGraphKey_new (h : heap) (max_batch_size max_length num_beams : Z) (extra : list Input)
  : outcome CapturedGraphKey :=
  ks ← input_keys h extra;
  Ok (mkGraphKey max_batch_size max_length num_beams (sort ks)).
End keys.

Record CapturedGraphInfo := mkGraphInfo {
  cg_max_batch_size_ : Z;
  cg_max_length_ : Z;
  cg_num_beams_ : Z;
  index_ : Z;
  sb_input_ids_ : StaticBuffer;
  sb_kv_caches_ : list StaticBuffer;
  sb_logits16_ : option StaticBuffer;
  sb_logits32_ : option StaticBuffer;
  sb_position_ids_ : option StaticBuffer;
  sb_attention_mask_ : option StaticBuffer;
  sb_extra_inputs_ : list (string * StaticBuffer);
  sb_embeddings_ : option StaticBuffer;
  key_ : CapturedGraphKey }.

Definition GenerateUniqueAnnotationID (c : CapturedGraphInfo) (batch_size : Z) : outcome Z :=
  hi ← chk32 (Z.shiftl (index_ c) 16);
  Ok (Z.lor hi batch_size).

(** The pool: the lists of graphs by key, and the next index. *)
Record CapturedGraphPool := mkPool {
  captured_graphs_map_ : list (CapturedGraphKey * list CapturedGraphInfo);
  current_graph_annotation_id_ : Z }.

Fixpoint graphs_of (key : CapturedGraphKey) (m : list (CapturedGraphKey * list CapturedGraphInfo)) : list CapturedGraphInfo :=
  match m with
  | [] => []
  | (k, l) :: m => if decide (k = key) then l else graphs_of key m
  end.

(* captured_graphs_map_[key] = l *)
Fixpoint set_graphs (key : CapturedGraphKey) (l : list CapturedGraphInfo)
    (m : list (CapturedGraphKey * list CapturedGraphInfo)) : list (CapturedGraphKey * list CapturedGraphInfo) :=
  match m with
  | [] => [(key, l)]
  | (k, l') :: m => if decide (k = key) then (k, l) :: m else (k, l') :: set_graphs key l m
  end.

Definition AddCapturedGraph (c : CapturedGraphInfo) (p : CapturedGraphPool) : CapturedGraphPool :=
  mkPool (set_graphs (key_ c) (graphs_of (key_ c) (captured_graphs_map_ p) ++ [c]) (captured_graphs_map_ p))
         (current_graph_annotation_id_ p).

(* the destructor of a CapturedGraphInfoPtr: [None] once the pool is gone *)
Definition Recycle (c : option CapturedGraphInfo) (pool : option CapturedGraphPool) : option CapturedGraphPool :=
  match c, pool with
  | Some c, Some p => Some (AddCapturedGraph c p)
  | _, _ => pool
  end.

Section reserve.
Context (sort : list InputKey -> list InputKey).

Definition make_graph (h : heap) (m : Config.Model) (si : SessionInfo) (params : GeneratorParams)
    (key : CapturedGraphKey) (index : Z) : outcome CapturedGraphInfo :=
  let max_beam_batch_size := u64 (u64 (num_beams (gp_search params)) * u64 (max_batch_size params)) in
  let sb := StaticBuffer_new max_beam_batch_size in
  let i := dec_inputs (decoder m) in
  output_type ← GetOutputDataType si (logits (dec_outputs (decoder m)));
  extra ← for_each (fun e l =>
      t ← deref h (in_tensor e);
      match shape t with
      | [] => Undef
      | first_dim :: _ => Ok (l ++ [(in_name e, StaticBuffer_new (Z.of_nat first_dim))])
      end) (extra_inputs params) [];
  Ok (mkGraphInfo (max_batch_size params) (max_length (gp_search params)) (num_beams (gp_search params)) index
       sb
       (replicate (Z.to_nat (num_hidden_layers (decoder m) * 2)) sb)
       (if decide (output_type = T_FLOAT16) then Some sb else None)
       (if decide (output_type = T_FLOAT) then Some sb else None)
       (if HasInput si (position_ids i) then Some sb else None)
       (if HasInput si (attention_mask i) then Some sb else None)
       extra
       (if decide (emb_filename (embedding m) = ""%string) then None else Some sb)
       key).

(** [ReserveCapturedGraph].  An exception while a new graph is built destroys
    it before its key is set, and the recycler dereferences that key. *)
Definition ReserveCapturedGraph (h : heap) (m : Config.Model) (si : SessionInfo) (device : DeviceType)
    (params : GeneratorParams) (p : CapturedGraphPool) : outcome (option CapturedGraphInfo * CapturedGraphPool) :=
  if negb (use_cuda_graph params) || bool_decide (device = CPU) then Ok (None, p) else
  key ← CapturedGraphKey_new sort h (max_batch_size params) (max_length (gp_search params))
          (num_beams (gp_search params)) (extra_inputs params);
  match graphs_of key (captured_graphs_map_ p) with
  | [] =>
      let index := current_graph_annotation_id_ p in
      next ← chk32 (index + 1);
      match make_graph h m si params key index with
      | Ok c => Ok (Some c, mkPool (captured_graphs_map_ p) next)
      | _ => Undef
      end
  | c :: rest => Ok (Some c, mkPool (set_graphs key rest (captured_graphs_map_ p)) (current_graph_annotation_id_ p))
  end.
End reserve.

(** ** Keys *)
#[export] Instance name_le_dec a b : Decision (name_le a b) := _.

(* stdpp's merge sort is such a sort *)
#[export] Instance merge_sort_NameSort : NameSort (merge_sort name_le).
Proof.
  split; intros l.
  - apply merge_sort_Permutation.
  - apply StronglySorted_merge_sort; [intros a b c; unfold name_le; by intros ->|].
    intros a b. apply (total String.le).
Qed.

Lemma input_keys_perm h (l k : list Input) ks : l ≡ₚ k -> input_keys h l = Ok ks ->
  ∃ ks', input_keys h k = Ok ks' ∧ ks ≡ₚ ks'.
Proof.
  intros Hp. revert ks. induction Hp as [|x l k Hp IH|x y l|l1 l2 l3 H1 IH1 H2 IH2]; intros ks E.
  - exists ks. done.
  - simpl in *. destruct (deref h (in_tensor x)) as [t| |]; try done. rewrite bind_Ok in *.
    destruct (input_keys h l) as [kl| |] eqn:Ekl; try done. injection E as <-.
    destruct (IH _ eq_refl) as (ks' & -> & Hks). rewrite bind_Ok. eexists. split; [done|]. by constructor.
  - simpl in *. destruct (deref h (in_tensor x)) as [t| |], (deref h (in_tensor y)) as [u| |]; try done.
    rewrite !bind_Ok in *. destruct (input_keys h l) as [kl| |]; try done. rewrite !bind_Ok in *.
    injection E as <-. eexists. split; [done|]. constructor.
  - destruct (IH1 _ E) as (k1 & E1 & P1). destruct (IH2 _ E1) as (k2 & E2 & P2). exists k2. split; [done|]. by rewrite P1.
Qed.

Lemma input_keys_names h l ks : input_keys h l = Ok ks -> map name_ ks = map in_name l.
Proof.
  revert ks. induction l as [|i l IH]; intros ks E; simpl in E; inv_ok; [done|]. simpl. f_equal. by apply IH.
Qed.

Lemma sorted_names_unique (l k : list InputKey) :
  NoDup (map name_ l) -> StronglySorted name_le l -> StronglySorted name_le k -> l ≡ₚ k -> l = k.
Proof.
  intros Hnd Hl Hk Hp. apply (StronglySorted_unique_strong name_le); try done.
  intros a b Ha Hb H1 H2. rewrite <- Hp in Hb.
  assert (name_ a = name_ b) as Hn by (exact (anti_symm String.le _ _ H1 H2)).
  apply list_elem_of_lookup in Ha as [i Hi]. apply list_elem_of_lookup in Hb as [j Hj].
  assert (i = j) as <-; [|congruence].
  eapply (NoDup_lookup _ i j (name_ a)); [exact Hnd| |]; rewrite list_lookup_fmap, ?Hi, ?Hj; simpl; by rewrite ?Hn.
Qed.

(** The key of a graph does not depend on the order of the extra inputs,
    as long as their names differ. *)
Theorem CapturedGraphKey_order (sort : list InputKey -> list InputKey) (h : heap) (mb ml nb : Z) (l k : list Input)
    (key : CapturedGraphKey) :
  NameSort sort -> l ≡ₚ k -> NoDup (map in_name l) ->
  CapturedGraphKey_new sort h mb ml nb l = Ok key -> CapturedGraphKey_new sort h mb ml nb k = Ok key.
Proof.
  intros Hs Hp Hnd E. unfold CapturedGraphKey_new in *.
  destruct (input_keys h l) as [ks| |] eqn:El; try done. rewrite bind_Ok in E. injection E as <-.
  destruct (input_keys_perm h l k ks Hp El) as (ks' & -> & Hks). rewrite bind_Ok. do 2 f_equal. symmetry.
  apply sorted_names_unique; [|apply name_sort_sorted..|].
  - assert (map name_ (sort ks) ≡ₚ map in_name l) as -> by (by rewrite name_sort_perm, (input_keys_names h l ks)). done.
  - by rewrite !name_sort_perm.
Qed.

(** ** Who holds which graph *)
Lemma graphs_of_set key l m key' : graphs_of key' (set_graphs key l m) = if decide (key' = key) then l else graphs_of key' m.
Proof.
  induction m as [|[k l'] m IH]; simpl.
  - destruct (decide (key = key')), (decide (key' = key)); congruence.
  - destruct (decide (k = key)) as [->|Hk]; simpl.
    + destruct (decide (key = key')), (decide (key' = key)); congruence.
    + rewrite IH. destruct (decide (k = key')), (decide (key' = key)); congruence.
Qed.

(* all graphs of the pool *)
Definition pooled (p : CapturedGraphPool) : list CapturedGraphInfo := concat (map snd (captured_graphs_map_ p)).

Lemma pooled_set key l m :
  concat (map snd (set_graphs key l m)) ++ graphs_of key m ≡ₚ concat (map snd m) ++ l.
Proof.
  induction m as [|[k l'] m IH]; simpl; [by rewrite !app_nil_r|].
  destruct (decide (k = key)) as [->|Hk]; simpl.
  - by rewrite (Permutation_app_comm (l ++ _) l'), (Permutation_app_comm l _), app_assoc.
  - rewrite <- !app_assoc. by rewrite IH.
Qed.

Section sharing.
Context (sort : list InputKey -> list InputKey).

(** The pool, and the graphs that generators hold. *)
Record pool_state := mkPoolState { ps_pool : CapturedGraphPool; ps_held : list CapturedGraphInfo }.

Inductive step : pool_state -> pool_state -> Prop :=
  | step_reserve h m si device params p held c p' :
      ReserveCapturedGraph sort h m si device params p = Ok (Some c, p') ->
      step (mkPoolState p held) (mkPoolState p' (c :: held))
  | step_release p held1 c held2 p' :
      Recycle (Some c) (Some p) = Some p' ->
      step (mkPoolState p (held1 ++ c :: held2)) (mkPoolState p' (held1 ++ held2)).

Inductive reachable : pool_state -> Prop :=
  | reach_init : reachable (mkPoolState (mkPool [] 1) [])
  | reach_step s s' : reachable s -> step s s' -> reachable s'.

Definition all_graphs (s : pool_state) : list CapturedGraphInfo := ps_held s ++ pooled (ps_pool s).

Record pool_ok (s : pool_state) : Prop := {
  po_next : 1 <= current_graph_annotation_id_ (ps_pool s);
  po_indices : NoDup (map index_ (all_graphs s));
  po_range : Forall (fun c => 1 <= index_ c < current_graph_annotation_id_ (ps_pool s)) (all_graphs s) }.

Lemma reserve_graphs h m si device params p c p' :
  ReserveCapturedGraph sort h m si device params p = Ok (Some c, p') ->
  (pooled p ≡ₚ c :: pooled p' ∧ current_graph_annotation_id_ p' = current_graph_annotation_id_ p) ∨
  (pooled p' = pooled p ∧ index_ c = current_graph_annotation_id_ p ∧
   current_graph_annotation_id_ p' = current_graph_annotation_id_ p + 1).
Proof.
  unfold ReserveCapturedGraph. destruct (_ || _); [done|].
  destruct (CapturedGraphKey_new _ _ _ _ _ _) as [key| |]; [|done|done]. rewrite bind_Ok.
  destruct (graphs_of key _) as [|c' rest] eqn:Eg.
  - destruct (chk32 _) as [next| |] eqn:En; [|done|done]. rewrite bind_Ok.
    destruct (make_graph _ _ _ _ _ _) as [c'| |] eqn:Ec; [|done|done].
    intros [= -> <-]. right. split; [done|]. simpl. unfold chk32 in En. destruct (in_i32 _); [|done].
    injection En as <-. split; [|done]. unfold make_graph in Ec. inv_ok. done.
  - intros [= -> <-]. left. simpl. split; [|done]. unfold pooled. simpl.
    pose proof (pooled_set key rest (captured_graphs_map_ p)) as Hp. rewrite Eg in Hp.
    apply (Permutation_app_inv_r rest). rewrite <- Hp. simpl.
    symmetry. apply Permutation_middle.
Qed.

Lemma add_graphs c p : pooled (AddCapturedGraph c p) ≡ₚ c :: pooled p.
Proof.
  unfold AddCapturedGraph, pooled. simpl.
  pose proof (pooled_set (key_ c) (graphs_of (key_ c) (captured_graphs_map_ p) ++ [c]) (captured_graphs_map_ p)) as H.
  apply (Permutation_app_inv_r (graphs_of (key_ c) (captured_graphs_map_ p))). etransitivity; [exact H|].
  rewrite app_assoc. symmetry. apply (Permutation_cons_append (_ ++ _) c).
Qed.

Lemma step_pool_ok s s' : pool_ok s -> step s s' -> pool_ok s'.
Proof.
  intros [H0 H1 H2] Hs. destruct Hs as [h m si device params p held c p' E|p held1 c held2 p' E]; unfold all_graphs in *; simpl in *.
  - destruct (reserve_graphs h m si device params p c p' E) as [[Hp Hi]|(Hp & Hc & Hi)].
    + assert (c :: held ++ pooled p' ≡ₚ held ++ pooled p) as Hperm by (by rewrite Hp, Permutation_middle).
      split; unfold all_graphs; simpl; rewrite ?Hi; [done| |];
        [change (index_ c :: _) with (map index_ (c :: held ++ pooled p'))|]; by rewrite Hperm.
    + split; unfold all_graphs; simpl; rewrite ?Hp; [lia| |].
      * apply NoDup_cons. split; [|done]. intros (c' & E' & Hin)%list_elem_of_fmap.
        pose proof (proj1 (Forall_forall _ _) H2 c' Hin) as Hr. simpl in Hr. lia.
      * rewrite Hi. apply Forall_cons. rewrite Forall_forall in H2.
        split; [lia|]. apply Forall_forall. intros c' Hin. specialize (H2 c' Hin). simpl in *. lia.
  - injection E as <-. assert (held1 ++ held2 ++ pooled (AddCapturedGraph c p) ≡ₚ held1 ++ (c :: held2) ++ pooled p) as Hperm.
    { rewrite add_graphs. simpl. by rewrite <- !Permutation_middle. }
    split; unfold all_graphs; simpl; [done| |]; rewrite <- app_assoc, Hperm; simpl;
      [by rewrite <- app_assoc in H1|by rewrite <- app_assoc in H2].
Qed.
End sharing.

Lemma reachable_ok sort s : reachable sort s -> pool_ok s.
Proof.
  induction 1 as [|s s' _ IH Hs]; [|by eapply step_pool_ok].
  split; unfold all_graphs; simpl; [lia|constructor|constructor].
Qed.

Lemma annotation_id (c : CapturedGraphInfo) (b : Z) : 1 <= index_ c < 2 ^ 15 -> 0 <= b < 2 ^ 16 ->
  GenerateUniqueAnnotationID c b = Ok (index_ c * 2 ^ 16 + b).
Proof.
  intros Hi Hb. unfold GenerateUniqueAnnotationID. rewrite Z.shiftl_mul_pow2 by lia.
  rewrite chk32_ok, bind_Ok by (unfold INT_MIN, INT_MAX; lia). f_equal.
  rewrite <- Z.shiftl_mul_pow2, <- Z.add_lor_land, Z.add_comm by lia || done.
  assert (Z.land (Z.shiftl (index_ c) 16) b = 0) as ->; [|lia].
  apply Z.bits_inj'. intros n Hn. rewrite Z.land_spec, Z.bits_0, Z.shiftl_spec by lia.
  destruct (Z.ltb_spec n 16); [rewrite Z.testbit_neg_r by lia; done|].
  rewrite (Z.bits_above_log2 b n); [apply andb_false_r|lia|].
  destruct (decide (b = 0)) as [->|]; [simpl; lia|]. apply Z.log2_lt_pow2; [lia|].
  assert (2 ^ 16 <= 2 ^ n) by (apply Z.pow_le_mono_r; lia). lia.
Qed.

(** C10: whatever generators reserve and release, in whatever order, two graphs
    held at the same time are different graphs, and their annotation ids differ
    for all batch sizes, as long as fewer than 2^15 graphs were made and batch
    sizes stay below 2^16; for one graph the id tells the batch sizes apart. *)
Theorem annotation_ids_differ (sort : list InputKey -> list InputKey) (s : pool_state) (i j : nat)
    (c d : CapturedGraphInfo) (b1 b2 : Z) :
  reachable sort s -> current_graph_annotation_id_ (ps_pool s) <= 2 ^ 15 ->
  ps_held s !! i = Some c -> ps_held s !! j = Some d -> 0 <= b1 < 2 ^ 16 -> 0 <= b2 < 2 ^ 16 ->
  (∃ n, GenerateUniqueAnnotationID c b1 = Ok n) ∧
  (GenerateUniqueAnnotationID c b1 = GenerateUniqueAnnotationID d b2 ↔ i = j ∧ b1 = b2).
Proof.
  intros [H0 H1 H2]%reachable_ok Hmax Hc Hd Hb1 Hb2.
  assert (∀ k e, ps_held s !! k = Some e -> 1 <= index_ e < 2 ^ 15 ∧ map index_ (all_graphs s) !! k = Some (index_ e)) as Hk.
  { intros k e He. assert (all_graphs s !! k = Some e) as Ha by (by apply lookup_app_l_Some).
    pose proof (proj1 (Forall_lookup _ _) H2 k e Ha) as Hr. simpl in Hr. split; [lia|].
    change (map index_ (all_graphs s)) with (index_ <$> all_graphs s). by rewrite list_lookup_fmap, Ha. }
  destruct (Hk i c Hc) as [Rc Lc]. destruct (Hk j d Hd) as [Rd Ld].
  rewrite !annotation_id by done. split; [eauto|]. split.
  - intros [= E]. assert (index_ c = index_ d ∧ b1 = b2) as [Ei ->] by lia. split; [|done].
    rewrite Ei in Lc. by eapply NoDup_lookup.
  - intros [-> ->]. congruence.
Qed.

(** Every graph of the pool is filed under its key. *)
Definition well_filed (p : CapturedGraphPool) : Prop :=
  ∀ key c, c ∈ graphs_of key (captured_graphs_map_ p) -> key_ c = key.

Lemma reserve_filed sort h m si device params p c p' : well_filed p ->
  ReserveCapturedGraph sort h m si device params p = Ok (Some c, p') ->
  well_filed p' ∧
  CapturedGraphKey_new sort h (max_batch_size params) (max_length (gp_search params)) (num_beams (gp_search params))
    (extra_inputs params) = Ok (key_ c).
Proof.
  intros Hw. unfold ReserveCapturedGraph. destruct (_ || _); [done|].
  destruct (CapturedGraphKey_new _ _ _ _ _ _) as [key| |]; [|done|done]. rewrite bind_Ok.
  destruct (graphs_of key _) as [|c' rest] eqn:Eg.
  - destruct (chk32 _) as [next| |]; [|done|done]. rewrite bind_Ok.
    destruct (make_graph _ _ _ _ _ _) as [c'| |] eqn:Ec; [|done|done].
    intros [= -> <-]. split; [exact Hw|]. unfold make_graph in Ec. inv_ok. done.
  - intros [= -> <-]. split.
    + intros k e. simpl. rewrite graphs_of_set. destruct (decide (k = key)) as [->|]; [|apply Hw].
      intros He. apply Hw. rewrite Eg. by right.
    + f_equal. symmetry. apply Hw. rewrite Eg. by left.
Qed.

Lemma reachable_filed sort s : reachable sort s -> well_filed (ps_pool s).
Proof.
  induction 1 as [|s s' _ IH Hs]; [intros key c Hc; by apply not_elem_of_nil in Hc|].
  destruct Hs as [h m si device params p held c p' E|p held1 c held2 p' E]; simpl in *.
  - by apply (reserve_filed _ _ _ _ _ _ _ _ _ IH E).
  - injection E as <-. intros k e. simpl. rewrite graphs_of_set. destruct (decide (k = key_ c)) as [->|]; [|apply IH].
    intros [He|He]%elem_of_app; [by apply IH|]. by apply list_elem_of_singleton in He as ->.
Qed.

(** A generator that reserves a graph gets one made for the same batch
    size, maximum length, beams and extra inputs, whatever the others did. *)
Theorem ReserveCapturedGraph_key (sort : list InputKey -> list InputKey) (s : pool_state) (h : heap)
    (m : Config.Model) (si : SessionInfo) (device : DeviceType) (params : GeneratorParams)
    (c : CapturedGraphInfo) (p' : CapturedGraphPool) :
  reachable sort s -> ReserveCapturedGraph sort h m si device params (ps_pool s) = Ok (Some c, p') ->
  CapturedGraphKey_new sort h (max_batch_size params) (max_length (gp_search params)) (num_beams (gp_search params))
    (extra_inputs params) = Ok (key_ c).
Proof. intros Hr E. exact (proj2 (reserve_filed _ _ _ _ _ _ _ _ _ (reachable_filed _ _ Hr) E)). Qed.

(** ** Concrete runs *)
Module Examples.
Definition ex_params : GeneratorParams :=
  set_cuda_graph true 2 (GeneratorParams_new (set_search (set_max_length 8 Search_default) Config_default) CUDA).
Definition ex_si : SessionInfo := mkSessionInfo ∅ {[ "logits" := T_FLOAT ]}.
Definition ex_heap : heap := mkHeap ∅ O (fun _ _ => 77) O.
Definition ex_sort : list InputKey -> list InputKey := merge_sort name_le.
Definition ex_reserve (p : CapturedGraphPool) := ReserveCapturedGraph ex_sort ex_heap Model_default ex_si CUDA ex_params p.

(* two generators hold a graph each *)
Definition ex_two : option pool_state :=
  match ex_reserve (mkPool [] 1) with
  | Ok (Some c, p) => match ex_reserve p with Ok (Some d, p) => Some (mkPoolState p [d; c]) | _ => None end
  | _ => None
  end.

Lemma annotation_ids_differ_witness :
  ∃ s c d, ex_two = Some s ∧ ps_held s !! O = Some c ∧ ps_held s !! 1%nat = Some d ∧
    GenerateUniqueAnnotationID c 4 ≠ GenerateUniqueAnnotationID d 4.
Proof.
  destruct (ex_reserve (mkPool [] 1)) as [[[c|] p]| |] eqn:E1; try (vm_compute in E1; discriminate E1).
  destruct (ex_reserve p) as [[[d|] p2]| |] eqn:E2;
    try (vm_compute in E1; injection E1 as <- <-; vm_compute in E2; discriminate E2).
  exists (mkPoolState p2 [d; c]), d, c. unfold ex_two. rewrite E1, E2.
  split; [reflexivity|]. split; [reflexivity|]. split; [reflexivity|].
  assert (reachable ex_sort (mkPoolState p2 [d; c])) as Hr.
  { eapply reach_step; [eapply reach_step; [apply reach_init|]|]; eapply step_reserve; [exact E1|exact E2]. }
  intros Heq. apply (annotation_ids_differ ex_sort (mkPoolState p2 [d; c]) 0 1 d c 4 4 Hr) in Heq as [? _];
    [discriminate| |reflexivity|reflexivity|lia|lia].
  vm_compute in E1. injection E1 as _ <-. vm_compute in E2. injection E2 as _ <-. vm_compute. discriminate.
Defined.

Lemma ReserveCapturedGraph_key_witness :
  ∃ c p, ex_reserve (mkPool [] 1) = Ok (Some c, p) ∧
    CapturedGraphKey_new ex_sort ex_heap 2 8 1 [] = Ok (key_ c).
Proof.
  eexists _, _. split; [vm_compute; reflexivity|].
  apply (ReserveCapturedGraph_key ex_sort (mkPoolState (mkPool [] 1) []) ex_heap Model_default ex_si CUDA ex_params _
    (mkPool [] 2)); [apply reach_init|vm_compute; reflexivity].
Defined.

Lemma CapturedGraphKey_order_witness :
  let h := fst (new_tensor (mkOrt T_FLOAT [2%nat] [0; 0]) ex_heap) in
  ∃ key, CapturedGraphKey_new ex_sort h 1 8 1 [mkInput "b" O; mkInput "a" O] = Ok key ∧
    CapturedGraphKey_new ex_sort h 1 8 1 [mkInput "a" O; mkInput "b" O] = Ok key.
Proof.
  eexists. split; [vm_compute; reflexivity|].
  eapply (CapturedGraphKey_order ex_sort _ 1 8 1 [mkInput "b" O; mkInput "a" O]);
    [exact _|apply Permutation_swap| |vm_compute; reflexivity].
  by apply (bool_decide_unpack _).
Defined.

(** A model without the logits output: the exception leaves a graph without a
    key to the recycler. *)
Example reserve_exception : ReserveCapturedGraph ex_sort ex_heap Model_default (mkSessionInfo ∅ ∅) CUDA ex_params (mkPool [] 1) = Undef.
Proof. vm_compute. reflexivity. Qed.
End Examples.
