(* ===== verification/State.v ===== *)
(** * Model states (struct State of src/models/model.h and model.cpp) and the
      ownership of tensors

    A state holds the names and raw pointers it runs a session with; the tensors
    belong to the parts of the state.  The session is a parameter: from the run
    options, the inputs and the outputs it computes the new contents of the
    outputs.  [run_options] is the model's and shared by its states.  The second
    half is the bookkeeping of owned pointers that shows that no run sees a
    pointer to a destroyed tensor. *)
From Stdlib Require Import ZArith Lia.
From stdpp Require Import base numbers list strings gmap pretty.
From S2P Require Import Prelude Float32 Config Tensors Params GraphPool.
Local Open Scope Z_scope.

Record State := mkState {
  input_names_ : list string;
  output_names_ : list string;
  inputs_ : list (option ptr);
  outputs_ : list (option ptr);
  first_run_ : bool;
  current_batch_size_ : Z }.

Definition State_new : State := mkState [] [] [] [] true 0.

Definition push_input (name : string) (p : option ptr) (s : State) : State :=
  mkState (input_names_ s ++ [name]) (output_names_ s) (inputs_ s ++ [p]) (outputs_ s) (first_run_ s) (current_batch_size_ s).
Definition push_output (name : string) (p : option ptr) (s : State) : State :=
  mkState (input_names_ s) (output_names_ s ++ [name]) (inputs_ s) (outputs_ s ++ [p]) (first_run_ s) (current_batch_size_ s).
Definition set_input (i : nat) (p : option ptr) (s : State) : outcome State :=
  l ← put (inputs_ s) i p;
  Ok (mkState (input_names_ s) (output_names_ s) l (outputs_ s) (first_run_ s) (current_batch_size_ s)).
Definition set_output (i : nat) (p : option ptr) (s : State) : outcome State :=
  l ← put (outputs_ s) i p;
  Ok (mkState (input_names_ s) (output_names_ s) (inputs_ s) l (first_run_ s) (current_batch_size_ s)).
Definition set_run (first : bool) (b : Z) (s : State) : State :=
  mkState (input_names_ s) (output_names_ s) (inputs_ s) (outputs_ s) first b.

Definition ClearIO (s : State) : State := mkState [] [] [] [] (first_run_ s) (current_batch_size_ s).

(* [None]: there is no output of that name *)
Fixpoint GetOutput_from (names : list string) (outs : list (option ptr)) (name : string) : outcome (option ptr) :=
  match names, outs with
  | [], _ => Ok None
  | n :: names, o :: outs => if String.eqb n name then Ok o else GetOutput_from names outs name
  | _, [] => Undef
  end.
Definition GetOutput (name : string) (s : State) : outcome (option ptr) := GetOutput_from (output_names_ s) (outputs_ s) name.

Abbreviation run_options := (gmap string string) (only parsing).
Definition session : Type := run_options -> list (string * OrtValue) -> list (string * OrtValue) -> list (list Z).

(** What ONNX Runtime does with a tensor list: one result per output, as large
    as the output. *)
Class SessionLaw (f : session) : Prop :=
  session_results o ins outs : Forall2 (fun d '(_, t) => length d = element_count (shape t)) (f o ins outs) outs.

(* the tensors behind the pointers; a null or dangling pointer has none *)
Fixpoint read_io (h : heap) (names : list string) (ps : list (option ptr)) : outcome (list (string * OrtValue)) :=
  match names, ps with
  | [], _ => Ok []
  | n :: names, Some p :: ps => t ← deref h p; r ← read_io h names ps; Ok ((n, t) :: r)
  | _, _ => Undef
  end.

Fixpoint write_outputs (ps : list (option ptr)) (ds : list (list Z)) (h : heap) : outcome heap :=
  match ps, ds with
  | Some p :: ps, d :: ds => h ← set_data p d h; write_outputs ps ds h
  | _, [] => Ok h
  | _, _ => Undef
  end.

Definition session_Run (f : session) (o : run_options) (s : State) (h : heap) : outcome heap :=
  ins ← read_io h (input_names_ s) (inputs_ s);
  outs ← read_io h (output_names_ s) (outputs_ s);
  write_outputs (outputs_ s) (f o ins outs) h.

Definition gpu_graph_id : string := "gpu_graph_id".

(** [State::Run]: [graph] is what GetCapturedGraphInfo returns. *)
Definition State_Run (f : session) (p : GeneratorParams) (graph : option CapturedGraphInfo) (new_batch_size : Z)
    (o : run_options) (s : State) (h : heap) : outcome (run_options * State * heap) :=
  '((o, s) : run_options * State) ← (
    if first_run_ s then
      Ok (if use_cuda_graph p then <[gpu_graph_id := "-1"]> o else o, set_run false (current_batch_size_ s) s)
    else if use_cuda_graph p && negb (new_batch_size =? current_batch_size_ s) then
      match graph with
      | None => Undef
      | Some g =>
          annotation_id ← GenerateUniqueAnnotationID g new_batch_size;
          Ok (<[gpu_graph_id := pretty annotation_id]> o, set_run (first_run_ s) new_batch_size s)
      end
    else Ok (o, s));
  h ← session_Run f o s h;
  Ok (o, s, h).

(** ** Owned tensors *)
Definition live (h : heap) (ps : list ptr) : Prop :=
  heap_ok h ∧ NoDup ps ∧ Forall (fun p => is_Some (tensors h !! p)) ps.

(* the tensors behind a list of [unique_ptr]s *)
Definition own (l : list (option ptr)) : list ptr := omap id l.

(** From [h] to [h'] the owner of [ps] destroyed, kept or made tensors and owns
    [ps'] afterwards; tensors of others are as they were, nothing was destroyed
    twice, and no tensor was left without an owner. *)
Record replaces (h h' : heap) (ps ps' : list ptr) : Prop := {
  rp_next : (next_ptr h <= next_ptr h')%nat;
  rp_frame : ∀ p, p ∉ ps -> (p < next_ptr h)%nat -> tensors h' !! p = tensors h !! p;
  rp_new : ∀ p, p ∈ ps' -> p ∈ ps ∨ (next_ptr h <= p)%nat;
  rp_live : live h' ps';
  rp_once : double_frees h' = double_frees h;
  rp_leaks : ∀ p t, tensors h' !! p = Some t -> p ∈ ps' ∨ p ∉ ps ∧ is_Some (tensors h !! p) }.

Lemma live_lt h ps p : live h ps -> p ∈ ps -> (p < next_ptr h)%nat.
Proof.
  intros (Hok & _ & Hl) Hp. destruct (proj1 (Forall_forall _ _) Hl p Hp) as [t Ht]. by apply (Hok p t).
Qed.

Lemma live_perm h ps qs : ps ≡ₚ qs -> live h ps -> live h qs.
Proof. intros Hp (H1 & H2 & H3). split; [done|]. by rewrite Hp in H2, H3. Qed.

Lemma live_sub h ps qs : live h (ps ++ qs) -> live h ps.
Proof. intros (H1 & H2 & H3). apply NoDup_app in H2 as [? _]. apply Forall_app in H3 as [? _]. done. Qed.

Lemma live_sub_r h ps qs : live h (ps ++ qs) -> live h qs.
Proof. intros H. eapply live_sub, live_perm; [apply Permutation_app_comm|exact H]. Qed.

Lemma replaces_refl h ps : live h ps -> replaces h h ps ps.
Proof.
  intros H. split; try done; [by left|]. intros p t Ht. destruct (decide (p ∈ ps)); [by left|right]. by rewrite Ht.
Qed.

(** The owner of other tensors still has them. *)
Lemma replaces_live h h' ps ps' qs : replaces h h' ps ps' -> live h (ps ++ qs) -> live h' (ps' ++ qs).
Proof.
  intros [Hn Hf Hnew (Hok & Hnd & Hl) _ _] Hlive. pose proof Hlive as (Hok0 & Hnd0 & Hl0).
  apply NoDup_app in Hnd0 as (_ & Hdisj & Hndq). apply Forall_app in Hl0 as [_ Hlq].
  assert (∀ q, q ∈ qs -> (q < next_ptr h)%nat ∧ q ∉ ps) as Hq.
  { intros q Hq. split; [eapply live_lt; [exact Hlive|]; apply elem_of_app; by right|].
    intros Hin. by apply (Hdisj q). }
  split; [done|]. split.
  - apply NoDup_app. split; [done|]. split; [|done]. intros p Hp Hpq. destruct (Hq p Hpq) as [H1 H2].
    destruct (Hnew p Hp); [done|lia].
  - apply Forall_app. split; [done|]. apply Forall_forall. intros q Hin. destruct (Hq q Hin) as [H1 H2].
    rewrite Hf by done. by apply (proj1 (Forall_forall _ _) Hlq).
Qed.

Lemma replaces_keeps h h' ps ps' qs q : replaces h h' ps ps' -> live h (ps ++ qs) -> q ∈ qs ->
  tensors h' !! q = tensors h !! q.
Proof.
  intros [Hn Hf _ _ _ _] Hlive Hq. pose proof Hlive as (_ & Hnd & _). apply NoDup_app in Hnd as (_ & Hdisj & _).
  apply Hf; [intros Hin; by apply (Hdisj q)|]. eapply live_lt; [exact Hlive|]. apply elem_of_app. by right.
Qed.

Lemma replaces_trans h1 h2 h3 ps1 ps2 ps3 :
  replaces h1 h2 ps1 ps2 -> replaces h2 h3 ps2 ps3 -> replaces h1 h3 ps1 ps3.
Proof.
  intros [A1 A2 A3 A4 A5 A6] [B1 B2 B3 B4 B5 B6]. split; [lia| | |done|congruence|].
  - intros p Hp Hlt. rewrite B2; [by apply A2| |lia]. intros Hin. destruct (A3 p Hin); [done|lia].
  - intros p Hp. destruct (B3 p Hp) as [Hin|]; [destruct (A3 p Hin); [by left|by right]|right; lia].
  - intros p t Ht. destruct (B6 p t Ht) as [|[Hp [u Hu]]]; [by left|]. destruct (A6 p u Hu) as [|?]; [done|by right].
Qed.

(** A part of the owned tensors changes, the rest stays. *)
Lemma replaces_app h h' ps ps' qs : replaces h h' ps ps' -> live h (ps ++ qs) -> replaces h h' (ps ++ qs) (ps' ++ qs).
Proof.
  intros Hr Hl. pose proof Hr as [A1 A2 A3 A4 A5 A6]. split; [done| | |by eapply replaces_live|done|].
  - intros p Hp Hlt. apply A2; [|done]. intros Hin. apply Hp, elem_of_app. by left.
  - intros p [Hp|Hp]%elem_of_app; [destruct (A3 p Hp); [left; apply elem_of_app; by left|by right]|].
    left. apply elem_of_app. by right.
  - intros p t Ht. rewrite !elem_of_app. destruct (A6 p t Ht) as [|[Hp Hs]]; [by left; left|].
    destruct (decide (p ∈ qs)); [left; by right|right]. split; [by intros [|]|done].
Qed.

Lemma replaces_perm h h' ps ps' qs qs' : ps ≡ₚ qs -> ps' ≡ₚ qs' -> replaces h h' ps ps' -> replaces h h' qs qs'.
Proof.
  intros Hp Hp' [A1 A2 A3 A4 A5 A6]. split; [done| | |by eapply live_perm|done|].
  - intros p. rewrite <- Hp. apply A2.
  - intros p. rewrite <- Hp, <- Hp'. apply A3.
  - intros p t Ht. rewrite <- Hp, <- Hp'. by eapply A6.
Qed.

(** One of several owned tensors is replaced; a tensor is made next to others. *)
Lemma replaces_at h h' q qs l1 l2 : replaces h h' [q] qs -> live h (l1 ++ q :: l2) ->
  replaces h h' (l1 ++ q :: l2) (l1 ++ qs ++ l2) ∧ (∀ r, r ∈ l1 ++ l2 -> tensors h' !! r = tensors h !! r).
Proof.
  intros R Hl. assert (live h ([q] ++ l1 ++ l2)) as Hl'.
  { eapply live_perm; [symmetry; apply (Permutation_middle l1 l2 q)|exact Hl]. }
  split; [|intros r; by apply (replaces_keeps _ _ _ _ _ _ R Hl')].
  eapply replaces_perm; [| |exact (replaces_app _ _ _ _ (l1 ++ l2) R Hl')]; [apply (Permutation_middle l1 l2 q)|].
  rewrite !app_assoc. apply Permutation_app_tail, Permutation_app_comm.
Qed.

Lemma replaces_new h h' q l : replaces h h' [] [q] -> live h l ->
  replaces h h' l (q :: l) ∧ (∀ r, r ∈ l -> tensors h' !! r = tensors h !! r).
Proof.
  intros R Hl. split; [by apply (replaces_app _ _ [] [q] l)|]. intros r Hr. by eapply (replaces_keeps h h' [] [q] l).
Qed.

(** *** The operations on tensors *)
Lemma CreateTensor_replaces h sh ty h' p : heap_ok h -> CreateTensor sh ty h = (h', p) ->
  replaces h h' [] [p] ∧ p = next_ptr h ∧
  ∃ d, tensors h' !! p = Some (mkOrt ty sh d) ∧ length d = element_count sh.
Proof.
  intros Hok. unfold CreateTensor. intros [= <- <-]. set (d := map _ _).
  assert (length d = element_count sh) as Hd by (unfold d; by rewrite length_map, length_seq).
  split; [|split; [done|exists d; simpl; by rewrite lookup_insert_eq]]. split; simpl; [lia| | | |done|].
  - intros p _ Hlt. rewrite lookup_insert_ne by lia. done.
  - intros p ->%list_elem_of_singleton. right. lia.
  - split; [|split; [apply NoDup_singleton|]].
    + intros q u. simpl. intros [[<- <-]|[_ H]]%lookup_insert_Some; simpl; [split; [lia|done]|].
      destruct (Hok q u H). split; [lia|done].
    + apply Forall_singleton. simpl. rewrite lookup_insert_eq. eauto.
  - intros q u [[<- _]|[_ H]]%lookup_insert_Some; [left; by left|right]. split; [apply not_elem_of_nil|by rewrite H].
Qed.

(** [CreateTensor_replaces] in existential form. *)
Lemma make_tensor h sh ty : heap_ok h -> ∃ h' q d, CreateTensor sh ty h = (h', q) ∧
  replaces h h' [] [q] ∧ tensors h' !! q = Some (mkOrt ty sh d) ∧ length d = element_count sh.
Proof.
  intros Hok. destruct (CreateTensor sh ty h) as [h' q] eqn:E.
  destruct (CreateTensor_replaces _ _ _ _ _ Hok E) as (R & _ & d & T & Hd). eauto 10.
Qed.

Lemma new_tensor_replaces h t : heap_ok h -> length (data t) = element_count (shape t) ->
  replaces h (new_tensor t h).1 [] [(new_tensor t h).2] ∧ tensors (new_tensor t h).1 !! (new_tensor t h).2 = Some t.
Proof.
  intros Hok Hd. unfold new_tensor. simpl. split; [|by rewrite lookup_insert_eq]. split; simpl; [lia| | | |done|].
  - intros p _ Hlt. by rewrite lookup_insert_ne by lia.
  - intros p ->%list_elem_of_singleton. right. lia.
  - split; [|split; [apply NoDup_singleton|]].
    + intros q u. simpl. intros [[<- <-]|[_ H]]%lookup_insert_Some; simpl; [split; [lia|done]|].
      destruct (Hok q u H). split; [lia|done].
    + apply Forall_singleton. simpl. rewrite lookup_insert_eq. eauto.
  - intros q u [[<- _]|[_ H]]%lookup_insert_Some; [left; by left|right]. split; [apply not_elem_of_nil|by rewrite H].
Qed.

Lemma free_replaces h p : live h [p] -> replaces h (free (Some p) h) [p] [].
Proof.
  intros (Hok & _ & Hp). apply (proj1 (Forall_singleton _ _)) in Hp. destruct Hp as [t0 Ht]. split; simpl; [lia| |by intros q ?%not_elem_of_nil| |by rewrite Ht|].
  - intros q Hq _. apply lookup_delete_ne. intros ->. apply Hq. by left.
  - split; [|split; constructor]. intros q t. simpl. intros [_ H]%lookup_delete_Some. by apply Hok.
  - intros q u [Hq H]%lookup_delete_Some. right. split; [by intros ?%list_elem_of_singleton|by rewrite H].
Qed.

(** A tensor is destroyed after others were made. *)
Lemma replaces_free h h' rs rs' p : live h (p :: rs) -> replaces h h' rs rs' ->
  replaces h (free (Some p) h') (p :: rs) rs'.
Proof.
  intros Hl R. assert (live h (rs ++ [p])) as Hl' by (eapply live_perm; [apply Permutation_cons_append|exact Hl]).
  pose proof (replaces_app _ _ _ _ [p] R Hl') as R1.
  assert (live h' (p :: rs')) as Hl1 by (eapply live_perm; [symmetry; apply Permutation_cons_append|apply R1]).
  pose proof (replaces_app _ _ _ _ rs' (free_replaces h' p (live_sub _ [p] rs' Hl1)) Hl1) as R2.
  eapply replaces_trans; [|exact R2].
  eapply replaces_perm; [| |exact R1]; symmetry; apply Permutation_cons_append.
Qed.

Lemma set_data_replaces h p d t : live h [p] -> tensors h !! p = Some t -> length d = element_count (shape t) ->
  ∃ h', set_data p d h = Ok h' ∧ replaces h h' [p] [p] ∧
        tensors h' !! p = Some (mkOrt (element_type t) (shape t) d).
Proof.
  intros Hl Ht Hd. pose proof Hl as (Hok & _ & _). unfold set_data. rewrite (deref_Some _ _ _ Ht), bind_Ok.
  eexists. split; [reflexivity|]. simpl. rewrite lookup_insert_eq. split; [|done]. split; simpl; [lia| |by left| |done|].
  - intros q Hq _. rewrite lookup_insert_ne; [done|]. intros ->. apply Hq. by left.
  - split; [apply store_ok; [done|by apply (Hok p t)|done]|]. split; [apply NoDup_singleton|].
    apply Forall_singleton. simpl. rewrite lookup_insert_eq. eauto.
  - intros q u [[<- _]|[Hne H]]%lookup_insert_Some; [left; by left|right].
    split; [by intros ->%list_elem_of_singleton|by rewrite H].
Qed.

Lemma set_data_frame p d h h' q : set_data p d h = Ok h' -> q ≠ p -> tensors h' !! q = tensors h !! q.
Proof. unfold set_data. intros E Hq. apply bind_Ok_inv in E as (t & _ & [= <-]). by apply lookup_insert_ne. Qed.

(** A part of the owned tensors is replaced in its place. *)
Lemma replaces_mid h h' xs xs' l1 l2 : replaces h h' xs xs' -> live h (l1 ++ xs ++ l2) ->
  replaces h h' (l1 ++ xs ++ l2) (l1 ++ xs' ++ l2) ∧ (∀ r, r ∈ l1 ++ l2 -> tensors h' !! r = tensors h !! r).
Proof.
  intros R Hl. assert (∀ l, xs ++ l1 ++ l ≡ₚ l1 ++ xs ++ l) as P.
  { intros l. rewrite !app_assoc. apply Permutation_app_tail, Permutation_app_comm. }
  assert (∀ l, xs' ++ l1 ++ l ≡ₚ l1 ++ xs' ++ l) as P'.
  { intros l. rewrite !app_assoc. apply Permutation_app_tail, Permutation_app_comm. }
  assert (live h (xs ++ l1 ++ l2)) as Hl' by (eapply live_perm; [symmetry; apply P|exact Hl]).
  split; [|intros r; by apply (replaces_keeps _ _ _ _ _ _ R Hl')].
  eapply replaces_perm; [apply P|apply P'|exact (replaces_app _ _ _ _ (l1 ++ l2) R Hl')].
Qed.

(** *** Several owners *)
Lemma live_part h parts i ps : live h (concat parts) -> parts !! i = Some ps -> live h ps.
Proof.
  intros Hl Hi. rewrite <- (take_drop_middle parts i ps Hi), concat_app in Hl. simpl in Hl.
  apply live_sub_r in Hl. by apply live_sub in Hl.
Qed.

Lemma parts_disjoint h parts i j a b r : live h (concat parts) -> i ≠ j -> parts !! i = Some a -> parts !! j = Some b ->
  r ∈ a -> r ∉ b.
Proof.
  intros (_ & Hnd & _). revert i j. induction parts as [|x parts IH]; intros i j Hij Hi Hj Ha Hb; [done|].
  simpl in Hnd. apply NoDup_app in Hnd as (_ & Hd & Hnd).
  assert (∀ k c, parts !! k = Some c -> r ∈ c -> r ∈ concat parts) as Hin.
  { intros k c Hk Hc. apply list_elem_of_In, in_concat. exists c. split; apply list_elem_of_In; [by eapply list_elem_of_lookup_2|done]. }
  destruct i as [|i], j as [|j]; simpl in Hi, Hj; [done| | |by apply (IH Hnd i j); auto].
  - injection Hi as ->. apply (Hd r Ha). by eapply Hin.
  - injection Hj as ->. apply (Hd r Hb). by eapply Hin.
Qed.

Lemma part_in parts i (a : list ptr) : parts !! i = Some a -> a ⊆ concat parts.
Proof.
  intros Hi r Hr. apply list_elem_of_In, in_concat. exists a. split; apply list_elem_of_In; [by eapply list_elem_of_lookup_2|done].
Qed.

Lemma replaces_part h h' parts i ps ps' : live h (concat parts) -> replaces h h' ps ps' -> parts !! i = Some ps ->
  replaces h h' (concat parts) (concat (<[i := ps']> parts)) ∧
  (∀ j l r, j ≠ i -> parts !! j = Some l -> r ∈ l -> tensors h' !! r = tensors h !! r).
Proof.
  intros Hl R Hi. pose proof (lookup_lt_Some _ _ _ Hi) as Hlt.
  assert (∀ x, concat (take i parts ++ x :: drop (S i) parts) = concat (take i parts) ++ x ++ concat (drop (S i) parts)) as Hc
    by (intros x; by rewrite concat_app).
  pose proof Hl as Hl'. rewrite <- (take_drop_middle parts i ps Hi), Hc in Hl'. rewrite insert_take_drop, Hc by done.
  destruct (replaces_mid _ _ _ _ _ _ R Hl') as [R' K]. rewrite <- Hc, take_drop_middle in R' by done. split; [done|].
  intros j l r Hj Hl2 Hr. apply K, elem_of_app.
  assert (∀ k q, q !! k = Some l -> r ∈ concat q) as Hin.
  { intros k q Hk. apply list_elem_of_In, in_concat. exists l. split; apply list_elem_of_In; [by eapply list_elem_of_lookup_2|done]. }
  destruct (decide (j < i)%nat).
  - left. apply (Hin j). by rewrite lookup_take_lt.
  - right. apply (Hin (j - S i)%nat). rewrite lookup_drop. by replace (S i + (j - S i))%nat with j by lia.
Qed.

(** An owned tensor gives way to a new one. *)
Lemma replaces_with h h' q v l1 l2 : live h (l1 ++ q :: l2) -> replaces h h' [] [v] ->
  replaces h (free (Some q) h') (l1 ++ q :: l2) (l1 ++ v :: l2) ∧
  tensors (free (Some q) h') !! v = tensors h' !! v ∧
  (∀ r, r ∈ l1 ++ l2 -> tensors (free (Some q) h') !! r = tensors h !! r).
Proof.
  intros Hl R. assert (live h (q :: l1 ++ l2)) as Hl1.
  { eapply live_perm; [symmetry; apply (Permutation_middle l1 l2 q)|exact Hl]. }
  pose proof (live_sub_r h [q] (l1 ++ l2) Hl1) as Hl2.
  destruct (replaces_new _ _ _ _ R Hl2) as [R1 K1].
  pose proof (replaces_free _ _ _ _ q Hl1 R1) as R2.
  assert (v ∉ q :: l1 ++ l2) as Hv.
  { intros Hin. destruct (rp_new _ _ _ _ R v ltac:(by left)) as [?%not_elem_of_nil|Hge]; [done|].
    pose proof (live_lt _ _ _ Hl1 Hin). lia. }
  split; [eapply replaces_perm; [apply (Permutation_middle l1 l2 q)|apply (Permutation_middle l1 l2 v)|exact R2]|].
  simpl. split; [apply lookup_delete_ne; set_solver|].
  intros r Hr. rewrite lookup_delete_ne; [by apply K1|]. intros <-.
  destruct Hl1 as (_ & Hnd & _). by apply NoDup_cons in Hnd as [? _].
Qed.

Lemma live_at h l1 l2 q : live h (l1 ++ q :: l2) -> live h [q].
Proof. intros H. apply (live_sub _ [q] (l1 ++ l2)). eapply live_perm; [symmetry; apply (Permutation_middle l1 l2 q)|exact H]. Qed.

Lemma set_data_at h q d t l1 l2 : live h (l1 ++ q :: l2) -> tensors h !! q = Some t -> length d = element_count (shape t) ->
  ∃ h', set_data q d h = Ok h' ∧ replaces h h' (l1 ++ q :: l2) (l1 ++ q :: l2) ∧
    tensors h' !! q = Some (mkOrt (element_type t) (shape t) d) ∧
    (∀ r, r ∈ l1 ++ l2 -> tensors h' !! r = tensors h !! r).
Proof.
  intros Hl Ht Hd. destruct (set_data_replaces h q d t (live_at _ _ _ _ Hl) Ht Hd) as (h' & E & R & T).
  destruct (replaces_at _ _ _ _ _ _ R Hl) as [R' K]. eauto 10.
Qed.

(** ** Segments of the pointer lists *)
Definition with_inputs (l : list (option ptr)) (s : State) : State :=
  mkState (input_names_ s) (output_names_ s) l (outputs_ s) (first_run_ s) (current_batch_size_ s).
Definition with_outputs (l : list (option ptr)) (s : State) : State :=
  mkState (input_names_ s) (output_names_ s) (inputs_ s) l (first_run_ s) (current_batch_size_ s).

Lemma with_inputs_id s l : inputs_ s = l -> with_inputs l s = s.
Proof. intros <-. by destruct s. Qed.
Lemma with_outputs_id s l : outputs_ s = l -> with_outputs l s = s.
Proof. intros <-. by destruct s. Qed.

Lemma set_input_seg s pre o post i v : inputs_ s = pre ++ o :: post -> i = length pre ->
  set_input i v s = Ok (with_inputs (pre ++ v :: post) s).
Proof.
  intros E ->. unfold set_input. by rewrite E, put_middle.
Qed.
Lemma set_output_seg s pre o post i v : outputs_ s = pre ++ o :: post -> i = length pre ->
  set_output i v s = Ok (with_outputs (pre ++ v :: post) s).
Proof.
  intros E ->. unfold set_output. by rewrite E, put_middle.
Qed.

Lemma set_input_at s pre m post i v : inputs_ s = pre ++ m ++ post -> (i < length m)%nat ->
  set_input (length pre + i) v s = Ok (with_inputs (pre ++ <[i := v]> m ++ post) s).
Proof. intros E Hi. unfold set_input. by rewrite E, put_seg. Qed.
Lemma set_output_at s pre m post i v : outputs_ s = pre ++ m ++ post -> (i < length m)%nat ->
  set_output (length pre + i) v s = Ok (with_outputs (pre ++ <[i := v]> m ++ post) s).
Proof. intros E Hi. unfold set_output. by rewrite E, put_seg. Qed.

(** *** Pushing whole lists *)
Definition push_inputs (names : list string) (l : list (option ptr)) (s : State) : State :=
  mkState (input_names_ s ++ names) (output_names_ s) (inputs_ s ++ l) (outputs_ s) (first_run_ s) (current_batch_size_ s).
Definition push_outputs (names : list string) (l : list (option ptr)) (s : State) : State :=
  mkState (input_names_ s) (output_names_ s ++ names) (inputs_ s) (outputs_ s ++ l) (first_run_ s) (current_batch_size_ s).

Lemma push_inputs_loop n names (l : list (option ptr)) s : length names = n -> length l = n ->
  for_ n (fun i s => v ← get l i; name ← get names i; Ok (push_input name v s)) s = Ok (push_inputs names l s).
Proof.
  intros Ln Ll. match goal with |- for_ n ?f s = _ =>
    destruct (for_inv (fun i s1 => s1 = push_inputs (take i names) (take i l) s) n f s) as (s1 & -> & ->) end.
  - unfold push_inputs. rewrite !take_0, !app_nil_r. by destruct s.
  - intros i s1 Hi ->. destruct (lookup_lt_is_Some_2 l i) as [a Ea]; [lia|].
    destruct (lookup_lt_is_Some_2 names i) as [b Eb]; [lia|]. rewrite (get_Some _ _ _ Ea), bind_Ok, (get_Some _ _ _ Eb), bind_Ok.
    eexists. split; [reflexivity|]. unfold push_inputs, push_input. simpl. by rewrite (take_S_r _ _ _ Ea), (take_S_r _ _ _ Eb), !app_assoc.
  - by rewrite !take_ge by lia.
Qed.

Lemma push_outputs_loop n names (l : list (option ptr)) s : length names = n -> length l = n ->
  for_ n (fun i s => v ← get l i; name ← get names i; Ok (push_output name v s)) s = Ok (push_outputs names l s).
Proof.
  intros Ln Ll. match goal with |- for_ n ?f s = _ =>
    destruct (for_inv (fun i s1 => s1 = push_outputs (take i names) (take i l) s) n f s) as (s1 & -> & ->) end.
  - unfold push_outputs. rewrite !take_0, !app_nil_r. by destruct s.
  - intros i s1 Hi ->. destruct (lookup_lt_is_Some_2 l i) as [a Ea]; [lia|].
    destruct (lookup_lt_is_Some_2 names i) as [b Eb]; [lia|]. rewrite (get_Some _ _ _ Ea), bind_Ok, (get_Some _ _ _ Eb), bind_Ok.
    eexists. split; [reflexivity|]. unfold push_outputs, push_output. simpl. by rewrite (take_S_r _ _ _ Ea), (take_S_r _ _ _ Eb), !app_assoc.
  - by rewrite !take_ge by lia.
Qed.

(** *** Lists of unique pointers *)
Lemma own_split l i o : l !! i = Some o ->
  ∃ R, own l ≡ₚ own [o] ++ R ∧ (∀ v, own (<[i := v]> l) ≡ₚ own [v] ++ R) ∧
    (∀ j q, j ≠ i -> l !! j = Some (Some q) -> q ∈ R).
Proof.
  intros Hi. exists (own (take i l) ++ own (drop (S i) l)).
  assert (∀ l1 l2, own (l1 ++ l2) = own l1 ++ own l2) as Happ by (intros; apply omap_app).
  assert (∀ v, own (take i l ++ v :: drop (S i) l) ≡ₚ own [v] ++ own (take i l) ++ own (drop (S i) l)) as Hmid.
  { intros v. change (v :: drop (S i) l) with ([v] ++ drop (S i) l). rewrite !Happ, !app_assoc. apply Permutation_app_tail, Permutation_app_comm. }
  split; [|split].
  - rewrite <- (take_drop_middle l i o Hi) at 1. apply Hmid.
  - intros v. rewrite insert_take_drop by (by eapply lookup_lt_Some). apply Hmid.
  - intros j q Hj Hq. apply elem_of_app. destruct (decide (j < i)%nat).
    + left. apply list_elem_of_omap. exists (Some q). split; [|done]. apply list_elem_of_lookup. exists j. by rewrite lookup_take_lt.
    + right. apply list_elem_of_omap. exists (Some q). split; [|done]. apply list_elem_of_lookup. exists (j - S i)%nat.
      rewrite lookup_drop. by replace (S i + (j - S i))%nat with j by lia.
Qed.

Lemma elem_of_own l i q : l !! i = Some (Some q) -> q ∈ own l.
Proof. intros H. apply list_elem_of_omap. exists (Some q). split; [by eapply list_elem_of_lookup_2|done]. Qed.

(** A new tensor is assigned to a pointer, which may be null. *)
Lemma replaces_own h h1 o v R : live h (own [o] ++ R) -> replaces h h1 [] [v] ->
  replaces h (free o h1) (own [o] ++ R) (v :: R) ∧ tensors (free o h1) !! v = tensors h1 !! v ∧
  (∀ r, r ∈ R -> tensors (free o h1) !! r = tensors h !! r).
Proof.
  intros Hl R1. destruct o as [q|].
  - apply (replaces_with h h1 q v [] R Hl R1).
  - destruct (replaces_new _ _ _ _ R1 Hl) as [R2 K]. done.
Qed.

(** A pointer moves to another, whose tensor is destroyed. *)
Lemma free_own h o R : live h (own [o] ++ R) ->
  replaces h (free o h) (own [o] ++ R) R ∧ (∀ r, r ∈ R -> tensors (free o h) !! r = tensors h !! r).
Proof.
  destruct o as [q|]; intros Hl; simpl; [|by split; [apply replaces_refl|]].
  split; [by apply replaces_free, replaces_refl; [|apply (live_sub_r h [q])]|].
  intros r Hr. apply lookup_delete_ne. intros <-. destruct Hl as (_ & Hnd & _). by apply NoDup_cons in Hnd as [? _].
Qed.

(** *** ExpandInputs: the owner's tensor is replaced by the expanded one *)
Lemma expanded_rows_1 d w b : length d = (b * w)%nat -> expanded_rows d w b 1 = d.
Proof.
  intros Hd. unfold expanded_rows.
  transitivity (take (b * w) d); [|by rewrite take_ge by lia].
  assert (∀ k, (k <= b)%nat -> concat (map (fun i => concat (replicate 1 (tensor_row d w i))) (seq 0 k)) = take (k * w) d) as H.
  { induction k as [|k IH]; intros Hk; [done|]. rewrite seq_S, map_app, concat_app, IH by lia. simpl.
    rewrite !app_nil_r. unfold tensor_row. replace (w + k * w)%nat with (k * w + w)%nat by lia.
    by rewrite take_take_drop. }
  by apply H.
Qed.

Lemma ExpandInputs_replaces h p ty b rest d nb :
  live h [p] -> tensors h !! p = Some (mkOrt ty (b :: rest) d) -> b ≠ O -> (∃ n, SizeOf ty = Ok n) ->
  ∃ h' q, ExpandInputs CPU p nb h = Ok (h', q) ∧ replaces h h' [p] [q] ∧
    tensors h' !! q = Some (mkOrt ty ((b * nb)%nat :: rest) (expanded_rows d (element_count rest) b nb)).
Proof.
  intros Hl Ht Hb Hn. pose proof Hl as (Hok & _ & _). destruct (Hok _ _ Ht) as [Hlt Hd]. simpl in Hd.
  rewrite (ExpandInputs_eq h p (mkOrt ty (b :: rest) d) b rest nb) by done. simpl.
  case_decide as Hnb.
  - subst nb. exists h, p. split; [done|]. split; [by apply replaces_refl|].
    by rewrite Ht, Nat.mul_1_r, expanded_rows_1.
  - eexists _, _. split; [reflexivity|]. simpl.
    set (u := mkOrt _ _ _).
    assert (tensors h !! p ≠ None) as Hp by congruence.
    assert (p ≠ next_ptr h) as Hne by lia. split; [|by rewrite lookup_delete_ne, lookup_insert_eq].
    split; simpl; [lia| | | |done|].
    + intros q Hq Hql. rewrite lookup_delete_ne by (intros ->; apply Hq; by left). by rewrite lookup_insert_ne by lia.
    + intros q ->%list_elem_of_singleton. right. lia.
    + split; [|split; [apply NoDup_singleton|]].
      * intros q t. simpl. rewrite lookup_delete_Some, lookup_insert_Some. intros [_ [[<- <-]|[_ H]]].
        -- split; [simpl; lia|]. unfold u. simpl. rewrite length_expanded_rows with (b := b) by lia. done.
        -- destruct (Hok q t H). simpl. split; [lia|done].
      * apply Forall_singleton. simpl. rewrite lookup_delete_ne, lookup_insert_eq by done. eauto.
    + intros q t [Hq [[<- _]|[_ H]]%lookup_insert_Some]%lookup_delete_Some; [left; by left|right].
      split; [by intros ?%list_elem_of_singleton|by rewrite H].
Qed.

Lemma ExpandInputs_at h p ty b rest d nb l1 l2 :
  live h (l1 ++ p :: l2) -> tensors h !! p = Some (mkOrt ty (b :: rest) d) -> b ≠ O -> (∃ n, SizeOf ty = Ok n) ->
  ∃ h' q, ExpandInputs CPU p nb h = Ok (h', q) ∧ replaces h h' (l1 ++ p :: l2) (l1 ++ q :: l2) ∧
    tensors h' !! q = Some (mkOrt ty ((b * nb)%nat :: rest) (expanded_rows d (element_count rest) b nb)) ∧
    (∀ r, r ∈ l1 ++ l2 -> tensors h' !! r = tensors h !! r).
Proof.
  intros Hl Ht Hb Hn. destruct (ExpandInputs_replaces h p ty b rest d nb (live_at _ _ _ _ Hl) Ht Hb Hn) as (h' & q & E & R & T).
  destruct (replaces_at _ _ _ _ _ _ R Hl) as [R' K]. eauto 10.
Qed.

(** ** Running a session *)
Definition owned_ptrs (ps : list ptr) (l : list (option ptr)) : Prop := Forall (fun o => ∃ p, o = Some p ∧ p ∈ ps) l.

Lemma owned_mono ps qs l : ps ⊆ qs -> owned_ptrs ps l -> owned_ptrs qs l.
Proof. intros H Ho. eapply Forall_impl; [exact Ho|]. intros o (q & E & Hq). exists q. split; [done|by apply H]. Qed.

(** The lists of a state: one pointer per name, all to tensors of [ps]. *)
Record io_ok (ps : list ptr) (s : State) : Prop := {
  io_inputs : owned_ptrs ps (inputs_ s);
  io_outputs : owned_ptrs ps (outputs_ s);
  io_input_names : length (input_names_ s) = length (inputs_ s);
  io_output_names : length (output_names_ s) = length (outputs_ s) }.

(** A list of pointers to tensors that are owned one by one. *)
Lemma own_distinct h ps l rest : live h ps -> Forall is_Some l -> own l ++ rest ⊆+ ps ->
  NoDup l ∧ owned_ptrs ps l ∧ ∀ r, r ∈ rest -> Some r ∉ l.
Proof.
  intros (_ & Hnd & _) Hs Hsub.
  assert (NoDup (own l ++ rest)) as Hn.
  { destruct (submseteq_Permutation _ _ Hsub) as [k Hk]. rewrite Hk in Hnd. by apply NoDup_app in Hnd as [? _]. }
  apply NoDup_app in Hn as (Hn & Hdisj & _). assert (∀ q, Some q ∈ l -> q ∈ own l) as Hin.
  { intros q Hq. apply list_elem_of_omap. by exists (Some q). }
  split; [|split].
  - clear Hsub Hdisj Hin. induction Hs as [|o l [q ->] _ IH]; [constructor|]. simpl in Hn. apply NoDup_cons in Hn as [Hq Hn].
    apply NoDup_cons. split; [|by apply IH]. intros Hin. apply Hq, list_elem_of_omap. by exists (Some q).
  - apply Forall_forall. intros o Ho. destruct (proj1 (Forall_forall _ _) Hs o Ho) as [q ->]. exists q. split; [done|].
    eapply elem_of_submseteq; [|exact Hsub]. apply elem_of_app. left. by apply Hin.
  - intros r Hr Ho. by apply (Hdisj r (Hin r Ho)).
Qed.

Lemma owned_some ps l : owned_ptrs ps l -> Forall is_Some l.
Proof. intros H. eapply Forall_impl; [exact H|]. intros o (q & -> & _). by exists q. Qed.

Lemma read_io_live h ps names l : live h ps -> owned_ptrs ps l -> length names = length l ->
  ∃ r, read_io h names l = Ok r ∧ map fst r = names ∧
       Forall2 (fun o '(_, t) => ∃ p, o = Some p ∧ tensors h !! p = Some t) l r.
Proof.
  intros (_ & _ & Hl) Ho. revert names. induction Ho as [|o l (p & -> & Hp) _ IH]; intros [|n names] Hlen; try done.
  - exists []. split; [done|split; [done|constructor]].
  - destruct (proj1 (Forall_forall _ _) Hl p Hp) as [t Ht]. simpl.
    rewrite (deref_Some _ _ _ Ht), bind_Ok. destruct (IH names) as (r & -> & Hn & Hr); [by injection Hlen|].
    rewrite bind_Ok. eexists. split; [done|]. split; [simpl; by rewrite Hn|]. constructor; [eauto|done].
Qed.

Lemma read_io_names h : ∀ names l r, read_io h names l = Ok r -> map fst r = names.
Proof.
  induction names as [|a names IH]; intros l r E; [by injection E as <-|].
  destruct l as [|[b|] l]; try done. simpl in E. inv_ok. simpl. f_equal. by eapply IH.
Qed.

Lemma read_io_lookup h : ∀ names l r i n q t, read_io h names l = Ok r -> names !! i = Some n -> l !! i = Some (Some q) ->
  tensors h !! q = Some t -> r !! i = Some (n, t).
Proof.
  induction names as [|a names IH]; intros l r i n q t E Hn Hq Ht; [done|].
  destruct l as [|[b|] l]; try done. simpl in E. destruct i as [|i]; simpl in Hn, Hq.
  - injection Hn as ->. injection Hq as ->. rewrite (deref_Some _ _ _ Ht), bind_Ok in E. inv_ok. done.
  - inv_ok. simpl. by eapply IH.
Qed.

(* the shapes and types of the tensors do not change *)
Definition same_kinds (h h' : heap) : Prop :=
  ∀ p t, tensors h !! p = Some t -> ∃ d, tensors h' !! p = Some (mkOrt (element_type t) (shape t) d).

(* the tensors of [ps] keep their shapes and types; they keep their contents too *)
Definition kinds_on (ps : list ptr) (h h' : heap) : Prop :=
  ∀ p t, p ∈ ps -> tensors h !! p = Some t -> ∃ d, tensors h' !! p = Some (mkOrt (element_type t) (shape t) d).
Definition kept (ps : list ptr) (h h' : heap) : Prop := ∀ p, p ∈ ps -> tensors h' !! p = tensors h !! p.

Lemma read_io_kept ps h h' names : kept ps h h' -> ∀ l, owned_ptrs ps l -> read_io h' names l = read_io h names l.
Proof.
  intros Hk. induction names as [|n names IH]; intros l Hl; [done|]. destruct Hl as [|o l (q & -> & Hq) Hl]; [done|].
  cbn [read_io]. unfold deref. by rewrite (Hk q Hq), (IH l Hl).
Qed.

Lemma kept_kinds ps h h' : kept ps h h' -> kinds_on ps h h'.
Proof. intros H p t Hp Ht. exists (data t). rewrite H, Ht by done. by destruct t. Qed.

Lemma same_kinds_on ps h h' : same_kinds h h' -> kinds_on ps h h'.
Proof. intros H p t _. apply H. Qed.

Lemma same_kinds_refl h : same_kinds h h.
Proof. intros p t Ht. exists (data t). rewrite Ht. by destruct t. Qed.

Lemma write_outputs_live ps outs : ∀ h ds, live h ps -> owned_ptrs ps outs ->
  Forall2 (fun o d => ∃ p t, o = Some p ∧ tensors h !! p = Some t ∧ length d = element_count (shape t)) outs ds ->
  ∃ h', write_outputs outs ds h = Ok h' ∧ replaces h h' ps ps ∧ same_kinds h h' ∧
    (∀ p, Some p ∉ outs -> tensors h' !! p = tensors h !! p) ∧
    (NoDup outs -> ∀ i p d, outs !! i = Some (Some p) -> ds !! i = Some d -> data <$> tensors h' !! p = Some d).
Proof.
  induction outs as [|o outs IH]; intros h ds Hl Ho H2.
  - apply Forall2_nil_inv_l in H2 as ->. exists h. split; [done|]. split; [by apply replaces_refl|].
    split; [apply same_kinds_refl|]. done.
  - apply Forall2_cons_inv_l in H2 as (d & ds' & (p & t & -> & Ht & Hd) & H2 & ->).
    apply Forall_cons in Ho as [(p' & [= <-] & Hp) Ho]. simpl.
    apply list_elem_of_split in Hp as (l1 & l2 & ->).
    assert (live h ([p] ++ l1 ++ l2)) as Hl' by (eapply live_perm; [symmetry; apply (Permutation_middle l1 l2 p)|exact Hl]).
    destruct (set_data_replaces h p d t) as (h1 & E1 & R1 & Hp1); [by eapply live_sub|done|done|].
    rewrite E1, bind_Ok.
    assert (replaces h h1 (l1 ++ p :: l2) (l1 ++ p :: l2)) as R1'.
    { eapply replaces_perm; [apply (Permutation_middle l1 l2 p)|apply (Permutation_middle l1 l2 p)|]. by apply (replaces_app h h1 [p] [p]). }
    assert (∀ q, q ≠ p -> tensors h1 !! q = tensors h !! q) as Hne.
    { intros q Hq. unfold set_data in E1. rewrite (deref_Some _ _ _ Ht), bind_Ok in E1. injection E1 as <-. simpl.
      by rewrite lookup_insert_ne. }
    assert (same_kinds h h1) as K1.
    { intros q u Hu. destruct (decide (q = p)) as [->|Hq].
      - exists d. rewrite Hp1. by replace u with t by congruence.
      - exists (data u). rewrite Hne, Hu by done. by destruct u. }
    destruct (IH h1 ds') as (h2 & E2 & R2 & K2 & F2 & D2).
    { apply (rp_live _ _ _ _ R1'). }
    { done. }
    { eapply Forall2_impl; [exact H2|]. intros o e (q & u & -> & Hu & He).
      destruct (K1 q u Hu) as [d' Hu']. eauto 10. }
    exists h2. split; [exact E2|]. split; [by eapply replaces_trans|]. split; [|split].
    + intros q u Hu. destruct (K1 q u Hu) as [d' Hu']. destruct (K2 q _ Hu') as [d'' Hu'']. eauto.
    + intros q Hq. apply not_elem_of_cons in Hq as [Hq1 Hq2]. rewrite F2 by done. apply Hne. congruence.
    + intros [Hn Hnd]%NoDup_cons [|i] q e Hi He; simpl in *; [|by eapply D2].
      injection Hi as ->. injection He as ->. rewrite F2 by done. by rewrite Hp1.
Qed.

(** A session run on a state whose pointers are all owned: it runs, and changes
    nothing but the contents of the outputs. *)
Lemma session_Run_live f o s h ps : SessionLaw f -> live h ps -> io_ok ps s ->
  ∃ ins outs h', read_io h (input_names_ s) (inputs_ s) = Ok ins ∧ read_io h (output_names_ s) (outputs_ s) = Ok outs ∧
    session_Run f o s h = Ok h' ∧ replaces h h' ps ps ∧ same_kinds h h' ∧
    (∀ p, Some p ∉ outputs_ s -> tensors h' !! p = tensors h !! p) ∧
    (NoDup (outputs_ s) -> ∀ i p d, outputs_ s !! i = Some (Some p) -> f o ins outs !! i = Some d ->
       data <$> tensors h' !! p = Some d).
Proof.
  intros Hf Hl [I1 I2 I3 I4]. unfold session_Run.
  destruct (read_io_live h ps _ _ Hl I1 I3) as (ins & Ei & _ & _).
  destruct (read_io_live h ps _ _ Hl I2 I4) as (outs & Eo & _ & Ho).
  rewrite Ei, Eo, !bind_Ok. exists ins, outs.
  destruct (write_outputs_live ps (outputs_ s) h (f o ins outs) Hl I2) as (h' & E & R).
  - pose proof (session_results (f := f) o ins outs) as Hr. clear -Ho Hr. revert Hr. generalize (f o ins outs).
    induction Ho as [|a [n t] l r (p & -> & Ht) _ IH]; intros ds Hr.
    + apply Forall2_nil_inv_r in Hr as ->. constructor.
    + apply Forall2_cons_inv_r in Hr as (d & ds' & Hd & Hr & ->). constructor; [eauto|]. by apply IH.
  - exists h'. done.
Qed.

(** [State::Run] of a state with owned pointers. *)
Lemma State_Run_live f p graph b o s h ps : SessionLaw f -> live h ps -> io_ok ps s ->
  use_cuda_graph p = false ->
  ∃ s' h', State_Run f p graph b o s h = Ok (o, s', h') ∧ s' = set_run false (current_batch_size_ s) s ∧
    (∃ ins outs, read_io h (input_names_ s) (inputs_ s) = Ok ins ∧ read_io h (output_names_ s) (outputs_ s) = Ok outs ∧
      (NoDup (outputs_ s) -> ∀ i p d, outputs_ s !! i = Some (Some p) -> f o ins outs !! i = Some d ->
       data <$> tensors h' !! p = Some d)) ∧
    replaces h h' ps ps ∧ same_kinds h h' ∧ (∀ p, Some p ∉ outputs_ s -> tensors h' !! p = tensors h !! p).
Proof.
  intros Hf Hl Hio Hg. unfold State_Run. rewrite Hg.
  assert (∀ s', inputs_ s' = inputs_ s -> outputs_ s' = outputs_ s -> input_names_ s' = input_names_ s ->
    output_names_ s' = output_names_ s -> session_Run f o s' h = session_Run f o s h) as Hsame.
  { intros s' E1 E2 E3 E4. unfold session_Run. by rewrite E1, E2, E3, E4. }
  destruct (session_Run_live f o s h ps Hf Hl Hio) as (ins & outs & h' & Ei & Eo & E & R1 & R2 & R3 & R4).
  destruct (first_run_ s) eqn:Ef; cbn [andb]; cbv iota; rewrite bind_Ok; cbv beta iota.
  - rewrite Hsame, E, bind_Ok by done. eexists _, _. split; [reflexivity|]. eauto 10.
  - rewrite E, bind_Ok. eexists _, _. split; [reflexivity|]. split; [destruct s; simpl in *; by rewrite Ef|]. eauto 10.
Qed.

(** ** Run options *)
(** As long as no other state touches the model's run options, every run
    of a state with graph capture but its first is under the annotation id of
    its own graph and batch size. *)
Theorem State_Run_annotation (f : session) (p : GeneratorParams) (g : CapturedGraphInfo) (b : Z) (o o' : run_options)
    (s s' : State) (h h' : heap) :
  use_cuda_graph p = true -> 1 <= index_ g < 2 ^ 15 -> 0 < b < 2 ^ 16 ->
  (first_run_ s = false -> current_batch_size_ s = 0 ∨
     o !! gpu_graph_id = Some (pretty (index_ g * 2 ^ 16 + current_batch_size_ s))) ->
  State_Run f p (Some g) b o s h = Ok (o', s', h') ->
  first_run_ s' = false ∧ session_Run f o' s h = Ok h' ∧
  (if first_run_ s then o' !! gpu_graph_id = Some "-1"%string ∧ current_batch_size_ s' = current_batch_size_ s
   else o' !! gpu_graph_id = Some (pretty (index_ g * 2 ^ 16 + b)) ∧ current_batch_size_ s' = b).
Proof.
  intros Hg Hi Hb Hinv. unfold State_Run. rewrite Hg.
  assert (∀ first c, session_Run f o' (set_run first c s) h = session_Run f o' s h) as Hsame by done.
  destruct (first_run_ s) eqn:Ef; cbn [andb]; cbv iota.
  - rewrite bind_Ok. cbv beta iota. intros E. inv_ok.
    split; [done|]. split; [done|]. by rewrite lookup_insert_eq.
  - specialize (Hinv eq_refl). destruct (Z.eqb_spec b (current_batch_size_ s)) as [Hbc|Hbc]; cbn [negb].
    + rewrite bind_Ok. cbv beta iota. intros E. inv_ok. split; [done|]. split; [done|].
      destruct Hinv as [Hz|Ho]; [lia|]. by rewrite Ho.
    + rewrite annotation_id by lia. rewrite !bind_Ok. cbv beta iota. intros E. inv_ok.
      split; [done|]. split; [done|]. by rewrite lookup_insert_eq.
Qed.

(** ** Concrete runs *)
Module Examples.
Definition ex_session : session := fun _ _ outs => map (fun '(_, t) => replicate (element_count (shape t)) 1) outs.

#[export] Instance ex_session_law : SessionLaw ex_session.
Proof.
  intros o ins outs. unfold ex_session. induction outs as [|[n t] outs IH]; simpl; constructor; [apply length_replicate|done].
Qed.

Definition ex_graph (i : Z) : CapturedGraphInfo :=
  mkGraphInfo 4 8 1 i (StaticBuffer_new 4) [] None None None None [] None (mkGraphKey 4 8 1 []).
Definition ex_p : GeneratorParams := set_cuda_graph true 4 (GeneratorParams_new Config_default CUDA).
Definition ex_h : heap := mkHeap ∅ O (fun _ _ => 77) O.

Lemma State_Run_annotation_witness :
  ∃ o s h, State_Run ex_session ex_p (Some (ex_graph 3)) 2 ∅ (set_run false 0 State_new) ex_h = Ok (o, s, h) ∧
    o !! gpu_graph_id = Some (pretty (3 * 2 ^ 16 + 2)).
Proof.
  assert (∃ o s h, State_Run ex_session ex_p (Some (ex_graph 3)) 2 ∅ (set_run false 0 State_new) ex_h = Ok (o, s, h))
    as (o & s & h & E) by (eexists _, _, _; reflexivity).
  exists o, s, h. split; [exact E|].
  destruct (State_Run_annotation ex_session ex_p (ex_graph 3) 2 ∅ o (set_run false 0 State_new) s ex_h h)
    as (_ & _ & H & _); [reflexivity|vm_compute; split; [discriminate|reflexivity]|lia|by left|exact E|].
  exact H.
Defined.

(** The run options belong to the model: when the runs of two states alternate,
    the first state's third run is under the annotation id of the second. *)
Definition ex_run (i : Z) (x : run_options * State) : outcome (run_options * State) :=
  '(o, s, _) ← State_Run ex_session ex_p (Some (ex_graph i)) 1 (fst x) (snd x) ex_h; Ok (o, s).

Example alternating_states_mix_graphs :
  (x ← ex_run 1 (∅, State_new); y ← ex_run 2 (fst x, State_new);
   x ← ex_run 1 (fst y, snd x); y ← ex_run 2 (fst x, snd y);
   x ← ex_run 1 (fst y, snd x); Ok (fst x !! gpu_graph_id))
  = Ok (Some (pretty (2 * 2 ^ 16 + 1))).
Proof. reflexivity. Qed.
End Examples.
