(* ===== verification/Inputs.v ===== *)
(** * Model inputs (src/models/input_ids, position_inputs, extra_inputs and
      embeddings, .h and .cpp)

    The parts of a state that feed the session: the token ids, the position ids
    and attention mask, the user's extra tensors and the embeddings of the vision
    pipeline.  Each owns tensors of the heap and keeps its entries of the state's
    pointer lists up to date.  The build is the CPU one: there are no captured
    graphs, so the static buffers are null. *)
From Stdlib Require Import ZArith Lia.
From stdpp Require Import base numbers list strings gmap.
From S2P Require Import Prelude Float32 Config Tensors Params GraphPool State.
Local Open Scope Z_scope.

(** What the parts read of [Model]. *)
Record model := mkModelCtx {
  config_ : Config;
  session_info_ : SessionInfo;
  device_type_ : DeviceType }.
Definition dec_in (m : model) : DecoderInputs := dec_inputs (decoder (Config.model (config_ m))).
Definition dec_out (m : model) : DecoderOutputs := dec_outputs (decoder (Config.model (config_ m))).

Definition p_batch (p : GeneratorParams) : nat := Z.to_nat (batch_size p).
Definition p_seq (p : GeneratorParams) : nat := Z.to_nat (sequence_length p).
Definition p_beams (p : GeneratorParams) : nat := Z.to_nat (num_beams (gp_search p)).

(* index of a list entry; [~0U] before [Add] *)
Definition at_index (o : option nat) : outcome nat := initialised o.

(** ** InputIDs

    [ii_view]: the tensor's memory is the prompt of the parameters. *)
Record InputIDs := mkInputIDs {
  ii_name : string;
  ii_index : option nat;
  ii_shape : nat * nat;
  ii_type : ONNXTensorElementDataType;
  ii_value : ptr;
  ii_view : bool }.

Definition InputIDs_new (m : model) (p : GeneratorParams) (h : heap) : outcome (InputIDs * heap) :=
  let name := input_ids (dec_in m) in
  let '(b, s) := (p_batch p, p_seq p) in
  type ← GetInputDataType (session_info_ m) name;
  '((h, value, view) : heap * ptr * bool) ← (
    if decide (type = T_INT64) then
      let '(h, value) := CreateTensor [b; s] type h in
      t ← deref h value;
      d ← blit (data t) 0 (prompt p);
      h ← set_data value d h; Ok (h, value, false)
    else if decide (type = T_INT32) then
      value ← subspan (prompt p) 0 (b * s)%nat;
      let '(h, value) := new_tensor (mkOrt T_INT32 [b; s] value) h in Ok (h, value, true)
    else Throw (RuntimeError "InputIDs must be int64 or int32"));
  '((h, value) : heap * ptr) ← ExpandInputs (device_type_ m) value (p_beams p) h;
  Ok (mkInputIDs name None ((b * p_beams p)%nat, s) type value (view && bool_decide (p_beams p = 1%nat)), h).

Definition InputIDs_Add (ii : InputIDs) (s : State) : InputIDs * State :=
  (mkInputIDs (ii_name ii) (Some (length (inputs_ s))) (ii_shape ii) (ii_type ii) (ii_value ii) (ii_view ii),
   push_input (ii_name ii) (Some (ii_value ii)) s).

(* the shape becomes that of one token, once *)
Definition InputIDs_resize (ii : InputIDs) (s : State) (h : heap) : outcome (InputIDs * State * heap) :=
  if decide (snd (ii_shape ii) = 1%nat) then Ok (ii, s, h) else
  let sh := (fst (ii_shape ii), 1%nat) in
  let '(h, value) := CreateTensor [fst sh; 1%nat] (ii_type ii) h in
  let h := free (Some (ii_value ii)) h in
  i ← at_index (ii_index ii);
  s ← set_input i (Some value) s;
  Ok (mkInputIDs (ii_name ii) (ii_index ii) sh (ii_type ii) value false, s, h).

Definition InputIDs_Update (m : model) (next_tokens : list Z) (ii : InputIDs) (s : State) (h : heap)
  : outcome (InputIDs * State * heap) :=
  '((ii, s, h) : InputIDs * State * heap) ← InputIDs_resize ii s h;
  let n := fst (ii_shape ii) in
  t ← deref h (ii_value ii);
  d ← (if decide (ii_type ii = T_INT64) then
         match device_type_ m with
         | CPU => for_ n (fun i d => x ← get next_tokens i; put d i x) (data t)
         | _ => Ok (data t)
         end
       else
         src ← subspan next_tokens 0 n; blit (data t) 0 src);
  h ← set_data (ii_value ii) d h;
  Ok (ii, s, h).

(* what the parameters' prompt holds while [ii] is there *)
Definition prompt_now (ii : InputIDs) (h : heap) (p : GeneratorParams) : outcome (list Z) :=
  if ii_view ii then t ← deref h (ii_value ii); Ok (data t ++ drop (length (data t)) (prompt p)) else Ok (prompt p).

(** ** PositionInputs *)
Record PositionInputs := mkPositionInputs {
  mask_input_index_ : option nat;
  posid_input_index_ : option nat;
  pi_type : ONNXTensorElementDataType;
  has_mask_input_ : bool;
  has_posid_input_ : bool;
  position_ids_shape_ : nat * nat;
  position_ids_ : option ptr;
  attention_mask_shape_ : nat * nat;
  attention_mask_ : option ptr;
  position_ids_next_ : option ptr;
  attention_mask_next_ : option ptr;
  initial_sequence_lengths_ : list Z;
  is_first_posid_update_ : bool;
  is_first_mask_update_ : bool }.

(* the data of the three tensors and the two arrays of sequence lengths *)
Record init_data := mkInit {
  in_mask : list Z;
  in_pos : list Z;
  in_next : list Z;
  in_lengths : list (option Z);
  in_initial : list Z }.

(* [x++] in the tensor's integer type *)
Definition increment (type : ONNXTensorElementDataType) (x : Z) : outcome Z :=
  if decide (type = T_INT32) then chk32 (x + 1)
  else if x + 1 <? 2 ^ 63 then Ok (x + 1) else Undef.

(** [InitializeTensors]: the pointers word_id, mask and position run together;
    they are at [i * shape[1] + j].  The count of tokens is of the tensors' type,
    the offsets of the lengths are [int]s. *)
Definition InitializeTensors (p : GeneratorParams) (type : ONNXTensorElementDataType) (shape : nat * nat) (d : init_data) : outcome init_data :=
  let '(rows, cols) := shape in
  for_ rows (fun i d =>
      '((mask, position, abs_position) : list Z * list Z * Z) ← for_ cols (fun j '(mask, position, abs_position) =>
          let at_ := (i * cols + j)%nat in
          word_id ← get (prompt p) at_;
          if word_id =? gp_pad_token_id p then
            mask ← put mask at_ 0; position ← put position at_ 0; Ok (mask, position, abs_position)
          else
            mask ← put mask at_ 1; position ← put position at_ abs_position;
            abs_position ← increment type abs_position;
            Ok (mask, position, abs_position)) (in_mask d, in_pos d, 0);
      next ← put (in_next d) i abs_position;
      '((lengths, initial) : list (option Z) * list Z) ← for_ (p_beams p) (fun k '(lengths, initial) =>
          off ← int_nat (i * p_beams p)%nat; off ← int_nat (off + k)%nat;
          lengths ← put lengths off (Some (i32 abs_position));
          initial ← put initial off (i32 abs_position);
          Ok (lengths, initial)) (in_lengths d, in_initial d);
      Ok (mkInit mask position next lengths initial)) d.

Definition position_type (m : model) : outcome ONNXTensorElementDataType :=
  let si := session_info_ m in
  let '(mask, posid) := (attention_mask (dec_in m), position_ids (dec_in m)) in
  type ← (if HasInput si mask then GetInputDataType si mask else Ok T_INT32);
  type ← (if HasInput si posid then
            t ← GetInputDataType si posid;
            if HasInput si mask && negb (bool_decide (t = type))
            then Throw (RuntimeError "position_ids & attention_mask must have the same data type")
            else Ok t
          else Ok type);
  if decide (type = T_INT32 ∨ type = T_INT64) then Ok type
  else Throw (RuntimeError "position_ids & attention_mask only support int32 or int64 types").

Definition PositionInputs_new (m : model) (p : GeneratorParams) (sequence_lengths : list (option Z)) (h : heap)
  : outcome (PositionInputs * list (option Z) * heap) :=
  type ← position_type m;
  let '(b, s) := (p_batch p, p_seq p) in
  let '(h, pos) := CreateTensor [b; s] type h in
  let '(h, next) := CreateTensor [b; 1%nat] type h in
  let '(h, mask) := CreateTensor [b; s] type h in
  bb ← BatchBeamSize p;
  tm ← deref h mask; tp ← deref h pos; tn ← deref h next;
  d ← InitializeTensors p type (b, s) (mkInit (data tm) (data tp) (data tn) sequence_lengths (replicate (Z.to_nat bb) 0));
  h ← set_data mask (in_mask d) h; h ← set_data pos (in_pos d) h; h ← set_data next (in_next d) h;
  '((h, pos) : heap * ptr) ← ExpandInputs (device_type_ m) pos (p_beams p) h;
  '((h, next) : heap * ptr) ← ExpandInputs (device_type_ m) next (p_beams p) h;
  '((h, mask) : heap * ptr) ← ExpandInputs (device_type_ m) mask (p_beams p) h;
  let sh := ((b * p_beams p)%nat, s) in
  Ok (mkPositionInputs None None type
        (HasInput (session_info_ m) (attention_mask (dec_in m))) (HasInput (session_info_ m) (position_ids (dec_in m)))
        sh (Some pos) sh (Some mask) (Some next) None (in_initial d) true true,
      in_lengths d, h).

Definition AddAttentionMask (m : model) (pi : PositionInputs) (s : State) : PositionInputs * State :=
  (mkPositionInputs (Some (length (inputs_ s))) (posid_input_index_ pi) (pi_type pi) (has_mask_input_ pi)
     (has_posid_input_ pi) (position_ids_shape_ pi) (position_ids_ pi) (attention_mask_shape_ pi) (attention_mask_ pi)
     (position_ids_next_ pi) (attention_mask_next_ pi) (initial_sequence_lengths_ pi) (is_first_posid_update_ pi)
     (is_first_mask_update_ pi),
   push_input (attention_mask (dec_in m)) (attention_mask_ pi) s).

Definition AddPositionIDs (m : model) (pi : PositionInputs) (s : State) : PositionInputs * State :=
  (mkPositionInputs (mask_input_index_ pi) (Some (length (inputs_ s))) (pi_type pi) (has_mask_input_ pi)
     (has_posid_input_ pi) (position_ids_shape_ pi) (position_ids_ pi) (attention_mask_shape_ pi) (attention_mask_ pi)
     (position_ids_next_ pi) (attention_mask_next_ pi) (initial_sequence_lengths_ pi) (is_first_posid_update_ pi)
     (is_first_mask_update_ pi),
   push_input (position_ids (dec_in m)) (position_ids_ pi) s).

Definition PositionInputs_Add (m : model) (pi : PositionInputs) (s : State) : PositionInputs * State :=
  let '(pi, s) := if has_posid_input_ pi then AddPositionIDs m pi s else (pi, s) in
  if has_mask_input_ pi then AddAttentionMask m pi s else (pi, s).

Definition UpdatePositionIDsImpl (type : ONNXTensorElementDataType) (rows : nat) (d : list Z) : outcome (list Z) :=
  for_ rows (fun i d => x ← get d i; y ← increment type x; put d i y) d.

Definition deref_owned (h : heap) (o : option ptr) : outcome OrtValue := p ← initialised o; deref h p.

Definition set_posid (sh : nat * nat) (p next : option ptr) (first : bool) (pi : PositionInputs) : PositionInputs :=
  mkPositionInputs (mask_input_index_ pi) (posid_input_index_ pi) (pi_type pi) (has_mask_input_ pi)
    (has_posid_input_ pi) sh p (attention_mask_shape_ pi) (attention_mask_ pi)
    next (attention_mask_next_ pi) (initial_sequence_lengths_ pi) first (is_first_mask_update_ pi).

Definition UpdatePositionIDs (m : model) (current_length : Z) (pi : PositionInputs) (s : State) (h : heap)
  : outcome (PositionInputs * State * heap) :=
  if is_first_posid_update_ pi then
    let h := free (position_ids_ pi) h in
    let pi := set_posid (fst (position_ids_shape_ pi), 1%nat) (position_ids_next_ pi) None false pi in
    i ← at_index (posid_input_index_ pi);
    s ← set_input i (position_ids_ pi) s;
    Ok (pi, s, h)
  else
    match device_type_ m with
    | CPU =>
        p ← initialised (position_ids_ pi);
        t ← deref h p;
        d ← UpdatePositionIDsImpl (pi_type pi) (fst (position_ids_shape_ pi)) (data t);
        h ← set_data p d h; Ok (pi, s, h)
    | _ => Throw (RuntimeError "PositionIDs::Update - Unsupported device type")
    end.

(* the offsets are products and sums of [int]s *)
Definition UpdateAttentionMaskImpl (rows cur : nat) (d old_data : list Z) : outcome (list Z) :=
  for_ rows (fun i d =>
      d ← for_ (cur - 1)%nat (fun j d =>
          from ← int_nat (i * (cur - 1))%nat; from ← int_nat (from + j)%nat;
          to ← int_nat (i * cur)%nat; to ← int_nat (to + j)%nat;
          x ← get old_data from; put d to x) d;
      to ← int_nat (i * cur)%nat; to ← int_nat (to + cur)%nat;
      put d (to - 1)%nat 1) d.

Definition set_mask (sh : nat * nat) (p : option ptr) (pi : PositionInputs) : PositionInputs :=
  mkPositionInputs (mask_input_index_ pi) (posid_input_index_ pi) (pi_type pi) (has_mask_input_ pi)
    (has_posid_input_ pi) (position_ids_shape_ pi) (position_ids_ pi) sh p
    (position_ids_next_ pi) None (initial_sequence_lengths_ pi) (is_first_posid_update_ pi) false.

Definition UpdateAttentionMask (m : model) (current_length : Z) (pi : PositionInputs) (s : State) (h : heap)
  : outcome (PositionInputs * State * heap) :=
  _ ← assert_ (Z.of_nat (snd (attention_mask_shape_ pi)) =? current_length - 1);
  let cur := Z.to_nat current_length in
  let rows := fst (attention_mask_shape_ pi) in
  let '(h, next) := CreateTensor [rows; cur] (pi_type pi) h in
  match device_type_ m with
  | CPU =>
      new ← deref h next;
      old ← deref_owned h (attention_mask_ pi);
      d ← UpdateAttentionMaskImpl rows cur (data new) (data old);
      h ← set_data next d h;
      let h := free (attention_mask_ pi) h in
      let pi := set_mask (rows, cur) (Some next) pi in
      i ← at_index (mask_input_index_ pi);
      s ← set_input i (Some next) s;
      Ok (pi, s, h)
  | _ => Throw (RuntimeError "PositionIDs::Update - Unsupported device type")
  end.

Definition PositionInputs_Update (m : model) (current_length : Z) (pi : PositionInputs) (s : State) (h : heap)
  : outcome (PositionInputs * State * heap) :=
  '((pi, s, h) : PositionInputs * State * heap) ←
    (if has_posid_input_ pi then UpdatePositionIDs m current_length pi s h else Ok (pi, s, h));
  if has_mask_input_ pi then UpdateAttentionMask m current_length pi s h else Ok (pi, s, h).

(** ** ExtraInputs: the user's tensors, borrowed *)
Definition ExtraInputs : Type := list ptr.
Definition ExtraInputs_new (p : GeneratorParams) : ExtraInputs := map in_tensor (extra_inputs p).

Definition ExtraInputs_Add (p : GeneratorParams) (e : ExtraInputs) (s : State) : outcome State :=
  for_ (length (extra_inputs p)) (fun i s =>
      x ← get (extra_inputs p) i; q ← get e i; Ok (push_input (in_name x) (Some q) s)) s.

(** ** Embeddings *)
Inductive Mode : Type := Input_ | Output_.
#[export] Instance Mode_eq_dec : EqDecision Mode.
Proof. solve_decision. Defined.

Record Embeddings := mkEmbeddings {
  em_shape : nat * nat * nat;
  em_type : ONNXTensorElementDataType;
  mode_ : Mode;
  em_name : string;
  embeddings_ : option ptr;
  em_index : nat }.

Definition Embeddings_new (m : model) (p : GeneratorParams) (mode : Mode) (name : string) (h : heap)
  : outcome (Embeddings * heap) :=
  type ← (match mode with
          | Input_ => GetInputDataType (session_info_ m) name
          | Output_ => GetOutputDataType (session_info_ m) name end);
  let '(b, s, n) := ((p_batch p * p_beams p)%nat, p_seq p, Z.to_nat (gp_hidden_size p)) in
  match mode with
  | Input_ => Ok (mkEmbeddings (b, s, n) type mode name None O, h)
  | Output_ => let '(h, q) := CreateTensor [b; s; n] type h in
               Ok (mkEmbeddings (b, s, n) type mode name (Some q) O, h)
  end.

Definition Embeddings_Add (e : Embeddings) (s : State) : Embeddings * State :=
  match mode_ e with
  | Input_ => (mkEmbeddings (em_shape e) (em_type e) (mode_ e) (em_name e) (embeddings_ e) (length (inputs_ s)),
               push_input (em_name e) None s)
  | Output_ => (mkEmbeddings (em_shape e) (em_type e) (mode_ e) (em_name e) (embeddings_ e) (length (outputs_ s)),
                push_output (em_name e) (embeddings_ e) s)
  end.

Definition UpdateSequenceLength (e : Embeddings) (s : State) (h : heap) : outcome (Embeddings * State * heap) :=
  let '(b, q, n) := em_shape e in
  if decide (q = 1%nat) then Ok (e, s, h) else
  match mode_ e with
  | Input_ => Ok (mkEmbeddings (b, 1%nat, n) (em_type e) (mode_ e) (em_name e) (embeddings_ e) (em_index e), s, h)
  | Output_ =>
      let '(h, r) := CreateTensor [b; 1%nat; n] (em_type e) h in
      let h := free (embeddings_ e) h in
      s ← set_output (em_index e) (Some r) s;
      Ok (mkEmbeddings (b, 1%nat, n) (em_type e) (mode_ e) (em_name e) (Some r) (em_index e), s, h)
  end.

(** The input of [e] in its state [s] becomes the output of [other] in its. *)
Definition ReuseEmbeddingsBuffer (e other : Embeddings) (s other_state : State) : outcome State :=
  if decide (mode_ e = Output_ ∨ mode_ other = Input_)
  then Throw (RuntimeError "Incorrect usage of the embeddings inputs and outputs.")
  else
    o ← get (outputs_ other_state) (em_index other);
    set_input (em_index e) o s.

(** ** Properties *)
Definition int_type (ty : ONNXTensorElementDataType) : Prop := ty = T_INT32 ∨ ty = T_INT64.

Lemma int_type_size ty : int_type ty -> ∃ n, SizeOf ty = Ok n.
Proof. intros [->| ->]; eexists; reflexivity. Qed.

(** What the constructor of the generator and [SetInputs] establish. *)
Record params_ok (p : GeneratorParams) : Prop := {
  po_batch : 0 < batch_size p;
  po_beams : 0 < num_beams (gp_search p);
  po_small : num_beams (gp_search p) * batch_size p <= INT_MAX;
  po_length : 0 <= sequence_length p <= INT_MAX;
  po_prompt : length (prompt p) = (p_batch p * p_seq p)%nat }.

(* row [i] of the prompt *)
Definition prompt_row (p : GeneratorParams) (i : nat) : list Z := tensor_row (prompt p) (p_seq p) i.

Lemma InputIDs_new_ok m p h : device_type_ m = CPU -> params_ok p -> heap_ok h ->
  (∃ ty, GetInputDataType (session_info_ m) (input_ids (dec_in m)) = Ok ty ∧ int_type ty) ->
  ∃ ii h', InputIDs_new m p h = Ok (ii, h') ∧ replaces h h' [] [ii_value ii] ∧
    ii_shape ii = ((p_batch p * p_beams p)%nat, p_seq p) ∧ int_type (ii_type ii) ∧ ii_name ii = input_ids (dec_in m) ∧
    tensors h' !! ii_value ii = Some (mkOrt (ii_type ii) [(p_batch p * p_beams p)%nat; p_seq p]
      (expanded_rows (prompt p) (p_seq p) (p_batch p) (p_beams p))).
Proof.
  intros Hdev [Hb Hn _ Hs Hp] Hok (ty & Hty & Hint). unfold InputIDs_new. rewrite Hty, bind_Ok, Hdev.
  assert (p_batch p ≠ O) as Hb0 by (unfold p_batch; lia).
  assert (∃ h1 v view, (if decide (ty = T_INT64) then
      let '(h, value) := CreateTensor [p_batch p; p_seq p] ty h in
      t ← deref h value; d ← blit (data t) 0 (prompt p); h ← set_data value d h; Ok (h, value, false)
    else if decide (ty = T_INT32) then
      value ← subspan (prompt p) 0 (p_batch p * p_seq p)%nat;
      let '(h, value) := new_tensor (mkOrt T_INT32 [p_batch p; p_seq p] value) h in Ok (h, value, true)
    else Throw (RuntimeError "InputIDs must be int64 or int32")) = Ok (h1, v, view) ∧
    replaces h h1 [] [v] ∧ tensors h1 !! v = Some (mkOrt ty [p_batch p; p_seq p] (prompt p))) as (h1 & v & view & -> & R1 & T1).
  { destruct Hint as [->| ->].
    - rewrite decide_False, decide_True by done. rewrite subspan_le, bind_Ok by (rewrite Hp; lia).
      rewrite drop_0, take_ge by lia. destruct (new_tensor _ h) as [h1 v] eqn:E.
      pose proof (new_tensor_replaces h (mkOrt T_INT32 [p_batch p; p_seq p] (prompt p)) Hok) as H.
      rewrite E in H. destruct H as [H1 H2]; [simpl; lia|]. eauto 10.
    - rewrite decide_True by done. destruct (CreateTensor _ _ _) as [h0 v] eqn:E.
      destruct (CreateTensor_replaces _ _ _ _ _ Hok E) as (R & _ & d & T & Hd).
      rewrite (deref_Some _ _ _ T), bind_Ok. simpl data. simpl in Hd.
      rewrite blit_all, bind_Ok by (rewrite Hp; lia).
      destruct (set_data_replaces h0 v (prompt p) _ (rp_live _ _ _ _ R) T) as (h1 & -> & R2 & T2); [simpl; lia|].
      rewrite bind_Ok. eexists _, _, _. split; [reflexivity|]. split; [by eapply replaces_trans|done]. }
  rewrite bind_Ok. cbv beta iota.
  destruct (ExpandInputs_replaces h1 v ty (p_batch p) [p_seq p] (prompt p) (p_beams p)) as (h2 & q & E2 & R2 & T2);
    [apply R1|done|done|by apply int_type_size|].
  rewrite E2, bind_Ok. cbv beta iota. eexists _, _. split; [reflexivity|]. simpl.
  split; [by eapply replaces_trans|]. simpl in T2. rewrite Nat.mul_1_r in T2. done.
Qed.

(** *** InputIDs::Update *)
Lemma write_tokens toks (d : list Z) n : length toks = n -> length d = n ->
  for_ n (fun i d => x ← get toks i; put d i x) d = Ok toks.
Proof.
  intros Ht Hd.
  destruct (for_inv (fun i d' => d' = filled (take i toks) d) n (fun i d => x ← get toks i; put d i x) d) as (d' & -> & ->).
  - done.
  - intros i d' Hi ->. destruct (get_lt toks i) as (x & -> & Hx); [lia|]. rewrite bind_Ok.
    assert (length (take i toks) = i) as Hti by (rewrite length_take; lia).
    rewrite put_next by lia. eexists. split; [reflexivity|]. by rewrite (take_S_r _ _ x).
  - rewrite take_ge by lia. f_equal. by apply filled_full; lia.
Qed.

(* the input of [ii] in its state and heap *)
Record ids_ok (ii : InputIDs) (s : State) (h : heap) (pre post : list (option ptr)) : Prop := {
  id_index : ii_index ii = Some (length pre);
  id_slot : inputs_ s = pre ++ Some (ii_value ii) :: post;
  id_type : int_type (ii_type ii);
  id_tensor : ∃ d, tensors h !! ii_value ii = Some (mkOrt (ii_type ii) [fst (ii_shape ii); snd (ii_shape ii)] d) }.

Lemma ids_ok_frame ii s h h' pre post : ids_ok ii s h pre post -> kinds_on [ii_value ii] h h' -> ids_ok ii s h' pre post.
Proof.
  intros [? ? ? (d & T)] K. split; [done..|]. destruct (K (ii_value ii) _ ltac:(by left) T) as (d' & ?). by exists d'.
Qed.

Lemma InputIDs_Update_ok m toks ii s h pre post :
  device_type_ m = CPU -> live h [ii_value ii] -> ids_ok ii s h pre post -> length toks = fst (ii_shape ii) ->
  ∃ ii' h', InputIDs_Update m toks ii s h = Ok (ii', with_inputs (pre ++ Some (ii_value ii') :: post) s, h') ∧
    replaces h h' [ii_value ii] [ii_value ii'] ∧
    ii_shape ii' = (fst (ii_shape ii), 1%nat) ∧ ii_type ii' = ii_type ii ∧ ii_index ii' = ii_index ii ∧
    ii_name ii' = ii_name ii ∧
    tensors h' !! ii_value ii' = Some (mkOrt (ii_type ii) [fst (ii_shape ii); 1%nat] toks).
Proof.
  intros Hdev Hl [Hi Hs Hint [d Ht]] Hlen. unfold InputIDs_Update.
  set (n := fst (ii_shape ii)) in *.
  assert (∃ ii1 h1 d1, InputIDs_resize ii s h
    = Ok (ii1, with_inputs (pre ++ Some (ii_value ii1) :: post) s, h1) ∧
    replaces h h1 [ii_value ii] [ii_value ii1] ∧ ii_shape ii1 = (n, 1%nat) ∧ ii_type ii1 = ii_type ii ∧
    ii_index ii1 = ii_index ii ∧ ii_name ii1 = ii_name ii ∧
    tensors h1 !! ii_value ii1 = Some (mkOrt (ii_type ii) [n; 1%nat] d1)) as (ii1 & h1 & d1 & -> & R1 & S1 & Y1 & I1 & N1 & T1).
  { unfold InputIDs_resize. case_decide as H1.
    - exists ii, h, d. rewrite with_inputs_id by done. rewrite H1 in Ht.
      split; [done|]. split; [by apply replaces_refl|]. split; [|done]. by destruct (ii_shape ii); simpl in *; subst.
    - cbv zeta. destruct (CreateTensor _ _ _) as [h0 v] eqn:E. simpl fst in E. fold n in E.
      destruct (CreateTensor_replaces _ _ _ _ _ (proj1 Hl) E) as (R & Hv & d1 & T & _).
      rewrite Hi. cbv [at_index initialised]. rewrite bind_Ok, (set_input_seg s pre (Some (ii_value ii)) post), bind_Ok by done.
      assert (ii_value ii ≠ v) as Hne by (pose proof (live_lt _ _ (ii_value ii) Hl ltac:(by left)); lia).
      exists (mkInputIDs (ii_name ii) (Some (length pre)) (n, 1%nat) (ii_type ii) v false), (free (Some (ii_value ii)) h0), d1.
      simpl. rewrite lookup_delete_ne by done. split; [done|]. split; [|done].
      by apply (replaces_free _ _ [] [v]). }
  rewrite bind_Ok. cbv beta iota zeta. rewrite S1. simpl fst. rewrite (deref_Some _ _ _ T1), bind_Ok. simpl data.
  assert (length d1 = n) as Hd1.
  { destruct (proj1 (rp_live _ _ _ _ R1) _ _ T1) as [_ Hd]. simpl in Hd. lia. }
  assert ((if decide (ii_type ii1 = T_INT64) then
         match device_type_ m with
         | CPU => for_ n (fun i d => x ← get toks i; put d i x) d1
         | _ => Ok d1
         end
       else src ← subspan toks 0 n; blit d1 0 src) = Ok toks) as ->.
  { rewrite Hdev. case_decide; [by apply write_tokens|].
    rewrite subspan_le, bind_Ok by lia. rewrite drop_0, take_ge by lia. apply blit_all. lia. }
  rewrite bind_Ok.
  destruct (set_data_replaces h1 (ii_value ii1) toks _ (rp_live _ _ _ _ R1) T1) as (h2 & -> & R2 & T2); [simpl; lia|].
  rewrite bind_Ok. exists ii1, h2. split; [done|]. split; [by eapply replaces_trans|]. done.
Qed.

(** *** PositionInputs: what the prompt gives *)
Section prompt.
Context (pad : Z).

Definition mask_of (row : list Z) : list Z := map (fun t => if t =? pad then 0 else 1) row.
Fixpoint tokens_in (row : list Z) : Z :=
  match row with [] => 0 | t :: row => (if t =? pad then 0 else 1) + tokens_in row end.
(* the running count of tokens, 0 at pads *)
Fixpoint positions (n : Z) (row : list Z) : list Z :=
  match row with
  | [] => []
  | t :: row => if t =? pad then 0 :: positions n row else n :: positions (n + 1) row
  end.

Lemma tokens_in_app r1 r2 : tokens_in (r1 ++ r2) = tokens_in r1 + tokens_in r2.
Proof. induction r1 as [|t r1 IH]; simpl; lia. Qed.

Lemma tokens_in_bound row : 0 <= tokens_in row <= Z.of_nat (length row).
Proof. induction row as [|t row IH]; simpl; [lia|]. destruct (t =? pad); lia. Qed.

Lemma positions_snoc row t : ∀ n,
  positions n (row ++ [t]) = positions n row ++ [if t =? pad then 0 else n + tokens_in row].
Proof.
  induction row as [|u row IH]; intros n; simpl.
  - destruct (t =? pad); [done|]. by rewrite Z.add_0_r.
  - destruct (u =? pad); rewrite IH; simpl; do 3 f_equal; destruct (t =? pad); lia.
Qed.

Lemma length_positions row : ∀ n, length (positions n row) = length row.
Proof. induction row as [|t row IH]; intros n; simpl; [done|]. destruct (t =? pad); simpl; by rewrite IH. Qed.
End prompt.

Section initialize.
Context (p : GeneratorParams).
Let pad := gp_pad_token_id p.
Let s := p_seq p.
Let b := p_batch p.
Let nb := p_beams p.
Let row i := prompt_row p i.

(* the contents of the tensors for the first [k] rows *)
Definition mask_rows (k : nat) : list Z := concat (map (fun i => mask_of pad (row i)) (seq 0 k)).
Definition position_rows (k : nat) : list Z := concat (map (fun i => positions pad 0 (row i)) (seq 0 k)).
Definition next_rows (k : nat) : list Z := map (fun i => tokens_in pad (row i)) (seq 0 k).
Definition length_rows (k : nat) : list Z := concat (map (fun i => replicate nb (tokens_in pad (row i))) (seq 0 k)).

Context (Hp : params_ok p) (type : ONNXTensorElementDataType).

Lemma increment_ok x : 0 <= x < INT_MAX -> increment type x = Ok (x + 1).
Proof.
  unfold increment, INT_MAX. intros Hx. case_decide; [apply chk32_ok; unfold INT_MIN, INT_MAX; lia|].
  by rewrite (proj2 (Z.ltb_lt _ _)) by lia.
Qed.

Lemma length_prompt_row i : (i < b)%nat -> length (row i) = s.
Proof.
  intros Hi. unfold row, prompt_row, tensor_row. apply length_window. rewrite (po_prompt p Hp).
  pose proof (row_bound i b s Hi). unfold b, s in *. lia.
Qed.

Lemma row_token i j : (i < b)%nat -> (j < s)%nat -> ∃ t, get (prompt p) (i * s + j)%nat = Ok t ∧ row i !! j = Some t.
Proof.
  intros Hi Hj. destruct (get_lt (prompt p) (i * s + j)) as (t & E & Ht).
  { rewrite (po_prompt p Hp). by apply row_index. }
  exists t. split; [done|]. unfold row, prompt_row, tensor_row. by rewrite lookup_window.
Qed.

Lemma initialize_row i (m0 p0 : list Z) : (i < b)%nat -> length m0 = (b * s)%nat -> length p0 = (b * s)%nat ->
  for_ s (fun j '(mask, position, abs_position) =>
      let at_ := (i * s + j)%nat in
      word_id ← get (prompt p) at_;
      if word_id =? pad then
        mask ← put mask at_ 0; position ← put position at_ 0; Ok (mask, position, abs_position)
      else
        mask ← put mask at_ 1; position ← put position at_ abs_position;
        abs_position ← increment type abs_position;
        Ok (mask, position, abs_position)) (filled (mask_rows i) m0, filled (position_rows i) p0, 0)
  = Ok (filled (mask_rows (S i)) m0, filled (position_rows (S i)) p0, tokens_in pad (row i)).
Proof.
  intros Hi Hm0 Hp0.
  assert (length (mask_rows i) = i * s)%nat as Hml.
  { apply length_concat_map. intros k Hk. unfold mask_of. rewrite length_map. apply length_prompt_row. lia. }
  assert (length (position_rows i) = i * s)%nat as Hpl.
  { apply length_concat_map. intros k Hk. rewrite length_positions. apply length_prompt_row. lia. }
  pose proof (row_bound i b s Hi) as Hb. pose proof (length_prompt_row i Hi) as Hr.
  match goal with |- for_ _ ?f _ = _ => edestruct (for_inv (fun j st => st =
  (filled (mask_rows i ++ mask_of pad (take j (row i))) m0,
   filled (position_rows i ++ positions pad 0 (take j (row i))) p0, tokens_in pad (take j (row i)))) s f) as (st & E & Hst) end.
  - simpl. by rewrite !app_nil_r.
  - intros j st Hj ->. cbv beta iota zeta. destruct (row_token i j Hi Hj) as (t & -> & Ht). rewrite bind_Ok.
  rewrite (take_S_r _ _ t Ht). unfold mask_of. rewrite map_app, positions_snoc, tokens_in_app. simpl map. simpl tokens_in.
  fold (mask_of pad (take j (row i))).
  assert (length (take j (row i)) = j) as Hj' by (rewrite length_take; lia).
  assert (i * s + j = length (mask_rows i ++ mask_of pad (take j (row i))))%nat as E1
    by (unfold mask_of; rewrite length_app, length_map; lia).
  assert (i * s + j = length (position_rows i ++ positions pad 0 (take j (row i))))%nat as E2
    by (rewrite length_app, length_positions; lia).
  assert (0 <= tokens_in pad (take j (row i)) < INT_MAX) as Hlt.
  { pose proof (tokens_in_bound pad (take j (row i))). pose proof (po_length p Hp). unfold s, p_seq in Hj. lia. }
  destruct (t =? pad) eqn:Et; rewrite !put_next, !bind_Ok by lia; rewrite ?increment_ok, ?bind_Ok by done;
    eexists; (split; [reflexivity|]); rewrite !app_assoc, !Z.add_0_r, ?Z.add_0_l, ?(Z.add_comm 1); done.
  - rewrite E. rewrite Hst. rewrite take_ge by lia. unfold mask_rows at 2, position_rows at 2. by rewrite !concat_map_S.
Qed.
Lemma InitializeTensors_ok (m0 p0 n0 i0 : list Z) (l0 : list (option Z)) :
  length m0 = (b * s)%nat -> length p0 = (b * s)%nat -> length n0 = b ->
  length l0 = (b * nb)%nat -> length i0 = (b * nb)%nat ->
  InitializeTensors p type (b, s) (mkInit m0 p0 n0 l0 i0) =
  Ok (mkInit (mask_rows b) (position_rows b) (next_rows b) (map Some (length_rows b)) (length_rows b)).
Proof.
  intros Hm0 Hp0 Hn0 Hl0 Hi0. unfold InitializeTensors.
  assert (∀ k, length (length_rows k) = k * nb)%nat as Hlr.
  { intros k. apply length_concat_map. intros. apply length_replicate. }
  set (at_row := fun k => mkInit (filled (mask_rows k) m0) (filled (position_rows k) p0) (filled (next_rows k) n0)
    (filled (map Some (length_rows k)) l0) (filled (length_rows k) i0)).
  change (mkInit m0 p0 n0 l0 i0) with (at_row O).
  match goal with |- for_ _ ?f _ = _ => edestruct (for_inv (fun k st => st = at_row k) b f) as (st & E & Hst) end.
  - done.
  - intros i st Hi ->. unfold at_row. cbn [in_mask in_pos in_next in_lengths in_initial].
    rewrite initialize_row, bind_Ok by done. cbv beta iota.
    assert (length (next_rows i) = i) as Hnl by (unfold next_rows; by rewrite length_map, length_seq).
    rewrite put_next, bind_Ok by lia.
    assert (i32 (tokens_in pad (row i)) = tokens_in pad (row i)) as ->.
    { apply i32_id. pose proof (tokens_in_bound pad (row i)) as Hc. rewrite length_prompt_row in Hc by done.
      pose proof (po_length p Hp). unfold s, p_seq in Hc. unfold INT_MIN, INT_MAX in *. lia. }
    set (c := tokens_in pad (row i)).
    assert (i * nb + nb <= b * nb)%nat as Hbb by (apply row_bound; done).
    match goal with |- context [for_ (p_beams p) ?f ?x] => edestruct (for_inv (fun k st => st =
      (filled (map Some (length_rows i) ++ replicate k (Some c)) l0, filled (length_rows i ++ replicate k c) i0)) (p_beams p) f x)
      as (st & E & Hst) end.
    + by rewrite !app_nil_r.
    + intros k st Hk ->. cbv beta iota. fold nb in Hk. fold nb.
      assert (Z.of_nat (b * nb) <= INT_MAX) as Hsm by (pose proof (po_small p Hp); unfold b, nb, p_batch, p_beams; destruct Hp; nia).
      rewrite (int_nat_ok (i * nb)), bind_Ok, int_nat_ok, bind_Ok by lia.
      rewrite !put_next, !bind_Ok by (rewrite length_app, ?length_map, length_replicate, Hlr; lia).
      eexists. split; [reflexivity|]. by rewrite !replicate_S_end, !app_assoc.
    + rewrite E, bind_Ok, Hst. cbv beta iota. eexists. split; [reflexivity|].
      unfold at_row. f_equal.
      * unfold next_rows. rewrite seq_S, map_app. done.
      * unfold length_rows at 2. rewrite concat_map_S, map_app, fmap_replicate. done.
      * unfold length_rows at 2. by rewrite concat_map_S.
  - rewrite E. rewrite Hst. unfold at_row.
    assert (length (position_rows b) = b * s)%nat.
    { apply length_concat_map. intros. rewrite length_positions. by apply length_prompt_row. }
    assert (length (mask_rows b) = b * s)%nat.
    { apply length_concat_map. intros. unfold mask_of. rewrite length_map. by apply length_prompt_row. }
    rewrite !filled_full; [done|..]; rewrite ?length_map, ?Hlr; unfold next_rows; rewrite ?length_map, ?length_seq; lia.
Qed.
End initialize.

(** *** Rows of a tensor *)
Lemma concat_map_row {A} (f : nat -> list A) w n i : (∀ i, (i < n)%nat -> length (f i) = w) -> (i < n)%nat ->
  take w (drop (i * w) (concat (map f (seq 0 n)))) = f i.
Proof.
  intros Hf Hi. replace n with (i + S (n - S i))%nat by lia.
  rewrite seq_app, map_app, concat_app. simpl.
  assert (length (concat (map f (seq 0 i))) = i * w)%nat as Hl by (apply length_concat_map; intros; apply Hf; lia).
  rewrite drop_app_ge, Hl by lia. rewrite Nat.sub_diag, drop_0, take_app_le by (rewrite Hf; lia). apply take_ge. rewrite Hf; lia.
Qed.

Lemma expanded_concat (f : nat -> list Z) w b nb : (0 < nb)%nat -> (∀ i, (i < b)%nat -> length (f i) = w) ->
  expanded_rows (concat (map f (seq 0 b))) w b nb = concat (map (fun r => f (r / nb)%nat) (seq 0 (b * nb))).
Proof.
  intros Hnb Hf. unfold expanded_rows.
  transitivity (concat (map (fun i => concat (replicate nb (f i))) (seq 0 b))).
  { f_equal. apply map_ext_in. intros i Hi%in_seq. unfold tensor_row. rewrite concat_map_row by (done || lia). done. }
  clear Hf. induction b as [|b IH]; [done|].
  rewrite concat_map_S, IH. replace (S b * nb)%nat with (b * nb + nb)%nat by lia.
  rewrite seq_app, map_app, concat_app. f_equal. f_equal. simpl.
  apply (list_eq_lt _ _ nb); rewrite ?length_map, ?length_seq, ?length_replicate; try done.
  intros j Hj. rewrite lookup_replicate_2 by done. rewrite list_lookup_fmap, lookup_seq_lt by done. simpl.
  do 2 f_equal. apply Nat.div_unique with j; lia.
Qed.

(* one [1] more per row *)
Lemma UpdateAttentionMaskImpl_ok (f : nat -> list Z) (d0 : list Z) rows w :
  (∀ i, (i < rows)%nat -> length (f i) = w) -> length d0 = (rows * S w)%nat -> Z.of_nat (rows * S w) <= INT_MAX ->
  UpdateAttentionMaskImpl rows (S w) d0 (concat (map f (seq 0 rows))) = Ok (concat (map (fun i => f i ++ [1]) (seq 0 rows))).
Proof.
  intros Hf Hd0 Hint. unfold UpdateAttentionMaskImpl. rewrite Nat.sub_succ, Nat.sub_0_r.
  set (g := fun i => f i ++ [1]).
  assert (∀ k, (k <= rows)%nat -> length (concat (map g (seq 0 k))) = k * S w)%nat as Hg.
  { intros k Hk. apply length_concat_map. intros i Hi. unfold g. rewrite length_app, Hf by lia. simpl. lia. }
  match goal with |- for_ _ ?F _ = _ => destruct (for_inv (fun k d => d = filled (concat (map g (seq 0 k))) d0) rows F d0) as (d & E & Hd) end.
  - done.
  - intros i d Hi ->. pose proof (row_bound i rows (S w) Hi) as Hb. pose proof (Hg i ltac:(lia)) as Hl.
    match goal with |- context [for_ w ?F ?x] =>
      destruct (for_inv (fun j d => d = filled (concat (map g (seq 0 i)) ++ take j (f i)) d0) w F x) as (d & E & Hd) end.
    + by rewrite app_nil_r.
    + intros j d Hj ->. assert (length (f i) = w) as Hfi by (apply Hf; lia).
      destruct (lookup_lt_is_Some_2 (f i) j) as [x Hx]; [lia|].
      pose proof (row_bound i rows w Hi) as Hbw.
      rewrite (int_nat_ok (i * w)), bind_Ok, (int_nat_ok (i * w + j)), bind_Ok by nia.
      rewrite (int_nat_ok (i * S w)), bind_Ok, (int_nat_ok (i * S w + j)), bind_Ok by lia.
      rewrite (get_Some _ _ x), bind_Ok.
      * rewrite put_next by (rewrite length_app, Hl, length_take; lia). eexists. split; [reflexivity|].
        by rewrite (take_S_r _ _ x Hx), app_assoc.
      * rewrite <- (concat_map_row f w rows i Hf Hi) in Hx. by rewrite lookup_window in Hx.
    + rewrite E, bind_Ok, Hd. rewrite take_ge by (rewrite Hf; lia).
      rewrite (int_nat_ok (i * S w)), bind_Ok, (int_nat_ok (i * S w + S w)), bind_Ok by lia.
      rewrite put_next by (rewrite length_app, Hl, Hf; lia). eexists. split; [reflexivity|].
      by rewrite concat_map_S, <- app_assoc.
  - rewrite E, Hd. f_equal. apply filled_full. rewrite Hg; lia.
Qed.

Lemma UpdatePositionIDsImpl_ok ty (d : list Z) : int_type ty -> Forall (fun x => 0 <= x < INT_MAX) d ->
  UpdatePositionIDsImpl ty (length d) d = Ok (map (fun x => x + 1) d).
Proof.
  intros Hty Hd. unfold UpdatePositionIDsImpl. set (g := fun x => x + 1).
  match goal with |- for_ _ ?F _ = _ => destruct (for_inv (fun k d' => d' = filled (map g (take k d)) d) (length d) F d) as (d' & E & Hd') end.
  - done.
  - intros i d' Hi ->. destruct (lookup_lt_is_Some_2 d i Hi) as [x Hx].
    assert (length (map g (take i d)) = i) as Hl by (rewrite length_map, length_take; lia).
    rewrite (get_Some _ _ x), bind_Ok.
    + assert (increment ty x = Ok (g x)) as ->.
      { pose proof (proj1 (Forall_lookup _ _) Hd i x Hx) as Hr. simpl in Hr. unfold increment, g.
        case_decide; [apply chk32_ok|destruct (Z.ltb_spec (x + 1) (2 ^ 63)); [done|]]; unfold INT_MIN, INT_MAX in *; lia. }
      rewrite bind_Ok, put_next by lia. eexists. split; [reflexivity|]. by rewrite (take_S_r _ _ x Hx), map_app.
    + unfold filled. rewrite lookup_app_r, lookup_drop by lia. rewrite Hl. by replace (i + (i - i))%nat with i by lia.
  - rewrite E, Hd', take_ge by lia. f_equal. apply filled_full. by rewrite length_map.
Qed.

(** *** PositionInputs: the invariant

    After [k] updates the mask of a beam is its prompt's followed by [k] ones,
    and its position id the number of tokens of the prompt plus [k - 1]. *)
Section positions.
Context (m : model) (p : GeneratorParams).
Let pad := gp_pad_token_id p.

Definition beam_rows : nat := (p_batch p * p_beams p)%nat.
(* a tensor of [n] columns and a row per beam is addressed with [int]s *)
Definition mask_int (n : nat) : Prop := Z.of_nat (beam_rows * n) <= INT_MAX.
Definition beam_row (r : nat) : list Z := prompt_row p (r / p_beams p).

Definition mask_at (k : nat) : list Z :=
  concat (map (fun r => mask_of pad (beam_row r) ++ replicate k 1) (seq 0 beam_rows)).
Definition prompt_positions : list Z := concat (map (fun r => positions pad 0 (beam_row r)) (seq 0 beam_rows)).
Definition position_at (k : nat) : list Z := map (fun r => tokens_in pad (beam_row r) + Z.of_nat k) (seq 0 beam_rows).

Record mask_ok (k : nat) (pi : PositionInputs) (h : heap) : Prop := {
  mo_shape : attention_mask_shape_ pi = (beam_rows, p_seq p + k)%nat;
  mo_tensor : ∃ q, attention_mask_ pi = Some q ∧
  tensors h !! q = Some (mkOrt (pi_type pi) [beam_rows; p_seq p + k]%nat (mask_at k)) }.

Definition posid_ok (k : nat) (pi : PositionInputs) (h : heap) : Prop :=
  fst (position_ids_shape_ pi) = beam_rows ∧
  match k with
  | O => is_first_posid_update_ pi = true ∧
    (∃ q, position_ids_ pi = Some q ∧
      tensors h !! q = Some (mkOrt (pi_type pi) [beam_rows; p_seq p] prompt_positions)) ∧
    (∃ q, position_ids_next_ pi = Some q ∧ tensors h !! q = Some (mkOrt (pi_type pi) [beam_rows; 1%nat] (position_at 0)))
  | S k => is_first_posid_update_ pi = false ∧ position_ids_next_ pi = None ∧
    ∃ q, position_ids_ pi = Some q ∧ tensors h !! q = Some (mkOrt (pi_type pi) [beam_rows; 1%nat] (position_at k))
  end.

(* what [pi] owns, and the inputs it adds *)
Definition pi_ptrs (pi : PositionInputs) : list ptr :=
  own [position_ids_ pi; position_ids_next_ pi; attention_mask_ pi].
Definition pi_inputs (pi : PositionInputs) : list (option ptr) :=
  (if has_posid_input_ pi then [position_ids_ pi] else []) ++ (if has_mask_input_ pi then [attention_mask_ pi] else []).

Record pi_ok (k : nat) (pi : PositionInputs) (h : heap) : Prop := {
  pk_type : int_type (pi_type pi);
  pk_mask : mask_ok (if has_mask_input_ pi then k else 0) pi h;
  pk_posid : posid_ok (if has_posid_input_ pi then k else 0) pi h;
  pk_live : live h (pi_ptrs pi) }.

Record pi_slots (pi : PositionInputs) (s : State) (pre post : list (option ptr)) : Prop := {
  ps_inputs : inputs_ s = pre ++ pi_inputs pi ++ post;
  ps_posid : has_posid_input_ pi = true -> posid_input_index_ pi = Some (length pre);
  ps_mask : has_mask_input_ pi = true ->
  mask_input_index_ pi = Some (length pre + if has_posid_input_ pi then 1 else 0)%nat }.

Context (Hp : params_ok p).

Lemma beam_rows_pos : (0 < beam_rows)%nat.
Proof. destruct Hp. unfold beam_rows, p_batch, p_beams. nia. Qed.

Lemma mask_int_le n : mask_int n -> Z.of_nat n <= INT_MAX.
Proof. unfold mask_int. pose proof beam_rows_pos. intros H1. etransitivity; [|exact H1]. nia. Qed.

Lemma mask_int_mono n k : mask_int n -> (k <= n)%nat -> mask_int k.
Proof. unfold mask_int. intros H1 H2. etransitivity; [|exact H1]. nia. Qed.

Lemma mask_int_upto n l : mask_int (n + pred l) -> ∀ j, (j < l)%nat -> mask_int (n + j).
Proof. intros H j Hj. eapply mask_int_mono; [exact H|lia]. Qed.

Lemma beam_row_lt r : (r < beam_rows)%nat -> (r / p_beams p < p_batch p)%nat.
Proof.
  intros Hr. apply Nat.Div0.div_lt_upper_bound. unfold beam_rows in Hr. lia.
Qed.

Lemma length_beam_row r : (r < beam_rows)%nat -> length (beam_row r) = p_seq p.
Proof. intros Hr. apply length_prompt_row; [done|by apply beam_row_lt]. Qed.

Lemma length_mask_row k r : (r < beam_rows)%nat -> length (mask_of pad (beam_row r) ++ replicate k 1) = (p_seq p + k)%nat.
Proof. intros Hr. unfold mask_of. by rewrite length_app, length_map, length_replicate, length_beam_row. Qed.

Lemma p_beams_pos : (0 < p_beams p)%nat.
Proof. pose proof (po_beams p Hp). unfold p_beams. lia. Qed.

Lemma p_batch_ne : p_batch p ≠ O.
Proof. pose proof (po_batch p Hp). unfold p_batch. lia. Qed.

Lemma mask_rows_expanded : expanded_rows (mask_rows p (p_batch p)) (p_seq p) (p_batch p) (p_beams p) = mask_at 0.
Proof.
  unfold mask_rows, mask_at. rewrite expanded_concat.
  - f_equal. apply map_ext. intros r. by rewrite app_nil_r.
  - apply p_beams_pos.
  - intros i Hi. unfold mask_of. rewrite length_map. by apply length_prompt_row.
Qed.

Lemma position_rows_expanded :
  expanded_rows (position_rows p (p_batch p)) (p_seq p) (p_batch p) (p_beams p) = prompt_positions.
Proof.
  unfold position_rows. rewrite expanded_concat; [done|apply p_beams_pos|].
  intros i Hi. rewrite length_positions. by apply length_prompt_row.
Qed.

Lemma next_rows_expanded : expanded_rows (next_rows p (p_batch p)) 1 (p_batch p) (p_beams p) = position_at 0.
Proof.
  assert (∀ (f : nat -> Z) l, map f l = concat (map (fun i => [f i]) l)) as Hc.
  { intros f l. induction l as [|i l IH]; simpl; [done|]. by rewrite IH. }
  unfold next_rows, position_at. rewrite !Hc, expanded_concat; [|apply p_beams_pos|done].
  f_equal. apply map_ext. intros r. by rewrite Z.add_0_r.
Qed.

Lemma length_rows_expanded : length_rows p (p_batch p) = position_at 0.
Proof.
  rewrite <- next_rows_expanded. unfold length_rows, expanded_rows. f_equal. apply map_ext_in. intros i Hi%in_seq.
  assert (tensor_row (next_rows p (p_batch p)) 1 i = [tokens_in pad (prompt_row p i)]) as ->.
  { unfold next_rows, tensor_row.
    pose proof (concat_map_row (fun i => [tokens_in pad (prompt_row p i)]) 1 (p_batch p) i ltac:(done) ltac:(lia)) as E.
    simpl in E. rewrite <- E.
    f_equal. f_equal. generalize (seq 0 (p_batch p)). intros l. induction l as [|j l IH]; simpl; [done|]. exact (f_equal (cons _) IH). }
  fold pad. generalize (tokens_in pad (prompt_row p i)). intros x. induction (p_beams p) as [|n IH]; simpl; [done|]. by rewrite IH.
Qed.

(** **** The constructor *)
Lemma position_type_int ty : position_type m = Ok ty -> int_type ty.
Proof.
  unfold position_type. intros H. inv_ok. case_decide; inv_ok. done.
Qed.

Lemma PositionInputs_new_ok lengths h : device_type_ m = CPU -> heap_ok h ->
  (∃ ty, position_type m = Ok ty) -> length lengths = beam_rows ->
  ∃ pi lengths' h', PositionInputs_new m p lengths h = Ok (pi, lengths', h') ∧ replaces h h' [] (pi_ptrs pi) ∧
    pi_ok 0 pi h' ∧ lengths' = map Some (position_at 0) ∧
    has_mask_input_ pi = HasInput (session_info_ m) (attention_mask (dec_in m)) ∧
    has_posid_input_ pi = HasInput (session_info_ m) (position_ids (dec_in m)).
Proof.
  intros Hdev Hok [ty Hty] Hlen. pose proof (position_type_int ty Hty) as Hint.
  unfold PositionInputs_new. rewrite Hty, bind_Ok, Hdev. set (b := p_batch p). set (s := p_seq p).
  destruct (make_tensor h [b; s] ty Hok) as (h1 & q1 & d1 & -> & R1 & T1 & L1).
  destruct (make_tensor h1 [b; 1%nat] ty ltac:(apply R1)) as (h2 & q2 & d2 & -> & R2 & T2 & L2).
  destruct (replaces_new _ _ _ _ R2 (rp_live _ _ _ _ R1)) as [S2 K2].
  destruct (make_tensor h2 [b; s] ty ltac:(apply R2)) as (h3 & q3 & d3 & -> & R3 & T3 & L3).
  destruct (replaces_new _ _ _ _ R3 (rp_live _ _ _ _ S2)) as [S3 K3].
  assert (BatchBeamSize p = Ok (Z.of_nat (b * p_beams p))) as ->.
  { unfold BatchBeamSize, b, p_batch, p_beams. destruct Hp. rewrite chk32_ok by (unfold INT_MIN; nia). f_equal. nia. }
  assert (tensors h3 !! q1 = Some (mkOrt ty [b; s] d1)) as T1' by (rewrite K3, K2 by (set_solver); done).
  assert (tensors h3 !! q2 = Some (mkOrt ty [b; 1%nat] d2)) as T2' by (rewrite K3 by (set_solver); done).
  rewrite bind_Ok, (deref_Some _ _ _ T3), bind_Ok, (deref_Some _ _ _ T1'), bind_Ok, (deref_Some _ _ _ T2'), bind_Ok.
  simpl data. simpl in L1, L2, L3.
  assert (length d3 = b * s)%nat as L3' by (simpl in L3; lia).
  assert (length d1 = b * s)%nat as L1' by (simpl in L1; lia).
  assert (length d2 = b)%nat as L2' by (simpl in L2; lia).
  rewrite (InitializeTensors_ok p Hp ty), bind_Ok; try done; try (rewrite ?length_replicate; fold b s; lia).
  cbn [in_mask in_pos in_next in_lengths in_initial]. fold b. pose proof length_rows_expanded as El. fold b in El. rewrite El.
  assert (length (mask_rows p b) = b * s)%nat as Lm.
  { apply length_concat_map. intros. unfold mask_of. rewrite length_map. by apply length_prompt_row. }
  assert (length (position_rows p b) = b * s)%nat as Lp.
  { apply length_concat_map. intros. rewrite length_positions. by apply length_prompt_row. }
  assert (length (next_rows p b) = b) as Ln by (unfold next_rows; by rewrite length_map, length_seq).
  destruct (set_data_at h3 q3 (mask_rows p b) _ [] [q2; q1] (rp_live _ _ _ _ S3) T3) as (h4 & -> & R4 & T4 & K4); [simpl; lia|].
  rewrite bind_Ok. rewrite <- K4 in T1', T2' by set_solver.
  destruct (set_data_at h4 q1 (position_rows p b) _ [q3; q2] [] (rp_live _ _ _ _ R4) T1') as (h5 & -> & R5 & T5 & K5); [simpl; lia|].
  rewrite bind_Ok. rewrite <- K5 in T2', T4 by set_solver.
  destruct (set_data_at h5 q2 (next_rows p b) _ [q3] [q1] (rp_live _ _ _ _ R5) T2') as (h6 & -> & R6 & T6 & K6); [simpl; lia|].
  rewrite bind_Ok. rewrite <- K6 in T4, T5 by set_solver. simpl element_type in *. simpl shape in *.
  pose proof p_batch_ne as Hbn. fold b in Hbn.
  destruct (ExpandInputs_at h6 q1 ty b [s] _ (p_beams p) [q3; q2] [] (rp_live _ _ _ _ R6) T5 Hbn (int_type_size ty Hint)) as (h7 & r1 & -> & R7 & T7 & K7).
  rewrite bind_Ok. cbv beta iota. rewrite <- K7 in T4, T6 by set_solver.
  destruct (ExpandInputs_at h7 q2 ty b [1%nat] _ (p_beams p) [q3] [r1] (rp_live _ _ _ _ R7) T6 Hbn (int_type_size ty Hint)) as (h8 & r2 & -> & R8 & T8 & K8).
  rewrite bind_Ok. cbv beta iota. rewrite <- K8 in T4, T7 by set_solver.
  destruct (ExpandInputs_at h8 q3 ty b [s] _ (p_beams p) [] [r2; r1] (rp_live _ _ _ _ R8) T4 Hbn (int_type_size ty Hint)) as (h9 & r3 & -> & R9 & T9 & K9).
  rewrite bind_Ok. cbv beta iota. rewrite <- K9 in T7, T8 by set_solver.
  simpl element_count in *. rewrite Nat.mul_1_r in *. unfold b, s in *.
  rewrite mask_rows_expanded in T9. rewrite position_rows_expanded in T7. rewrite next_rows_expanded in T8.
  assert (replaces h h9 [] [r1; r2; r3]) as R.
  { eapply replaces_perm; [done|apply (Permutation_rev [r3; r2; r1])|].
    repeat (eapply replaces_trans; [eassumption|]); by apply replaces_refl, R9. }
  eexists _, _, _. split; [reflexivity|]. split; [exact R|]. split; [|done]. split; [done| | |exact (rp_live _ _ _ _ R)].
  - assert (mask_ok 0 (mkPositionInputs None None ty (HasInput (session_info_ m) (attention_mask (dec_in m)))
      (HasInput (session_info_ m) (position_ids (dec_in m))) ((p_batch p * p_beams p)%nat, p_seq p) (Some r1)
      ((p_batch p * p_beams p)%nat, p_seq p) (Some r3) (Some r2) None (position_at 0) true true) h9) as H.
    { split; simpl; rewrite Nat.add_0_r; eauto. }
    by destruct (has_mask_input_ _).
  - by destruct (has_posid_input_ _); (split; [done|]); (split; [done|]); split; eauto.
Qed.

(** **** One update *)
Lemma UpdatePositionIDs_ok k cur pi s h pre post : device_type_ m = CPU -> int_type (pi_type pi) ->
  Z.of_nat (p_seq p + k) < INT_MAX ->
  posid_ok k pi h -> live h (pi_ptrs pi) ->
  inputs_ s = pre ++ position_ids_ pi :: post -> posid_input_index_ pi = Some (length pre) ->
  ∃ pi' h', UpdatePositionIDs m cur pi s h = Ok (pi', with_inputs (pre ++ position_ids_ pi' :: post) s, h') ∧
    replaces h h' (pi_ptrs pi) (pi_ptrs pi') ∧ posid_ok (S k) pi' h' ∧
    (∃ sh q n b, pi' = set_posid sh q n b pi) ∧
    (∀ r, attention_mask_ pi = Some r -> tensors h' !! r = tensors h !! r).
Proof.
  intros Hdev Hint Hmax [Hrows Hk] Hl Hs Hi. unfold UpdatePositionIDs. destruct k as [|k].
  - destruct Hk as (Hf & (q1 & E1 & T1) & (q2 & E2 & T2)). rewrite Hf, E1, E2. cbv zeta. cbn [set_posid posid_input_index_].
    rewrite Hi. cbv [at_index initialised]. rewrite bind_Ok, (set_input_seg s pre (position_ids_ pi) post), bind_Ok by done.
    unfold pi_ptrs in Hl. rewrite E1, E2 in Hl. simpl in Hl.
    eexists _, _. split; [reflexivity|]. unfold pi_ptrs. cbn [set_posid position_ids_ position_ids_next_ attention_mask_].
    rewrite E1, E2. cbn [own omap list_omap id].
    assert (live h (q2 :: own [attention_mask_ pi])) as Hl2 by apply (live_sub_r h [q1] _ Hl).
    assert (∀ r, r ∈ q2 :: own [attention_mask_ pi] -> tensors (free (Some q1) h) !! r = tensors h !! r) as K.
    { intros r Hr. simpl. apply lookup_delete_ne. intros <-. destruct Hl as (_ & Hnd & _). by apply NoDup_cons in Hnd as [? _]. }
    split; [by apply (replaces_free h h _ _ q1 Hl), replaces_refl|].
    split; [split; [done|]; split; [done|]; split; [done|]; exists q2; split; [done|]; rewrite K; [done|by left]|].
    split; [by eexists _, _, _, _|]. intros r Hr. apply K. rewrite Hr. right. left.
  - destruct Hk as (Hf & E2 & (q1 & E1 & T1)). rewrite Hf, Hdev, E1. cbn [initialised]. rewrite bind_Ok, (deref_Some _ _ _ T1), bind_Ok.
    simpl data. assert (length (position_at k) = beam_rows) as Hlen by (unfold position_at; by rewrite length_map, length_seq).
    replace (fst (position_ids_shape_ pi)) with (length (position_at k)) by congruence.
    rewrite UpdatePositionIDsImpl_ok, bind_Ok; [|done|].
    2:{ apply Forall_forall. intros x (r & -> & Hr)%list_elem_of_fmap. apply elem_of_seq in Hr.
        pose proof (tokens_in_bound pad (beam_row r)) as Hb. rewrite length_beam_row in Hb by lia. lia. }
    unfold pi_ptrs in Hl |- *. rewrite E1, E2 in Hl |- *. simpl in Hl.
    destruct (set_data_at h q1 (map (fun x => x + 1) (position_at k)) _ [] (own [attention_mask_ pi]) Hl T1)
      as (h' & -> & R & T & K); [rewrite length_map; simpl; lia|].
    rewrite bind_Ok. exists pi, h'. rewrite <- E1, with_inputs_id by done. split; [done|].
    rewrite E1, E2. split; [exact R|]. split.
    + split; [done|]. split; [done|]. split; [done|]. exists q1. split; [done|]. rewrite T. simpl. do 3 f_equal.
      unfold position_at. rewrite map_map. apply map_ext. intros r. lia.
    + split; [|intros r Hr; apply K; rewrite Hr; by left].
      exists (position_ids_shape_ pi), (position_ids_ pi), (position_ids_next_ pi), (is_first_posid_update_ pi). by destruct pi.
Qed.

Lemma UpdateAttentionMask_ok k pi s h pre post : device_type_ m = CPU -> mask_int (p_seq p + S k) ->
  mask_ok k pi h -> live h (pi_ptrs pi) ->
  inputs_ s = pre ++ attention_mask_ pi :: post -> mask_input_index_ pi = Some (length pre) ->
  ∃ pi' h', UpdateAttentionMask m (Z.of_nat (p_seq p + S k)) pi s h
      = Ok (pi', with_inputs (pre ++ attention_mask_ pi' :: post) s, h') ∧
    replaces h h' (pi_ptrs pi) (pi_ptrs pi') ∧ mask_ok (S k) pi' h' ∧
    (∃ sh q, pi' = set_mask sh q pi) ∧
    (∀ r, r ∈ own [position_ids_ pi; position_ids_next_ pi] -> tensors h' !! r = tensors h !! r).
Proof.
  intros Hdev Hint [Hsh (q & Eq & Tq)] Hl Hs Hi. unfold UpdateAttentionMask. rewrite Hsh. cbn [fst snd].
  replace (Z.of_nat (p_seq p + k) =? Z.of_nat (p_seq p + S k) - 1) with true by (symmetry; apply Z.eqb_eq; lia).
  cbn [assert_]. rewrite bind_Ok, Nat2Z.id. cbv zeta. rewrite Hdev, Eq.
  destruct (make_tensor h [beam_rows; p_seq p + S k]%nat (pi_type pi)) as (h1 & v & d & E & R1 & T1 & L1); [apply Hl|].
  rewrite E. rewrite (deref_Some _ _ _ T1), bind_Ok. simpl data. simpl in L1.
  unfold deref_owned. cbn [initialised]. rewrite bind_Ok.
  set (l := own [position_ids_ pi; position_ids_next_ pi]).
  assert (pi_ptrs pi = l ++ [q]) as Hptrs.
  { unfold pi_ptrs, l. rewrite Eq. by destruct (position_ids_ pi), (position_ids_next_ pi). }
  rewrite Hptrs in Hl. destruct (replaces_new _ _ _ _ R1 Hl) as [_ K1].
  rewrite (deref_Some h1 q (mkOrt (pi_type pi) [beam_rows; p_seq p + k]%nat (mask_at k))), bind_Ok by (rewrite K1; [done|set_solver]).
  simpl data. unfold mask_at. rewrite Nat.add_succ_r, UpdateAttentionMaskImpl_ok, bind_Ok.
  2:{ intros i Hi'. by apply length_mask_row. }
  2:{ lia. }
  2:{ unfold mask_int in Hint. by rewrite <- Nat.add_succ_r. }
  set (d' := concat _). assert (d' = mask_at (S k)) as Hd'.
  { unfold d', mask_at. f_equal. apply map_ext. intros r. by rewrite replicate_S_end, app_assoc. }
  destruct (set_data_replaces h1 v d' _ (rp_live _ _ _ _ R1) T1) as (h2 & -> & R2 & T2).
  { rewrite Hd'. unfold mask_at. rewrite (length_concat_map _ (p_seq p + S k)); [simpl; lia|]. intros. by apply length_mask_row. }
  rewrite bind_Ok. cbn [set_mask mask_input_index_]. rewrite Hi. cbn [at_index initialised].
  rewrite bind_Ok, (set_input_seg s pre (attention_mask_ pi) post), bind_Ok by done.
  destruct (replaces_with h h2 q v l [] Hl (replaces_trans _ _ _ _ _ _ R1 R2)) as (R & Tv & K).
  rewrite app_nil_r in K. exists (set_mask (beam_rows, S (p_seq p + k)) (Some v) pi), (free (Some q) h2).
  split; [reflexivity|]. unfold pi_ptrs at 2. cbn [set_mask attention_mask_ position_ids_ position_ids_next_]. rewrite Hptrs.
  split; [eapply replaces_perm; [done| |exact R]; unfold l; by destruct (position_ids_ pi), (position_ids_next_ pi)|].
  split; [|split; [by eexists _, _|done]].
  split; [simpl; f_equal; lia|]. exists v. split; [done|]. rewrite Tv, T2, <- Hd'. simpl. by rewrite Nat.add_succ_r.
Qed.
Lemma PositionInputs_Update_ok k pi s h pre post : device_type_ m = CPU ->
  mask_int (p_seq p + S k) -> pi_ok k pi h -> pi_slots pi s pre post ->
  ∃ pi' h', PositionInputs_Update m (Z.of_nat (p_seq p + S k)) pi s h
      = Ok (pi', with_inputs (pre ++ pi_inputs pi' ++ post) s, h') ∧
    replaces h h' (pi_ptrs pi) (pi_ptrs pi') ∧ pi_ok (S k) pi' h' ∧
    pi_slots pi' (with_inputs (pre ++ pi_inputs pi' ++ post) s) pre post ∧
    has_mask_input_ pi' = has_mask_input_ pi ∧ has_posid_input_ pi' = has_posid_input_ pi.
Proof.
  intros Hdev Hint [Hty Hm Hq Hl] [Sin Sq Sm]. unfold PositionInputs_Update. pose proof (mask_int_le _ Hint) as Hmax.
  set (mid := if has_mask_input_ pi then [attention_mask_ pi] else []).
  assert (∃ pi1 h1, (if has_posid_input_ pi then UpdatePositionIDs m (Z.of_nat (p_seq p + S k)) pi s h else Ok (pi, s, h))
      = Ok (pi1, with_inputs (pre ++ (if has_posid_input_ pi then [position_ids_ pi1] else []) ++ mid ++ post) s, h1) ∧
    replaces h h1 (pi_ptrs pi) (pi_ptrs pi1) ∧ posid_ok (if has_posid_input_ pi then S k else O) pi1 h1 ∧
    (∃ sh q n b, pi1 = set_posid sh q n b pi) ∧
    (∀ r, attention_mask_ pi = Some r -> tensors h1 !! r = tensors h !! r)) as (pi1 & h1 & -> & R1 & Q1 & (sh & q & n & b & E1) & K1).
  { unfold pi_inputs in Sin. fold mid in Sin. destruct (has_posid_input_ pi).
    - apply UpdatePositionIDs_ok with (k := k); [done|done|lia|done|done| |by apply Sq].
      rewrite Sin. by rewrite <- !app_assoc.
    - exists pi, h. rewrite with_inputs_id by (by rewrite Sin, <- app_assoc). split; [done|].
      split; [by apply replaces_refl|]. split; [done|]. split; [|done].
      exists (position_ids_shape_ pi), (position_ids_ pi), (position_ids_next_ pi), (is_first_posid_update_ pi). by destruct pi. }
  rewrite bind_Ok. cbv beta iota.
  assert (has_mask_input_ pi1 = has_mask_input_ pi ∧ has_posid_input_ pi1 = has_posid_input_ pi ∧
    attention_mask_ pi1 = attention_mask_ pi ∧ pi_type pi1 = pi_type pi ∧ attention_mask_shape_ pi1 = attention_mask_shape_ pi ∧
    mask_input_index_ pi1 = mask_input_index_ pi ∧ posid_input_index_ pi1 = posid_input_index_ pi)
    as (F1 & F2 & F3 & F4 & F5 & F6 & F7) by (by rewrite E1). clear E1.
  rewrite F1. unfold mid. clear mid.
  set (front := if has_posid_input_ pi then [position_ids_ pi1] else []).
  destruct (has_mask_input_ pi) eqn:Em.
  - assert (mask_ok k pi1 h1) as Hm1.
    { destruct Hm as [M1 (r & M2 & M3)]. split; [by rewrite F5|]. exists r. rewrite F3, F4, K1; done. }
    edestruct (UpdateAttentionMask_ok k pi1 (with_inputs (pre ++ front ++ [attention_mask_ pi] ++ post) s) h1 (pre ++ front) post)
      as (pi2 & h2 & -> & R2 & M2 & (sh2 & q2 & E2) & K2); [done|done|done|exact (rp_live _ _ _ _ R1)| | |].
    { simpl. by rewrite F3, <- app_assoc. }
    { rewrite F6, Sm by done. rewrite length_app. unfold front. by destruct (has_posid_input_ pi). }
    assert (pre ++ front ++ [attention_mask_ pi2] ++ post = pre ++ pi_inputs pi2 ++ post) as Ein.
    { unfold pi_inputs, front. rewrite E2. simpl. rewrite F1, F2. by rewrite <- !app_assoc. }
    exists pi2, h2. split; [do 3 f_equal; rewrite <- Ein; unfold with_inputs; simpl; by rewrite <- !app_assoc|].
    split; [by eapply replaces_trans|]. split; [split|split; [split|]]; try (rewrite E2; simpl; congruence).
    + assert (has_mask_input_ pi2 = true) as -> by (by rewrite E2). exact M2.
    + assert (has_posid_input_ pi2 = has_posid_input_ pi) as -> by (rewrite E2; done).
      destruct Q1 as [Q0 Q1]. split; [rewrite E2; done|].
      assert (position_ids_ pi2 = position_ids_ pi1 ∧ position_ids_next_ pi2 = position_ids_next_ pi1 ∧
        pi_type pi2 = pi_type pi1 ∧ is_first_posid_update_ pi2 = is_first_posid_update_ pi1) as (-> & -> & -> & ->) by (by rewrite E2).
      destruct (has_posid_input_ pi).
      * destruct Q1 as (A & B & (r & C & D)). split; [done|]. split; [done|]. exists r. split; [done|].
        rewrite K2; [done|]. rewrite C. by left.
      * destruct Q1 as (A & (r & B & C) & (r' & D & E)). split; [done|]. rewrite B, D in K2. simpl in K2.
        split; [exists r|exists r']; (split; [done|]); (rewrite K2; [done|set_solver]).
    + exact (rp_live _ _ _ _ R2).
    + rewrite E2. simpl. rewrite F2. intros Hp'. rewrite F7. by apply Sq.
    + rewrite E2. simpl. rewrite F2, F6. intros _. by apply Sm.
    + by rewrite E2.
  - exists pi1, h1. unfold front. split; [do 3 f_equal; unfold pi_inputs; rewrite F1, F2, app_nil_r; done|].
    split; [done|]. split; [split|split; [split|]]; try (simpl; rewrite ?F1, ?F2; congruence).
    + rewrite F1. destruct Hm as [M1 (r & M2 & M3)]. split; [by rewrite F5|]. exists r. rewrite F3, F4, K1; done.
    + exact (rp_live _ _ _ _ R1).
    + by rewrite F2, F7.
    + done.
Qed.
Lemma pi_ok_frame k pi h h' : pi_ok k pi h -> kept (pi_ptrs pi) h h' -> live h' (pi_ptrs pi) -> pi_ok k pi h'.
Proof.
  intros [H1 [M1 (qm & M2 & M3)] [Q0 Q] _] K Hl.
  assert (∀ o q t, o ∈ [position_ids_ pi; position_ids_next_ pi; attention_mask_ pi] -> o = Some q ->
    tensors h !! q = Some t -> tensors h' !! q = Some t) as F.
  { intros o q t Ho -> Ht. rewrite K; [done|]. unfold pi_ptrs. apply list_elem_of_lookup in Ho as [i Hi]. by eapply elem_of_own. }
  split; [done| |split; [done|]|done].
  - split; [done|]. exists qm. split; [done|]. eapply F; [|exact M2|exact M3]. right. right. by left.
  - destruct (if has_posid_input_ pi then k else 0)%nat as [|j].
    + destruct Q as (A & (q & B & C) & (q' & D & E)). split; [done|]. split.
      * exists q. split; [done|]. eapply F; [|exact B|exact C]. by left.
      * exists q'. split; [done|]. eapply F; [|exact D|exact E]. right. by left.
    + destruct Q as (A & B & (q & C & D)). split; [done|]. split; [done|]. exists q. split; [done|].
      eapply F; [|exact C|exact D]. by left.
Qed.

Lemma pi_inputs_owned k pi h : pi_ok k pi h -> owned_ptrs (pi_ptrs pi) (pi_inputs pi).
Proof.
  intros [_ [_ (qm & M & _)] [_ Q] _]. unfold pi_inputs, pi_ptrs. rewrite M. apply Forall_app. split.
  - destruct (has_posid_input_ pi); [|constructor]. apply Forall_singleton.
    assert (∃ q, position_ids_ pi = Some q) as [q ->] by (destruct k; [destruct Q as (_ & (q & ? & _) & _)|destruct Q as (_ & _ & q & ? & _)]; by exists q).
    exists q. split; [done|]. by left.
  - destruct (has_mask_input_ pi); [|constructor]. apply Forall_singleton. exists qm. split; [done|].
    by apply (elem_of_own _ 2).
Qed.

(** **** Adding the inputs *)
Lemma PositionInputs_Add_ok pi s : ∃ pi', PositionInputs_Add m pi s = (pi', 
      mkState (input_names_ s ++ (if has_posid_input_ pi then [position_ids (dec_in m)] else [])
                              ++ (if has_mask_input_ pi then [attention_mask (dec_in m)] else []))
        (output_names_ s) (inputs_ s ++ pi_inputs pi') (outputs_ s) (first_run_ s) (current_batch_size_ s)) ∧
    (∀ k h, pi_ok k pi h -> pi_ok k pi' h) ∧ pi_ptrs pi' = pi_ptrs pi ∧ pi_inputs pi' = pi_inputs pi ∧
    (∀ s' post, inputs_ s' = inputs_ s ++ pi_inputs pi' ++ post -> pi_slots pi' s' (inputs_ s) post) ∧
    has_mask_input_ pi' = has_mask_input_ pi ∧ has_posid_input_ pi' = has_posid_input_ pi.
Proof.
  unfold PositionInputs_Add, AddPositionIDs, AddAttentionMask.
  destruct pi as [mi qi ty [|] [|] qsh q msh mk nx mn init f1 f2]; simpl; eexists;
    (split; [f_equal; unfold push_input, pi_inputs; destruct s; simpl; rewrite ?app_nil_r, <- ?app_assoc; reflexivity|]); simpl.
  all: (split; [by intros k h [? [? ?] ? ?]; split; simpl in *|]); (split; [done|]); (split; [done|]); split; [|done].
  all: intros s' post E; split; simpl; rewrite ?length_app, ?Nat.add_0_r; done.
Qed.
End positions.

(** ** What the session is given, step by step *)
Fixpoint PositionInputs_Updates (m : model) (p : GeneratorParams) (k : nat) (x : PositionInputs * State * heap)
  : outcome (PositionInputs * State * heap) :=
  match k with
  | O => Ok x
  | S k => '(pi, s, h) ← PositionInputs_Updates m p k x; PositionInputs_Update m (Z.of_nat (p_seq p + S k)) pi s h
  end.

(** C13: whatever the prompt and its padding, as long as an [int] holds the
    size of the mask, the constructor reports the
    number of tokens of every row as its sequence length, and after any number
    of one-token updates the session is given a mask that is 0 at the pads of
    the prompt and 1 elsewhere with a 1 per generated token, and as position id
    of a beam the number of tokens before its last. *)
Theorem PositionInputs_run (m : model) (p : GeneratorParams) (lengths : list (option Z)) (h : heap) (k : nat)
    (ty : ONNXTensorElementDataType) :
  device_type_ m = CPU -> params_ok p -> heap_ok h -> position_type m = Ok ty ->
  HasInput (session_info_ m) (attention_mask (dec_in m)) = true ->
  HasInput (session_info_ m) (position_ids (dec_in m)) = true ->
  length lengths = beam_rows p -> mask_int p (p_seq p + k) ->
  ∃ pi0 lengths' h0 pi s h' qm qp, PositionInputs_new m p lengths h = Ok (pi0, lengths', h0) ∧
    lengths' = map Some (position_at p 0) ∧
    (let '(pi1, s1) := PositionInputs_Add m pi0 State_new in PositionInputs_Updates m p k (pi1, s1, h0)) = Ok (pi, s, h') ∧
    input_names_ s = [position_ids (dec_in m); attention_mask (dec_in m)] ∧ inputs_ s = [Some qp; Some qm] ∧
    (∃ t, tensors h' !! qm = Some t ∧ shape t = [beam_rows p; p_seq p + k]%nat ∧ data t = mask_at p k) ∧
    (∃ t, tensors h' !! qp = Some t ∧
      match k with
      | O => shape t = [beam_rows p; p_seq p] ∧ data t = prompt_positions p
      | S k => shape t = [beam_rows p; 1%nat] ∧ data t = position_at p k
      end) ∧
    replaces h h' [] (pi_ptrs pi).
Proof.
  intros Hdev Hp Hok Hty Em Eq Hlen Hmax.
  destruct (PositionInputs_new_ok m p Hp lengths h Hdev Hok (ex_intro _ ty Hty) Hlen) as (pi0 & l' & h0 & E0 & R0 & O0 & -> & F1 & F2).
  destruct (PositionInputs_Add_ok m p pi0 State_new) as (pi1 & E1 & A1 & P1 & _ & S1 & G1 & G2).
  assert (has_mask_input_ pi1 = true ∧ has_posid_input_ pi1 = true) as [H1 H2] by (split; congruence).
  rewrite F1, Em, F2, Eq in E1. simpl in E1.
  assert (∃ pi s h', PositionInputs_Updates m p k (pi1, (mkState [position_ids (dec_in m); attention_mask (dec_in m)] [] (pi_inputs pi1) [] true 0), h0)
      = Ok (pi, s, h') ∧ replaces h h' [] (pi_ptrs pi) ∧ pi_ok p k pi h' ∧ pi_slots pi s [] [] ∧
      has_mask_input_ pi = true ∧ has_posid_input_ pi = true ∧
      input_names_ s = [position_ids (dec_in m); attention_mask (dec_in m)]) as (pi & s & h' & E & R & O & Sl & I1 & I2 & N).
  { clear E1. induction k as [|k IH].
    - eexists _, _, _. split; [reflexivity|]. rewrite P1. split; [done|]. split; [by apply A1|]. split; [|done].
      apply (S1 _ []). simpl. by rewrite app_nil_r.
    - destruct IH as (pi & s & h' & E & R & O & Sl & I1 & I2 & N); [eapply mask_int_mono; [done..|lia]|]. simpl. rewrite E, bind_Ok. cbv beta iota.
      destruct (PositionInputs_Update_ok m p Hp k pi s h' [] [] Hdev Hmax O Sl) as (pi' & h'' & E' & R' & O' & Sl' & J1 & J2).
      rewrite E'. eexists _, _, _. split; [reflexivity|]. split; [by eapply replaces_trans|]. split; [done|]. split; [done|].
      split; [congruence|]. split; [congruence|]. done. }
  destruct O as [_ Om Oq _]. rewrite I1 in Om. rewrite I2 in Oq. destruct Om as [_ (qm & Eqm & Tm)], Oq as [_ Oq].
  assert (∃ qp t, position_ids_ pi = Some qp ∧ tensors h' !! qp = Some t ∧
      match k with
      | O => shape t = [beam_rows p; p_seq p] ∧ data t = prompt_positions p
      | S k => shape t = [beam_rows p; 1%nat] ∧ data t = position_at p k
      end) as (qp & t & Eqp & Tp & Sp).
  { destruct k as [|k]; [destruct Oq as (_ & (q & ? & ?) & _)|destruct Oq as (_ & _ & q & ? & ?)]; by eexists _, _. }
  exists pi0, (map Some (position_at p 0)), h0, pi, s, h', qm, qp. split; [done|]. split; [done|].
  rewrite E1. split; [exact E|]. split; [done|].
  split; [|split; [by eexists|split; [by exists t|done]]].
  rewrite (ps_inputs _ _ _ _ Sl). unfold pi_inputs. by rewrite I1, I2, Eqm, Eqp.
Qed.

(** An update gives the session the next token of every row, in a tensor
    of one column that the input list points to, and touches no other tensor. *)
Theorem InputIDs_Update_spec (m : model) (toks : list Z) (ii : InputIDs) (s : State) (h : heap) (pre post : list (option ptr)) :
  device_type_ m = CPU -> live h [ii_value ii] -> ids_ok ii s h pre post -> length toks = fst (ii_shape ii) ->
  ∃ ii' s' h', InputIDs_Update m toks ii s h = Ok (ii', s', h') ∧
    inputs_ s' = pre ++ Some (ii_value ii') :: post ∧ outputs_ s' = outputs_ s ∧ input_names_ s' = input_names_ s ∧
    tensors h' !! ii_value ii' = Some (mkOrt (ii_type ii) [fst (ii_shape ii); 1%nat] toks) ∧
    ids_ok ii' s' h' pre post ∧ replaces h h' [ii_value ii] [ii_value ii'].
Proof.
  intros Hdev Hl Hi Hlen.
  destruct (InputIDs_Update_ok m toks ii s h pre post Hdev Hl Hi Hlen) as (ii' & h' & E & R & Sh & Ty & Ix & _ & T).
  eexists ii', _, h'. split; [exact E|]. split; [done|]. split; [done|]. split; [done|]. split; [done|].
  split; [split|exact R].
  - rewrite Ix. apply Hi.
  - done.
  - rewrite Ty. apply Hi.
  - rewrite Sh, Ty. eauto.
Qed.

(** ** Concrete runs *)
Module Examples.
Definition ex_model (ty : ONNXTensorElementDataType) : model :=
  mkModelCtx Config_default
    (mkSessionInfo (list_to_map [("input_ids"%string, ty); ("attention_mask"%string, T_INT64); ("position_ids"%string, T_INT64)]) ∅) CPU.

Definition ex_params (beams b s : Z) (l : list Z) : GeneratorParams :=
  mkParams (set_num_beams beams (set_max_length 20 Search_default)) 0 99 10 20 b 0 false s 8 CPU l [] false.
Definition ex_heap0 : heap := mkHeap ∅ O (fun _ _ => 77) O.

Lemma ex_heap0_ok : heap_ok ex_heap0.
Proof. intros p t. simpl. by rewrite lookup_empty. Qed.

(* two rows, the first with a pad at its front, for two beams *)
Definition ex_p : GeneratorParams := ex_params 2 2 3 [0; 5; 6; 7; 8; 9].

Lemma ex_p_ok : params_ok ex_p.
Proof. split; vm_compute; try done. Qed.

Lemma PositionInputs_run_witness : ∃ pi s h qm qp l,
  (x ← PositionInputs_new (ex_model T_INT64) ex_p (replicate 4 None) ex_heap0;
   let '(pi, l, h) := x in
   let '(pi, s) := PositionInputs_Add (ex_model T_INT64) pi State_new in
   x ← PositionInputs_Updates (ex_model T_INT64) ex_p 2 (pi, s, h); Ok (l, x))
  = Ok (l, (pi, s, h)) ∧ inputs_ s = [Some qp; Some qm] ∧ l = map Some [2; 2; 3; 3] ∧
  data <$> tensors h !! qm = Some [0; 1; 1; 1; 1; 0; 1; 1; 1; 1; 1; 1; 1; 1; 1; 1; 1; 1; 1; 1] ∧
  data <$> tensors h !! qp = Some [3; 3; 4; 4].
Proof.
  destruct (PositionInputs_run (ex_model T_INT64) ex_p (replicate 4 None) ex_heap0 2 T_INT64)
    as (pi0 & l & h0 & pi & s & h & qm & qp & E0 & El & E & _ & Ein & (tm & Tm & _ & Dm) & (tp & Tp & _ & Dp) & _);
    [done|exact ex_p_ok|exact ex_heap0_ok|reflexivity|reflexivity|reflexivity|reflexivity|vm_compute; discriminate|].
  exists pi, s, h, qm, qp, l. rewrite E0, bind_Ok. destruct (PositionInputs_Add _ pi0 State_new) as [pi1 s1].
  rewrite E, bind_Ok. split; [done|]. split; [done|]. split; [by rewrite El|].
  rewrite Tm, Tp. simpl. rewrite Dm, Dp. by split.
Defined.

Definition ex_ids : InputIDs := mkInputIDs "input_ids" (Some 0%nat) (2, 3)%nat T_INT64 0%nat false.
Definition ex_ids_heap : heap := (new_tensor (mkOrt T_INT64 [2; 3]%nat [0; 5; 6; 7; 8; 9]) ex_heap0).1.
Definition ex_ids_state : State := push_input "input_ids" (Some 0%nat) State_new.

Lemma InputIDs_Update_spec_witness : ∃ ii s h,
  InputIDs_Update (ex_model T_INT64) [3; 4] ex_ids ex_ids_state ex_ids_heap = Ok (ii, s, h) ∧
  inputs_ s = [Some (ii_value ii)] ∧ tensors h !! ii_value ii = Some (mkOrt T_INT64 [2; 1]%nat [3; 4]).
Proof.
  destruct (InputIDs_Update_spec (ex_model T_INT64) [3; 4] ex_ids ex_ids_state ex_ids_heap [] [])
    as (ii & s & h & E & Ein & _ & _ & T & _ & _); [done| | |done|].
  - apply (new_tensor_replaces ex_heap0 (mkOrt T_INT64 [2; 3]%nat [0; 5; 6; 7; 8; 9]) ex_heap0_ok). done.
  - split; [done|done|by right|]. by exists [0; 5; 6; 7; 8; 9].
  - exists ii, s, h. by split.
Defined.

(** With 32-bit ids, one beam and a prompt of one token per row the input tensor
    is the caller's memory, and the first update writes the generated tokens
    over the prompt. *)
Example one_token_prompt_overwritten :
  let p := ex_params 1 2 1 [5; 6] in
  ('(ii, h) ← InputIDs_new (ex_model T_INT32) p ex_heap0;
   before ← prompt_now ii h p;
   let '(ii, s) := InputIDs_Add ii State_new in
   '(ii, s, h) ← InputIDs_Update (ex_model T_INT32) [8; 9] ii s h;
   after ← prompt_now ii h p; Ok (before, after)) = Ok ([5; 6], [8; 9]).
Proof. vm_compute. reflexivity. Qed.
End Examples.
