(* ===== verification/Models.v ===== *)
(** * Loading a model, and its tokenizer (src/models/model.cpp)

    [CreateModel] reads the configuration, turns its session options into calls
    of ONNX Runtime and loads the sessions of the model's kind.  What the calls
    do is not modelled: they are recorded in order, as calls that succeed; what
    a session file holds, the number of cores and whether the build has CUDA are
    parameters.  The tokenizer of ONNX Runtime Extensions is a parameter of the
    second half: encoding, decoding, and batches of both. *)
From Stdlib Require Import ZArith Lia Ascii.
From Stdlib Require String.
From stdpp Require Import base numbers list strings gmap.
From S2P Require Import Prelude Float32 Json Config Tensors Params Inputs.
Local Open Scope Z_scope.

(** ** Session options *)
Inductive option_call : Type :=
  | SetIntraOpNumThreads (n : Z)
  | SetInterOpNumThreads (n : Z)
  | CpuMemArena (enable : bool)
  | MemPattern (enable : bool)
  | SetLogId (id : string)
  | SetLogSeverityLevel (level : Z)
  | EnableProfiling (prefix : string)
  | AppendExecutionProvider (name : string) (keys_values : list (string * string)).

Section options.
Context (hardware_concurrency : Z) (use_cuda : bool).

Definition call_if {A} (o : option A) (f : A -> option_call) (calls : list option_call) : list option_call :=
  match o with Some x => calls ++ [f x] | None => calls end.

(* the CUDA provider's stream cannot be created in a build without CUDA *)
Definition append_provider (po : ProviderOptions) (st : list option_call * DeviceType) : outcome (list option_call * DeviceType) :=
  let '(calls, device) := st in
  if String.eqb (po_name po) "cuda" then
    if use_cuda then Ok (calls ++ [AppendExecutionProvider "cuda" (po_options po)], CUDA)
    else Throw (RuntimeError "Trying to create a cuda stream in a non cuda build")
  else if String.eqb (po_name po) "rocm" then Ok (calls ++ [AppendExecutionProvider "rocm" (po_options po)], device)
  else Throw (RuntimeError ("Unknown provider type: " ++ po_name po)).

(** Model::CreateSessionOptions; the arena's option decides about the pattern. *)
Definition CreateSessionOptions (options : SessionOptions) : outcome (list option_call * DeviceType) :=
  let num_of_cores := Z.max 1 (i32 (hardware_concurrency / 2)) in
  let calls := [SetIntraOpNumThreads (Z.min num_of_cores 16)] in
  let calls := call_if (intra_op_num_threads options) SetIntraOpNumThreads calls in
  let calls := call_if (inter_op_num_threads options) SetInterOpNumThreads calls in
  let calls := call_if (enable_cpu_mem_arena options) CpuMemArena calls in
  calls ← match enable_mem_pattern options with
          | Some _ => match enable_cpu_mem_arena options with
                      | Some b => Ok (calls ++ [MemPattern b])
                      | None => Throw BadOptionalAccess
                      end
          | None => Ok calls
          end;
  let calls := call_if (log_id options) SetLogId calls in
  let calls := call_if (log_severity_level options) SetLogSeverityLevel calls in
  let calls := call_if (enable_profiling options) EnableProfiling calls in
  for_each append_provider (provider_options options) (calls, CPU).
End options.

(** ** Models *)
Inductive ModelKind : Type := Gpt_Model | DecoderOnly_Model | Whisper_Model | MultiModalVisionModel.

Definition model_kind (type : string) : option ModelKind :=
  if String.eqb type "gpt2" then Some Gpt_Model else
  if bool_decide (type ∈ ["llama"; "gemma"; "mistral"; "phi"; "phi3"; "phi3small"]) then Some DecoderOnly_Model else
  if String.eqb type "whisper" then Some Whisper_Model else
  if String.eqb type "phi3v" then Some MultiModalVisionModel else None.

Record LoadedModel := mkLoaded {
  lm_kind : ModelKind;
  lm_model : model;
  lm_options : list option_call;
  lm_encoder_info : option SessionInfo }.

Section models.
Context (fs : string -> file) (load : string -> list option_call -> outcome session_io).
Context (hardware_concurrency : Z) (use_cuda : bool).

(* OrtSession::Create of a file of the configuration's directory *)
Definition load_session (c : Config) (calls : list option_call) (filename : string) : outcome session_io :=
  load (join_path (config_path c) filename) calls.

Definition load_model (kind : ModelKind) (c : Config) : outcome LoadedModel :=
  let m := Config.model c in
  '(calls, device) ← CreateSessionOptions hardware_concurrency use_cuda (session_options (decoder m));
  let load := load_session c calls in
  match kind with
  | Gpt_Model | DecoderOnly_Model =>
      decoder ← load (dec_filename (decoder m));
      info ← SessionInfo_new decoder;
      Ok (mkLoaded kind (mkModelCtx c info device) calls None)
  | Whisper_Model =>
      decoder ← load (dec_filename (decoder m));
      encoder ← load (edi_filename (encoder_decoder_init m));
      info ← SessionInfo_new decoder;
      encoder_info ← SessionInfo_new encoder;
      Ok (mkLoaded kind (mkModelCtx c info device) calls (Some encoder_info))
  | MultiModalVisionModel =>
      embedding ← load (emb_filename (embedding m));
      vision ← load (vis_filename (vision m));
      decoder ← load (dec_filename (decoder m));
      info ← SessionInfo_new decoder;
      info ← SessionInfo_Add embedding info;
      info ← SessionInfo_Add vision info;
      Ok (mkLoaded kind (mkModelCtx c info device) calls None)
  end.

Definition CreateModel (path : string) : outcome LoadedModel :=
  c ← Config_load fs path;
  match model_kind (type (Config.model c)) with
  | Some kind => load_model kind c
  | None => Throw (RuntimeError ("Unsupported model_type in config.json: " ++ type (Config.model c)))
  end.
End models.

(** ** The tokenizer *)
Section tokenizer.
Context (C : Type) (tokenize : string -> outcome (list Z)) (detokenize : list Z -> outcome string).
Context (detokenize_cached : C -> Z -> outcome (string * C)) (empty_cache : C) (pad_token_id_ : Z).

(* token ids are unsigned in the library and signed here *)
Definition Encode (text : string) : outcome (list Z) := ids ← tokenize text; Ok (map i32 ids).
Definition Decode (tokens : list Z) : outcome string := detokenize (map u32 tokens).

Definition EncodeBatch (strings : list string) : outcome (list Z) :=
  sequences ← for_ (length strings) (fun i sequences =>
    s ← get strings i; ids ← Encode s; Ok (sequences ++ [ids])) [];
  PadInputs sequences pad_token_id_.

Definition DecodeBatch (sequences : list Z) (count : nat) : outcome (list string) :=
  if (count =? 0)%nat then Undef (* division by zero *) else
  if negb (length sequences mod count =? 0)%nat
  then Throw (RuntimeError "DecodeBatch: sequences must be evenly divisible by the count") else
  let sequence_length := (length sequences / count)%nat in
  for_ count (fun i strings =>
    tokens ← subspan sequences (sequence_length * i) sequence_length;
    s ← Decode tokens; Ok (strings ++ [s])) [].

(** A stream decodes token by token and keeps the library's cache. *)
Record TokenizerStream := mkStream { cache_ : C; chunk_ : string }.
Definition TokenizerStream_new : TokenizerStream := mkStream empty_cache "".
Definition TokenizerStream_Decode (token : Z) (s : TokenizerStream) : outcome (string * TokenizerStream) :=
  '(string, cache) ← detokenize_cached (cache_ s) (u32 token); Ok (string, mkStream cache string).
End tokenizer.

(** ** Properties *)
Definition intra_threads (calls : list option_call) : option Z :=
  last (omap (fun c => match c with SetIntraOpNumThreads n => Some n | _ => None end) calls).
Definition appended (calls : list option_call) : list (string * list (string * string)) :=
  omap (fun c => match c with AppendExecutionProvider n kv => Some (n, kv) | _ => None end) calls.
Definition known_provider (use_cuda : bool) (name : string) : Prop := name = "cuda"%string ∧ use_cuda = true ∨ name = "rocm"%string.

Lemma appended_call_if {A} (o : option A) f calls : (∀ x, appended [f x] = []) -> appended (call_if o f calls) = appended calls.
Proof. intros Hf. destruct o; simpl; [|done]. unfold appended. rewrite omap_app. pose proof (Hf a) as Ha. unfold appended in Ha. rewrite Ha. apply app_nil_r. Qed.

Lemma intra_threads_call_if {A} (o : option A) f calls :
  (∀ x, ∀ n, f x ≠ SetIntraOpNumThreads n) -> intra_threads (call_if o f calls) = intra_threads calls.
Proof.
  intros Hf. destruct o as [a|]; simpl; [|done]. unfold intra_threads. rewrite omap_app. simpl.
  destruct (f a) eqn:E; try (by rewrite app_nil_r). by destruct (Hf a n).
Qed.

Lemma intra_threads_snoc calls n : intra_threads (calls ++ [SetIntraOpNumThreads n]) = Some n.
Proof. unfold intra_threads. rewrite omap_app. simpl. by rewrite last_snoc. Qed.

(* the providers leave the other calls alone and are appended in order *)
Lemma append_providers use_cuda pos : ∀ calls device,
  match for_each (append_provider use_cuda) pos (calls, device) with
  | Ok (calls', device') => intra_threads calls' = intra_threads calls ∧
      appended calls' = appended calls ++ map (fun po => (po_name po, po_options po)) pos ∧
      Forall (fun po => known_provider use_cuda (po_name po)) pos ∧
      device' = if bool_decide ("cuda"%string ∈ map po_name pos) then CUDA else device
  | Throw _ => ∃ po, po ∈ pos ∧ ¬ known_provider use_cuda (po_name po)
  | Undef => False
  end.
Proof.
  assert (∀ calls n kv, intra_threads (calls ++ [AppendExecutionProvider n kv]) = intra_threads calls) as Hi.
  { intros calls n kv. unfold intra_threads. rewrite omap_app. simpl. by rewrite app_nil_r. }
  assert (∀ calls n kv, appended (calls ++ [AppendExecutionProvider n kv]) = appended calls ++ [(n, kv)]) as Ha.
  { intros calls n kv. unfold appended. by rewrite omap_app. }
  induction pos as [|po pos IH]; intros calls device; [simpl; by rewrite app_nil_r|].
  rewrite for_each_cons. cbn [append_provider].
  destruct (String.eqb_spec (po_name po) "cuda") as [En|Hn]; [destruct use_cuda eqn:Eu|destruct (String.eqb_spec (po_name po) "rocm") as [En|Hn']].
  - rewrite bind_Ok. specialize (IH (calls ++ [AppendExecutionProvider "cuda" (po_options po)]) CUDA).
    destruct (for_each _ pos _) as [[calls' device']|e|]; [|destruct IH as (q & Hq & ?); exists q; by split; [right|]|done].
    destruct IH as (-> & -> & Hf & ->). rewrite Hi, Ha, <- app_assoc. split; [done|]. split; [simpl; by rewrite En|].
    split; [apply Forall_cons; split; [left; by split|done]|]. assert ("cuda"%string ∈ map po_name (po :: pos)) as Hin by (simpl; rewrite En; by left).
    rewrite (bool_decide_eq_true_2 _ Hin). by case_bool_decide.
  - simpl. exists po. split; [by left|]. intros [[_ ?]|?]; congruence.
  - rewrite bind_Ok. specialize (IH (calls ++ [AppendExecutionProvider "rocm" (po_options po)]) device).
    destruct (for_each _ pos _) as [[calls' device']|e|]; [|destruct IH as (q & Hq & ?); exists q; by split; [right|]|done].
    destruct IH as (-> & -> & Hf & ->). rewrite Hi, Ha, <- app_assoc. split; [done|]. split; [simpl; by rewrite En|].
    split; [apply Forall_cons; split; [by right|done]|].
    rewrite (bool_decide_ext ("cuda"%string ∈ map po_name (po :: pos)) ("cuda"%string ∈ map po_name pos)); [done|].
    simpl. rewrite elem_of_cons, En. naive_solver.
  - simpl. exists po. split; [by left|]. intros [[? _]|?]; congruence.
Qed.

(** What the session options turn into, and when they cannot. *)
Lemma CreateSessionOptions_ok hardware_concurrency use_cuda o :
  match CreateSessionOptions hardware_concurrency use_cuda o with
  | Ok (calls, device) =>
      (∃ n, intra_threads calls = Some n ∧ (intra_op_num_threads o = Some n ∨ intra_op_num_threads o = None ∧ 1 <= n <= 16)) ∧
      appended calls = map (fun po => (po_name po, po_options po)) (provider_options o) ∧
      Forall (fun po => known_provider use_cuda (po_name po)) (provider_options o) ∧
      device = (if bool_decide ("cuda"%string ∈ map po_name (provider_options o)) then CUDA else CPU)
  | Throw e => (e = BadOptionalAccess ∧ is_Some (enable_mem_pattern o) ∧ enable_cpu_mem_arena o = None) ∨
      ∃ po, po ∈ provider_options o ∧ ¬ known_provider use_cuda (po_name po)
  | Undef => False
  end.
Proof.
  unfold CreateSessionOptions. cbv zeta. set (n0 := Z.min (Z.max 1 _) 16).
  assert (1 <= n0 <= 16) as Hn0 by (unfold n0; lia). set (calls1 := call_if (intra_op_num_threads o) _ _).
  assert (∃ n, intra_threads calls1 = Some n ∧ (intra_op_num_threads o = Some n ∨ intra_op_num_threads o = None ∧ 1 <= n <= 16)) as H1.
  { unfold calls1. destruct (intra_op_num_threads o) as [n|]; simpl; [exists n; by split; [|left]|exists n0; by split; [|right]]. }
  assert (appended calls1 = []) as A1 by (unfold calls1; by rewrite appended_call_if).
  set (calls2 := call_if (enable_cpu_mem_arena o) _ _).
  assert (intra_threads calls2 = intra_threads calls1) as I2 by (unfold calls2; by rewrite !intra_threads_call_if).
  assert (appended calls2 = []) as A2 by (unfold calls2; by rewrite !appended_call_if).
  destruct (enable_mem_pattern o) as [pattern|]; [destruct (enable_cpu_mem_arena o) as [arena|]|].
  2:{ left. by split; [|split]. }
  all: rewrite bind_Ok;
    match goal with |- context [for_each _ _ (?c, CPU)] =>
      pose proof (append_providers use_cuda (provider_options o) c CPU) as H;
      assert (intra_threads c = intra_threads calls1 ∧ appended c = []) as [I3 A3]
        by (rewrite !intra_threads_call_if, !appended_call_if by done; unfold intra_threads, appended in *;
            rewrite ?omap_app; simpl; rewrite ?app_nil_r; by split)
    end;
    destruct (for_each _ _ _) as [[calls device]|e|]; [|by right|done];
    destruct H as (E1 & E2 & E3 & E4); rewrite E1, I3, E2, A3; by repeat split.
Qed.

(* the session information is that of the sessions, the decoder's first *)
Lemma SessionInfo_new_knows io info : SessionInfo_new io = Ok info -> ∀ n t, (n, t) ∈ fst io -> GetInputDataType info n = Ok t.
Proof.
  intros E. pose proof (SessionInfo_Add_spec io (mkSessionInfo ∅ ∅)) as H. unfold SessionInfo_new in E. rewrite E in H. apply H.
Qed.

Lemma SessionInfo_Add_knows io s info : SessionInfo_Add io s = Ok info ->
  ∀ n u, GetInputDataType s n = Ok u -> GetInputDataType info n = Ok u.
Proof. intros E. pose proof (SessionInfo_Add_spec io s) as H. rewrite E in H. apply H. Qed.

Lemma load_model_ok (load : string -> list option_call -> outcome session_io) hardware_concurrency use_cuda kind c lm :
  load_model load hardware_concurrency use_cuda kind c = Ok lm ->
  config_ (lm_model lm) = c ∧ lm_kind lm = kind ∧
  CreateSessionOptions hardware_concurrency use_cuda (session_options (decoder (Config.model c))) = Ok (lm_options lm, device_type_ (lm_model lm)) ∧
  ∃ io, load (join_path (config_path c) (dec_filename (decoder (Config.model c)))) (lm_options lm) = Ok io ∧
    ∀ n t, (n, t) ∈ fst io -> GetInputDataType (session_info_ (lm_model lm)) n = Ok t.
Proof.
  unfold load_model. intros H. inv_ok. destruct x as [calls device]. unfold load_session in H.
  destruct kind; inv_ok; cbn [lm_model lm_kind lm_options config_ device_type_ session_info_]; (do 3 (split; [done|]));
    (eexists; split; [eassumption|]); intros n t Hin;
    repeat match goal with E : SessionInfo_Add _ _ = Ok _ |- _ => eapply (SessionInfo_Add_knows _ _ _ E); clear E end;
    (eapply SessionInfo_new_knows; eassumption).
Qed.

(** C22: whatever the files say, a model that is created has a configuration with
    a context length and a maximum length, is of the kind its type names, knows
    the inputs of its decoder session by their types, runs with the configured
    number of threads or one from 1 to 16, and has the configured execution
    providers appended to its session options with their settings: at most one,
    and of a known name, cuda in a build with CUDA or rocm; its device is CUDA
    exactly when that provider is. *)
Theorem CreateModel_spec (fs : string -> file) (load : string -> list option_call -> outcome session_io)
    (hardware_concurrency : Z) (use_cuda : bool) (path : string) (lm : LoadedModel) :
  CreateModel fs load hardware_concurrency use_cuda path = Ok lm ->
  let c := config_ (lm_model lm) in
  let so := session_options (decoder (Config.model c)) in
  Config_load fs path = Ok c ∧ context_length (Config.model c) ≠ 0 ∧ max_length (search c) ≠ 0 ∧
  model_kind (type (Config.model c)) = Some (lm_kind lm) ∧
  (∃ io, load (join_path (config_path c) (dec_filename (decoder (Config.model c)))) (lm_options lm) = Ok io ∧
     ∀ n t, (n, t) ∈ fst io -> GetInputDataType (session_info_ (lm_model lm)) n = Ok t) ∧
  (∃ n, intra_threads (lm_options lm) = Some n ∧ (intra_op_num_threads so = Some n ∨ intra_op_num_threads so = None ∧ 1 <= n <= 16)) ∧
  appended (lm_options lm) = map (fun po => (po_name po, po_options po)) (provider_options so) ∧
  (length (appended (lm_options lm)) <= 1)%nat ∧
  (∀ name kv, (name, kv) ∈ appended (lm_options lm) -> name = "cuda"%string ∧ use_cuda = true ∨ name = "rocm"%string) ∧
  (device_type_ (lm_model lm) = CUDA ↔ ∃ kv, appended (lm_options lm) = [("cuda"%string, kv)]) ∧
  (device_type_ (lm_model lm) = CUDA ∨ device_type_ (lm_model lm) = CPU).
Proof.
  intros H. unfold CreateModel in H. inv_ok.
  match goal with E : Config_load fs path = Ok ?c0 |- _ => destruct (Config_load_ok fs path c0 E) as (L1 & L2 & L3); rename c0 into c end.
  destruct (model_kind _) as [kind|] eqn:Ek; [|done].
  assert (config_ (lm_model lm) = c ∧ lm_kind lm = kind ∧
    CreateSessionOptions hardware_concurrency use_cuda (session_options (decoder (Config.model c))) = Ok (lm_options lm, device_type_ (lm_model lm)) ∧
    ∃ io, load (join_path (config_path c) (dec_filename (decoder (Config.model c)))) (lm_options lm) = Ok io ∧
      ∀ n t, (n, t) ∈ fst io -> GetInputDataType (session_info_ (lm_model lm)) n = Ok t) as (-> & -> & Eo & Hio) by (by apply (load_model_ok load)).
  pose proof (CreateSessionOptions_ok hardware_concurrency use_cuda (session_options (decoder (Config.model c)))) as Ho.
  rewrite Eo in Ho. destruct Ho as (Hthreads & Happ & Hknown & Hdev).
  do 5 (split; [done|]). split; [done|]. split; [done|]. rewrite Hdev, Happ. split; [by rewrite length_map|].
  split.
  { intros name kv (po & [= -> ->] & Hpo)%list_elem_of_fmap. exact (proj1 (Forall_forall _ _) Hknown po Hpo). }
  clear Hdev Happ. destruct (provider_options _) as [|po [|po2 pos]]; [..|simpl in L3; lia]; simpl.
  - split; [split; [done|by intros [kv ?]]|by right].
  - case_bool_decide as Hc.
    + split; [|by left]. apply list_elem_of_singleton in Hc. split; [intros _; exists (po_options po); by rewrite <- Hc|done].
    + split; [|by right]. split; [done|]. intros [kv [= E _]]. destruct Hc. rewrite E. by left.
Qed.

(** *** Batches of strings *)
Section batches.
Context (tokenize : string -> outcome (list Z)) (detokenize : list Z -> outcome string) (pad_token_id_ : Z).
Context (plain : string -> Prop).

(** On plain strings the library's decoding undoes its encoding and padding adds nothing. *)
Class TokenizerLaw : Prop := {
  tokenize_plain s : plain s -> ∃ ids, tokenize s = Ok ids ∧ Forall (fun t => 0 <= t < 2 ^ 32) ids;
  detokenize_padded s ids n : plain s -> tokenize s = Ok ids -> detokenize (ids ++ replicate n (u32 pad_token_id_)) = Ok s }.

Lemma u32_i32 x : 0 <= x < 2 ^ 32 -> u32 (i32 x) = x.
Proof.
  intros Hx. unfold u32, i32. rewrite <- (Z.mod_small x (2 ^ 32)) at 2 by done.
  rewrite Zminus_mod, Z.mod_mod, <- Zminus_mod by done. f_equal. lia.
Qed.

Lemma window_concat {A} n (ls : list (list A)) : Forall (fun l => length l = n) ls -> ∀ i l, ls !! i = Some l ->
  take n (drop (n * i) (concat ls)) = l.
Proof.
  induction 1 as [|l0 ls Hl Hls IH]; intros i l Hi; [done|]. simpl. destruct i as [|i].
  - injection Hi as ->. rewrite Nat.mul_0_r, drop_0, take_app_le, take_ge by lia. done.
  - rewrite drop_app_ge by nia. replace (n * S i - length l0)%nat with (n * i)%nat by nia. by apply IH.
Qed.
Context {HT : TokenizerLaw}.

(** Encoding strings in a batch and decoding as many gives them back,
    whatever their lengths in tokens. *)
Theorem DecodeBatch_EncodeBatch (strings : list string) : strings ≠ [] -> Forall plain strings ->
  ∃ ids, EncodeBatch tokenize pad_token_id_ strings = Ok ids ∧ DecodeBatch detokenize ids (length strings) = Ok strings.
Proof.
  intros Hne Hp. rewrite Forall_lookup in Hp.
  set (enc := fun s q => ∃ ids, tokenize s = Ok ids ∧ Forall (fun t => 0 <= t < 2 ^ 32) ids ∧ q = map i32 ids).
  unfold EncodeBatch.
  match goal with |- context [for_ ?n ?f []] =>
    destruct (for_inv (fun k qs => Forall2 enc (take k strings) qs) n f []) as (qs & -> & Hq) end.
  { constructor. }
  { intros k qs Hk Hqs. destruct (lookup_lt_is_Some_2 strings k Hk) as [s Hs]. rewrite (get_Some _ _ _ Hs), bind_Ok.
    destruct (tokenize_plain s (Hp k s Hs)) as (ids & Ht & Hr). unfold Encode. rewrite Ht, !bind_Ok.
    eexists. split; [reflexivity|]. rewrite (take_S_r _ _ _ Hs). apply Forall2_app; [done|]. constructor; [by exists ids|constructor]. }
  rewrite take_ge in Hq by done. rewrite bind_Ok, PadInputs_spec. eexists. split; [reflexivity|].
  set (n := max_size qs). pose proof (Forall2_length _ _ _ Hq) as Hlen.
  assert (Forall (fun l => length l = n) (map (padded n pad_token_id_) qs)) as Hrows.
  { apply Forall_map, Forall_forall. intros q Hin. unfold padded. rewrite length_app, length_replicate.
    pose proof (proj2 (fold_max_ge qs 0) q Hin). unfold n, max_size. lia. }
  assert (length strings ≠ 0%nat) as Hl0 by (destruct strings; [done|discriminate]).
  unfold DecodeBatch. rewrite (length_concat_const _ n Hrows), length_map, <- Hlen.
  destruct (Nat.eqb_spec (length strings) 0) as [?|_]; [done|]. rewrite Nat.mul_comm, Nat.Div0.mod_mul. simpl negb. cbv iota zeta.
  rewrite Nat.div_mul by done.
  match goal with |- for_ ?m ?f [] = _ =>
    destruct (for_inv (fun k out => out = take k strings) m f []) as (out & -> & ->) end; [done| |by rewrite take_ge].
  intros i out Hi ->. destruct (lookup_lt_is_Some_2 strings i Hi) as [s Hs].
  destruct (Forall2_lookup_l _ _ _ _ _ Hq Hs) as (q & Hqi & ids & Ht & Hr & ->).
  rewrite subspan_le by (rewrite (length_concat_const _ n Hrows), length_map, <- Hlen; nia). rewrite bind_Ok.
  rewrite (window_concat n _ Hrows i (padded n pad_token_id_ (map i32 ids))) by (rewrite list_lookup_fmap, Hqi; done).
  assert (∀ k x, map u32 (replicate k x) = replicate k (u32 x)) as Hrep by (intros; apply fmap_replicate).
  unfold Decode, padded. rewrite map_app, map_map, Hrep.
  rewrite (map_ext_Forall _ id) by (eapply Forall_impl; [exact Hr|]; intros x; apply u32_i32). rewrite map_id.
  rewrite (detokenize_padded s ids) by (done || by apply (Hp i)). rewrite bind_Ok. eexists. split; [reflexivity|]. by rewrite (take_S_r _ _ _ Hs).
Qed.
End batches.

(** ** Concrete runs *)
Module Examples.
Definition ex_load (path : string) (_ : list option_call) : outcome session_io :=
  Ok ([("input_ids", T_INT64)], [("logits", T_FLOAT)])%string.
Definition ex_created : LoadedModel :=
  match CreateModel sample_fs ex_load 8 true "m" with
  | Ok lm => lm
  | _ => mkLoaded Gpt_Model (mkModelCtx Config_default (mkSessionInfo ∅ ∅) CPU) [] None
  end.

(* a tokenizer by character; 0 is no character *)
Definition ex_tokenize (s : string) : outcome (list Z) := Ok (map (fun c => Z.of_N (N_of_ascii c)) (String.list_ascii_of_string s)).
Definition ex_detokenize (tokens : list Z) : outcome string :=
  Ok (String.string_of_list_ascii (map (fun t => ascii_of_N (Z.to_N t)) (filter (fun t => t ≠ 0) tokens))).
Definition ex_plain (s : string) : Prop := Forall (fun c => N_of_ascii c ≠ 0%N) (String.list_ascii_of_string s).

#[export] Instance ex_tokenizer_law : TokenizerLaw ex_tokenize ex_detokenize 0 ex_plain.
Proof.
  split.
  - intros s Hs. eexists. split; [reflexivity|]. apply Forall_map, Forall_true. intros c. pose proof (N_ascii_bounded c). lia.
  - intros s ids n Hs [= <-]. unfold ex_detokenize. f_equal. rewrite <- (String.string_of_list_ascii_of_string s) at 2. f_equal.
    change (u32 0) with 0. rewrite filter_app.
    assert (filter (fun t => t ≠ 0) (replicate n 0) = []) as ->.
    { induction n as [|n IH]; [done|]. simpl. rewrite filter_cons_False; [done|]. intros H. by apply H. }
    rewrite app_nil_r. unfold ex_plain in Hs. induction Hs as [|c l Hc Hl IH]; [done|]. simpl.
    rewrite filter_cons_True by (intros H; apply Hc; lia). simpl. rewrite N2Z.id, ascii_N_embedding. by f_equal.
Qed.

Lemma DecodeBatch_EncodeBatch_witness : ∃ ids, EncodeBatch ex_tokenize 0 ["ab"; ""; "c"]%string = Ok ids ∧
  ids = [97; 98; 0; 0; 99; 0] ∧ DecodeBatch ex_detokenize ids 3 = Ok ["ab"; ""; "c"]%string.
Proof.
  destruct (DecodeBatch_EncodeBatch ex_tokenize ex_detokenize 0 ex_plain ["ab"; ""; "c"]%string) as (ids & E & D); [done| |].
  - repeat constructor; discriminate.
  - exists ids. split; [exact E|]. split; [|exact D]. vm_compute in E. by injection E as <-.
Defined.

Lemma CreateModel_spec_witness : CreateModel sample_fs ex_load 8 true "m" = Ok ex_created ∧
  lm_options ex_created = [SetIntraOpNumThreads 4; AppendExecutionProvider "cuda" [("enable_cuda_graph", "1")]%string] ∧
  appended (lm_options ex_created) = [("cuda", [("enable_cuda_graph", "1")])]%string.
Proof.
  assert (CreateModel sample_fs ex_load 8 true "m" = Ok ex_created) as E by (vm_compute; reflexivity).
  destruct (CreateModel_spec sample_fs ex_load 8 true "m" ex_created E) as (_ & _ & _ & _ & _ & _ & H & _).
  split; [exact E|]. split; [vm_compute; reflexivity|exact H].
Defined.

(** With only enable_mem_pattern set the options cannot be read. *)
Example mem_pattern_needs_arena :
  CreateSessionOptions 8 true (set_enable_mem_pattern (Some false) SessionOptions_default) = Throw BadOptionalAccess.
Proof. reflexivity. Qed.
End Examples.
