(* ===== verification/ImagePrompt.v ===== *)
(** * Prompts with images (src/models/prompt_image_processor.cpp)

    [ProcessImagePrompt] cuts a prompt at its image tags, tokenizes what is
    between them and puts in place of every tag as many tokens [-id] as the image
    has.  The regular expression of the tags is the recogniser [match_tag]; the
    iteration of std::sregex_token_iterator over its matches is [tokens_of].  The
    tokenizer is a parameter, and so is the preprocessing of ONNX Runtime
    Extensions, whose tensors are given. *)
From Stdlib Require Import ZArith Lia Ascii.
From Stdlib Require String.
From stdpp Require Import base numbers list strings gmap pretty.
From S2P Require Import Prelude Float32 Json Config Tensors Params Models.
Local Open Scope Z_scope.

(** ** Image tags *)
Definition chars : string -> list ascii := String.list_ascii_of_string.
Definition tag_open : list ascii := chars "<|image_".
Definition tag_close : list ascii := chars "|>".

Fixpoint strip (p l : list ascii) : option (list ascii) :=
  match p, l with
  | [], _ => Some l
  | a :: p, b :: l => if Ascii.eqb a b then strip p l else None
  | _ :: _, [] => None
  end.

(** <\|image_\d+\|> at the start of [l]: the digits and what follows the tag. *)
Definition match_tag (l : list ascii) : option (list ascii * list ascii) :=
  match strip tag_open l with
  | Some l =>
      let '(d, r) := span_digits l in
      match d with
      | [] => None
      | _ => match strip tag_close r with Some r => Some (d, r) | None => None end
      end
  | None => None
  end.

(** The matches from the left: the text before the first one, and the digits of
    every tag with the text after it. *)
Fixpoint split_tags (fuel : nat) (l : list ascii) : list ascii * list (list ascii * list ascii) :=
  match fuel with
  | O => ([], [])
  | S fuel =>
      match match_tag l with
      | Some (d, r) => let '(t, ts) := split_tags fuel r in ([], (d, t) :: ts)
      | None => match l with
                | [] => ([], [])
                | c :: l => let '(t, ts) := split_tags fuel l in (c :: t, ts)
                end
      end
  end.

(* the iterator of the texts leaves out an empty one after the last tag *)
Fixpoint drop_last_empty (l : list (list ascii)) : list (list ascii) :=
  match l with [] => [] | [[]] => [] | t :: l => t :: drop_last_empty l end.

Definition prompt_chunks (prompt : list ascii) : list (list ascii) :=
  let '(t, ts) := split_tags (S (length prompt)) prompt in t :: drop_last_empty ts.*2.
Definition image_tags (prompt : list ascii) : list (list ascii) := (split_tags (S (length prompt)) prompt).2.*1.

(* std::stoi of digits *)
Definition stoi (d : list ascii) : outcome Z :=
  if digits_val d <=? INT_MAX then Ok (digits_val d) else Throw OutOfRange.

(** ** ProcessImagePrompt *)
Section process.
Context (tokenize : string -> outcome (list Z)).

(* the loop that pushes the placeholders; nothing for a count that is not positive *)
Definition placeholders (count image_id : Z) : list Z := replicate (Z.to_nat count) (i32 (- image_id)).

(* the texts and the tags are put after each other *)
Definition place_chunk (input_ids_chunks : list (list Z)) (image_ids : list Z) (num_images : nat) (num_img_tokens : option (list Z))
    (i : nat) (input_ids : list Z) : outcome (list Z) :=
  chunk ← get input_ids_chunks i;
  let input_ids := input_ids ++ chunk in
  if (i <? length image_ids)%nat then
    id ← get image_ids i;
    if (id <? 1) || (i32 (Z.of_nat num_images) <? id)
    then Throw (RuntimeError ("Encountered unexpected value of image_id in the prompt. Expected a value <= "
                              ++ pretty (Z.of_nat num_images) ++ ". Actual value: " ++ pretty id))
    else match num_img_tokens with
         | Some counts => count ← getZ counts (id - 1); Ok (input_ids ++ placeholders count id)
         | None => Undef
         end
  else Ok input_ids.

Definition ProcessImagePrompt (prompt : list ascii) (num_img_tokens : option (list Z)) : outcome (list Z) :=
  let num_images := match num_img_tokens with Some l => length l | None => 0%nat end in
  let chunks := prompt_chunks prompt in
  input_ids_chunks ← for_ (length chunks) (fun i out =>
    c ← get chunks i; ids ← Encode tokenize (String.string_of_list_ascii c); Ok (out ++ [ids])) [];
  let tags := image_tags prompt in
  image_ids ← for_ (length tags) (fun i out => d ← get tags i; id ← stoi d; Ok (out ++ [id])) [];
  if negb (size (list_to_set image_ids : gset Z) =? num_images)%nat
  then Throw (RuntimeError "Number of unique image tags does not match the number of images.") else
  for_ (length input_ids_chunks) (place_chunk input_ids_chunks image_ids num_images num_img_tokens) [].
End process.

(** ** The image processor *)

(* a tensor of the preprocessing: floats as bit patterns, or integers *)
Record RawTensor := mkRaw { raw_shape : list nat; raw_data : list Z }.

(** [NamedTensors] is an unordered map: what a loop over it meets is a
    permutation of the elements that were emplaced (under different names). *)
Class BucketOrder (buckets : list (string * ptr) -> list (string * ptr)) : Prop := buckets_perm l : buckets l ≡ₚ l.

Section images.
Context (oversize : Z -> Z -> Z) (tokenize : string -> outcome (list Z)) (buckets : list (string * ptr) -> list (string * ptr)).

(* OrtValue::CreateTensor and a std::copy of all elements into it *)
Definition copied_tensor (ty : ONNXTensorElementDataType) (sh : list nat) (src : list Z) (h : heap) : outcome (heap * ptr) :=
  let '(h, p) := CreateTensor sh ty h in
  t ← deref h p; d ← blit (data t) 0 src; h ← set_data p d h; Ok (h, p).

Definition ProcessPixelValues (pixel_values : RawTensor) (expected_type : ONNXTensorElementDataType) (h : heap) : outcome (heap * ptr) :=
  match expected_type with
  | T_FLOAT => copied_tensor T_FLOAT (raw_shape pixel_values) (raw_data pixel_values) h
  | T_FLOAT16 =>
      let '(h, p) := CreateTensor (raw_shape pixel_values) T_FLOAT16 h in
      let '(h, fp32) := new_tensor (mkOrt T_FLOAT (raw_shape pixel_values) (raw_data pixel_values)) h in
      '(h, p) ← ConvertFp32ToFp16 oversize fp32 (Some p) CPU h;
      Ok (free (Some fp32) h, p)
  | _ => Throw (RuntimeError ("Expected pixel_values to be of type float or float16. Actual: " ++ pretty (type_number expected_type)))
  end.

Definition ProcessImageSizes (image_sizes : RawTensor) (h : heap) : outcome (heap * ptr) :=
  copied_tensor T_INT64 (raw_shape image_sizes) (raw_data image_sizes) h.

(** The constructor, which also writes the names of the inputs into the
    configuration; it returns the type of the pixels. *)
Definition ImageProcessor_new (info : SessionInfo) (c : Config) : outcome (ONNXTensorElementDataType * Config) :=
  let m := Config.model c in
  pixel_values_type ← GetInputDataType info (pixel_values (vis_inputs (vision m)));
  c ← AddMapping InputIdsName (ei_input_ids (emb_inputs (embedding m))) c;
  c ← AddMapping PixelValuesName (pixel_values (vis_inputs (vision m))) c;
  c ← AddMapping ImageSizesName (image_sizes (vis_inputs (vision m))) c;
  Ok (pixel_values_type, c).

(* MultiModalProcessor: a model without a vision file has no image processor *)
Definition MultiModalProcessor_new (info : SessionInfo) (c : Config) : outcome (option ONNXTensorElementDataType * Config) :=
  if String.eqb (vis_filename (vision (Config.model c))) "" then Ok (None, c)
  else '(ty, c) ← ImageProcessor_new info c; Ok (Some ty, c).

Definition input_ids_tensor (ids : list Z) (h : heap) : outcome (heap * ptr) := copied_tensor T_INT32 [1%nat; length ids] ids h.

(** [Process]: without images, or with what the preprocessing returned for them;
    the map is the list of its elements in the order a loop meets them. *)
Definition Process (pixel_values_type_ : ONNXTensorElementDataType) (prompt : list ascii)
    (images : option (outcome (RawTensor * RawTensor * list Z))) (h : heap) : outcome (list (string * ptr) * heap) :=
  match images with
  | None =>
      ids ← ProcessImagePrompt tokenize prompt None;
      '(h, p) ← input_ids_tensor ids h; Ok (buckets [(InputIdsName, p)], h)
  | Some preprocessed =>
      '(pixel_values, image_sizes, num_img_tokens) ← preprocessed;
      ids ← ProcessImagePrompt tokenize prompt (Some num_img_tokens);
      '(h, p) ← input_ids_tensor ids h;
      '(h, q) ← ProcessPixelValues pixel_values pixel_values_type_ h;
      '(h, r) ← ProcessImageSizes image_sizes h;
      Ok (buckets [(InputIdsName, p); (PixelValuesName, q); (ImageSizesName, r)], h)
  end.
End images.

(** ** Properties *)

(* the prompt that a text and tags with the texts after them make *)
Definition render (ts : list (list ascii * list ascii)) : list ascii :=
  concat (map (fun '(d, t) => tag_open ++ d ++ tag_close ++ t) ts).
(* no tag starts in [t], which [rest] follows *)
Definition tag_free (t rest : list ascii) : Prop := ∀ a b, t = a ++ b -> b ≠ [] -> match_tag (b ++ rest) = None.
Fixpoint tags_ok (ts : list (list ascii * list ascii)) : Prop :=
  match ts with
  | [] => True
  | (d, t) :: ts => d ≠ [] ∧ Forall (fun c => is_digit c = true) d ∧ tag_free t (render ts) ∧ tags_ok ts
  end.

Lemma strip_Some p : ∀ l r, strip p l = Some r -> l = p ++ r.
Proof.
  induction p as [|a p IH]; intros l r; [by intros [= ->]|]. destruct l as [|b l]; simpl; [done|].
  destruct (Ascii.eqb_spec a b) as [->|]; [|done]. by intros ->%IH.
Qed.

Lemma span_digits_Some l : ∀ d r, span_digits l = (d, r) -> l = d ++ r ∧ Forall (fun c => is_digit c = true) d.
Proof.
  induction l as [|c l IH]; intros d r; simpl; [by intros [= <- <-]|].
  destruct (is_digit c) eqn:Ec; [|by intros [= <- <-]]. destruct (span_digits l) as [d' r']. intros [= <- <-].
  destruct (IH d' r' eq_refl) as [-> H]. split; [done|by constructor].
Qed.

Lemma match_tag_Some l d r : match_tag l = Some (d, r) ->
  l = tag_open ++ d ++ tag_close ++ r ∧ d ≠ [] ∧ Forall (fun c => is_digit c = true) d.
Proof.
  unfold match_tag. destruct (strip tag_open l) as [l1|] eqn:E1; [|done]. apply strip_Some in E1 as ->.
  destruct (span_digits l1) as [d1 r1] eqn:E2. apply span_digits_Some in E2 as [-> Hd].
  destruct d1 as [|c d1]; [done|]. destruct (strip tag_close r1) as [r2|] eqn:E3; [|done]. apply strip_Some in E3 as ->.
  intros [= <- <-]. by split.
Qed.

(** The matches found are those from the left. *)
Lemma split_tags_ok fuel : ∀ l, (length l < fuel)%nat -> let '(t, ts) := split_tags fuel l in
  l = t ++ render ts ∧ tag_free t (render ts) ∧ tags_ok ts.
Proof.
  induction fuel as [|fuel IH]; intros l Hl; [lia|]. simpl. destruct (match_tag l) as [[d r]|] eqn:Em.
  - apply match_tag_Some in Em as (-> & Hne & Hd). rewrite !length_app in Hl.
    specialize (IH r ltac:(destruct d; [done|simpl in *; lia])). destruct (split_tags fuel r) as [t ts].
    destruct IH as (-> & Hf & Hts). split; [unfold render; simpl; by rewrite <- !app_assoc|]. split; [|done].
    intros a b Hab Hb. by destruct a, b.
  - destruct l as [|c l]; [split; [done|split; [|done]]; intros a b Hab Hb; by destruct a, b|].
    specialize (IH l ltac:(simpl in Hl; lia)). destruct (split_tags fuel l) as [t ts].
    destruct IH as (E & Hf & Hts). subst l. split; [done|]. split; [|done].
    intros a b Hab Hb. destruct a as [|c' a]; simpl in Hab; [by subst b|]. injection Hab as <- Hab. by apply (Hf a b).
Qed.

Section process.
Context (tokenize : string -> outcome (list Z)) (tok : string -> list Z).
Context (Htok : ∀ s, tokenize s = Ok (tok s)).
Context (prompt : list ascii) (counts : list Z) (Hn : Z.of_nat (length counts) <= INT_MAX).

Definition chunk_ids (c : list ascii) : list Z := map i32 (tok (String.string_of_list_ascii c)).
Definition tag_ids : list Z := map digits_val (image_tags prompt).
Definition image_count (id : Z) : Z := nth (Z.to_nat (id - 1)) counts 0.

(** The tokens of every text, and after them the placeholders of the tag there. *)
Definition piece (i : nat) : list Z :=
  default [] (chunk_ids <$> prompt_chunks prompt !! i) ++
  match tag_ids !! i with Some id => placeholders (image_count id) id | None => [] end.
Definition interleaved : list Z := concat (map piece (seq 0 (length (prompt_chunks prompt)))).

(** The tags name every image and nothing else. *)
Definition names_images : Prop :=
  Forall (fun id => id <= INT_MAX) tag_ids ∧ (list_to_set tag_ids : gset Z) = list_to_set (seqZ 1 (Z.of_nat (length counts))).

Lemma encode_chunks : for_ (length (prompt_chunks prompt)) (fun i out =>
    c ← get (prompt_chunks prompt) i; ids ← Encode tokenize (String.string_of_list_ascii c); Ok (out ++ [ids])) []
  = Ok (map chunk_ids (prompt_chunks prompt)).
Proof.
  set (cs := prompt_chunks prompt).
  match goal with |- for_ _ ?f _ = _ => destruct (for_inv (fun k out => out = map chunk_ids (take k cs)) (length cs) f []) as (out & -> & ->) end;
    [done| |by rewrite take_ge].
  intros k out Hk ->. destruct (lookup_lt_is_Some_2 cs k Hk) as [c Hc]. rewrite (get_Some _ _ _ Hc), bind_Ok.
  unfold Encode. rewrite Htok, !bind_Ok. eexists. split; [reflexivity|]. by rewrite (take_S_r _ _ _ Hc), map_app.
Qed.

Lemma read_ids : let m := for_ (length (image_tags prompt)) (fun i out =>
    d ← get (image_tags prompt) i; id ← stoi d; Ok (out ++ [id])) [] in
  match m with Ok ids => ids = tag_ids ∧ Forall (fun id => id <= INT_MAX) tag_ids | Throw _ => True | Undef => False end ∧
  (Forall (fun id => id <= INT_MAX) tag_ids -> m = Ok tag_ids).
Proof.
  cbv zeta. unfold tag_ids. set (ts := image_tags prompt).
  match goal with |- context [for_ _ ?f _] => set (body := f) end.
  assert (∀ k, (k < length ts)%nat -> ∃ d, ts !! k = Some d ∧ ∀ out, body k out = (id ← stoi d; Ok (out ++ [id]))) as Hb.
  { intros k Hk. destruct (lookup_lt_is_Some_2 ts k Hk) as [d Hd]. exists d. split; [done|]. intros out. unfold body.
    by rewrite (get_Some _ _ _ Hd). }
  split.
  - assert (match for_ (length ts) body [] with
      | Ok out => out = map digits_val (take (length ts) ts) ∧ Forall (fun id => id <= INT_MAX) out | Throw _ => True | Undef => False end) as H.
    { apply (for_inv_throw (fun k out => out = map digits_val (take k ts) ∧ Forall (fun id => id <= INT_MAX) out) (fun _ => True)); [done|].
      intros k out Hk [-> Hf]. destruct (Hb k Hk) as (d & Hd & ->). unfold stoi. destruct (Z.leb_spec (digits_val d) INT_MAX); [|done].
      rewrite bind_Ok. split; [by rewrite (take_S_r _ _ _ Hd), map_app|]. apply Forall_app. split; [done|by apply Forall_singleton]. }
    rewrite take_ge in H by done. destruct (for_ _ _ _) as [ids| |]; [|done|done]. destruct H as [-> H]. by split.
  - intros Hf. destruct (for_inv (fun k out => out = map digits_val (take k ts)) (length ts) body []) as (out & -> & ->); [done| |by rewrite take_ge].
    intros k out Hk ->. destruct (Hb k Hk) as (d & Hd & ->). rewrite Forall_map, Forall_lookup in Hf. specialize (Hf k d Hd). simpl in Hf.
    unfold stoi. destruct (Z.leb_spec (digits_val d) INT_MAX) as [_|?]; [|lia]. rewrite bind_Ok. eexists. split; [reflexivity|].
    by rewrite (take_S_r _ _ _ Hd), map_app.
Qed.

Lemma length_drop_last_empty l : (length l <= S (length (drop_last_empty l)))%nat.
Proof. induction l as [|[|c t] l IH]; simpl; [lia| |lia]. destruct l; simpl in *; lia. Qed.

Lemma tags_chunks : (length tag_ids <= length (prompt_chunks prompt))%nat.
Proof.
  unfold tag_ids, image_tags, prompt_chunks. rewrite length_map. destruct (split_tags _ _) as [t ts]. cbn [snd].
  pose proof (length_drop_last_empty ts.*2) as H. rewrite !length_fmap in H. rewrite length_fmap. simpl. lia.
Qed.

Lemma names_in_range : names_images -> ∀ i id, tag_ids !! i = Some id -> 1 <= id <= Z.of_nat (length counts).
Proof.
  intros [_ Hs] i id Hi. assert (id ∈ (list_to_set tag_ids : gset Z)) as Hin by (apply elem_of_list_to_set; by eapply list_elem_of_lookup_2).
  rewrite Hs, elem_of_list_to_set, elem_of_seqZ in Hin. lia.
Qed.

Lemma size_images : size (list_to_set (seqZ 1 (Z.of_nat (length counts))) : gset Z) = length counts.
Proof. rewrite size_list_to_set by apply NoDup_seqZ. rewrite length_seqZ. lia. Qed.

(* the texts and tags of the prompt are those found from the left *)
Definition cut_at_tags : Prop := ∃ t ts, prompt = t ++ render ts ∧ tag_free t (render ts) ∧ tags_ok ts ∧
  tag_ids = map digits_val ts.*1 ∧ prompt_chunks prompt = t :: drop_last_empty ts.*2.

Lemma prompt_cut : cut_at_tags.
Proof.
  unfold cut_at_tags, tag_ids, image_tags, prompt_chunks. pose proof (split_tags_ok (S (length prompt)) prompt ltac:(lia)) as H.
  destruct (split_tags _ _) as [t ts]. exists t, ts. tauto.
Qed.

Lemma ProcessImagePrompt_ok :
  match ProcessImagePrompt tokenize prompt (Some counts) with
  | Ok ids => names_images ∧ ids = interleaved
  | Throw _ => ¬ names_images
  | Undef => False
  end.
Proof.
  unfold ProcessImagePrompt. rewrite encode_chunks, bind_Ok. cbv zeta. destruct read_ids as [Hr Hids]. cbv zeta in Hr, Hids.
  match type of Hr with match ?m with Ok _ => _ | _ => _ end => destruct m as [ids| |] end; [|rewrite bind_Throw|done].
  2:{ intros [H _]. by specialize (Hids H). }
  destruct Hr as [-> Hint]. clear Hids. rewrite bind_Ok.
  destruct (Nat.eqb_spec (size (list_to_set tag_ids : gset Z)) (length counts)) as [Hsize|Hsize]; simpl negb; cbv iota.
  2:{ intros [_ Hs]. apply Hsize. rewrite Hs. apply size_images. }
  assert (i32 (Z.of_nat (length counts)) = Z.of_nat (length counts)) as Ei by (apply i32_id; unfold INT_MIN, INT_MAX in *; lia).
  rewrite length_map. set (cs := prompt_chunks prompt).
  set (in_range := fun id => 1 <= id <= Z.of_nat (length counts)).
  assert (match for_ (length cs) (fun i input_ids => place_chunk (map chunk_ids cs) tag_ids (length counts) (Some counts) i input_ids) [] with
    | Ok out => out = concat (map piece (seq 0 (length cs))) ∧ Forall in_range (take (length cs) tag_ids)
    | Throw _ => ¬ names_images | Undef => False end) as H.
  { apply (for_inv_throw (fun k out => out = concat (map piece (seq 0 k)) ∧ Forall in_range (take k tag_ids)) (fun _ => ¬ names_images)).
    - split; [done|constructor].
    - intros k out Hk [-> Hf]. unfold place_chunk. destruct (lookup_lt_is_Some_2 cs k Hk) as [c Hc].
      rewrite (get_Some _ _ (chunk_ids c)) by (by rewrite list_lookup_fmap, Hc). rewrite bind_Ok. cbv zeta.
      rewrite concat_map_S. assert (piece k = chunk_ids c ++ match tag_ids !! k with Some id => placeholders (image_count id) id | None => [] end) as Ep
        by (unfold piece; fold cs; by rewrite Hc). rewrite Ep.
      destruct (Nat.ltb_spec k (length tag_ids)) as [Hlt|Hge].
      + destruct (lookup_lt_is_Some_2 tag_ids k Hlt) as [id Hid]. rewrite (get_Some _ _ _ Hid), bind_Ok, Ei, Hid.
        destruct (Z.ltb_spec id 1) as [?|H1]; [simpl; intros Hnm; pose proof (names_in_range Hnm k id Hid); lia|].
        destruct (Z.ltb_spec (Z.of_nat (length counts)) id) as [?|H2]; [simpl; intros Hnm; pose proof (names_in_range Hnm k id Hid); lia|].
        simpl orb. cbv iota. unfold getZ. rewrite decide_True by lia.
        destruct (lookup_lt_is_Some_2 counts (Z.to_nat (id - 1))) as [n En]; [lia|]. rewrite (get_Some _ _ _ En), bind_Ok.
        unfold image_count. rewrite (nth_lookup_Some _ _ _ _ En). split; [by rewrite <- !app_assoc|].
        rewrite (take_S_r _ _ _ Hid). apply Forall_app. split; [done|]. by apply Forall_singleton.
      + rewrite lookup_ge_None_2 by done. rewrite app_nil_r. split; [done|]. rewrite take_ge in * by lia. done. }
  unfold place_chunk in H. destruct (for_ _ _ _) as [out| |]; [|done|done]. destruct H as [-> Hf]. split; [|done].
  rewrite take_ge in Hf by apply tags_chunks. split; [done|]. apply set_subseteq_size_eq; [|by rewrite size_images, Hsize].
  intros id Hid. apply elem_of_list_to_set in Hid. apply elem_of_list_to_set, elem_of_seqZ.
  pose proof (proj1 (Forall_forall _ _) Hf id Hid) as Hin. unfold in_range in Hin. lia.
Qed.

(** C20: the prompt is cut at its tags from the left.  For a tokenizer that
    encodes every text it is accepted exactly when the tags name every image and
    nothing else; the result is then the tokens of the texts with, at every tag,
    as many tokens [-id] as the image has, and otherwise an exception is thrown.
    Nothing is read out of range. *)
Theorem ProcessImagePrompt_spec : cut_at_tags ∧
  match ProcessImagePrompt tokenize prompt (Some counts) with
  | Ok ids => names_images ∧ ids = interleaved
  | Throw _ => ¬ names_images
  | Undef => False
  end.
Proof. split; [apply prompt_cut|apply ProcessImagePrompt_ok]. Qed.
End process.

(** *** The tensors of a prompt with images *)
Section inputs.
Context (oversize : Z -> Z -> Z).

(* [h'] is [h] and the tensor [t] at [p]; nothing else was made and kept, and
   nothing destroyed twice *)
Record extends (h h' : heap) (p : ptr) (t : OrtValue) : Prop := {
  ex_ok : heap_ok h';
  ex_new : tensors h' !! p = Some t;
  ex_next : (next_ptr h <= p < next_ptr h')%nat;
  ex_old : ∀ q, (q < next_ptr h)%nat -> tensors h' !! q = tensors h !! q;
  ex_leaks : ∀ q u, tensors h' !! q = Some u -> q = p ∨ tensors h !! q = Some u;
  ex_once : double_frees h' = double_frees h }.

Lemma copied_tensor_ok ty sh src h : heap_ok h -> length src = element_count sh ->
  ∃ h' p, copied_tensor ty sh src h = Ok (h', p) ∧ extends h h' p (mkOrt ty sh src).
Proof.
  intros Hh Hl. pose proof (CreateTensor_ok sh ty h Hh) as Hc. unfold copied_tensor. destruct (CreateTensor sh ty h) as [h1 p] eqn:E.
  unfold CreateTensor in E. injection E as <- <-. unfold deref at 1. cbn [tensors]. rewrite lookup_insert_eq, bind_Ok. cbn [data].
  rewrite blit_le by (rewrite length_map, length_seq; lia). rewrite bind_Ok.
  unfold set_data, deref. cbn [tensors]. rewrite lookup_insert_eq, !bind_Ok. eexists _, _. split; [reflexivity|]. cbn [element_type shape].
  assert (list_inserts 0 src (map (fresh h (next_ptr h)) (seq 0 (element_count sh))) = src) as ->.
  { apply list_eq. intros i. destruct (decide (i < length src)%nat) as [Hi|Hi].
    - rewrite list_lookup_inserts by (rewrite ?length_map, ?length_seq; lia). f_equal. lia.
    - rewrite !lookup_ge_None_2; [done|lia|rewrite length_inserts, length_map, length_seq; lia]. }
  split; cbn [tensors next_ptr store].
  - intros q t. cbn [tensors store next_ptr]. intros [[<- <-]|[Hne [[? ?]|[_ Ht]]%lookup_insert_Some]]%lookup_insert_Some; [cbn; split; [lia|done]|done|].
    destruct (Hh q t Ht). split; [lia|done].
  - by rewrite lookup_insert_eq.
  - lia.
  - intros q Hq. by rewrite !lookup_insert_ne by lia.
  - intros q u [[<- _]|[_ [[<- _]|[_ Hu]]%lookup_insert_Some]]%lookup_insert_Some; [by left..|by right].
  - done.
Qed.

(* the pixels as the session takes them *)
Definition pixel_data (ty : ONNXTensorElementDataType) (d : list Z) : list Z :=
  if decide (ty = T_FLOAT16) then map (fun z => FastFloat32ToFloat16 oversize (f32_of_bits z)) d else d.

(* the conversion into a half-precision tensor of the same shape *)
Lemma ConvertFp32ToFp16_into h in_ out t o : tensors h !! in_ = Some t -> element_type t = T_FLOAT ->
  tensors h !! out = Some o -> element_type o = T_FLOAT16 -> shape o = shape t ->
  length (data t) = element_count (shape t) -> length (data o) = element_count (shape t) -> Z.of_nat (element_count (shape t)) <= INT_MAX ->
  ConvertFp32ToFp16 oversize in_ (Some out) CPU h = Ok (store out (mkOrt T_FLOAT16 (shape t) (pixel_data T_FLOAT16 (data t))) h, out).
Proof.
  intros Ht Et Ho Eo Es Lt Lo Hint. unfold ConvertFp32ToFp16. rewrite (deref_Some _ _ _ Ht), bind_Ok, Et, bool_decide_true by done.
  unfold assert_. rewrite bind_Ok. unfold same_shape. rewrite (deref_Some _ _ _ Ho), !bind_Ok, Es, bool_decide_true by done.
  cbn [ensure_output]. rewrite (deref_Some _ _ _ Ho), bind_Ok, Eo. cbn [SizeOf]. rewrite bind_Ok.
  change (write_u16 2) with (fun i (v : Z) d => put (A := Z) d i v). unfold pixel_data. rewrite decide_True by done.
  generalize (fun z => FastFloat32ToFloat16 oversize (f32_of_bits z)). intros f.
  rewrite (int_count_id _ Hint), (convert_loop_spec _ (fun x => x)) by lia. rewrite bind_Ok, take_ge, filled_full by (rewrite ?length_map; lia).
  unfold set_data. rewrite (deref_Some _ _ _ Ho), !bind_Ok, Eo, Es. done.
Qed.

Lemma ProcessPixelValues_ok pv ty h : heap_ok h -> ty = T_FLOAT ∨ ty = T_FLOAT16 -> length (raw_data pv) = element_count (raw_shape pv) ->
  Z.of_nat (element_count (raw_shape pv)) <= INT_MAX ->
  ∃ h' p, ProcessPixelValues oversize pv ty h = Ok (h', p) ∧ extends h h' p (mkOrt ty (raw_shape pv) (pixel_data ty (raw_data pv))).
Proof.
  intros Hh [->| ->] Hl Hint; [by apply copied_tensor_ok|]. unfold ProcessPixelValues.
  set (sh := raw_shape pv) in *. set (src := raw_data pv) in *. unfold CreateTensor, new_tensor. cbn [next_ptr tensors fresh double_frees]. set (n := next_ptr h).
  set (o := mkOrt T_FLOAT16 sh _). set (t := mkOrt T_FLOAT sh src). set (h1 := mkHeap _ _ _ _).
  assert (tensors h1 !! S n = Some t) as Ht by (cbn; by rewrite lookup_insert_eq).
  assert (tensors h1 !! n = Some o) as Ho by (cbn; by rewrite lookup_insert_ne, lookup_insert_eq by lia).
  rewrite (ConvertFp32ToFp16_into h1 (S n) n t o Ht eq_refl Ho eq_refl eq_refl Hl), bind_Ok by (done || cbn; by rewrite length_map, length_seq).
  eexists _, _. split; [reflexivity|]. cbn [shape data]. split.
  - intros q u. cbn [tensors free store next_ptr h1].
    intros [Hq [[<- <-]|[Hne [[? ?]|[_ [[? ?]|[_ Hu]]%lookup_insert_Some]]%lookup_insert_Some]]%lookup_insert_Some]%lookup_delete_Some; try done.
    + cbn. split; [lia|]. unfold pixel_data. rewrite decide_True by done. by rewrite length_map.
    + destruct (Hh q u Hu). split; [unfold n; lia|done].
  - cbn. by rewrite lookup_delete_ne, lookup_insert_eq by lia.
  - cbn. lia.
  - intros q Hq. cbn. by rewrite lookup_delete_ne, !lookup_insert_ne by lia.
  - intros q u. cbn. intros [Hq [[<- _]|[_ [[? _]|[_ [[<- _]|[_ Hu]]%lookup_insert_Some]]%lookup_insert_Some]]%lookup_insert_Some]%lookup_delete_Some;
      [by left|done|by left|by right].
  - unfold free, store, h1. cbn. by rewrite lookup_insert_ne, lookup_insert_eq by lia.
Qed.

Lemma AddMapping_found c n g c' : AddMapping n g c = Ok c' ->
  GetGraphName c' n = (g, true) ∧ ∀ m, m ≠ n -> GetGraphName c' m = GetGraphName c m.
Proof.
  intros E. pose proof (AddMapping_spec c n g) as H. destruct (nominal_names_to_graph_names_ c !! n) as [g0|] eqn:Eg.
  - destruct (decide (g0 = g)) as [->|]; [|destruct H as [msg H]; congruence]. assert (c' = c) as -> by congruence.
    split; [|done]. unfold GetGraphName. by rewrite Eg.
  - destruct H as (c1 & E1 & H). by assert (c' = c1) as -> by congruence.
Qed.

Lemma ImageProcessor_new_names info c ty c' : ImageProcessor_new info c = Ok (ty, c') ->
  GetInputDataType info (pixel_values (vis_inputs (vision (Config.model c)))) = Ok ty ∧
  (GetGraphName c' PixelValuesName).1 = pixel_values (vis_inputs (vision (Config.model c))) ∧
  (GetGraphName c' ImageSizesName).1 = image_sizes (vis_inputs (vision (Config.model c))).
Proof.
  unfold ImageProcessor_new. intros H. inv_ok.
  repeat match goal with E : AddMapping _ _ _ = Ok _ |- _ => apply AddMapping_found in E as [? ?] end.
  split; [done|]. split; [|by rewrite H].
  match goal with Ho : ∀ m, m ≠ ImageSizesName -> _ |- _ => rewrite Ho by done end.
  match goal with E : GetGraphName _ PixelValuesName = _ |- _ => by rewrite E end.
Qed.

(** C21: the whole way of a prompt with images.  When its tags name the images,
    [Process] makes the tensors, and setting them as inputs makes the prompt the
    interleaved tokens in one row and the pixels, in the precision the session
    wants, and the image sizes extra inputs under the names of the graph, in
    whatever order the map has them; no temporary tensor is left. *)
Theorem image_inputs (buckets : list (string * ptr) -> list (string * ptr)) (tokenize : string -> outcome (list Z)) (tok : string -> list Z) (prompt : list ascii)
    (pv sizes : RawTensor) (counts : list Z) (info : SessionInfo) (c c' : Config) (ty : ONNXTensorElementDataType)
    (h : heap) (p : GeneratorParams) :
  let ids := interleaved tok prompt counts in
  BucketOrder buckets -> (∀ s, tokenize s = Ok (tok s)) -> Z.of_nat (length counts) <= INT_MAX -> names_images prompt counts ->
  (0 < length ids)%nat -> Z.of_nat (length ids) <= INT_MAX ->
  ImageProcessor_new info c = Ok (ty, c') -> ty = T_FLOAT ∨ ty = T_FLOAT16 -> heap_ok h ->
  length (raw_data pv) = element_count (raw_shape pv) -> length (raw_data sizes) = element_count (raw_shape sizes) ->
  Z.of_nat (element_count (raw_shape pv)) <= INT_MAX ->
  ∃ named h' p' q r extra, Process oversize tokenize buckets ty prompt (Some (Ok (pv, sizes, counts))) h = Ok (named, h') ∧
    SetInputs h' c' named p = Ok p' ∧
    Params.prompt p' = ids ∧ batch_size p' = 1 ∧ sequence_length p' = Z.of_nat (length ids) ∧
    extra_inputs p' = extra_inputs p ++ extra ∧
    extra ≡ₚ [mkInput (pixel_values (vis_inputs (vision (Config.model c)))) q;
              mkInput (image_sizes (vis_inputs (vision (Config.model c)))) r] ∧
    tensors h' !! q = Some (mkOrt ty (raw_shape pv) (pixel_data ty (raw_data pv))) ∧
    tensors h' !! r = Some (mkOrt T_INT64 (raw_shape sizes) (raw_data sizes)) ∧
    (∀ x u, tensors h' !! x = Some u -> x ∈ named.*2 ∨ tensors h !! x = Some u) ∧ double_frees h' = double_frees h.
Proof.
  intros ids Hbk Htok Hc Hn H0 Hmax Hnew Hty Hh Hpv Hsz Hint. destruct (ImageProcessor_new_names info c ty c' Hnew) as (_ & N1 & N2).
  pose proof (ProcessImagePrompt_ok tokenize tok Htok prompt counts Hc) as Hp. unfold Process. rewrite bind_Ok.
  destruct (ProcessImagePrompt tokenize prompt (Some counts)) as [l|e|]; [|done|done]. destruct Hp as [_ ->]. fold ids. rewrite bind_Ok.
  destruct (copied_tensor_ok T_INT32 [1%nat; length ids] ids h Hh) as (h1 & q1 & E1 & [X1 X2 X3 X4 X5 X6]); [cbn; lia|].
  unfold input_ids_tensor. rewrite E1, bind_Ok. cbv beta iota.
  destruct (ProcessPixelValues_ok pv ty h1 X1 Hty Hpv Hint) as (h2 & q2 & -> & [Y1 Y2 Y3 Y4 Y5 Y6]). rewrite bind_Ok. cbv beta iota.
  destruct (copied_tensor_ok T_INT64 (raw_shape sizes) (raw_data sizes) h2 Y1 Hsz) as (h3 & q3 & E3 & [W1 W2 W3 W4 W5 W6]).
  unfold ProcessImageSizes. rewrite E3, bind_Ok. cbv beta iota.
  assert (tensors h3 !! q1 = Some (mkOrt T_INT32 [1%nat; length ids] ids)) as T1 by (rewrite W4, Y4 by lia; exact X2).
  set (l := [(InputIdsName, q1); (PixelValuesName, q2); (ImageSizesName, q3)]). pose proof (buckets_perm l) as Hp.
  destruct (SetInputs_spec_from h3 c' (mkOrt T_INT32 [1%nat; length ids] ids) 1 (length ids)
    (buckets l) p) as (p' & E & X & _ & Hd); cbn; try done; try lia.
  { intros q Hq. rewrite Hp in Hq. unfold l in Hq. rewrite !elem_of_cons, elem_of_nil in Hq. by destruct Hq as [[= ->]|[[= ?]|[[= ?]|[]]]]. }
  rewrite decide_True in Hd by (rewrite Hp; by left). destruct Hd as (D1 & D2 & D3).
  eexists (buckets l), h3, p', q2, q3, _. split; [reflexivity|]. split; [exact E|]. do 3 (split; [done|]). split; [exact X|].
  split; [|split; [by rewrite W4 by lia|split; [exact W2|split; [|congruence]]]].
  - unfold extra_of. rewrite Hp. unfold l.
    rewrite filter_cons_False by (cbn; tauto). rewrite !filter_cons_True by done. rewrite filter_nil. cbn [map]. by rewrite N1, N2.
  - intros x u Hx. rewrite Hp. unfold l. cbn. rewrite !elem_of_cons.
    destruct (W5 x u Hx) as [|Hx2]; [tauto|]. destruct (Y5 x u Hx2) as [|Hx1]; [tauto|]. destruct (X5 x u Hx1); tauto.
Qed.
End inputs.

(** ** Concrete runs *)
Module Examples.
Definition ex_tok (s : string) : list Z := map (fun c => Z.of_N (N_of_ascii c)) (chars s).
Definition ex_prompt : list ascii := chars "ab<|image_1|>c".
Definition ex_ids : list Z := [97; 98; -1; -1; -1; 99].

Lemma ex_names : names_images ex_prompt [3].
Proof.
  unfold names_images. assert (tag_ids ex_prompt = [1]) as -> by (vm_compute; reflexivity).
  split; [by apply Forall_singleton|reflexivity].
Qed.

Lemma ProcessImagePrompt_spec_witness :
  ProcessImagePrompt Models.Examples.ex_tokenize ex_prompt (Some [3]) = Ok ex_ids ∧ cut_at_tags ex_prompt.
Proof.
  destruct (ProcessImagePrompt_spec Models.Examples.ex_tokenize ex_tok (fun _ => eq_refl) ex_prompt [3]) as [Hcut H]; [vm_compute; discriminate|].
  destruct (ProcessImagePrompt _ _ _) as [l|e|]; [|by destruct H; apply ex_names|done]. destruct H as [_ ->]. by split.
Defined.

Definition ex_vision : Config := set_model (set_vision (mkVision "v" (mkVisionInputs "pixels" "sizes") Vision_default.(vis_outputs)) Model_default) Config_default.
Definition ex_info : SessionInfo := mkSessionInfo {["pixels"%string := T_FLOAT16]} ∅.
Definition ex_config : Config := match ImageProcessor_new ex_info ex_vision with Ok (_, c) => c | _ => ex_vision end.
Definition ex_pixels : RawTensor := mkRaw [1; 2]%nat [1065353216; 0].
Definition ex_sizes : RawTensor := mkRaw [1; 2]%nat [336; 336].
Definition ex_params : GeneratorParams := GeneratorParams_new Config_default CPU.

#[export] Instance reverse_buckets : BucketOrder (@rev (string * ptr)).
Proof. intros l. symmetry. apply Permutation_rev. Qed.

Lemma image_inputs_witness : ∃ named h' p' q r extra,
  Process Tensors.Examples.no_oversize Models.Examples.ex_tokenize (@rev _) T_FLOAT16 ex_prompt (Some (Ok (ex_pixels, ex_sizes, [3])))
    Inputs.Examples.ex_heap0 = Ok (named, h') ∧
  SetInputs h' ex_config named ex_params = Ok p' ∧ prompt p' = ex_ids ∧ sequence_length p' = 6 ∧
  extra_inputs p' = extra ∧ extra ≡ₚ [mkInput "pixels" q; mkInput "sizes" r] ∧ tensors h' !! q = Some (mkOrt T_FLOAT16 [1; 2]%nat [0x3C00; 0]).
Proof.
  destruct (image_inputs Tensors.Examples.no_oversize (@rev _) Models.Examples.ex_tokenize ex_tok ex_prompt ex_pixels ex_sizes [3] ex_info ex_vision
    ex_config T_FLOAT16 Inputs.Examples.ex_heap0 ex_params reverse_buckets (fun _ => eq_refl)) as (named & h' & p' & q & r & extra & E1 & E2 & E3 & _ & E4 & E5 & E6 & E7 & _).
  - vm_compute. discriminate.
  - exact ex_names.
  - vm_compute. lia.
  - vm_compute. discriminate.
  - vm_compute. reflexivity.
  - by right.
  - exact Inputs.Examples.ex_heap0_ok.
  - reflexivity.
  - reflexivity.
  - vm_compute. discriminate.
  - exists named, h', p', q, r, extra. split; [exact E1|]. split; [exact E2|]. split; [exact E3|]. split; [exact E4|].
    split; [exact E5|]. split; [exact E6|exact E7].
Defined.
End Examples.
