(* ===== verification/KVCache.v ===== *)
(** * Key-value caches (src/models/kv_cache.h and kv_cache.cpp)

    The caches of the attention layers: [KV_Cache] with a key and a value tensor
    per layer, [KV_Cache_Combined] with one tensor for both, and [Cross_Cache]
    of an encoder.  A cache owns the tensors of the past, of the present and an
    empty one; an update makes the present the past, reordered by beam index
    when there are beams, and makes new tensors for the next present.  CPU
    build: there are no captured graphs. *)
From Stdlib Require Import ZArith Lia Ascii.
From stdpp Require Import base numbers list strings gmap pretty.
From S2P Require Import Prelude Float32 Config Tensors Params GraphPool State Inputs.
Local Open Scope Z_scope.

(** ** Names of the layers

    [snprintf] with the format of the configuration and the one argument [i]:
    a second conversion, or one that is not [%d] or [%%], is undefined.  The
    buffer holds 63 characters. *)
Fixpoint format (fmt : string) (arg : option Z) : outcome string :=
  match fmt with
  | EmptyString => Ok EmptyString
  | String "%"%char fmt =>
      match fmt, arg with
      | String "%"%char fmt, _ => s ← format fmt arg; Ok (String "%"%char s)
      | String "d"%char fmt, Some i => s ← format fmt None; Ok (pretty i ++ s)%string
      | _, _ => Undef
      end
  | String c fmt => s ← format fmt arg; Ok (String c s)
  end.

Definition snprintf (size : nat) (fmt : string) (i : Z) : outcome string :=
  s ← format fmt (Some i); Ok (String.substring 0 (size - 1) s).

(* the names of [n] layers, one per format *)
Definition layer_names (fmts : list string) (n : nat) : outcome (list string) :=
  for_ n (fun i => for_each (fun fmt names => s ← snprintf 64 fmt (Z.of_nat i); Ok (names ++ [s])) fmts) [].

(** ** The state of a cache *)
Record Cache := mkCache {
  slots : nat;                              (* layer_count_, twice for keys and values *)
  input_index_ : option nat;
  output_index_ : option nat;
  share_buffer : bool;                      (* past_present_share_buffer_ *)
  kv_shape : list nat;
  kv_type : ONNXTensorElementDataType;
  empty_past_ : ptr;
  pasts_ : list (option ptr);
  presents_ : list (option ptr);
  input_name_strings_ : list string;
  output_name_strings_ : list string }.

Definition set_caches (pasts presents : list (option ptr)) (c : Cache) : Cache :=
  mkCache (slots c) (input_index_ c) (output_index_ c) (share_buffer c) (kv_shape c) (kv_type c) (empty_past_ c)
    pasts presents (input_name_strings_ c) (output_name_strings_ c).
Definition set_kv_shape (sh : list nat) (c : Cache) : Cache :=
  mkCache (slots c) (input_index_ c) (output_index_ c) (share_buffer c) sh (kv_type c) (empty_past_ c)
    (pasts_ c) (presents_ c) (input_name_strings_ c) (output_name_strings_ c).
Definition set_indices (i o : nat) (c : Cache) : Cache :=
  mkCache (slots c) (Some i) (Some o) (share_buffer c) (kv_shape c) (kv_type c) (empty_past_ c)
    (pasts_ c) (presents_ c) (input_name_strings_ c) (output_name_strings_ c).

(* [n] tensors, made in order *)
Definition CreateTensors (n : nat) (sh : list nat) (ty : ONNXTensorElementDataType) (h : heap)
  : outcome (list (option ptr) * heap) :=
  for_ n (fun _ '(l, h) => let '(h, q) := CreateTensor sh ty h in Ok (l ++ [Some q], h)) ([], h).

(* [resize] and [reserve] of a vector by a negative count *)
Definition vector_size (n : Z) : outcome nat := if n <? 0 then Throw LengthError else Ok (Z.to_nat n).

(** Assigning a new tensor to the [unique_ptr] at [i], and moving it away. *)
Definition assign (l : list (option ptr)) (i : nat) (v : option ptr) (h : heap) : outcome (list (option ptr) * heap) :=
  old ← get l i; l ← put l i v; Ok (l, free old h).
Definition move_out (l : list (option ptr)) (i : nat) : outcome (option ptr * list (option ptr)) :=
  v ← get l i; l ← put l i None; Ok (v, l).

(** ** Reordering by beam *)
(* the loop of [PickPastState]: block [beam_indices[j]] of the present becomes block [j] *)
Definition copy_blocks (beam_indices : list Z) (block : nat) (present past : list Z) : outcome (list Z) :=
  for_ (length beam_indices) (fun j past =>
      b ← get beam_indices j;
      src ← subspanZ present (b * Z.of_nat block) (Z.of_nat block);
      blit past (j * block)%nat src) past.

Definition copy_key_value_blocks (beam_indices : list Z) (block past_key_size : nat) (present past : list Z) : outcome (list Z) :=
  for_ (length beam_indices) (fun j past =>
      b ← get beam_indices j;
      key ← subspanZ present (b * Z.of_nat block) (Z.of_nat block);
      value ← subspanZ present (Z.of_nat past_key_size + b * Z.of_nat block) (Z.of_nat block);
      past ← blit past (j * block)%nat key;
      blit past (past_key_size + j * block)%nat value) past.

(* ScoreType *)
Definition score_type (ty : ONNXTensorElementDataType) : ONNXTensorElementDataType :=
  if decide (ty = T_FLOAT) then T_FLOAT else T_FLOAT16.

(** [PickPastState(beam_indices, index)] with the copy loop of either cache. *)
Definition pick_past (copy_loop : list Z -> list Z -> outcome (list Z)) (c : Cache) (index : nat)
    (st : list (option ptr) * list (option ptr) * heap) : outcome (list (option ptr) * list (option ptr) * heap) :=
  let '(pasts, presents, h) := st in
  p ← get presents index;
  present ← deref_owned h p;
  let '(h, past) := CreateTensor (kv_shape c) (score_type (kv_type c)) h in
  t ← deref h past;
  present_span ← subspan (data present) 0 (element_count (kv_shape c));
  d ← copy_loop present_span (data t);
  h ← set_data past d h;
  '(pasts, h) ← assign pasts index (Some past) h;
  Ok (pasts, presents, h).

Definition block_of (sh : list nat) : nat :=
  match sh with _ :: rest => element_count rest | [] => 1%nat end.

(* KV_Cache::PickPastState *)
Definition PickPastState (beam_indices : list Z) (c : Cache) :=
  pick_past (copy_blocks beam_indices (block_of (kv_shape c))) c.

(* KV_Cache_Combined::PickPastState: the first dimension is key or value *)
Definition PickPastState_Combined (beam_indices : list Z) (c : Cache) :=
  pick_past (copy_key_value_blocks beam_indices (block_of (tail (kv_shape c))) (block_of (kv_shape c))) c.

(* one turn of the first loop of [Update] *)
Definition present_to_past (beam_indices : list Z)
    (pick : nat -> list (option ptr) * list (option ptr) * heap -> outcome (list (option ptr) * list (option ptr) * heap))
    (i : nat) (st : list (option ptr) * list (option ptr) * heap) : outcome (list (option ptr) * list (option ptr) * heap) :=
  if decide (beam_indices = []) then
    let '(pasts, presents, h) := st in
    '(v, presents) ← move_out presents i;
    '(pasts, h) ← assign pasts i v h;
    Ok (pasts, presents, h)
  else pick i st.

(* the tensors of the constructors: the empty past and the presents *)
Definition make_caches (n : nat) (share : bool) (sh0 sh : list nat) (type : ONNXTensorElementDataType)
    (ins outs : list string) (h : heap) : outcome (Cache * heap) :=
  let '(h, empty) := CreateTensor sh0 type h in
  '(presents, h) ← CreateTensors n sh type h;
  Ok (mkCache n None None share sh type empty (replicate n None) presents ins outs, h).

(** ** KV_Cache *)
Definition KV_Cache_new (m : model) (p : GeneratorParams) (h : heap) : outcome (Cache * heap) :=
  let d := decoder (Config.model (config_ m)) in
  let share := past_present_share_buffer (gp_search p) && (num_beams (gp_search p) =? 1) in
  bb ← BatchBeamSize p;
  let shape_at len := [Z.to_nat bb; Z.to_nat (num_key_value_heads d); len; Z.to_nat (head_size d)] in
  n ← vector_size (num_hidden_layers d);
  ins ← layer_names [past_key_names (dec_in m); past_value_names (dec_in m)] n;
  outs ← layer_names [present_key_names (dec_out m); present_value_names (dec_out m)] n;
  first ← get ins O;
  type ← GetInputDataType (session_info_ m) first;
  make_caches (n * 2)%nat share (shape_at O)
    (shape_at (if share then Z.to_nat (max_length (gp_search p)) else p_seq p)) type ins outs h.

Definition KV_Cache_AddEncoder (c : Cache) (s : State) : outcome State :=
  for_ (slots c) (fun i s =>
      v ← get (presents_ c) i; name ← get (output_name_strings_ c) i; Ok (push_output name v s)) s.

(* the loop shared by the two [Add] *)
Definition add_caches (c : Cache) (s : State) : outcome State :=
  for_ (slots c) (fun i s =>
      name ← get (input_name_strings_ c) i; oname ← get (output_name_strings_ c) i; v ← get (presents_ c) i;
      Ok (push_output oname v (push_input name (Some (empty_past_ c)) s))) s.

Definition KV_Cache_Add (c : Cache) (s : State) : outcome (Cache * State) :=
  let c := set_indices (length (inputs_ s)) (length (outputs_ s)) c in
  s ← add_caches c s;
  s ← (if share_buffer c then
         for_ (slots c) (fun i s =>
           v ← get (presents_ c) i; idx ← at_index (input_index_ c); set_input (idx + i)%nat v s) s
       else Ok s);
  Ok (c, s).

Definition KV_Cache_Update (beam_indices : list Z) (current_length : Z) (c : Cache) (s : State) (h : heap)
  : outcome (Cache * State * heap) :=
  if share_buffer c then Ok (c, s, h) else
  '((pasts, presents, h), s) ← for_ (slots c) (fun i '(st, s) =>
      '(pasts, presents, h) ← present_to_past beam_indices (PickPastState beam_indices c) i st;
      idx ← at_index (input_index_ c);
      v ← get pasts i; s ← set_input (idx + i)%nat v s;
      Ok ((pasts, presents, h), s)) ((pasts_ c, presents_ c, h), s);
  let c := set_kv_shape (<[2%nat := Z.to_nat current_length]> (kv_shape c)) (set_caches pasts presents c) in
  '(presents, s, h) ← for_ (slots c) (fun i '(presents, s, h) =>
      let '(h, q) := CreateTensor (kv_shape c) (kv_type c) h in
      '(presents, h) ← assign presents i (Some q) h;
      idx ← at_index (output_index_ c);
      s ← set_output (idx + i)%nat (Some q) s; Ok (presents, s, h)) (presents_ c, s, h);
  Ok (set_caches (pasts_ c) presents c, s, h).

(** ** KV_Cache_Combined *)
Definition KV_Cache_Combined_new (m : model) (p : GeneratorParams) (h : heap) : outcome (Cache * heap) :=
  let d := decoder (Config.model (config_ m)) in
  bb ← BatchBeamSize p;
  let shape_at len := [2%nat; Z.to_nat bb; Z.to_nat (num_key_value_heads d); len; Z.to_nat (head_size d)] in
  n ← vector_size (num_hidden_layers d);
  ins ← layer_names [past_names (dec_in m)] n;
  outs ← layer_names [present_names (dec_out m)] n;
  first ← get ins O;
  type ← GetInputDataType (session_info_ m) first;
  make_caches n false (shape_at O) (shape_at (p_seq p)) type ins outs h.

Definition KV_Cache_Combined_Add (c : Cache) (s : State) : outcome (Cache * State) :=
  let c := set_indices (length (inputs_ s)) (length (outputs_ s)) c in
  s ← add_caches c s; Ok (c, s).

Definition KV_Cache_Combined_Update (p : GeneratorParams) (beam_indices : list Z) (current_length : Z) (c : Cache)
    (s : State) (h : heap) : outcome (Cache * State * heap) :=
  _ ← assert_ ((num_beams (gp_search p) =? 1) || negb (bool_decide (beam_indices = [])));
  '(pasts, presents, h) ← for_ (slots c) (present_to_past beam_indices (PickPastState_Combined beam_indices c))
      (pasts_ c, presents_ c, h);
  let c := set_kv_shape (<[3%nat := Z.to_nat current_length]> (kv_shape c)) (set_caches pasts presents c) in
  '(presents, s, h) ← for_ (slots c) (fun i '(presents, s, h) =>
      let '(h, q) := CreateTensor (kv_shape c) (kv_type c) h in
      '(presents, h) ← assign presents i (Some q) h;
      iidx ← at_index (input_index_ c); oidx ← at_index (output_index_ c);
      v ← get (pasts_ c) i;
      s ← set_input (iidx + i)%nat v s;
      s ← set_output (oidx + i)%nat (Some q) s; Ok (presents, s, h)) (presents_ c, s, h);
  Ok (set_caches (pasts_ c) presents c, s, h).

(** ** Cross_Cache *)
Record Cross_Cache := mkCross {
  cross_slots : nat;
  values_ : list (option ptr);
  cross_input_names : list string;
  cross_output_names : list string }.

Definition Cross_Cache_new (m : model) (p : GeneratorParams) (h : heap) : outcome (Cross_Cache * heap) :=
  let d := decoder (Config.model (config_ m)) in
  bb ← BatchBeamSize p;
  n ← vector_size (num_hidden_layers d);
  ins ← layer_names [cross_past_key_names (dec_in m); cross_past_value_names (dec_in m)] n;
  outs ← layer_names [cross_present_key_names (dec_out m); cross_present_value_names (dec_out m)] n;
  first ← get ins O;
  type ← GetInputDataType (session_info_ m) first;
  '(values, h) ← CreateTensors (n * 2)%nat
    [Z.to_nat bb; Z.to_nat (num_key_value_heads d); 1500%nat; Z.to_nat (head_size d)] type h;
  Ok (mkCross (n * 2)%nat values ins outs, h).

Definition AddOutputs (c : Cross_Cache) (s : State) : outcome State :=
  for_ (cross_slots c) (fun i s =>
      v ← get (values_ c) i; name ← get (cross_output_names c) i; Ok (push_output name v s)) s.

Definition AddInputs (c : Cross_Cache) (s : State) : outcome State :=
  for_ (cross_slots c) (fun i s =>
      v ← get (values_ c) i; name ← get (cross_input_names c) i; Ok (push_input name v s)) s.

(** ** Properties *)

(** *** Reordering *)
Definition gathered (present : list Z) (block : nat) (beam_indices : list Z) : list Z :=
  concat (map (fun b => tensor_row present block (Z.to_nat b)) beam_indices).

Lemma length_gathered present block beams n : length present = (n * block)%nat ->
  Forall (fun b => 0 <= b < Z.of_nat n) beams -> length (gathered present block beams) = (length beams * block)%nat.
Proof.
  intros Hp Hb. unfold gathered. induction Hb as [|b beams Hb _ IH]; [done|].
  simpl. rewrite length_app, IH. unfold tensor_row. rewrite length_window; [done|].
  rewrite Hp. apply row_bound. lia.
Qed.

Lemma gathered_S present block beams j b : beams !! j = Some b ->
  gathered present block (take (S j) beams) = gathered present block (take j beams) ++ tensor_row present block (Z.to_nat b).
Proof.
  intros Hj. unfold gathered. rewrite (take_S_r _ _ _ Hj), map_app, concat_app. simpl. by rewrite app_nil_r.
Qed.

(* block [b] of a part of the present that starts at [off] *)
Lemma block_at present off block n b : (off + n * block <= length present)%nat -> 0 <= b < Z.of_nat n ->
  subspanZ present (Z.of_nat off + b * Z.of_nat block) (Z.of_nat block)
    = Ok (tensor_row (drop off present) block (Z.to_nat b)).
Proof.
  intros Hl Hb. unfold subspanZ. rewrite decide_True by nia.
  replace (Z.to_nat (Z.of_nat off + b * Z.of_nat block)) with (off + Z.to_nat b * block)%nat by nia.
  pose proof (row_bound (Z.to_nat b) n block ltac:(lia)).
  rewrite Nat2Z.id, subspan_le by lia. unfold tensor_row. by rewrite drop_drop.
Qed.

Lemma block_at_0 present block n b : (n * block <= length present)%nat -> 0 <= b < Z.of_nat n ->
  subspanZ present (b * Z.of_nat block) (Z.of_nat block) = Ok (tensor_row present block (Z.to_nat b)).
Proof. intros Hl Hb. apply (block_at present 0 block n b Hl Hb). Qed.

Section blocks.
Context (present : list Z) (block n : nat) (beams : list Z).
Context (Hb : Forall (fun b => 0 <= b < Z.of_nat n) beams).

Lemma beam_lookup j : (j < length beams)%nat -> ∃ b, beams !! j = Some b ∧ 0 <= b < Z.of_nat n.
Proof. intros [b E]%lookup_lt_is_Some_2. exists b. split; [done|]. by apply (proj1 (Forall_lookup _ _) Hb j). Qed.

Lemma length_gathered_take j (l : list Z) : length l = (n * block)%nat -> (j <= length beams)%nat ->
  length (gathered l block (take j beams)) = (j * block)%nat.
Proof.
  intros Hl Hj. rewrite (length_gathered _ _ _ n Hl); [by rewrite length_take, Nat.min_l by lia|by apply Forall_take].
Qed.

Lemma copy_blocks_ok past : length present = (n * block)%nat -> (length beams * block <= length past)%nat ->
  copy_blocks beams block present past = Ok (filled (gathered present block beams) past).
Proof.
  intros Hp Hl. unfold copy_blocks.
  match goal with |- for_ ?m ?f _ = _ => destruct (for_inv (fun j d => d = filled (gathered present block (take j beams)) past) m f past)
    as (d & -> & ->) end.
  - done.
  - intros j d Hj ->. destruct (beam_lookup j Hj) as (b & E & Hb'). rewrite (get_Some _ _ _ E), bind_Ok.
    rewrite (block_at_0 present block n b), bind_Ok by (done || lia).
    pose proof (length_gathered_take j present Hp ltac:(lia)) as Hg. pose proof (row_bound j (length beams) block Hj).
    pose proof (row_bound (Z.to_nat b) n block ltac:(lia)).
    rewrite blit_next by (rewrite ?Hg; unfold tensor_row; rewrite ?length_window by lia; lia).
    eexists. split; [reflexivity|]. by rewrite (gathered_S _ _ _ _ _ E).
  - by rewrite take_ge by lia.
Qed.

Lemma blit_app_l {A} (a b src : list A) i : (i + length src <= length a)%nat ->
  blit (a ++ b) i src = (x ← blit a i src; Ok (x ++ b)).
Proof.
  intros H. rewrite !blit_le, bind_Ok by (rewrite ?length_app; lia). f_equal.
  revert i H. induction src as [|x src IH]; intros i H; simpl in *; [done|].
  rewrite IH by lia. rewrite insert_app_l; [done|]. rewrite length_inserts. lia.
Qed.

Lemma blit_app_r {A} (a b src : list A) j i : j = (length a + i)%nat -> (i + length src <= length b)%nat ->
  blit (a ++ b) j src = (x ← blit b i src; Ok (a ++ x)).
Proof.
  intros -> H. rewrite !blit_le, bind_Ok by (rewrite ?length_app; lia). f_equal. by rewrite list_inserts_app_r.
Qed.

Lemma copy_key_value_blocks_ok past : length present = (2 * (n * block))%nat -> length past = (2 * (n * block))%nat ->
  (length beams <= n)%nat ->
  copy_key_value_blocks beams block (n * block) present past =
  Ok (filled (gathered (take (n * block) present) block beams) (take (n * block) past) ++
      filled (gathered (drop (n * block) present) block beams) (drop (n * block) past)).
Proof.
  intros Hp Hl Hn. unfold copy_key_value_blocks. set (k := (n * block)%nat) in *.
  set (g := fun j => filled (gathered (take k present) block (take j beams)) (take k past)).
  set (g' := fun j => filled (gathered (drop k present) block (take j beams)) (drop k past)).
  assert (length (take k present) = k) as Hk1 by (rewrite length_take; lia).
  assert (length (drop k present) = k) as Hk2 by (rewrite length_drop; lia).
  assert (∀ j, (j <= length beams)%nat -> length (g j) = k ∧ length (g' j) = k) as Hg.
  { intros j Hj. unfold g, g'. assert (j * block <= k)%nat by (apply Nat.mul_le_mono_r; lia).
    rewrite !length_filled; rewrite ?(length_gathered_take j) by done; rewrite ?length_take, ?length_drop; split || idtac; lia. }
  match goal with |- for_ ?m ?f _ = _ => destruct (for_inv (fun j d => d = g j ++ g' j) m f past) as (d & -> & ->) end.
  - unfold g, g', filled. simpl. by rewrite !drop_0, take_drop.
  - intros j d Hj ->. destruct (beam_lookup j Hj) as (b & E & Hb'). rewrite (get_Some _ _ _ E), bind_Ok.
    pose proof (row_bound (Z.to_nat b) n block ltac:(lia)) as Hrow. fold k in Hrow.
    assert (tensor_row present block (Z.to_nat b) = tensor_row (take k present) block (Z.to_nat b)) as Hr.
    { unfold tensor_row. rewrite <- (take_drop k present) at 1. rewrite drop_app_le, take_app_le; [done|rewrite length_drop|]; lia. }
    rewrite (block_at_0 present block n b), bind_Ok, Hr by (fold k; lia || done).
    rewrite (block_at present k block n b), bind_Ok by (fold k; lia || done).
    destruct (Hg j ltac:(lia)) as [G1 G2].
    assert (j * block + block <= k)%nat as Hjk by (apply row_bound; lia).
    assert (∀ l, length l = k -> length (tensor_row l block (Z.to_nat b)) = block) as Htr.
    { intros l Hl'. unfold tensor_row. apply length_window. lia. }
    rewrite blit_app_l by (rewrite Htr by done; lia).
    pose proof (length_gathered_take j _ Hk1 ltac:(lia)) as L1. pose proof (length_gathered_take j _ Hk2 ltac:(lia)) as L2.
    unfold g at 1. rewrite blit_next by (rewrite ?L1, ?Htr by done; rewrite ?length_take; lia).
    rewrite <- (gathered_S _ _ _ _ _ E), !bind_Ok. fold (g (S j)).
    destruct (Hg (S j) ltac:(lia)) as [G3 _].
    rewrite (blit_app_r _ _ _ _ (j * block)) by (rewrite ?Htr by done; lia).
    unfold g' at 1. rewrite blit_next by (rewrite ?L2, ?Htr by done; rewrite ?length_drop; lia).
    rewrite <- (gathered_S _ _ _ _ _ E), !bind_Ok. fold (g' (S j)). eexists. by split.
  - unfold g, g'. by rewrite (take_ge beams) by lia.
Qed.
End blocks.

(** *** Assignments of the caches *)
Lemma assign_new l i o v h h1 rest : l !! i = Some o -> live h (own l ++ rest) -> replaces h h1 [] [v] ->
  ∃ h2, assign l i (Some v) h1 = Ok (<[i := Some v]> l, h2) ∧
    replaces h h2 (own l ++ rest) (own (<[i := Some v]> l) ++ rest) ∧ tensors h2 !! v = tensors h1 !! v ∧
    (∀ j q, j ≠ i -> l !! j = Some (Some q) -> tensors h2 !! q = tensors h !! q) ∧
    (∀ q, q ∈ rest -> tensors h2 !! q = tensors h !! q).
Proof.
  intros Hi Hl R. unfold assign. rewrite (get_Some _ _ _ Hi), bind_Ok, put_lt, bind_Ok by (by eapply lookup_lt_Some).
  destruct (own_split l i o Hi) as (Q & P1 & P2 & P3).
  assert (live h (own [o] ++ Q ++ rest)) as Hl' by (eapply live_perm; [|exact Hl]; by rewrite P1, app_assoc).
  destruct (replaces_own _ _ _ _ _ Hl' R) as (R' & Tv & K).
  eexists. split; [reflexivity|]. split; [|split; [done|]].
  - eapply replaces_perm; [| |exact R'].
    + by rewrite P1, app_assoc.
    + rewrite (P2 (Some v)). done.
  - split; intros; apply K; apply elem_of_app; [left; by eapply P3|by right].
Qed.

Lemma assign_moved pa pr i o v h rest : pa !! i = Some o -> pr !! i = Some v -> live h (own pa ++ own pr ++ rest) ->
  assign pa i v h = Ok (<[i := v]> pa, free o h) ∧
  replaces h (free o h) (own pa ++ own pr ++ rest) (own (<[i := v]> pa) ++ own (<[i := None]> pr) ++ rest) ∧
  (∀ j q, j ≠ i -> pa !! j = Some (Some q) -> tensors (free o h) !! q = tensors h !! q) ∧
  (∀ q, q ∈ own pr ++ rest -> tensors (free o h) !! q = tensors h !! q).
Proof.
  intros Ha Hr Hl. unfold assign. rewrite (get_Some _ _ _ Ha), bind_Ok, put_lt, bind_Ok by (by eapply lookup_lt_Some).
  destruct (own_split pa i o Ha) as (Q & P1 & P2 & P3). destruct (own_split pr i v Hr) as (Q' & P1' & P2' & _).
  assert (live h (own [o] ++ Q ++ own pr ++ rest)) as Hl' by (eapply live_perm; [|exact Hl]; by rewrite P1, !app_assoc).
  destruct (free_own _ _ _ Hl') as (R' & K). split; [done|]. split.
  - eapply replaces_perm; [| |exact R'].
    + by rewrite P1, !app_assoc.
    + rewrite (P2 v), (P2' None), P1'. change (own [None]) with (@nil ptr). cbn [app]. rewrite !app_assoc.
      do 2 apply Permutation_app_tail. apply Permutation_app_comm.
  - split; intros; apply K; apply elem_of_app; [left; by eapply P3|by right].
Qed.

(** *** The invariant *)
Definition cache_ptrs (c : Cache) : list ptr := own (pasts_ c) ++ own (presents_ c) ++ [empty_past_ c].

Record cache_ok (c : Cache) (h : heap) : Prop := {
  ck_pasts : length (pasts_ c) = slots c;
  ck_presents : length (presents_ c) = slots c;
  ck_tensors : ∀ i, (i < slots c)%nat -> ∃ q d, presents_ c !! i = Some (Some q) ∧
    tensors h !! q = Some (mkOrt (kv_type c) (kv_shape c) d);
  ck_live : live h (cache_ptrs c) }.

Lemma cache_ok_frame c h h' : cache_ok c h -> kinds_on (cache_ptrs c) h h' -> live h' (cache_ptrs c) -> cache_ok c h'.
Proof.
  intros [H1 H2 H3 _] K Hl. split; [done..| |done]. intros i Hi. destruct (H3 i Hi) as (q & d & E & T).
  destruct (K q _ ltac:(unfold cache_ptrs; apply elem_of_app; right; apply elem_of_app; left; by eapply elem_of_own) T) as (d' & T').
  by exists q, d'.
Qed.

Section update.
Context (c : Cache) (h0 : heap) (beams : list Z) (copy_loop : list Z -> list Z -> outcome (list Z)) (reorder : list Z -> list Z).
Context (Hok : cache_ok c h0).
Context (Hcopy : beams ≠ [] -> ∀ src d, length src = element_count (kv_shape c) -> length d = element_count (kv_shape c) ->
  copy_loop src d = Ok (reorder src) ∧ length (reorder src) = element_count (kv_shape c)).
Let n := slots c.

(* what a past holds that is made from a present holding [d] *)
Definition past_of (d : list Z) : OrtValue :=
  if decide (beams = []) then mkOrt (kv_type c) (kv_shape c) d
  else mkOrt (score_type (kv_type c)) (kv_shape c) (reorder d).

Definition was_present (j : nat) (d : list Z) : Prop :=
  ∃ q, presents_ c !! j = Some (Some q) ∧ tensors h0 !! q = Some (mkOrt (kv_type c) (kv_shape c) d).

(* the first [i] presents have become pasts *)
Record moved (i : nat) (pasts presents : list (option ptr)) (h : heap) : Prop := {
  mv_pasts : length pasts = n;
  mv_presents : length presents = n;
  mv_done : ∀ j, (j < i)%nat -> ∃ q d, pasts !! j = Some (Some q) ∧ was_present j d ∧ tensors h !! q = Some (past_of d);
  mv_todo : ∀ j, (i <= j)%nat -> presents !! j = presents_ c !! j;
  mv_same : ∀ j q, presents !! j = Some (Some q) -> presents_ c !! j = Some (Some q) ∧ tensors h !! q = tensors h0 !! q;
  mv_replaces : replaces h0 h (cache_ptrs c) (own pasts ++ own presents ++ [empty_past_ c]) }.

Lemma moved_0 : moved 0 (pasts_ c) (presents_ c) h0.
Proof.
  destruct Hok. split; try done. - intros j Hj. lia. - by apply replaces_refl.
Qed.

Lemma moved_step i pasts presents h : (i < n)%nat -> moved i pasts presents h ->
  ∃ v presents' h', present_to_past beams (pick_past copy_loop c) i (pasts, presents, h)
      = Ok (<[i := Some v]> pasts, presents', h') ∧
    moved (S i) (<[i := Some v]> pasts) presents' h'.
Proof.
  intros Hi [L1 L2 Hd Ht Hs R]. destruct (ck_tensors _ _ Hok i Hi) as (q & d & Eq & Tq).
  assert (presents !! i = Some (Some q)) as Er by (by rewrite Ht).
  destruct (lookup_lt_is_Some_2 pasts i) as [o Eo]; [lia|].
  assert (∀ j, (j < S i)%nat -> j ≠ i -> (j < i)%nat) as Hlt by lia.
  destruct (Hs i q Er) as [_ Tq']. rewrite Tq in Tq'. unfold present_to_past. destruct (decide (beams = [])) as [Hb|Hb].
  - unfold move_out. rewrite (get_Some _ _ _ Er), bind_Ok, put_lt, !bind_Ok by lia. cbv beta iota.
    destruct (assign_moved pasts presents i o (Some q) h [empty_past_ c] Eo Er (rp_live _ _ _ _ R)) as (-> & R' & K1 & K2).
    rewrite bind_Ok. cbv beta iota. exists q, (<[i := None]> presents), (free o h). split; [done|].
    split; [by rewrite length_insert|by rewrite length_insert| | | |by eapply replaces_trans].
    + intros j Hj. destruct (decide (j = i)) as [->|Hne].
      * exists q, d. rewrite list_lookup_insert_eq by lia. split; [done|]. split; [by exists q|].
        rewrite K2 by (apply elem_of_app; left; by eapply elem_of_own). unfold past_of. by rewrite decide_True.
      * destruct (Hd j ltac:(lia)) as (q' & d' & E1 & E2 & E3). exists q', d'.
        rewrite list_lookup_insert_ne by done. split; [done|]. split; [done|]. by rewrite (K1 j).
    + intros j Hj. rewrite list_lookup_insert_ne by lia. apply Ht. lia.
    + intros j q' Hj. apply list_lookup_insert_Some in Hj as [(_ & ? & _)|[Hne Hj]]; [done|].
      destruct (Hs j q' Hj) as [H1 H2]. split; [done|]. rewrite K2; [done|]. apply elem_of_app. left. by eapply elem_of_own.
  - unfold pick_past. rewrite (get_Some _ _ _ Er), bind_Ok. unfold deref_owned. cbn [initialised].
    rewrite bind_Ok, (deref_Some _ _ _ Tq'), bind_Ok. cbn [data].
    destruct (make_tensor h (kv_shape c) (score_type (kv_type c)) ltac:(apply R)) as (h1 & v & e & -> & R1 & T1 & L).
    rewrite (deref_Some _ _ _ T1), bind_Ok. cbn [data].
    assert (length d = element_count (kv_shape c)) as Ld by (apply (proj1 (ck_live _ _ Hok) q _ Tq)).
    rewrite subspan_le, bind_Ok, drop_0, take_ge by lia.
    destruct (Hcopy Hb d e Ld L) as [-> Lr]. rewrite bind_Ok.
    destruct (set_data_replaces h1 v (reorder d) _ (rp_live _ _ _ _ R1) T1) as (h2 & -> & R2 & T2); [done|]. rewrite bind_Ok.
    destruct (assign_new pasts i o v h h2 (own presents ++ [empty_past_ c]) Eo) as (h3 & -> & R3 & Tv & K1 & K2);
      [exact (rp_live _ _ _ _ R)|by eapply replaces_trans|].
    rewrite bind_Ok. cbv beta iota. exists v, presents, h3. split; [done|].
    split; [by rewrite length_insert|done| | | |by eapply replaces_trans].
    + intros j Hj. destruct (decide (j = i)) as [->|Hne].
      * exists v, d. rewrite list_lookup_insert_eq by lia. split; [done|]. split; [by exists q|].
        rewrite Tv, T2. unfold past_of. by rewrite decide_False.
      * destruct (Hd j ltac:(lia)) as (q' & d' & E1 & E2 & E3). exists q', d'.
        rewrite list_lookup_insert_ne by done. split; [done|]. split; [done|]. by rewrite (K1 j).
    + intros j Hj. apply Ht. lia.
    + intros j q' Hj. destruct (Hs j q' Hj) as [H1 H2]. split; [done|]. rewrite K2; [done|].
      apply elem_of_app. left. by eapply elem_of_own.
Qed.
End update.

(* the first [i] presents are new *)
Section fresh.
Context (h1 : heap) (pasts presents1 : list (option ptr)) (e : ptr) (sh : list nat) (ty : ONNXTensorElementDataType).
Context (Hl : live h1 (own pasts ++ own presents1 ++ [e])).

Record remade (i : nat) (presents : list (option ptr)) (h : heap) : Prop := {
  rm_length : length presents = length presents1;
  rm_done : ∀ j, (j < i)%nat -> ∃ q d, presents !! j = Some (Some q) ∧ tensors h !! q = Some (mkOrt ty sh d);
  rm_same : ∀ q, q ∈ own pasts -> tensors h !! q = tensors h1 !! q;
  rm_replaces : replaces h1 h (own pasts ++ own presents1 ++ [e]) (own pasts ++ own presents ++ [e]) }.

Lemma remade_0 : remade 0 presents1 h1.
Proof. split; try done. - intros j Hj. lia. - by apply replaces_refl. Qed.

Lemma remade_step i presents h : (i < length presents1)%nat -> remade i presents h ->
  ∃ v h' h'' , CreateTensor sh ty h = (h', v) ∧ assign presents i (Some v) h' = Ok (<[i := Some v]> presents, h'') ∧
    remade (S i) (<[i := Some v]> presents) h''.
Proof.
  intros Hi [L Hd Hs R]. destruct (lookup_lt_is_Some_2 presents i) as [o Eo]; [lia|].
  destruct (make_tensor h sh ty ltac:(apply R)) as (h' & v & d & E & R1 & T1 & _).
  assert (∀ l, own pasts ++ own l ++ [e] ≡ₚ own l ++ own pasts ++ [e]) as P.
  { intros l. rewrite !app_assoc. apply Permutation_app_tail, Permutation_app_comm. }
  destruct (assign_new presents i o v h h' (own pasts ++ [e]) Eo) as (h'' & E' & R2 & Tv & K1 & K2);
    [eapply live_perm; [apply P|apply R]|done|].
  exists v, h', h''. split; [done|]. split; [done|]. split.
  - by rewrite length_insert.
  - intros j Hj. destruct (decide (j = i)) as [->|Hne].
    + exists v, d. rewrite list_lookup_insert_eq by lia. by rewrite Tv.
    + destruct (Hd j ltac:(lia)) as (q & d' & E1 & E2). exists q, d'. rewrite list_lookup_insert_ne by done.
      by rewrite (K1 j).
  - intros q Hq. rewrite K2 by (apply elem_of_app; by left). by apply Hs.
  - eapply replaces_trans; [exact R|]. eapply replaces_perm; [symmetry; apply P|symmetry; apply P|exact R2].
Qed.
End fresh.

(** *** Update *)
Record updated (c c' : Cache) (h h' : heap) (beams : list Z) (reorder : list Z -> list Z) (sh : list nat) : Prop := {
  up_same : slots c' = slots c ∧ input_index_ c' = input_index_ c ∧ output_index_ c' = output_index_ c ∧
    share_buffer c' = share_buffer c ∧ kv_type c' = kv_type c ∧ empty_past_ c' = empty_past_ c ∧
    input_name_strings_ c' = input_name_strings_ c ∧ output_name_strings_ c' = output_name_strings_ c;
  up_shape : kv_shape c' = sh;
  up_ok : cache_ok c' h';
  up_replaces : replaces h h' (cache_ptrs c) (cache_ptrs c');
  up_pasts : ∀ i d, was_present c h i d -> ∃ q, pasts_ c' !! i = Some (Some q) ∧
    tensors h' !! q = Some (past_of c beams reorder d) }.

(* where the cache is in the lists of its state *)
Record cache_slots (c : Cache) (s : State) (pre mid post opre omid opost : list (option ptr)) : Prop := {
  cs_input_index : input_index_ c = Some (length pre);
  cs_output_index : output_index_ c = Some (length opre);
  cs_inputs : inputs_ s = pre ++ mid ++ post;
  cs_outputs : outputs_ s = opre ++ omid ++ opost;
  cs_mid : length mid = slots c;
  cs_omid : length omid = slots c }.

(* the lists agree with [l] up to [i] *)
Definition prefix_of (i : nat) (m l : list (option ptr)) : Prop := ∀ j, (j < i)%nat -> m !! j = l !! j.

Lemma prefix_step i m l v : prefix_of i m l -> (i < length m)%nat -> (i < length l)%nat ->
  prefix_of (S i) (<[i := v]> m) (<[i := v]> l).
Proof.
  intros H Hm Hl j Hj. destruct (decide (j = i)) as [->|Hne]; [by rewrite !list_lookup_insert_eq by done|].
  rewrite !list_lookup_insert_ne by done. apply H. lia.
Qed.

Lemma prefix_full n m l : prefix_of n m l -> length m = n -> length l = n -> m = l.
Proof. intros H Hm Hl. by apply (list_eq_lt _ _ n). Qed.

Section update_ok.
Context (c : Cache) (s : State) (h : heap) (beams : list Z) (current_length : Z) (reorder : list Z -> list Z).
Context (pre mid post opre omid opost : list (option ptr)).
Context (Hok : cache_ok c h) (Hsl : cache_slots c s pre mid post opre omid opost).

(* what both updates do with their result *)
Lemma updated_intro sh pasts presents1 h1 presents h2 :
  moved c h beams reorder (slots c) pasts presents1 h1 ->
  remade h1 pasts presents1 (empty_past_ c) sh (kv_type c) (slots c) presents h2 ->
  updated c (set_caches pasts presents (set_kv_shape sh c)) h h2 beams reorder sh.
Proof.
  intros [L1 L2 Hd _ _ R1] [L3 Hd' Hs R2]. split; try done.
  - split; try done.
    + simpl. congruence.
    + exact (rp_live _ _ _ _ R2).
  - by eapply replaces_trans.
  - intros i d Hw. destruct Hw as (q0 & E0 & T0).
    assert (i < slots c)%nat as Hi by (rewrite <- (ck_presents _ _ Hok); by eapply lookup_lt_Some).
    destruct (Hd i Hi) as (q & d' & Eq & (q1 & E1 & T1) & Tq). exists q. split; [done|].
    rewrite Hs by (by eapply elem_of_own). rewrite Tq. by replace d' with d by congruence.
Qed.

Lemma KV_Cache_Update_ok : share_buffer c = false ->
  (beams ≠ [] -> ∀ src d, length src = element_count (kv_shape c) -> length d = element_count (kv_shape c) ->
    copy_blocks beams (block_of (kv_shape c)) src d = Ok (reorder src) ∧ length (reorder src) = element_count (kv_shape c)) ->
  ∃ c' h', KV_Cache_Update beams current_length c s h =
      Ok (c', with_outputs (opre ++ presents_ c' ++ opost) (with_inputs (pre ++ pasts_ c' ++ post) s), h') ∧
    updated c c' h h' beams reorder (<[2%nat := Z.to_nat current_length]> (kv_shape c)).
Proof.
  destruct Hsl as [Ii Io Si So Lm Lo]. intros Hshare Hcopy. unfold KV_Cache_Update. rewrite Hshare, Ii. cbn [at_index initialised].
  match goal with |- context [for_ (slots c) ?f ?x] =>
    destruct (for_inv (fun i '(st, s1) => ∃ pasts presents h1 m, st = (pasts, presents, h1) ∧
        moved c h beams reorder i pasts presents h1 ∧
        s1 = with_inputs (pre ++ m ++ post) s ∧ length m = slots c ∧ prefix_of i m pasts) (slots c) f x)
      as ([st s1] & -> & pasts & presents1 & h1 & m & -> & Hm & -> & Lm' & Hp) end.
  - exists (pasts_ c), (presents_ c), h, mid. split; [done|]. split; [by apply moved_0|].
    split; [symmetry; by apply with_inputs_id|]. split; [done|]. intros j Hj. lia.
  - intros i [st s1] Hi (pasts & presents & h1 & m & -> & Hm & -> & Lm' & Hp).
    destruct (moved_step c h beams _ reorder Hok Hcopy i pasts presents h1 Hi Hm) as (v & presents' & h' & E & Hm').
    unfold PickPastState. rewrite E, bind_Ok. cbv beta iota. rewrite ?bind_Ok.
    pose proof (mv_pasts _ _ _ _ _ _ _ _ Hm) as Lp.
    rewrite (get_Some _ _ (Some v)), bind_Ok by (apply list_lookup_insert_eq; lia).
    rewrite (set_input_at _ pre m post), bind_Ok by (done || lia).
    eexists. split; [reflexivity|]. exists (<[i := Some v]> pasts), presents', h', (<[i := Some v]> m).
    split; [done|]. split; [done|]. split; [done|]. split; [by rewrite length_insert|]. apply prefix_step; [done|lia|lia].
  - rewrite bind_Ok. cbv beta iota zeta. cbn [slots kv_shape kv_type presents_ pasts_ input_index_ output_index_ set_caches set_kv_shape]. rewrite Io. cbn [at_index initialised].
    pose proof (mv_pasts _ _ _ _ _ _ _ _ Hm) as Lp. pose proof (mv_presents _ _ _ _ _ _ _ _ Hm) as Lr.
    rewrite (prefix_full _ m pasts Hp Lm' Lp). set (sh := <[2%nat := _]> (kv_shape c)).
    assert (live h1 (own pasts ++ own presents1 ++ [empty_past_ c])) as Hl1 by apply (mv_replaces _ _ _ _ _ _ _ _ Hm).
    match goal with |- context [for_ (slots c) ?f ?x] =>
      destruct (for_inv (fun i '(presents, s2, h2) => ∃ m, remade h1 pasts presents1 (empty_past_ c) sh (kv_type c) i presents h2 ∧
        s2 = with_outputs (opre ++ m ++ opost) (with_inputs (pre ++ pasts ++ post) s) ∧ length m = slots c ∧ prefix_of i m presents)
        (slots c) f x) as ([[presents s2] h2] & -> & m' & Hr & -> & Lm2 & Hp2) end.
    + exists omid. split; [by apply remade_0|]. split; [symmetry; by apply with_outputs_id|]. split; [done|]. intros j Hj. lia.
    + intros i [[presents s2] h2] Hi (m' & Hr & -> & Lm2 & Hp2).
      destruct (remade_step h1 pasts presents1 (empty_past_ c) sh (kv_type c) i presents h2 ltac:(lia) Hr) as (v & h' & h'' & E & E' & Hr').
      rewrite E, E', bind_Ok. cbv beta iota. rewrite ?bind_Ok.
      rewrite (set_output_at _ opre m' opost), bind_Ok by (done || lia).
      eexists. split; [reflexivity|]. exists (<[i := Some v]> m'). split; [done|]. split; [done|].
      split; [by rewrite length_insert|]. apply prefix_step; [done|lia|]. rewrite (rm_length _ _ _ _ _ _ _ _ _ Hr). lia.
    + rewrite bind_Ok. cbv beta iota. eexists _, h2. split; [|exact (updated_intro sh pasts presents1 h1 presents h2 Hm Hr)].
      cbn [presents_ pasts_ set_caches set_kv_shape].
      rewrite (prefix_full _ m' presents Hp2 Lm2) by (rewrite (rm_length _ _ _ _ _ _ _ _ _ Hr); done). done.
Qed.
Lemma KV_Cache_Combined_Update_ok p : (num_beams (gp_search p) =? 1) || negb (bool_decide (beams = [])) = true ->
  (beams ≠ [] -> ∀ src d, length src = element_count (kv_shape c) -> length d = element_count (kv_shape c) ->
    copy_key_value_blocks beams (block_of (tail (kv_shape c))) (block_of (kv_shape c)) src d = Ok (reorder src) ∧
    length (reorder src) = element_count (kv_shape c)) ->
  ∃ c' h', KV_Cache_Combined_Update p beams current_length c s h =
      Ok (c', with_outputs (opre ++ presents_ c' ++ opost) (with_inputs (pre ++ pasts_ c' ++ post) s), h') ∧
    updated c c' h h' beams reorder (<[3%nat := Z.to_nat current_length]> (kv_shape c)).
Proof.
  destruct Hsl as [Ii Io Si So Lm Lo]. intros Hassert Hcopy. unfold KV_Cache_Combined_Update. rewrite Hassert. cbn [assert_].
  rewrite bind_Ok.
  match goal with |- context [for_ (slots c) ?f ?x] =>
    destruct (for_inv (fun i st => ∃ pasts presents h1, st = (pasts, presents, h1) ∧
        moved c h beams reorder i pasts presents h1) (slots c) f x)
      as (st & -> & pasts & presents1 & h1 & -> & Hm) end.
  - exists (pasts_ c), (presents_ c), h. split; [done|]. by apply moved_0.
  - intros i st Hi (pasts & presents & h1 & -> & Hm).
    destruct (moved_step c h beams _ reorder Hok Hcopy i pasts presents h1 Hi Hm) as (v & presents' & h' & E & Hm').
    unfold PickPastState_Combined. rewrite E. eexists. split; [reflexivity|]. by eexists _, _, _.
  - rewrite bind_Ok. cbv beta iota zeta. cbn [slots kv_shape kv_type presents_ pasts_ input_index_ output_index_ set_caches set_kv_shape].
    rewrite Ii, Io. cbn [at_index initialised].
    pose proof (mv_pasts _ _ _ _ _ _ _ _ Hm) as Lp. pose proof (mv_presents _ _ _ _ _ _ _ _ Hm) as Lr.
    set (sh := <[3%nat := _]> (kv_shape c)).
    assert (live h1 (own pasts ++ own presents1 ++ [empty_past_ c])) as Hl1 by apply (mv_replaces _ _ _ _ _ _ _ _ Hm).
    match goal with |- context [for_ (slots c) ?f ?x] =>
      destruct (for_inv (fun i '(presents, s2, h2) => ∃ m m', remade h1 pasts presents1 (empty_past_ c) sh (kv_type c) i presents h2 ∧
        s2 = with_outputs (opre ++ m' ++ opost) (with_inputs (pre ++ m ++ post) s) ∧ length m = slots c ∧ length m' = slots c ∧
        prefix_of i m pasts ∧ prefix_of i m' presents)
        (slots c) f x) as ([[presents s2] h2] & -> & m & m' & Hr & -> & Lm1 & Lm2 & Hp1 & Hp2) end.
    + exists mid, omid. split; [by apply remade_0|]. rewrite with_inputs_id by done.
      split; [symmetry; by apply with_outputs_id|]. split; [done|]. split; [done|]. split; intros j Hj; lia.
    + intros i [[presents s2] h2] Hi (m & m' & Hr & -> & Lm1 & Lm2 & Hp1 & Hp2).
      destruct (remade_step h1 pasts presents1 (empty_past_ c) sh (kv_type c) i presents h2 ltac:(lia) Hr) as (v & h' & h'' & E & E' & Hr').
      destruct (lookup_lt_is_Some_2 pasts i) as [o Eo]; [lia|].
      rewrite E, E', bind_Ok. cbv beta iota. rewrite !bind_Ok, (get_Some _ _ _ Eo), bind_Ok.
      rewrite (set_input_at _ pre m post), bind_Ok by (done || lia).
      rewrite (set_output_at _ opre m' opost), bind_Ok by (done || lia).
      eexists. split; [reflexivity|]. exists (<[i := o]> m), (<[i := Some v]> m'). split; [done|]. split; [done|].
      rewrite !length_insert. split; [done|]. split; [done|]. split.
      * rewrite <- (list_insert_id pasts i o Eo). apply prefix_step; [done|lia|lia].
      * apply prefix_step; [done|lia|]. rewrite (rm_length _ _ _ _ _ _ _ _ _ Hr). lia.
    + rewrite bind_Ok. cbv beta iota. eexists _, h2. split; [|exact (updated_intro sh pasts presents1 h1 presents h2 Hm Hr)].
      cbn [presents_ pasts_ set_caches set_kv_shape]. rewrite (prefix_full _ m pasts Hp1 Lm1 Lp).
      rewrite (prefix_full _ m' presents Hp2 Lm2) by (rewrite (rm_length _ _ _ _ _ _ _ _ _ Hr); done). done.
Qed.
End update_ok.

(** *** Construction *)
Lemma CreateTensors_ok n sh ty h : heap_ok h ->
  ∃ l h', CreateTensors n sh ty h = Ok (l, h') ∧ replaces h h' [] (own l) ∧ length l = n ∧
    (∀ i, (i < n)%nat -> ∃ q d, l !! i = Some (Some q) ∧ tensors h' !! q = Some (mkOrt ty sh d)).
Proof.
  intros Hok. unfold CreateTensors.
  match goal with |- context [for_ n ?f ?x] => destruct (for_inv (fun i '(l, h1) => replaces h h1 [] (own l) ∧ length l = i ∧
    (∀ j, (j < i)%nat -> ∃ q d, l !! j = Some (Some q) ∧ tensors h1 !! q = Some (mkOrt ty sh d))) n f x)
    as ([l h'] & E & H1 & H2 & H3) end.
  - split; [|split; [done|intros; lia]]. apply replaces_refl. split; [done|]. split; constructor.
  - intros i [l h1] Hi (R & L & H). destruct (make_tensor h1 sh ty ltac:(apply R)) as (h2 & q & d & -> & R1 & T & _).
    destruct (replaces_new _ _ _ _ R1 (rp_live _ _ _ _ R)) as [R2 K]. eexists. split; [reflexivity|].
    split; [|split; [rewrite length_app; simpl; lia|]].
    + eapply replaces_trans; [exact R|]. eapply replaces_perm; [done| |exact R2].
      unfold own. rewrite omap_app. simpl. apply Permutation_cons_append.
    + intros j Hj. destruct (decide (j = i)) as [->|Hne].
      * exists q, d. split; [|done]. rewrite lookup_app_r by lia. by rewrite L, Nat.sub_diag.
      * destruct (H j ltac:(lia)) as (q' & d' & E & T'). exists q', d'. rewrite lookup_app_l by lia. split; [done|].
        rewrite K; [done|by eapply elem_of_own].
  - eauto 10.
Qed.

Lemma length_layer_names fmts n ins : layer_names fmts n = Ok ins -> length ins = (n * length fmts)%nat.
Proof.
  unfold layer_names. intros E.
  apply (for_inv_Ok (fun i l => length l = (i * length fmts)%nat) n _ _ _ E); [done|].
  intros i l l1 _ Hl E1. clear E. change (S i * length fmts)%nat with (length fmts + i * length fmts)%nat. rewrite <- Hl. clear Hl.
  revert l E1. induction fmts as [|f fmts IH]; intros l E1.
  - injection E1 as <-. done.
  - rewrite for_each_cons in E1. inv_ok. apply IH in E1. rewrite E1, length_app. simpl. lia.
Qed.

Lemma own_replicate n : own (replicate n None) = [].
Proof. by induction n. Qed.

(* the part of the constructors after the names *)
Lemma new_cache_ok n share sh0 sh ty ins outs h : heap_ok h ->
  ∃ c h', make_caches n share sh0 sh ty ins outs h = Ok (c, h') ∧
    replaces h h' [] (cache_ptrs c) ∧ cache_ok c h' ∧ slots c = n ∧ share_buffer c = share ∧ kv_shape c = sh ∧
    input_name_strings_ c = ins ∧ output_name_strings_ c = outs ∧ input_index_ c = None.
Proof.
  intros Hok. unfold make_caches. destruct (make_tensor h sh0 ty Hok) as (h1 & e & d & -> & R1 & T1 & _).
  destruct (CreateTensors_ok n sh ty h1 ltac:(apply R1)) as (l & h2 & -> & R2 & L & HT). rewrite bind_Ok. cbv beta iota.
  pose proof (replaces_app _ _ _ _ [e] R2 (rp_live _ _ _ _ R1)) as R3.
  assert (replaces h h2 [] (own l ++ [e])) as R by (by eapply replaces_trans).
  eexists _, h2. split; [reflexivity|].
  assert (∀ c, pasts_ c = replicate n None -> presents_ c = l -> empty_past_ c = e -> cache_ptrs c = own l ++ [e]) as Hptrs.
  { intros c Hp Hr He. unfold cache_ptrs. by rewrite Hp, Hr, He, own_replicate. }
  rewrite (Hptrs _) by done. split; [done|]. split; [|done].
  split; simpl; [by rewrite length_replicate|done|done|]. rewrite Hptrs by done. exact (rp_live _ _ _ _ R).
Qed.

(** *** Adding to a state *)
Definition push_caches (c : Cache) (ins : list (option ptr)) (s : State) : State :=
  mkState (input_names_ s ++ input_name_strings_ c) (output_names_ s ++ output_name_strings_ c)
    (inputs_ s ++ ins) (outputs_ s ++ presents_ c) (first_run_ s) (current_batch_size_ s).

Lemma add_caches_ok c s h : cache_ok c h -> length (input_name_strings_ c) = slots c -> length (output_name_strings_ c) = slots c ->
  add_caches c s = Ok (push_caches c (replicate (slots c) (Some (empty_past_ c))) s).
Proof.
  intros Hok Li Lo. unfold add_caches. pose proof (ck_presents _ _ Hok) as Lp.
  match goal with |- for_ ?n ?f ?x = _ => destruct (for_inv (fun i s1 => s1 =
    mkState (input_names_ s ++ take i (input_name_strings_ c)) (output_names_ s ++ take i (output_name_strings_ c))
      (inputs_ s ++ replicate i (Some (empty_past_ c))) (outputs_ s ++ take i (presents_ c)) (first_run_ s) (current_batch_size_ s))
    n f x) as (s1 & -> & ->) end.
  - simpl. rewrite !take_0, !app_nil_r. by destruct s.
  - intros i s1 Hi ->.
    destruct (lookup_lt_is_Some_2 (input_name_strings_ c) i) as [a Ea]; [lia|].
    destruct (lookup_lt_is_Some_2 (output_name_strings_ c) i) as [b Eb]; [lia|].
    destruct (lookup_lt_is_Some_2 (presents_ c) i) as [v Ev]; [lia|].
    rewrite (get_Some _ _ _ Ea), bind_Ok, (get_Some _ _ _ Eb), bind_Ok, (get_Some _ _ _ Ev), bind_Ok.
    eexists. split; [reflexivity|]. unfold push_output, push_input. simpl.
    by rewrite (take_S_r _ _ _ Ea), (take_S_r _ _ _ Eb), (take_S_r _ _ _ Ev), replicate_cons_app, !app_assoc.
  - unfold push_caches. by rewrite !take_ge by lia.
Qed.

Lemma owned_replicate ps n q : q ∈ ps -> owned_ptrs ps (replicate n (Some q)).
Proof. intros Hq. apply Forall_forall. intros o Ho%elem_of_replicate. destruct Ho as [-> _]. eauto. Qed.

Lemma cache_presents_owned c h : cache_ok c h -> owned_ptrs (cache_ptrs c) (presents_ c).
Proof.
  intros Hok. apply Forall_forall. intros o Ho. apply list_elem_of_lookup in Ho as [i Hi].
  destruct (ck_tensors _ _ Hok i) as (q & d & Eq & _); [rewrite <- (ck_presents _ _ Hok); by eapply lookup_lt_Some|].
  exists q. split; [congruence|]. unfold cache_ptrs.
  apply elem_of_app. right. apply elem_of_app. left. by eapply elem_of_own.
Qed.

Lemma cache_empty_owned c : empty_past_ c ∈ cache_ptrs c.
Proof. unfold cache_ptrs. apply elem_of_app. right. apply elem_of_app. right. by left. Qed.

(* the inputs an [Add] leaves *)
Definition added_inputs (c : Cache) : list (option ptr) :=
  if share_buffer c then presents_ c else replicate (slots c) (Some (empty_past_ c)).

Lemma cache_ok_indices i o c h : cache_ok c h -> cache_ok (set_indices i o c) h.
Proof. intros [? ? ? ?]. by split. Qed.

Lemma KV_Cache_Add_ok c s h : cache_ok c h ->
  length (input_name_strings_ c) = slots c -> length (output_name_strings_ c) = slots c ->
  ∃ c', KV_Cache_Add c s = Ok (c', push_caches c (added_inputs c) s) ∧ c' = set_indices (length (inputs_ s)) (length (outputs_ s)) c.
Proof.
  intros Hok Li Lo. unfold KV_Cache_Add, added_inputs. set (c' := set_indices _ _ c).
  assert (cache_ok c' h) as Hok' by (by apply cache_ok_indices).
  rewrite (add_caches_ok c' s h Hok' Li Lo), bind_Ok. change (share_buffer c') with (share_buffer c).
  exists c'. split; [|done]. destruct (share_buffer c); [|by rewrite bind_Ok].
  change (slots c') with (slots c). change (presents_ c') with (presents_ c). cbn [input_index_ c' set_indices at_index initialised].
  set (base := replicate _ _). pose proof (ck_presents _ _ Hok) as Lp.
  match goal with |- context [for_ (slots c) ?f ?x] => destruct (for_inv (fun i s1 => ∃ m,
    s1 = with_inputs (inputs_ s ++ m ++ []) (push_caches c base s) ∧ length m = slots c ∧ prefix_of i m (presents_ c)) (slots c) f x)
    as (s1 & -> & m & -> & Lm & Hp) end.
  - exists base. split; [|split; [by apply length_replicate|intros j Hj; lia]]. rewrite with_inputs_id; [done|]. simpl. by rewrite app_nil_r.
  - intros i s1 Hi (m & -> & Lm & Hp). destruct (lookup_lt_is_Some_2 (presents_ c) i) as [v Ev]; [lia|].
    rewrite (get_Some _ _ _ Ev), !bind_Ok.
    rewrite (set_input_at _ (inputs_ s) m []) by (done || lia). eexists. split; [reflexivity|]. exists (<[i := v]> m).
    split; [done|]. rewrite length_insert. split; [done|]. rewrite <- (list_insert_id (presents_ c) i v Ev).
    apply prefix_step; [done|lia|lia].
  - rewrite bind_Ok, app_nil_r. by rewrite (prefix_full _ m (presents_ c) Hp Lm Lp).
Qed.

Lemma KV_Cache_Combined_Add_ok c s h : cache_ok c h -> share_buffer c = false ->
  length (input_name_strings_ c) = slots c -> length (output_name_strings_ c) = slots c ->
  ∃ c', KV_Cache_Combined_Add c s = Ok (c', push_caches c (added_inputs c) s) ∧ c' = set_indices (length (inputs_ s)) (length (outputs_ s)) c.
Proof.
  intros Hok Hs Li Lo. unfold KV_Cache_Combined_Add, added_inputs. rewrite Hs. set (c' := set_indices _ _ c).
  rewrite (add_caches_ok c' s h) by (done || by apply cache_ok_indices). rewrite bind_Ok. by exists c'.
Qed.

Lemma added_inputs_owned c h : cache_ok c h -> owned_ptrs (cache_ptrs c) (added_inputs c).
Proof.
  intros Hok. unfold added_inputs. destruct (share_buffer c); [by eapply cache_presents_owned|].
  apply owned_replicate, cache_empty_owned.
Qed.

(** *** What an update computes *)
(* the beams ask for rows the cache has, one for each of its rows *)
Definition beams_ok (n : nat) (beams : list Z) : Prop :=
  beams = [] ∨ length beams = n ∧ Forall (fun b => 0 <= b < Z.of_nat n) beams.

Lemma copy_blocks_full n block beams src d : beams_ok n beams -> beams ≠ [] ->
  length src = (n * block)%nat -> length d = (n * block)%nat ->
  copy_blocks beams block src d = Ok (gathered src block beams) ∧ length (gathered src block beams) = (n * block)%nat.
Proof.
  intros [->|[Ln Hb]] Hne Hs Hd; [done|]. pose proof (length_gathered src block beams n Hs Hb) as Lg. rewrite Ln in Lg.
  rewrite (copy_blocks_ok src block n beams Hb) by (rewrite ?Ln; lia). by rewrite filled_full by lia.
Qed.

Lemma copy_key_value_blocks_full n block beams src d : beams_ok n beams -> beams ≠ [] ->
  length src = (2 * (n * block))%nat -> length d = (2 * (n * block))%nat ->
  let r := gathered (take (n * block) src) block beams ++ gathered (drop (n * block) src) block beams in
  copy_key_value_blocks beams block (n * block) src d = Ok r ∧ length r = (2 * (n * block))%nat.
Proof.
  intros [->|[Ln Hb]] Hne Hs Hd r; [done|].
  assert (length (take (n * block) src) = n * block)%nat as H1 by (rewrite length_take; lia).
  assert (length (drop (n * block) src) = n * block)%nat as H2 by (rewrite length_drop; lia).
  pose proof (length_gathered _ block beams n H1 Hb) as G1. pose proof (length_gathered _ block beams n H2 Hb) as G2. rewrite Ln in G1, G2.
  rewrite (copy_key_value_blocks_ok src block n beams Hb) by lia.
  rewrite !filled_full by (rewrite ?length_take, ?length_drop; lia). split; [done|]. unfold r. rewrite length_app. lia.
Qed.

(** C6: an update of the cache makes of every layer's present the past, whose
    rows are those of the present at the beam indices (all rows in place without
    beam search), makes new presents of the current length, and has the lists of
    the state point to them; nothing is read after it was destroyed and no tensor
    of another owner is touched. *)
Theorem KV_Cache_Update_spec (c : Cache) (s : State) (h : heap) (beams : list Z) (current_length : Z)
    (n heads len size : nat) (pre mid post opre omid opost : list (option ptr)) :
  cache_ok c h -> share_buffer c = false -> kv_shape c = [n; heads; len; size] -> beams_ok n beams ->
  cache_slots c s pre mid post opre omid opost ->
  ∃ c' s' h', KV_Cache_Update beams current_length c s h = Ok (c', s', h') ∧
    inputs_ s' = pre ++ pasts_ c' ++ post ∧ outputs_ s' = opre ++ presents_ c' ++ opost ∧
    cache_ok c' h' ∧ kv_shape c' = [n; heads; Z.to_nat current_length; size] ∧
    replaces h h' (cache_ptrs c) (cache_ptrs c') ∧
    (∀ i d, was_present c h i d -> ∃ q t, pasts_ c' !! i = Some (Some q) ∧ tensors h' !! q = Some t ∧
      shape t = [n; heads; len; size] ∧
      data t = if decide (beams = []) then d else gathered d (heads * (len * (size * 1))) beams).
Proof.
  intros Hok Hs Hsh Hb Hsl. set (block := (heads * (len * (size * 1)))%nat).
  destruct (KV_Cache_Update_ok c s h beams current_length (fun d => gathered d block beams) pre mid post opre omid opost Hok Hsl Hs)
    as (c' & h' & E & [_ U2 U3 U4 U5]).
  { intros Hne src d. rewrite Hsh. cbn [block_of element_count]. intros L1 L2. by apply (copy_blocks_full n). }
  exists c', (with_outputs (opre ++ presents_ c' ++ opost) (with_inputs (pre ++ pasts_ c' ++ post) s)), h'.
  split; [exact E|]. split; [done|]. split; [done|]. split; [done|]. rewrite Hsh in U2. split; [exact U2|]. split; [done|].
  intros i d Hw. destruct (U5 i d Hw) as (q & Eq & Tq). exists q, (past_of c beams (fun d => gathered d block beams) d).
  split; [done|]. split; [done|]. unfold past_of. rewrite Hsh. by destruct (decide (beams = [])).
Qed.

(** The same for the cache with keys and values in one tensor: both halves
    of a past are the rows of the halves of the present at the beam indices. *)
Theorem KV_Cache_Combined_Update_spec (p : GeneratorParams) (c : Cache) (s : State) (h : heap) (beams : list Z) (current_length : Z)
    (n heads len size : nat) (pre mid post opre omid opost : list (option ptr)) :
  cache_ok c h -> num_beams (gp_search p) = 1 ∨ beams ≠ [] -> kv_shape c = [2; n; heads; len; size]%nat -> beams_ok n beams ->
  cache_slots c s pre mid post opre omid opost ->
  ∃ c' s' h', KV_Cache_Combined_Update p beams current_length c s h = Ok (c', s', h') ∧
    inputs_ s' = pre ++ pasts_ c' ++ post ∧ outputs_ s' = opre ++ presents_ c' ++ opost ∧
    cache_ok c' h' ∧ kv_shape c' = [2; n; heads; Z.to_nat current_length; size]%nat ∧
    replaces h h' (cache_ptrs c) (cache_ptrs c') ∧
    (∀ i d, was_present c h i d -> ∃ q t, pasts_ c' !! i = Some (Some q) ∧ tensors h' !! q = Some t ∧
      shape t = [2; n; heads; len; size]%nat ∧
      let half := (n * (heads * (len * (size * 1))))%nat in
      data t = if decide (beams = []) then d
               else gathered (take half d) (heads * (len * (size * 1))) beams ++ gathered (drop half d) (heads * (len * (size * 1))) beams).
Proof.
  intros Hok Hbeam Hsh Hb Hsl. set (block := (heads * (len * (size * 1)))%nat). set (half := (n * block)%nat).
  set (reorder := fun d => gathered (take half d) block beams ++ gathered (drop half d) block beams).
  destruct (KV_Cache_Combined_Update_ok c s h beams current_length reorder pre mid post opre omid opost Hok Hsl p)
    as (c' & h' & E & [_ U2 U3 U4 U5]).
  { destruct Hbeam as [->|Hne]; [done|]. rewrite (bool_decide_false _ Hne). apply orb_true_r. }
  { intros Hne src d. rewrite Hsh. cbn [tail block_of element_count]. intros L1 L2.
    destruct (copy_key_value_blocks_full n block beams src d Hb Hne) as [E1 E2]; [unfold block; lia|unfold block; lia|].
    split; [exact E1|]. unfold reorder, half. rewrite E2. unfold block. lia. }
  exists c', (with_outputs (opre ++ presents_ c' ++ opost) (with_inputs (pre ++ pasts_ c' ++ post) s)), h'.
  split; [exact E|]. split; [done|]. split; [done|]. split; [done|]. rewrite Hsh in U2. split; [exact U2|]. split; [done|].
  intros i d Hw. destruct (U5 i d Hw) as (q & Eq & Tq). exists q, (past_of c beams reorder d).
  split; [done|]. split; [done|]. unfold past_of. rewrite Hsh. by destruct (decide (beams = [])).
Qed.

(** *** The constructors *)
(* the configured names are formats of one number, and the session knows the first *)
Record layers_ok (m : model) (in_fmts out_fmts : list string) : Prop := {
  ly_layers : 0 <= num_hidden_layers (decoder (Config.model (config_ m)));
  ly_names : ∃ ins outs first ty,
    layer_names in_fmts (Z.to_nat (num_hidden_layers (decoder (Config.model (config_ m))))) = Ok ins ∧
    layer_names out_fmts (Z.to_nat (num_hidden_layers (decoder (Config.model (config_ m))))) = Ok outs ∧
    ins !! O = Some first ∧ GetInputDataType (session_info_ m) first = Ok ty }.

Lemma BatchBeamSize_ok p : params_ok p -> BatchBeamSize p = Ok (Z.of_nat (p_batch p * p_beams p)).
Proof.
  intros [Hb Hn Hs _ _]. unfold BatchBeamSize, p_batch, p_beams. rewrite chk32_ok by (unfold INT_MIN; nia). f_equal. nia.
Qed.

Section new.
Context (m : model) (p : GeneratorParams) (h : heap).
Context (Hok : heap_ok h) (Hp : params_ok p).
Let d := decoder (Config.model (config_ m)).

Lemma KV_Cache_new_ok :
  layers_ok m [past_key_names (dec_in m); past_value_names (dec_in m)] [present_key_names (dec_out m); present_value_names (dec_out m)] ->
  let share := past_present_share_buffer (gp_search p) && (num_beams (gp_search p) =? 1) in
  ∃ c h', KV_Cache_new m p h = Ok (c, h') ∧ replaces h h' [] (cache_ptrs c) ∧ cache_ok c h' ∧ share_buffer c = share ∧
    kv_shape c = [(p_batch p * p_beams p)%nat; Z.to_nat (num_key_value_heads d);
      if share then Z.to_nat (max_length (gp_search p)) else p_seq p; Z.to_nat (head_size d)] ∧
    length (input_name_strings_ c) = slots c ∧ length (output_name_strings_ c) = slots c ∧ input_index_ c = None.
Proof.
  intros [Hl (ins & outs & first & ty & E1 & E2 & E3 & E4)] share. unfold KV_Cache_new. fold share. fold d in Hl, E1, E2 |- *.
  rewrite (BatchBeamSize_ok p Hp), bind_Ok. unfold vector_size. destruct (Z.ltb_spec (num_hidden_layers d) 0) as [Hlt|_]; [lia|].
  rewrite bind_Ok, E1, bind_Ok, E2, bind_Ok, (get_Some _ _ _ E3), bind_Ok, E4, bind_Ok, Nat2Z.id.
  apply length_layer_names in E1, E2. simpl in E1, E2.
  match goal with |- context [make_caches ?x1 ?x2 ?x3 ?x4 ?x5 ?x6 ?x7 h] =>
    destruct (new_cache_ok x1 x2 x3 x4 x5 x6 x7 h Hok) as (c & h' & E & R & O & N1 & N2 & N3 & N4 & N5 & N6) end.
  exists c, h'. split; [exact E|]. rewrite N4, N5, N1. by rewrite N3.
Qed.

Lemma KV_Cache_Combined_new_ok : layers_ok m [past_names (dec_in m)] [present_names (dec_out m)] ->
  ∃ c h', KV_Cache_Combined_new m p h = Ok (c, h') ∧ replaces h h' [] (cache_ptrs c) ∧ cache_ok c h' ∧ share_buffer c = false ∧
    kv_shape c = [2%nat; (p_batch p * p_beams p)%nat; Z.to_nat (num_key_value_heads d); p_seq p; Z.to_nat (head_size d)] ∧
    length (input_name_strings_ c) = slots c ∧ length (output_name_strings_ c) = slots c ∧ input_index_ c = None.
Proof.
  intros [Hl (ins & outs & first & ty & E1 & E2 & E3 & E4)]. unfold KV_Cache_Combined_new. fold d in Hl, E1, E2 |- *.
  rewrite (BatchBeamSize_ok p Hp), bind_Ok. unfold vector_size. destruct (Z.ltb_spec (num_hidden_layers d) 0) as [Hlt|_]; [lia|].
  rewrite bind_Ok, E1, bind_Ok, E2, bind_Ok, (get_Some _ _ _ E3), bind_Ok, E4, bind_Ok, Nat2Z.id.
  apply length_layer_names in E1, E2. simpl in E1, E2. rewrite Nat.mul_1_r in E1, E2.
  match goal with |- context [make_caches ?x1 ?x2 ?x3 ?x4 ?x5 ?x6 ?x7 h] =>
    destruct (new_cache_ok x1 x2 x3 x4 x5 x6 x7 h Hok) as (c & h' & E & R & O & N1 & N2 & N3 & N4 & N5 & N6) end.
  exists c, h'. split; [exact E|]. rewrite N4, N5, N1. by rewrite N3.
Qed.
End new.

(** ** Concrete runs *)
Module Examples.
(* one layer, one head of size 2, float; combined and separate names *)
Definition ex_decoder : Decoder :=
  set_dec_outputs (set_present_names "present_%d" DecoderOutputs_default)
    (set_dec_inputs (set_past_names "past_%d" DecoderInputs_default)
      (set_num_key_value_heads 1 (set_head_size 2 (set_num_hidden_layers 1 Decoder_default)))).
Definition ex_model : model :=
  mkModelCtx (set_model (set_decoder ex_decoder Model_default) Config_default)
    (mkSessionInfo (list_to_map [("past_key_values.0.key"%string, T_FLOAT); ("past_0"%string, T_FLOAT)]) ∅) CPU.
Definition ex_p : GeneratorParams := Inputs.Examples.ex_params 2 1 1 [5].
Definition ex_h : heap := mkHeap ∅ O (fun p i => 10 * Z.of_nat p + Z.of_nat i) O.

Example names_ex : layer_names ["past_key_values.%d.key"%string; "100%%-%d"%string] 2
  = Ok ["past_key_values.0.key"; "100%-0"; "past_key_values.1.key"; "100%-1"]%string.
Proof. reflexivity. Qed.

Example name_with_two_conversions : layer_names ["past.%d.%d"%string] 1 = Undef.
Proof. reflexivity. Qed.

Lemma ex_cache_h_ok : heap_ok ex_h.
Proof. intros p t. simpl. by rewrite lookup_empty. Qed.
Lemma ex_cache_p_ok : params_ok ex_p.
Proof. split; vm_compute; try done. Qed.

(* the rows of both tensors of the layer change places *)
Lemma KV_Cache_Update_spec_witness : ∃ c s h c' s' h',
  (x ← KV_Cache_new ex_model ex_p ex_h; '(c, s) ← KV_Cache_Add (fst x) State_new; Ok (c, s, snd x)) = Ok (c, s, h) ∧
  KV_Cache_Update [1; 0] 2 c s h = Ok (c', s', h') ∧ inputs_ s' = pasts_ c' ∧ outputs_ s' = presents_ c' ∧
  (∃ q, pasts_ c' !! 0%nat = Some (Some q) ∧ data <$> tensors h' !! q = Some [12; 13; 10; 11]).
Proof.
  destruct (KV_Cache_new_ok ex_model ex_p ex_h ex_cache_h_ok ex_cache_p_ok) as (c0 & h & E & R & O & Hsh & Hshape & L1 & L2 & _).
  { split; [vm_compute; discriminate|]. eexists _, _, _, _. split; [reflexivity|]. by split. }
  destruct (KV_Cache_Add_ok c0 State_new h O L1 L2) as (c & Ea & Ec).
  assert (∃ q, was_present c h 0 [10; 11; 12; 13] ∧ presents_ c !! 0%nat = Some (Some q)) as (q0 & Hw & Hq0).
  { subst c. vm_compute in E. injection E as <- <-. eexists. split; [eexists; split; reflexivity|reflexivity]. }
  destruct (KV_Cache_Update_spec c (push_caches c0 (added_inputs c0) State_new) h [1; 0] 2 2 1 1 2 [] (added_inputs c0) [] [] (presents_ c0) [])
    as (c' & s' & h' & E' & I1 & I2 & _ & _ & _ & Hp).
  - subst c. by apply cache_ok_indices.
  - subst c. exact Hsh.
  - subst c. exact Hshape.
  - right. split; [done|]. repeat constructor; lia.
  - subst c. unfold added_inputs. rewrite Hsh. split; simpl; try done; rewrite ?app_nil_r; try done.
    + apply length_replicate.
    + apply (ck_presents _ _ O).
  - exists c, (push_caches c0 (added_inputs c0) State_new), h, c', s', h'. rewrite E, bind_Ok. simpl fst. rewrite Ea, bind_Ok.
    split; [done|]. split; [exact E'|]. split; [by rewrite I1, app_nil_r|]. split; [by rewrite I2, app_nil_r|].
    destruct (Hp 0%nat _ Hw) as (q & t & Eq & Tq & _ & Dt). exists q. split; [done|]. rewrite Tq. simpl. by rewrite Dt.
Defined.

Lemma KV_Cache_Combined_Update_spec_witness : ∃ c s h c' s' h',
  (x ← KV_Cache_Combined_new ex_model ex_p ex_h; '(c, s) ← KV_Cache_Combined_Add (fst x) State_new; Ok (c, s, snd x)) = Ok (c, s, h) ∧
  KV_Cache_Combined_Update ex_p [1; 1] 2 c s h = Ok (c', s', h') ∧ inputs_ s' = pasts_ c' ∧ outputs_ s' = presents_ c' ∧
  (∃ q, pasts_ c' !! 0%nat = Some (Some q) ∧ data <$> tensors h' !! q = Some [12; 13; 12; 13; 16; 17; 16; 17]).
Proof.
  destruct (KV_Cache_Combined_new_ok ex_model ex_p ex_h ex_cache_h_ok ex_cache_p_ok) as (c0 & h & E & R & O & Hsh & Hshape & L1 & L2 & _).
  { split; [vm_compute; discriminate|]. eexists _, _, _, _. split; [reflexivity|]. by split. }
  destruct (KV_Cache_Combined_Add_ok c0 State_new h O Hsh L1 L2) as (c & Ea & Ec).
  assert (∃ q, was_present c h 0 [10; 11; 12; 13; 14; 15; 16; 17] ∧ presents_ c !! 0%nat = Some (Some q)) as (q0 & Hw & Hq0).
  { subst c. vm_compute in E. injection E as <- <-. eexists. split; [eexists; split; reflexivity|reflexivity]. }
  destruct (KV_Cache_Combined_Update_spec ex_p c (push_caches c0 (added_inputs c0) State_new) h [1; 1] 2 2 1 1 2
    [] (added_inputs c0) [] [] (presents_ c0) []) as (c' & s' & h' & E' & I1 & I2 & _ & _ & _ & Hp).
  - subst c. by apply cache_ok_indices.
  - by right.
  - subst c. exact Hshape.
  - right. split; [done|]. repeat constructor; lia.
  - subst c. unfold added_inputs. rewrite Hsh. split; simpl; try done; rewrite ?app_nil_r; try done.
    + apply length_replicate.
    + apply (ck_presents _ _ O).
  - exists c, (push_caches c0 (added_inputs c0) State_new), h, c', s', h'. rewrite E, bind_Ok. simpl fst. rewrite Ea, bind_Ok.
    split; [done|]. split; [exact E'|]. split; [by rewrite I1, app_nil_r|]. split; [by rewrite I2, app_nil_r|].
    destruct (Hp 0%nat _ Hw) as (q & t & Eq & Tq & _ & Dt). exists q. split; [done|]. rewrite Tq. simpl. by rewrite Dt.
Defined.
End Examples.
