(* ===== verification/Logits.v ===== *)
(** * Logits (src/models/logits.h and logits.cpp)

    The output of the session: after the prompt the logits of every row's last
    token that is not a pad are copied out, later there is one token per row;
    half precision is converted, and the scores of all end-of-sequence tokens
    are moved to the primary one.  CPU build without captured graphs.  The data
    of a tensor are the bit patterns of its elements; what [Get] returns is the
    memory of the tensor it names. *)
From Stdlib Require Import ZArith Lia.
From stdpp Require Import base numbers list strings gmap.
From S2P Require Import Prelude Float32 Config Tensors Params GraphPool State Inputs.
Local Open Scope Z_scope.

Record Logits := mkLogits {
  lg_index : option nat;
  lg_shape : nat * nat * nat;
  lg_type : ONNXTensorElementDataType;
  output_last_tokens_ : option ptr;
  output_raw_ : ptr }.

Definition Logits_new (m : model) (p : GeneratorParams) (h : heap) : outcome (Logits * heap) :=
  let '(b, s, v) := ((p_batch p * p_beams p)%nat, p_seq p, Z.to_nat (gp_vocab_size p)) in
  type ← GetOutputDataType (session_info_ m) (logits (dec_out m));
  let '(h, q) := CreateTensor [b; s; v] type h in
  Ok (mkLogits None (b, s, v) type None q, h).

Definition Logits_Add (m : model) (g : Logits) (s : State) : Logits * State :=
  (mkLogits (Some (length (outputs_ s))) (lg_shape g) (lg_type g) (output_last_tokens_ g) (output_raw_ g),
   push_output (logits (dec_out m)) (Some (output_raw_ g)) s).

(** The index of the last token that is not a pad, among the [n] from [base] on;
    [SIZE_MAX] when there is none, because the loop decrements past 0. *)
Fixpoint last_token (prompt : list Z) (pad : Z) (base n : nat) : outcome Z :=
  match n with
  | O => Ok (2 ^ 64 - 1)
  | S n => x ← get prompt (base + n)%nat; if x =? pad then last_token prompt pad base n else Ok (Z.of_nat n)
  end.

Definition element_size (type : ONNXTensorElementDataType) : Z := if decide (type = T_FLOAT) then 4 else 2.

(* an offset in elements: the program computes it in bytes, in 64 bits *)
Definition in_elements (es offset : Z) : Z := u64 (offset * es) / es.

(** The loop of [Get] over the rows and beams.  A tensor whose elements have
    another width than [element_size] is outside the model. *)
Definition copy_last_tokens (m : model) (p : GeneratorParams) (type : ONNXTensorElementDataType) (seq_length vocab_size : nat)
    (raw last : list Z) : outcome (list Z) :=
  let es := element_size type in
  size ← SizeOf type;
  if negb (size =? es) then Undef else
  '(last, _) ← for_ (p_batch p) (fun batch_index '(last, vocab_index) =>
      token_index ← last_token (prompt p) (gp_pad_token_id p) (batch_index * seq_length)%nat seq_length;
      for_ (p_beams p) (fun _ '(last, vocab_index) =>
          last ← (match device_type_ m with
                  | CPU =>
                      source ← subspanZ raw
                        (in_elements es (Z.of_nat vocab_index * Z.of_nat seq_length + token_index * Z.of_nat vocab_size))
                        (Z.of_nat vocab_size);
                      blit last vocab_index source
                  | CUDA => Throw (RuntimeError "Unexpected CUDA device usage")
                  | DML => Ok last
                  end);
          Ok (last, (vocab_index + vocab_size)%nat)) (last, vocab_index)) (last, O);
  Ok last.

(* std::max on the bits of floats *)
Definition max_bits (a b : Z) : Z := if flt (f32_of_bits a) (f32_of_bits b) then b else a.
Definition lowest_bits : Z := bits_of_f32 f32_lowest.

Definition HandleEOSArray (m : model) (rows vocab_size : nat) (d : list Z) : outcome (list Z) :=
  let ids := eos_token_ids (Config.model (config_ m)) in
  if decide (ids = []) then Ok d else
  for_ rows (fun index d =>
      row ← subspan d (index * vocab_size)%nat vocab_size;
      '(max, row) ← for_each (fun id '(max, row) =>
          x ← getZ row id; row ← putZ row id lowest_bits; Ok (max_bits max x, row)) ids (lowest_bits, row);
      row ← putZ row (eos_token_id (Config.model (config_ m))) max;
      blit d (index * vocab_size)%nat row) d.

Section get.
Context (oversize : Z -> Z -> Z).

(* the tensor with one token per row *)
Definition logits_of_last_token (m : model) (p : GeneratorParams) (g : Logits) (h : heap) : outcome (Logits * ptr * heap) :=
  let '(b, s, v) := lg_shape g in
  if decide (s = 1%nat) then Ok (g, output_raw_ g, h) else
  let '(h, q) := CreateTensor [b; 1%nat; v] (lg_type g) h in
  let h := free (output_last_tokens_ g) h in
  raw ← deref h (output_raw_ g);
  t ← deref h q;
  d ← copy_last_tokens m p (lg_type g) s v (data raw) (data t);
  h ← set_data q d h;
  Ok (mkLogits (lg_index g) (b, 1%nat, v) (lg_type g) (Some q) (output_raw_ g), q, h).

(* from float16 to float32 if necessary *)
Definition logits_fp32 (m : model) (g : Logits) (q : ptr) (h : heap) : outcome (Logits * ptr * heap) :=
  if decide (lg_type g = T_FLOAT16) then
    '(h, r) ← ConvertFp16ToFp32 oversize q None (device_type_ m) h;
    Ok (mkLogits (lg_index g) (lg_shape g) (lg_type g) (Some r) (output_raw_ g), r, free (output_last_tokens_ g) h)
  else Ok (g, q, h).

(** [Get]: the new logits, the tensor whose memory is returned, and its scores. *)
Definition Logits_Get (m : model) (p : GeneratorParams) (g : Logits) (h : heap)
  : outcome (Logits * ptr * list f32 * heap) :=
  '((g, q, h) : Logits * ptr * heap) ← logits_of_last_token m p g h;
  '((g, q, h) : Logits * ptr * heap) ← logits_fp32 m g q h;
  let '(b, _, v) := lg_shape g in
  t ← deref h q;
  if negb (bool_decide (element_type t = T_FLOAT)) then Undef else
  d ← subspan (data t) 0 (b * v)%nat;
  d ← HandleEOSArray m b v d;
  h ← set_data q (d ++ drop (b * v) (data t)) h;
  Ok (g, q, map f32_of_bits d, h).
End get.

Definition Logits_Update (g : Logits) (s : State) (h : heap) : outcome (Logits * State * heap) :=
  t ← deref h (output_raw_ g);
  second ← get (shape t) 1;
  if decide (second = 1%nat) then Ok (g, s, h) else
  let '(b, n, v) := lg_shape g in
  let '(h, q) := CreateTensor [b; n; v] (lg_type g) h in
  let h := free (Some (output_raw_ g)) h in
  i ← at_index (lg_index g);
  s ← set_output i (Some q) s;
  Ok (mkLogits (lg_index g) (lg_shape g) (lg_type g) (output_last_tokens_ g) q, s, h).

(** State::Run and then [Get], as every model state does, with the memory of the
    tensor that [Get] returns. *)
Definition run_logits (oversize : Z -> Z -> Z) (f : session) (m : model) (p : GeneratorParams) (graph : option CapturedGraphInfo)
    (batch_size : Z) (o : run_options) (s : State) (g : Logits) (h : heap)
  : outcome (list f32 * run_options * State * Logits * heap) :=
  '(o, s, h) ← State_Run f p graph batch_size o s h;
  '(g, _, scores, h) ← Logits_Get oversize m p g h;
  Ok (scores, o, s, g, h).

(** ** Properties *)

(** *** End of sequence tokens *)
Section eos.
Context (ids : list Z) (v : nat).

(* the highest score of the tokens [l] in [row] *)
Definition eos_max (l : list Z) (row : list Z) : Z :=
  fold_left (fun max id => max_bits max (nth (Z.to_nat id) row 0)) l lowest_bits.

Lemma max_bits_ge a b : flt (f32_of_bits (max_bits a b)) (f32_of_bits a) = false ∧
  flt (f32_of_bits (max_bits a b)) (f32_of_bits b) = false.
Proof.
  unfold max_bits. destruct (flt (f32_of_bits a) (f32_of_bits b)) eqn:E; split.
  - by apply flt_asym.
  - apply flt_irrefl.
  - apply flt_irrefl.
  - done.
Qed.

Lemma max_bits_mono a b c : flt (f32_of_bits a) (f32_of_bits c) = false ->
  flt (f32_of_bits (max_bits a b)) (f32_of_bits c) = false.
Proof.
  intros Hac. unfold max_bits. destruct (flt (f32_of_bits a) (f32_of_bits b)) eqn:E; [|done].
  destruct (flt (f32_of_bits b) (f32_of_bits c)) eqn:E2; [|done]. by rewrite (flt_trans _ _ _ E E2) in Hac.
Qed.

Lemma max_bits_id a b : flt (f32_of_bits a) (f32_of_bits b) = false -> max_bits a b = a.
Proof. unfold max_bits. by intros ->. Qed.

Definition marked (l : list Z) (row : list Z) : list Z :=
  imap (fun j x => if decide (Z.of_nat j ∈ l) then lowest_bits else x) row.

Lemma lookup_marked l row j : marked l row !! j = (fun x => if decide (Z.of_nat j ∈ l) then lowest_bits else x) <$> row !! j.
Proof. unfold marked. by rewrite list_lookup_imap. Qed.

Lemma length_marked l row : length (marked l row) = length row.
Proof. unfold marked. apply length_imap. Qed.

Lemma eos_max_app l id row : eos_max (l ++ [id]) row = max_bits (eos_max l row) (nth (Z.to_nat id) row 0).
Proof. unfold eos_max. by rewrite fold_left_app. Qed.

Lemma eos_max_bound l row : flt (f32_of_bits (eos_max l row)) (f32_of_bits lowest_bits) = false ∧
  ∀ id, id ∈ l -> flt (f32_of_bits (eos_max l row)) (f32_of_bits (nth (Z.to_nat id) row 0)) = false.
Proof.
  induction l as [|id l [IH1 IH2]] using rev_ind.
  - split; [vm_compute; done|]. by intros id ?%not_elem_of_nil.
  - rewrite eos_max_app. split; [by apply max_bits_mono|].
    intros id' [Hin| ->%list_elem_of_singleton]%elem_of_app; [by apply max_bits_mono, IH2|apply max_bits_ge].
Qed.

Lemma eos_loop row : length row = v -> Forall (fun id => 0 <= id < Z.of_nat v) ids ->
  for_each (fun id '(max, row) =>
      x ← getZ row id; row ← putZ row id lowest_bits; Ok (max_bits max x, row)) ids (lowest_bits, row)
  = Ok (eos_max ids row, marked ids row).
Proof.
  intros Hl Hids.
  match goal with |- for_each ?f ?l ?x = _ =>
    destruct (for_each_inv (fun l' st => st = (eos_max l' row, marked l' row)) l f x) as (st & -> & ->); [| |done] end.
  - f_equal. unfold marked. apply list_eq. intros j. rewrite list_lookup_imap.
    by destruct (row !! j).
  - intros l id st -> Hin. pose proof (proj1 (Forall_forall _ _) Hids id Hin) as Hid. simpl in Hid.
    destruct (lookup_lt_is_Some_2 row (Z.to_nat id)) as [x Hx]; [lia|].
    rewrite getZ_get, putZ_put, put_lt by (rewrite ?length_marked; lia).
    rewrite (get_Some _ _ (if decide (id ∈ l) then lowest_bits else x)), !bind_Ok.
    2:{ rewrite lookup_marked, Hx. simpl. by rewrite Z2Nat.id by lia. }
    eexists. split; [reflexivity|]. rewrite eos_max_app, (nth_lookup_Some _ _ _ _ Hx). f_equal.
    + case_decide as Hd; [|done]. destruct (eos_max_bound l row) as [B1 B2]. specialize (B2 id Hd).
      rewrite (nth_lookup_Some _ _ _ _ Hx) in B2. by rewrite !max_bits_id.
    + apply list_eq. intros j. rewrite lookup_marked. destruct (decide (j = Z.to_nat id)) as [->|Hne].
      * rewrite list_lookup_insert_eq by (rewrite length_marked; lia). rewrite Hx. simpl.
        rewrite decide_True; [done|]. rewrite Z2Nat.id by lia. apply elem_of_app. right. by left.
      * rewrite list_lookup_insert_ne, lookup_marked by done. destruct (row !! j) as [y|]; simpl; [|done]. f_equal.
        destruct (decide (Z.of_nat j ∈ l)) as [Hj|Hj].
        -- rewrite decide_True; [done|]. apply elem_of_app. by left.
        -- rewrite decide_False; [done|]. intros [?|Hj2%list_elem_of_singleton]%elem_of_app; [done|lia].
Qed.
End eos.

Definition eos_row (ids : list Z) (eos : Z) (row : list Z) : list Z :=
  <[Z.to_nat eos := eos_max ids row]> (marked ids row).

Lemma length_eos_row ids eos row : length (eos_row ids eos row) = length row.
Proof. unfold eos_row. by rewrite length_insert, length_marked. Qed.

(* the configuration's tokens are tokens of the vocabulary *)
Definition eos_ok (m : model) (v : nat) : Prop :=
  Forall (fun id => 0 <= id < Z.of_nat v) (eos_token_id (Config.model (config_ m)) :: eos_token_ids (Config.model (config_ m))).

Definition eos_rows (m : model) (rows v : nat) (d : list Z) : list Z :=
  let c := Config.model (config_ m) in
  if decide (eos_token_ids c = []) then d
  else concat (map (fun i => eos_row (eos_token_ids c) (eos_token_id c) (tensor_row d v i)) (seq 0 rows)).

Lemma HandleEOSArray_ok m rows v d : length d = (rows * v)%nat -> eos_ok m v ->
  HandleEOSArray m rows v d = Ok (eos_rows m rows v d) ∧ length (eos_rows m rows v d) = (rows * v)%nat.
Proof.
  intros Hd Hok. apply Forall_cons in Hok as [Heos Hids]. unfold HandleEOSArray, eos_rows.
  set (c := Config.model (config_ m)) in *. destruct (decide (eos_token_ids c = [])) as [|_]; [done|].
  set (f := fun i => eos_row (eos_token_ids c) (eos_token_id c) (tensor_row d v i)).
  assert (∀ i, (i < rows)%nat -> length (tensor_row d v i) = v) as Hrow.
  { intros i Hi. unfold tensor_row. apply length_window. rewrite Hd. by apply row_bound. }
  assert (∀ k, (k <= rows)%nat -> length (concat (map f (seq 0 k))) = (k * v)%nat) as Hf.
  { intros k Hk. apply length_concat_map. intros i Hi. unfold f. rewrite length_eos_row. apply Hrow. lia. }
  split; [|by apply Hf].
  match goal with |- for_ _ ?F _ = _ =>
    destruct (for_inv (fun i d' => d' = filled (concat (map f (seq 0 i))) d) rows F d) as (d' & -> & ->) end.
  - done.
  - intros i d' Hi ->. pose proof (row_bound i rows v Hi) as Hb. pose proof (Hf i ltac:(lia)) as Hl.
    rewrite subspan_le, bind_Ok by (rewrite length_filled; lia).
    assert (take v (drop (i * v) (filled (concat (map f (seq 0 i))) d)) = tensor_row d v i) as ->.
    { unfold filled. rewrite drop_app_ge by lia. by rewrite Hl, Nat.sub_diag, drop_0. }
    rewrite (eos_loop _ v), bind_Ok by (done || by apply Hrow). cbv beta iota.
    rewrite putZ_put, put_lt, bind_Ok by (rewrite ?length_marked, ?Hrow; lia).
    fold (eos_row (eos_token_ids c) (eos_token_id c) (tensor_row d v i)). fold (f i).
    assert (length (f i) = v) as Lf by (unfold f; rewrite length_eos_row; by apply Hrow).
    rewrite blit_next by lia. eexists. split; [reflexivity|]. by rewrite concat_map_S.
  - f_equal. apply filled_full. rewrite Hf; lia.
Qed.

(** *** The last token of the prompt *)
Section last.
Context (pad : Z).

Definition all_pads (row : list Z) : bool := forallb (fun t => t =? pad) row.

Fixpoint last_index (row : list Z) : nat :=
  match row with
  | [] => 0
  | _ :: row => if all_pads row then 0 else S (last_index row)
  end.

Lemma all_pads_app r1 r2 : all_pads (r1 ++ r2) = all_pads r1 && all_pads r2.
Proof. apply forallb_app. Qed.

Lemma last_index_snoc row t : all_pads (row ++ [t]) = false ->
  last_index (row ++ [t]) = if t =? pad then last_index row else length row.
Proof.
  induction row as [|u row IH]; [simpl; by destruct (t =? pad)|]. cbn [app last_index length]. intros H.
  destruct (all_pads (row ++ [t])) eqn:E.
  - rewrite all_pads_app in E. apply andb_true_iff in E as [E1 E2]. simpl in E2. rewrite andb_true_r in E2. by rewrite E1, E2.
  - rewrite IH by done. rewrite all_pads_app in E. simpl in E. destruct (t =? pad); [|done].
    rewrite andb_true_r in E. by rewrite E.
Qed.

(** [last_index] is the last position that does not hold a pad. *)
Lemma last_index_spec row : all_pads row = false ->
  (last_index row < length row)%nat ∧ (∃ t, row !! last_index row = Some t ∧ t ≠ pad) ∧
  (∀ j t, (last_index row < j)%nat -> row !! j = Some t -> t = pad).
Proof.
  induction row as [|u row IH]; [done|]. cbn [last_index]. intros H. destruct (all_pads row) eqn:E.
  - simpl in H. fold (all_pads row) in H. rewrite E, andb_true_r in H. apply Z.eqb_neq in H.
    split; [simpl; lia|]. split; [by exists u|]. intros [|j] t Hj Ht; [lia|]. simpl in Ht.
    unfold all_pads in E. rewrite forallb_forall in E. apply Z.eqb_eq, E. apply list_elem_of_In. by eapply list_elem_of_lookup_2.
  - destruct (IH eq_refl) as (H1 & H2 & H3). split; [simpl; lia|]. split; [done|].
    intros [|j] t Hj Ht; [lia|]. apply (H3 j); [lia|done].
Qed.

Lemma last_token_ok prompt base n : (base + n <= length prompt)%nat ->
  last_token prompt pad base n =
    Ok (let row := take n (drop base prompt) in if all_pads row then 2 ^ 64 - 1 else Z.of_nat (last_index row)).
Proof.
  induction n as [|n IH]; intros Hl; [done|]. cbn [last_token].
  destruct (get_lt prompt (base + n)) as (x & -> & Hx); [lia|]. rewrite bind_Ok, IH by lia. cbv zeta.
  rewrite (take_S_r _ _ x) by (by rewrite lookup_drop). set (row := take n (drop base prompt)).
  assert (length row = n) as Hr by (apply length_window; lia).
  destruct (x =? pad) eqn:Ex.
  - rewrite all_pads_app. simpl. rewrite Ex, andb_true_r. destruct (all_pads row) eqn:E; [done|].
    rewrite last_index_snoc, Ex; [done|]. by rewrite all_pads_app, E.
  - assert (all_pads (row ++ [x]) = false) as E by (rewrite all_pads_app; simpl; rewrite Ex; apply andb_false_r).
    rewrite E, last_index_snoc, Ex, Hr by done. done.
Qed.
End last.

(** *** The logits of the last tokens *)
Definition score_ok (ty : ONNXTensorElementDataType) : Prop := ty = T_FLOAT ∨ ty = T_FLOAT16.

Section last_tokens.
Context (m : model) (p : GeneratorParams) (ty : ONNXTensorElementDataType) (v : nat).
Context (Hdev : device_type_ m = CPU) (Hp : params_ok p) (Hty : score_ok ty).
Context (Htok : ∀ i, (i < p_batch p)%nat -> all_pads (gp_pad_token_id p) (prompt_row p i) = false).
Context (Hsize : 4 * Z.of_nat (beam_rows p * (p_seq p * v)) < 2 ^ 64).
Let s := p_seq p.

(* the row of the raw logits that row [r] of the result comes from *)
Definition last_row (raw : list Z) (r : nat) : list Z :=
  tensor_row raw v (r * p_seq p + last_index (gp_pad_token_id p) (beam_row p r)).
Definition last_rows (raw : list Z) : list Z := concat (map (last_row raw) (seq 0 (beam_rows p))).

Lemma in_elements_id x : 0 <= x -> 4 * x < 2 ^ 64 -> in_elements (element_size ty) x = x.
Proof.
  intros H0 H4. unfold in_elements, element_size. destruct (decide _); rewrite u64_id by lia; by rewrite Z.div_mul by lia.
Qed.

Lemma last_row_bound r : (r < beam_rows p)%nat ->
  let k := last_index (gp_pad_token_id p) (beam_row p r) in
  (k < s)%nat ∧ ((r * s + k) * v + v <= beam_rows p * (s * v))%nat.
Proof.
  intros Hr k. assert (k < s)%nat as Hk.
  { unfold k, s. rewrite <- (length_beam_row p Hp r Hr). apply last_index_spec. apply Htok. by apply beam_row_lt. }
  split; [done|]. pose proof (row_index r (beam_rows p) k s Hr Hk). rewrite Nat.mul_assoc. by apply row_bound.
Qed.

Lemma length_last_row raw r : length raw = (beam_rows p * (s * v))%nat -> (r < beam_rows p)%nat -> length (last_row raw r) = v.
Proof.
  intros Hraw Hr. unfold last_row, tensor_row. apply length_window. rewrite Hraw. by apply last_row_bound.
Qed.

Lemma copy_last_tokens_ok raw last : length raw = (beam_rows p * (s * v))%nat -> length last = (beam_rows p * v)%nat ->
  copy_last_tokens m p ty s v raw last = Ok (last_rows raw).
Proof.
  intros Hraw Hlast. unfold copy_last_tokens, last_rows.
  assert (SizeOf ty = Ok (element_size ty)) as -> by (by destruct Hty as [->| ->]).
  rewrite bind_Ok, Z.eqb_refl. cbn [negb]. set (nb := p_beams p). set (R := fun k => concat (map (last_row raw) (seq 0 k))).
  assert (∀ k, (k <= beam_rows p)%nat -> length (R k) = (k * v)%nat) as HR.
  { intros k Hk. apply length_concat_map. intros r Hr. apply length_last_row; [done|lia]. }
  match goal with |- context [for_ (p_batch p) ?f ?x] =>
    destruct (for_inv (fun i st => st = (filled (R (i * nb)%nat) last, (i * nb * v)%nat)) (p_batch p) f x) as (st & -> & ->) end.
  - done.
  - intros i st Hi ->. pose proof (row_bound i _ nb Hi) as Hib. change (p_batch p * nb)%nat with (beam_rows p) in Hib.
    pose proof (row_bound i _ s Hi) as His. rewrite last_token_ok, bind_Ok by (rewrite (po_prompt p Hp); exact His).
    cbv zeta. fold (tensor_row (prompt p) s i). change (tensor_row (prompt p) s i) with (prompt_row p i).
    rewrite Htok by done. set (k := last_index _ (prompt_row p i)).
    match goal with |- context [for_ ?n ?f ?x] =>
      destruct (for_inv (fun j st => st = (filled (R (i * nb + j)%nat) last, ((i * nb + j) * v)%nat)) n f x) as (st & -> & ->) end.
    + by rewrite Nat.add_0_r.
    + intros j st Hj ->. fold nb in Hj. assert (i * nb + j < beam_rows p)%nat as Hr by lia.
      assert ((i * nb + j) / p_beams p = i)%nat as Hdiv.
      { fold nb. symmetry. apply Nat.div_unique with j; lia. }
      destruct (last_row_bound _ Hr) as [B1 B2]. unfold beam_row in B1, B2. rewrite Hdiv in B1, B2. fold k in B1, B2.
      rewrite Hdev.
      assert (Z.of_nat ((i * nb + j) * v) * Z.of_nat s + Z.of_nat k * Z.of_nat v = Z.of_nat (((i * nb + j) * s + k) * v)) as ->
        by (rewrite !Nat2Z.inj_mul, !Nat2Z.inj_add, !Nat2Z.inj_mul, !Nat2Z.inj_add, !Nat2Z.inj_mul; ring).
      rewrite in_elements_id by lia. unfold subspanZ. rewrite decide_True, !Nat2Z.id by (rewrite Hraw; lia).
      rewrite subspan_le, bind_Ok by lia. fold (tensor_row raw v ((i * nb + j) * s + k)).
      assert (tensor_row raw v ((i * nb + j) * s + k) = last_row raw (i * nb + j)) as ->.
      { unfold last_row, beam_row. by rewrite Hdiv. }
      pose proof (HR _ (Nat.lt_le_incl _ _ Hr)) as HRl. pose proof (row_bound _ _ v Hr) as Hrb.
      rewrite blit_next, bind_Ok by (rewrite ?HRl, ?length_last_row by done; lia).
      eexists. split; [reflexivity|]. f_equal; [|lia]. f_equal. unfold R. by rewrite Nat.add_succ_r, concat_map_S.
    + eexists. split; [reflexivity|]. fold nb. f_equal; [do 2 f_equal|f_equal]; lia.
  - rewrite bind_Ok. cbv beta iota. change (p_batch p * nb)%nat with (beam_rows p). f_equal.
    apply filled_full. change (length (R (beam_rows p)) = length last). rewrite HR by done. lia.
Qed.
End last_tokens.

(** *** Get *)
Definition half_bits (oversize : Z -> Z -> Z) (z : Z) : Z := bits_of_f32 (FastFloat16ToFloat32 oversize z).

Lemma ConvertFp16ToFp32_new oversize in_ h sh d : heap_ok h -> tensors h !! in_ = Some (mkOrt T_FLOAT16 sh d) -> Z.of_nat (element_count sh) <= INT_MAX ->
  ∃ h' q, ConvertFp16ToFp32 oversize in_ None CPU h = Ok (h', q) ∧ replaces h h' [] [q] ∧
    tensors h' !! q = Some (mkOrt T_FLOAT sh (map (half_bits oversize) d)).
Proof.
  intros Hok Ht Hint. destruct (Hok _ _ Ht) as [_ Hd]. simpl in Hd. unfold ConvertFp16ToFp32.
  rewrite (deref_Some _ _ _ Ht), bind_Ok. cbn [element_type shape data same_shape ensure_output bool_decide assert_].
  rewrite bool_decide_true by done. cbn [assert_]. rewrite !bind_Ok.
  unfold ensure_output. destruct (make_tensor h sh T_FLOAT Hok) as (h1 & q & e & -> & R & T & L). cbn [free].
  rewrite (deref_Some _ _ _ T), bind_Ok. cbn [data].
  rewrite (int_count_id _ Hint), (convert_loop_spec _ (fun x => x)), bind_Ok by lia. rewrite take_ge by lia.
  rewrite filled_full by (rewrite length_map; lia).
  destruct (set_data_replaces h1 q (map (half_bits oversize) d) _ (rp_live _ _ _ _ R) T) as (h2 & E & R2 & T2);
    [rewrite length_map; done|].
  unfold half_bits in E at 1. rewrite E, bind_Ok. exists h2, q. split; [done|]. split; [by eapply replaces_trans|done].
Qed.

Definition lg_ptrs (g : Logits) : list ptr := own [output_last_tokens_ g] ++ [output_raw_ g].

(* [n] tokens per row in the shape kept, [nr] in the tensor *)
Record logits_ok (p : GeneratorParams) (v n nr : nat) (g : Logits) (h : heap) : Prop := {
  lo_shape : lg_shape g = (beam_rows p, n, v);
  lo_type : score_ok (lg_type g);
  lo_raw : ∃ d, tensors h !! output_raw_ g = Some (mkOrt (lg_type g) [beam_rows p; nr; v] d);
  lo_live : live h (lg_ptrs g) }.

Lemma logits_ok_frame p v n nr g h h' : logits_ok p v n nr g h -> kinds_on (lg_ptrs g) h h' -> live h' (lg_ptrs g) ->
  logits_ok p v n nr g h'.
Proof.
  intros [? ? (d & T) _] K Hl. split; [done..| |done].
  destruct (K (output_raw_ g) _ ltac:(unfold lg_ptrs; apply elem_of_app; right; by left) T) as (d' & ?). by exists d'.
Qed.

(* the scores that the raw logits [d] stand for *)
Definition raw_scores (oversize : Z -> Z -> Z) (p : GeneratorParams) (ty : ONNXTensorElementDataType) (v n : nat) (d : list Z) : list Z :=
  let last := if decide (n = 1%nat) then d else last_rows p v d in
  if decide (ty = T_FLOAT16) then map (half_bits oversize) last else last.

Section get_ok.
Context (oversize : Z -> Z -> Z) (m : model) (p : GeneratorParams) (v : nat).
Context (Hdev : device_type_ m = CPU) (Hp : params_ok p) (Heos : eos_ok m v).

(** Every row of a prompt longer than one token has a token, and an [int] counts
    the scores of a step. *)
Record prompt_tokens : Prop := {
  pt_last : p_seq p = 1%nat ∨ (∀ i, (i < p_batch p)%nat -> all_pads (gp_pad_token_id p) (prompt_row p i) = false) ∧
    4 * Z.of_nat (beam_rows p * (p_seq p * v)) < 2 ^ 64;
  pt_scores : Z.of_nat (beam_rows p * v) <= INT_MAX }.
Context (Htok : prompt_tokens).

Lemma Logits_Get_ok n g h : n = 1%nat ∨ n = p_seq p -> logits_ok p v n n g h ->
  ∃ g' q h' d r, Logits_Get oversize m p g h = Ok (g', q, map f32_of_bits r, h') ∧
    tensors h !! output_raw_ g = Some (mkOrt (lg_type g) [beam_rows p; n; v] d) ∧
    r = eos_rows m (beam_rows p) v (raw_scores oversize p (lg_type g) v n d) ∧ length r = (beam_rows p * v)%nat ∧
    logits_ok p v 1 n g' h' ∧ output_raw_ g' = output_raw_ g ∧ lg_index g' = lg_index g ∧
    replaces h h' (lg_ptrs g) (lg_ptrs g') ∧ q ∈ lg_ptrs g' ∧ lg_type g' = lg_type g.
Proof.
  intros Hn [Hsh Hty (d & Td) Hl]. unfold Logits_Get. set (R := beam_rows p) in *.
  assert (length d = R * (n * v))%nat as Ld by (destruct (proj1 Hl _ _ Td) as [_ H]; simpl in H; lia).
  set (last := if decide (n = 1%nat) then d else last_rows p v d).
  assert (∃ g1 q h1, logits_of_last_token m p g h = Ok (g1, q, h1) ∧
    tensors h1 !! q = Some (mkOrt (lg_type g) [R; 1%nat; v] last) ∧ replaces h h1 (lg_ptrs g) (lg_ptrs g1) ∧
    q ∈ lg_ptrs g1 ∧ lg_shape g1 = (R, 1%nat, v) ∧ lg_type g1 = lg_type g ∧ output_raw_ g1 = output_raw_ g ∧ lg_index g1 = lg_index g ∧
    (∃ d, tensors h1 !! output_raw_ g = Some (mkOrt (lg_type g) [R; n; v] d)))
    as (g1 & q & h1 & E1 & T1 & R1 & Q1 & S1 & Y1 & W1 & I1 & D1).
  { unfold logits_of_last_token, last. rewrite Hsh. destruct (decide (n = 1%nat)) as [->|Hne].
    - exists g, (output_raw_ g), h. split; [done|]. split; [done|]. split; [by apply replaces_refl|].
      split; [unfold lg_ptrs; apply elem_of_app; right; by left|]. eauto 10.
    - destruct Hn as [->| ->]; [done|]. destruct Htok as [[?|[Ht1 Ht2]] _]; [done|].
      destruct (make_tensor h [R; 1%nat; v] (lg_type g) ltac:(apply Hl)) as (h0 & q & e & -> & R0 & T0 & L0). cbv zeta.
      destruct (replaces_own h h0 (output_last_tokens_ g) q [output_raw_ g] Hl R0) as (R0' & Tv & K).
      rewrite (deref_Some _ (output_raw_ g) _ (eq_trans (K _ ltac:(by left)) Td)), bind_Ok.
      rewrite (deref_Some _ q _ (eq_trans Tv T0)), bind_Ok. cbn [data].
      rewrite copy_last_tokens_ok, bind_Ok; [|done|done|done|done|exact Ht2|done|simpl in L0; fold R; lia].
      assert (length (last_rows p v d) = (R * v)%nat) as Ll.
      { apply length_concat_map. intros i Hi. by apply length_last_row. }
      destruct (set_data_at _ q (last_rows p v d) _ [] [output_raw_ g] (rp_live _ _ _ _ R0') (eq_trans Tv T0)) as (h1 & -> & R1 & T1 & K1);
        [rewrite Ll; simpl; lia|].
      rewrite bind_Ok. eexists _, _, h1. split; [reflexivity|]. split; [exact T1|].
      split; [by eapply replaces_trans|]. split; [by left|]. do 4 (split; [done|]). exists d.
      rewrite K1, K by (by left). exact Td. }
  rewrite E1, bind_Ok. cbv beta iota.
  assert (∃ g2 q2 h2, logits_fp32 oversize m g1 q h1 = Ok (g2, q2, h2) ∧
    tensors h2 !! q2 = Some (mkOrt T_FLOAT [R; 1%nat; v] (raw_scores oversize p (lg_type g) v n d)) ∧ replaces h1 h2 (lg_ptrs g1) (lg_ptrs g2) ∧
    q2 ∈ lg_ptrs g2 ∧ lg_shape g2 = (R, 1%nat, v) ∧ lg_type g2 = lg_type g ∧ output_raw_ g2 = output_raw_ g ∧ lg_index g2 = lg_index g ∧
    (∃ d, tensors h2 !! output_raw_ g = Some (mkOrt (lg_type g) [R; n; v] d)))
    as (g2 & q2 & h2 & E2 & T2 & R2 & Q2 & S2 & Y2 & W2 & I2 & (d2 & D2)).
  { unfold logits_fp32, raw_scores. fold last. rewrite Y1, Hdev. destruct (decide (lg_type g = T_FLOAT16)) as [Hh|Hh].
    - rewrite Hh in T1.
      assert (Z.of_nat (element_count [R; 1%nat; v]) <= INT_MAX) as Hsc.
      { simpl. rewrite Nat.add_0_r, Nat.mul_1_r. apply (pt_scores Htok). }
      destruct (ConvertFp16ToFp32_new oversize q h1 _ _ (proj1 (rp_live _ _ _ _ R1)) T1 Hsc) as (h2 & r & -> & R2 & T2).
      rewrite bind_Ok. cbv beta iota.
      destruct (replaces_own h1 h2 (output_last_tokens_ g1) r [output_raw_ g1] (rp_live _ _ _ _ R1) R2) as (R2' & Tv & K).
      eexists _, r, _. split; [reflexivity|]. split; [by rewrite Tv|]. split; [done|]. split; [by left|].
      simpl. do 4 (split; [congruence|]). rewrite <- W1, K by (by left). rewrite W1. done.
    - exists g1, q, h1. split; [done|]. destruct Hty as [Hf|?]; [|done]. rewrite Hf in T1 |- *. split; [exact T1|].
      split; [apply replaces_refl, R1|]. rewrite <- Hf. eauto 10. }
  rewrite E2, bind_Ok. cbv beta iota. rewrite S2, (deref_Some _ _ _ T2), bind_Ok. cbn [element_type data].
  rewrite bool_decide_true by done. cbn [negb].
  set (raw := raw_scores oversize p (lg_type g) v n d) in *.
  assert (length raw = (R * v)%nat) as Lr by (destruct (proj1 (rp_live _ _ _ _ R2) _ _ T2) as [_ H]; simpl in H; lia).
  rewrite subspan_le, bind_Ok, drop_0, take_ge by lia.
  destruct (HandleEOSArray_ok m R v raw Lr Heos) as [-> Le]. rewrite bind_Ok. rewrite drop_ge, app_nil_r by lia.
  apply list_elem_of_split in Q2 as Q2'. destruct Q2' as (l1 & l2 & El).
  pose proof (rp_live _ _ _ _ R2) as Hl2. rewrite El in Hl2.
  destruct (set_data_at h2 q2 (eos_rows m R v raw) _ l1 l2 Hl2 T2) as (h3 & -> & R3 & T3 & K3); [rewrite Le; simpl; lia|].
  rewrite bind_Ok. rewrite <- El in R3. exists g2, q2, h3, d, (eos_rows m R v raw).
  split; [done|]. split; [done|]. split; [done|]. split; [done|]. split; [split|].
  - done.
  - by rewrite Y2.
  - rewrite W2, Y2. destruct (decide (output_raw_ g = q2)) as [Eq|Hne].
    + rewrite Eq in D2 |- *. rewrite T3. rewrite T2 in D2. injection D2 as D21 D22 D23. simpl. rewrite D21, D22. eauto.
    + exists d2. rewrite K3; [done|]. assert (output_raw_ g ∈ lg_ptrs g2) as Hin.
      { unfold lg_ptrs. rewrite W2. apply elem_of_app. right. by left. }
      rewrite El in Hin. apply elem_of_app in Hin as [?|[?|?]%elem_of_cons]; [apply elem_of_app; by left|done|apply elem_of_app; by right].
  - apply R3.
  - split; [done|]. split; [done|]. split; [|done]. eapply replaces_trans; [exact R1|]. by eapply replaces_trans.
Qed.
End get_ok.

(** *** Construction and update *)
Lemma Logits_new_ok m p h ty : heap_ok h -> GetOutputDataType (session_info_ m) (logits (dec_out m)) = Ok ty -> score_ok ty ->
  ∃ g h', Logits_new m p h = Ok (g, h') ∧ replaces h h' [] (lg_ptrs g) ∧
    logits_ok p (Z.to_nat (gp_vocab_size p)) (p_seq p) (p_seq p) g h'.
Proof.
  intros Hok Hty Hs. unfold Logits_new. rewrite Hty, bind_Ok.
  destruct (make_tensor h [(p_batch p * p_beams p)%nat; p_seq p; Z.to_nat (gp_vocab_size p)] ty Hok) as (h' & q & d & -> & R & T & _).
  eexists _, h'. split; [reflexivity|]. split; [exact R|]. split; [done|done|by exists d|apply R].
Qed.

Lemma Logits_Add_ok m p v n nr g s h : logits_ok p v n nr g h ->
  ∃ g', Logits_Add m g s = (g', push_output (logits (dec_out m)) (Some (output_raw_ g')) s) ∧
    logits_ok p v n nr g' h ∧ lg_ptrs g' = lg_ptrs g ∧ lg_index g' = Some (length (outputs_ s)) ∧ output_raw_ g' = output_raw_ g.
Proof.
  intros [? ? ? ?]. eexists (mkLogits _ _ _ _ _). split; [reflexivity|]. split; [by split|]. done.
Qed.

Lemma Logits_Update_ok p v nr g s h opre opost : logits_ok p v 1 nr g h ->
  lg_index g = Some (length opre) -> outputs_ s = opre ++ Some (output_raw_ g) :: opost ->
  ∃ g' h', Logits_Update g s h = Ok (g', with_outputs (opre ++ Some (output_raw_ g') :: opost) s, h') ∧
    logits_ok p v 1 1 g' h' ∧ replaces h h' (lg_ptrs g) (lg_ptrs g') ∧ lg_index g' = lg_index g ∧ lg_type g' = lg_type g.
Proof.
  intros [Hsh Hty (d & Td) Hl] Hi Ho. unfold Logits_Update. rewrite (deref_Some _ _ _ Td), bind_Ok. cbn [shape].
  change (get [beam_rows p; nr; v] 1) with (Ok nr). rewrite bind_Ok. destruct (decide (nr = 1%nat)) as [->|Hne].
  - exists g, h. rewrite with_outputs_id by done. split; [done|]. split; [by split; eauto|]. split; [by apply replaces_refl|done].
  - rewrite Hsh. destruct (make_tensor h [beam_rows p; 1%nat; v] (lg_type g) ltac:(apply Hl)) as (h1 & q & e & -> & R & T & _).
    rewrite Hi. cbn [at_index initialised]. rewrite bind_Ok, (set_output_seg s opre (Some (output_raw_ g)) opost), bind_Ok by done.
    unfold lg_ptrs in Hl |- *.
    destruct (replaces_with h h1 (output_raw_ g) q (own [output_last_tokens_ g]) [] Hl R) as (R' & Tv & K).
    eexists (mkLogits _ _ _ _ q), _. split; [reflexivity|]. simpl output_last_tokens_. simpl output_raw_. split; [|done].
    split; [done|done|exists e; cbn [output_raw_ lg_type]; by rewrite Tv|apply R'].
Qed.

Lemma Logits_new_type m p h g h' ty : Logits_new m p h = Ok (g, h') ->
  GetOutputDataType (session_info_ m) (logits (dec_out m)) = Ok ty -> lg_type g = ty.
Proof. unfold Logits_new. intros E Ht. rewrite Ht, bind_Ok in E. destruct (CreateTensor _ _ _). by injection E as <- _. Qed.

(** *** A run of the session and its scores *)
Section run_logits.
Context (oversize : Z -> Z -> Z) (f : session) {Hf : SessionLaw f} (m : model) (p : GeneratorParams) (v : nat).
Context (Hdev : device_type_ m = CPU) (Hp : params_ok p) (Heos : eos_ok m v) (Htok : prompt_tokens p v).
Context (Hg : use_cuda_graph p = false).

(** What a run of a state [s] does whose logits [g] are owner [j] of [owners]:
    it returns the scores of the session's first result, the other owners keep
    the kinds of their tensors, and only outputs are written. *)
Record logits_run (n : nat) (o : run_options) (s : State) (owners : list (list ptr)) (j : nat)
    (g g' : Logits) (h h' : heap) (scores : list f32) : Prop := {
  lr_scores : ∃ ins outs raw, read_io h (input_names_ s) (inputs_ s) = Ok ins ∧ read_io h (output_names_ s) (outputs_ s) = Ok outs ∧
    f o ins outs !! O = Some raw ∧ length scores = (beam_rows p * v)%nat ∧
    scores = map f32_of_bits (eos_rows m (beam_rows p) v (raw_scores oversize p (lg_type g) v n raw)) ∧
    (∀ k l i r d, k ≠ j -> owners !! k = Some l -> r ∈ l -> outputs_ s !! i = Some (Some r) -> f o ins outs !! i = Some d ->
       data <$> tensors h' !! r = Some d);
  lr_logits : logits_ok p v 1 n g' h' ∧ output_raw_ g' = output_raw_ g ∧ lg_index g' = lg_index g ∧ lg_type g' = lg_type g;
  lr_replaces : replaces h h' (concat owners) (concat (<[j := lg_ptrs g']> owners));
  lr_kinds : ∀ k l, k ≠ j -> owners !! k = Some l -> kinds_on l h h';
  lr_kept : ∀ k l r, k ≠ j -> owners !! k = Some l -> r ∈ l -> Some r ∉ outputs_ s -> tensors h' !! r = tensors h !! r }.

Lemma run_logits_ok graph b o n s g h owners j : n = 1%nat ∨ n = p_seq p ->
  live h (concat owners) -> owners !! j = Some (lg_ptrs g) -> io_ok (concat owners) s -> logits_ok p v n n g h ->
  NoDup (outputs_ s) -> outputs_ s !! O = Some (Some (output_raw_ g)) ->
  ∃ scores g' h', run_logits oversize f m p graph b o s g h = Ok (scores, o, set_run false (current_batch_size_ s) s, g', h') ∧
    logits_run n o s owners j g g' h h' scores.
Proof.
  intros Hn Hl Hj Hio Hlg Hnd H0. unfold run_logits.
  destruct (State_Run_live f p graph b o s h _ Hf Hl Hio Hg)
    as (s1 & h1 & -> & -> & (ins & outs & Ei & Eo & Hdata) & R1 & Hkinds & Hframe).
  rewrite bind_Ok. cbv beta iota. pose proof (rp_live _ _ _ _ R1) as L1.
  assert (logits_ok p v n n g h1) as Hlg1.
  { eapply logits_ok_frame; [exact Hlg|by apply same_kinds_on|by apply (live_part _ _ j _ L1)]. }
  destruct (Logits_Get_ok oversize m p v Hdev Hp Heos Htok n g h1 Hn Hlg1)
    as (g2 & q & h2 & raw & bits & -> & T & Eb & Lb & Hlg2 & W2 & Ix2 & R2 & _ & Ty2).
  rewrite bind_Ok. cbv beta iota. destruct (replaces_part _ _ _ j _ _ L1 R2 Hj) as [Q2 K2].
  assert (f o ins outs !! 0%nat = Some raw) as Eraw.
  { destruct (lo_raw _ _ _ _ _ _ Hlg) as [d0 T0].
    destruct (lookup_lt_is_Some_2 (output_names_ s) 0) as [a Ea].
    { rewrite (io_output_names _ _ Hio). by eapply lookup_lt_Some. }
    pose proof (read_io_lookup h _ _ _ 0%nat _ _ _ Eo Ea H0 T0) as E1.
    pose proof (session_results (f := f) o ins outs) as H2.
    destruct (Forall2_lookup_r _ _ _ _ _ H2 E1) as (x & Ex & _). rewrite Ex.
    pose proof (Hdata Hnd 0%nat _ x H0 Ex) as Hx. rewrite T in Hx. by injection Hx as <-. }
  eexists _, g2, h2. split; [reflexivity|]. split; [|done|by eapply replaces_trans| |].
  - exists ins, outs, raw. do 3 (split; [done|]). split; [by rewrite length_map|]. split; [by rewrite Eb|].
    intros k l i r d Hk Hkl Hr Hi Hd. rewrite (K2 k l) by done. by apply (Hdata Hnd i r d).
  - intros k l Hk Hkl r t Hr Ht. destruct (Hkinds r t Ht) as [d0 T0]. exists d0. by rewrite (K2 k l).
  - intros k l r Hk Hkl Hr Hno. rewrite (K2 k l) by done. by apply Hframe.
Qed.
End run_logits.

(** [HandleEOSArray] keeps every score but those of the end-of-sequence
    tokens: the primary one gets a score that none of them exceeded and that one
    of them had, or the lowest float, and every other one the lowest float. *)
Theorem HandleEOSArray_spec (m : model) (rows v : nat) (d : list Z) (i j : nat) (x : Z) :
  let c := Config.model (config_ m) in
  length d = (rows * v)%nat -> eos_ok m v -> eos_token_ids c ≠ [] -> (i < rows)%nat -> tensor_row d v i !! j = Some x ->
  ∃ d' y, HandleEOSArray m rows v d = Ok d' ∧ length d' = length d ∧ tensor_row d' v i !! j = Some y ∧
    (if decide (Z.of_nat j = eos_token_id c) then
       (∀ id z, id ∈ eos_token_ids c -> tensor_row d v i !! Z.to_nat id = Some z -> flt (f32_of_bits y) (f32_of_bits z) = false) ∧
       (y = lowest_bits ∨ ∃ id, id ∈ eos_token_ids c ∧ tensor_row d v i !! Z.to_nat id = Some y)
     else y = if decide (Z.of_nat j ∈ eos_token_ids c) then lowest_bits else x).
Proof.
  intros c Hd Hok Hne Hi Hx. destruct (HandleEOSArray_ok m rows v d Hd Hok) as [E L]. rewrite E. clear E.
  apply Forall_cons in Hok as [Heos Hids]. fold c in Heos, Hids. cbv beta in Heos.
  assert (∀ k, (k < rows)%nat -> length (tensor_row d v k) = v) as Hrow.
  { intros k Hk. unfold tensor_row. apply length_window. rewrite Hd. by apply row_bound. }
  assert (tensor_row (eos_rows m rows v d) v i = eos_row (eos_token_ids c) (eos_token_id c) (tensor_row d v i)) as Hr.
  { unfold eos_rows. fold c. rewrite decide_False by done. unfold tensor_row at 1.
    apply (concat_map_row (fun i => eos_row (eos_token_ids c) (eos_token_id c) (tensor_row d v i))); [|done].
    intros k Hk. rewrite length_eos_row. by apply Hrow. }
  set (row := tensor_row d v i) in *. pose proof (Hrow i Hi) as Lr. fold row in Lr.
  assert (j < v)%nat as Hj by (rewrite <- Lr; by eapply lookup_lt_Some).
  destruct (decide (Z.of_nat j = eos_token_id c)) as [He|He].
  - exists (eos_rows m rows v d), (eos_max (eos_token_ids c) row). split; [done|]. split; [by rewrite L|].
    rewrite Hr. unfold eos_row. replace (Z.to_nat (eos_token_id c)) with j by lia.
    rewrite list_lookup_insert_eq by (rewrite length_marked; lia). split; [done|]. split.
    + intros id z Hid Hz. destruct (eos_max_bound (eos_token_ids c) row) as [_ B]. specialize (B id Hid).
      by rewrite (nth_lookup_Some _ _ _ _ Hz) in B.
    + clear -Hids Lr. revert Hids. generalize (eos_token_ids c). intros l.
      induction l as [|id l IH] using rev_ind; intros Hids; [by left|]. apply Forall_app in Hids as [Hids Hid]. apply Forall_cons in Hid as [Hid _]. cbv beta in Hid. rewrite eos_max_app.
      unfold max_bits. destruct (flt _ _).
      * right. exists id. split; [apply elem_of_app; right; by left|].
        destruct (lookup_lt_is_Some_2 row (Z.to_nat id)) as [z Hz]; [lia|]. by rewrite (nth_lookup_Some _ _ _ _ Hz).
      * destruct (IH Hids) as [->|(id' & Hin & Hz)]; [by left|]. right. exists id'. split; [apply elem_of_app; by left|done].
  - eexists (eos_rows m rows v d), _. split; [done|]. split; [by rewrite L|]. split; [|done].
    rewrite Hr. unfold eos_row. rewrite list_lookup_insert_ne by lia. by rewrite lookup_marked, Hx.
Qed.

(** C23: after the prompt, [Get] returns for every beam the logits of the last
    token of its prompt that is not a pad (converted to floats, with the
    end-of-sequence scores gathered), whatever the padding; later it returns the
    logits of the one token per row.  Either way no destroyed tensor is read and
    no tensor of another owner is touched. *)
Theorem Logits_Get_spec (oversize : Z -> Z -> Z) (m : model) (p : GeneratorParams) (v n : nat) (g : Logits) (h : heap) (raw : list Z) :
  device_type_ m = CPU -> params_ok p -> eos_ok m v -> prompt_tokens p v -> n = 1%nat ∨ n = p_seq p ->
  logits_ok p v n n g h -> data <$> tensors h !! output_raw_ g = Some raw ->
  ∃ g' q h' bits, Logits_Get oversize m p g h = Ok (g', q, map f32_of_bits bits, h') ∧
    length bits = (beam_rows p * v)%nat ∧
    bits = eos_rows m (beam_rows p) v (raw_scores oversize p (lg_type g) v n raw) ∧
    (n ≠ 1%nat -> ∀ r, (r < beam_rows p)%nat -> ∃ k t, beam_row p r !! k = Some t ∧ t ≠ gp_pad_token_id p ∧
       (∀ j u, (k < j)%nat -> beam_row p r !! j = Some u -> u = gp_pad_token_id p) ∧
       tensor_row (last_rows p v raw) v r = tensor_row raw v (r * p_seq p + k)) ∧
    replaces h h' (lg_ptrs g) (lg_ptrs g') ∧ lg_shape g' = (beam_rows p, 1%nat, v).
Proof.
  intros Hdev Hp Heos Htok Hn Hok Hraw.
  destruct (Logits_Get_ok oversize m p v Hdev Hp Heos Htok n g h Hn Hok) as (g' & q & h' & d & r & E & T & Er & Lr & Hok' & _ & _ & R & _).
  rewrite T in Hraw. injection Hraw as ->. exists g', q, h', r. split; [done|]. split; [done|]. split; [done|].
  split; [|split; [done|apply Hok']]. intros Hne i Hi. destruct Hn as [->| ->]; [done|]. destruct Htok as [[?|[Ht Hsz]] _]; [done|].
  pose proof (last_index_spec _ _ (Ht _ (beam_row_lt p i Hi))) as (H1 & (t & H2 & H3) & H4).
  exists (last_index (gp_pad_token_id p) (beam_row p i)), t. split; [done|]. split; [done|]. split; [exact H4|].
  unfold last_rows, tensor_row at 1. rewrite (concat_map_row (last_row p v raw)); [done| |done].
  intros k Hk. apply length_last_row; [done..| |done].
  destruct (proj1 (lo_live _ _ _ _ _ _ Hok) _ _ T) as [_ L]. simpl in L. lia.
Qed.

(** ** Concrete runs *)
Module Examples.
Definition ex_config : Config :=
  set_model (set_eos_token_id 1 (set_eos_token_ids [1; 2] Model_default)) Config_default.
Definition ex_model (ty : ONNXTensorElementDataType) : model :=
  mkModelCtx ex_config (mkSessionInfo ∅ (list_to_map [("logits"%string, ty)])) CPU.

(* one row, a pad at its end, two beams, three tokens in the vocabulary *)
Definition ex_p : GeneratorParams :=
  mkParams (set_num_beams 2 (set_max_length 20 Search_default)) 0 1 3 20 1 0 false 3 8 CPU [5; 6; 0] [] false.
(* as halves: 1, 1 + 1/1024, ... *)
Definition ex_h : heap := mkHeap ∅ O (fun _ i => 0x3C00 + Z.of_nat i) O.

Lemma ex_logits_h_ok : heap_ok ex_h.
Proof. intros p t. simpl. by rewrite lookup_empty. Qed.
Lemma ex_logits_p_ok : params_ok ex_p.
Proof. split; vm_compute; try done. Qed.

Lemma ex_eos_ok ty : eos_ok (ex_model ty) 3.
Proof. repeat constructor; vm_compute; done. Qed.

Definition ex_g : Logits := mkLogits None (2, 3, 3)%nat T_FLOAT16 None 0%nat.
Definition ex_h1 : heap := (CreateTensor [2; 3; 3]%nat T_FLOAT16 ex_h).1.

Lemma ex_g_ok : logits_ok ex_p 3 3 3 ex_g ex_h1.
Proof.
  destruct (Logits_new_ok (ex_model T_FLOAT16) ex_p ex_h T_FLOAT16 ex_logits_h_ok) as (g & h & E & _ & O); [done|by right|].
  change (Logits_new (ex_model T_FLOAT16) ex_p ex_h) with (Ok (ex_g, ex_h1)) in E. by injection E as <- <-.
Qed.

(* the second tokens of the two rows are at 3 and 12; the last score of each goes to token 1 *)
Lemma Logits_Get_spec_witness : ∃ g' q h' bits,
  Logits_Get Tensors.Examples.no_oversize (ex_model T_FLOAT16) ex_p ex_g ex_h1 = Ok (g', q, map f32_of_bits bits, h') ∧
  bits = [0x3F806000; 0x3F80A000; lowest_bits; 0x3F818000; 0x3F81C000; lowest_bits].
Proof.
  destruct (Logits_Get_spec Tensors.Examples.no_oversize (ex_model T_FLOAT16) ex_p 3 3 ex_g ex_h1
      (map (fun i => 0x3C00 + Z.of_nat i) (seq 0 18)))
    as (g' & q & h' & bits & Eg & _ & Eb & _); [done|exact ex_logits_p_ok|apply ex_eos_ok| |by right|exact ex_g_ok|reflexivity|].
  - split; [|vm_compute; discriminate]. right. split; [|vm_compute; done]. intros [|i] Hi; [done|]. vm_compute in Hi. lia.
  - exists g', q, h', bits. split; [exact Eg|]. rewrite Eb. vm_compute. reflexivity.
Defined.

Lemma HandleEOSArray_spec_witness : ∃ d' y,
  HandleEOSArray (ex_model T_FLOAT) 1 3 [0x3F800000; 0x3F800000; 0x40000000] = Ok d' ∧ tensor_row d' 3 0 !! 1%nat = Some y ∧
  flt (f32_of_bits y) (f32_of_bits 0x40000000) = false.
Proof.
  destruct (HandleEOSArray_spec (ex_model T_FLOAT) 1 3 [0x3F800000; 0x3F800000; 0x40000000] 0 1 0x3F800000)
    as (d' & y & E & _ & Hy & Hmax & _); [done|apply ex_eos_ok|done|lia|done|].
  exists d', y. split; [exact E|]. split; [exact Hy|]. apply (Hmax 2); [right; by left|done].
Defined.

(** A row of pads has no last token: its index wraps to [SIZE_MAX], the offset
    in bytes wraps with it, and the row gets the last logits of the row before;
    the first row is read from before the buffer. *)
Definition ex_pads (l : list Z) : GeneratorParams :=
  mkParams (set_max_length 20 Search_default) 0 1 1 20 2 0 false 2 8 CPU l [] false.

Example pad_row_reads_previous_row :
  copy_last_tokens (ex_model T_FLOAT) (ex_pads [5; 6; 0; 0]) T_FLOAT 2 1 [10; 11; 20; 21] [0; 0] = Ok [11; 11] ∧
  copy_last_tokens (ex_model T_FLOAT) (ex_pads [0; 0; 5; 6]) T_FLOAT 2 1 [10; 11; 20; 21] [0; 0] = Undef.
Proof. vm_compute. by split. Qed.
End Examples.
