(* ===== verification/Decoders.v ===== *)
(** * Decoder models (src/models/gpt and decoder_only, .h and .cpp)

    The states of the two decoder models are the same parts around a cache: the
    GPT model has keys and values in one tensor, the others in two.  The cache is
    an interface, [CacheImpl], with the law [CacheLaw] its two implementations
    satisfy; the state and its runs are built, and proved, against it.  The
    theorems are about the CPU build without captured graphs. *)
From Stdlib Require Import ZArith Lia.
From stdpp Require Import base numbers list strings gmap.
From S2P Require Import Prelude Float32 Config Tensors Params GraphPool State Inputs KVCache Logits.
Local Open Scope Z_scope.

(** ** The cache of a decoder *)
Class CacheImpl : Type := {
  cache_new : model -> GeneratorParams -> heap -> outcome (Cache * heap);
  cache_Add : Cache -> State -> outcome (Cache * State);
  cache_Update : GeneratorParams -> list Z -> Z -> Cache -> State -> heap -> outcome (Cache * State * heap) }.

Definition KV_Cache_impl : CacheImpl := {|
  cache_new := KV_Cache_new;
  cache_Add := KV_Cache_Add;
  cache_Update := fun _ beam_indices current_length => KV_Cache_Update beam_indices current_length |}.

Definition KV_Cache_Combined_impl : CacheImpl := {|
  cache_new := KV_Cache_Combined_new;
  cache_Add := KV_Cache_Combined_Add;
  cache_Update := KV_Cache_Combined_Update |}.

(** What a decoder relies on: a cache owns its tensors, adds one input and one
    output per slot, and keeps its places in the lists up to date.  [shape L c]
    says that [c] holds [L] tokens. *)
Class CacheLaw (K : CacheImpl) (m : model) (p : GeneratorParams) (shape : nat -> Cache -> Prop) : Prop := {
  cache_shape_indices L i o c : shape L c -> shape L (set_indices i o c);
  cache_new_law h : heap_ok h -> ∃ c h', cache_new m p h = Ok (c, h') ∧ replaces h h' [] (cache_ptrs c) ∧
    cache_ok c h' ∧ shape (p_seq p) c;
  cache_Add_law L c s h : cache_ok c h -> shape L c ->
    length (input_name_strings_ c) = slots c ∧ length (output_name_strings_ c) = slots c ∧
    cache_Add c s = Ok (set_indices (length (inputs_ s)) (length (outputs_ s)) c, push_caches c (added_inputs c) s);
  cache_Update_law L beams c s h pre mid post opre opost :
    cache_ok c h -> shape L c -> beams_ok (beam_rows p) beams -> num_beams (gp_search p) = 1 ∨ beams ≠ [] ->
    cache_slots c s pre mid post opre (presents_ c) opost -> owned_ptrs (cache_ptrs c) mid ->
    ∃ c' h' mid', cache_Update p beams (Z.of_nat (S L)) c s h =
        Ok (c', with_outputs (opre ++ presents_ c' ++ opost) (with_inputs (pre ++ mid' ++ post) s), h') ∧
      replaces h h' (cache_ptrs c) (cache_ptrs c') ∧ cache_ok c' h' ∧ shape (S L) c' ∧
      owned_ptrs (cache_ptrs c') mid' ∧ length mid' = slots c' ∧ slots c' = slots c ∧
      input_index_ c' = input_index_ c ∧ output_index_ c' = output_index_ c }.

Section laws.
Context (m : model) (p : GeneratorParams) (Hp : params_ok p).
Let d := decoder (Config.model (config_ m)).

Definition names_ok (c : Cache) : Prop :=
  length (input_name_strings_ c) = slots c ∧ length (output_name_strings_ c) = slots c.

Definition KV_Cache_shape (L : nat) (c : Cache) : Prop :=
  let share := past_present_share_buffer (gp_search p) && (num_beams (gp_search p) =? 1) in
  share_buffer c = share ∧ names_ok c ∧
  kv_shape c = [beam_rows p; Z.to_nat (num_key_value_heads d);
    if share then Z.to_nat (max_length (gp_search p)) else L; Z.to_nat (head_size d)].

Definition KV_Cache_Combined_shape (L : nat) (c : Cache) : Prop :=
  share_buffer c = false ∧ names_ok c ∧
  kv_shape c = [2%nat; beam_rows p; Z.to_nat (num_key_value_heads d); L; Z.to_nat (head_size d)].

Lemma pasts_owned c h : cache_ok c h -> (∀ i, (i < slots c)%nat -> ∃ q, pasts_ c !! i = Some (Some q)) ->
  owned_ptrs (cache_ptrs c) (pasts_ c).
Proof.
  intros Hok Hq. apply Forall_forall. intros o Ho. apply list_elem_of_lookup in Ho as [i Hi].
  destruct (Hq i) as [q Eq]; [rewrite <- (ck_pasts _ _ Hok); by eapply lookup_lt_Some|].
  exists q. split; [congruence|]. unfold cache_ptrs. apply elem_of_app. left. by eapply elem_of_own.
Qed.

(* what the two laws of [Update] make of an [updated] cache *)
Lemma updated_law c c' h h' beams reorder sh : cache_ok c h -> updated c c' h h' beams reorder sh ->
  owned_ptrs (cache_ptrs c') (pasts_ c') ∧ length (pasts_ c') = slots c'.
Proof.
  intros Hok [(E1 & _) _ O _ U]. split; [|apply (ck_pasts _ _ O)]. eapply pasts_owned; [exact O|].
  intros i Hi. rewrite E1 in Hi. destruct (ck_tensors _ _ Hok i Hi) as (q & e & Eq & Tq).
  destruct (U i e) as (q' & Eq' & _); [by exists q|]. by exists q'.
Qed.

#[export] Instance KV_Cache_law :
  layers_ok m [past_key_names (dec_in m); past_value_names (dec_in m)] [present_key_names (dec_out m); present_value_names (dec_out m)] ->
  CacheLaw KV_Cache_impl m p KV_Cache_shape.
Proof.
  intros Hl. split; simpl.
  - done.
  - intros h Hok. destruct (KV_Cache_new_ok m p h Hok Hp Hl) as (c & h' & E & R & O & S & Sh & L1 & L2 & _).
    exists c, h'. done.
  - intros L c s h Hok (_ & [L1 L2] & _). split; [done|]. split; [done|].
    destruct (KV_Cache_Add_ok c s h Hok L1 L2) as (c' & E & ->). exact E.
  - intros L beams c s h pre mid post opre opost Hok (Es & En & Esh) Hb _ Hsl Hmid.
    destruct (share_buffer c) eqn:Eshare.
    + unfold KV_Cache_Update. rewrite Eshare. exists c, h, mid. destruct Hsl as [Ii Io Si So Lm Lo].
      rewrite with_inputs_id, with_outputs_id by done. split; [done|]. split; [apply replaces_refl, Hok|]. split; [done|].
      split; [|done]. split; [congruence|]. split; [done|]. by rewrite <- Es in Esh |- *.
    + rewrite <- Es in Esh. cbv iota in Esh. set (block := (Z.to_nat (num_key_value_heads d) * (L * (Z.to_nat (head_size d) * 1)))%nat).
      destruct (KV_Cache_Update_ok c s h beams (Z.of_nat (S L)) (fun d => gathered d block beams) pre mid post opre (presents_ c) opost Hok Hsl Eshare)
        as (c' & h' & E & U).
      { intros Hne src e. rewrite Esh. cbn [block_of element_count]. intros H1 H2. by apply (copy_blocks_full (beam_rows p)). }
      destruct (updated_law _ _ _ _ _ _ _ Hok U) as [U1 U2]. destruct U as [(Y1 & Y2 & Y3 & Y4 & Y5 & Y6 & Y7 & Y8) Sh O R _].
      exists c', h', (pasts_ c'). split; [exact E|]. split; [done|]. split; [done|]. split; [|done].
      split; [congruence|]. split; [unfold names_ok; rewrite Y1, Y7, Y8; exact En|].
      rewrite <- Es. cbv iota. by rewrite Sh, Esh, Nat2Z.id.
Qed.

#[export] Instance KV_Cache_Combined_law : layers_ok m [past_names (dec_in m)] [present_names (dec_out m)] ->
  CacheLaw KV_Cache_Combined_impl m p KV_Cache_Combined_shape.
Proof.
  intros Hl. split; simpl.
  - done.
  - intros h Hok. destruct (KV_Cache_Combined_new_ok m p h Hok Hp Hl) as (c & h' & E & R & O & S & Sh & L1 & L2 & _).
    by exists c, h'.
  - intros L c s h Hok (Es & [L1 L2] & _). split; [done|]. split; [done|].
    destruct (KV_Cache_Combined_Add_ok c s h Hok Es L1 L2) as (c' & E & ->). exact E.
  - intros L beams c s h pre mid post opre opost Hok (Es & En & Esh) Hb Hnb Hsl Hmid.
    set (block := (Z.to_nat (num_key_value_heads d) * (L * (Z.to_nat (head_size d) * 1)))%nat). set (half := (beam_rows p * block)%nat).
    destruct (KV_Cache_Combined_Update_ok c s h beams (Z.of_nat (S L))
      (fun d => gathered (take half d) block beams ++ gathered (drop half d) block beams) pre mid post opre (presents_ c) opost Hok Hsl p)
      as (c' & h' & E & U).
    { destruct Hnb as [->|Hne]; [done|]. rewrite (bool_decide_false _ Hne). apply orb_true_r. }
    { intros Hne src e. rewrite Esh. cbn [tail block_of element_count]. intros H1 H2.
      destruct (copy_key_value_blocks_full (beam_rows p) block beams src e Hb Hne) as [E1 E2]; [unfold block; lia|unfold block; lia|].
      split; [exact E1|]. unfold half. rewrite E2. unfold block. lia. }
    destruct (updated_law _ _ _ _ _ _ _ Hok U) as [U1 U2]. destruct U as [(Y1 & Y2 & Y3 & Y4 & Y5 & Y6 & Y7 & Y8) Sh O R _].
    exists c', h', (pasts_ c'). split; [exact E|]. split; [done|]. split; [done|]. split; [|done].
    split; [congruence|]. split; [unfold names_ok; rewrite Y1, Y7, Y8; exact En|].
    by rewrite Sh, Esh, Nat2Z.id.
Qed.
End laws.

(** ** The state of a decoder *)
Record Decoder_State := mkDecoderState {
  ds_state : State;
  input_ids_ : InputIDs;
  logits_ : Logits;
  kv_cache_ : Cache;
  position_inputs_ : PositionInputs;
  extra_inputs_ : ExtraInputs }.

Section decoder.
Context {K : CacheImpl} (oversize : Z -> Z -> Z) (f : session) (m : model) (p : GeneratorParams).

(** The members in their order of declaration, then the inputs and outputs. *)
Definition Decoder_State_new (sequence_lengths : list (option Z)) (h : heap)
  : outcome (Decoder_State * list (option Z) * heap) :=
  '(ids, h) ← InputIDs_new m p h;
  '(g, h) ← Logits_new m p h;
  '(c, h) ← cache_new m p h;
  '(pi, sequence_lengths, h) ← PositionInputs_new m p sequence_lengths h;
  let e := ExtraInputs_new p in
  let '(ids, s) := InputIDs_Add ids State_new in
  let '(pi, s) := PositionInputs_Add m pi s in
  let '(g, s) := Logits_Add m g s in
  '(c, s) ← cache_Add c s;
  s ← ExtraInputs_Add p e s;
  Ok (mkDecoderState s ids g c pi e, sequence_lengths, h).

Definition UpdateInputsOutputs (next_tokens beam_indices : list Z) (current_length : Z) (d : Decoder_State) (h : heap)
  : outcome (Decoder_State * heap) :=
  '(ids, s, h) ← InputIDs_Update m next_tokens (input_ids_ d) (ds_state d) h;
  '(pi, s, h) ← PositionInputs_Update m current_length (position_inputs_ d) s h;
  '(c, s, h) ← cache_Update p beam_indices current_length (kv_cache_ d) s h;
  '(g, s, h) ← Logits_Update (logits_ d) s h;
  Ok (mkDecoderState s ids g c pi (extra_inputs_ d), h).

Definition batch_size_of (d : Decoder_State) : Z := i32 (Z.of_nat (fst (ii_shape (input_ids_ d)))).

(* State::Run and logits_.Get(), which returns the memory of a tensor *)
Definition run_and_get (graph : option CapturedGraphInfo) (batch_size : Z) (o : run_options) (d : Decoder_State) (h : heap)
  : outcome (list f32 * run_options * Decoder_State * heap) :=
  '(scores, o, s, g, h) ← run_logits oversize f m p graph batch_size o (ds_state d) (logits_ d) h;
  Ok (scores, o, mkDecoderState s (input_ids_ d) g (kv_cache_ d) (position_inputs_ d) (extra_inputs_ d), h).

Definition update_unless_first (current_length : Z) (next_tokens next_indices : list Z) (d : Decoder_State) (h : heap)
  : outcome (Decoder_State * heap) :=
  if first_run_ (ds_state d) then Ok (d, h) else UpdateInputsOutputs next_tokens next_indices current_length d h.

Definition DecoderOnly_Run (graph : option CapturedGraphInfo) (current_length : Z) (next_tokens next_indices : list Z)
    (o : run_options) (d : Decoder_State) (h : heap) : outcome (list f32 * run_options * Decoder_State * heap) :=
  '(d, h) ← update_unless_first current_length next_tokens next_indices d h;
  run_and_get graph (batch_size_of d) o d h.

Definition Gpt_Run (current_length : Z) (next_tokens next_indices : list Z)
    (o : run_options) (d : Decoder_State) (h : heap) : outcome (list f32 * run_options * Decoder_State * heap) :=
  let batch_size := batch_size_of d in
  '(d, h) ← update_unless_first current_length next_tokens next_indices d h;
  run_and_get None batch_size o d h.
End decoder.

(** ** Properties *)
(* the user's tensors *)
Definition extra_ptrs (p : GeneratorParams) : list (option ptr) := map (fun x => Some (in_tensor x)) (extra_inputs p).

Lemma ExtraInputs_Add_ok p s : ExtraInputs_Add p (ExtraInputs_new p) s =
  Ok (mkState (input_names_ s ++ map in_name (extra_inputs p)) (output_names_ s) (inputs_ s ++ extra_ptrs p)
        (outputs_ s) (first_run_ s) (current_batch_size_ s)).
Proof.
  unfold ExtraInputs_Add, ExtraInputs_new, extra_ptrs. set (l := extra_inputs p).
  match goal with |- for_ ?n ?f ?x = _ => destruct (for_inv (fun i s1 => s1 =
    mkState (input_names_ s ++ map in_name (take i l)) (output_names_ s) (inputs_ s ++ map (fun x => Some (in_tensor x)) (take i l))
      (outputs_ s) (first_run_ s) (current_batch_size_ s)) n f x) as (s1 & -> & ->) end.
  - simpl. rewrite !app_nil_r. by destruct s.
  - intros i s1 Hi ->. destruct (lookup_lt_is_Some_2 l i Hi) as [x Ex].
    rewrite (get_Some _ _ _ Ex), bind_Ok, (get_Some _ _ (in_tensor x)), bind_Ok by (by rewrite list_lookup_fmap, Ex).
    eexists. split; [reflexivity|]. unfold push_input. simpl. by rewrite (take_S_r _ _ _ Ex), !map_app, !app_assoc.
  - by rewrite take_ge by done.
Qed.

(* a step of the caller: the tokens and beams it hands to Run *)
Definition step_ok (p : GeneratorParams) (x : list Z * list Z) : Prop :=
  length (fst x) = beam_rows p ∧ beams_ok (beam_rows p) (snd x) ∧ (num_beams (gp_search p) = 1 ∨ snd x ≠ []).

(** The caller's runs of a state: one per step, with the length of the sequences. *)
Fixpoint Runs {A} (run : Z -> list Z -> list Z -> run_options -> A -> heap -> outcome (list f32 * run_options * A * heap))
    (current_length : Z) (steps : list (list Z * list Z)) (o : run_options) (d : A) (h : heap)
  : outcome (list (list f32) * run_options * A * heap) :=
  match steps with
  | [] => Ok ([], o, d, h)
  | (toks, beams) :: steps =>
      '(scores, o, d, h) ← run current_length toks beams o d h;
      '(all, o, d, h) ← Runs run (current_length + 1) steps o d h; Ok (scores :: all, o, d, h)
  end.

Section runs.
Context {A : Type} (run : Z -> list Z -> list Z -> run_options -> A -> heap -> outcome (list f32 * run_options * A * heap)).
Context (p : GeneratorParams) (o : run_options) (ready : nat -> A -> heap -> Prop) (owners : A -> list ptr).
Context (result : nat -> list Z -> list f32 -> Prop).
Context (Hlive : ∀ k d h, ready k d h -> live h (owners d)).
(* the lengths the program's [int]s can address *)
Context (fits : nat -> Prop).
Context (Hrun : ∀ k toks beams d h, ready k d h -> k = O ∨ step_ok p (toks, beams) -> fits (p_seq p + k) ->
  ∃ scores d' h', run (Z.of_nat (p_seq p + k)) toks beams o d h = Ok (scores, o, d', h') ∧ ready (S k) d' h' ∧
    replaces h h' (owners d) (owners d') ∧ result k toks scores).

Lemma Runs_from steps : ∀ k d h, ready k d h ->
  Forall (step_ok p) (match k with O => tail steps | S _ => steps end) -> (∀ j, (j < length steps)%nat -> fits (p_seq p + k + j)%nat) ->
  ∃ all d' h', Runs run (Z.of_nat (p_seq p + k)) steps o d h = Ok (all, o, d', h') ∧
    replaces h h' (owners d) (owners d') ∧
    Forall2 (λ '(j, (toks, _)) scores, result j toks scores) (zip (seq k (length steps)) steps) all ∧
    ready (k + length steps)%nat d' h'.
Proof.
  induction steps as [|[toks beams] steps IH]; intros k d h Hr Hs Hmax.
  - eexists [], d, h. split; [done|]. split; [|split; [constructor|by rewrite Nat.add_0_r]]. apply replaces_refl. by eapply Hlive.
  - assert ((k = O ∨ step_ok p (toks, beams)) ∧ Forall (step_ok p) steps) as [Hs1 Hs'].
    { destruct k; [by split; [left|]|]. apply Forall_cons in Hs as [??]. by split; [right|]. }
    simpl in Hmax. destruct (Hrun k toks beams d h Hr Hs1 ltac:(rewrite <- (Nat.add_0_r (p_seq p + k)); apply Hmax; lia)) as (scores & d2 & h2 & E2 & Hr2 & R2 & S2).
    cbn [Runs]. rewrite E2, bind_Ok. cbv beta iota.
    destruct (IH (S k) d2 h2 Hr2 Hs') as (all & d3 & h3 & E3 & R3 & F3 & Hr3).
    { intros j Hj. replace (p_seq p + S k + j)%nat with (p_seq p + k + S j)%nat by lia. apply Hmax. lia. }
    replace (Z.of_nat (p_seq p + k) + 1) with (Z.of_nat (p_seq p + S k)) by lia. rewrite E3, bind_Ok.
    eexists (scores :: all), d3, h3. split; [done|]. split; [by eapply replaces_trans|]. simpl. rewrite Nat.add_succ_r. by split; [constructor|].
Qed.

(** All the runs of a new state. *)
Lemma Runs_all steps d h : ready 0 d h -> Forall (step_ok p) (tail steps) -> (∀ j, (j < length steps)%nat -> fits (p_seq p + j)%nat) ->
  ∃ all d' h', Runs run (Z.of_nat (p_seq p)) steps o d h = Ok (all, o, d', h') ∧ length all = length steps ∧
    (∀ k toks beams, steps !! k = Some (toks, beams) -> ∃ scores, all !! k = Some scores ∧ result k toks scores) ∧
    replaces h h' (owners d) (owners d') ∧ ready (length steps) d' h'.
Proof.
  intros Hr Hs Hmax. destruct (Runs_from steps 0 d h Hr Hs ltac:(by rewrite Nat.add_0_r)) as (all & d' & h' & E & R & F & Hr').
  rewrite Nat.add_0_r in E. exists all, d', h'. split; [exact E|].
  assert (length all = length steps) as La.
  { rewrite <- (Forall2_length _ _ _ F), length_zip, length_seq. lia. }
  split; [done|]. split; [|done]. intros k toks beams Hk.
  destruct (lookup_lt_is_Some_2 all k) as [scores Es]; [rewrite La; by eapply lookup_lt_Some|].
  exists scores. split; [done|]. exact (Forall2_lookup_lr _ _ _ _ _ _ F (zip_seq_lookup _ 0 _ _ Hk) Es).
Qed.
End runs.

(** *** The parts after the first input: positions, cache and logits *)
Definition pi_names (m : model) (pi : PositionInputs) : list string :=
  (if has_posid_input_ pi then [position_ids (dec_in m)] else []) ++ (if has_mask_input_ pi then [attention_mask (dec_in m)] else []).

Lemma length_pi_inputs pi pi' : has_mask_input_ pi' = has_mask_input_ pi -> has_posid_input_ pi' = has_posid_input_ pi ->
  length (pi_inputs pi') = length (pi_inputs pi).
Proof. intros E1 E2. unfold pi_inputs. rewrite E1, E2. by destruct (has_mask_input_ pi), (has_posid_input_ pi). Qed.

Lemma length_pi_names m pi : length (pi_names m pi) = length (pi_inputs pi).
Proof. unfold pi_names, pi_inputs. by destruct (has_mask_input_ pi), (has_posid_input_ pi). Qed.

Lemma pi_slots_rebase pi s s' pre pre' post post' : pi_slots pi s pre post -> length pre' = length pre ->
  inputs_ s' = pre' ++ pi_inputs pi ++ post' -> pi_slots pi s' pre' post'.
Proof. intros [_ H2 H3] E Hs. by split; rewrite ?E. Qed.

Lemma cache_slots_rebase c s s' pre mid post opre omid opost pre' post' opre' opost' :
  cache_slots c s pre mid post opre omid opost -> length pre' = length pre -> length opre' = length opre ->
  inputs_ s' = pre' ++ mid ++ post' -> outputs_ s' = opre' ++ omid ++ opost' ->
  cache_slots c s' pre' mid post' opre' omid opost'.
Proof. intros [H1 H2 _ _ H5 H6] E1 E2 Hi Ho. split; rewrite ?E1, ?E2; done. Qed.

Section rest.
Context {K : CacheImpl} (m : model) (p : GeneratorParams) (shape_at : nat -> Cache -> Prop) {HK : CacheLaw K m p shape_at}.
Context (Hdev : device_type_ m = CPU) (Hp : params_ok p) (lty : ONNXTensorElementDataType) (name : string).
Let v := Z.to_nat (gp_vocab_size p).
Let si := session_info_ m.

(** After [k] updates, in a state whose first input is [head], called [name], and
    whose last ones are [post]; logits for [n] tokens a row in a tensor for [nr]. *)
Record rest_ok (n nr k : nat) (head : option ptr) (mid post : list (option ptr))
    (s : State) (g : Logits) (c : Cache) (pi : PositionInputs) (h : heap) : Prop := {
  rk_pi : pi_ok p k pi h;
  rk_pi_slots : pi_slots pi s [head] (mid ++ post);
  rk_logits : logits_ok p v n nr g h;
  rk_logits_index : lg_index g = Some O;
  rk_logits_type : lg_type g = lty;
  rk_has_mask : has_mask_input_ pi = HasInput si (attention_mask (dec_in m));
  rk_has_posid : has_posid_input_ pi = HasInput si (position_ids (dec_in m));
  rk_names : ∃ names, input_names_ s = name :: pi_names m pi ++ names;
  rk_cache : cache_ok c h;
  rk_shape : shape_at (p_seq p + k)%nat c;
  rk_cache_slots : cache_slots c s (head :: pi_inputs pi) mid post [Some (output_raw_ g)] (presents_ c) [];
  rk_mid : owned_ptrs (cache_ptrs c) mid;
  rk_input_names : length (input_names_ s) = length (inputs_ s);
  rk_output_names : length (output_names_ s) = length (outputs_ s) }.

(* the owners, between those of the first input and others *)
Definition rest_owners (X : list ptr) (tl : list (list ptr)) (g : Logits) (c : Cache) (pi : PositionInputs) : list (list ptr) :=
  X :: lg_ptrs g :: cache_ptrs c :: pi_ptrs pi :: tl.

Lemma rest_frame X tl n nr k head mid post s g c pi h h' : rest_ok n nr k head mid post s g c pi h ->
  live h' (concat (rest_owners X tl g c pi)) -> kept (concat [lg_ptrs g; cache_ptrs c; pi_ptrs pi]) h h' ->
  rest_ok n nr k head mid post s g c pi h'.
Proof.
  intros [] L Hk. assert (∀ i l, [lg_ptrs g; cache_ptrs c; pi_ptrs pi] !! i = Some l -> kept l h h') as H.
  { intros i l Hi r Hr. apply Hk. by apply (part_in _ _ _ Hi). }
  split; try done.
  - eapply pi_ok_frame; [done|by apply (H 2%nat)|by apply (live_part _ _ 3 _ L)].
  - eapply logits_ok_frame; [done|by apply kept_kinds, (H 0%nat)|by apply (live_part _ _ 1 _ L)].
  - eapply cache_ok_frame; [done|by apply kept_kinds, (H 1%nat)|by apply (live_part _ _ 2 _ L)].
Qed.

(* another first input, or other last ones *)
Lemma rest_state n nr k head head' mid post post' s s' g c pi h : rest_ok n nr k head mid post s g c pi h ->
  inputs_ s' = head' :: pi_inputs pi ++ mid ++ post' -> outputs_ s' = outputs_ s ->
  (∃ names, input_names_ s' = input_names_ s ++ names ∧ length names + length post = length post')%nat ->
  output_names_ s' = output_names_ s -> rest_ok n nr k head' mid post' s' g c pi h.
Proof.
  intros [] Ei Eo (names & En & Ln) Eon. pose proof (cs_inputs _ _ _ _ _ _ _ _ rk_cache_slots0) as Ei0.
  pose proof (cs_outputs _ _ _ _ _ _ _ _ rk_cache_slots0) as Eo0. split; try done.
  - by eapply pi_slots_rebase.
  - destruct rk_names0 as [l El]. exists (l ++ names). by rewrite En, El, <- app_comm_cons, <- app_assoc.
  - by eapply cache_slots_rebase; [done| | | |rewrite Eo].
  - rewrite En, length_app, rk_input_names0, Ei0, Ei. simpl. rewrite !length_app. lia.
  - by rewrite Eo, Eon.
Qed.

Lemma rest_inputs n nr k head mid post s g c pi h : rest_ok n nr k head mid post s g c pi h ->
  inputs_ s = head :: pi_inputs pi ++ mid ++ post.
Proof. intros []. apply rk_pi_slots0. Qed.

Lemma rest_pi_update X tl n nr k head mid post s g c pi h : rest_ok n nr k head mid post s g c pi h ->
  live h (concat (rest_owners X tl g c pi)) -> mask_int p (p_seq p + S k) ->
  ∃ pi1 h1, PositionInputs_Update m (Z.of_nat (p_seq p + S k)) pi s h =
      Ok (pi1, with_inputs (head :: pi_inputs pi1 ++ mid ++ post) s, h1) ∧
    replaces h h1 (concat (rest_owners X tl g c pi)) (concat (rest_owners X tl g c pi1)) ∧
    pi_ok p (S k) pi1 h1 ∧ pi_slots pi1 (with_inputs (head :: pi_inputs pi1 ++ mid ++ post) s) [head] (mid ++ post) ∧
    has_mask_input_ pi1 = has_mask_input_ pi ∧ has_posid_input_ pi1 = has_posid_input_ pi ∧
    ∀ i a r, i ≠ 3%nat -> rest_owners X tl g c pi !! i = Some a -> r ∈ a -> tensors h1 !! r = tensors h !! r.
Proof.
  intros [] L Hmax. destruct (PositionInputs_Update_ok m p Hp k pi s h _ _ Hdev Hmax rk_pi0 rk_pi_slots0)
    as (pi1 & h1 & E & R & Hpi & Hs & F1 & F2).
  destruct (replaces_part _ _ _ 3 _ _ L R eq_refl) as [Q Kp]. eexists pi1, h1. repeat (split; [done|]). exact Kp.
Qed.

(** The updates of a later run. *)
Lemma update_rest_ok X tl beams nr k head mid post s g c pi h : rest_ok 1 nr k head mid post s g c pi h ->
  live h (concat (rest_owners X tl g c pi)) -> beams_ok (beam_rows p) beams -> num_beams (gp_search p) = 1 ∨ beams ≠ [] ->
  mask_int p (p_seq p + S k) ->
  ∃ pi1 s1 h1 c2 s2 h2 g3 s3 h3 mid',
    PositionInputs_Update m (Z.of_nat (p_seq p + S k)) pi s h = Ok (pi1, s1, h1) ∧
    cache_Update p beams (Z.of_nat (p_seq p + S k)) c s1 h1 = Ok (c2, s2, h2) ∧
    Logits_Update g s2 h2 = Ok (g3, s3, h3) ∧
    rest_ok 1 1 (S k) head mid' post s3 g3 c2 pi1 h3 ∧ first_run_ s3 = first_run_ s ∧
    replaces h h3 (concat (rest_owners X tl g c pi)) (concat (rest_owners X tl g3 c2 pi1)) ∧
    (∀ r, r ∈ X ++ concat tl -> tensors h3 !! r = tensors h !! r).
Proof.
  intros Hr L0 Hbeams Hnb Hmax. destruct (rest_pi_update X tl _ _ _ _ _ _ _ _ _ _ _ Hr L0 Hmax) as (pi1 & h1 & E1 & Q1 & Hpi1 & Hs1 & F1 & F2 & K1).
  pose proof (rp_live _ _ _ _ Q1) as L1. pose proof (length_pi_inputs _ _ F1 F2) as Lpi. destruct Hr.
  assert (cache_ok c h1) as Hc1.
  { eapply cache_ok_frame; [done|apply kept_kinds; intros r; by apply (K1 2%nat)|by apply (live_part _ _ 2 _ L1)]. }
  assert (logits_ok p v 1 nr g h1) as Hg1.
  { eapply logits_ok_frame; [done|apply kept_kinds; intros r; by apply (K1 1%nat)|by apply (live_part _ _ 1 _ L1)]. }
  set (s1 := with_inputs _ s) in *.
  assert (cache_slots c s1 (head :: pi_inputs pi1) mid post [Some (output_raw_ g)] (presents_ c) []) as Hcs1.
  { eapply cache_slots_rebase; [done|simpl; by rewrite Lpi|done|done|apply rk_cache_slots0]. }
  destruct (cache_Update_law (p_seq p + k)%nat beams c s1 h1 _ _ _ _ _ Hc1 rk_shape0 Hbeams Hnb Hcs1 rk_mid0)
    as (c2 & h2 & mid2 & E2 & R2 & Hc2 & Hsh2 & Hmid2 & Lm2 & Ls2 & Ii2 & Oi2).
  replace (S (p_seq p + k)) with (p_seq p + S k)%nat in E2, Hsh2 by lia.
  destruct (replaces_part _ _ _ 2 _ _ L1 R2 eq_refl) as [Q2 K2]. cbn [list_insert insert rest_owners] in Q2.
  pose proof (rp_live _ _ _ _ Q2) as L2. set (s2 := with_outputs _ _) in E2.
  assert (logits_ok p v 1 nr g h2) as Hg2.
  { eapply logits_ok_frame; [exact Hg1|apply kept_kinds; intros r; by apply (K2 1%nat)|by apply (live_part _ _ 1 _ L2)]. }
  destruct (Logits_Update_ok p v nr g s2 h2 [] (presents_ c2 ++ []) Hg2 rk_logits_index0 eq_refl) as (g3 & h3 & E3 & Hg3 & R3 & Ix3 & Ty3).
  destruct (replaces_part _ _ _ 1 _ _ L2 R3 eq_refl) as [Q3 K3]. cbn [list_insert insert] in Q3. pose proof (rp_live _ _ _ _ Q3) as L3.
  eexists pi1, s1, h1, c2, s2, h2, g3, _, h3, mid2. split; [done|]. split; [done|]. split; [exact E3|]. split; [|split; [done|split]].
  - split; try done; try congruence.
    + eapply pi_ok_frame; [exact Hpi1|intros r Hr; rewrite (K3 3%nat (pi_ptrs pi1)), (K2 3%nat (pi_ptrs pi1)) by done; done|
        by apply (live_part _ _ 3 _ L3)].
    + by eapply pi_slots_rebase; [exact Hs1|..].
    + unfold pi_names. rewrite F1, F2. exact rk_names0.
    + eapply cache_ok_frame; [exact Hc2|apply kept_kinds; intros r; by apply (K3 2%nat)|by apply (live_part _ _ 2 _ L3)].
    + destruct Hcs1 as [J1 J2 _ _ _ _]. split; [by rewrite Ii2|by rewrite Oi2, J2|done|done|done|apply (ck_presents _ _ Hc2)].
    + simpl. rewrite rk_input_names0, (cs_inputs _ _ _ _ _ _ _ _ rk_cache_slots0). simpl. rewrite !length_app, Lpi, (cs_mid _ _ _ _ _ _ _ _ Hcs1). congruence.
    + simpl. rewrite rk_output_names0, (cs_outputs _ _ _ _ _ _ _ _ rk_cache_slots0). simpl. rewrite !length_app, (ck_presents _ _ Hc1), (ck_presents _ _ Hc2). congruence.
  - eapply replaces_trans; [exact Q1|]. by eapply replaces_trans.
  - intros r [Hx|(l & Hl & Hin)%list_elem_of_In%in_concat]%elem_of_app.
    + by rewrite (K3 0%nat X), (K2 0%nat X), (K1 0%nat X).
    + apply list_elem_of_In, list_elem_of_lookup in Hl as [i Hi]. apply list_elem_of_In in Hin.
      by rewrite (K3 (4 + i)%nat l), (K2 (4 + i)%nat l), (K1 (4 + i)%nat l).
Qed.

(** The lists of a state whose first input is owned: what a run may write. *)
Lemma rest_io X tl n nr k q mid post s g c pi h : rest_ok n nr k (Some q) mid post s g c pi h ->
  live h (concat (rest_owners X tl g c pi)) -> q ∈ X ++ concat tl -> owned_ptrs (X ++ concat tl) post ->
  io_ok (concat (rest_owners X tl g c pi)) s ∧ NoDup (outputs_ s) ∧
  (∀ r, r ∈ X ++ concat tl ++ pi_ptrs pi -> Some r ∉ outputs_ s).
Proof.
  intros [] L Hq Hpost. pose proof (fun i a => part_in (rest_owners X tl g c pi) i a) as Hin.
  assert (outputs_ s = Some (output_raw_ g) :: presents_ c) as Eo by (by rewrite (cs_outputs _ _ _ _ _ _ _ _ rk_cache_slots0), app_nil_r).
  assert (∀ r, r ∈ X ++ concat tl -> r ∈ concat (rest_owners X tl g c pi)) as Hrest.
  { intros r [Hr|Hr]%elem_of_app; [by apply (Hin 0%nat X)|]. unfold rest_owners. cbn [concat]. rewrite !elem_of_app. by do 4 right. }
  destruct (own_distinct h (concat (rest_owners X tl g c pi)) (outputs_ s) (X ++ concat tl ++ pi_ptrs pi) L) as (Hnd & Hown & Hno).
  { rewrite Eo. constructor; [by eexists|]. by eapply owned_some, cache_presents_owned. }
  { rewrite Eo. unfold rest_owners, lg_ptrs, cache_ptrs. cbn [concat]. unfold own at 1. cbn [omap list_omap id].
    change (omap id (presents_ c)) with (own (presents_ c)). solve_submseteq. }
  split; [|done]. split; [|done|done|done].
  rewrite (cs_inputs _ _ _ _ _ _ _ _ rk_cache_slots0). cbn [app]. apply Forall_cons. split; [exists q; eauto|].
  rewrite !Forall_app. split; [|split].
  - eapply owned_mono; [apply (Hin 3%nat _ eq_refl)|by eapply pi_inputs_owned].
  - eapply owned_mono; [apply (Hin 2%nat _ eq_refl)|done].
  - by eapply owned_mono.
Qed.

(** *** Adding the parts to an empty state *)
Lemma add_rest_ok head s g c pi h : inputs_ s = [head] -> input_names_ s = [name] -> outputs_ s = [] -> output_names_ s = [] ->
  pi_ok p 0 pi h -> logits_ok p v (p_seq p) (p_seq p) g h -> lg_type g = lty -> cache_ok c h -> shape_at (p_seq p) c ->
  has_mask_input_ pi = HasInput si (attention_mask (dec_in m)) -> has_posid_input_ pi = HasInput si (position_ids (dec_in m)) ->
  ∃ pi1 s1 g2 s2 c3 s3 mid, PositionInputs_Add m pi s = (pi1, s1) ∧ Logits_Add m g s1 = (g2, s2) ∧ cache_Add c s2 = Ok (c3, s3) ∧
    rest_ok (p_seq p) (p_seq p) 0 head mid [] s3 g2 c3 pi1 h ∧ first_run_ s3 = first_run_ s ∧
    pi_ptrs pi1 = pi_ptrs pi ∧ lg_ptrs g2 = lg_ptrs g ∧ cache_ptrs c3 = cache_ptrs c.
Proof.
  intros Ei En Eo Eon Hpi Hg Ht Hc Hsh F1 F2.
  destruct (PositionInputs_Add_ok m p pi s) as (pi1 & -> & A1 & A2 & A3 & A4 & G1 & G2). set (s1 := mkState _ _ _ _ _ _).
  destruct (Logits_Add_ok m p v _ _ g s1 h Hg) as (g2 & Eg & Hg2 & Pg & Ig & Wg).
  assert (lg_type g2 = lg_type g) as Ht2 by (unfold Logits_Add in Eg; by injection Eg as <-).
  set (s2 := push_output (logits (dec_out m)) (Some (output_raw_ g2)) s1) in *.
  destruct (cache_Add_law (p_seq p) c s2 h Hc Hsh) as (N1 & N2 & E3).
  eexists pi1, s1, g2, s2, _, _, (added_inputs c). split; [done|]. split; [exact Eg|]. split; [exact E3|].
  split; [|done].
  assert (length (added_inputs c) = slots c) as La.
  { unfold added_inputs. destruct (share_buffer c); [apply (ck_presents _ _ Hc)|apply length_replicate]. }
  set (s3 := push_caches _ _ _).
  assert (inputs_ s3 = [head] ++ pi_inputs pi1 ++ added_inputs c ++ []) as Ein.
  { unfold s3, push_caches, s2, s1, push_output. simpl. by rewrite Ei, app_nil_r, <- !app_assoc. }
  assert (outputs_ s3 = [Some (output_raw_ g2)] ++ presents_ c ++ []) as Eout.
  { unfold s3, push_caches, s2, s1, push_output. simpl. by rewrite Eo, app_nil_r. }
  split; try done; try congruence.
  - by apply A1.
  - rewrite app_nil_r in Ein |- *. rewrite Ei in A4. by apply (A4 s3).
  - rewrite Ig. unfold s1. simpl. by rewrite Eo.
  - eexists. unfold s3, push_caches, s2, s1, push_output, pi_names. simpl. rewrite En, G1, G2. simpl. rewrite <- !app_assoc. reflexivity.
  - by apply cache_ok_indices.
  - rewrite Nat.add_0_r. by apply (cache_shape_indices (m := m) (p := p)).
  - split; try done; [|by unfold s2, s1, push_output; simpl; rewrite Eo|apply (ck_presents _ _ Hc)].
    unfold s2, s1, push_output. simpl. rewrite Ei. simpl. unfold pi_inputs. rewrite G1, G2. done.
  - exact (added_inputs_owned c h Hc).
  - rewrite Ein. unfold s3, push_caches, s2, s1, push_output. simpl. rewrite En, !length_app. unfold pi_inputs. rewrite G1, G2, N1, La.
    destruct (has_posid_input_ pi), (has_mask_input_ pi); simpl; lia.
  - rewrite Eout. unfold s3, push_caches, s2, s1, push_output. simpl. rewrite Eon. simpl. rewrite app_nil_r, N2, (ck_presents _ _ Hc). done.
Qed.

(** *** What the session is given *)
Lemma rest_sees n nr k q t mid post s g c pi h ins : rest_ok n nr k (Some q) mid post s g c pi h -> tensors h !! q = Some t ->
  read_io h (input_names_ s) (inputs_ s) = Ok ins ->
  ins !! O = Some (name, t) ∧
  (HasInput si (position_ids (dec_in m)) = true -> ∃ i t, ins !! i = Some (position_ids (dec_in m), t) ∧
    data t = match k with O => prompt_positions p | S k => position_at p k end) ∧
  (HasInput si (attention_mask (dec_in m)) = true -> ∃ i t, ins !! i = Some (attention_mask (dec_in m), t) ∧
    shape t = [beam_rows p; p_seq p + k]%nat ∧ data t = mask_at p k).
Proof.
  intros [] Ht Er. destruct rk_names0 as [rest En].
  pose proof (cs_inputs _ _ _ _ _ _ _ _ rk_cache_slots0) as Ei. rewrite En, Ei in Er. clear En Ei.
  pose proof (read_io_lookup h) as Hlook. destruct rk_pi0 as [_ Hmask Hpos _].
  unfold pi_names, pi_inputs in Er. split; [|split].
  - by eapply Hlook.
  - rewrite <- rk_has_posid0. intros Hhas. rewrite Hhas in Er, Hpos. destruct Hpos as [_ Hpos].
    assert (∃ q t, position_ids_ pi = Some q ∧ tensors h !! q = Some t ∧
      data t = match k with O => prompt_positions p | S k => position_at p k end) as (q' & t' & Eq & Et & Ed).
    { destruct k as [|k]; [destruct Hpos as (_ & (q' & A & B) & _)|destruct Hpos as (_ & _ & q' & A & B)]; by eexists q', _. }
    exists 1%nat, t'. split; [|done]. eapply Hlook; [exact Er|done| |exact Et]. simpl. by rewrite Eq.
  - rewrite <- rk_has_mask0. intros Hhas. rewrite Hhas in Er, Hmask. destruct Hmask as [_ (q' & Eq & Et)].
    rewrite Eq in Er. eexists (if has_posid_input_ pi then 2 else 1)%nat, _.
    split; [eapply Hlook; [exact Er| | |exact Et]; by destruct (has_posid_input_ _)|done].
Qed.

(** *** A run *)
Section run.
Context (oversize : Z -> Z -> Z) (f : session) {Hf : SessionLaw f}.
Context (Hg : use_cuda_graph p = false) (Heos : eos_ok m v) (Htok : prompt_tokens p v).

(** A run of [s] leaves the same parts with other logits, and what it returns
    are the scores of the session's first result. *)
Lemma rest_run X tl graph b o n k q mid post s g c pi h : n = 1%nat ∨ n = p_seq p -> rest_ok n n k (Some q) mid post s g c pi h ->
  live h (concat (rest_owners X tl g c pi)) -> q ∈ X ++ concat tl -> owned_ptrs (X ++ concat tl) post ->
  ∃ bits g' h' ins outs raw, run_logits oversize f m p graph b o s g h =
      Ok (map f32_of_bits bits, o, set_run false (current_batch_size_ s) s, g', h') ∧
    rest_ok 1 n k (Some q) mid post (set_run false (current_batch_size_ s) s) g' c pi h' ∧
    replaces h h' (concat (rest_owners X tl g c pi)) (concat (rest_owners X tl g' c pi)) ∧
    (∀ r, r ∈ X ++ concat tl -> tensors h' !! r = tensors h !! r) ∧
    read_io h (input_names_ s) (inputs_ s) = Ok ins ∧ read_io h (output_names_ s) (outputs_ s) = Ok outs ∧
    f o ins outs !! O = Some raw ∧ length bits = (beam_rows p * v)%nat ∧
    bits = eos_rows m (beam_rows p) v (raw_scores oversize p lty v n raw).
Proof.
  intros Hn Hr L Hq Hpost. destruct (rest_io X tl _ _ _ _ _ _ _ _ _ _ _ Hr L Hq Hpost) as (Hio & Hnd & Hno). destruct Hr.
  assert (outputs_ s !! 0%nat = Some (Some (output_raw_ g))) as H0 by (by rewrite (cs_outputs _ _ _ _ _ _ _ _ rk_cache_slots0)).
  destruct (run_logits_ok oversize f m p v Hdev Hp Heos Htok Hg graph b o n s g h (rest_owners X tl g c pi) 1 Hn L eq_refl Hio rk_logits0 Hnd H0)
    as (scores & g2 & h2 & -> & [(ins & outs & raw & Ei & Eo & Er & Ls & -> & _) (Hlg2 & W2 & Ix2 & Ty2) Q2 Hkinds Hkept]).
  pose proof (rp_live _ _ _ _ Q2) as L2. cbn [list_insert insert rest_owners] in L2, Q2. rewrite length_map in Ls.
  eexists _, g2, h2, ins, outs, raw. split; [reflexivity|]. split; [|split; [exact Q2|split; [|by rewrite rk_logits_type0 in Ls |- *]]].
  - split; try done; try congruence.
    + eapply pi_ok_frame; [done| |by apply (live_part _ _ 3 _ L2)]. intros r Hr. apply (Hkept 3%nat (pi_ptrs pi)); [done..|].
      apply Hno. rewrite !elem_of_app. by do 2 right.
    + by destruct rk_pi_slots0.
    + eapply cache_ok_frame; [done|by apply (Hkinds 2%nat)|by apply (live_part _ _ 2 _ L2)].
    + rewrite W2. by destruct rk_cache_slots0.
  - intros r Hr. assert (Some r ∉ outputs_ s) as Hn2. { apply Hno. rewrite !elem_of_app. apply elem_of_app in Hr as [|]; auto. }
    apply elem_of_app in Hr as [Hx|(l & Hl & Hin)%list_elem_of_In%in_concat]; [by apply (Hkept 0%nat X)|].
    apply list_elem_of_In, list_elem_of_lookup in Hl as [i Hi]. apply list_elem_of_In in Hin. by apply (Hkept (4 + i)%nat l).
Qed.
End run.
End rest.

Section decoder_ok.
Context {K : CacheImpl} (oversize : Z -> Z -> Z) (f : session) (m : model) (p : GeneratorParams).
Context (shape_at : nat -> Cache -> Prop) {HK : CacheLaw K m p shape_at} {Hf : SessionLaw f}.
Context (Hdev : device_type_ m = CPU) (Hp : params_ok p).
Context (ext : list ptr) (Hext : owned_ptrs ext (extra_ptrs p)).
Context (lty : ONNXTensorElementDataType).
Let v := Z.to_nat (gp_vocab_size p).
Let si := session_info_ m.

(* what the parts own, and the caller *)
Definition parts (d : Decoder_State) : list (list ptr) :=
  rest_owners [ii_value (input_ids_ d)] [ext] (logits_ d) (kv_cache_ d) (position_inputs_ d).

(** After [k] updates, with logits for [n] tokens a row in a tensor for [nr]. *)
Record decoder_ok (first : bool) (n nr k : nat) (mid : list (option ptr)) (d : Decoder_State) (h : heap) : Prop := {
  dk_live : live h (concat (parts d));
  dk_first : first_run_ (ds_state d) = first;
  dk_ids : ids_ok (input_ids_ d) (ds_state d) h [] (pi_inputs (position_inputs_ d) ++ mid ++ extra_ptrs p);
  dk_rows : fst (ii_shape (input_ids_ d)) = beam_rows p;
  dk_rest : rest_ok m p shape_at lty (input_ids (dec_in m)) n nr k (Some (ii_value (input_ids_ d))) mid (extra_ptrs p)
    (ds_state d) (logits_ d) (kv_cache_ d) (position_inputs_ d) h }.

(** *** UpdateInputsOutputs *)
Lemma UpdateInputsOutputs_ok toks beams nr k mid d h :
  decoder_ok false 1 nr k mid d h -> step_ok p (toks, beams) -> mask_int p (p_seq p + S k) ->
  ∃ d' h' mid', UpdateInputsOutputs m p toks beams (Z.of_nat (p_seq p + S k)) d h = Ok (d', h') ∧
    decoder_ok false 1 1 (S k) mid' d' h' ∧ replaces h h' (concat (parts d)) (concat (parts d')) ∧
    data <$> tensors h' !! ii_value (input_ids_ d') = Some toks.
Proof.
  intros [Hl Hfirst Hids Hrows Hrest] (Htoks & Hbeams & Hnb) Hmax. simpl in Htoks, Hbeams, Hnb.
  destruct d as [s ids g c pi e]. unfold parts in *. cbn [ds_state input_ids_ logits_ kv_cache_ position_inputs_ extra_inputs_] in *.
  unfold UpdateInputsOutputs. cbn [ds_state input_ids_ logits_ kv_cache_ position_inputs_ extra_inputs_].
  destruct (InputIDs_Update_ok m toks ids s h _ _ Hdev (live_part _ _ 0 _ Hl eq_refl) Hids ltac:(congruence))
    as (ids1 & h1 & -> & R1 & Sh1 & Ty1 & Ix1 & _ & T1).
  rewrite bind_Ok. cbv beta iota.
  destruct (replaces_part _ _ _ 0 _ _ Hl R1 eq_refl) as [Q1 K1]. cbn [list_insert insert rest_owners] in Q1.
  pose proof (rp_live _ _ _ _ Q1) as L1. set (s1 := with_inputs _ s).
  assert (rest_ok m p shape_at lty (input_ids (dec_in m)) 1 nr k (Some (ii_value ids1)) mid (extra_ptrs p) s1 g c pi h1) as Hrest1.
  { eapply rest_frame; [|exact L1|].
    - eapply rest_state; [exact Hrest|done|done|by exists []; rewrite app_nil_r|done].
    - intros r (l & Hlx & Hin)%list_elem_of_In%in_concat. apply list_elem_of_In, list_elem_of_lookup in Hlx as [i Hi].
      apply list_elem_of_In in Hin. apply (K1 (S i) l); [done| |done]. destruct i as [|[|[|i]]]; done. }
  destruct (update_rest_ok m p shape_at Hdev Hp lty _ [ii_value ids1] [ext] beams _ _ _ _ _ _ _ _ _ _ Hrest1 L1 Hbeams Hnb Hmax)
    as (pi2 & s2 & h2 & c3 & s3 & h3 & g4 & s4 & h4 & mid' & -> & E3 & E4 & Hrest4 & Hf4 & Q4 & K4).
  rewrite bind_Ok. cbv beta iota. rewrite E3, bind_Ok. cbv beta iota. rewrite E4, bind_Ok. cbv beta iota.
  exists (mkDecoderState s4 ids1 g4 c3 pi2 e), h4, mid'.
  assert (tensors h4 !! ii_value ids1 = Some (mkOrt (ii_type ids) [fst (ii_shape ids); 1%nat] toks)) as T4.
  { rewrite K4 by by left. exact T1. }
  split; [done|]. cbn [ds_state input_ids_ logits_ kv_cache_ position_inputs_]. split; [|split; [|by rewrite T4]].
  - split; cbn [ds_state input_ids_ logits_ kv_cache_ position_inputs_]; [apply Q4|by rewrite Hf4| |by rewrite Sh1|exact Hrest4].
    split; [by rewrite Ix1; apply Hids|by eapply rest_inputs|by rewrite Ty1; apply Hids|]. rewrite Sh1, Ty1. by exists toks.
  - by eapply replaces_trans.
Qed.

(** *** The run of the session *)
Lemma run_and_get_ok graph b o first n k mid d h : use_cuda_graph p = false -> eos_ok m v -> prompt_tokens p v ->
  n = 1%nat ∨ n = p_seq p -> decoder_ok first n n k mid d h ->
  ∃ d' h' ins outs raw bits, run_and_get oversize f m p graph b o d h = Ok (map f32_of_bits bits, o, d', h') ∧
    decoder_ok false 1 n k mid d' h' ∧ replaces h h' (concat (parts d)) (concat (parts d')) ∧
    read_io h (input_names_ (ds_state d)) (inputs_ (ds_state d)) = Ok ins ∧
    read_io h (output_names_ (ds_state d)) (outputs_ (ds_state d)) = Ok outs ∧
    f o ins outs !! O = Some raw ∧ length bits = (beam_rows p * v)%nat ∧
    bits = eos_rows m (beam_rows p) v (raw_scores oversize p lty v n raw).
Proof.
  intros Hg Heos Htok Hn [Hl Hfirst Hids Hrows Hrest]. destruct d as [s ids g c pi e]. unfold parts, run_and_get in *.
  cbn [ds_state input_ids_ logits_ kv_cache_ position_inputs_ extra_inputs_] in *.
  destruct (rest_run m p shape_at Hdev Hp lty _ oversize f Hg Heos Htok [ii_value ids] [ext] graph b o n k _ mid _ s g c pi h Hn Hrest Hl)
    as (bits & g' & h' & ins & outs & raw & -> & Hrest' & Q & Hkeep & H); [by left|by eapply owned_mono; [|exact Hext]; set_solver|].
  rewrite bind_Ok. cbv beta iota. eexists _, h', ins, outs, raw, bits. split; [reflexivity|].
  cbn [ds_state input_ids_ logits_ kv_cache_ position_inputs_ extra_inputs_]. split; [|split; [exact Q|done]].
  split; [apply Q|done| |done|exact Hrest'].
  destruct Hids as [I1 I2 I3 (d0 & I4)]. split; [done..|]. exists d0. cbn [input_ids_]. rewrite Hkeep by by left. exact I4.
Qed.

(** *** The constructor *)
(* the session knows the inputs and the output of the model *)
Record model_io_ok : Prop := {
  mi_ids : ∃ ty, GetInputDataType si (input_ids (dec_in m)) = Ok ty ∧ int_type ty;
  mi_position : ∃ ty, position_type m = Ok ty;
  mi_logits : GetOutputDataType si (logits (dec_out m)) = Ok lty ∧ score_ok lty }.

Lemma Decoder_State_new_ok lengths h : model_io_ok -> live h ext -> length lengths = beam_rows p ->
  ∃ d h' mid, Decoder_State_new m p lengths h = Ok (d, map Some (position_at p 0), h') ∧
    decoder_ok true (p_seq p) (p_seq p) 0 mid d h' ∧ replaces h h' ext (concat (parts d)) ∧
    data <$> tensors h' !! ii_value (input_ids_ d) = Some (expanded_rows (prompt p) (p_seq p) (p_batch p) (p_beams p)).
Proof.
  intros [Hids Hpos [Hlt Hls]] L0 Hlen. unfold Decoder_State_new.
  destruct (InputIDs_new_ok m p h Hdev Hp ltac:(apply L0) Hids) as (ids & h1 & -> & R1 & Sh1 & Ty1 & Nm1 & T1). rewrite bind_Ok. cbv beta iota.
  assert (live h (concat [[]; []; []; []; ext])) as L0' by (simpl; by rewrite app_nil_r).
  destruct (replaces_part _ _ _ 0 _ _ L0' R1 eq_refl) as [Q1 K1]. cbn [list_insert insert] in Q1. pose proof (rp_live _ _ _ _ Q1) as L1.
  destruct (Logits_new_ok m p h1 lty ltac:(apply L1) Hlt Hls) as (g & h2 & E2 & R2 & Hlg2).
  pose proof (Logits_new_type _ _ _ _ _ _ E2 Hlt) as Hgt. rewrite E2, bind_Ok. clear E2. cbv beta iota.
  destruct (replaces_part _ _ _ 1 _ _ L1 R2 eq_refl) as [Q2 K2]. cbn [list_insert insert] in Q2. pose proof (rp_live _ _ _ _ Q2) as L2.
  destruct (cache_new_law (m := m) (p := p) h2 ltac:(apply L2)) as (c & h3 & -> & R3 & Hc3 & Hsh3). rewrite bind_Ok. cbv beta iota.
  destruct (replaces_part _ _ _ 2 _ _ L2 R3 eq_refl) as [Q3 K3]. cbn [list_insert insert] in Q3. pose proof (rp_live _ _ _ _ Q3) as L3.
  destruct (PositionInputs_new_ok m p Hp lengths h3 Hdev ltac:(apply L3) Hpos Hlen) as (pi & l' & h4 & -> & R4 & Hpi4 & -> & F1 & F2).
  rewrite bind_Ok. cbv beta iota zeta.
  destruct (replaces_part _ _ _ 3 _ _ L3 R4 eq_refl) as [Q4 K4]. cbn [list_insert insert] in Q4. pose proof (rp_live _ _ _ _ Q4) as L4.
  assert (tensors h4 !! ii_value ids = tensors h1 !! ii_value ids) as T4.
  { by rewrite (K4 0%nat [ii_value ids]), (K3 0%nat [ii_value ids]), (K2 0%nat [ii_value ids]) by (done || by left). }
  assert (logits_ok p v (p_seq p) (p_seq p) g h4) as Hlg4.
  { eapply logits_ok_frame; [exact Hlg2| |by apply (live_part _ _ 1 _ L4)]. apply kept_kinds. intros r Hr.
    by rewrite (K4 1%nat (lg_ptrs g)), (K3 1%nat (lg_ptrs g)). }
  assert (cache_ok c h4) as Hc4.
  { eapply cache_ok_frame; [exact Hc3|apply kept_kinds; intros r; by apply (K4 2%nat)|by apply (live_part _ _ 2 _ L4)]. }
  unfold InputIDs_Add. cbn [inputs_ State_new length].
  set (ids' := mkInputIDs _ _ _ _ _ _). set (s1 := push_input _ _ _).
  destruct (add_rest_ok m p shape_at lty (input_ids (dec_in m)) (Some (ii_value ids)) s1 g c pi h4) as
    (pi' & s2 & g' & s3 & c' & s4 & mid & -> & -> & -> & Hr & Hf4 & Pp & Pg & Pc); try done; [by simpl; rewrite Nm1|].
  rewrite bind_Ok. cbv beta iota. rewrite ExtraInputs_Add_ok, bind_Ok. set (s5 := mkState _ _ _ _ _ _).
  pose proof (rest_inputs _ _ _ _ _ _ _ _ _ _ _ _ _ _ _ _ Hr) as Ein. rewrite app_nil_r in Ein.
  assert (rest_ok m p shape_at lty (input_ids (dec_in m)) (p_seq p) (p_seq p) 0 (Some (ii_value ids)) mid (extra_ptrs p) s5 g' c' pi' h4) as Hr5.
  { eapply rest_state; [exact Hr|unfold s5; simpl; by rewrite Ein; simpl; rewrite <- app_assoc|done| |done].
    eexists. split; [reflexivity|]. unfold extra_ptrs. rewrite !length_map. simpl. lia. }
  exists (mkDecoderState s5 ids' g' c' pi' (ExtraInputs_new p)), h4, mid. unfold parts, rest_owners.
  cbn [ds_state input_ids_ logits_ kv_cache_ position_inputs_]. rewrite Pp, Pg, Pc.
  split; [done|]. split; [|split; [|change (ii_value ids') with (ii_value ids); by rewrite T4, T1]].
  - split; unfold parts, rest_owners; cbn [ds_state input_ids_ logits_ kv_cache_ position_inputs_]; [by rewrite Pp, Pg, Pc|by simpl; rewrite Hf4| | |exact Hr5].
    + split; [done|by eapply rest_inputs|done|]. change (ii_value ids') with (ii_value ids). rewrite T4, T1. unfold ids'. cbn [ii_type ii_shape]. rewrite Sh1. eauto.
    + unfold ids'. cbn [ii_shape]. by rewrite Sh1.
  - pose proof (replaces_trans _ _ _ _ _ _ (replaces_trans _ _ _ _ _ _ Q1 Q2) (replaces_trans _ _ _ _ _ _ Q3 Q4)) as R.
    change (concat [[]; []; []; []; ext]) with (ext ++ []) in R. by rewrite app_nil_r in R.
Qed.

(** *** A sequence of runs *)
(* what run [k] gives the session *)
Record sees (k : nat) (toks : list Z) (ins : list (string * OrtValue)) : Prop := {
  see_tokens : ∃ t, ins !! O = Some (input_ids (dec_in m), t) ∧ data t = toks;
  see_positions : HasInput si (position_ids (dec_in m)) = true -> ∃ i t, ins !! i = Some (position_ids (dec_in m), t) ∧
    data t = match k with O => prompt_positions p | S k => position_at p k end;
  see_mask : HasInput si (attention_mask (dec_in m)) = true -> ∃ i t, ins !! i = Some (attention_mask (dec_in m), t) ∧
    shape t = [beam_rows p; p_seq p + k]%nat ∧ data t = mask_at p k }.

Lemma decoder_sees first n nr k mid d h toks ins : decoder_ok first n nr k mid d h ->
  data <$> tensors h !! ii_value (input_ids_ d) = Some toks ->
  read_io h (input_names_ (ds_state d)) (inputs_ (ds_state d)) = Ok ins -> sees k toks ins.
Proof.
  intros [] Ht Er. destruct (tensors h !! ii_value (input_ids_ d)) as [t|] eqn:Et; [|done]. injection Ht as <-.
  destruct (rest_sees _ _ _ _ _ _ _ _ _ _ _ _ _ _ _ _ _ _ dk_rest0 Et Er) as (H1 & H2 & H3). split; [by exists t|done|done].
Qed.

(* before run [k] *)
Definition ready (k : nat) (d : Decoder_State) (h : heap) : Prop := ∃ mid,
  match k with
  | O => decoder_ok true (p_seq p) (p_seq p) 0 mid d h ∧
      data <$> tensors h !! ii_value (input_ids_ d) = Some (expanded_rows (prompt p) (p_seq p) (p_batch p) (p_beams p))
  | S k => ∃ nr, decoder_ok false 1 nr k mid d h
  end.

Definition run_tokens (k : nat) (toks : list Z) : list Z :=
  match k with O => expanded_rows (prompt p) (p_seq p) (p_batch p) (p_beams p) | S _ => toks end.

(* what run [k] returns: the scores of the session's logits for its inputs *)
Definition run_scores (k : nat) (o : run_options) (toks : list Z) (scores : list f32) : Prop := ∃ ins outs raw,
  sees k (run_tokens k toks) ins ∧ f o ins outs !! O = Some raw ∧ length scores = (beam_rows p * v)%nat ∧
  scores = map f32_of_bits (eos_rows m (beam_rows p) v
    (raw_scores oversize p lty v (match k with O => p_seq p | S _ => 1%nat end) raw)).

Context (Hg : use_cuda_graph p = false) (Heos : eos_ok m v) (Htok : prompt_tokens p v).

Lemma run_step k toks beams o d h : ready k d h -> k = O ∨ step_ok p (toks, beams) -> mask_int p (p_seq p + k) ->
  ∃ d1 h1, update_unless_first m p (Z.of_nat (p_seq p + k)) toks beams d h = Ok (d1, h1) ∧
  ∀ graph b, ∃ scores d' h', run_and_get oversize f m p graph b o d1 h1 = Ok (scores, o, d', h') ∧
    ready (S k) d' h' ∧ replaces h h' (concat (parts d)) (concat (parts d')) ∧ run_scores k o toks scores.
Proof.
  intros [mid Hr] Hstep Hmax.
  assert (∃ d1 h1 mid1 first n, update_unless_first m p (Z.of_nat (p_seq p + k)) toks beams d h = Ok (d1, h1) ∧
    decoder_ok first n n k mid1 d1 h1 ∧ n = match k with O => p_seq p | S _ => 1%nat end ∧
    data <$> tensors h1 !! ii_value (input_ids_ d1) = Some (run_tokens k toks) ∧
    replaces h h1 (concat (parts d)) (concat (parts d1))) as (d1 & h1 & mid1 & first & n & E1 & O1 & -> & T1 & R1).
  { unfold update_unless_first. destruct k as [|k].
    - destruct Hr as [Hok Ht]. rewrite (dk_first _ _ _ _ _ _ _ Hok). exists d, h, mid, true, (p_seq p).
      split; [done|]. split; [done|]. split; [done|]. split; [done|]. apply replaces_refl, Hok.
    - destruct Hr as [nr Hok]. destruct Hstep as [?|Hstep]; [done|]. rewrite (dk_first _ _ _ _ _ _ _ Hok).
      destruct (UpdateInputsOutputs_ok toks beams nr k mid d h Hok Hstep Hmax) as (d1 & h1 & mid1 & E & O1 & R & T).
      by exists d1, h1, mid1, false, 1%nat. }
  exists d1, h1. split; [exact E1|]. intros graph b.
  assert (match k with O => p_seq p | S _ => 1%nat end = 1%nat ∨ match k with O => p_seq p | S _ => 1%nat end = p_seq p) as Hn.
  { destruct k; [by right|by left]. }
  destruct (run_and_get_ok graph b o first _ k mid1 d1 h1 Hg Heos Htok Hn O1)
    as (d' & h' & ins & outs & raw & bits & -> & O2 & R2 & Ei & _ & Er & Lb & Eb).
  exists (map f32_of_bits bits), d', h'. split; [done|]. split; [exists mid1; by eexists|].
  split; [by eapply replaces_trans|]. exists ins, outs, raw. split; [by apply (decoder_sees _ _ _ _ _ _ _ _ _ O1 T1 Ei)|]. split; [done|].
  split; [by rewrite length_map|by rewrite Eb].
Qed.

End decoder_ok.

(** ** The two models *)
Section decoders.
Context (oversize : Z -> Z -> Z) (f : session) (m : model) (p : GeneratorParams) (lty : ONNXTensorElementDataType).
Context (ext : list ptr) (lengths : list (option Z)) (h : heap) (graph : option CapturedGraphInfo) (o : run_options).
Context (steps : list (list Z * list Z)).
Let v := Z.to_nat (gp_vocab_size p).

(** A generator of the CPU build on a model its session fits, with tensors
    [ext] of the caller: the hypotheses of the theorems about the runs. *)
Record decoder_setup : Prop := {
  se_session : SessionLaw f;
  se_device : device_type_ m = CPU;
  se_graph : use_cuda_graph p = false;
  se_params : params_ok p;
  se_io : model_io_ok m lty;
  se_eos : eos_ok m v;
  se_prompt : prompt_tokens p v;
  se_extra : owned_ptrs ext (extra_ptrs p);
  se_live : live h ext;
  se_lengths : length lengths = beam_rows p;
  se_steps : Forall (step_ok p) (tail steps);
  se_max : mask_int p (p_seq p + pred (length steps)) }.

Lemma decoder_runs_ok {K : CacheImpl} shape run : CacheLaw K m p shape -> decoder_setup ->
  (∀ len toks beams o d h d1 h1, update_unless_first m p len toks beams d h = Ok (d1, h1) ->
    ∃ graph b, run len toks beams o d h = run_and_get oversize f m p graph b o d1 h1) ->
  ∃ d0 h0 all d h', Decoder_State_new m p lengths h = Ok (d0, map Some (position_at p 0), h0) ∧
    Runs run (Z.of_nat (p_seq p)) steps o d0 h0 = Ok (all, o, d, h') ∧ length all = length steps ∧
    (∀ k toks beams, steps !! k = Some (toks, beams) ->
      ∃ scores, all !! k = Some scores ∧ run_scores oversize f m p lty k o toks scores) ∧
    replaces h h' ext (concat (parts ext d)).
Proof.
  intros HK [Hf Hdev Hg Hp Hio Heos Htok Hext Hl Hlen Hsteps Hmax] Hrun.
  destruct (Decoder_State_new_ok m p shape Hdev Hp ext lty lengths h Hio Hl Hlen) as (d0 & h0 & mid & E0 & Hok & R0 & T0).
  destruct (Runs_all run p o (ready m p shape ext lty) (fun d => concat (parts ext d)) (fun k => run_scores oversize f m p lty k o)) with (fits := mask_int p)
    (steps := steps) (d := d0) (h := h0) as (all & d & h' & E & La & H & R & _); [| |by exists mid|done|by apply mask_int_upto|].
  - intros k d h1 [mid' Hr]. destruct k; [destruct Hr as [[] _]; done|destruct Hr as [nr []]; done].
  - intros k toks beams d h1 Hr Hs Hk.
    destruct (run_step oversize f m p shape Hdev Hp ext Hext lty Hg Heos Htok k toks beams o d h1 Hr Hs Hk) as (d1 & h2 & E1 & H1).
    destruct (Hrun _ _ _ o _ _ _ _ E1) as (graph' & b & ->). destruct (H1 graph' b) as (scores & d' & h' & E & H).
    by exists scores, d', h'.
  - exists d0, h0, all, d, h'. do 4 (split; [done|]). by eapply replaces_trans.
Qed.

(** C3: whatever the padding, the beams and the number of steps, every run of a
    decoder-only model returns, as long as an [int] holds the size of the mask: it gives the session the tokens of the step, a
    mask and position ids that follow the prompts, and returns the scores of the
    session's logits for them; and over the whole life of the state no destroyed
    tensor is read, freed twice or left in the state's pointers. *)
Theorem DecoderOnly_Runs_spec :
  layers_ok m [past_key_names (dec_in m); past_value_names (dec_in m)] [present_key_names (dec_out m); present_value_names (dec_out m)] ->
  decoder_setup ->
  ∃ d0 h0 all d h', Decoder_State_new (K := KV_Cache_impl) m p lengths h = Ok (d0, map Some (position_at p 0), h0) ∧
    Runs (DecoderOnly_Run (K := KV_Cache_impl) oversize f m p graph) (Z.of_nat (p_seq p)) steps o d0 h0 = Ok (all, o, d, h') ∧
    length all = length steps ∧
    (∀ k toks beams, steps !! k = Some (toks, beams) ->
      ∃ scores, all !! k = Some scores ∧ run_scores oversize f m p lty k o toks scores) ∧
    replaces h h' ext (concat (parts ext d)).
Proof.
  intros Hl Hs. apply (decoder_runs_ok (K := KV_Cache_impl) _ _ (KV_Cache_law m p (se_params Hs) Hl) Hs).
  intros len toks beams o' d h' d1 h1 E. exists graph, (batch_size_of d1). unfold DecoderOnly_Run. by rewrite E, bind_Ok.
Qed.

(** The same for the GPT model with its combined cache. *)
Theorem Gpt_Runs_spec :
  layers_ok m [past_names (dec_in m)] [present_names (dec_out m)] -> decoder_setup ->
  ∃ d0 h0 all d h', Decoder_State_new (K := KV_Cache_Combined_impl) m p lengths h = Ok (d0, map Some (position_at p 0), h0) ∧
    Runs (Gpt_Run (K := KV_Cache_Combined_impl) oversize f m p) (Z.of_nat (p_seq p)) steps o d0 h0 = Ok (all, o, d, h') ∧
    length all = length steps ∧
    (∀ k toks beams, steps !! k = Some (toks, beams) ->
      ∃ scores, all !! k = Some scores ∧ run_scores oversize f m p lty k o toks scores) ∧
    replaces h h' ext (concat (parts ext d)).
Proof.
  intros Hl Hs. apply (decoder_runs_ok (K := KV_Cache_Combined_impl) _ _ (KV_Cache_Combined_law m p (se_params Hs) Hl) Hs).
  intros len toks beams o' d h' d1 h1 E. exists None, (batch_size_of d). unfold Gpt_Run. by rewrite E, bind_Ok.
Qed.
End decoders.

(** ** Concrete runs *)
Module Examples.
(* a session that fills its outputs with the first token it is given *)
Definition first_token (ins : list (string * OrtValue)) : Z :=
  match ins with (_, t) :: _ => nth 0 (data t) 0 | [] => 0 end.
Definition ex_session : session := fun _ ins outs => map (fun '(_, t) => replicate (element_count (shape t)) (first_token ins)) outs.

#[export] Instance ex_session_law : SessionLaw ex_session.
Proof.
  intros o ins outs. unfold ex_session. generalize (first_token ins). intros x.
  induction outs as [|[n t] outs IH]; simpl; constructor; [apply length_replicate|done].
Qed.

Definition ex_config : Config := set_model (set_decoder KVCache.Examples.ex_decoder Model_default) Config_default.
Definition ex_model : model := mkModelCtx ex_config
  (mkSessionInfo (list_to_map [("input_ids", T_INT64); ("attention_mask", T_INT64); ("position_ids", T_INT64);
     ("past_key_values.0.key", T_FLOAT); ("past_0", T_FLOAT)]%string) (list_to_map [("logits"%string, T_FLOAT)])) CPU.
(* two rows of three tokens, the first with a pad in front; a vocabulary of 4 *)
Definition ex_p : GeneratorParams :=
  mkParams (set_max_length 20 Search_default) 0 3 4 20 2 0 false 3 8 CPU [0; 5; 6; 7; 8; 9] [] false.
Definition ex_steps : list (list Z * list Z) := [([], []); ([7; 8], []); ([9; 6], [])].

Lemma ex_setup : decoder_setup ex_session ex_model ex_p T_FLOAT [] (replicate 2 None) Inputs.Examples.ex_heap0 ex_steps.
Proof.
  split; try done.
  - exact ex_session_law.
  - split; [exists T_INT64; split; [done|by right]|by exists T_INT64|by split; [|left]].
  - repeat constructor; vm_compute; done.
  - split; [|vm_compute; discriminate]. right. split; [|vm_compute; done]. intros [|[|i]] Hi; [done|done|]. vm_compute in Hi. lia.
  - constructor.
  - split; [exact Inputs.Examples.ex_heap0_ok|]. split; constructor.
  - repeat constructor; try (left; done); vm_compute; done.
Qed.

(* the runs after the first: a score per word of the vocabulary, all the first token *)
Lemma ex_scores k toks scores :
  run_scores Tensors.Examples.no_oversize ex_session ex_model ex_p T_FLOAT (S k) ∅ toks scores ->
  scores = replicate 8 (f32_of_bits (nth 0 toks 0)).
Proof.
  intros (ins & outs & raw & [(t & E0 & Et) _ _] & Er & L & Es).
  assert (first_token ins = nth 0 toks 0) as Ef.
  { destruct ins as [|[a u] ins]; [done|]. injection E0 as _ ->. simpl. by rewrite Et. }
  unfold ex_session in Er. rewrite Ef in Er. rewrite list_lookup_fmap in Er.
  destruct (outs !! 0%nat) as [[a u]|]; [|done]. injection Er as <-.
  change (scores = map f32_of_bits (replicate (element_count (shape u)) (nth 0 toks 0))) in Es.
  change (scores = f32_of_bits <$> replicate (element_count (shape u)) (nth 0 toks 0)) in Es. rewrite fmap_replicate in Es. rewrite Es, length_replicate in L. rewrite Es, L. done.
Qed.

Lemma DecoderOnly_Runs_spec_witness : ∃ d0 l h0 scores d h,
  Decoder_State_new (K := KV_Cache_impl) ex_model ex_p (replicate 2 None) Inputs.Examples.ex_heap0 = Ok (d0, l, h0) ∧
  Runs (DecoderOnly_Run (K := KV_Cache_impl) Tensors.Examples.no_oversize ex_session ex_model ex_p None) 3 ex_steps ∅ d0 h0
    = Ok ([scores; replicate 8 (f32_of_bits 7); replicate 8 (f32_of_bits 9)], ∅, d, h) ∧
  l = [Some 2; Some 3].
Proof.
  destruct (DecoderOnly_Runs_spec Tensors.Examples.no_oversize ex_session ex_model ex_p T_FLOAT [] (replicate 2 None)
    Inputs.Examples.ex_heap0 None ∅ ex_steps) as (d0 & h0 & all & d & h & E0 & E & L & H & _).
  - split; [vm_compute; discriminate|]. eexists _, _, _, _. split; [reflexivity|]. by split.
  - exact ex_setup.
  - destruct all as [|s0 [|s1 [|s2 [|s3 all]]]]; cbn [length ex_steps] in L; try discriminate L.
    destruct (H 1%nat _ _ eq_refl) as (x & [= <-] & H1%ex_scores).
    destruct (H 2%nat _ _ eq_refl) as (y & [= <-] & H2%ex_scores).
    eexists d0, _, h0, s0, d, h. split; [exact E0|]. split; [|done]. simpl in H1, H2. rewrite H1, H2 in E. exact E.
Defined.

Lemma Gpt_Runs_spec_witness : ∃ d0 l h0 scores d h,
  Decoder_State_new (K := KV_Cache_Combined_impl) ex_model ex_p (replicate 2 None) Inputs.Examples.ex_heap0 = Ok (d0, l, h0) ∧
  Runs (Gpt_Run (K := KV_Cache_Combined_impl) Tensors.Examples.no_oversize ex_session ex_model ex_p) 3 ex_steps ∅ d0 h0
    = Ok ([scores; replicate 8 (f32_of_bits 7); replicate 8 (f32_of_bits 9)], ∅, d, h) ∧
  l = [Some 2; Some 3].
Proof.
  destruct (Gpt_Runs_spec Tensors.Examples.no_oversize ex_session ex_model ex_p T_FLOAT [] (replicate 2 None)
    Inputs.Examples.ex_heap0 ∅ ex_steps) as (d0 & h0 & all & d & h & E0 & E & L & H & _).
  - split; [vm_compute; discriminate|]. eexists _, _, _, _. split; [reflexivity|]. by split.
  - exact ex_setup.
  - destruct all as [|s0 [|s1 [|s2 [|s3 all]]]]; cbn [length ex_steps] in L; try discriminate L.
    destruct (H 1%nat _ _ eq_refl) as (x & [= <-] & H1%ex_scores).
    destruct (H 2%nat _ _ eq_refl) as (y & [= <-] & H2%ex_scores).
    eexists d0, _, h0, s0, d, h. split; [exact E0|]. split; [|done]. simpl in H1, H2. rewrite H1, H2 in E. exact E.
Defined.
End Examples.
