(* ===== verification/Whisper.v ===== *)
(** * The Whisper model (src/models/whisper.h and whisper.cpp)

    An encoder and a decoder behind one state: the first run gives the encoder
    the features and the prompt, and the encoder fills the first present, and the
    cross cache that every later run of the decoder is given.  The theorems are
    about the CPU build without captured graphs. *)
From Stdlib Require Import ZArith Lia.
From stdpp Require Import base numbers list strings gmap.
From S2P Require Import Prelude Float32 Config Tensors Params GraphPool State Inputs KVCache Logits Decoders.
Local Open Scope Z_scope.

(** ** The state *)
(* the names the encoder is exported with *)
Definition features_name : string := "encoder_input_ids".
Definition prompt_name : string := "decoder_input_ids".
Definition hidden_name : string := "encoder_hidden_states".

Inductive RunState : Type := Encoder_Decoder_Init | Decoder_First | Decoder_Next.

Record Whisper_State := mkWhisper {
  w_state : State;
  decoder_input_ids_ : InputIDs;
  w_logits_ : Logits;
  w_kv_cache_ : Cache;
  cross_cache_ : Cross_Cache;
  w_extra_inputs_ : ExtraInputs;
  encoder_input_ids_ : option ptr;
  encoder_hidden_states_ : ptr;
  run_state_ : RunState }.

Definition set_name (name : string) (ii : InputIDs) : InputIDs :=
  mkInputIDs name (ii_index ii) (ii_shape ii) (ii_type ii) (ii_value ii) (ii_view ii).
Definition rows_of (w : Whisper_State) : nat := fst (ii_shape (decoder_input_ids_ w)).

Section whisper.
Context (oversize : Z -> Z -> Z) (encoder decoder : session) (encoder_info : SessionInfo) (m : model) (p : GeneratorParams).

(* the end of the constructor: the inputs and outputs of the encoder *)
Definition Whisper_lists (ids : InputIDs) (g : Logits) (c : Cache) (x : Cross_Cache) (e : ExtraInputs)
    (encoder_input_ids : option ptr) (hidden : ptr) : outcome Whisper_State :=
  let s := push_input features_name encoder_input_ids State_new in
  let '(ids, s) := InputIDs_Add (set_name prompt_name ids) s in
  let '(g, s) := Logits_Add m g s in
  let s := push_output hidden_name (Some hidden) s in
  s ← KV_Cache_AddEncoder c s;
  s ← ExtraInputs_Add p e s;
  s ← AddOutputs x s;
  Ok (mkWhisper s ids g c x e encoder_input_ids hidden Encoder_Decoder_Init).

(** The members in their order of declaration, then the body.  [input_features]
    is the caller's tensor, which may be none; the tensor value it owns may have
    been moved away, and is, when there is one beam. *)
Definition Whisper_State_new (input_features : option (option ptr)) (sequence_lengths : list (option Z)) (h : heap)
  : outcome (Whisper_State * option ptr * list (option Z) * heap) :=
  '(ids, h) ← InputIDs_new m p h;
  '(g, h) ← Logits_new m p h;
  '(c, h) ← KV_Cache_new m p h;
  '(x, h) ← Cross_Cache_new m p h;
  let e := ExtraInputs_new p in
  ort_tensor_ ← initialised input_features;
  '(ort_tensor_, encoder_input_ids, h) ← expand_from (device_type_ m) ort_tensor_ (p_beams p) h;
  hidden_states_type ← GetOutputDataType encoder_info hidden_name;
  let d := Config.decoder (Config.model (config_ m)) in
  let '(h, hidden) := CreateTensor [fst (ii_shape ids); 1500%nat; Z.to_nat (num_key_value_heads d * head_size d)] hidden_states_type h in
  sequence_lengths ← for_ (fst (ii_shape ids)) (fun i l => put l i (Some (sequence_length p))) sequence_lengths;
  w ← Whisper_lists ids g c x e encoder_input_ids hidden;
  Ok (w, ort_tensor_, sequence_lengths, h).

Definition Whisper_UpdateInputsOutputs (next_tokens beam_indices : list Z) (current_length : Z) (w : Whisper_State) (h : heap)
  : outcome (Whisper_State * heap) :=
  '(ids, s, h) ← InputIDs_Update m next_tokens (decoder_input_ids_ w) (w_state w) h;
  '(c, s, h) ← KV_Cache_Update beam_indices current_length (w_kv_cache_ w) s h;
  '(g, s, h) ← Logits_Update (w_logits_ w) s h;
  Ok (mkWhisper s ids g c (cross_cache_ w) (w_extra_inputs_ w) (encoder_input_ids_ w) (encoder_hidden_states_ w) (run_state_ w), h).

(* the case Decoder_First: the lists of the decoder replace those of the encoder *)
Definition first_decoder_step (w : Whisper_State) : outcome Whisper_State :=
  let s := ClearIO (w_state w) in
  let '(ids, s) := InputIDs_Add (set_name (input_ids (dec_in m)) (decoder_input_ids_ w)) s in
  let '(g, s) := Logits_Add m (w_logits_ w) s in
  '(c, s) ← KV_Cache_Add (w_kv_cache_ w) s;
  s ← AddInputs (cross_cache_ w) s;
  Ok (mkWhisper s ids g c (cross_cache_ w) (w_extra_inputs_ w) (encoder_input_ids_ w) (encoder_hidden_states_ w) Decoder_Next).

(* State::Run and logits_.Get() *)
Definition whisper_run_and_get (f : session) (batch_size : Z) (rs : RunState) (o : run_options) (w : Whisper_State) (h : heap)
  : outcome (list f32 * run_options * Whisper_State * heap) :=
  '(scores, o, s, g, h) ← run_logits oversize f m p None batch_size o (w_state w) (w_logits_ w) h;
  Ok (scores, o, mkWhisper s (decoder_input_ids_ w) g (w_kv_cache_ w) (cross_cache_ w) (w_extra_inputs_ w)
                   (encoder_input_ids_ w) (encoder_hidden_states_ w) rs, h).

Definition Whisper_Run (current_length : Z) (next_tokens next_indices : list Z) (o : run_options) (w : Whisper_State) (h : heap)
  : outcome (list f32 * run_options * Whisper_State * heap) :=
  let batch_size := i32 (Z.of_nat (rows_of w)) in
  match run_state_ w with
  | Encoder_Decoder_Init => whisper_run_and_get encoder batch_size Decoder_First o w h
  | Decoder_First =>
      w ← first_decoder_step w;
      '(w, h) ← Whisper_UpdateInputsOutputs next_tokens next_indices current_length w h;
      whisper_run_and_get decoder batch_size (run_state_ w) o w h
  | Decoder_Next =>
      '(w, h) ← Whisper_UpdateInputsOutputs next_tokens next_indices current_length w h;
      whisper_run_and_get decoder batch_size (run_state_ w) o w h
  end.
End whisper.

(** ** Properties *)
(** *** The cross cache and the features *)
Definition cross_ptrs (x : Cross_Cache) : list ptr := own (values_ x).

Record cross_ok (x : Cross_Cache) : Prop := {
  cr_values : length (values_ x) = cross_slots x;
  cr_inputs : length (cross_input_names x) = cross_slots x;
  cr_outputs : length (cross_output_names x) = cross_slots x;
  cr_some : owned_ptrs (cross_ptrs x) (values_ x) }.

(* the names of the layers, from the configuration *)
Definition cross_named (m : model) (x : Cross_Cache) : Prop :=
  let n := Z.to_nat (num_hidden_layers (Config.decoder (Config.model (config_ m)))) in
  layer_names [cross_past_key_names (dec_in m); cross_past_value_names (dec_in m)] n = Ok (cross_input_names x) ∧
  layer_names [cross_present_key_names (dec_out m); cross_present_value_names (dec_out m)] n = Ok (cross_output_names x).

Lemma Cross_Cache_new_ok m p h : heap_ok h -> params_ok p ->
  layers_ok m [cross_past_key_names (dec_in m); cross_past_value_names (dec_in m)]
              [cross_present_key_names (dec_out m); cross_present_value_names (dec_out m)] ->
  ∃ x h', Cross_Cache_new m p h = Ok (x, h') ∧ replaces h h' [] (cross_ptrs x) ∧ cross_ok x ∧ cross_named m x.
Proof.
  intros Hok Hp [Hl (ins & outs & first & ty & E1 & E2 & E3 & E4)]. unfold Cross_Cache_new.
  set (d := Config.decoder (Config.model (config_ m))) in *.
  rewrite (BatchBeamSize_ok p Hp), bind_Ok. unfold vector_size. destruct (Z.ltb_spec (num_hidden_layers d) 0) as [Hlt|_]; [lia|].
  rewrite bind_Ok, E1, bind_Ok, E2, bind_Ok, (get_Some _ _ _ E3), bind_Ok, E4, bind_Ok.
  pose proof E1 as L1. pose proof E2 as L2. apply length_layer_names in L1, L2. simpl in L1, L2.
  match goal with |- context [CreateTensors ?n ?sh ?ty h] => destruct (CreateTensors_ok n sh ty h Hok) as (l & h' & -> & R & L & HT) end.
  rewrite bind_Ok. eexists _, h'. split; [reflexivity|]. split; [exact R|]. split; [|done]. split; try done.
  apply Forall_forall. intros o Ho. apply list_elem_of_lookup in Ho as [i Hi]. cbn [values_] in Hi.
  destruct (HT i) as (q & e & E & _); [rewrite <- L; by eapply lookup_lt_Some|].
  exists q. split; [congruence|]. by eapply elem_of_own.
Qed.

Lemma AddOutputs_ok x s : cross_ok x -> AddOutputs x s = Ok (push_outputs (cross_output_names x) (values_ x) s).
Proof. intros []. by apply push_outputs_loop. Qed.

Lemma AddInputs_ok x s : cross_ok x -> AddInputs x s = Ok (push_inputs (cross_input_names x) (values_ x) s).
Proof. intros []. by apply push_inputs_loop. Qed.

Lemma KV_Cache_AddEncoder_ok c s h : cache_ok c h -> names_ok c ->
  KV_Cache_AddEncoder c s = Ok (push_outputs (output_name_strings_ c) (presents_ c) s).
Proof. intros Hok [_ Lo]. by apply push_outputs_loop; [|apply Hok]. Qed.

(* the features with a row per beam; with one beam they are moved, so what the
   caller still owns depends on the beams *)
Definition left_to_caller (p : GeneratorParams) (features : ptr) (ext : list ptr) : list ptr :=
  if decide (p_beams p = 1%nat) then ext else features :: ext.

(** What the caller's pointer [left] to the features holds after the construction
    of a state whose encoder reads [q]: with one beam it is null and the
    state's tensor is the features' own; else the features are still the
    caller's, unchanged, and the state has another tensor. *)
Definition features_after (p : GeneratorParams) (features q : ptr) (left : option ptr) (h h' : heap) : Prop :=
  if decide (p_beams p = 1%nat) then left = None ∧ q = features
  else left = Some features ∧ q ≠ features ∧ tensors h' !! features = tensors h !! features.

Lemma expand_from_ok p features ty b rest d ext h :
  live h (features :: ext) -> tensors h !! features = Some (mkOrt ty (b :: rest) d) -> b ≠ O -> (∃ n, SizeOf ty = Ok n) ->
  ∃ left q h', expand_from CPU (Some features) (p_beams p) h = Ok (left, Some q, h') ∧ features_after p features q left h h' ∧
    replaces h h' (features :: ext) (q :: left_to_caller p features ext) ∧
    tensors h' !! q = Some (mkOrt ty ((b * p_beams p)%nat :: rest) (expanded_rows d (element_count rest) b (p_beams p))).
Proof.
  intros Hl Ht Hb Hty. destruct (proj1 Hl _ _ Ht) as [Hlt Hd]. simpl in Hd. unfold expand_from, moves_input, left_to_caller, features_after.
  destruct (decide (p_beams p = 1%nat)) as [E1|E1].
  - rewrite bool_decide_true by done. simpl. exists None, features, h. split; [done|]. split; [done|]. split; [by apply replaces_refl|].
    by rewrite Ht, E1, Nat.mul_1_r, expanded_rows_1.
  - rewrite bool_decide_false by done. cbn [andb initialised]. rewrite bind_Ok.
    rewrite (expanded_copy_eq h features _ b rest (p_beams p) (proj1 Hl) Ht eq_refl Hb Hty), bind_Ok. cbn [element_type data].
    set (u := mkOrt _ _ _). eexists _, _, _. split; [reflexivity|].
    split; [split; [done|]; split; [lia|]; cbn [tensors]; by rewrite lookup_insert_ne by lia|]. split; [|cbn [tensors]; by rewrite lookup_insert_eq].
    destruct (new_tensor_replaces h u (proj1 Hl)) as [R T].
    { unfold u. simpl. by rewrite (length_expanded_rows _ _ b) by lia. }
    by apply (replaces_new _ _ _ _ R Hl).
Qed.

(** *** The invariant *)
Section whisper_ok.
Context (oversize : Z -> Z -> Z) (encoder decoder : session) {He : SessionLaw encoder} {Hd : SessionLaw decoder}.
Context (encoder_info : SessionInfo) (m : model) (p : GeneratorParams) (Hdev : device_type_ m = CPU) (Hp : params_ok p).
Context (lty : ONNXTensorElementDataType).
Let v := Z.to_nat (gp_vocab_size p).
Let si := session_info_ m.

(* what the session infos know and the configuration names *)
Record whisper_io_ok : Prop := {
  wi_ids : ∃ ty, GetInputDataType si (input_ids (dec_in m)) = Ok ty ∧ int_type ty;
  wi_logits : GetOutputDataType si (logits (dec_out m)) = Ok lty ∧ score_ok lty;
  wi_hidden : ∃ ty, GetOutputDataType encoder_info hidden_name = Ok ty;
  wi_cache : layers_ok m [past_key_names (dec_in m); past_value_names (dec_in m)] [present_key_names (dec_out m); present_value_names (dec_out m)];
  wi_cross : layers_ok m [cross_past_key_names (dec_in m); cross_past_value_names (dec_in m)]
               [cross_present_key_names (dec_out m); cross_present_value_names (dec_out m)] }.
Context (Hio : whisper_io_ok).

(* what the parts own, and the caller *)
Definition whisper_parts (ext : list ptr) (w : Whisper_State) : list (list ptr) :=
  [[ii_value (decoder_input_ids_ w)]; lg_ptrs (w_logits_ w); cache_ptrs (w_kv_cache_ w); cross_ptrs (cross_cache_ w);
   own [encoder_input_ids_ w] ++ [encoder_hidden_states_ w]; ext].

(** After [k] decoder updates, with logits for [n] tokens a row in a tensor for [nr]. *)
Record whisper_ok (ext : list ptr) (n nr k : nat) (w : Whisper_State) (h : heap) : Prop := {
  wk_live : live h (concat (whisper_parts ext w));
  wk_type : int_type (ii_type (decoder_input_ids_ w));
  wk_tensor : ∃ d, tensors h !! ii_value (decoder_input_ids_ w) =
    Some (mkOrt (ii_type (decoder_input_ids_ w)) [fst (ii_shape (decoder_input_ids_ w)); snd (ii_shape (decoder_input_ids_ w))] d);
  wk_rows : rows_of w = beam_rows p;
  wk_logits : logits_ok p v n nr (w_logits_ w) h;
  wk_logits_type : lg_type (w_logits_ w) = lty;
  wk_cache : cache_ok (w_kv_cache_ w) h;
  wk_shape : KV_Cache_shape m p (p_seq p + k) (w_kv_cache_ w);
  wk_cross : cross_ok (cross_cache_ w);
  wk_encoder : ∃ q, encoder_input_ids_ w = Some q }.

(* the lists of the encoder *)
Record encoder_lists (w : Whisper_State) : Prop := {
  el_state : run_state_ w = Encoder_Decoder_Init;
  el_input_names : input_names_ (w_state w) = [features_name; prompt_name] ++ map in_name (extra_inputs p);
  el_inputs : inputs_ (w_state w) = [encoder_input_ids_ w; Some (ii_value (decoder_input_ids_ w))] ++ extra_ptrs p;
  el_output_names : output_names_ (w_state w) = [logits (dec_out m); hidden_name] ++
    output_name_strings_ (w_kv_cache_ w) ++ cross_output_names (cross_cache_ w);
  el_outputs : outputs_ (w_state w) = [Some (output_raw_ (w_logits_ w)); Some (encoder_hidden_states_ w)] ++
    presents_ (w_kv_cache_ w) ++ values_ (cross_cache_ w) }.

(* the lists of the decoder *)
Record decoder_lists (mid : list (option ptr)) (w : Whisper_State) (h : heap) : Prop := {
  dl_state : run_state_ w = Decoder_Next;
  dl_ids : ids_ok (decoder_input_ids_ w) (w_state w) h [] (mid ++ values_ (cross_cache_ w));
  dl_logits : lg_index (w_logits_ w) = Some O;
  dl_slots : cache_slots (w_kv_cache_ w) (w_state w) [Some (ii_value (decoder_input_ids_ w))] mid (values_ (cross_cache_ w))
    [Some (output_raw_ (w_logits_ w))] (presents_ (w_kv_cache_ w)) [];
  dl_mid : owned_ptrs (cache_ptrs (w_kv_cache_ w)) mid;
  dl_input_names : ∃ names, length names = length mid ∧
    input_names_ (w_state w) = [input_ids (dec_in m)] ++ names ++ cross_input_names (cross_cache_ w);
  dl_output_names : length (output_names_ (w_state w)) = length (outputs_ (w_state w)) }.

(** *** The constructor *)
Lemma fill_lengths n x : ∀ l : list (option Z), length l = n -> for_ n (fun i l => put l i (Some x)) l = Ok (replicate n (Some x)).
Proof.
  intros l Hl. match goal with |- for_ n ?f l = _ =>
    destruct (for_inv (fun i l1 => l1 = replicate i (Some x) ++ drop i l) n f l) as (l1 & -> & ->) end.
  - done.
  - intros i l1 Hi ->. destruct (lookup_lt_is_Some_2 l i) as [a Ea]; [lia|].
    pose proof (put_middle (replicate i (Some x)) a (drop (S i) l) (Some x)) as E. rewrite length_replicate in E.
    rewrite (drop_S _ _ _ Ea), E. eexists. split; [reflexivity|]. by rewrite replicate_S_end, <- app_assoc.
  - rewrite drop_ge, app_nil_r by lia. done.
Qed.

Lemma Whisper_lists_ok ids g c x q hid h : cache_ok c h -> names_ok c -> cross_ok x ->
  ∃ w, Whisper_lists m p ids g c x (ExtraInputs_new p) (Some q) hid = Ok w ∧ encoder_lists w ∧
    decoder_input_ids_ w = mkInputIDs prompt_name (Some 1%nat) (ii_shape ids) (ii_type ids) (ii_value ids) (ii_view ids) ∧
    w_logits_ w = fst (Logits_Add m g State_new) ∧ w_kv_cache_ w = c ∧ cross_cache_ w = x ∧
    encoder_input_ids_ w = Some q ∧ encoder_hidden_states_ w = hid.
Proof.
  intros Hc Hn Hx. unfold Whisper_lists, InputIDs_Add, Logits_Add. cbn [ii_name set_name].
  rewrite (KV_Cache_AddEncoder_ok c _ h Hc Hn), bind_Ok, ExtraInputs_Add_ok, bind_Ok, (AddOutputs_ok x _ Hx), bind_Ok.
  eexists. split; [reflexivity|]. split; [|done].
  split; cbn [w_state decoder_input_ids_ w_logits_ w_kv_cache_ cross_cache_ encoder_input_ids_ encoder_hidden_states_ run_state_
    push_outputs push_output push_input State_new input_names_ output_names_ inputs_ outputs_ app ii_value set_name]; reflexivity.
Qed.

Lemma Whisper_State_new_ok features ty b rest d ext lengths h :
  live h (features :: ext) -> tensors h !! features = Some (mkOrt ty (b :: rest) d) -> b ≠ O -> (∃ n, SizeOf ty = Ok n) ->
  length lengths = beam_rows p ->
  let ext' := left_to_caller p features ext in
  ∃ w left h' q, Whisper_State_new encoder_info m p (Some (Some features)) lengths h =
      Ok (w, left, replicate (beam_rows p) (Some (sequence_length p)), h') ∧
    whisper_ok ext' (p_seq p) (p_seq p) 0 w h' ∧ encoder_lists w ∧ cross_named m (cross_cache_ w) ∧
    replaces h h' (features :: ext) (concat (whisper_parts ext' w)) ∧
    data <$> tensors h' !! ii_value (decoder_input_ids_ w) = Some (expanded_rows (prompt p) (p_seq p) (p_batch p) (p_beams p)) ∧
    encoder_input_ids_ w = Some q ∧ features_after p features q left h h' ∧
    data <$> tensors h' !! q = Some (expanded_rows d (element_count rest) b (p_beams p)).
Proof.
  intros L0 Hfeat Hb Hty Hlen ext'. destruct Hio as [Hids [Hlt Hls] [hty Hh] Hlay Hcross]. unfold Whisper_State_new.
  destruct (InputIDs_new_ok m p h Hdev Hp ltac:(apply L0) Hids) as (ids & h1 & -> & R1 & Sh1 & Ty1 & Nm1 & T1). rewrite bind_Ok. cbv beta iota.
  assert (live h (concat [[]; []; []; []; features :: ext])) as L0' by (simpl; by rewrite app_nil_r).
  destruct (replaces_part _ _ _ 0 _ _ L0' R1 eq_refl) as [Q1 K1]. cbn [list_insert insert] in Q1. pose proof (rp_live _ _ _ _ Q1) as L1.
  destruct (Logits_new_ok m p h1 lty ltac:(apply L1) Hlt Hls) as (g & h2 & E2 & R2 & Hlg2).
  assert (lg_type g = lty) as Hgt.
  { unfold Logits_new in E2. unfold si in Hlt. rewrite Hlt, bind_Ok in E2. destruct (CreateTensor _ _ _). by injection E2 as <- _. }
  rewrite E2, bind_Ok. clear E2. cbv beta iota.
  destruct (replaces_part _ _ _ 1 _ _ L1 R2 eq_refl) as [Q2 K2]. cbn [list_insert insert] in Q2. pose proof (rp_live _ _ _ _ Q2) as L2.
  destruct (cache_new_law (CacheLaw := KV_Cache_law m p Hp Hlay) h2 ltac:(apply L2)) as (c & h3 & E3 & R3 & Hc3 & Hsh3).
  cbn [cache_new KV_Cache_impl] in E3. rewrite E3, bind_Ok. cbv beta iota.
  destruct (replaces_part _ _ _ 2 _ _ L2 R3 eq_refl) as [Q3 K3]. cbn [list_insert insert] in Q3. pose proof (rp_live _ _ _ _ Q3) as L3.
  destruct (Cross_Cache_new_ok m p h3 ltac:(apply L3) Hp Hcross) as (x & h4 & -> & R4 & Hx & Hxn). rewrite bind_Ok. cbv beta iota zeta.
  destruct (replaces_part _ _ _ 3 _ _ L3 R4 eq_refl) as [Q4 K4]. cbn [list_insert insert] in Q4. pose proof (rp_live _ _ _ _ Q4) as L4.
  cbn [initialised]. rewrite bind_Ok.
  assert (tensors h4 !! features = Some (mkOrt ty (b :: rest) d)) as Hf4.
  { by rewrite (K4 4%nat (features :: ext)), (K3 4%nat (features :: ext)), (K2 4%nat (features :: ext)), (K1 4%nat (features :: ext))
      by (done || by left). }
  destruct (expand_from_ok p features ty b rest d ext h4 (live_part _ _ 4 _ L4 eq_refl) Hf4 Hb Hty) as (left & q & h5 & E5 & F5 & R5 & T5).
  rewrite Hdev, E5, bind_Ok, Hh, bind_Ok. cbv beta iota. clear E5.
  destruct (replaces_part _ _ _ 4 _ _ L4 R5 eq_refl) as [Q5 K5]. cbn [list_insert insert] in Q5. pose proof (rp_live _ _ _ _ Q5) as L5.
  match goal with |- context [CreateTensor ?sh hty h5] => destruct (make_tensor h5 sh hty ltac:(apply L5)) as (h6 & hid & dh & -> & R6 & T6 & _) end.
  change (live h5 (concat [[ii_value ids]; lg_ptrs g; cache_ptrs c; cross_ptrs x; [q]; []; ext'])) in L5.
  destruct (replaces_part _ _ _ 5 _ _ L5 R6 eq_refl) as [Q6 K6]. cbn [list_insert insert] in Q6. pose proof (rp_live _ _ _ _ Q6) as L6.
  set (parts6 := [[ii_value ids]; lg_ptrs g; cache_ptrs c; cross_ptrs x; [q]; [hid]; ext']) in *.
  cbn [fst]. rewrite Sh1. cbn [fst]. rewrite fill_lengths, bind_Ok by done.
  assert (∀ j a r, parts6 !! j = Some a -> (j < 4)%nat -> r ∈ a -> tensors h6 !! r = tensors h4 !! r) as K64.
  { intros j a r Hj Hlt' Hr. assert (j = 0 ∨ j = 1 ∨ j = 2 ∨ j = 3)%nat as Hc by lia.
    destruct Hc as [-> | [-> | [-> | ->]]]; injection Hj as <-;
      [rewrite (K6 0%nat [ii_value ids]), (K5 0%nat [ii_value ids])|rewrite (K6 1%nat (lg_ptrs g)), (K5 1%nat (lg_ptrs g))
      |rewrite (K6 2%nat (cache_ptrs c)), (K5 2%nat (cache_ptrs c))|rewrite (K6 3%nat (cross_ptrs x)), (K5 3%nat (cross_ptrs x))]; done. }
  assert (cache_ok c h6) as Hc6.
  { eapply cache_ok_frame; [exact Hc3| |by apply (live_part _ _ 2 _ L6)]. apply kept_kinds. intros r Hr.
    by rewrite (K64 2%nat (cache_ptrs c)), (K4 2%nat (cache_ptrs c)) by (done || lia). }
  assert (logits_ok p v (p_seq p) (p_seq p) g h6) as Hlg6.
  { eapply logits_ok_frame; [exact Hlg2| |by apply (live_part _ _ 1 _ L6)]. apply kept_kinds. intros r Hr.
    by rewrite (K64 1%nat (lg_ptrs g)), (K4 1%nat (lg_ptrs g)), (K3 1%nat (lg_ptrs g)) by (done || lia). }
  assert (tensors h6 !! ii_value ids = tensors h1 !! ii_value ids) as T6'.
  { by rewrite (K64 0%nat [ii_value ids]), (K4 0%nat [ii_value ids]), (K3 0%nat [ii_value ids]), (K2 0%nat [ii_value ids])
      by (done || lia || by left). }
  destruct (Whisper_lists_ok ids g c x q hid h6 Hc6 ltac:(apply Hsh3) Hx) as (w & -> & Hel & Eids & Eg & Ec & Ex & Eq & Ehid).
  rewrite bind_Ok. exists w, left, h6, q. split; [reflexivity|].
  assert (whisper_parts ext' w = [[ii_value ids]; lg_ptrs g; cache_ptrs c; cross_ptrs x; [q; hid]; ext']) as EP.
  { unfold whisper_parts. by rewrite Eids, Eg, Ec, Ex, Eq, Ehid. }
  split; [|split; [exact Hel|split; [by rewrite Ex|split; [|split; [|split; [done|split]]]]]].
  - split; rewrite ?EP, ?Eids, ?Eg, ?Ec, ?Ex; cbn [ii_value ii_type ii_shape].
    + exact L6.
    + done.
    + rewrite T6', T1, Sh1. eauto.
    + unfold rows_of. rewrite Eids. cbn [ii_shape]. by rewrite Sh1.
    + destruct Hlg6. by split.
    + done.
    + done.
    + by rewrite Nat.add_0_r.
    + done.
    + eauto.
  - rewrite EP. pose proof (replaces_trans _ _ _ _ _ _ (replaces_trans _ _ _ _ _ _ Q1 Q2) (replaces_trans _ _ _ _ _ _ Q3
      (replaces_trans _ _ _ _ _ _ Q4 (replaces_trans _ _ _ _ _ _ Q5 Q6)))) as R.
    change (concat [[]; []; []; []; features :: ext]) with ((features :: ext) ++ []) in R. by rewrite app_nil_r in R.
  - rewrite Eids. cbn [ii_value]. by rewrite T6', T1.
  - unfold features_after, ext', left_to_caller in *. destruct (decide (p_beams p = 1%nat)); [done|].
    destruct F5 as (-> & Hq & F5). split; [done|]. split; [done|].
    rewrite (K6 6%nat (features :: ext)), F5 by (done || by left). rewrite Hf4. by rewrite Hfeat.
  - rewrite (K6 4%nat [q]) by (done || by left). by rewrite T5.
Qed.
(** *** The runs *)
Context (ext : list ptr) (Hext : owned_ptrs ext (extra_ptrs p)).
Context (Hg : use_cuda_graph p = false) (Heos : eos_ok m v) (Htok : prompt_tokens p v).
Abbreviation parts := (whisper_parts ext).

(* what a run leaves: the same parts with other logits *)
Lemma whisper_after_run n k w h s g' h' scores o f rs : whisper_ok ext n n k w h ->
  logits_run oversize f m p v n o (w_state w) (parts w) 1 (w_logits_ w) g' h h' scores ->
  whisper_ok ext 1 n k (mkWhisper s (decoder_input_ids_ w) g' (w_kv_cache_ w) (cross_cache_ w) (w_extra_inputs_ w)
    (encoder_input_ids_ w) (encoder_hidden_states_ w) rs) h'.
Proof.
  intros [Hl Hty (d0 & Ht) Hrows Hlg Hlgt Hc Hsh Hx Henc] [_ (Hlg2 & _ & _ & Ty2) R Hkinds _].
  pose proof (rp_live _ _ _ _ R) as L2. split; cbn [decoder_input_ids_ w_logits_ w_kv_cache_ cross_cache_ encoder_input_ids_]; try done.
  - destruct (Hkinds 0%nat [ii_value (decoder_input_ids_ w)] ltac:(done) eq_refl _ _ ltac:(by left) Ht) as [d1 T1]. by exists d1.
  - congruence.
  - eapply cache_ok_frame; [exact Hc|by apply (Hkinds 2%nat)|by apply (live_part _ _ 2 _ L2)].
Qed.

(* the contents of the cross cache *)
Definition cross_holds (ds : list (list Z)) (w : Whisper_State) (h : heap) : Prop :=
  ∀ i q, values_ (cross_cache_ w) !! i = Some (Some q) -> ∃ d, ds !! i = Some d ∧ data <$> tensors h !! q = Some d.

Lemma encoder_io n nr k w h : whisper_ok ext n nr k w h -> encoder_lists w ->
  io_ok (concat (parts w)) (w_state w) ∧ NoDup (outputs_ (w_state w)).
Proof.
  intros [Hl _ _ _ _ _ Hc Hsh Hx [q Eq]] [_ En Ei Eon Eo]. pose proof (fun i a => part_in (parts w) i a) as Hin.
  destruct (own_distinct h (concat (parts w)) (outputs_ (w_state w)) [] Hl) as (Hnd & Hown & _).
  - rewrite Eo. repeat apply Forall_cons_2; try (by eexists). apply Forall_app. split; eapply owned_some; [by eapply cache_presents_owned|apply Hx].
  - rewrite Eo, app_nil_r. unfold own. cbn [app omap list_omap id]. rewrite omap_app. unfold parts, lg_ptrs, cache_ptrs, cross_ptrs, own. simpl.
    solve_submseteq.
  - split; [|exact Hnd]. split; [| exact Hown| |].
    + rewrite Ei, Eq. unfold parts. apply Forall_app. split.
      * apply Forall_cons. split; [|apply Forall_singleton]; eexists; (split; [reflexivity|]).
        -- apply (Hin 4%nat _ eq_refl). rewrite Eq. by left.
        -- apply (Hin 0%nat _ eq_refl). by left.
      * eapply owned_mono; [apply (Hin 5%nat _ eq_refl)|done].
    + rewrite En, Ei. unfold extra_ptrs. by rewrite !length_app, !length_map.
    + rewrite Eon, Eo, !length_app, (ck_presents _ _ Hc), (cr_values _ Hx), (cr_outputs _ Hx).
      by destruct Hsh as (_ & [_ ->] & _).
Qed.
(* the scores of a session's first result for [n] tokens a row *)
Definition scores_of (n : nat) (results : list (list Z)) (scores : list f32) : Prop := ∃ raw,
  results !! O = Some raw ∧ length scores = (beam_rows p * v)%nat ∧
  scores = map f32_of_bits (eos_rows m (beam_rows p) v (raw_scores oversize p lty v n raw)).

Lemma encoder_run_ok b o w h : whisper_ok ext (p_seq p) (p_seq p) 0 w h -> encoder_lists w ->
  ∃ scores w' h' ins outs, whisper_run_and_get oversize m p encoder b Decoder_First o w h = Ok (scores, o, w', h') ∧
    whisper_ok ext 1 (p_seq p) 0 w' h' ∧ run_state_ w' = Decoder_First ∧ cross_cache_ w' = cross_cache_ w ∧
    replaces h h' (concat (parts w)) (concat (parts w')) ∧
    read_io h (input_names_ (w_state w)) (inputs_ (w_state w)) = Ok ins ∧
    read_io h (output_names_ (w_state w)) (outputs_ (w_state w)) = Ok outs ∧
    scores_of (p_seq p) (encoder o ins outs) scores ∧
    cross_holds (drop (2 + slots (w_kv_cache_ w)) (encoder o ins outs)) w' h'.
Proof.
  intros Hok Hlists. destruct (encoder_io _ _ _ _ _ Hok Hlists) as [Hiok Hnd]. unfold whisper_run_and_get.
  assert (outputs_ (w_state w) !! 0%nat = Some (Some (output_raw_ (w_logits_ w)))) as H0 by (by rewrite (el_outputs _ Hlists)).
  destruct (run_logits_ok oversize encoder m p v Hdev Hp Heos Htok Hg None b o (p_seq p) (w_state w) (w_logits_ w) h (parts w) 1
    ltac:(by right) (wk_live _ _ _ _ _ _ Hok) eq_refl Hiok (wk_logits _ _ _ _ _ _ Hok) Hnd H0) as (scores & g' & h' & -> & Hrun).
  rewrite bind_Ok. cbv beta iota. pose proof Hrun as [(ins & outs & raw & Ei & Eo & Er & Ls & Es & Hdata) _ R _ _].
  eexists scores, _, h', ins, outs. split; [reflexivity|].
  split; [by eapply whisper_after_run|]. split; [done|]. split; [done|]. split; [exact R|]. split; [done|]. split; [done|].
  split; [exists raw; rewrite (wk_logits_type _ _ _ _ _ _ Hok) in Es; done|].
  intros i q Hq. cbn [cross_cache_] in Hq.
  assert (outputs_ (w_state w) !! (2 + slots (w_kv_cache_ w) + i)%nat = Some (Some q)) as Ho.
  { rewrite (el_outputs _ Hlists), <- (ck_presents _ _ (wk_cache _ _ _ _ _ _ Hok)).
    rewrite lookup_app_r by (simpl; lia). rewrite lookup_app_r by (simpl; lia).
    etransitivity; [|exact Hq]. f_equal. simpl. lia. }
  assert (q ∈ cross_ptrs (cross_cache_ w)) as Hin by (by eapply elem_of_own).
  destruct (lookup_lt_is_Some_2 (encoder o ins outs) (2 + slots (w_kv_cache_ w) + i)%nat) as [d Ed].
  { rewrite (Forall2_length _ _ _ (session_results (f := encoder) o ins outs)), <- (length_map fst), (read_io_names _ _ _ _ Eo),
      (io_output_names _ _ Hiok). by eapply lookup_lt_Some. }
  exists d. rewrite lookup_drop. split; [exact Ed|]. by apply (Hdata 3%nat (cross_ptrs (cross_cache_ w)) (2 + slots (w_kv_cache_ w) + i)%nat q d).
Qed.
(** From the lists of the encoder to those of the decoder. *)
Lemma first_decoder_step_ok n nr k w h : whisper_ok ext n nr k w h ->
  ∃ w', first_decoder_step m w = Ok w' ∧ whisper_ok ext n nr k w' h ∧ decoder_lists (added_inputs (w_kv_cache_ w)) w' h ∧
    parts w' = parts w ∧ cross_cache_ w' = cross_cache_ w ∧ rows_of w' = rows_of w.
Proof.
  intros [Hl Hty Ht Hrows Hlg Hlgt Hc Hsh Hx Henc]. unfold first_decoder_step, InputIDs_Add.
  cbn [ii_name ii_index ii_shape ii_type ii_value ii_view set_name].
  destruct (Logits_Add_ok m p v n nr (w_logits_ w) (push_input (input_ids (dec_in m)) (Some (ii_value (decoder_input_ids_ w)))
    (ClearIO (w_state w))) h Hlg) as (g' & Eg & Hlg' & Pg & Ig & Wg).
  assert (lg_type g' = lg_type (w_logits_ w)) as Hgt' by (unfold Logits_Add in Eg; by injection Eg as <-).
  rewrite Eg. destruct Hsh as (Sb & [N1 N2] & Sk).
  match goal with |- context [KV_Cache_Add (w_kv_cache_ w) ?s] =>
    destruct (KV_Cache_Add_ok (w_kv_cache_ w) s h Hc N1 N2) as (c' & -> & Ec) end.
  rewrite bind_Ok. cbv beta iota. rewrite (AddInputs_ok _ _ Hx), bind_Ok.
  eexists. split; [reflexivity|]. set (c := w_kv_cache_ w) in *.
  assert (length (added_inputs c) = slots c) as La.
  { unfold added_inputs. destruct (share_buffer c); [apply (ck_presents _ _ Hc)|apply length_replicate]. }
  split; [|split; [|split; [|done]]].
  - split; cbn [decoder_input_ids_ w_logits_ w_kv_cache_ cross_cache_ encoder_input_ids_ ii_type ii_value ii_shape]; try done.
    + unfold whisper_parts. cbn [decoder_input_ids_ w_logits_ w_kv_cache_ cross_cache_ encoder_input_ids_ encoder_hidden_states_ ii_value].
      rewrite Pg, Ec. exact Hl.
    + congruence.
    + rewrite Ec. by apply cache_ok_indices.
    + rewrite Ec. by repeat split.
  - split; cbn [w_state decoder_input_ids_ w_logits_ w_kv_cache_ cross_cache_ run_state_]; [done| |rewrite Ig; done| | | |].
    + split; [done| |done|done]. unfold push_inputs, push_caches, push_output, push_input, ClearIO. simpl. by rewrite <- ?app_assoc.
    + rewrite Ec. split; cbn [set_indices input_index_ output_index_ presents_ slots]; try done.
      * unfold push_inputs, push_caches, push_output. simpl. by rewrite Wg, app_nil_r.
      * apply (ck_presents _ _ Hc).
    + rewrite Ec. exact (added_inputs_owned c h Hc).
    + exists (input_name_strings_ c). split; [by rewrite La|].
      unfold push_inputs, push_caches, push_output, push_input, ClearIO. simpl. by rewrite <- ?app_assoc.
    + unfold push_inputs, push_caches, push_output. simpl. by rewrite N2, (ck_presents _ _ Hc).
  - unfold whisper_parts. cbn [decoder_input_ids_ w_logits_ w_kv_cache_ cross_cache_ encoder_input_ids_ encoder_hidden_states_ ii_value].
    by rewrite Pg, Ec.
Qed.

Lemma Whisper_Update_ok toks beams nr k mid w h : whisper_ok ext 1 nr k w h -> decoder_lists mid w h ->
  step_ok p (toks, beams) ->
  ∃ w' h' mid', Whisper_UpdateInputsOutputs m toks beams (Z.of_nat (p_seq p + S k)) w h = Ok (w', h') ∧
    whisper_ok ext 1 1 (S k) w' h' ∧ decoder_lists mid' w' h' ∧ replaces h h' (concat (parts w)) (concat (parts w')) ∧
    cross_cache_ w' = cross_cache_ w ∧ kept (cross_ptrs (cross_cache_ w)) h h' ∧
    data <$> tensors h' !! ii_value (decoder_input_ids_ w') = Some toks.
Proof.
  intros [Hl Hty Ht Hrows Hlg Hlgt Hc Hsh Hx Henc] [Dst Hids Hlgi Hcs Hmid Hin Hout] (Htoks & Hbeams & Hnb). simpl in Htoks, Hbeams, Hnb.
  destruct w as [s ids g c x e enc hid rs]. unfold rows_of in Hrows.
  cbn [w_state decoder_input_ids_ w_logits_ w_kv_cache_ cross_cache_ encoder_input_ids_ run_state_] in *. unfold whisper_parts in Hl.
  cbn [decoder_input_ids_ w_logits_ w_kv_cache_ cross_cache_ encoder_input_ids_ encoder_hidden_states_] in Hl.
  unfold Whisper_UpdateInputsOutputs. cbn [w_state decoder_input_ids_ w_logits_ w_kv_cache_ cross_cache_].
  destruct (InputIDs_Update_ok m toks ids s h _ _ Hdev (live_part _ _ 0 _ Hl eq_refl) Hids ltac:(congruence))
    as (ids1 & h1 & -> & R1 & Sh1 & Ty1 & Ix1 & _ & T1).
  rewrite bind_Ok. cbv beta iota.
  destruct (replaces_part _ _ _ 0 _ _ Hl R1 eq_refl) as [Q1 K1]. cbn [list_insert insert] in Q1. pose proof (rp_live _ _ _ _ Q1) as L1.
  assert (cache_ok c h1) as Hc1.
  { eapply cache_ok_frame; [exact Hc|apply kept_kinds; intros r; by apply (K1 2%nat)|by apply (live_part _ _ 2 _ L1)]. }
  set (s1 := with_inputs _ s).
  assert (cache_slots c s1 [Some (ii_value ids1)] mid (values_ x) [Some (output_raw_ g)] (presents_ c) []) as Hcs1.
  { eapply cache_slots_rebase; [exact Hcs|done|done|done|apply Hcs]. }
  pose proof (KV_Cache_law m p Hp (wi_cache Hio)) as HK.
  destruct (cache_Update_law (CacheLaw := HK) (p_seq p + k)%nat beams c s1 h1 _ _ _ _ _ Hc1 Hsh Hbeams Hnb Hcs1 Hmid)
    as (c2 & h2 & mid2 & E2 & R2 & Hc2 & Hsh2 & Hmid2 & Lm2 & Ls2 & Ii2 & Oi2).
  replace (S (p_seq p + k)) with (p_seq p + S k)%nat in E2, Hsh2 by lia. cbn [cache_Update KV_Cache_impl] in E2.
  rewrite E2, bind_Ok. cbv beta iota.
  destruct (replaces_part _ _ _ 2 _ _ L1 R2 eq_refl) as [Q2 K2]. cbn [list_insert insert] in Q2. pose proof (rp_live _ _ _ _ Q2) as L2.
  assert (logits_ok p v 1 nr g h2) as Hlg2.
  { eapply logits_ok_frame; [exact Hlg| |by apply (live_part _ _ 1 _ L2)]. apply kept_kinds. intros r Hr.
    by rewrite (K2 1%nat (lg_ptrs g)), (K1 1%nat (lg_ptrs g)). }
  set (s2 := with_outputs _ _).
  destruct (Logits_Update_ok p v nr g s2 h2 [] (presents_ c2 ++ []) Hlg2 Hlgi eq_refl) as (g3 & h3 & E3 & Hlg3 & R3 & Ix3 & Ty3).
  rewrite E3, bind_Ok. cbv beta iota.
  destruct (replaces_part _ _ _ 1 _ _ L2 R3 eq_refl) as [Q3 K3]. cbn [list_insert insert] in Q3. pose proof (rp_live _ _ _ _ Q3) as L3.
  set (s3 := with_outputs _ s2). exists (mkWhisper s3 ids1 g3 c2 x e enc hid rs), h3, mid2.
  assert (tensors h3 !! ii_value ids1 = Some (mkOrt (ii_type ids) [fst (ii_shape ids); 1%nat] toks)) as T3.
  { rewrite (K3 0%nat [ii_value ids1]), (K2 0%nat [ii_value ids1]) by (done || by left). exact T1. }
  split; [done|]. split; [|split; [|split; [|split; [done|split; [|cbn [decoder_input_ids_]; by rewrite T3]]]]].
  - split; unfold rows_of; cbn [decoder_input_ids_ w_logits_ w_kv_cache_ cross_cache_ encoder_input_ids_]; try done.
    + by rewrite Ty1.
    + rewrite T3, Sh1, Ty1. by exists toks.
    + by rewrite Sh1.
    + congruence.
    + eapply cache_ok_frame; [exact Hc2|apply kept_kinds; intros r; by apply (K3 2%nat)|by apply (live_part _ _ 2 _ L3)].
  - split; cbn [w_state decoder_input_ids_ w_logits_ w_kv_cache_ cross_cache_ run_state_]; [done| |congruence| |done| |].
    + split; [by rewrite Ix1; apply Hids|done|by rewrite Ty1|]. rewrite T3, Sh1, Ty1. by exists toks.
    + destruct Hcs1 as [J1 J2 _ _ _ _]. split; [by rewrite Ii2|by rewrite Oi2, J2|done|done|done|apply (ck_presents _ _ Hc2)].
    + destruct Hin as (names & Ln & En). exists names. split; [rewrite Ln, Lm2, Ls2; apply Hcs|exact En].
    + simpl. rewrite Hout, (cs_outputs _ _ _ _ _ _ _ _ Hcs). simpl. rewrite !length_app, (ck_presents _ _ Hc), (ck_presents _ _ Hc2). congruence.
  - do 2 (eapply replaces_trans; [eassumption|]). exact Q3.
  - intros r Hr. by rewrite (K3 3%nat (cross_ptrs x)), (K2 3%nat (cross_ptrs x)), (K1 3%nat (cross_ptrs x)).
Qed.
Lemma decoder_io n nr k mid w h : whisper_ok ext n nr k w h -> decoder_lists mid w h ->
  io_ok (concat (parts w)) (w_state w) ∧ NoDup (outputs_ (w_state w)) ∧
  (∀ r, r ∈ cross_ptrs (cross_cache_ w) -> Some r ∉ outputs_ (w_state w)) ∧
  Some (ii_value (decoder_input_ids_ w)) ∉ outputs_ (w_state w).
Proof.
  intros [Hl _ _ _ _ _ Hc Hsh Hx _] [_ _ _ Hcs Hmid (names & Ln & En) Hon]. pose proof (fun i a => part_in (parts w) i a) as Hin.
  pose proof (cs_outputs _ _ _ _ _ _ _ _ Hcs) as Eo. pose proof (cs_inputs _ _ _ _ _ _ _ _ Hcs) as Ei.
  destruct (own_distinct h (concat (parts w)) (outputs_ (w_state w)) (ii_value (decoder_input_ids_ w) :: cross_ptrs (cross_cache_ w)) Hl)
    as (Hnd & Hown & Hno).
  - rewrite Eo, app_nil_r. apply Forall_cons_2; [by eexists|]. eapply owned_some. by eapply cache_presents_owned.
  - rewrite Eo, app_nil_r. unfold parts, whisper_parts, lg_ptrs, cache_ptrs, cross_ptrs, own. simpl. solve_submseteq.
  - split; [|split; [exact Hnd|split; [intros r Hr; apply Hno; by right|apply Hno; by left]]]. split; [|exact Hown| |exact Hon].
    + rewrite Ei. apply Forall_cons. split; [eexists; split; [reflexivity|]; apply (Hin 0%nat _ eq_refl); by left|].
      apply Forall_app. split; (eapply owned_mono; [|eassumption || apply Hx]); [apply (Hin 2%nat _ eq_refl)|apply (Hin 3%nat _ eq_refl)].
    + rewrite En, Ei, !length_app, Ln, (cr_values _ Hx), (cr_inputs _ Hx). done.
Qed.

(* what a run of the decoder is given: the tokens, and in the inputs of the cross
   cache what [ds] has *)
Record decoder_sees (x : Cross_Cache) (toks : list Z) (ds : list (list Z)) (ins : list (string * OrtValue)) : Prop := {
  ws_tokens : ∃ t, ins !! O = Some (input_ids (dec_in m), t) ∧ data t = toks;
  ws_cross : ∀ i name, cross_input_names x !! i = Some name ->
    ∃ j t, ins !! j = Some (name, t) ∧ ds !! i = Some (data t) }.

Lemma whisper_decoder_run_ok b o k mid w h ds toks : whisper_ok ext 1 1 k w h -> decoder_lists mid w h ->
  cross_holds ds w h -> data <$> tensors h !! ii_value (decoder_input_ids_ w) = Some toks ->
  ∃ scores w' h' ins outs, whisper_run_and_get oversize m p decoder b (run_state_ w) o w h = Ok (scores, o, w', h') ∧
    whisper_ok ext 1 1 k w' h' ∧ decoder_lists mid w' h' ∧ cross_cache_ w' = cross_cache_ w ∧ cross_holds ds w' h' ∧
    replaces h h' (concat (parts w)) (concat (parts w')) ∧
    decoder_sees (cross_cache_ w) toks ds ins ∧ scores_of 1 (decoder o ins outs) scores.
Proof.
  intros Hok Hlists Hcross Htoks. destruct (decoder_io _ _ _ _ _ _ Hok Hlists) as (Hiok & Hnd & Hno & Hno0). unfold whisper_run_and_get.
  pose proof (cs_outputs _ _ _ _ _ _ _ _ (dl_slots _ _ _ Hlists)) as Eo0.
  pose proof (cs_inputs _ _ _ _ _ _ _ _ (dl_slots _ _ _ Hlists)) as Ei0.
  assert (outputs_ (w_state w) !! 0%nat = Some (Some (output_raw_ (w_logits_ w)))) as H0 by (by rewrite Eo0).
  destruct (run_logits_ok oversize decoder m p v Hdev Hp Heos Htok Hg None b o 1 (w_state w) (w_logits_ w) h (parts w) 1
    ltac:(by left) (wk_live _ _ _ _ _ _ Hok) eq_refl Hiok (wk_logits _ _ _ _ _ _ Hok) Hnd H0) as (scores & g' & h' & -> & Hrun).
  rewrite bind_Ok. cbv beta iota. pose proof Hrun as [(ins & outs & raw & Ei & Eo & Er & Ls & Es & _) (_ & W2 & Ix2 & Ty2) R Hkinds Hkept].
  eexists scores, _, h', ins, outs. split; [reflexivity|].
  split; [by eapply whisper_after_run|]. split; [|split; [done|split; [|split; [exact R|split]]]].
  - destruct Hlists as [L1 [I1 I2 I3 (d0 & I4)] L3 [C1 C2 C3 C4 C5 C6] L5 L6 L7].
    split; cbn [w_state decoder_input_ids_ w_logits_ w_kv_cache_ cross_cache_ run_state_]; try done; [|congruence|].
    + split; try done. destruct (Hkinds 0%nat [ii_value (decoder_input_ids_ w)] ltac:(done) eq_refl _ _ ltac:(by left) I4) as [d1 T1].
      by exists d1.
    + split; try done. by rewrite W2.
  - intros i q Hq. cbn [cross_cache_] in Hq. destruct (Hcross i q Hq) as (d & Ed & Td). exists d. split; [done|].
    assert (q ∈ cross_ptrs (cross_cache_ w)) as Hin by (by eapply elem_of_own).
    by rewrite (Hkept 3%nat (cross_ptrs (cross_cache_ w)) q ltac:(done) eq_refl Hin (Hno q Hin)).
  - destruct (dl_input_names _ _ _ Hlists) as (names & Ln & En). rewrite En, Ei0 in Ei. split.
    + destruct (tensors h !! ii_value (decoder_input_ids_ w)) as [t|] eqn:Et; [|done]. injection Htoks as <-.
      exists t. split; [|done]. by eapply (read_io_lookup h _ _ _ 0%nat _ _ _ Ei).
    + intros i name Hname. pose proof (wk_cross _ _ _ _ _ _ Hok) as Hx.
      destruct (lookup_lt_is_Some_2 (values_ (cross_cache_ w)) i) as [q' Eq'].
      { rewrite (cr_values _ Hx), <- (cr_inputs _ Hx). by eapply lookup_lt_Some. }
      pose proof (proj1 (Forall_lookup _ _) (cr_some _ Hx) i _ Eq') as (q & -> & _).
      destruct (Hcross i q Eq') as (d & Ed & Td). destruct (tensors h !! q) as [t|] eqn:Et; [|done]. injection Td as <-.
      exists (1 + length mid + i)%nat, t. split; [|done]. eapply (read_io_lookup h _ _ _ _ _ _ _ Ei); [| |exact Et].
      * rewrite <- Ln. rewrite app_assoc, lookup_app_r by (simpl; lia). etransitivity; [|exact Hname]. f_equal. simpl. lia.
      * rewrite app_assoc, lookup_app_r by (simpl; lia). etransitivity; [|exact Eq']. f_equal. simpl. lia.
  - exists raw. rewrite (wk_logits_type _ _ _ _ _ _ Hok) in Es. done.
Qed.
(* before a run of the decoder, with the encoder's cross cache [x] of contents [ds] *)
Definition whisper_ready (x : Cross_Cache) (ds : list (list Z)) (k : nat) (w : Whisper_State) (h : heap) : Prop :=
  match k with
  | O => False
  | S k => cross_cache_ w = x ∧ cross_holds ds w h ∧ ∃ nr, whisper_ok ext 1 nr k w h ∧
      (run_state_ w = Decoder_First ∨ ∃ mid, decoder_lists mid w h)
  end.

Definition whisper_result (x : Cross_Cache) (ds : list (list Z)) (o : run_options) (toks : list Z) (scores : list f32) : Prop :=
  ∃ ins outs, decoder_sees x toks ds ins ∧ scores_of 1 (decoder o ins outs) scores.

Lemma whisper_step x ds k toks beams o w h : whisper_ready x ds k w h -> step_ok p (toks, beams) ->
  ∃ scores w' h', Whisper_Run oversize encoder decoder m p (Z.of_nat (p_seq p + k)) toks beams o w h = Ok (scores, o, w', h') ∧
    whisper_ready x ds (S k) w' h' ∧ replaces h h' (concat (parts w)) (concat (parts w')) ∧ whisper_result x ds o toks scores.
Proof.
  destruct k as [|k]; [done|]. intros (Ex & Hcross & nr & Hok & Hst) Hstep.
  assert (∃ w1 mid, (∀ r : Whisper_State -> outcome (list f32 * run_options * Whisper_State * heap),
      match run_state_ w with Encoder_Decoder_Init => Undef | Decoder_First => w ← first_decoder_step m w; r w | Decoder_Next => r w end = r w1) ∧
      run_state_ w ≠ Encoder_Decoder_Init ∧ whisper_ok ext 1 nr k w1 h ∧ decoder_lists mid w1 h ∧ parts w1 = parts w ∧
      cross_cache_ w1 = cross_cache_ w) as (w1 & mid & Hr & Hne & Hok1 & Hl1 & Ep & Ec).
  { destruct Hst as [Hst | [mid Hl]].
    - destruct (first_decoder_step_ok 1 nr k w h Hok) as (w1 & E & Hok1 & Hl1 & Ep & Ec & _). exists w1, (added_inputs (w_kv_cache_ w)).
      rewrite Hst. split; [intros r; by rewrite E, bind_Ok|]. done.
    - exists w, mid. rewrite (dl_state _ _ _ Hl). done. }
  destruct (Whisper_Update_ok toks beams nr k mid w1 h Hok1 Hl1 Hstep) as (w2 & h2 & mid2 & E2 & Hok2 & Hl2 & R2 & Ec2 & K2 & T2).
  assert (cross_holds ds w2 h2) as Hcross2.
  { intros i q Hq. rewrite Ec2, Ec in Hq. destruct (Hcross i q Hq) as (d & Ed & Td). exists d. split; [done|].
    rewrite K2; [done|]. rewrite Ec. by eapply elem_of_own. }
  destruct (whisper_decoder_run_ok (i32 (Z.of_nat (rows_of w))) o (S k) mid2 w2 h2 ds toks Hok2 Hl2 Hcross2 T2)
    as (scores & w3 & h3 & ins & outs & E3 & Hok3 & Hl3 & Ec3 & Hcross3 & R3 & Hsees & Hsc).
  exists scores, w3, h3. split; [|split; [|split]].
  - specialize (Hr (fun w1 => '(w1, h) ← Whisper_UpdateInputsOutputs m toks beams (Z.of_nat (p_seq p + S k)) w1 h;
      whisper_run_and_get oversize m p decoder (i32 (Z.of_nat (rows_of w))) (run_state_ w1) o w1 h)). cbv beta in Hr.
    rewrite E2, bind_Ok in Hr. cbv beta iota in Hr. rewrite E3 in Hr. rewrite <- Hr. unfold Whisper_Run. by destruct (run_state_ w).
  - split; [congruence|]. split; [done|]. exists 1%nat. split; [done|]. right. by exists mid2.
  - rewrite <- Ep. by eapply replaces_trans.
  - exists ins, outs. split; [|done]. congruence.
Qed.
End whisper_ok.

(** ** The runs of a new state *)
Section theorem.
Context (oversize : Z -> Z -> Z) (encoder decoder : session) (encoder_info : SessionInfo) (m : model) (p : GeneratorParams).
Context (lty fty : ONNXTensorElementDataType) (features : ptr) (rows : nat) (dims : list nat) (mel : list Z).
Context (ext : list ptr) (lengths : list (option Z)) (h : heap) (o : run_options).
Context (first : list Z * list Z) (steps : list (list Z * list Z)).
Let v := Z.to_nat (gp_vocab_size p).

(** A generator of the CPU build on a Whisper model its sessions fit, with the
    features [mel] of shape [rows :: dims] among the caller's tensors. *)
Record whisper_setup : Prop := {
  sw_encoder : SessionLaw encoder;
  sw_decoder : SessionLaw decoder;
  sw_device : device_type_ m = CPU;
  sw_graph : use_cuda_graph p = false;
  sw_params : params_ok p;
  sw_io : whisper_io_ok encoder_info m lty;
  sw_eos : eos_ok m v;
  sw_prompt : prompt_tokens p v;
  sw_extra : owned_ptrs ext (extra_ptrs p);
  sw_live : live h (features :: ext);
  sw_features : tensors h !! features = Some (mkOrt fty (rows :: dims) mel);
  sw_rows : rows ≠ O;
  sw_type : ∃ n, SizeOf fty = Ok n;
  sw_lengths : length lengths = beam_rows p;
  sw_steps : Forall (step_ok p) steps;
  sw_max : Z.of_nat (p_seq p + length steps) <= INT_MAX }.

(* where the encoder's outputs hold those of the cross cache *)
Lemma encoder_cross_output e n w g eouts i b : whisper_ok m p lty e n n 0 w g -> encoder_lists m p w ->
  read_io g (output_names_ (w_state w)) (outputs_ (w_state w)) = Ok eouts -> cross_output_names (cross_cache_ w) !! i = Some b ->
  ∃ t, eouts !! (2 + slots (w_kv_cache_ w) + i)%nat = Some (b, t).
Proof.
  intros Hok Hel Eo Hb. pose proof (read_io_names _ _ _ _ Eo) as Nm. rewrite (el_output_names _ _ _ Hel) in Nm.
  assert (map fst eouts !! (2 + slots (w_kv_cache_ w) + i)%nat = Some b) as Hb'.
  { rewrite Nm. destruct (wk_shape _ _ _ _ _ _ _ _ _ Hok) as (_ & [_ Lo] & _).
    rewrite app_assoc, lookup_app_r by (rewrite length_app, Lo; simpl; lia). rewrite length_app, Lo.
    etransitivity; [|exact Hb]. f_equal. simpl. lia. }
  rewrite list_lookup_fmap in Hb'. destruct (eouts !! _) as [[b' t]|]; [|done]. injection Hb' as ->. by exists t.
Qed.

(** C12: whatever the beams and the number of steps, every run of a Whisper
    model returns.  The first gives the encoder the features and the prompt, both
    repeated per beam; every later one gives the decoder the tokens of its step
    and, in the inputs of the cross cache, what the first run of the encoder put
    in its outputs of the cross cache; each returns the scores of its session's
    logits.  No destroyed tensor is read; with one beam the caller's features are
    moved into the state and its pointer is null, with more the caller keeps
    them, unchanged, and the state has a tensor of its own. *)
Theorem Whisper_Runs_spec : whisper_setup ->
  ∃ w0 left h0 all w h' eins eouts,
    Whisper_State_new encoder_info m p (Some (Some features)) lengths h =
      Ok (w0, left, replicate (beam_rows p) (Some (sequence_length p)), h0) ∧
    (∃ q, encoder_input_ids_ w0 = Some q ∧ features_after p features q left h h0) ∧
    Runs (Whisper_Run oversize encoder decoder m p) (Z.of_nat (p_seq p)) (first :: steps) o w0 h0 = Ok (all, o, w, h') ∧
    length all = S (length steps) ∧
    (∃ t, eins !! 0%nat = Some (features_name, t) ∧ data t = expanded_rows mel (element_count dims) rows (p_beams p)) ∧
    (∃ t, eins !! 1%nat = Some (prompt_name, t) ∧ data t = expanded_rows (prompt p) (p_seq p) (p_batch p) (p_beams p)) ∧
    (∃ scores, all !! 0%nat = Some scores ∧ scores_of oversize m p lty (p_seq p) (encoder o eins eouts) scores) ∧
    (∀ k toks beams, steps !! k = Some (toks, beams) -> ∃ scores ins outs, all !! S k = Some scores ∧
       scores_of oversize m p lty 1 (decoder o ins outs) scores ∧
       (∃ t, ins !! 0%nat = Some (input_ids (dec_in m), t) ∧ data t = toks) ∧
       ∀ x i a b, cross_named m x -> cross_input_names x !! i = Some a -> cross_output_names x !! i = Some b ->
         ∃ j t j' t', ins !! j = Some (a, t) ∧ eouts !! j' = Some (b, t') ∧ encoder o eins eouts !! j' = Some (data t)) ∧
    replaces h h' (features :: ext) (concat (whisper_parts (left_to_caller p features ext) w)).
Proof.
  intros [He Hd Hdev Hg Hp Hio Heos Htok Hext Hl Hf Hrows Hty Hlen Hsteps Hmax].
  set (ext' := left_to_caller p features ext).
  assert (owned_ptrs ext' (extra_ptrs p)) as Hext'.
  { eapply owned_mono; [|exact Hext]. unfold ext', left_to_caller. destruct (decide _); [done|]. intros r Hr. by right. }
  destruct (Whisper_State_new_ok encoder_info m p Hdev Hp lty Hio features fty rows dims mel ext lengths h Hl Hf Hrows Hty Hlen)
    as (w0 & left & h0 & q & E0 & Hok0 & Hel & Hxn & R0 & T0 & Eq & Fq & Tq). fold ext' in Hok0, R0.
  destruct (encoder_run_ok oversize encoder m p Hdev Hp lty ext' Hext' Hg Heos Htok (i32 (Z.of_nat (rows_of w0))) o w0 h0 Hok0 Hel)
    as (scores & w1 & h1 & eins & eouts & E1 & Hok1 & Hst1 & Ex1 & R1 & Ei & Eo & Hsc & Hcross).
  set (ds := drop (2 + slots (w_kv_cache_ w0)) (encoder o eins eouts)) in *. set (x0 := cross_cache_ w0) in *.
  destruct (Runs_from (Whisper_Run oversize encoder decoder m p) p o (whisper_ready m p lty ext' x0 ds) (fun w => concat (whisper_parts ext' w))
    (fun _ => whisper_result oversize decoder m p lty x0 ds o)) with (fits := fun n => Z.of_nat n <= INT_MAX) (steps := steps) (k := 1%nat) (d := w1) (h := h1)
    as (all & w & h' & E & R & F & _); [| | |done|intros j Hj; lia|].
  - intros [|k] w h2 Hr; [done|]. destruct Hr as (_ & _ & nr & [] & _). done.
  - intros [|k] toks beams w h2 Hr Hs _; [done|]. destruct Hs as [?|Hs]; [done|].
    by apply (whisper_step oversize encoder decoder encoder_info m p Hdev Hp lty Hio ext').
  - split; [done|]. split; [done|]. exists (p_seq p). split; [done|]. by left.
  - exists w0, left, h0, (scores :: all), w, h', eins, eouts. split; [exact E0|]. split; [|split; [|split; [|split; [|split; [|split; [|split]]]]]].
    + by exists q.
    + destruct first as [t0 b0]. cbn [Runs].
      assert (Whisper_Run oversize encoder decoder m p (Z.of_nat (p_seq p)) t0 b0 o w0 h0 = Ok (scores, o, w1, h1)) as ->
        by (unfold Whisper_Run; rewrite (el_state _ _ _ Hel); exact E1).
      rewrite bind_Ok. cbv beta iota. replace (Z.of_nat (p_seq p) + 1) with (Z.of_nat (p_seq p + 1)) by lia. by rewrite E, bind_Ok.
    + simpl. by rewrite <- (Forall2_length _ _ _ F), length_zip, length_seq, Nat.min_id.
    + destruct (tensors h0 !! q) as [t|] eqn:Et; [|done]. injection Tq as Tq. exists t. split; [|done].
      eapply (read_io_lookup h0 _ _ _ 0%nat _ _ _ Ei); [by rewrite (el_input_names _ _ _ Hel)| |exact Et].
      by rewrite (el_inputs _ _ _ Hel), Eq.
    + destruct (tensors h0 !! ii_value (decoder_input_ids_ w0)) as [t|] eqn:Et; [|done]. injection T0 as T0. exists t. split; [|done].
      eapply (read_io_lookup h0 _ _ _ 1%nat _ _ _ Ei); [by rewrite (el_input_names _ _ _ Hel)| |exact Et].
      by rewrite (el_inputs _ _ _ Hel).
    + by exists scores.
    + intros k toks beams Hk.
      destruct (Forall2_lookup_l _ _ _ _ _ F (zip_seq_lookup _ 1 _ _ Hk)) as (sc & Es & ins & outs & [Ht Hx] & Hr).
      exists sc, ins, outs. split; [exact Es|]. split; [exact Hr|]. split; [exact Ht|].
      intros x i a b [Hn1 Hn2] Ha Hb. destruct Hxn as [Hm1 Hm2]. cbv zeta in Hn1, Hn2. fold x0 in Hm1, Hm2.
      assert (cross_input_names x0 = cross_input_names x ∧ cross_output_names x0 = cross_output_names x) as [N1 N2] by (split; congruence).
      rewrite <- N1 in Ha. rewrite <- N2 in Hb.
      destruct (Hx i a Ha) as (j & t & Ej & Ed). unfold ds in Ed. rewrite lookup_drop in Ed.
      destruct (encoder_cross_output _ _ w0 h0 eouts i b Hok0 Hel Eo Hb) as [t' Ee].
      exists j, t, (2 + slots (w_kv_cache_ w0) + i)%nat, t'. done.
    + by do 2 (eapply replaces_trans; [eassumption|]).
Qed.
End theorem.

(** ** Concrete runs *)
Module Examples.
Import Decoders.Examples.

Definition ex_whisper_decoder : Config.Decoder :=
  set_dec_outputs (set_cross_present_key_names "cross_present.%d.key" (set_cross_present_value_names "cross_present.%d.value" DecoderOutputs_default))
    (set_dec_inputs (set_cross_past_key_names "cross_past.%d.key" (set_cross_past_value_names "cross_past.%d.value" DecoderInputs_default))
      (set_num_key_value_heads 1 (set_head_size 2 (set_num_hidden_layers 1 Decoder_default)))).
Definition ex_whisper : model := mkModelCtx (set_model (set_decoder ex_whisper_decoder Model_default) Config_default)
  (mkSessionInfo (list_to_map [("input_ids", T_INT32); ("past_key_values.0.key", T_FLOAT); ("cross_past.0.key", T_FLOAT)]%string)
     (list_to_map [("logits"%string, T_FLOAT)])) CPU.
Definition ex_encoder_info : SessionInfo := mkSessionInfo ∅ {[hidden_name := T_FLOAT]}.
(* two rows of features *)
Definition ex_mel : OrtValue := mkOrt T_FLOAT [2; 1; 2]%nat [1; 2; 3; 4].
Definition ex_whisper_heap : heap := fst (new_tensor ex_mel Inputs.Examples.ex_heap0).

Lemma ex_whisper_setup : whisper_setup ex_session ex_session ex_encoder_info ex_whisper ex_p T_FLOAT T_FLOAT 0%nat 2 [1; 2]%nat [1; 2; 3; 4]
  [] (replicate 2 None) ex_whisper_heap [([7; 8], []); ([9; 6], [])].
Proof.
  destruct ex_setup as [_ _ Hg Hp _ _ Ht He _ Hlen _ _].
  destruct (new_tensor_replaces Inputs.Examples.ex_heap0 ex_mel Inputs.Examples.ex_heap0_ok eq_refl) as [R T].
  split; try done.
  - exact ex_session_law.
  - exact ex_session_law.
  - split.
    + exists T_INT32. split; [done|by left].
    + by split; [|left].
    + by exists T_FLOAT.
    + split; [vm_compute; discriminate|]. eexists _, _, _, _. split; [reflexivity|]. by split.
    + split; [vm_compute; discriminate|]. eexists _, _, _, _. split; [reflexivity|]. by split.
  - repeat constructor; vm_compute; done.
  - apply R.
  - by exists 4.
  - repeat constructor; try (left; done); vm_compute; done.
Qed.

(* the second decoder run: a score per word of the vocabulary, all the first token *)
Lemma Whisper_Runs_spec_witness : ∃ w0 l h0 all w h scores,
  Whisper_State_new ex_encoder_info ex_whisper ex_p (Some (Some 0%nat)) (replicate 2 None) ex_whisper_heap = Ok (w0, None, l, h0) ∧
  Runs (Whisper_Run Tensors.Examples.no_oversize ex_session ex_session ex_whisper ex_p) 3
    [([], []); ([7; 8], []); ([9; 6], [])] ∅ w0 h0 = Ok (all, ∅, w, h) ∧
  l = [Some 3; Some 3] ∧ all !! 2%nat = Some scores ∧ length scores = 8%nat.
Proof.
  destruct (Whisper_Runs_spec Tensors.Examples.no_oversize ex_session ex_session ex_encoder_info ex_whisper ex_p T_FLOAT T_FLOAT 0%nat 2
    [1; 2]%nat [1; 2; 3; 4] [] (replicate 2 None) ex_whisper_heap ∅ ([], []) [([7; 8], []); ([9; 6], [])] ex_whisper_setup)
    as (w0 & left & h0 & all & w & h & eins & eouts & E0 & (q & _ & [-> _]) & E & _ & _ & _ & _ & H & _).
  destruct (H 1%nat _ _ eq_refl) as (scores & ins & outs & Es & (raw & _ & L & _) & _).
  exists w0, [Some 3; Some 3], h0, all, w, h, scores.
  split; [exact E0|]. split; [exact E|]. split; [reflexivity|]. split; [exact Es|exact L].
Defined.
End Examples.
