(* ===== verification/Vision.v ===== *)
(** * The multi-modal vision model (src/models/multi_modal_vision_model.h and .cpp)

    Three sessions behind one state: an embedding model makes embeddings of the
    token ids, a vision model features of the image, which [Select] puts in the
    place of the image's tokens, and a decoder is run on the embeddings.  The
    decoder's first input is a borrowed pointer to the embedding model's output;
    it dangles from the moment that output is replaced until it is set again.
    The theorems are about the CPU build without captured graphs. *)
From Stdlib Require Import ZArith Lia.
From stdpp Require Import base numbers list strings gmap pretty.
From S2P Require Import Prelude Float32 Config Tensors Params GraphPool State Inputs KVCache Logits Decoders.
Local Open Scope Z_scope.

Definition vision_of (m : model) : Vision := vision (Config.model (config_ m)).
Definition embedding_of (m : model) : Embedding := embedding (Config.model (config_ m)).

(** ** Images *)
(* int64_t arithmetic *)
Definition chk64 (z : Z) : outcome Z := if decide (- 2 ^ 63 <= z < 2 ^ 63) then Ok z else Undef.

Definition min_input_id : Z := -1000000000.

(* the loop over the token ids: the first image token, or 0 *)
Fixpoint image_position_from (idx : Z) (input_ids : list Z) : Z :=
  match input_ids with
  | [] => 0
  | t :: l => if (t <? 0) && (min_input_id <? t) then i32 idx else image_position_from (idx + 1) l
  end.
Definition image_position_start (input_ids : list Z) : Z := image_position_from 0 input_ids.

Definition Select (input_ids : list Z) (hidden_states visual_features : ptr) (num_img_tokens hidden_size : Z) (device : DeviceType) (h : heap)
  : outcome heap :=
  start_pos ← chk32 (image_position_start input_ids * hidden_size);
  count ← chk32 (num_img_tokens * hidden_size);
  hidden_states_element_count ← chk32 (i32 (Z.of_nat (length input_ids)) * hidden_size);
  match device with
  | CPU =>
      t ← deref h hidden_states; v ← deref h visual_features;
      (* float * to the memory of both *)
      _ ← assert_ (bool_decide (element_type t = T_FLOAT) && bool_decide (element_type v = T_FLOAT));
      states ← subspanZ (data t) 0 hidden_states_element_count;
      _ ← subspanZ states start_pos count;
      source ← subspanZ (data v) 0 count;
      d ← blit (data t) (Z.to_nat start_pos) source;
      set_data hidden_states d h
  | _ => Throw (RuntimeError "Unsupported device type for Select.")
  end.

Fixpoint find_input (name : string) (l : list Input) : option Input :=
  match l with [] => None | x :: l => if String.eqb (in_name x) name then Some x else find_input name l end.

Definition GetNumImageTokens (extra_inputs : list Input) (image_sizes_name : string) (h : heap) : outcome Z :=
  match find_input image_sizes_name extra_inputs with
  | None => Ok 0
  | Some x =>
      t ← deref h (in_tensor x);
      if decide (shape t ≠ [1; 2]%nat) then Throw (RuntimeError "image_sizes tensor must have 2 elements") else
      _ ← assert_ (bool_decide (element_type t = T_INT64));
      a ← get (data t) 0; b ← get (data t) 1;
      let hh := Z.quot a 336 in
      let w := Z.quot b 336 in
      hw ← chk64 (hh * w); hw ← chk64 (hw + 1); hw ← chk64 (hw * 144); hw ← chk64 (hw + 1);
      rows ← chk64 (hh + 1); rows ← chk64 (rows * 12);
      chk64 (hw + rows)
  end.

Definition GetVisualFeatures (session_info : SessionInfo) (visual_features_name : string) (hidden_size num_image_tokens : Z) (h : heap)
  : outcome (heap * ptr) :=
  if negb (HasOutput session_info visual_features_name) then Throw (RuntimeError "Visual features output not found in the model") else
  type ← GetOutputDataType session_info visual_features_name;
  let shape := [1%nat; Z.to_nat num_image_tokens; Z.to_nat hidden_size] in
  match type with
  | T_FLOAT => Ok (CreateTensor shape T_FLOAT h)
  | T_FLOAT16 => Ok (CreateTensor shape T_FLOAT16 h)
  | _ => Throw (RuntimeError ("Unsupported data type for visual features: " +:+ pretty (type_number type)))
  end.

(** ** The three states *)
Record EmbeddingState := mkEmbeddingState {
  es_state : State;
  es_input_ids_ : InputIDs;
  es_inputs_embeds_ : Embeddings }.

Record VisionState := mkVisionState {
  vs_state : State;
  vs_extra_inputs_ : ExtraInputs;
  visual_features_ : option ptr;
  num_image_tokens_ : Z }.

Record DecoderState := mkVisionDecoder {
  vd_state : State;
  vd_inputs_embeds_ : Embeddings;
  vd_position_inputs_ : PositionInputs;
  vd_kv_cache_ : Cache;
  vd_logits_ : Logits }.

Record MultiModalPipelineState := mkPipeline {
  embedding_state_ : EmbeddingState;
  vision_state_ : option VisionState;
  decoder_state_ : DecoderState;
  is_prompt_ : bool }.

Section vision.
Context (oversize : Z -> Z -> Z) (embedding_session vision_session decoder_session : session).
Context (m : model) (p : GeneratorParams) (graph : option CapturedGraphInfo).

Definition EmbeddingState_new (h : heap) : outcome (EmbeddingState * heap) :=
  '(ids, h) ← InputIDs_new m p h;
  '(e, h) ← Embeddings_new m p Output_ (eo_embeddings (emb_outputs (embedding_of m))) h;
  let '(ids, s) := InputIDs_Add ids State_new in
  let '(e, s) := Embeddings_Add e s in
  Ok (mkEmbeddingState s ids e, h).

Definition EmbeddingState_UpdateInputsAndOutputs (next_tokens : list Z) (es : EmbeddingState) (h : heap) : outcome (EmbeddingState * heap) :=
  '(ids, s, h) ← InputIDs_Update m next_tokens (es_input_ids_ es) (es_state es) h;
  '(e, s, h) ← UpdateSequenceLength (es_inputs_embeds_ es) s h;
  Ok (mkEmbeddingState s ids e, h).

Definition EmbeddingState_Run (o : run_options) (es : EmbeddingState) (h : heap) : outcome (run_options * EmbeddingState * heap) :=
  let batch_size := i32 (Z.of_nat (fst (ii_shape (es_input_ids_ es)))) in
  '(o, s, h) ← State_Run embedding_session p graph batch_size o (es_state es) h;
  Ok (o, mkEmbeddingState s (es_input_ids_ es) (es_inputs_embeds_ es), h).

Definition VisionState_new (h : heap) : outcome (VisionState * heap) :=
  let e := ExtraInputs_new p in
  s ← ExtraInputs_Add p e State_new;
  n ← GetNumImageTokens (extra_inputs p) (image_sizes (vis_inputs (vision_of m))) h;
  let num_image_tokens := i32 n in
  if 0 <? num_image_tokens then
    let name := visual_features (vis_outputs (vision_of m)) in
    '((h, q) : heap * ptr) ← GetVisualFeatures (session_info_ m) name (gp_hidden_size p) num_image_tokens h;
    Ok (mkVisionState (push_output name (Some q) s) e (Some q) num_image_tokens, h)
  else Ok (mkVisionState s e None num_image_tokens, h).

Definition VisionState_Run (o : run_options) (vs : VisionState) (h : heap) : outcome (run_options * VisionState * heap) :=
  '(o, s, h) ← State_Run vision_session p None 1 o (vs_state vs) h;
  Ok (o, mkVisionState s (vs_extra_inputs_ vs) (visual_features_ vs) (num_image_tokens_ vs), h).

(** The members in their order of declaration, then the inputs and outputs. *)
Definition DecoderState_new (sequence_lengths : list (option Z)) (h : heap) : outcome (DecoderState * list (option Z) * heap) :=
  '(e, h) ← Embeddings_new m p Input_ (embeddings (dec_in m)) h;
  '(pi, sequence_lengths, h) ← PositionInputs_new m p sequence_lengths h;
  '(c, h) ← KV_Cache_new m p h;
  '(g, h) ← Logits_new m p h;
  let '(e, s) := Embeddings_Add e State_new in
  let '(pi, s) := PositionInputs_Add m pi s in
  let '(g, s) := Logits_Add m g s in
  '(c, s) ← KV_Cache_Add c s;
  Ok (mkVisionDecoder s e pi c g, sequence_lengths, h).

Definition DecoderState_Run (o : run_options) (d : DecoderState) (h : heap) : outcome (list f32 * run_options * DecoderState * heap) :=
  let batch_size := i32 (Z.of_nat (em_shape (vd_inputs_embeds_ d)).1.1) in
  '(scores, o, s, g, h) ← run_logits oversize decoder_session m p graph batch_size o (vd_state d) (vd_logits_ d) h;
  Ok (scores, o, mkVisionDecoder s (vd_inputs_embeds_ d) (vd_position_inputs_ d) (vd_kv_cache_ d) g, h).

Definition DecoderState_UpdateInputsOutputs (current_length : Z) (beam_indices : list Z) (d : DecoderState) (h : heap)
  : outcome (DecoderState * heap) :=
  '(pi, s, h) ← PositionInputs_Update m current_length (vd_position_inputs_ d) (vd_state d) h;
  '(c, s, h) ← KV_Cache_Update beam_indices current_length (vd_kv_cache_ d) s h;
  '(g, s, h) ← Logits_Update (vd_logits_ d) s h;
  Ok (mkVisionDecoder s (vd_inputs_embeds_ d) pi c g, h).

(* decoder_state_->inputs_embeds_.ReuseEmbeddingsBuffer(embedding_state_->inputs_embeds_) *)
Definition reuse_embeddings (es : EmbeddingState) (d : DecoderState) : outcome DecoderState :=
  s ← ReuseEmbeddingsBuffer (vd_inputs_embeds_ d) (es_inputs_embeds_ es) (vd_state d) (es_state es);
  Ok (mkVisionDecoder s (vd_inputs_embeds_ d) (vd_position_inputs_ d) (vd_kv_cache_ d) (vd_logits_ d)).

(** ** The pipeline *)
Definition MultiModalPipelineState_new (sequence_lengths : list (option Z)) (h : heap)
  : outcome (MultiModalPipelineState * list (option Z) * heap) :=
  '(es, h) ← EmbeddingState_new h;
  '(vs, h) ← VisionState_new h;
  '(d, sequence_lengths, h) ← DecoderState_new sequence_lengths h;
  Ok (mkPipeline es (Some vs) d true, sequence_lengths, h).

(* the vision model and [Select], when there is an image *)
Definition run_vision (o : run_options) (es : EmbeddingState) (vs : VisionState) (h : heap) : outcome (run_options * VisionState * heap) :=
  if 0 <? num_image_tokens_ vs then
    '(o, vs, h) ← VisionState_Run o vs h;
    hidden ← initialised (embeddings_ (es_inputs_embeds_ es)); features ← initialised (visual_features_ vs);
    h ← Select (prompt p) hidden features (num_image_tokens_ vs) (gp_hidden_size p) (device_type p) h;
    Ok (o, vs, h)
  else Ok (o, vs, h).

Definition MultiModalPipelineState_Run (current_length : Z) (next_tokens next_indices : list Z) (o : run_options)
    (pl : MultiModalPipelineState) (h : heap) : outcome (list f32 * run_options * MultiModalPipelineState * heap) :=
  if is_prompt_ pl then
    '(o, es, h) ← EmbeddingState_Run o (embedding_state_ pl) h;
    vs ← initialised (vision_state_ pl);
    '(o, vs, h) ← run_vision o es vs h;
    d ← reuse_embeddings es (decoder_state_ pl);
    '(logits, o, d, h) ← DecoderState_Run o d h;
    (* vision_state_.reset() *)
    Ok (logits, o, mkPipeline es None d false, free (visual_features_ vs) h)
  else
    '(es, h) ← EmbeddingState_UpdateInputsAndOutputs next_tokens (embedding_state_ pl) h;
    '(d, h) ← DecoderState_UpdateInputsOutputs current_length next_indices (decoder_state_ pl) h;
    '(o, es, h) ← EmbeddingState_Run o es h;
    d ← reuse_embeddings es d;
    '(logits, o, d, h) ← DecoderState_Run o d h;
    Ok (logits, o, mkPipeline es (vision_state_ pl) d (is_prompt_ pl), h).
End vision.

(** ** Properties *)
(** *** The image *)
(* the tokens of an image of [a] by [b] pixels *)
Definition image_tokens (a b : Z) : Z := (a / 336 * (b / 336) + 1) * 144 + 1 + (a / 336 + 1) * 12.

Lemma chk64_ok z : 0 <= z < 2 ^ 63 -> chk64 z = Ok z.
Proof. intros H. unfold chk64. rewrite decide_True by lia. done. Qed.

Lemma GetNumImageTokens_ok l name h x a b : find_input name l = Some x ->
  tensors h !! in_tensor x = Some (mkOrt T_INT64 [1; 2]%nat [a; b]) -> 0 <= a -> 0 <= b -> image_tokens a b <= INT_MAX ->
  GetNumImageTokens l name h = Ok (image_tokens a b) ∧ 0 < image_tokens a b.
Proof.
  intros E T Ha Hb. unfold image_tokens. pose proof (Z.div_pos a 336 Ha ltac:(lia)) as Hx. pose proof (Z.div_pos b 336 Hb ltac:(lia)) as Hy.
  intros Hmax. unfold GetNumImageTokens. rewrite E, (deref_Some _ _ _ T), bind_Ok. cbn [shape element_type data].
  rewrite decide_False by (intros H; by apply H).
  change (assert_ _) with (Ok () : outcome unit).
  change (get [a; b] 0) with (Ok a : outcome Z). change (get [a; b] 1) with (Ok b : outcome Z). rewrite !bind_Ok. cbv zeta.
  rewrite !Z.quot_div_nonneg by lia.
  set (x0 := a / 336) in *. set (y := b / 336) in *. unfold INT_MAX in Hmax. pose proof (Z.mul_nonneg_nonneg x0 y Hx Hy) as Hxy.
  rewrite (chk64_ok (x0 * y)), bind_Ok by lia. rewrite (chk64_ok (x0 * y + 1)), bind_Ok by lia.
  rewrite (chk64_ok ((x0 * y + 1) * 144)), bind_Ok by lia. rewrite (chk64_ok ((x0 * y + 1) * 144 + 1)), bind_Ok by lia.
  rewrite (chk64_ok (x0 + 1)), bind_Ok by lia. rewrite (chk64_ok ((x0 + 1) * 12)), bind_Ok by lia. rewrite chk64_ok by lia.
  split; [f_equal; lia|lia].
Qed.

Lemma image_position_from_bound l : ∀ idx, 0 <= idx -> idx + Z.of_nat (length l) <= INT_MAX ->
  image_position_from idx l = 0 ∨ idx <= image_position_from idx l < idx + Z.of_nat (length l).
Proof.
  induction l as [|t l IH]; intros idx Hi Hmax; [by left|]. simpl length in *. cbn [image_position_from].
  destruct ((t <? 0) && (min_input_id <? t)).
  - right. unfold INT_MAX in Hmax. rewrite i32_id by (unfold INT_MIN, INT_MAX; lia). lia.
  - destruct (IH (idx + 1)) as [->|H]; [lia|lia|by left|right; lia].
Qed.

Lemma image_position_bound l : l ≠ [] -> Z.of_nat (length l) <= INT_MAX -> 0 <= image_position_start l < Z.of_nat (length l).
Proof.
  intros Hne Hmax. assert (0 < length l)%nat by (destruct l; simpl; [done|lia]). unfold image_position_start.
  destruct (image_position_from_bound l 0 ltac:(lia) ltac:(lia)) as [->|]; lia.
Qed.

(* where the features go *)
Definition image_offset (p : GeneratorParams) : nat := (Z.to_nat (image_position_start (prompt p)) * Z.to_nat (gp_hidden_size p))%nat.

Lemma Select_ok p q vq n h sh vsh raw features : (0 < n)%nat -> 0 <= gp_hidden_size p -> device_type p = CPU ->
  tensors h !! q = Some (mkOrt T_FLOAT sh raw) -> tensors h !! vq = Some (mkOrt T_FLOAT vsh features) ->
  length features = (n * Z.to_nat (gp_hidden_size p))%nat ->
  (length (prompt p) * Z.to_nat (gp_hidden_size p) <= length raw)%nat -> Z.of_nat (length (prompt p)) <= INT_MAX ->
  Z.of_nat (length (prompt p)) * gp_hidden_size p <= INT_MAX ->
  image_position_start (prompt p) + Z.of_nat n <= Z.of_nat (length (prompt p)) ->
  Select (prompt p) q vq (Z.of_nat n) (gp_hidden_size p) (device_type p) h =
    set_data q (list_inserts (image_offset p) features raw) h.
Proof.
  intros Hn HH -> Tq Tv Lf Lr Hlen Hmax Hfit. set (H := gp_hidden_size p) in *. set (L := length (prompt p)) in *.
  assert (prompt p ≠ []) as Hne by (intros E; unfold L in Hfit; rewrite E in Hfit; simpl in Hfit; unfold image_position_start in Hfit; simpl in Hfit; lia).
  pose proof (image_position_bound _ Hne Hlen) as Hpos. fold L in Hpos. set (i := image_position_start (prompt p)) in *.
  assert (i * H + Z.of_nat n * H <= Z.of_nat L * H) as Hb by nia. assert (0 <= i * H) by nia. assert (0 <= Z.of_nat n * H) by nia.
  unfold INT_MAX in *. unfold Select. fold i L.
  rewrite (chk32_ok (i * H)), bind_Ok by (unfold INT_MIN, INT_MAX; lia). rewrite (chk32_ok (Z.of_nat n * H)), bind_Ok by (unfold INT_MIN, INT_MAX; lia).
  rewrite i32_id by (unfold INT_MIN, INT_MAX; lia). rewrite (chk32_ok (Z.of_nat L * H)), bind_Ok by (unfold INT_MIN, INT_MAX; lia).
  rewrite (deref_Some _ _ _ Tq), bind_Ok, (deref_Some _ _ _ Tv), bind_Ok. cbn [element_type data].
  change (assert_ _) with (Ok () : outcome unit). rewrite bind_Ok.
  assert (Z.of_nat L * H = Z.of_nat (L * Z.to_nat H)) as EL by (rewrite Nat2Z.inj_mul; lia).
  assert (Z.of_nat n * H = Z.of_nat (n * Z.to_nat H)) as EN by (rewrite Nat2Z.inj_mul; lia).
  assert (∀ l off cnt, 0 <= off -> 0 <= cnt -> off + cnt <= Z.of_nat (length l) ->
    subspanZ l off cnt = Ok (take (Z.to_nat cnt) (drop (Z.to_nat off) l) : list Z)) as Hsub.
  { intros l off cnt X1 X2 X3. unfold subspanZ. rewrite decide_True by lia. apply subspan_le. lia. }
  rewrite (Hsub raw), bind_Ok by lia. rewrite skipn_O, (Hsub (take _ raw)), bind_Ok by (rewrite ?length_take; lia).
  rewrite (Hsub features), bind_Ok, skipn_O, take_ge by lia.
  assert (image_offset p = Z.to_nat (i * H)) as EO by (unfold image_offset; fold i H; rewrite Z2Nat.inj_mul by lia; done).
  rewrite blit_le by lia. by rewrite bind_Ok, EO.
Qed.

(** *** The embedding model *)
Section vision_ok.
Context (oversize : Z -> Z -> Z) (fe fv fd : session) {He : SessionLaw fe} {Hv : SessionLaw fv} {Hd : SessionLaw fd}.
Context (m : model) (p : GeneratorParams) (graph : option CapturedGraphInfo) (Hdev : device_type_ m = CPU) (Hp : params_ok p).
Context (Hg : use_cuda_graph p = false).
Context (lty ety : ONNXTensorElementDataType).
Let v := Z.to_nat (gp_vocab_size p).
Let hidden := Z.to_nat (gp_hidden_size p).
Let si := session_info_ m.
Let embeds_name := eo_embeddings (emb_outputs (embedding_of m)).

(* what the embedding state owns; its output is [q] *)
Definition embed_ptrs (es : EmbeddingState) : list ptr := ii_value (es_input_ids_ es) :: own [embeddings_ (es_inputs_embeds_ es)].

Record embed_ok (seq : nat) (q : ptr) (es : EmbeddingState) (h : heap) : Prop := {
  eb_value : embeddings_ (es_inputs_embeds_ es) = Some q;
  eb_index : em_index (es_inputs_embeds_ es) = O;
  eb_mode : mode_ (es_inputs_embeds_ es) = Output_;
  eb_type : em_type (es_inputs_embeds_ es) = ety;
  eb_shape : em_shape (es_inputs_embeds_ es) = (beam_rows p, seq, hidden);
  eb_tensor : ∃ d, tensors h !! q = Some (mkOrt ety [beam_rows p; seq; hidden] d);
  eb_ids : ids_ok (es_input_ids_ es) (es_state es) h [] [];
  eb_rows : fst (ii_shape (es_input_ids_ es)) = beam_rows p;
  eb_names : input_names_ (es_state es) = [input_ids (dec_in m)] ∧ output_names_ (es_state es) = [embeds_name];
  eb_outputs : outputs_ (es_state es) = [Some q] }.

Lemma embed_frame seq q es h h' : embed_ok seq q es h -> kinds_on [ii_value (es_input_ids_ es); q] h h' -> embed_ok seq q es h'.
Proof.
  intros [] Hk. split; try done.
  - destruct eb_tensor0 as [d T]. destruct (Hk q _ ltac:(set_solver) T) as [d' T']. by exists d'.
  - eapply ids_ok_frame; [done|]. intros r t Hr. apply Hk. set_solver.
Qed.

Lemma embed_update_ok toks seq q es h : embed_ok seq q es h -> live h (embed_ptrs es) -> length toks = beam_rows p ->
  ∃ es' q' h', EmbeddingState_UpdateInputsAndOutputs m toks es h = Ok (es', h') ∧ embed_ok 1 q' es' h' ∧
    replaces h h' (embed_ptrs es) (embed_ptrs es') ∧ data <$> tensors h' !! ii_value (es_input_ids_ es') = Some toks.
Proof.
  intros [] L Htoks. destruct es as [s ids e]. unfold embed_ptrs in *. cbn [es_state es_input_ids_ es_inputs_embeds_] in *.
  unfold EmbeddingState_UpdateInputsAndOutputs. cbn [es_state es_input_ids_ es_inputs_embeds_]. rewrite eb_value0 in L |- *.
  destruct (InputIDs_Update_ok m toks ids s h [] [] Hdev (live_sub h [_] _ L) eb_ids0 ltac:(congruence))
    as (ids1 & h1 & -> & R1 & Sh1 & Ty1 & Ix1 & _ & T1).
  rewrite bind_Ok. cbv beta iota. destruct (replaces_at _ _ _ _ [] (own [Some q]) R1 L) as [Q1 K1].
  pose proof (rp_live _ _ _ _ Q1) as L1. cbn [app] in Q1, K1, L1.
  assert (∀ h', tensors h' !! ii_value ids1 = tensors h1 !! ii_value ids1 ->
    ids_ok ids1 (with_inputs [Some (ii_value ids1)] s) h' [] [] ∧ data <$> tensors h' !! ii_value ids1 = Some toks) as Hids.
  { intros h' E. rewrite E, T1. split; [|done]. split; [by rewrite Ix1; apply eb_ids0|done|by rewrite Ty1; apply eb_ids0|].
    rewrite E, T1, Sh1, Ty1. by exists toks. }
  unfold UpdateSequenceLength. rewrite eb_shape0. case_decide as Hs.
  - subst seq. rewrite bind_Ok. eexists _, q, h1. split; [reflexivity|]. cbn [es_state es_input_ids_ es_inputs_embeds_]. rewrite eb_value0.
    destruct (Hids h1 eq_refl) as [I1 I2]. split; [|done]. split; cbn [es_state es_input_ids_ es_inputs_embeds_]; try done; [|by rewrite Sh1].
    destruct eb_tensor0 as [d T]. exists d. rewrite K1 by by left. exact T.
  - rewrite eb_mode0, eb_type0. destruct (make_tensor h1 [beam_rows p; 1%nat; hidden] ety ltac:(apply L1)) as (h2 & r & d & -> & R2 & T2 & _).
    rewrite eb_value0, eb_index0. destruct (replaces_with h1 h2 q r [ii_value ids1] [] L1 R2) as (Q3 & T3 & K3).
    rewrite (set_output_seg _ [] (Some q) [] 0 (Some r)) by done. rewrite !bind_Ok.
    eexists _, r, _. split; [reflexivity|]. cbn [es_state es_input_ids_ es_inputs_embeds_ embeddings_].
    destruct (Hids (free (Some q) h2) (K3 _ ltac:(by left))) as [I1 I2]. split; [|split; [by eapply replaces_trans|done]].
    split; cbn [es_state es_input_ids_ es_inputs_embeds_ embeddings_ em_index mode_ em_type em_shape]; try done; [|by destruct I1|by rewrite Sh1].
    exists d. by rewrite T3.
Qed.

Lemma embed_run_ok ps seq q o es h toks : embed_ok seq q es h -> live h ps -> embed_ptrs es ⊆ ps ->
  data <$> tensors h !! ii_value (es_input_ids_ es) = Some toks ->
  ∃ es' h' t eouts raw, EmbeddingState_Run fe p graph o es h = Ok (o, es', h') ∧ embed_ok seq q es' h' ∧
    es_input_ids_ es' = es_input_ids_ es ∧ es_inputs_embeds_ es' = es_inputs_embeds_ es ∧ replaces h h' ps ps ∧
    (∀ r, r ≠ q -> tensors h' !! r = tensors h !! r) ∧
    data t = toks ∧ fe o [(input_ids (dec_in m), t)] eouts !! O = Some raw ∧
    tensors h' !! q = Some (mkOrt ety [beam_rows p; seq; hidden] raw).
Proof.
  intros Hok L Hsub Htoks. pose proof Hok as []. destruct eb_names0 as [En Eon]. destruct eb_ids0 as [_ Ei _ _]. cbn [app] in Ei.
  unfold embed_ptrs in Hsub. rewrite eb_value0 in Hsub.
  assert (io_ok ps (es_state es)) as Hio.
  { unfold owned_ptrs. split; rewrite ?En, ?Eon, ?Ei, ?eb_outputs0; [| |done|done]; apply Forall_singleton; eexists; (split; [reflexivity|apply Hsub; set_solver]). }
  unfold EmbeddingState_Run. set (b := i32 _).
  destruct (State_Run_live fe p graph b o (es_state es) h ps He L Hio Hg)
    as (s' & h' & -> & -> & (ins & outs & Er & Eo & Hdata) & R & Hkinds & Hkeep).
  rewrite bind_Ok. cbv beta iota. rewrite En, Ei in Er. rewrite Eon, eb_outputs0 in Eo. rewrite eb_outputs0 in Hdata, Hkeep.
  destruct eb_tensor0 as [d0 T0]. destruct (tensors h !! ii_value (es_input_ids_ es)) as [t|] eqn:Et; [|done]. injection Htoks as <-.
  cbn [read_io] in Er, Eo. rewrite (deref_Some _ _ _ Et), !bind_Ok in Er. rewrite (deref_Some _ _ _ T0), !bind_Ok in Eo.
  injection Er as <-. injection Eo as <-.
  pose proof (session_results (f := fe) o [(input_ids (dec_in m), t)] [(embeds_name, mkOrt ety [beam_rows p; seq; hidden] d0)]) as Hlaw.
  apply Forall2_cons_inv_r in Hlaw as (raw & [|] & _ & Hnil & Eraw); [|by inversion Hnil]. rewrite Eraw in Hdata.
  specialize (Hdata ltac:(repeat constructor; set_solver) 0%nat q raw eq_refl eq_refl).
  assert (tensors h' !! q = Some (mkOrt ety [beam_rows p; seq; hidden] raw)) as Tq.
  { destruct (Hkinds q _ T0) as [d1 T1]. rewrite T1 in Hdata |- *. by injection Hdata as ->. }
  eexists _, h', t, _, raw. split; [reflexivity|]. split; [|split; [done|split; [done|split; [exact R|split; [|split; [done|]]]]]].
  - eapply (embed_frame _ _ _ _ h') in Hok; [|by apply same_kinds_on]. destruct Hok as [E1 E2 E3 E4 E5 E6 [] E8 E9 E10]. by split; [..|split| | |].
  - intros r Hr. apply Hkeep. set_solver.
  - by rewrite Eraw.
Qed.

(** *** The vision model *)
Context (ext : list ptr) (Hext : owned_ptrs ext (extra_ptrs p)).
Let vname := visual_features (vis_outputs (vision_of m)).
Let sizes := find_input (image_sizes (vis_inputs (vision_of m))) (extra_inputs p).

(** There is no image, or one whose [n] tokens fit into the prompts. *)
Record image_fits (n : nat) : Prop := {
  im_some : (0 < n)%nat;
  im_fits : image_position_start (prompt p) + Z.of_nat n <= Z.of_nat (length (prompt p));
  im_hidden : 0 <= gp_hidden_size p;
  im_length : Z.of_nat (length (prompt p)) <= INT_MAX;
  im_small : Z.of_nat (length (prompt p)) * gp_hidden_size p <= INT_MAX;
  im_device : device_type p = CPU;
  im_embeds : ety = T_FLOAT;
  im_features : GetOutputDataType si vname = Ok T_FLOAT }.
Definition image (n : nat) (h : heap) : Prop := (n = O ∧ sizes = None) ∨
  (image_fits n ∧ ∃ x a b, sizes = Some x ∧ tensors h !! in_tensor x = Some (mkOrt T_INT64 [1; 2]%nat [a; b]) ∧
    0 <= a ∧ 0 <= b ∧ Z.of_nat n = image_tokens a b).

(* the vision state before its run, with the user's tensors [vins] *)
Record vision_ok (n : nat) (vins : list (string * OrtValue)) (vs : VisionState) (h : heap) : Prop := {
  vo_tokens : num_image_tokens_ vs = Z.of_nat n;
  vo_input_names : input_names_ (vs_state vs) = map in_name (extra_inputs p);
  vo_inputs : inputs_ (vs_state vs) = extra_ptrs p;
  vo_read : read_io h (map in_name (extra_inputs p)) (extra_ptrs p) = Ok vins;
  vo_none : n = O -> visual_features_ vs = None;
  vo_features : n ≠ O -> ∃ q d, visual_features_ vs = Some q ∧ outputs_ (vs_state vs) = [Some q] ∧
    output_names_ (vs_state vs) = [vname] ∧ tensors h !! q = Some (mkOrt T_FLOAT [1%nat; n; hidden] d) }.

Lemma VisionState_new_ok n h : live h ext -> image n h ->
  ∃ vs h' vins, VisionState_new m p h = Ok (vs, h') ∧ replaces h h' [] (own [visual_features_ vs]) ∧ vision_ok n vins vs h' ∧
    read_io h (map in_name (extra_inputs p)) (extra_ptrs p) = Ok vins.
Proof.
  intros L Him. unfold VisionState_new. rewrite ExtraInputs_Add_ok, bind_Ok. set (s := mkState _ _ _ _ _ _).
  destruct (read_io_live h ext (map in_name (extra_inputs p)) (extra_ptrs p) L Hext) as (vins & Er & _);
    [unfold extra_ptrs; by rewrite !length_map|].
  destruct Him as [[-> Hno]|[[] (x & a & b & Es & Tx & Ha & Hb & En)]].
  - unfold GetNumImageTokens. unfold sizes in Hno. rewrite Hno, bind_Ok. change (0 <? i32 0) with false. cbv beta iota.
    eexists _, h, vins. split; [reflexivity|]. split; [by apply replaces_refl, (live_sub h [] ext L)|]. split; [|done]. by split.
  - assert (Z.of_nat n <= INT_MAX) as Hn.
    { unfold image_position_start in im_fits0. clear -im_fits0 im_length0.
      destruct (image_position_from_bound (prompt p) 0 ltac:(lia) ltac:(lia)); lia. }
    destruct (GetNumImageTokens_ok (extra_inputs p) _ h x a b Es Tx Ha Hb ltac:(lia)) as [-> Hpos]. rewrite bind_Ok, <- En.
    unfold INT_MAX in Hn. rewrite i32_id by (unfold INT_MIN, INT_MAX; lia). rewrite (proj2 (Z.ltb_lt _ _)) by lia.
    unfold GetVisualFeatures. rewrite Nat2Z.id. unfold vname, si in im_features0.
    assert (HasOutput (session_info_ m) (visual_features (vis_outputs (vision_of m))) = true) as ->.
    { unfold HasOutput, GetOutputDataType in *. destruct (si_outputs _ !! _); [by rewrite bool_decide_true by eauto|done]. }
    cbn [negb]. rewrite im_features0, bind_Ok.
    destruct (make_tensor h [1%nat; n; Z.to_nat (gp_hidden_size p)] T_FLOAT ltac:(apply L)) as (h' & q & d & -> & R & T & _).
    rewrite bind_Ok. eexists _, h', vins. split; [reflexivity|]. split; [exact R|]. split; [|done].
    split; try done.
    + rewrite <- Er. apply (read_io_kept ext); [|exact Hext]. intros r Hr. by apply (replaces_keeps h h' [] [q] ext r R).
    + intros ->. lia.
    + intros _. exists q, d. done.
Qed.

(* the features of the image, and what becomes of the embeddings *)
Definition features_of (n : nat) (vins : list (string * OrtValue)) (o : run_options) (features : list Z) : Prop :=
  match n with O => features = [] | S _ => ∃ vouts, fv o vins vouts !! O = Some features end.

Lemma run_vision_ok ps n vins q (o : run_options) es vs h raw : n = O ∨ image_fits n -> embed_ok (p_seq p) q es h -> vision_ok n vins vs h ->
  live h ps -> embed_ptrs es ++ own [visual_features_ vs] ++ ext ⊆+ ps ->
  tensors h !! q = Some (mkOrt ety [beam_rows p; p_seq p; hidden] raw) ->
  ∃ vs' h' features, run_vision fv p o es vs h = Ok (o, vs', h') ∧ visual_features_ vs' = visual_features_ vs ∧
    replaces h h' ps ps ∧ (∀ r, r ≠ q -> visual_features_ vs ≠ Some r -> tensors h' !! r = tensors h !! r) ∧
    features_of n vins o features ∧
    tensors h' !! q = Some (mkOrt ety [beam_rows p; p_seq p; hidden] (list_inserts (image_offset p) features raw)).
Proof.
  intros Hn Hok [Hnum Hin Hio Hread Hnone Hsome] L Hsub Tq. unfold run_vision. rewrite Hnum. destruct n as [|n].
  { change (0 <? Z.of_nat 0) with false. cbv iota. exists vs, h, []. do 2 (split; [done|]). split; [by apply replaces_refl|]. done. }
  destruct Hn as [?|[]]; [done|]. rewrite (proj2 (Z.ltb_lt _ _)) by lia. destruct (Hsome ltac:(done)) as (vq & d & Ev & Eo & Eon & Tv).
  unfold embed_ptrs in Hsub. rewrite (eb_value _ _ _ _ Hok), Ev in Hsub. clear Hsome Hnone.
  assert (∀ r, r ∈ ii_value (es_input_ids_ es) :: q :: vq :: ext -> r ∈ ps) as Hps by (intros r Hr; eapply elem_of_submseteq; [exact Hr|exact Hsub]).
  assert (q ≠ vq) as Hne.
  { destruct L as (_ & Hnd & _). destruct (submseteq_Permutation _ _ Hsub) as [rest HP]. rewrite HP in Hnd. simpl in Hnd.
    apply NoDup_cons in Hnd as [_ Hnd]. apply NoDup_cons in Hnd as [Hnd _]. set_solver. }
  assert (io_ok ps (vs_state vs)) as Hiook.
  { split; rewrite ?Hin, ?Hio, ?Eo, ?Eon; [|apply Forall_singleton; exists vq; split; [done|apply Hps; set_solver]|unfold extra_ptrs; by rewrite !length_map|done].
    eapply owned_mono; [|exact Hext]. intros r Hr. apply Hps. set_solver. }
  unfold VisionState_Run. destruct (State_Run_live fv p None 1 o (vs_state vs) h ps Hv L Hiook Hg)
    as (s' & h1 & -> & -> & (ins & outs & Er & Eouts & Hdata) & R1 & Hkinds & Hkeep).
  rewrite !bind_Ok. cbv beta iota. rewrite Hin, Hio, Hread in Er. injection Er as <-. rewrite Eon, Eo in Eouts. rewrite Eo in Hdata, Hkeep.
  cbn [read_io] in Eouts. rewrite (deref_Some _ _ _ Tv), !bind_Ok in Eouts. injection Eouts as <-.
  pose proof (session_results (f := fv) o vins [(vname, mkOrt T_FLOAT [1%nat; S n; hidden] d)]) as Hlaw.
  apply Forall2_cons_inv_r in Hlaw as (features & [|] & Lf & Hnil & Efeat); [|by inversion Hnil]. rewrite Efeat in Hdata. cbn [shape element_count] in Lf.
  specialize (Hdata ltac:(repeat constructor; set_solver) 0%nat vq features eq_refl eq_refl).
  destruct (Hkinds vq _ Tv) as [d1 Tv1]. rewrite Tv1 in Hdata. injection Hdata as ->. cbn [element_type shape] in Tv1.
  assert (tensors h1 !! q = Some (mkOrt T_FLOAT [beam_rows p; p_seq p; hidden] raw)) as Tq1.
  { rewrite (Hkeep q) by set_solver. by rewrite Tq, im_embeds0. }
  destruct (proj1 L q _ Tq) as [_ Lraw]. cbn [data shape element_count] in Lraw.
  cbn [visual_features_ num_image_tokens_]. rewrite (eb_value _ _ _ _ Hok), Ev. cbn [initialised]. rewrite !bind_Ok.
  assert (length (prompt p) * hidden <= length raw)%nat as Hlen.
  { rewrite Lraw, (po_prompt p Hp), Nat.mul_1_r. unfold beam_rows. pose proof (p_beams_pos p Hp). fold hidden. nia. }
  rewrite Hnum, (Select_ok p q vq (S n) h1 _ _ raw features) by (done || (cbn; lia) || (fold hidden; lia)).
  assert (q ∈ ps) as Hqin by (apply Hps; set_solver). apply list_elem_of_split in Hqin as (l1 & l2 & Eps). pose proof (rp_live _ _ _ _ R1) as L1.
  rewrite Eps in L1. destruct (set_data_at h1 q (list_inserts (image_offset p) features raw) _ l1 l2 L1 Tq1) as (h2 & Eset & R2 & T2 & _).
  { cbn [shape element_count]. by rewrite length_inserts. }
  rewrite Eset, bind_Ok. cbn [element_type shape] in T2. eexists _, h2, features. split; [reflexivity|]. split; [done|]. split; [|split; [|split]].
  - eapply replaces_trans; [exact R1|]. by rewrite Eps.
  - intros r Hr Hr2. rewrite (set_data_frame _ _ _ _ _ Eset) by done. apply Hkeep. set_solver.
  - cbn [features_of]. eexists. by rewrite Efeat.
  - by rewrite im_embeds0.
Qed.

(** *** The decoder *)
Let dname := embeddings (dec_in m).
Let layers := layers_ok m [past_key_names (dec_in m); past_value_names (dec_in m)] [present_key_names (dec_out m); present_value_names (dec_out m)].

(* what the session infos know *)
Record vision_io_ok : Prop := {
  vi_ids : ∃ ty, GetInputDataType si (input_ids (dec_in m)) = Ok ty ∧ int_type ty;
  vi_embeds_out : GetOutputDataType si embeds_name = Ok ety;
  vi_embeds_in : ∃ ty, GetInputDataType si dname = Ok ty;
  vi_position : ∃ ty, position_type m = Ok ty;
  vi_logits : GetOutputDataType si (logits (dec_out m)) = Ok lty ∧ score_ok lty;
  vi_cache : layers }.
Context (Hio : vision_io_ok) (Heos : eos_ok m v) (Htok : prompt_tokens p v).

#[local] Instance vision_cache : CacheLaw KV_Cache_impl m p (KV_Cache_shape m p).
Proof. apply KV_Cache_law; [exact Hp|exact (vi_cache Hio)]. Qed.

Record vision_decoder_ok (n nr k : nat) (head : option ptr) (mid : list (option ptr)) (d : DecoderState) (h : heap) : Prop := {
  vd_index : em_index (vd_inputs_embeds_ d) = O ∧ mode_ (vd_inputs_embeds_ d) = Input_;
  vd_rest : rest_ok m p (KV_Cache_shape m p) lty dname n nr k head mid [] (vd_state d) (vd_logits_ d) (vd_kv_cache_ d) (vd_position_inputs_ d) h }.

(* all that is owned *)
Definition decoder_owners (X : list ptr) (tl : list (list ptr)) (d : DecoderState) : list (list ptr) :=
  rest_owners X tl (vd_logits_ d) (vd_kv_cache_ d) (vd_position_inputs_ d).

Lemma DecoderState_new_ok lengths h X tl : live h (concat (X :: tl)) -> length lengths = beam_rows p ->
  ∃ d h' mid, DecoderState_new m p lengths h = Ok (d, map Some (position_at p 0), h') ∧
    vision_decoder_ok (p_seq p) (p_seq p) 0 None mid d h' ∧
    replaces h h' (concat (X :: tl)) (concat (decoder_owners X tl d)) ∧
    (∀ r, r ∈ X ++ concat tl -> tensors h' !! r = tensors h !! r).
Proof.
  intros L0 Hlen. destruct Hio as [Hids Heo [ty Hei] Hpos [Hlt Hls] Hca]. unfold DecoderState_new, Embeddings_new. fold dname. fold si. rewrite Hei, !bind_Ok.
  cbv beta iota zeta.
  change (live h (concat (X :: [] :: [] :: [] :: tl))) in L0.
  destruct (PositionInputs_new_ok m p Hp lengths h Hdev ltac:(apply L0) Hpos Hlen) as (pi & l' & h1 & -> & R1 & Hpi1 & -> & F1 & F2). rewrite bind_Ok. cbv beta iota.
  destruct (replaces_part _ _ _ 3 _ _ L0 R1 eq_refl) as [Q1 K1]. cbn [list_insert insert] in Q1. pose proof (rp_live _ _ _ _ Q1) as L1.
  destruct (cache_new_law (CacheLaw := vision_cache) h1 ltac:(apply L1)) as (c & h2 & E2 & R2 & Hc2 & Hsh2). cbn [cache_new KV_Cache_impl] in E2.
  rewrite E2, bind_Ok. cbv beta iota. destruct (replaces_part _ _ _ 2 _ _ L1 R2 eq_refl) as [Q2 K2]. cbn [list_insert insert] in Q2. pose proof (rp_live _ _ _ _ Q2) as L2.
  destruct (Logits_new_ok m p h2 lty ltac:(apply L2) Hlt Hls) as (g & h3 & E3 & R3 & Hlg3). pose proof (Logits_new_type _ _ _ _ _ _ E3 Hlt) as Hgt.
  rewrite E3, bind_Ok. cbv beta iota. destruct (replaces_part _ _ _ 1 _ _ L2 R3 eq_refl) as [Q3 K3]. cbn [list_insert insert] in Q3. pose proof (rp_live _ _ _ _ Q3) as L3.
  assert (pi_ok p 0 pi h3) as Hpi3.
  { eapply pi_ok_frame; [exact Hpi1| |by apply (live_part _ _ 3 _ L3)]. intros r Hr. by rewrite (K3 3%nat (pi_ptrs pi)), (K2 3%nat (pi_ptrs pi)). }
  assert (cache_ok c h3) as Hc3.
  { eapply cache_ok_frame; [exact Hc2|apply kept_kinds; intros r; by apply (K3 2%nat)|by apply (live_part _ _ 2 _ L3)]. }
  unfold Embeddings_Add. cbn [mode_]. set (e := mkEmbeddings _ _ _ _ _ _). set (s1 := push_input _ _ _).
  destruct (add_rest_ok (K := KV_Cache_impl) m p (KV_Cache_shape m p) lty dname None s1 g c pi h3) as
    (pi' & s2 & g' & s3 & c' & s4 & mid & -> & -> & E4 & Hr & Hf4 & Pp & Pg & Pc); try done.
  cbn [cache_Add KV_Cache_impl] in E4. rewrite E4, bind_Ok. eexists _, h3, mid. split; [reflexivity|].
  unfold decoder_owners, rest_owners. cbn [vd_logits_ vd_kv_cache_ vd_position_inputs_]. rewrite Pp, Pg, Pc. split; [by split|]. split.
  - change (concat (X :: tl)) with (concat (X :: [] :: [] :: [] :: tl)). eapply replaces_trans; [exact Q1|]. by eapply replaces_trans.
  - intros r [Hx|(l & Hl & Hin)%list_elem_of_In%in_concat]%elem_of_app.
    + by rewrite (K3 0%nat X), (K2 0%nat X), (K1 0%nat X).
    + apply list_elem_of_In, list_elem_of_lookup in Hl as [i Hi]. apply list_elem_of_In in Hin.
      by rewrite (K3 (4 + i)%nat l), (K2 (4 + i)%nat l), (K1 (4 + i)%nat l).
Qed.

Lemma decoder_update_ok X tl beams nr k head mid d h : vision_decoder_ok 1 nr k head mid d h -> live h (concat (decoder_owners X tl d)) ->
  beams_ok (beam_rows p) beams -> num_beams (gp_search p) = 1 ∨ beams ≠ [] -> mask_int p (p_seq p + S k) ->
  ∃ d' h' mid', DecoderState_UpdateInputsOutputs m (Z.of_nat (p_seq p + S k)) beams d h = Ok (d', h') ∧
    vision_decoder_ok 1 1 (S k) head mid' d' h' ∧
    replaces h h' (concat (decoder_owners X tl d)) (concat (decoder_owners X tl d')) ∧
    (∀ r, r ∈ X ++ concat tl -> tensors h' !! r = tensors h !! r).
Proof.
  intros [Hi Hr] L Hb Hnb Hmax. unfold DecoderState_UpdateInputsOutputs.
  destruct (update_rest_ok (K := KV_Cache_impl) m p (KV_Cache_shape m p) Hdev Hp lty dname X tl beams _ _ _ _ _ _ _ _ _ _ Hr L Hb Hnb Hmax)
    as (pi2 & s2 & h2 & c3 & s3 & h3 & g4 & s4 & h4 & mid' & -> & E3 & E4 & Hr4 & Hf4 & Q4 & K4).
  rewrite bind_Ok. cbv beta iota. cbn [cache_Update KV_Cache_impl] in E3. rewrite E3, bind_Ok. cbv beta iota. rewrite E4, bind_Ok. cbv beta iota.
  eexists _, h4, mid'. split; [reflexivity|]. by split.
Qed.

(* what the decoder's session is given: the embeddings [emb] and what follows the prompts *)
Record decoder_sees (k : nat) (emb : list Z) (ins : list (string * OrtValue)) : Prop := {
  dse_embeds : ∃ t, ins !! O = Some (dname, t) ∧ data t = emb;
  dse_positions : HasInput si (position_ids (dec_in m)) = true -> ∃ i t, ins !! i = Some (position_ids (dec_in m), t) ∧
    data t = match k with O => prompt_positions p | S k => position_at p k end;
  dse_mask : HasInput si (attention_mask (dec_in m)) = true -> ∃ i t, ins !! i = Some (attention_mask (dec_in m), t) ∧
    shape t = [beam_rows p; p_seq p + k]%nat ∧ data t = mask_at p k }.

(** The end of both branches of a run: whatever its first input was, the
    decoder is run on the embedding model's output. *)
Lemma vision_decoder_run_ok X tl o n k head mid seq q t es d h : n = 1%nat ∨ n = p_seq p -> embed_ok seq q es h -> vision_decoder_ok n n k head mid d h ->
  live h (concat (decoder_owners X tl d)) -> q ∈ X ++ concat tl -> tensors h !! q = Some t ->
  ∃ bits d1 d' h' ins outs raw, reuse_embeddings es d = Ok d1 ∧
    DecoderState_Run oversize fd m p graph o d1 h = Ok (map f32_of_bits bits, o, d', h') ∧
    vision_decoder_ok 1 n k (Some q) mid d' h' ∧
    replaces h h' (concat (decoder_owners X tl d)) (concat (decoder_owners X tl d')) ∧
    (∀ r, r ∈ X ++ concat tl -> tensors h' !! r = tensors h !! r) ∧
    decoder_sees k (data t) ins ∧ fd o ins outs !! O = Some raw ∧ length bits = (beam_rows p * v)%nat ∧
    bits = eos_rows m (beam_rows p) v (raw_scores oversize p lty v n raw).
Proof.
  intros Hn [] [[Hi Hm] Hr] L Hq Ht. pose proof (rest_inputs _ _ _ _ _ _ _ _ _ _ _ _ _ _ _ _ Hr) as Ein.
  unfold reuse_embeddings, ReuseEmbeddingsBuffer. rewrite Hm, eb_mode0, eb_index0, Hi, eb_outputs0.
  rewrite decide_False by (intros [?|?]; done). change (get [Some q] 0) with (Ok (Some q) : outcome (option ptr)). rewrite bind_Ok.
  rewrite (set_input_seg _ [] _ _ 0 (Some q) Ein eq_refl), bind_Ok. set (s1 := with_inputs _ _).
  assert (rest_ok m p (KV_Cache_shape m p) lty dname n n k (Some q) mid [] s1 (vd_logits_ d) (vd_kv_cache_ d) (vd_position_inputs_ d) h) as Hr1.
  { eapply rest_state; [exact Hr|done|done| |done]. exists []. by rewrite app_nil_r. }
  destruct (rest_run m p (KV_Cache_shape m p) Hdev Hp lty dname oversize fd Hg Heos Htok X tl graph
    (i32 (Z.of_nat (em_shape (vd_inputs_embeds_ d)).1.1)) o n k q mid [] s1 (vd_logits_ d) (vd_kv_cache_ d) (vd_position_inputs_ d) h Hn Hr1 L Hq)
    as (bits & g' & h' & ins & outs & raw & E & Hr' & Q & Hkeep & Er & Eo & H); [constructor|].
  eexists bits, _, _, h', ins, outs, raw. split; [reflexivity|]. unfold DecoderState_Run.
  cbn [vd_state vd_inputs_embeds_ vd_position_inputs_ vd_kv_cache_ vd_logits_]. rewrite E, bind_Ok. cbv beta iota.
  split; [reflexivity|]. split; [by split|]. split; [exact Q|]. split; [exact Hkeep|]. split; [|exact H].
  destruct (rest_sees _ _ _ _ _ _ _ _ _ _ _ _ _ _ _ _ _ _ Hr1 Ht Er) as (S1 & S2 & S3). split; [by exists t|done|done].
Qed.

Lemma owners_disjoint X tl d h : live h (concat (decoder_owners X tl d)) ->
  (∀ r, r ∈ X -> r ∉ concat tl) ∧
  (∀ r, r ∈ concat [lg_ptrs (vd_logits_ d); cache_ptrs (vd_kv_cache_ d); pi_ptrs (vd_position_inputs_ d)] -> (r ∉ X) ∧ (r ∉ concat tl)).
Proof.
  intros (_ & Hnd & _). cbn [concat]. rewrite app_nil_r. set (R := lg_ptrs _ ++ _ ++ _).
  assert (concat (decoder_owners X tl d) = X ++ R ++ concat tl) as E by (unfold R; by rewrite <- !app_assoc).
  rewrite E in Hnd. apply NoDup_app in Hnd as (_ & D1 & Hnd). apply NoDup_app in Hnd as (_ & D2 & _).
  split; [|intros r Hr; split; [|by apply D2]]; intros; intros Hin.
  - eapply D1; [eassumption|]. apply elem_of_app. by right.
  - eapply D1; [eassumption|]. apply elem_of_app. by left.
Qed.

Lemma vision_decoder_frame X tl n nr k head mid d h h' : vision_decoder_ok n nr k head mid d h -> live h' (concat (decoder_owners X tl d)) ->
  kept (concat [lg_ptrs (vd_logits_ d); cache_ptrs (vd_kv_cache_ d); pi_ptrs (vd_position_inputs_ d)]) h h' -> vision_decoder_ok n nr k head mid d h'.
Proof. intros [Hi Hr] L Hk. split; [exact Hi|]. by eapply rest_frame. Qed.

(** *** The pipeline *)
Definition vis_ptr (pl : MultiModalPipelineState) : option ptr := vision_state_ pl ≫= visual_features_.
Definition pipeline_owners (pl : MultiModalPipelineState) : list (list ptr) :=
  decoder_owners (embed_ptrs (embedding_state_ pl)) [own [vis_ptr pl]; ext] (decoder_state_ pl).

Record pipeline_ok (seq n nr k : nat) (head : option ptr) (mid : list (option ptr)) (q : ptr) (pl : MultiModalPipelineState) (h : heap) : Prop := {
  pk_live : live h (concat (pipeline_owners pl));
  pk_embed : embed_ok seq q (embedding_state_ pl) h;
  pk_decoder : vision_decoder_ok n nr k head mid (decoder_state_ pl) h }.

(* before run [k] *)
Definition pipeline_at (n : nat) (vins : list (string * OrtValue)) (k : nat) (pl : MultiModalPipelineState) (h : heap) : Prop :=
  match k with
  | O => ∃ mid q vs, pipeline_ok (p_seq p) (p_seq p) (p_seq p) 0 None mid q pl h ∧ is_prompt_ pl = true ∧
      vision_state_ pl = Some vs ∧ vision_ok n vins vs h ∧
      data <$> tensors h !! ii_value (es_input_ids_ (embedding_state_ pl)) = Some (expanded_rows (prompt p) (p_seq p) (p_batch p) (p_beams p))
  | S k => ∃ seq nr head mid q, pipeline_ok seq 1 nr k head mid q pl h ∧ is_prompt_ pl = false ∧ vision_state_ pl = None
  end.

(** What run [k] returns: the scores of the decoder's logits for the embeddings
    of its tokens, with the features of the image in the first run. *)
Definition pipeline_scores (n : nat) (vins : list (string * OrtValue)) (k : nat) (o : run_options) (toks : list Z) (scores : list f32) : Prop :=
  ∃ t eouts raw features dins douts out,
    data t = run_tokens p k toks ∧ fe o [(input_ids (dec_in m), t)] eouts !! O = Some raw ∧
    match k with O => features_of n vins o features | S _ => features = [] end ∧
    decoder_sees k (list_inserts (image_offset p) features raw) dins ∧ fd o dins douts !! O = Some out ∧
    length scores = (beam_rows p * v)%nat ∧
    scores = map f32_of_bits (eos_rows m (beam_rows p) v (raw_scores oversize p lty v (match k with O => p_seq p | S _ => 1%nat end) out)).

Lemma pipeline_new_ok n lengths h : live h ext -> length lengths = beam_rows p -> image n h ->
  ∃ pl h' vins, MultiModalPipelineState_new m p lengths h = Ok (pl, map Some (position_at p 0), h') ∧
    read_io h (map in_name (extra_inputs p)) (extra_ptrs p) = Ok vins ∧ pipeline_at n vins 0 pl h' ∧
    replaces h h' ext (concat (pipeline_owners pl)).
Proof.
  intros L0 Hlen Him. pose proof Hio as [Hids Heo _ _ _ _]. unfold MultiModalPipelineState_new, EmbeddingState_new.
  assert (live h (concat [[]; []; []; ext])) as L0' by (simpl; by rewrite app_nil_r).
  destruct (InputIDs_new_ok m p h Hdev Hp ltac:(apply L0) Hids) as (ids & h1 & -> & R1 & Sh1 & Ty1 & Nm1 & T1). rewrite bind_Ok. cbv beta iota.
  destruct (replaces_part _ _ _ 0 _ _ L0' R1 eq_refl) as [Q1 K1]. cbn [list_insert insert] in Q1. pose proof (rp_live _ _ _ _ Q1) as L1.
  unfold Embeddings_new. fold embeds_name. fold si. rewrite Heo, !bind_Ok. cbv beta iota.
  destruct (make_tensor h1 [(p_batch p * p_beams p)%nat; p_seq p; Z.to_nat (gp_hidden_size p)] ety ltac:(apply L1)) as (h2 & q & d & -> & R2 & T2 & _).
  destruct (replaces_part _ _ _ 1 _ _ L1 R2 eq_refl) as [Q2 K2]. cbn [list_insert insert] in Q2. pose proof (rp_live _ _ _ _ Q2) as L2.
  rewrite bind_Ok. cbv beta iota. unfold InputIDs_Add, Embeddings_Add. cbn [mode_]. rewrite bind_Ok. cbv beta iota.
  set (es := mkEmbeddingState _ _ _).
  assert (read_io h2 (map in_name (extra_inputs p)) (extra_ptrs p) = read_io h (map in_name (extra_inputs p)) (extra_ptrs p)) as Eread.
  { apply (read_io_kept ext); [|exact Hext]. intros r Hr. by rewrite (K2 3%nat ext), (K1 3%nat ext). }
  assert (image n h2) as Him2.
  { destruct Him as [?|[Hf (x & a & b & Es & Tx & Hab)]]; [by left|]. right. split; [done|]. exists x, a, b. split; [done|]. split; [|done].
    assert (in_tensor x ∈ ext) as Hx.
    { clear -Es Hext. unfold sizes, extra_ptrs in *. induction (extra_inputs p) as [|y l IH]; [done|]. simpl in Es, Hext. apply Forall_cons in Hext as [(r & [= <-] & Hr) Hext].
      destruct (String.eqb _ _); [by injection Es as <-|by apply IH]. }
    by rewrite (K2 3%nat ext), (K1 3%nat ext). }
  destruct (VisionState_new_ok n h2 (live_part _ _ 3 _ L2 eq_refl) Him2) as (vs & h3 & vins & -> & R3 & Hvs & Ev). rewrite bind_Ok. cbv beta iota.
  destruct (replaces_part _ _ _ 2 _ _ L2 R3 eq_refl) as [Q3 K3]. cbn [list_insert insert] in Q3. pose proof (rp_live _ _ _ _ Q3) as L3.
  change (concat [[ii_value ids]; [q]; own [visual_features_ vs]; ext]) with (concat [[ii_value ids; q]; own [visual_features_ vs]; ext]) in L3, Q3.
  destruct (DecoderState_new_ok lengths h3 [ii_value ids; q] [own [visual_features_ vs]; ext] L3 Hlen)
    as (dec & h4 & mid & -> & Hdec & Q4 & K4). rewrite bind_Ok. cbv beta iota.
  eexists _, h4, vins. split; [reflexivity|]. split; [by rewrite <- Eread|].
  assert (∀ r, r ∈ ext -> tensors h4 !! r = tensors h3 !! r) as Kext by (intros r Hr; apply K4; cbn [concat]; clear -Hr; set_solver).
  assert (tensors h4 !! ii_value ids = tensors h1 !! ii_value ids) as Tids.
  { rewrite K4 by (by left). by rewrite (K3 0%nat [ii_value ids]), (K2 0%nat [ii_value ids]) by (done || by left). }
  split.
  - exists mid, q, vs. split; [split; [apply (rp_live _ _ _ _ Q4)| |exact Hdec]|split; [done|split; [done|split]]].
    + split; try done.
      * exists d. cbn [embedding_state_]. rewrite K4 by (by right; left). by rewrite (K3 1%nat [q]) by (done || by left).
      * split; [done|done|done|]. cbn [es_input_ids_ es embedding_state_ ii_value ii_type ii_shape]. rewrite Tids, T1, Sh1. eauto.
      * cbn [es_input_ids_ es embedding_state_ ii_shape]. by rewrite Sh1.
      * split; [|done]. cbn. by rewrite Nm1.
    + destruct Hvs as [V1 V2 V3 V4 V5 V6]. split; try done.
      * rewrite <- V4. apply (read_io_kept ext); [|exact Hext]. exact Kext.
      * intros Hn. destruct (V6 Hn) as (vq & vd & A1 & A2 & A3 & A4). exists vq, vd. split; [done|]. split; [done|]. split; [done|].
        rewrite K4; [exact A4|]. rewrite A1. by do 2 right; left.
    + cbn [es_input_ids_ es embedding_state_ ii_value]. by rewrite Tids, T1.
  - pose proof (replaces_trans _ _ _ _ _ _ (replaces_trans _ _ _ _ _ _ Q1 Q2) (replaces_trans _ _ _ _ _ _ Q3 Q4)) as R.
    change (concat [[]; []; []; ext]) with (ext ++ []) in R. by rewrite app_nil_r in R.
Qed.

(** The first run: the image is put into the embeddings and its features are
    destroyed. *)
Lemma pipeline_first_ok n vins cur toks idx o pl h : n = O ∨ image_fits n -> pipeline_at n vins 0 pl h ->
  ∃ scores pl' h', MultiModalPipelineState_Run oversize fe fv fd m p graph cur toks idx o pl h = Ok (scores, o, pl', h') ∧
    pipeline_at n vins 1 pl' h' ∧ replaces h h' (concat (pipeline_owners pl)) (concat (pipeline_owners pl')) ∧
    pipeline_scores n vins 0 o toks scores.
Proof.
  intros Hn (mid & q & vs & [L He0 Hd0] & Hpr & Evs & Hvs & Htoks). destruct pl as [es vso d pr]. unfold pipeline_owners, vis_ptr in *.
  cbn [embedding_state_ vision_state_ decoder_state_ is_prompt_] in *. subst vso pr. cbn [mbind option_bind] in L |- *.
  set (ps := concat _) in L. destruct (owners_disjoint (embed_ptrs es) [own [visual_features_ vs]; ext] d h L) as [D1 D2]. cbn [concat] in D1, D2. rewrite app_nil_r in D1, D2.
  assert (embed_ptrs es = [ii_value (es_input_ids_ es); q]) as EX by (unfold embed_ptrs; by rewrite (eb_value _ _ _ _ He0)).
  unfold MultiModalPipelineState_Run. cbn [embedding_state_ vision_state_ decoder_state_ is_prompt_].
  destruct (embed_run_ok ps _ _ o es h _ He0 L ltac:(intros r Hr; apply elem_of_app; by left) Htoks)
    as (es1 & h1 & t & eouts & raw & -> & He1 & Ei1 & Ee1 & R1 & K1 & Et & Eraw & Tq1).
  rewrite bind_Ok. cbv beta iota. cbn [initialised]. rewrite bind_Ok. pose proof (rp_live _ _ _ _ R1) as L1.
  assert (embed_ptrs es1 = embed_ptrs es) as EX1 by (unfold embed_ptrs; by rewrite Ei1, Ee1).
  assert (∀ r, r ∈ own [visual_features_ vs] ++ ext -> r ≠ q) as Hq.
  { intros r Hr ->. apply (D1 q); [rewrite EX; by right; left|exact Hr]. }
  assert (vision_ok n vins vs h1) as Hvs1.
  { destruct Hvs as [V1 V2 V3 V4 V5 V6]. split; try done.
    - rewrite <- V4. apply (read_io_kept ext); [|exact Hext]. intros r Hr. apply K1, Hq, elem_of_app. by right.
    - intros Hn0. destruct (V6 Hn0) as (vq & vd & A1 & A2 & A3 & A4). exists vq, vd. split; [done|]. split; [done|]. split; [done|].
      rewrite K1; [exact A4|]. apply Hq. rewrite A1. by left. }
  destruct (run_vision_ok ps n vins q o es1 vs h1 raw Hn He1 Hvs1 L1) as (vs2 & h2 & features & -> & Ev2 & R2 & K2 & Hfeat & Tq2).
  { unfold ps, decoder_owners, rest_owners. rewrite EX1. cbn [concat]. rewrite app_nil_r. solve_submseteq. }
  { exact Tq1. }
  rewrite bind_Ok. cbv beta iota. pose proof (rp_live _ _ _ _ R2) as L2.
  assert (∀ r, r ≠ q -> visual_features_ vs ≠ Some r -> tensors h2 !! r = tensors h !! r) as K by (intros r Hr1 Hr2; by rewrite K2, K1).
  assert (embed_ok (p_seq p) q es1 h2) as He2.
  { eapply embed_frame; [exact He1|]. intros r u [->|[->|[]%elem_of_nil]%elem_of_cons]%elem_of_cons Hr.
    - exists (data u). rewrite K2, Hr; [by destruct u|..].
      + intros E. destruct L as (_ & Hnd & _). unfold ps, decoder_owners, rest_owners in Hnd. rewrite EX in Hnd. simpl in Hnd.
        apply NoDup_cons in Hnd as [Hnin _]. apply Hnin. rewrite <- Ei1, E. by left.
      + intros E. apply (D1 (ii_value (es_input_ids_ es))); [rewrite EX; by left|]. rewrite <- Ei1, E. by left.
    - rewrite Tq1 in Hr. injection Hr as <-. eexists. exact Tq2. }
  assert (vision_decoder_ok (p_seq p) (p_seq p) 0 None mid d h2) as Hd2.
  { eapply (vision_decoder_frame (embed_ptrs es) [own [visual_features_ vs]; ext]); [exact Hd0|exact L2|]. intros r Hr. cbn [concat] in Hr. rewrite app_nil_r in Hr. destruct (D2 r Hr) as [D3 D4].
    apply K; [intros ->; apply D3; rewrite EX; by right; left|intros E; apply D4; rewrite E; by left]. }
  destruct (vision_decoder_run_ok (embed_ptrs es) [own [visual_features_ vs]; ext] o (p_seq p) 0 None mid (p_seq p) q
    (mkOrt ety [beam_rows p; p_seq p; hidden] (list_inserts (image_offset p) features raw)) es1 d h2 ltac:(by right) He2 Hd2 L2)
    as (bits & d3 & d4 & h4 & dins & douts & out & -> & E4 & Hd4 & R4 & K4 & Hsees & Eout & Lbits & Ebits); [rewrite EX; by right; left|exact Tq2|].
  rewrite bind_Ok, E4, bind_Ok. cbv beta iota. rewrite Ev2. pose proof (rp_live _ _ _ _ R4) as L4.
  assert (replaces h4 (free (visual_features_ vs) h4) (own [visual_features_ vs]) []) as Rf.
  { destruct (visual_features_ vs) as [vq|]; [|by apply replaces_refl, (live_part _ _ 4 _ L4)]. by apply free_replaces, (live_part _ _ 4 _ L4). }
  destruct (replaces_part _ _ _ 4 _ _ L4 Rf eq_refl) as [Qf Kf]. cbn [list_insert insert decoder_owners rest_owners] in Qf.
  pose proof (rp_live _ _ _ _ Qf) as Lf. eexists _, _, _. split; [reflexivity|]. split; [|split].
  - exists (p_seq p), (p_seq p), (Some q), mid, q. split; [|done]. split; unfold pipeline_owners, vis_ptr; cbn [embedding_state_ vision_state_ decoder_state_ mbind option_bind].
    + rewrite EX1. exact Lf.
    + eapply embed_frame; [exact He2|]. apply kept_kinds. intros r Hr. assert (r ∈ embed_ptrs es) as Hr' by (rewrite EX, <- Ei1; exact Hr).
      rewrite (Kf 0%nat (embed_ptrs es)) by done. apply K4, elem_of_app. by left.
    + eapply (vision_decoder_frame (embed_ptrs es) [[]; ext]); [exact Hd4|exact Lf|]. intros r (l & Hl & Hin)%list_elem_of_In%in_concat.
      apply list_elem_of_In, list_elem_of_lookup in Hl as [i Hi]. apply list_elem_of_In in Hin.
      apply (Kf (S i) l); [|destruct i as [|[|[|i]]]; done|done]. intros [= ->]. done.
  - unfold pipeline_owners, vis_ptr. cbn [embedding_state_ vision_state_ decoder_state_ mbind option_bind]. rewrite EX1.
    eapply replaces_trans; [exact R1|]. eapply replaces_trans; [exact R2|]. eapply replaces_trans; [exact R4|exact Qf].
  - exists t, eouts, raw, features, dins, douts, out. split; [exact Et|]. split; [exact Eraw|]. split; [exact Hfeat|]. split; [exact Hsees|].
    split; [exact Eout|]. split; [by rewrite length_map|by rewrite Ebits].
Qed.

(** A later run: from the update on the decoder's first input dangles, when the
    embeddings had another length, until it is set again. *)
Lemma pipeline_next_ok n vins k toks idx o pl h : pipeline_at n vins (S k) pl h -> step_ok p (toks, idx) -> mask_int p (p_seq p + S k) ->
  ∃ scores pl' h', MultiModalPipelineState_Run oversize fe fv fd m p graph (Z.of_nat (p_seq p + S k)) toks idx o pl h = Ok (scores, o, pl', h') ∧
    pipeline_at n vins (S (S k)) pl' h' ∧ replaces h h' (concat (pipeline_owners pl)) (concat (pipeline_owners pl')) ∧
    pipeline_scores n vins (S k) o toks scores.
Proof.
  intros (seq & nr & head & mid & q & [L He0 Hd0] & Hpr & Evs) (Htoks & Hbeams & Hnb) Hmax. cbn [fst snd] in Htoks, Hbeams, Hnb.
  destruct pl as [es vso d pr]. unfold pipeline_owners, vis_ptr in *.
  cbn [embedding_state_ vision_state_ decoder_state_ is_prompt_] in *. subst vso pr. cbn [mbind option_bind own omap list_omap id] in L |- *.
  unfold MultiModalPipelineState_Run. cbn [embedding_state_ vision_state_ decoder_state_ is_prompt_].
  destruct (embed_update_ok toks _ _ _ _ He0 (live_part _ _ 0 _ L eq_refl) Htoks) as (es1 & q1 & h1 & -> & He1 & R1 & T1).
  rewrite bind_Ok. cbv beta iota. destruct (replaces_part _ _ _ 0 _ _ L R1 eq_refl) as [Q1 K1]. cbn [list_insert insert decoder_owners rest_owners] in Q1.
  pose proof (rp_live _ _ _ _ Q1) as L1. assert (vision_decoder_ok 1 nr k head mid d h1) as Hd1.
  { eapply (vision_decoder_frame (embed_ptrs es1) [[]; ext]); [exact Hd0|exact L1|]. intros r (l & Hl & Hin)%list_elem_of_In%in_concat.
    apply list_elem_of_In, list_elem_of_lookup in Hl as [i Hi]. apply list_elem_of_In in Hin.
    apply (K1 (S i) l); [done| |done]. destruct i as [|[|[|i]]]; done. }
  destruct (decoder_update_ok (embed_ptrs es1) [[]; ext] idx nr k head mid d h1 Hd1 L1 Hbeams Hnb Hmax) as (d2 & h2 & mid2 & -> & Hd2 & R2 & K2).
  rewrite bind_Ok. cbv beta iota. pose proof (rp_live _ _ _ _ R2) as L2.
  assert (embed_ptrs es1 = [ii_value (es_input_ids_ es1); q1]) as EX by (unfold embed_ptrs; by rewrite (eb_value _ _ _ _ He1)).
  assert (embed_ok 1 q1 es1 h2) as He2.
  { eapply embed_frame; [exact He1|]. apply kept_kinds. intros r Hr. apply K2, elem_of_app. left. by rewrite EX. }
  destruct (embed_run_ok (concat (decoder_owners (embed_ptrs es1) [[]; ext] d2)) 1 q1 o es1 h2 toks He2 L2 ltac:(intros r Hr; apply elem_of_app; by left))
    as (es3 & h3 & t & eouts & raw & -> & He3 & Ei3 & Ee3 & R3 & K3 & Et & Eraw & Tq3).
  { rewrite K2; [exact T1|]. by left. }
  rewrite bind_Ok. cbv beta iota. pose proof (rp_live _ _ _ _ R3) as L3.
  assert (embed_ptrs es3 = embed_ptrs es1) as EX3 by (unfold embed_ptrs; by rewrite Ei3, Ee3).
  assert (vision_decoder_ok 1 1 (S k) head mid2 d2 h3) as Hd3.
  { eapply (vision_decoder_frame (embed_ptrs es1) [[]; ext]); [exact Hd2|exact L3|]. intros r Hr. apply K3. intros ->.
    destruct (owners_disjoint (embed_ptrs es1) [[]; ext] d2 h3 L3) as [_ D]. destruct (D q1 Hr) as [D1 _]. apply D1. rewrite EX. by right; left. }
  destruct (vision_decoder_run_ok (embed_ptrs es1) [[]; ext] o 1 (S k) head mid2 1 q1 _ es3 d2 h3 ltac:(by left) He3 Hd3 L3
    ltac:(rewrite EX; by right; left) Tq3)
    as (bits & d4 & d5 & h5 & dins & douts & out & -> & E5 & Hd5 & R5 & K5 & Hsees & Eout & Lbits & Ebits).
  rewrite bind_Ok, E5, bind_Ok. cbv beta iota. eexists _, _, _. split; [reflexivity|]. split; [|split].
  - exists 1%nat, 1%nat, (Some q1), mid2, q1. split; [|done].
    split; unfold pipeline_owners, vis_ptr; cbn [embedding_state_ vision_state_ decoder_state_ mbind option_bind].
    + rewrite EX3. apply (rp_live _ _ _ _ R5).
    + eapply embed_frame; [exact He3|]. apply kept_kinds. intros r Hr. apply K5, elem_of_app. left. rewrite EX, <- Ei3. exact Hr.
    + exact Hd5.
  - unfold pipeline_owners, vis_ptr. cbn [embedding_state_ vision_state_ decoder_state_ mbind option_bind]. rewrite EX3.
    eapply replaces_trans; [exact Q1|]. eapply replaces_trans; [exact R2|]. eapply replaces_trans; [exact R3|exact R5].
  - exists t, eouts, raw, [], dins, douts, out. split; [exact Et|]. split; [exact Eraw|]. split; [done|]. split; [exact Hsees|].
    split; [exact Eout|]. split; [by rewrite length_map|by rewrite Ebits].
Qed.
End vision_ok.

(** A generator of the CPU build on a vision model its sessions fit, with tensors
    [ext] of the caller: an image of [n] tokens among them, or none. *)
Section setup.
Context (oversize : Z -> Z -> Z) (fe fv fd : session) (m : model) (p : GeneratorParams) (graph : option CapturedGraphInfo).
Context (lty ety : ONNXTensorElementDataType) (ext : list ptr) (n : nat) (lengths : list (option Z)) (h : heap).
Context (o : run_options) (steps : list (list Z * list Z)).

Record vision_setup : Prop := {
  sv_embedding : SessionLaw fe;
  sv_vision : SessionLaw fv;
  sv_decoder : SessionLaw fd;
  sv_device : device_type_ m = CPU;
  sv_graph : use_cuda_graph p = false;
  sv_params : params_ok p;
  sv_io : vision_io_ok m lty ety;
  sv_eos : eos_ok m (Z.to_nat (gp_vocab_size p));
  sv_prompt : prompt_tokens p (Z.to_nat (gp_vocab_size p));
  sv_extra : owned_ptrs ext (extra_ptrs p);
  sv_live : live h ext;
  sv_image : image m p ety n h;
  sv_lengths : length lengths = beam_rows p;
  sv_steps : Forall (step_ok p) (tail steps);
  sv_max : mask_int p (p_seq p + pred (length steps)) }.

(** C9: every run of the vision pipeline returns, whatever the padding, the
    beams and the number of steps, as long as an [int] holds the size of the
    mask: the decoder is given what the embedding model
    makes of the tokens of the step, in the first run with the features of the
    image, when there is one, in the place of its first tokens, and the scores
    are those of its logits; the borrowed embeddings are never read when they
    dangle, the features are destroyed after the first run and nothing is freed
    twice. *)
Theorem Vision_Runs_spec : vision_setup ->
  ∃ pl0 h0 vins all pl h', MultiModalPipelineState_new m p lengths h = Ok (pl0, map Some (position_at p 0), h0) ∧
    read_io h (map in_name (extra_inputs p)) (extra_ptrs p) = Ok vins ∧
    Runs (MultiModalPipelineState_Run oversize fe fv fd m p graph) (Z.of_nat (p_seq p)) steps o pl0 h0 = Ok (all, o, pl, h') ∧
    length all = length steps ∧
    (∀ k toks beams, steps !! k = Some (toks, beams) ->
      ∃ scores, all !! k = Some scores ∧ pipeline_scores oversize fe fv fd m p lty n vins k o toks scores) ∧
    (steps ≠ [] -> vision_state_ pl = None) ∧
    replaces h h' ext (concat (pipeline_owners ext pl)).
Proof.
  intros [He Hv Hd Hdev Hg Hp Hio Heos Htok Hext Hl Him Hlen Hsteps Hmax].
  destruct (pipeline_new_ok m p Hdev Hp lty ety ext Hext Hio n lengths h Hl Hlen Him) as (pl0 & h0 & vins & E0 & Er & Hat & R0).
  assert (n = O ∨ image_fits m p ety n) as Hn by (destruct Him as [[]|[]]; auto).
  destruct (Runs_all (MultiModalPipelineState_Run oversize fe fv fd m p graph) p o (pipeline_at m p lty ety ext n vins)
    (fun pl => concat (pipeline_owners ext pl)) (fun k => pipeline_scores oversize fe fv fd m p lty n vins k o)) with (fits := mask_int p)
    (steps := steps) (d := pl0) (h := h0) as (all & pl & h' & E & La & H & R & Hat'); [| |done|done|by apply mask_int_upto|].
  - intros k d h1 Hk. destruct k; [destruct Hk as (? & ? & ? & [] & _)|destruct Hk as (? & ? & ? & ? & ? & [] & _)]; done.
  - intros k toks beams d h1 Hk Hs Hb. destruct k as [|k].
    + destruct (pipeline_first_ok oversize fe fv fd m p graph Hdev Hp Hg lty ety ext Hext Heos Htok n vins (Z.of_nat (p_seq p + 0)) toks beams o d h1 Hn Hk)
        as (scores & d' & h2 & E & H). by exists scores, d', h2.
    + destruct Hs as [?|Hs]; [done|].
      destruct (pipeline_next_ok oversize fe fv fd m p graph Hdev Hp Hg lty ety ext Hio Heos Htok n vins k toks beams o d h1 Hk Hs Hb)
        as (scores & d' & h2 & E & H). by exists scores, d', h2.
  - exists pl0, h0, vins, all, pl, h'. do 5 (split; [done|]). split; [|by eapply replaces_trans].
    intros Hne. destruct steps as [|st steps']; [done|]. by destruct Hat' as (? & ? & ? & ? & ? & _ & _ & ?).
Qed.
End setup.

(** ** Concrete runs *)
Module Examples.
Import Decoders.Examples.

Definition ex_vision : model := mkModelCtx ex_config
  (mkSessionInfo (list_to_map [("input_ids", T_INT64); ("inputs_embeds", T_FLOAT); ("attention_mask", T_INT64); ("position_ids", T_INT64);
     ("past_key_values.0.key", T_FLOAT)]%string)
     (list_to_map [("inputs_embeds", T_FLOAT); ("visual_features", T_FLOAT); ("logits", T_FLOAT)]%string)) CPU.
(* an image of 157 tokens after the first token of the prompt *)
Definition ex_prompt : list Z := 1 :: replicate 157 (-1) ++ [2; 3].
Definition ex_vp : GeneratorParams :=
  mkParams (set_max_length 200 Search_default) 0 3 4 200 1 0 false 160 2 CPU ex_prompt [mkInput "image_sizes" 0%nat] false.
Definition ex_sizes : OrtValue := mkOrt T_INT64 [1; 2]%nat [100; 200].
Definition ex_vision_heap : heap := fst (new_tensor ex_sizes Inputs.Examples.ex_heap0).
Definition ex_vsteps : list (list Z * list Z) := [([], []); ([7], []); ([9], [])].

Lemma ex_vision_setup : vision_setup ex_session ex_session ex_session ex_vision ex_vp T_FLOAT T_FLOAT [0%nat] 157 [None] ex_vision_heap ex_vsteps.
Proof.
  destruct (new_tensor_replaces Inputs.Examples.ex_heap0 ex_sizes Inputs.Examples.ex_heap0_ok eq_refl) as [R T].
  split; try done; try exact ex_session_law.
  - split; [exists T_INT64; split; [done|by right]|done|by exists T_FLOAT|by exists T_INT64|by split; [|left]|].
    split; [vm_compute; discriminate|]. eexists _, _, _, _. split; [reflexivity|]. by split.
  - repeat constructor; vm_compute; done.
  - split; [|vm_compute; discriminate]. right. split; [|vm_compute; done]. intros [|i] Hi; [done|]. vm_compute in Hi. lia.
  - constructor; [|constructor]. exists 0%nat. split; [done|by left].
  - apply R.
  - right. split; [split; try done; try lia; vm_compute; done|]. exists (mkInput "image_sizes" 0%nat), 100, 200. by split.
  - repeat constructor; try (left; done); vm_compute; done.
Qed.

Lemma Vision_Runs_spec_witness : ∃ pl0 h0 all pl h s0 s2,
  MultiModalPipelineState_new ex_vision ex_vp [None] ex_vision_heap = Ok (pl0, [Some 160], h0) ∧
  Runs (MultiModalPipelineState_Run Tensors.Examples.no_oversize ex_session ex_session ex_session ex_vision ex_vp None) 160
    ex_vsteps ∅ pl0 h0 = Ok (all, ∅, pl, h) ∧
  all !! 0%nat = Some s0 ∧ length s0 = 4%nat ∧ all !! 2%nat = Some s2 ∧ length s2 = 4%nat.
Proof.
  destruct (Vision_Runs_spec Tensors.Examples.no_oversize ex_session ex_session ex_session ex_vision ex_vp None T_FLOAT T_FLOAT [0%nat] 157
    [None] ex_vision_heap ∅ ex_vsteps ex_vision_setup) as (pl0 & h0 & vins & all & pl & h & E0 & _ & E & _ & Hs & _).
  destruct (Hs 0%nat _ _ eq_refl) as (s0 & Es0 & (? & ? & ? & ? & ? & ? & ? & _ & _ & _ & _ & _ & L0 & _)).
  destruct (Hs 2%nat _ _ eq_refl) as (s2 & Es2 & (? & ? & ? & ? & ? & ? & ? & _ & _ & _ & _ & _ & L2 & _)).
  exists pl0, h0, all, pl, h, s0, s2. split; [exact E0|]. split; [exact E|]. split; [exact Es0|]. split; [exact L0|]. split; [exact Es2|exact L2].
Defined.
End Examples.
