(* ===== verification/Cuda.v ===== *)
(** * CUDA launches and the kernels of the models (src/models/kernels.cu)

    A launch runs its kernel once per thread of the grid.  CUDA says nothing of
    the order of the threads, so it is a parameter, [order], with the law
    [Schedule]: some permutation of them.  A thread runs as a whole, which is
    enough for kernels whose threads only share atomic counters.  Memory is the
    list of its elements. *)
From Stdlib Require Import ZArith Lia.
From stdpp Require Import base numbers list.
From S2P Require Import Prelude Float32 Config Tensors Params Inputs Logits.
Local Open Scope Z_scope.

(** ** Launches *)
Class Schedule (order : nat -> list nat) : Prop := schedule_perm n : order n ≡ₚ seq 0 n.

Definition max_threads_per_block : Z := 1024.

(** The kernel computes its [int] index from unsigned ids.  A launch with an
    empty grid or too large a block is refused; nobody looks at the error. *)
Definition launch {M} (order : nat -> list nat) (grid block : Z) (thread : Z -> M -> outcome M) (m : M) : outcome M :=
  if (0 <? grid) && (0 <? block) && (block <=? max_threads_per_block) then
    for_each (fun i => thread (i32 (Z.of_nat i))) (order (Z.to_nat (grid * block))) m
  else Ok m.

(* (count + 255) / 256 blocks of 256 threads *)
Definition launch_256 {M} (order : nat -> list nat) (count : Z) (thread : Z -> M -> outcome M) (m : M) : outcome M :=
  n ← chk32 (count + 255); launch order (Z.quot n 256) 256 thread m.

(** ** The kernels *)
(* [positions[i]++] *)
Definition UpdatePositionIds (type : ONNXTensorElementDataType) (batch_beam_size i : Z) (positions : list Z) : outcome (list Z) :=
  if i <? batch_beam_size then x ← getZ positions i; y ← increment type x; putZ positions i y else Ok positions.

Definition CopyAndUpdateAttentionMask (old_mask_data : list Z) (batch_beam_size current_length max_length global_index : Z)
    (mask_data : list Z) : outcome (list Z) :=
  if current_length =? 0 then Undef else
  let i := Z.quot global_index current_length in
  let j := Z.rem global_index current_length in
  if i <? batch_beam_size then
    at_ ← chk32 (i * max_length); at_ ← chk32 (at_ + j);
    if j <? current_length - 1 then
      from ← chk32 (i * (current_length - 1)); from ← chk32 (from + j);
      x ← getZ old_mask_data from; putZ mask_data at_ x
    else putZ mask_data at_ 1
  else Ok mask_data.

Definition UpdateAttentionMask_kernel (batch_beam_size current_length max_length i : Z) (mask_data : list Z) : outcome (list Z) :=
  if i <? batch_beam_size then
    at_ ← chk32 (i * max_length); at_ ← chk32 (at_ + current_length); putZ mask_data at_ 1
  else Ok mask_data.

(* float * logits = batch_logits + index * vocab_size *)
Definition HandleEOSArray_kernel (vocab_size batch_beam_size : Z) (eos_token_ids : list Z) (index : Z) (batch_logits : list Z)
  : outcome (list Z) :=
  if batch_beam_size <=? index then Ok batch_logits else
  logits ← chk32 (index * vocab_size);
  '(max, d) ← for_each (fun id '(max, d) =>
      x ← getZ d (logits + id); d ← putZ d (logits + id) lowest_bits; Ok (max_bits max x, d)) eos_token_ids (lowest_bits, batch_logits);
  first ← get eos_token_ids 0;
  putZ d (logits + first) max.

(* __half2float is the library's *)
Definition ConvertFp16ToFp32_kernel (half2float : Z -> Z) (src : list Z) (count idx : Z) (dst : list Z) : outcome (list Z) :=
  if idx <? count then x ← getZ src idx; putZ dst idx (half2float x) else Ok dst.

Definition ConvertInt32ToInt64 (src : list Z) (count idx : Z) (dst : list Z) : outcome (list Z) :=
  if idx <? count then x ← getZ src idx; putZ dst idx x else Ok dst.

Section launchers.
Context (order : nat -> list nat).

Definition Launch_UpdatePositionIds (type : ONNXTensorElementDataType) (batch_beam_size : Z) (positions : list Z) : outcome (list Z) :=
  launch_256 order batch_beam_size (UpdatePositionIds type batch_beam_size) positions.

Definition Launch_UpdateAttentionMask (old_mask_data : list Z) (batch_beam_size current_length max_length : Z) (update_only : bool)
    (mask_data : list Z) : outcome (list Z) :=
  if update_only then
    launch order batch_beam_size 1 (UpdateAttentionMask_kernel batch_beam_size current_length max_length) mask_data
  else
    count ← chk32 (batch_beam_size * max_length);
    launch_256 order count (CopyAndUpdateAttentionMask old_mask_data batch_beam_size current_length max_length) mask_data.

(** The CUDA branch of [PositionInputs::UpdateAttentionMask]: [next] is the new
    tensor or, for a captured graph, the static buffer, cleared once. *)
Definition UpdateAttentionMask_cuda (max_length : Z) (captured is_first : bool) (rows current_length : Z) (next old : list Z)
  : outcome (list Z) :=
  let next := if captured && is_first then replicate (length next) 0 else next in
  let max_seq_len := if captured then max_length else current_length in
  let update_only := captured && negb is_first in
  Launch_UpdateAttentionMask old rows current_length max_seq_len update_only next.

Definition LaunchHandleEOSArray (batch_beam_size vocab_size : Z) (eos_token_ids : list Z) (batch_logits : list Z) : outcome (list Z) :=
  launch_256 order batch_beam_size (HandleEOSArray_kernel vocab_size batch_beam_size eos_token_ids) batch_logits.

Definition LaunchFp16ToFp32 (half2float : Z -> Z) (fp16 fp32 : list Z) (count : Z) : outcome (list Z) :=
  launch_256 order count (ConvertFp16ToFp32_kernel half2float fp16 count) fp32.

Definition LaunchInt32ToInt64 (src dst : list Z) (count : Z) : outcome (list Z) :=
  launch_256 order count (ConvertInt32ToInt64 src count) dst.
End launchers.

(** ** Threads that commute

    If any two threads do the same in either order, a launch is the loop over
    its threads. *)
Lemma for_each_seq {M} (body : nat -> M -> outcome M) n : ∀ i m, for_each body (seq i n) m = loop n i body m.
Proof. induction n as [|n IH]; intros i m; [done|]. simpl. destruct (body i m); [apply IH|done|done]. Qed.

Section commute.
Context {M : Type} (P : M -> Prop) (body : nat -> M -> outcome M) (n : nat).
Context (Hpres : ∀ i m m', (i < n)%nat -> P m -> body i m = Ok m' -> P m').
Context (Hcomm : ∀ i j m, (i < n)%nat -> (j < n)%nat -> i ≠ j -> P m -> (body i m ≫= body j) = (body j m ≫= body i)).

Lemma for_each_perm l l' : l ≡ₚ l' -> Forall (fun i => i < n)%nat l -> ∀ m, P m -> for_each body l m = for_each body l' m.
Proof.
  induction 1 as [|x l l' _ IH|x y l|l1 l2 l3 HP1 IH1 HP2 IH2]; intros Hl m Hm.
  - done.
  - apply Forall_cons in Hl as [Hx Hl]. rewrite !for_each_cons. destruct (body x m) as [m'| |] eqn:E; [|done|done].
    rewrite !bind_Ok. apply IH; [done|by eapply Hpres].
  - apply Forall_cons in Hl as [Hy Hl]. apply Forall_cons in Hl as [Hx Hl]. destruct (decide (x = y)) as [->|Hne]; [done|].
    cbn [for_each]. transitivity ((body y m ≫= body x) ≫= for_each body l); [by destruct (body y m)|].
    rewrite Hcomm by auto. by destruct (body x m).
  - rewrite IH1 by done. apply IH2; [by rewrite <- HP1|done].
Qed.
End commute.

(** Only the first [n] threads do something. *)
Lemma launch_loop {M} (P : M -> Prop) (order : nat -> list nat) {Ho : Schedule order} grid block (thread : Z -> M -> outcome M) (n : nat) (m : M) :
  0 < grid -> 0 < block <= max_threads_per_block -> Z.of_nat n <= grid * block <= INT_MAX ->
  (∀ i m, (n <= i)%nat -> Z.of_nat i < grid * block -> thread (Z.of_nat i) m = Ok m) ->
  (∀ i m m', (i < n)%nat -> P m -> thread (Z.of_nat i) m = Ok m' -> P m') ->
  (∀ i j m, (i < n)%nat -> (j < n)%nat -> i ≠ j -> P m ->
     (thread (Z.of_nat i) m ≫= thread (Z.of_nat j)) = (thread (Z.of_nat j) m ≫= thread (Z.of_nat i))) ->
  P m -> launch order grid block thread m = for_ n (fun i => thread (Z.of_nat i)) m.
Proof.
  intros Hg Hb Hn Hidle Hpres Hcomm Hm. unfold launch. rewrite !(proj2 (Z.ltb_lt _ _)), (proj2 (Z.leb_le _ _)) by lia. cbn [andb].
  set (N := Z.to_nat (grid * block)). assert (Z.of_nat N = grid * block) as HN by (unfold N; lia). clearbody N. set (body := fun i => thread (i32 (Z.of_nat i))).
  assert (∀ i, (i < N)%nat -> body i = thread (Z.of_nat i)) as Hbody.
  { intros i Hi. unfold body. rewrite i32_id; [done|]. unfold INT_MIN. lia. }
  rewrite (for_each_perm P body N) with (l' := seq 0 N); [..|done].
  - rewrite for_each_seq. assert (∀ k i m, (i + k <= N)%nat -> (n <= i)%nat -> loop k i body m = Ok m) as Hrest.
    { induction k as [|k IH]; intros i m' Hi Hni; [done|]. simpl. rewrite Hbody, Hidle by lia. simpl. apply IH; lia. }
    assert (∀ k i m, (i + k = n)%nat -> loop (k + (N - n)) i body m = loop k i (fun i => thread (Z.of_nat i)) m) as Hfirst.
    { induction k as [|k IH]; intros i m' Hi; [apply Hrest; lia|]. simpl. rewrite Hbody by lia.
      destruct (thread (Z.of_nat i) m'); [|done|done]. simpl. apply IH. lia. }
    unfold for_. rewrite <- Hfirst by lia. by replace (n + (N - n))%nat with N by lia.
  - intros i m1 m2 Hi H1 E. rewrite Hbody in E by done. destruct (decide (i < n)%nat) as [Hlt|Hge]; [by eapply Hpres|].
    rewrite Hidle in E by lia. by injection E as <-.
  - intros i j m1 Hi Hj Hne H1. rewrite !Hbody by done.
    destruct (decide (i < n)%nat) as [Hi'|Hi'], (decide (j < n)%nat) as [Hj'|Hj'].
    + by apply Hcomm.
    + rewrite (Hidle j m1) by lia. rewrite bind_Ok. destruct (thread (Z.of_nat i) m1) as [m2| |]; [|done|done]. rewrite bind_Ok. apply Hidle; lia.
    + rewrite (Hidle i m1) by lia. rewrite bind_Ok. destruct (thread (Z.of_nat j) m1) as [m2| |]; [|done|done]. rewrite bind_Ok. symmetry. apply Hidle; lia.
    + rewrite !Hidle by lia. rewrite !bind_Ok. by rewrite !Hidle by lia.
  - apply schedule_perm.
  - rewrite schedule_perm. apply Forall_seq. lia.
Qed.

Lemma launch_256_loop {M} (P : M -> Prop) (order : nat -> list nat) {Ho : Schedule order} (thread : Z -> M -> outcome M) (count n : nat) (m : M) :
  (n <= count)%nat -> Z.of_nat count + 255 <= INT_MAX ->
  (∀ i m, (n <= i)%nat -> thread (Z.of_nat i) m = Ok m) ->
  (∀ i m m', (i < n)%nat -> P m -> thread (Z.of_nat i) m = Ok m' -> P m') ->
  (∀ i j m, (i < n)%nat -> (j < n)%nat -> i ≠ j -> P m ->
     (thread (Z.of_nat i) m ≫= thread (Z.of_nat j)) = (thread (Z.of_nat j) m ≫= thread (Z.of_nat i))) ->
  P m -> launch_256 order (Z.of_nat count) thread m = for_ n (fun i => thread (Z.of_nat i)) m.
Proof.
  intros Hn Hmax Hidle Hpres Hcomm Hm. unfold launch_256. unfold INT_MAX in Hmax.
  rewrite chk32_ok, bind_Ok by (unfold INT_MIN, INT_MAX; lia). rewrite Z.quot_div_nonneg by lia.
  destruct (decide (count = O)) as [->|Hc].
  { destruct n; [done|lia]. }
  pose proof (Z.div_mod (Z.of_nat count + 255) 256 ltac:(lia)) as Hdm. pose proof (Z.mod_pos_bound (Z.of_nat count + 255) 256 ltac:(lia)) as Hb.
  set (q := (Z.of_nat count + 255) / 256) in *. assert (0 < q) by (apply Z.div_str_pos; lia). clearbody q.
  apply (launch_loop P); try done; [unfold INT_MAX; lia|]. intros i m' Hi _. by apply Hidle.
Qed.

(** *** Threads with a cell each *)
(* thread [i] reads and writes element [f i] *)
Definition cell_update (f : nat -> nat) (F : nat -> Z -> outcome Z) (i : nat) (d : list Z) : outcome (list Z) :=
  x ← get d (f i); y ← F i x; put d (f i) y.

Lemma cell_update_pres f F i d d' : cell_update f F i d = Ok d' -> length d' = length d.
Proof.
  unfold cell_update. intros E. apply bind_Ok_inv in E as (x & _ & E). apply bind_Ok_inv in E as (y & _ & E).
  apply put_Ok_inv in E as [_ ->]. apply length_insert.
Qed.

Lemma cell_update_comm f F i j d : f i ≠ f j -> (∀ i x, no_throw (F i x)) ->
  (cell_update f F i d ≫= cell_update f F j) = (cell_update f F j d ≫= cell_update f F i).
Proof.
  intros Hne Hnt. assert (∀ i j, f i ≠ f j -> (cell_update f F i d ≫= cell_update f F j) =
    (x ← get d (f i); y ← F i x; x' ← get d (f j); y' ← F j x'; Ok (<[f j := y']> (<[f i := y]> d)))) as H.
  { clear i j Hne. intros i j Hne. unfold cell_update. destruct (get d (f i)) as [x| |] eqn:Ei; [|done|done]. rewrite !bind_Ok.
    destruct (F i x) as [y| |]; [|done|done]. rewrite !bind_Ok. apply get_Ok_inv, lookup_lt_Some in Ei. rewrite put_lt, bind_Ok by done.
    assert (get (<[f i := y]> d) (f j) = get d (f j)) as -> by (unfold get; by rewrite list_lookup_insert_ne).
    destruct (get d (f j)) as [x'| |] eqn:Ej; [|done|done]. rewrite !bind_Ok. destruct (F j x') as [y'| |]; [|done|done]. rewrite !bind_Ok.
    apply get_Ok_inv, lookup_lt_Some in Ej. by rewrite put_lt by (by rewrite length_insert). }
  rewrite !H by auto.
  assert (∀ m : outcome Z, no_throw m -> m = Undef ∨ ∃ a, m = Ok a) as Hcase.
  { intros [a|e|] Hm; [by right; eexists|by destruct (Hm e)|by left]. }
  destruct (Hcase (get d (f i)) (no_throw_get _ _)) as [->|[x ->]], (Hcase (get d (f j)) (no_throw_get _ _)) as [->|[x' ->]]; cbn; try done.
  - by destruct (Hcase (F j x') (Hnt j x')) as [->|[y' ->]].
  - by destruct (Hcase (F i x) (Hnt i x)) as [->|[y ->]].
  - destruct (Hcase (F i x) (Hnt i x)) as [->|[y ->]], (Hcase (F j x') (Hnt j x')) as [->|[y' ->]]; cbn; try done.
    by rewrite list_insert_insert_ne by done.
Qed.

Lemma loop_ext {M} (body body' : nat -> M -> outcome M) n : ∀ i m,
  (∀ j m, (i <= j < i + n)%nat -> body j m = body' j m) -> loop n i body m = loop n i body' m.
Proof.
  induction n as [|n IH]; intros i m H; [done|]. simpl. rewrite H by lia. destruct (body' i m); [|done|done].
  apply IH. intros j m' Hj. apply H. lia.
Qed.

Lemma for_ext {M} (body body' : nat -> M -> outcome M) n m :
  (∀ j m, (j < n)%nat -> body j m = body' j m) -> for_ n body m = for_ n body' m.
Proof. intros H. apply loop_ext. intros j m' Hj. apply H. lia. Qed.

Lemma loop_add {M} (body : nat -> M -> outcome M) a b : ∀ i m, loop (a + b) i body m = (loop a i body m ≫= loop b (i + a)%nat body).
Proof.
  induction a as [|a IH]; intros i m; [by rewrite Nat.add_0_r|]. simpl. destruct (body i m); [|done|done]. rewrite !bind_Ok, IH.
  by rewrite Nat.add_succ_r.
Qed.

Lemma loop_shift {M} (body : nat -> M -> outcome M) k n : ∀ i m, loop n (k + i) body m = loop n i (fun j => body (k + j)%nat) m.
Proof. induction n as [|n IH]; intros i m; [done|]. simpl. destruct (body (k + i)%nat m); [|done|done]. simpl. rewrite <- Nat.add_succ_r. apply IH. Qed.

(** A loop over the cells of a matrix is a loop over its rows. *)
Lemma for_rows {M} (body : nat -> nat -> M -> outcome M) rows w m : (0 < w)%nat ->
  for_ (rows * w) (fun g => body (g / w)%nat (g mod w)%nat) m = for_ rows (fun i => for_ w (body i)) m.
Proof.
  intros Hw. unfold for_. induction rows as [|rows IH]; [done|].
  replace (S rows * w)%nat with (rows * w + w)%nat by lia. rewrite <- (Nat.add_1_r rows), !loop_add, IH.
  destruct (loop rows 0 _ m) as [m'| |]; [|done|done]. rewrite !bind_Ok. cbn [loop plus].
  rewrite <- (Nat.add_0_r (rows * w)), loop_shift.
  rewrite (loop_ext _ (body rows)) with (i := O).
  - by destruct (loop w 0 (body rows) m').
  - intros j m1 Hj. f_equal; symmetry; [apply Nat.div_unique with j|apply Nat.mod_unique with rows]; lia.
Qed.

Section cells.
Context (order : nat -> list nat) {Ho : Schedule order} (f : nat -> nat) (F : nat -> Z -> outcome Z) (HF : ∀ i x, no_throw (F i x)).
Context (thread : Z -> list Z -> outcome (list Z)) (n : nat).
Context (Hcell : ∀ i d, (i < n)%nat -> thread (Z.of_nat i) d = cell_update f F i d).
Context (Hf : ∀ i j, (i < n)%nat -> (j < n)%nat -> i ≠ j -> f i ≠ f j).

Lemma cells_comm i j m : (i < n)%nat -> (j < n)%nat -> i ≠ j ->
  (thread (Z.of_nat i) m ≫= thread (Z.of_nat j)) = (thread (Z.of_nat j) m ≫= thread (Z.of_nat i)).
Proof.
  intros Hi Hj Hne. rewrite !Hcell by done. transitivity (cell_update f F i m ≫= cell_update f F j).
  { destruct (cell_update f F i m); [|done|done]. by apply Hcell. }
  rewrite cell_update_comm by auto. destruct (cell_update f F j m); [|done|done]. symmetry. by apply Hcell.
Qed.

Lemma launch_256_cells (count : nat) d : (n <= count)%nat -> Z.of_nat count + 255 <= INT_MAX ->
  (∀ i d, (n <= i)%nat -> thread (Z.of_nat i) d = Ok d) ->
  launch_256 order (Z.of_nat count) thread d = for_ n (cell_update f F) d.
Proof.
  intros Hn Hc Hidle. rewrite (launch_256_loop (fun _ => True)) with (n := n); try done.
  - apply for_ext. intros j m Hj. by apply Hcell.
  - intros i j m Hi Hj Hne _. by apply cells_comm.
Qed.

Lemma launch_1_cells d : Z.of_nat n <= INT_MAX -> launch order (Z.of_nat n) 1 thread d = for_ n (cell_update f F) d.
Proof.
  intros Hn. destruct (decide (n = O)) as [->|Hn0]; [done|].
  rewrite (launch_loop (fun _ => True)) with (n := n); try done.
  - apply for_ext. intros j m Hj. by apply Hcell.
  - lia.
  - unfold INT_MAX in *. lia.
  - lia.
  - intros i j m Hi Hj Hne _. by apply cells_comm.
Qed.
End cells.

(* a cell that is only written *)
Lemma write_cell f (F : nat -> outcome Z) i d : (∀ i, no_throw (F i)) -> (x ← F i; put d (f i) x) = cell_update f (fun i _ => F i) i d.
Proof.
  intros HF. unfold cell_update, get, put. destruct (d !! f i) as [y|] eqn:E; [done|]. apply lookup_ge_None in E.
  destruct (F i) as [x|e|] eqn:Ex; [|by destruct (HF i e)|done]. rewrite bind_Ok. by rewrite decide_False by lia.
Qed.

Lemma increment_no_throw type x : no_throw (increment type x).
Proof. unfold increment. no_throw. Qed.

(** ** The kernels do what the loops of the CPU do *)

(** In any order of the threads, the position ids are incremented as
    [UpdatePositionIDsImpl] does. *)
Theorem UpdatePositionIds_refines (order : nat -> list nat) (type : ONNXTensorElementDataType) (batch_beam_size : nat) (positions : list Z) :
  Schedule order -> Z.of_nat batch_beam_size + 255 <= INT_MAX ->
  Launch_UpdatePositionIds order type (Z.of_nat batch_beam_size) positions = UpdatePositionIDsImpl type batch_beam_size positions.
Proof.
  intros Ho Hb. unfold Launch_UpdatePositionIds, UpdatePositionIDsImpl.
  rewrite (launch_256_cells order id (fun _ => increment type)) with (n := batch_beam_size); try done.
  - intros i x. apply increment_no_throw.
  - intros i d Hi. unfold UpdatePositionIds, cell_update, id. rewrite (proj2 (Z.ltb_lt _ _)) by lia.
    rewrite getZ_get, Nat2Z.id by lia. destruct (get d i) as [x| |]; [|done|done]. rewrite !bind_Ok.
    destruct (increment type x); [|done|done]. rewrite !bind_Ok, putZ_put, Nat2Z.id by lia. done.
  - intros i d Hi. unfold UpdatePositionIds. by rewrite (proj2 (Z.ltb_ge _ _)) by lia.
Qed.

Section mask.
Context (old : list Z) (rows w max : nat) (Hmax : (S w <= max)%nat) (Hint : Z.of_nat (rows * max) + 255 <= INT_MAX).

(* what thread [g] writes *)
Definition mask_value (g : nat) : outcome Z :=
  let '(i, j) := ((g / S w)%nat, (g mod S w)%nat) in if decide (j < w)%nat then get old (i * w + j)%nat else Ok 1.

Lemma mask_value_no_throw g : no_throw (mask_value g).
Proof. unfold mask_value. case_decide; no_throw. Qed.

Lemma CopyAndUpdateAttentionMask_cell g d : (g < rows * S w)%nat ->
  CopyAndUpdateAttentionMask old (Z.of_nat rows) (Z.of_nat (S w)) (Z.of_nat max) (Z.of_nat g) d =
  cell_update (fun g => g / S w * max + g mod S w)%nat (fun g _ => mask_value g) g d.
Proof.
  intros Hg. assert (g / S w < rows)%nat as Hi by (apply Nat.Div0.div_lt_upper_bound; lia).
  pose proof (Nat.mod_upper_bound g (S w) ltac:(lia)) as Hj.
  rewrite <- write_cell by apply mask_value_no_throw.
  unfold CopyAndUpdateAttentionMask, mask_value. rewrite (proj2 (Z.eqb_neq _ _)) by lia.
  rewrite Z.quot_div_nonneg, Z.rem_mod_nonneg by lia. rewrite <- Nat2Z.inj_div, <- Nat2Z.inj_mod.
  set (i := (g / S w)%nat) in *. set (j := (g mod S w)%nat) in *. clearbody i j. unfold INT_MAX in Hint.
  assert (i * max + j < rows * max)%nat as B by (apply row_index; lia). assert (i * w + j < rows * max)%nat as B2 by nia.
  rewrite (proj2 (Z.ltb_lt _ _)) by lia. rewrite <- Nat2Z.inj_mul.
  rewrite (chk32_ok (Z.of_nat (i * max))), bind_Ok by (unfold INT_MIN, INT_MAX; lia). rewrite <- Nat2Z.inj_add.
  rewrite (chk32_ok (Z.of_nat (i * max + j))), bind_Ok by (unfold INT_MIN, INT_MAX; lia).
  case_decide as Hjw; [rewrite (proj2 (Z.ltb_lt _ _)) by lia|rewrite (proj2 (Z.ltb_ge _ _)) by lia].
  - replace (Z.of_nat (S w) - 1) with (Z.of_nat w) by lia. rewrite <- Nat2Z.inj_mul.
    rewrite chk32_ok, bind_Ok by (unfold INT_MIN, INT_MAX; lia). rewrite <- Nat2Z.inj_add.
    rewrite chk32_ok, bind_Ok by (unfold INT_MIN, INT_MAX; lia). rewrite getZ_get, Nat2Z.id by lia.
    destruct (get old (i * w + j)); [|done|done]. rewrite !bind_Ok, putZ_put, Nat2Z.id by lia. done.
  - rewrite bind_Ok, putZ_put, Nat2Z.id by lia. done.
Qed.

(* the loops of [UpdateAttentionMaskImpl], with rows [max] apart *)
Definition strided_mask (d : list Z) : outcome (list Z) :=
  for_ rows (fun i d =>
      d ← for_ w (fun j d => x ← get old (i * w + j)%nat; put d (i * max + j)%nat x) d;
      put d (i * max + w)%nat 1) d.

Lemma Launch_UpdateAttentionMask_loop (order : nat -> list nat) {Ho : Schedule order} d :
  Launch_UpdateAttentionMask order old (Z.of_nat rows) (Z.of_nat (S w)) (Z.of_nat max) false d = strided_mask d.
Proof.
  unfold Launch_UpdateAttentionMask. rewrite <- Nat2Z.inj_mul. unfold INT_MAX in Hint.
  rewrite chk32_ok, bind_Ok by (unfold INT_MIN, INT_MAX; lia).
  rewrite (launch_256_cells order (fun g => g / S w * max + g mod S w)%nat (fun g _ => mask_value g)) with (n := (rows * S w)%nat); try done.
  - unfold strided_mask.
    etransitivity; [|etransitivity; [apply (for_rows (fun i j d =>
      x ← (if decide (j < w)%nat then get old (i * w + j)%nat else Ok 1); put d (i * max + j)%nat x) rows (S w)); lia|]].
    + apply for_ext. intros g m Hg. by rewrite <- write_cell by apply mask_value_no_throw.
    + apply for_ext. intros i m Hi. unfold for_. rewrite <- (Nat.add_1_r w), loop_add.
      rewrite (loop_ext _ (fun j d => x ← get old (i * w + j)%nat; put d (i * max + j)%nat x)).
      * destruct (loop w 0 _ m) as [m'| |]; [|done|done]. rewrite !bind_Ok. cbn [loop plus].
        rewrite decide_False by lia. rewrite bind_Ok. by destruct (put m' (i * max + w)%nat 1).
      * intros j m' Hj. by rewrite decide_True by lia.
  - intros g x. apply mask_value_no_throw.
  - intros g m Hg. by apply CopyAndUpdateAttentionMask_cell.
  - intros g g' Hg Hg' Hne E.
    pose proof (Nat.mod_upper_bound g (S w) ltac:(lia)). pose proof (Nat.mod_upper_bound g' (S w) ltac:(lia)).
    apply row_index_inj in E as [E1 E2]; [|lia..]. apply Hne.
    rewrite (Nat.div_mod_eq g (S w)), (Nat.div_mod_eq g' (S w)). congruence.
  - nia.
  - intros g m Hg. unfold CopyAndUpdateAttentionMask. rewrite (proj2 (Z.eqb_neq _ _)) by lia.
    rewrite Z.quot_div_nonneg by lia. rewrite (proj2 (Z.ltb_ge _ _)); [done|]. apply Z.div_le_lower_bound; lia.
Qed.
End mask.

(** In any order of the threads, the mask of the next token is the one
    [UpdateAttentionMaskImpl] computes. *)
Theorem UpdateAttentionMask_refines (order : nat -> list nat) (max_length : Z) (is_first : bool) (rows w : nat) (next old : list Z) :
  Schedule order -> Z.of_nat (rows * S w) + 255 <= INT_MAX ->
  UpdateAttentionMask_cuda order max_length false is_first (Z.of_nat rows) (Z.of_nat (S w)) next old =
  UpdateAttentionMaskImpl rows (S w) next old.
Proof.
  intros Ho Hint. unfold UpdateAttentionMask_cuda. cbn [andb].
  rewrite Launch_UpdateAttentionMask_loop by (done || lia). unfold strided_mask, UpdateAttentionMaskImpl.
  rewrite Nat.sub_succ, Nat.sub_0_r. apply for_ext. intros i d Hi. pose proof (row_bound i rows (S w) Hi) as Hr.
  transitivity (d ← for_ w (fun j d => x ← get old (i * w + j)%nat; put d (i * S w + j)%nat x) d; put d (i * S w + w)%nat 1); [done|].
  rewrite (for_ext (fun j d => x ← get old (i * w + j)%nat; put d (i * S w + j)%nat x) (fun j d =>
    from ← int_nat (i * w)%nat; from ← int_nat (from + j)%nat; to ← int_nat (i * S w)%nat; to ← int_nat (to + j)%nat;
    x ← get old from; put d to x) w).
  - destruct (for_ w _ d) as [e|?|]; [|done|done]. rewrite !bind_Ok, !int_nat_ok, !bind_Ok, int_nat_ok, bind_Ok by lia.
    by rewrite Nat.add_succ_r, Nat.sub_succ, Nat.sub_0_r.
  - intros j e Hj. assert (i * w + j <= i * S w + j)%nat by nia.
    rewrite (int_nat_ok (i * w)), bind_Ok, (int_nat_ok (i * w + j)), bind_Ok by lia.
    by rewrite (int_nat_ok (i * S w)), bind_Ok, (int_nat_ok (i * S w + j)), bind_Ok by lia.
Qed.

(** *** A captured graph *)
Lemma filled_zeros a n k : (length a + k <= n)%nat -> filled (a ++ replicate k 0) (replicate n 0) = filled a (replicate n 0).
Proof.
  intros H. unfold filled. rewrite <- app_assoc. f_equal. rewrite length_app, length_replicate, !drop_replicate, <- replicate_add.
  f_equal. lia.
Qed.

Section captured.
Context (rows w max : nat) (f : nat -> list Z) (Hf : ∀ i, (i < rows)%nat -> length (f i) = w).

Definition first_row (i : nat) : list Z := f i ++ 1 :: replicate (max - S w) 0.

Lemma length_first_row i : (S w <= max)%nat -> (i < rows)%nat -> length (first_row i) = max.
Proof. intros Hm Hi. unfold first_row. rewrite length_app, Hf by done. simpl. rewrite length_replicate. lia. Qed.

Lemma strided_mask_zeros : (S w <= max)%nat ->
  strided_mask (concat (map f (seq 0 rows))) rows w max (replicate (rows * max) 0) = Ok (concat (map first_row (seq 0 rows))).
Proof.
  intros Hm. set (d0 := replicate (rows * max) 0). assert (length d0 = rows * max)%nat as Hd0 by apply length_replicate.
  assert (∀ k, (k <= rows)%nat -> length (concat (map first_row (seq 0 k))) = k * max)%nat as Hl.
  { intros k Hk. apply length_concat_map. intros i Hi. apply length_first_row; lia. }
  unfold strided_mask. match goal with |- for_ _ ?F _ = _ =>
    destruct (for_inv (fun k d => d = filled (concat (map first_row (seq 0 k))) d0) rows F d0) as (d & E & Hd) end.
  - done.
  - intros i d Hi ->. pose proof (row_bound i rows max Hi) as Hb. pose proof (Hl i ltac:(lia)) as Hli.
    match goal with |- context [for_ w ?F ?x] =>
      destruct (for_inv (fun j d => d = filled (concat (map first_row (seq 0 i)) ++ take j (f i)) d0) w F x) as (d & E & Hd) end.
    + by rewrite app_nil_r.
    + intros j d Hj ->. assert (length (f i) = w) as Hfi by (by apply Hf).
      destruct (lookup_lt_is_Some_2 (f i) j) as [x Hx]; [lia|].
      rewrite (get_Some _ _ x), bind_Ok.
      * rewrite put_next by (rewrite length_app, Hli, length_take; lia). eexists. split; [reflexivity|].
        by rewrite (take_S_r _ _ x Hx), app_assoc.
      * rewrite <- (concat_map_row f w rows i Hf Hi) in Hx. by rewrite lookup_window in Hx.
    + rewrite E, bind_Ok, Hd. rewrite take_ge by (rewrite Hf; lia).
      rewrite put_next by (rewrite length_app, Hli, Hf; lia). eexists. split; [reflexivity|].
      rewrite concat_map_S. unfold first_row at 2, d0.
      rewrite <- (filled_zeros _ _ (max - S w)) by (rewrite !length_app, Hli, Hf by done; simpl; lia). by rewrite <- !app_assoc.
  - rewrite E, Hd. f_equal. apply filled_full. rewrite Hl; lia.
Qed.

(* one launch that only sets a cell of every row *)
Lemma update_only_ok (order : nat -> list nat) {Ho : Schedule order} (g : nat -> list Z) (cur : nat) old :
  (∀ i, (i < rows)%nat -> length (g i) = max) -> (cur < max)%nat -> Z.of_nat (rows * max) <= INT_MAX ->
  Launch_UpdateAttentionMask order old (Z.of_nat rows) (Z.of_nat cur) (Z.of_nat max) true (concat (map g (seq 0 rows))) =
  Ok (concat (map (fun i => <[cur := 1]> (g i)) (seq 0 rows))).
Proof.
  intros Hg Hcur Hint. unfold INT_MAX in Hint. unfold Launch_UpdateAttentionMask.
  rewrite (launch_1_cells order (fun i => i * max + cur)%nat (fun _ _ => Ok 1)).
  - set (g' := fun i => <[cur := 1]> (g i)). match goal with |- for_ _ ?F ?x = _ =>
      destruct (for_inv (fun k d => d = concat (map g' (seq 0 k)) ++ concat (map g (seq k (rows - k)))) rows F x) as (d' & -> & ->) end.
    + by rewrite Nat.sub_0_r.
    + intros i d Hi ->. assert (length (concat (map g' (seq 0 i))) = i * max)%nat as Hl.
      { apply length_concat_map. intros k Hk. unfold g'. rewrite length_insert. apply Hg. lia. }
      rewrite concat_map_S. replace (rows - i)%nat with (S (rows - S i)) by lia. cbn [seq map concat].
      rewrite <- write_cell by (intros; apply no_throw_Ok). rewrite bind_Ok, <- Hl, put_seg by (rewrite Hg; lia).
      eexists. split; [reflexivity|]. by rewrite <- app_assoc.
    + rewrite Nat.sub_diag. simpl. by rewrite app_nil_r.
  - intros i x. apply no_throw_Ok.
  - intros i d Hi. unfold UpdateAttentionMask_kernel. rewrite (proj2 (Z.ltb_lt _ _)) by lia.
    pose proof (row_index i rows cur max Hi Hcur) as B. rewrite <- Nat2Z.inj_mul.
    rewrite chk32_ok, bind_Ok by (unfold INT_MIN, INT_MAX; lia). rewrite <- Nat2Z.inj_add.
    rewrite chk32_ok, bind_Ok by (unfold INT_MIN, INT_MAX; lia). rewrite putZ_put, Nat2Z.id by lia.
    by rewrite <- write_cell by (intros; apply no_throw_Ok).
  - intros i j Hi Hj Hne E. apply row_index_inj in E as [E _]; [done|lia..].
  - unfold INT_MAX. nia.
Qed.
End captured.

(** With a captured graph the mask of the prompt is copied to the static buffer
    with a [1] for the first new token, but every later update writes one cell
    too far: after [k] of them the second new token is still masked, and the
    cell after the last one is set. *)
Theorem captured_mask (order : nat -> list nat) (rows w max k : nat) (f : nat -> list Z) (buffer : list Z) :
  Schedule order -> (∀ i, (i < rows)%nat -> length (f i) = w) -> length buffer = (rows * max)%nat ->
  (S w + k < max)%nat -> Z.of_nat (rows * max) + 255 <= INT_MAX ->
  (d ← UpdateAttentionMask_cuda order (Z.of_nat max) true true (Z.of_nat rows) (Z.of_nat (S w)) buffer (concat (map f (seq 0 rows)));
   for_ k (fun t d => UpdateAttentionMask_cuda order (Z.of_nat max) true false (Z.of_nat rows) (Z.of_nat (S w + S t)) d d) d) =
  Ok (concat (map (fun i => f i ++ 1 :: 0 :: replicate k 1 ++ replicate (max - S (S w) - k) 0) (seq 0 rows))).
Proof.
  intros Ho Hf Hb Hk Hint. unfold UpdateAttentionMask_cuda. cbn [andb negb].
  rewrite Launch_UpdateAttentionMask_loop, Hb, strided_mask_zeros, bind_Ok by (done || lia).
  set (row k := fun i => f i ++ 1 :: 0 :: replicate k 1 ++ replicate (max - S (S w) - k) 0).
  assert (∀ k i, (S w + k < max)%nat -> (i < rows)%nat -> length (row k i) = max) as Hl.
  { intros k' i Hk' Hi. unfold row. rewrite length_app, Hf by done. cbn [length]. rewrite length_app, !length_replicate. lia. }
  match goal with |- for_ _ ?F ?x = _ =>
    destruct (for_inv (fun k d => d = concat (map (row k) (seq 0 rows))) k F x) as (d' & -> & ->) end; [| |done].
  - do 2 f_equal. unfold first_row, row. simpl. by replace (max - S w)%nat with (S (max - S (S w) - 0)) by lia.
  - intros t d Ht ->.
    rewrite (update_only_ok rows max) by (done || lia || (intros; apply Hl; lia)). eexists. split; [reflexivity|].
    f_equal. apply map_ext_in. intros i Hi%in_seq. unfold row.
    rewrite (replicate_S_end t). replace (max - S (S w) - t)%nat with (S (max - S (S w) - S t)) by lia.
    set (zs := replicate (max - S (S w) - S t) 0). change (replicate (S (max - S (S w) - S t)) 0) with (0 :: zs).
    change (1 :: 0 :: replicate t 1 ++ 0 :: zs) with ((1 :: 0 :: replicate t 1) ++ 0 :: zs). rewrite (app_assoc (f i)).
    rewrite insert_app_r_alt by (rewrite length_app, Hf by lia; simpl; rewrite length_replicate; lia).
    replace (S w + S t - length (f i ++ 1%Z :: 0%Z :: replicate t 1%Z))%nat with O
      by (rewrite length_app, Hf by lia; simpl; rewrite length_replicate; lia).
    simpl. by rewrite <- !app_assoc.
Qed.

(** ** Threads with an invariant

    [P l m]: the threads [l] have run.  Each runs once, in some order. *)
Lemma for_each_threads {M} (P : list nat -> M -> Prop) (body : nat -> M -> outcome M) l2 : ∀ l1 m,
  NoDup (l1 ++ l2) -> P l1 m -> (∀ l i m, i ∈ l2 -> i ∉ l -> P l m -> ∃ m', body i m = Ok m' ∧ P (l ++ [i]) m') ->
  ∃ m', for_each body l2 m = Ok m' ∧ P (l1 ++ l2) m'.
Proof.
  induction l2 as [|i l2 IH]; intros l1 m Hnd Hm Hstep; [exists m; by rewrite app_nil_r|].
  replace (l1 ++ i :: l2) with ((l1 ++ [i]) ++ l2) in * by (by rewrite <- app_assoc).
  assert (i ∉ l1) as Hi.
  { apply NoDup_app in Hnd as [Hnd _]. apply NoDup_app in Hnd as (_ & Hd & _). intros H. apply (Hd i H). by left. }
  destruct (Hstep l1 i m ltac:(by left) Hi Hm) as (m1 & E & Hm1). rewrite for_each_cons, E, bind_Ok.
  apply IH; [done..|]. intros l j m2 Hj. apply Hstep. by right.
Qed.

Lemma filter_seq_ge n k i : (n <= i)%nat -> filter (fun i => i < n)%nat (seq i k) = [].
Proof. revert i. induction k as [|k IH]; intros i H; [done|]. cbn [seq]. rewrite filter_cons_False by lia. apply IH. lia. Qed.

Lemma filter_seq_lt n k i : (i + k <= n)%nat -> filter (fun i => i < n)%nat (seq i k) = seq i k.
Proof. revert i. induction k as [|k IH]; intros i H; [done|]. cbn [seq]. rewrite filter_cons_True by lia. f_equal. apply IH. lia. Qed.

Lemma filter_seq n N : (n <= N)%nat -> filter (fun i => i < n)%nat (seq 0 N) = seq 0 n.
Proof.
  intros H. replace N with (n + (N - n))%nat by lia. rewrite seq_app, filter_app.
  by rewrite filter_seq_lt, filter_seq_ge, app_nil_r by lia.
Qed.

Section inv.
Context {M : Type} (P : list nat -> M -> Prop) (order : nat -> list nat) {Ho : Schedule order} (thread : Z -> M -> outcome M) (n : nat).
Context (Hperm : ∀ l l' m, l ≡ₚ l' -> P l m -> P l' m).
Context (Hstep : ∀ l i m, (i < n)%nat -> i ∉ l -> P l m -> ∃ m', thread (Z.of_nat i) m = Ok m' ∧ P (l ++ [i]) m').

Lemma launch_inv grid block m : 0 < grid -> 0 < block <= max_threads_per_block -> Z.of_nat n <= grid * block <= INT_MAX ->
  (∀ i m, (n <= i)%nat -> Z.of_nat i < grid * block -> thread (Z.of_nat i) m = Ok m) -> P [] m -> ∃ m', launch order grid block thread m = Ok m' ∧ P (seq 0 n) m'.
Proof.
  intros Hg Hb Hn Hidle Hm. unfold launch. rewrite !(proj2 (Z.ltb_lt _ _)), (proj2 (Z.leb_le _ _)) by lia. cbn [andb].
  set (N := Z.to_nat (grid * block)). assert (Z.of_nat N = grid * block) as HN by (unfold N; lia). clearbody N.
  assert (order N ≡ₚ seq 0 N) as HpN by apply schedule_perm.
  destruct (for_each_threads (fun l m => P (filter (fun i => i < n)%nat l) m) (fun i => thread (i32 (Z.of_nat i))) (order N) [] m)
    as (m' & E & Hm'); [|done| |].
  - rewrite app_nil_l, HpN. apply NoDup_seq.
  - intros l i m1 Hi Hil Hm1. assert (i < N)%nat as HiN by (rewrite HpN in Hi; apply elem_of_seq in Hi; lia).
    rewrite i32_id by (unfold INT_MIN; lia). rewrite filter_app. cbn [filter list_filter]. case_decide as Hin.
    + apply Hstep; [done| |done]. by rewrite list_elem_of_filter; intros [_ ?].
    + rewrite app_nil_r. exists m1. split; [apply Hidle; lia|done].
  - exists m'. split; [done|]. eapply Hperm; [|exact Hm']. rewrite app_nil_l, HpN. by rewrite filter_seq by lia.
Qed.

Lemma launch_256_inv count m : (n <= count)%nat -> Z.of_nat count + 255 <= INT_MAX ->
  (∀ i m, (n <= i)%nat -> thread (Z.of_nat i) m = Ok m) -> P [] m ->
  ∃ m', launch_256 order (Z.of_nat count) thread m = Ok m' ∧ P (seq 0 n) m'.
Proof.
  intros Hn Hmax Hidle Hm. unfold launch_256. unfold INT_MAX in Hmax.
  rewrite chk32_ok, bind_Ok by (unfold INT_MIN, INT_MAX; lia). rewrite Z.quot_div_nonneg by lia.
  destruct (decide (count = O)) as [->|Hc]; [exists m; replace n with O by lia; done|].
  pose proof (Z.div_mod (Z.of_nat count + 255) 256 ltac:(lia)) as Hdm. pose proof (Z.mod_pos_bound (Z.of_nat count + 255) 256 ltac:(lia)) as Hb.
  assert (0 < (Z.of_nat count + 255) / 256) by (apply Z.div_str_pos; lia).
  apply launch_inv; [done|done|unfold INT_MAX; lia| |done]. intros i m' Hi _. by apply Hidle.
Qed.
End inv.

(** *** The end-of-sequence tokens *)
Lemma tensor_row_app (pre row post : list Z) v i : length pre = (i * v)%nat -> length row = v -> tensor_row (pre ++ row ++ post) v i = row.
Proof.
  intros Hp Hr. unfold tensor_row. rewrite drop_app_ge by lia. rewrite Hp, Nat.sub_diag, drop_0, take_app_le by lia. apply take_ge. lia.
Qed.

Lemma tensor_row_split (d : list Z) v i rows : length d = (rows * v)%nat -> (i < rows)%nat ->
  ∃ pre post, d = pre ++ tensor_row d v i ++ post ∧ length pre = (i * v)%nat.
Proof.
  intros Hd Hi. pose proof (row_bound i rows v Hi). exists (take (i * v) d), (drop v (drop (i * v) d)). unfold tensor_row.
  rewrite !take_drop. split; [done|]. rewrite length_take. lia.
Qed.

(* replacing one row *)
Lemma tensor_row_insert (pre row row' post : list Z) v i k : length pre = (i * v)%nat -> length row = v -> length row' = v -> k ≠ i ->
  tensor_row (pre ++ row' ++ post) v k = tensor_row (pre ++ row ++ post) v k.
Proof.
  intros Hp Hr Hr' Hk. unfold tensor_row. apply list_eq. intros j. destruct (decide (j < v)%nat) as [Hj|Hj].
  2:{ rewrite !lookup_ge_None_2; [done|rewrite length_take; lia..]. }
  rewrite !lookup_window by done. destruct (decide (k < i)%nat) as [Hlt|Hge].
  - assert (k * v + j < length pre)%nat by (rewrite Hp; apply row_index; lia). by rewrite !lookup_app_l by done.
  - assert (length pre + v <= k * v + j)%nat by (rewrite Hp; nia). by rewrite !(lookup_app_r pre), !lookup_app_r by lia; rewrite Hr, Hr'.
Qed.

Section eos.
Context (pre post : list Z) (off : Z) (v : nat) (Hoff : off = Z.of_nat (length pre)).

Lemma getZ_row row id : 0 <= id < Z.of_nat (length row) -> getZ (pre ++ row ++ post) (off + id) = getZ row id.
Proof.
  intros H. rewrite !getZ_get by lia. unfold get. replace (Z.to_nat (off + id)) with (length pre + Z.to_nat id)%nat by lia.
  rewrite lookup_app_r by lia. replace (length pre + Z.to_nat id - length pre)%nat with (Z.to_nat id) by lia. by rewrite lookup_app_l by lia.
Qed.

Lemma putZ_row row id x : 0 <= id < Z.of_nat (length row) ->
  putZ (pre ++ row ++ post) (off + id) x = (row ← putZ row id x; Ok (pre ++ row ++ post)).
Proof.
  intros H. rewrite !putZ_put by lia. replace (Z.to_nat (off + id)) with (length pre + Z.to_nat id)%nat by lia.
  by rewrite put_seg, put_lt by lia.
Qed.

Lemma eos_loop_row ids : Forall (fun id => 0 <= id < Z.of_nat v) ids -> ∀ max row, length row = v ->
  for_each (fun id '(max, d) =>
      x ← getZ d (off + id); d ← putZ d (off + id) lowest_bits; Ok (max_bits max x, d)) ids (max, pre ++ row ++ post) =
  ('(max, row) ← for_each (fun id '(max, row) =>
      x ← getZ row id; row ← putZ row id lowest_bits; Ok (max_bits max x, row)) ids (max, row);
   Ok (max, pre ++ row ++ post)).
Proof.
  induction 1 as [|id ids Hid _ IH]; intros max row Hrow; [done|]. rewrite !for_each_cons, getZ_row, putZ_row by lia.
  destruct (getZ row id) as [x| |]; [|done|done]. rewrite !bind_Ok, putZ_put, put_lt, !bind_Ok by lia. cbv beta iota.
  apply IH. by rewrite length_insert.
Qed.
End eos.

(** In any order of the threads, [LaunchHandleEOSArray] changes the scores as
    [HandleEOSArray] of the CPU does. *)
Theorem LaunchHandleEOSArray_refines (order : nat -> list nat) (m : model) (rows v : nat) (first : Z) (rest : list Z) (d : list Z) :
  let c := Config.model (config_ m) in
  Schedule order -> eos_token_ids c = first :: rest -> eos_token_id c = first -> eos_ok m v -> length d = (rows * v)%nat ->
  Z.of_nat (rows * v) <= INT_MAX -> Z.of_nat rows + 255 <= INT_MAX ->
  LaunchHandleEOSArray order (Z.of_nat rows) (Z.of_nat v) (eos_token_ids c) d = HandleEOSArray m rows v d.
Proof.
  intros c Ho Hids Hfirst Heos Hd Hint Hrows. destruct (HandleEOSArray_ok m rows v d Hd Heos) as [-> Hl]. unfold eos_rows in *. fold c in Hl |- *.
  set (ids := eos_token_ids c) in *. destruct (decide (ids = [])) as [E|_]; [by rewrite Hids in E|]. rewrite Hfirst in *.
  apply Forall_cons in Heos as [Hf Hall]. fold c ids in Hf, Hall. rewrite Hfirst in Hf.
  set (g := fun i => eos_row ids first (tensor_row d v i)) in *.
  assert (∀ i, (i < rows)%nat -> length (g i) = v) as Hg.
  { intros i Hi. unfold g. rewrite length_eos_row. unfold tensor_row. apply length_window. rewrite Hd. by apply row_bound. }
  unfold LaunchHandleEOSArray.
  destruct (launch_256_inv (fun l d' => length d' = (rows * v)%nat ∧
      ∀ i, (i < rows)%nat -> tensor_row d' v i = if decide (i ∈ l) then g i else tensor_row d v i)
    order (HandleEOSArray_kernel (Z.of_nat v) (Z.of_nat rows) ids) rows) with (count := rows) (m := d) as (d' & -> & Hd' & H'); try done.
  - intros l l' d' Hp [H1 H2]. split; [done|]. intros i Hi. rewrite (H2 i Hi). apply decide_ext. by rewrite Hp.
  - intros l i d' Hi Hil [H1 H2]. destruct (tensor_row_split d' v i rows H1 Hi) as (pre & post & E & Hp).
    assert (tensor_row d' v i = tensor_row d v i) as Er by (rewrite (H2 i Hi); by rewrite decide_False).
    rewrite Er in E. assert (length (tensor_row d v i) = v) as Lr by (pose proof (Hg i Hi) as Lg; unfold g in Lg; by rewrite length_eos_row in Lg).
    set (row := tensor_row d v i) in *. assert (Hgi : g i = eos_row ids first row) by done.
    unfold HandleEOSArray_kernel. rewrite (proj2 (Z.leb_gt _ _)) by lia. unfold INT_MAX in *.
    pose proof (row_bound i rows v Hi). rewrite <- Nat2Z.inj_mul, chk32_ok, bind_Ok by (unfold INT_MIN, INT_MAX; lia).
    rewrite E, (eos_loop_row pre post _ v) by (done || lia). rewrite (eos_loop ids v) by done. rewrite !bind_Ok. cbv beta iota.
    rewrite Hids. change (get (first :: rest) 0) with (Ok first). rewrite bind_Ok, <- Hids.
    rewrite (putZ_row pre post) by (rewrite ?length_marked; lia). rewrite putZ_put, put_lt, bind_Ok by (rewrite ?length_marked; lia).
    fold (eos_row ids first row). rewrite <- Hgi. eexists. split; [reflexivity|]. pose proof (Hg i Hi) as Lg. split.
    + rewrite <- H1, E, !length_app. lia.
    + intros k Hk. destruct (decide (k = i)) as [->|Hne].
      * rewrite tensor_row_app by lia. rewrite decide_True; [done|]. apply elem_of_app. right. by left.
      * rewrite (tensor_row_insert pre row (g i) post v i k), <- E, (H2 k Hk) by done. apply decide_ext.
        rewrite elem_of_app, list_elem_of_singleton. naive_solver.
  - intros i d' Hi. unfold HandleEOSArray_kernel. by rewrite (proj2 (Z.leb_le _ _)) by lia.
  - f_equal. apply (list_eq_lt _ _ (rows * v)); [done|done|]. intros x Hx. assert (0 < v)%nat as Hv by lia.
    rewrite (Nat.div_mod_eq x v). set (i := (x / v)%nat). set (j := (x mod v)%nat).
    assert (i < rows)%nat as Hi by (apply Nat.Div0.div_lt_upper_bound; lia). assert (j < v)%nat as Hj by (apply Nat.mod_upper_bound; lia).
    rewrite (Nat.mul_comm v). rewrite <- (lookup_window d' (i * v) v j), <- (lookup_window (concat _) (i * v) v j) by done.
    fold (tensor_row d' v i). rewrite (H' i Hi), decide_True by (apply elem_of_seq; lia). by rewrite concat_map_row.
Qed.

(** *** Conversions *)
Lemma launch_map (order : nat -> list nat) {Ho : Schedule order} (g : Z -> Z) (src d : list Z) thread :
  Z.of_nat (length src) + 255 <= INT_MAX -> length d = length src ->
  (∀ i d, (length src <= i)%nat -> thread (Z.of_nat i) d = Ok d) ->
  (∀ i d, (i < length src)%nat -> thread (Z.of_nat i) d = (x ← get src i; put d i (g x))) ->
  launch_256 order (Z.of_nat (length src)) thread d = Ok (map g src).
Proof.
  intros Hint Hd Hidle Hth. rewrite (launch_256_cells order id (fun i _ => x ← get src i; Ok (g x))) with (n := length src); try done.
  - match goal with |- for_ _ ?F ?x = _ =>
      destruct (for_inv (fun k d' => d' = filled (map g (take k src)) d) (length src) F x) as (d' & -> & ->) end; [done| |].
    + intros i d' Hi ->. destruct (lookup_lt_is_Some_2 src i Hi) as [x Hx]. rewrite <- (write_cell id (fun i => x ← get src i; Ok (g x))).
      * rewrite (get_Some _ _ x Hx), !bind_Ok. unfold id. rewrite put_next by (rewrite length_map, length_take; lia).
        eexists. split; [reflexivity|]. by rewrite (take_S_r _ _ x Hx), map_app.
      * intros j. no_throw.
    + f_equal. rewrite take_ge by lia. apply filled_full. by rewrite length_map.
  - intros i x. no_throw.
  - intros i d' Hi. rewrite Hth by done. rewrite <- (write_cell id (fun i => x ← get src i; Ok (g x))) by (intros; no_throw).
    by destruct (get src i).
Qed.

(** In any order of the threads, the conversions are element by element. *)
Theorem conversions_map (order : nat -> list nat) (half2float : Z -> Z) (src d : list Z) :
  Schedule order -> Z.of_nat (length src) + 255 <= INT_MAX -> length d = length src ->
  LaunchFp16ToFp32 order half2float src d (Z.of_nat (length src)) = Ok (map half2float src) ∧
  LaunchInt32ToInt64 order src d (Z.of_nat (length src)) = Ok src.
Proof.
  intros Ho Hint Hd. split; [|rewrite <- (map_id src) at 3]; apply launch_map; try done.
  - intros i d' Hi. unfold ConvertFp16ToFp32_kernel. by rewrite (proj2 (Z.ltb_ge _ _)) by lia.
  - intros i d' Hi. unfold ConvertFp16ToFp32_kernel. rewrite (proj2 (Z.ltb_lt _ _)) by lia.
    rewrite getZ_get, Nat2Z.id by lia. destruct (get src i); [|done|done]. by rewrite !bind_Ok, putZ_put, Nat2Z.id by lia.
  - intros i d' Hi. unfold ConvertInt32ToInt64. by rewrite (proj2 (Z.ltb_ge _ _)) by lia.
  - intros i d' Hi. unfold ConvertInt32ToInt64. rewrite (proj2 (Z.ltb_lt _ _)) by lia.
    rewrite getZ_get, Nat2Z.id by lia. destruct (get src i); [|done|done]. by rewrite !bind_Ok, putZ_put, Nat2Z.id by lia.
Qed.

(** ** Concrete runs: the threads backwards *)
Module Examples.
Definition backwards (n : nat) : list nat := rev (seq 0 n).

#[export] Instance backwards_schedule : Schedule backwards.
Proof. intros n. unfold backwards. symmetry. apply Permutation_rev. Qed.

Lemma UpdatePositionIds_refines_witness :
  Launch_UpdatePositionIds backwards T_INT32 3 [4; 5; 6] = UpdatePositionIDsImpl T_INT32 3 [4; 5; 6] ∧
  UpdatePositionIDsImpl T_INT32 3 [4; 5; 6] = Ok [5; 6; 7].
Proof.
  split; [apply (UpdatePositionIds_refines backwards T_INT32 3); [apply backwards_schedule|vm_compute; done]|reflexivity].
Defined.

Lemma UpdateAttentionMask_refines_witness :
  UpdateAttentionMask_cuda backwards 20 false false 2 3 (replicate 6 7) [0; 1; 1; 1] = Ok [0; 1; 1; 1; 1; 1].
Proof.
  transitivity (UpdateAttentionMaskImpl 2 3 (replicate 6 7) [0; 1; 1; 1]); [|reflexivity].
  apply (UpdateAttentionMask_refines backwards 20 false 2 2); [apply backwards_schedule|vm_compute; done].
Defined.

(* the mask of the prompt [1; 1], then two updates: lengths 3, 4 and 5 *)
Lemma captured_mask_witness :
  (d ← UpdateAttentionMask_cuda backwards 8 true true 1 3 (replicate 8 7) [1; 1];
   for_ 2 (fun t d => UpdateAttentionMask_cuda backwards 8 true false 1 (Z.of_nat (3 + S t)) d d) d) =
  Ok [1; 1; 1; 0; 1; 1; 0; 0].
Proof.
  etransitivity; [apply (captured_mask backwards 1 2 8 2 (fun _ => [1; 1]) (replicate 8 7)); try done; [apply backwards_schedule|lia]|].
  reflexivity.
Defined.

Lemma LaunchHandleEOSArray_refines_witness :
  LaunchHandleEOSArray backwards 1 3 [1; 2] [0x3F800000; 0x3F800000; 0x40000000] = Ok [0x3F800000; 0x40000000; lowest_bits].
Proof.
  transitivity (HandleEOSArray (Logits.Examples.ex_model T_FLOAT) 1 3 [0x3F800000; 0x3F800000; 0x40000000]); [|reflexivity].
  apply (LaunchHandleEOSArray_refines backwards (Logits.Examples.ex_model T_FLOAT) 1 3 1 [2]); try done;
    [apply backwards_schedule|apply Logits.Examples.ex_eos_ok].
Defined.

Definition half2float (x : Z) : Z := bits_of_f32 (FastFloat16ToFloat32 Tensors.Examples.no_oversize x).

Lemma conversions_map_witness :
  LaunchFp16ToFp32 backwards half2float [0x3C00; 0x4000] [0; 0] 2 = Ok [0x3F800000; 0x40000000].
Proof.
  etransitivity; [apply (conversions_map backwards half2float [0x3C00; 0x4000] [0; 0]); try done; apply backwards_schedule|].
  vm_compute. reflexivity.
Defined.
End Examples.
