(* ===== verification/BeamScorer.v ===== *)
(** * Beam search scoring (src/beam_search_scorer.h, src/beam_search_scorer.cpp)

    The finished hypotheses of every batch entry and the scorer that fills them.
    A hypothesis is a span: into the scorer's own buffer when [Process] cloned a
    sequence, into the sequences themselves when [Finalize] adds the open beams.
    [std::pow] on [float] is implementation-defined in its last bits and is the
    parameter [pow]. *)
From Stdlib Require Import ZArith Lia SpecFloat.
From stdpp Require Import base numbers list sorting.
From S2P Require Import Prelude Float32 Sequences.
Local Open Scope nat_scope.

(** ** Data *)
Inductive token_span : Type :=
  | InBuffer (off len : nat)         (* of hypothesis_buffer_ *)
  | InSequences (off len : nat).     (* of the sequences *)

Definition span_size (h : token_span) : nat :=
  match h with InBuffer _ n | InSequences _ n => n end.

Record HypothesisScore := mkHyp { hypothesis : token_span; score : f32 }.

(* [beams_]: uninitialised cells are None *)
Record BeamHypotheses := mkBeamHyps {
  beams_ : list (option HypothesisScore);
  beams_used_ : nat;
  length_penalty_ : f32;
  done_ : bool }.

#[export] Instance token_span_eq_dec : EqDecision token_span.
Proof. solve_decision. Defined.
#[export] Instance HypothesisScore_eq_dec : EqDecision HypothesisScore.
Proof. solve_decision. Defined.
#[export] Instance BeamHypotheses_eq_dec : EqDecision BeamHypotheses.
Proof. solve_decision. Defined.

(** The mutable members of [BeamSearchScorer]. *)
Record BeamSearchScorer := mkScorer {
  not_done_count_ : Z;
  next_beam_scores_ : list f32;
  next_beam_tokens_ : list (option Z);
  next_beam_indices_ : list (option Z);
  hypothesis_buffer_ : list (option Z);
  hypothesis_buffer_used_ : nat;
  beam_hyps_ : list BeamHypotheses }.

Definition set_next (sc : list f32) (tk ix : list (option Z)) (s : BeamSearchScorer) : BeamSearchScorer :=
  mkScorer (not_done_count_ s) sc tk ix (hypothesis_buffer_ s) (hypothesis_buffer_used_ s) (beam_hyps_ s).
Definition set_buffer (b : list (option Z)) (used : nat) (s : BeamSearchScorer) : BeamSearchScorer :=
  mkScorer (not_done_count_ s) (next_beam_scores_ s) (next_beam_tokens_ s) (next_beam_indices_ s) b used (beam_hyps_ s).
Definition set_beam_hyps (h : list BeamHypotheses) (s : BeamSearchScorer) : BeamSearchScorer :=
  mkScorer (not_done_count_ s) (next_beam_scores_ s) (next_beam_tokens_ s) (next_beam_indices_ s)
    (hypothesis_buffer_ s) (hypothesis_buffer_used_ s) h.
Definition set_not_done_count (n : Z) (s : BeamSearchScorer) : BeamSearchScorer :=
  mkScorer n (next_beam_scores_ s) (next_beam_tokens_ s) (next_beam_indices_ s)
    (hypothesis_buffer_ s) (hypothesis_buffer_used_ s) (beam_hyps_ s).

(** [copy(source, dest)] of smartptrs.h: the size check is an [assert], so it
    is there in a debug build only. *)
Definition copy {A} (debug : bool) (dest : list A) (off cnt : nat) (source : list A) : outcome (list A) :=
  if debug && negb (length source =? cnt)%nat then Undef else blit dest off source.

Definition IsDone (s : BeamSearchScorer) : bool := (not_done_count_ s =? 0)%Z.

Section hypotheses.
Context (pow : f32 -> f32 -> f32).

Definition Init (length_penalty : f32) (num_beams : nat) : BeamHypotheses :=
  mkBeamHyps (uninit num_beams) 0 length_penalty false.

(* for (; index > 0 && score > beams_[index - 1].score; index--) beams_[index] = beams_[index - 1]; *)
Fixpoint rotate (sc : f32) (beams : list (option HypothesisScore)) (index : nat)
  : outcome (list (option HypothesisScore) * nat) :=
  match index with
  | O => Ok (beams, O)
  | S i =>
      p ← get_init beams i;
      if flt (score p) sc then beams ← put beams (S i) (Some p); rotate sc beams i
      else Ok (beams, S i)
  end.

Definition hyp_score (b : BeamHypotheses) (len : nat) (sum_logprobs : f32) : f32 :=
  fdiv sum_logprobs (pow (f32_of_Z (Z.of_nat len)) (length_penalty_ b)).

Definition Add (b : BeamHypotheses) (hyp : token_span) (sum_logprobs : f32) : outcome BeamHypotheses :=
  let sc := hyp_score b (span_size hyp) sum_logprobs in
  let place index used :=
    '(beams, index) ← rotate sc (beams_ b) index;
    beams ← put beams index (Some (mkHyp hyp sc));
    Ok (mkBeamHyps beams used (length_penalty_ b) (done_ b)) in
  let index := beams_used_ b in
  if decide (index = length (beams_ b)) then
    match index with
    | O => Undef
    | S i => worst ← get_init (beams_ b) i;
             if fle sc (score worst) then Ok b else place i index
    end
  else place index (S index).

(* beams_.back() *)
Definition CanImprove (b : BeamHypotheses) (best_sum_logprobs : f32) (current_length : nat) : outcome bool :=
  let current_score := hyp_score b current_length best_sum_logprobs in
  match length (beams_ b) with
  | O => Undef
  | S i => worst ← get_init (beams_ b) i; Ok (flt (score worst) current_score)
  end.

(** The tokens a span denotes. *)
Definition read_span (buffer : list (option Z)) (sequences : Sequences) (h : token_span) : outcome (list Z) :=
  match h with
  | InBuffer off len => l ← subspan buffer off len; read_all l
  | InSequences off len => subspan (sequences_ sequences) off len
  end.

(* [sequences] is the window of the output buffer at [base]; likewise the scores *)
Definition Output (debug : bool) (buffer : list (option Z)) (seqs : Sequences) (b : BeamHypotheses)
    (top_k max_length base : nat) (sequences_scores_empty : bool) (sbase : nat)
    (out : list Z * list f32) : outcome (list Z * list f32) :=
  _ ← (if debug then assert_ (top_k <=? beams_used_ b)%nat else Ok ());
  for_ top_k (fun index out =>
    item ← get_init (beams_ b) index;
    toks ← read_span buffer seqs (hypothesis item);
    (* sequences.subspan(index * max_length, max_length) of a window of top_k rows *)
    o ← copy debug (fst out) (base + index * max_length) max_length toks;
    if sequences_scores_empty then Ok (o, snd out)
    else sc ← put (snd out) (sbase + index) (score item); Ok (o, sc)) out.
End hypotheses.

Section scorer.
Context (pow : f32 -> f32 -> f32).
(* the members the constructor sets once *)
Context (batch_size_ num_beams_ max_length_ : nat) (pad_token_id_ eos_token_id_ : Z) (early_stopping_ : bool).

(** Space for hypotheses of every length from the prompt's to the maximum;
    the arithmetic is that of [int]. *)
Definition per_beam (sequence_length : Z) : outcome Z :=
  let m := Z.of_nat max_length_ in
  m1 ← chk32 (m + 1); a ← chk32 (m * m1);
  s1 ← chk32 (sequence_length - 1); b ← chk32 (s1 * sequence_length);
  d ← chk32 (a - b); Ok (Z.quot d 2).

Definition BeamSearchScorer_new (length_penalty : f32) (sequence_length : Z) : outcome BeamSearchScorer :=
  let batch_beam_size := batch_size_ * num_beams_ in
  pb ← per_beam sequence_length;
  let count := Z.to_nat (u64 (Z.of_nat batch_beam_size * u64 pb)) in
  scores ← for_ batch_size_ (fun i sc =>
      for_ (num_beams_ - 1) (fun j sc =>
        put sc (i * num_beams_ + S j) (f32_of_Z (-1000000000))) sc)
    (replicate batch_beam_size f0);
  Ok (mkScorer (Z.of_nat batch_size_) scores (uninit batch_beam_size) (uninit batch_beam_size)
        (uninit count) 0 (replicate batch_size_ (Init length_penalty num_beams_))).

Definition write_next (at_ : nat) (sc : f32) (tok ix : Z) (s : BeamSearchScorer) : outcome BeamSearchScorer :=
  a ← put (next_beam_scores_ s) at_ sc;
  b ← put (next_beam_tokens_ s) at_ (Some tok);
  c ← put (next_beam_indices_ s) at_ (Some ix);
  Ok (set_next a b c s).

Definition is_eos (tok : Z) : bool := (0 <=? eos_token_id_)%Z && (tok =? eos_token_id_)%Z.

(* clone the sequence and append it to the buffer *)
Definition end_hypothesis (sequences : Sequences) (batch : nat) (batch_beam_idx : Z) (next_score : f32)
    (s : BeamSearchScorer) : outcome BeamSearchScorer :=
  let sequence_length := GetSequenceLength sequences in
  src ← (if decide (0 <= batch_beam_idx)%Z
         then GetSequence sequences (Z.to_nat batch_beam_idx) else Undef);
  let off := hypothesis_buffer_used_ s in
  _ ← subspan (hypothesis_buffer_ s) off sequence_length;
  buf ← copy true (hypothesis_buffer_ s) off sequence_length (map Some src);
  used ← int_nat (off + sequence_length);
  beam_hyp ← get (beam_hyps_ s) batch;
  beam_hyp ← Add pow beam_hyp (InBuffer off sequence_length) next_score;
  Ok (set_beam_hyps (<[batch := beam_hyp]> (beam_hyps_ s)) (set_buffer buf used s)).

(* the candidates of one batch entry: [n] left, the next one is [j] *)
Fixpoint candidates (sequences : Sequences) (next_scores : list f32) (next_tokens next_indices : list Z)
    (batch n j beam_idx : nat) (s : BeamSearchScorer) : outcome (BeamSearchScorer * nat) :=
  match n with
  | O => Ok (s, beam_idx)
  | S n' =>
      let top_k := 2 * num_beams_ in
      next_token ← get next_tokens (batch * top_k + j);
      next_score ← get next_scores (batch * top_k + j);
      next_index ← get next_indices (batch * top_k + j);
      batch_beam_idx ← chk32 (i32 (Z.of_nat (batch * num_beams_)) + next_index);
      if is_eos next_token && (num_beams_ <=? j) then
        candidates sequences next_scores next_tokens next_indices batch n' (S j) beam_idx s
      else
        '(s, beam_idx) ←
          (if is_eos next_token then
             s ← end_hypothesis sequences batch batch_beam_idx next_score s; Ok (s, beam_idx)
           else
             s ← write_next (batch * num_beams_ + beam_idx) next_score next_token batch_beam_idx s;
             Ok (s, S beam_idx));
        if (beam_idx =? num_beams_)%nat then Ok (s, beam_idx)
        else candidates sequences next_scores next_tokens next_indices batch n' (S j) beam_idx s
  end.

Definition process_batch (sequences : Sequences) (next_scores : list f32) (next_tokens next_indices : list Z)
    (batch : nat) (s : BeamSearchScorer) : outcome BeamSearchScorer :=
  beam_hyp ← get (beam_hyps_ s) batch;
  if done_ beam_hyp then
    _ ← assert_ (beams_used_ beam_hyp =? num_beams_)%nat;
    for_ num_beams_ (fun j s => write_next (batch * num_beams_ + j) f0 pad_token_id_ 0%Z s) s
  else
    let top_k := 2 * num_beams_ in
    '((s, beam_idx) : BeamSearchScorer * nat) ← candidates sequences next_scores next_tokens next_indices batch top_k 0 0 s;
    _ ← assert_ (beam_idx =? num_beams_)%nat;
    _ ← assert_ (hypothesis_buffer_used_ s <=? length (hypothesis_buffer_ s))%nat;
    beam_hyp ← get (beam_hyps_ s) batch;
    if (beams_used_ beam_hyp <? num_beams_)%nat then Ok s else
    improve ←
      (if early_stopping_ then Ok false else
       topk_scores ← subspan next_scores (batch * num_beams_) top_k;
       best ← get topk_scores (max_element topk_scores);
       CanImprove pow beam_hyp best (GetSequenceLength sequences));
    if (improve : bool) then Ok s else
    let beam_hyp := mkBeamHyps (beams_ beam_hyp) (beams_used_ beam_hyp) (length_penalty_ beam_hyp) true in
    n ← chk32 (not_done_count_ s - 1);
    Ok (set_not_done_count n (set_beam_hyps (<[batch := beam_hyp]> (beam_hyps_ s)) s)).

Definition Process (s : BeamSearchScorer) (sequences : Sequences) (next_scores : list f32)
    (next_tokens next_indices : list Z) : outcome BeamSearchScorer :=
  _ ← assert_ (length next_scores =? length next_tokens)%nat;
  _ ← assert_ (length next_scores =? length next_indices)%nat;
  for_ batch_size_ (process_batch sequences next_scores next_tokens next_indices) s.

(* the open beams of one batch entry become hypotheses *)
Definition finalize_batch (sequences : Sequences) (batch_index : nat) (s : BeamSearchScorer)
  : outcome BeamSearchScorer :=
  beam_hyp ← get (beam_hyps_ s) batch_index;
  if done_ beam_hyp then Ok s else
  beam_hyp ← for_ num_beams_ (fun beam_index beam_hyp =>
      let batch_beam_index := batch_index * num_beams_ + beam_index in
      final_score ← get (next_beam_scores_ s) batch_beam_index;
      final_tokens ← GetSequence sequences batch_beam_index;
      Add pow beam_hyp (InSequences (batch_beam_index * Sequences.max_length_ sequences)
                          (length final_tokens)) final_score)
    beam_hyp;
  Ok (set_beam_hyps (<[batch_index := beam_hyp]> (beam_hyps_ s)) s).

Definition output_batch (debug : bool) (s : BeamSearchScorer) (sequences : Sequences) (num_return_sequences : nat)
    (batch_index : nat) (out : list Z * list f32) : outcome (list Z * list f32) :=
  beam_hyp ← get (beam_hyps_ s) batch_index;
  let base := batch_index * num_return_sequences * max_length_ in
  _ ← subspan (fst out) base (num_return_sequences * max_length_);
  let empty := bool_decide (snd out = []) in
  let sbase := batch_index * num_return_sequences in
  _ ← (if empty then Ok [] else subspan (snd out) sbase num_return_sequences : outcome (list f32));
  Output debug (hypothesis_buffer_ s) sequences beam_hyp num_return_sequences max_length_ base empty sbase out.

Definition Finalize (debug : bool) (s : BeamSearchScorer) (sequences : Sequences) (num_return_sequences : nat)
    (output : list Z) (sequence_scores : list f32) : outcome (BeamSearchScorer * (list Z * list f32)) :=
  s ← for_ batch_size_ (finalize_batch sequences) s;
  let output := replicate (length output) pad_token_id_ in
  out ← for_ batch_size_ (output_batch debug s sequences num_return_sequences) (output, sequence_scores);
  Ok (s, out).
End scorer.

(** ** Insertion by score

    The reference for [Add], over any data that carries a score: the new
    element goes in front of the longest suffix that scores lower. *)
Section insertion.
Context {A : Type} (sc : A -> f32).

Definition lower (x y : A) : bool := flt (sc y) (sc x).

Fixpoint ins (x : A) (l : list A) : list A :=
  match l with
  | [] => [x]
  | y :: l' => if forallb (lower x) l then x :: l else y :: ins x l'
  end.

(* into at most [n] places *)
Definition add_ref (n : nat) (x : A) (l : list A) : list A :=
  if length l <? n then ins x l
  else match last l with
       | Some w => if fle (sc x) (sc w) then l else ins x (removelast l)
       | None => l
       end.

Lemma length_ins x l : length (ins x l) = S (length l).
Proof. induction l as [|y l IH]; cbn [ins]; [done|]. case_match; simpl; [done|]. by rewrite IH. Qed.

Lemma ins_snoc_lower x l y : lower x y = true -> ins x (l ++ [y]) = ins x l ++ [y].
Proof.
  intros H. induction l as [|z l IH]; cbn [ins app]; [simpl; by rewrite H|].
  rewrite IH. change (z :: l ++ [y]) with ((z :: l) ++ [y]).
  rewrite forallb_app. simpl (forallb _ [y]). rewrite H, andb_true_r. by case_match.
Qed.

Lemma ins_snoc_not x l y : lower x y = false -> ins x (l ++ [y]) = l ++ [y; x].
Proof.
  intros H. induction l as [|z l IH]; cbn [ins app]; [simpl; by rewrite H|].
  rewrite IH. change (z :: l ++ [y]) with ((z :: l) ++ [y]).
  rewrite forallb_app. simpl (forallb _ [y]). by rewrite H, andb_false_r.
Qed.

Lemma ins_perm x l : ins x l ≡ₚ x :: l.
Proof.
  induction l as [|y l IH]; cbn [ins]; [done|]. case_match; [done|]. rewrite IH. apply Permutation_swap.
Qed.

Lemma add_ref_length n x l : length l <= n -> length (add_ref n x l) = (length l + 1) `min` n.
Proof.
  intros Hl. unfold add_ref. destruct (Nat.ltb_spec (length l) n) as [H|H].
  - rewrite length_ins. lia.
  - destruct l as [|w l] using rev_ind; [assert (n = 0) as -> by (simpl in *; lia); done|].
    rewrite last_snoc, removelast_last. rewrite length_app in *. simpl in *.
    destruct (fle (sc x) (sc w)); rewrite ?length_ins, ?length_app; cbn [length]; lia.
Qed.

Lemma add_ref_Forall (P : A -> Prop) n x l : P x -> Forall P l -> Forall P (add_ref n x l).
Proof.
  intros Hx Hl. unfold add_ref. case_match; [rewrite ins_perm; by constructor|].
  destruct l as [|w l _] using rev_ind; [done|]. rewrite last_snoc, removelast_last.
  case_match; [done|]. apply Forall_app in Hl as [Hl _]. rewrite ins_perm. by constructor.
Qed.

(** Best first; a list in which no element is exceeded by a later one. *)
Definition desc : list A -> Prop := StronglySorted (fun a b => flt (sc a) (sc b) = false).
Definition no_nan (l : list A) : Prop := Forall (fun a => is_nan (sc a) = false) l.

Lemma lower_suffix x y l :
  is_nan (sc x) = false -> no_nan (y :: l) -> desc (y :: l) -> lower x y = true ->
  forallb (lower x) (y :: l) = true.
Proof.
  intros Hx Hn Hd Hy. apply forallb_forall. intros z Hz%list_elem_of_In.
  apply elem_of_cons in Hz as [->|Hz]; [done|].
  apply StronglySorted_inv in Hd as [_ Hd]. rewrite Forall_forall in Hd. specialize (Hd z Hz).
  unfold no_nan in Hn. rewrite Forall_cons, Forall_forall in Hn. destruct Hn as [Hny Hn].
  unfold lower in *. destruct (flt (sc z) (sc x)) eqn:E; [done|].
  rewrite <- Hy. symmetry. eapply flt_neg_trans; [..|exact Hd|exact E]; auto.
Qed.

(** Without NaN, insertion into a sorted list splits it by the new score. *)
Lemma ins_split x l :
  is_nan (sc x) = false -> no_nan l -> desc l ->
  ins x l = filter (fun y => lower x y = false) l ++ x :: filter (fun y => lower x y = true) l.
Proof.
  intros Hx. induction l as [|y l IH]; intros Hn Hd; cbn [ins]; [done|].
  destruct (lower x y) eqn:E.
  - rewrite (lower_suffix x y l) by done.
    pose proof (lower_suffix x y l Hx Hn Hd E) as F. rewrite forallb_forall in F.
    assert (∀ z, z ∈ y :: l -> lower x z = true) as G by (intros z ?%list_elem_of_In; auto).
    apply Forall_forall in G.
    rewrite (filter_all (fun z => lower x z = true)) by done.
    rewrite (filter_none (fun z => lower x z = false)); [done|].
    eapply Forall_impl; [exact G|]. intros z Hz. simpl. by rewrite Hz.
  - replace (forallb (lower x) (y :: l)) with false by (simpl; by rewrite E).
    rewrite filter_cons_True, filter_cons_False by congruence. simpl. f_equal.
    apply Forall_cons in Hn as [_ Hn]. apply StronglySorted_inv in Hd as [Hd _]. auto.
Qed.

Lemma ins_desc x l :
  is_nan (sc x) = false -> no_nan l -> desc l -> desc (ins x l).
Proof.
  intros Hx. induction l as [|y l IH]; intros Hn Hd; cbn [ins]; [repeat constructor|].
  destruct (forallb (lower x) (y :: l)) eqn:F.
  - constructor; [done|]. rewrite forallb_forall in F. apply Forall_forall. intros z Hz%list_elem_of_In.
    apply flt_asym. by apply F.
  - apply Forall_cons in Hn as Hn'. destruct Hn' as [Hny Hn'].
    apply StronglySorted_inv in Hd as Hd'. destruct Hd' as [Hd' Hy].
    constructor; [by apply IH|]. rewrite ins_perm. constructor; [|done].
    destruct (lower x y) eqn:E; [|done]. by rewrite (lower_suffix x y l) in F.
Qed.

Lemma ins_no_nan x l : is_nan (sc x) = false -> no_nan l -> no_nan (ins x l).
Proof. intros Hx Hn. unfold no_nan. rewrite ins_perm. by constructor. Qed.

(** Without NaN, [add_ref] is insertion followed by dropping the worst. *)
Lemma add_ref_take n x l :
  is_nan (sc x) = false -> no_nan l -> 0 < n -> length l <= n -> add_ref n x l = take n (ins x l).
Proof.
  intros Hx Hn H0 Hl. unfold add_ref. destruct (Nat.ltb_spec (length l) n) as [H|H].
  - rewrite take_ge; [done|]. rewrite length_ins. lia.
  - destruct l as [|w l] using rev_ind; [simpl in *; lia|]. clear IHl.
    rewrite last_snoc, removelast_last. rewrite length_app in *. simpl in *.
    unfold no_nan in Hn. rewrite Forall_app, Forall_singleton in Hn. destruct Hn as [Hn Hw].
    rewrite fle_flt by done. destruct (flt (sc w) (sc x)) eqn:E; simpl.
    + rewrite ins_snoc_lower by done. rewrite take_app_le by (rewrite length_ins; lia).
      rewrite take_ge; [done|]. rewrite length_ins. lia.
    + rewrite ins_snoc_not by done. replace (l ++ [w; x]) with ((l ++ [w]) ++ [x]) by by rewrite <- app_assoc.
      rewrite take_app_le by (rewrite length_app; simpl; lia).
      rewrite take_ge; [done|]. rewrite length_app; simpl; lia.
Qed.
End insertion.

(** ** The hypotheses of one batch entry *)
Section add.
Context (pow : f32 -> f32 -> f32).

(** [b] holds the hypotheses [l], best first. *)
Definition holds (b : BeamHypotheses) (l : list HypothesisScore) : Prop :=
  (∃ rest, beams_ b = map Some l ++ rest) ∧ beams_used_ b = length l.

Lemma holds_length b l : holds b l -> length l <= length (beams_ b).
Proof. intros [[rest E] _]. rewrite E, length_app, length_map. lia. Qed.

Lemma Init_holds pen n : holds (Init pen n) [].
Proof. split; [by exists (uninit n)|done]. Qed.

Lemma rotate_spec x l : ∀ junk rest,
  ∃ bs i, rotate (score x) (map Some l ++ junk :: rest) (length l) = Ok (bs, i) ∧
          put bs i (Some x) = Ok (map Some (ins score x l) ++ rest).
Proof.
  induction l as [|y l IH] using rev_ind; intros junk rest.
  - exists (junk :: rest), 0. split; [done|]. by rewrite put_lt by (simpl; lia).
  - rewrite length_app, Nat.add_comm. simpl. rewrite map_app, <- app_assoc. simpl.
    rewrite (get_init_Some _ _ y) by (rewrite lookup_app_r, length_map, Nat.sub_diag; rewrite ?length_map; done).
    cbn. destruct (flt (score y) (score x)) eqn:E.
    + rewrite put_lt by (rewrite length_app, length_map; simpl; lia). cbn.
      replace (<[S (length l) := Some y]> (map Some l ++ Some y :: junk :: rest))
        with (map Some l ++ Some y :: Some y :: rest).
      2:{ rewrite insert_app_r_alt by (rewrite length_map; lia).
          rewrite length_map. by replace (S (length l) - length l) with 1 by lia. }
      destruct (IH (Some y) (Some y :: rest)) as (bs & i & E1 & E2).
      exists bs, i. split; [done|]. rewrite E2, ins_snoc_lower by done.
      by rewrite map_app, <- app_assoc.
    + exists (map Some l ++ Some y :: junk :: rest), (S (length l)). split; [done|].
      rewrite put_lt by (rewrite length_app, length_map; simpl; lia).
      rewrite insert_app_r_alt by (rewrite length_map; lia).
      rewrite length_map, ins_snoc_not by done.
      replace (S (length l) - length l) with 1 by lia. simpl. by rewrite map_app, <- app_assoc.
Qed.

(** [Add] is the reference insertion. *)
Lemma Add_ref b l hyp sum :
  holds b l -> 0 < length (beams_ b) ->
  ∃ b', Add pow b hyp sum = Ok b' ∧
        holds b' (add_ref score (length (beams_ b)) (mkHyp hyp (hyp_score pow b (span_size hyp) sum)) l) ∧
        length (beams_ b') = length (beams_ b) ∧ length_penalty_ b' = length_penalty_ b ∧
        done_ b' = done_ b.
Proof.
  intros Hh H0. pose proof (holds_length _ _ Hh) as Hlen. destruct Hh as [[rest E] Hu].
  unfold Add, add_ref. rewrite Hu. cbv zeta.
  remember (mkHyp hyp (hyp_score pow b (span_size hyp) sum)) as x eqn:Ex.
  replace (hyp_score pow b (span_size hyp) sum) with (score x) by by rewrite Ex.
  clear Ex.
  assert (length (beams_ b) = length l + length rest) as Hsum by by rewrite E, length_app, length_map.
  destruct (decide (length l = length (beams_ b))) as [Hf|Hf].
  - destruct (Nat.ltb_spec (length l) (length (beams_ b))) as [?|_]; [lia|].
    destruct l as [|w l _] using rev_ind; [simpl in *; lia|].
    rewrite last_snoc, removelast_last. assert (rest = []) as -> by (apply length_zero_iff_nil; lia).
    rewrite app_nil_r in E. rewrite length_app, Nat.add_comm. simpl.
    rewrite (get_init_Some _ _ w).
    2:{ rewrite E, map_app, lookup_app_r, length_map, Nat.sub_diag; rewrite ?length_map; done. }
    cbn. destruct (fle (score x) (score w)).
    { exists b. split; [done|]. split; [|done]. split; [by exists []; rewrite app_nil_r|done]. }
    destruct (rotate_spec x l (Some w) []) as (bs & i & E1 & E2).
    rewrite E, map_app. simpl. rewrite E1. cbn. rewrite E2. cbn. eexists. split; [done|].
    rewrite app_nil_r in *. repeat split; simpl.
    + exists []. by rewrite app_nil_r.
    + by rewrite length_ins.
    + by rewrite length_map, length_ins, length_app, length_map, Nat.add_comm.
  - destruct (Nat.ltb_spec (length l) (length (beams_ b))) as [_|?]; [|lia].
    destruct rest as [|junk rest]; [simpl in *; lia|].
    destruct (rotate_spec x l junk rest) as (bs & i & E1 & E2).
    rewrite E, E1. cbn. rewrite E2. cbn. eexists. split; [done|]. repeat split; simpl.
    + by exists rest.
    + by rewrite length_ins.
    + rewrite !length_app, !length_map, length_ins. simpl. lia.
Qed.
End add.

(** C30: adding a hypothesis keeps the best of the old ones and the new one, in
    descending order of score, as many as there are places: the new one stands
    after every hypothesis that scores as much or more and before every one
    that scores less, and only the last one can be lost. *)
Theorem Add_keeps_best (pow : f32 -> f32 -> f32) (b : BeamHypotheses) (l : list HypothesisScore)
    (hyp : token_span) (sum : f32) :
  let x := mkHyp hyp (hyp_score pow b (span_size hyp) sum) in
  holds b l -> 0 < length (beams_ b) -> desc score l -> no_nan score l -> is_nan (score x) = false ->
  ∃ b', Add pow b hyp sum = Ok b' ∧ length (beams_ b') = length (beams_ b) ∧
        let l' := filter (fun y => flt (score y) (score x) = false) l
                    ++ x :: filter (fun y => flt (score y) (score x) = true) l in
        holds b' (take (length (beams_ b)) l') ∧ desc score l' ∧ l' ≡ₚ x :: l.
Proof.
  intros x Hh H0 Hd Hn Hx.
  destruct (Add_ref pow b l hyp sum Hh H0) as (b' & E & Hh' & Hl & _). fold x in Hh'.
  rewrite add_ref_take in Hh' by (done || by apply holds_length).
  rewrite (ins_split score x l) in Hh' by done.
  exists b'. split; [done|]. split; [done|]. split; [exact Hh'|].
  pose proof (ins_split score x l Hx Hn Hd) as Es. unfold lower in Es. rewrite <- Es.
  split; [by apply ins_desc|apply ins_perm].
Qed.

(** ** What [Process] computes

    A hypothesis is now its tokens and its score, a batch entry the list of its
    hypotheses and whether it is done, a candidate a score, a token and the
    beam it extends.  No buffer, no span: [Process_refines] shows that the
    clones never alias, never overflow and are never overwritten. *)
Abbreviation hyp := (list Z * f32)%type (only parsing).
Abbreviation entry := (list (list Z * f32) * bool)%type (only parsing).
Abbreviation cand := (f32 * Z * Z)%type (only parsing).

Section spec.
Context (pow : f32 -> f32 -> f32) (nb : nat) (pad eos : Z) (early : bool) (pen : f32).


Definition eos_cand (c : cand) : Prop := is_eos eos c.1.2 = true.
#[export] Instance eos_cand_dec c : Decision (eos_cand c) := decide (is_eos eos c.1.2 = true).

Definition selected (cs : list cand) : list cand := take nb (filter (fun c => ¬ eos_cand c) cs).

(* the hypothesis a candidate ends, its rows being those of the batch entry *)
Definition ended (rows : list (list Z)) (c : cand) : hyp :=
  let r := rows !!! Z.to_nat c.2 in
  (r, fdiv c.1.1 (pow (f32_of_Z (Z.of_nat (length r))) pen)).

Definition add_hyp (rows : list (list Z)) (hs : list hyp) (c : cand) : list hyp :=
  add_ref snd nb (ended rows c) hs.

(* an end of sequence counts among the best [nb] candidates only *)
Definition new_hyps (rows : list (list Z)) (cs : list cand) (hs : list hyp) : list hyp :=
  foldl (add_hyp rows) hs (filter eos_cand (take nb cs)).

Definition cannot_improve (window : list f32) (cur : nat) (hs : list hyp) : bool :=
  match last hs, window !! max_element window with
  | Some w, Some best => negb (flt w.2 (fdiv best (pow (f32_of_Z (Z.of_nat cur)) pen)))
  | _, _ => false
  end.

Definition spec_entry (rows : list (list Z)) (cs : list cand) (window : list f32) (cur : nat) (e : entry) : entry :=
  if e.2 then e else
  let hs := new_hyps rows cs e.1 in
  (hs, (length hs =? nb)%nat && (early || cannot_improve window cur hs)).

(* the beams of the next step *)
Definition spec_next (base : nat) (cs : list cand) (e : entry) : list cand :=
  if e.2 then replicate nb (f0, pad, 0%Z)
  else map (fun c => (c.1.1, c.1.2, (Z.of_nat base + c.2)%Z)) (selected cs).
End spec.

Section refinement.
Context (pow : f32 -> f32 -> f32).
Context (batch_size_ num_beams_ max_length_ : nat) (pad_token_id_ eos_token_id_ : Z) (early_stopping_ : bool)
        (pen : f32).
Local Abbreviation nb := num_beams_.
Local Abbreviation bb := (batch_size_ * num_beams_).

(** A stored hypothesis and the tokens it denotes: they lie in the part of the
    buffer that is in use. *)
Definition hyp_in (buf : list (option Z)) (used : nat) (h : HypothesisScore) (v : hyp) : Prop :=
  score h = v.2 ∧
  ∃ off, hypothesis h = InBuffer off (length v.1) ∧ off + length v.1 <= used ∧
         take (length v.1) (drop off buf) = map Some v.1.

Definition entry_rel (buf : list (option Z)) (used : nat) (b : BeamHypotheses) (e : entry) : Prop :=
  length (beams_ b) = nb ∧ length_penalty_ b = pen ∧ done_ b = e.2 ∧ (e.2 = true -> length e.1 = nb) ∧
  ∃ l, holds b l ∧ Forall2 (hyp_in buf used) l e.1.

Definition open (es : list entry) : nat := length (filter (fun e => e.2 = false) es).

Record scorer_rel (s : BeamSearchScorer) (es : list entry) : Prop := {
  sr_entries : Forall2 (entry_rel (hypothesis_buffer_ s) (hypothesis_buffer_used_ s)) (beam_hyps_ s) es;
  sr_batch : length es = batch_size_;
  sr_scores : length (next_beam_scores_ s) = bb;
  sr_tokens : length (next_beam_tokens_ s) = bb;
  sr_indices : length (next_beam_indices_ s) = bb;
  sr_used : hypothesis_buffer_used_ s <= length (hypothesis_buffer_ s);
  sr_open : not_done_count_ s = Z.of_nat (open es) }.

(** Room for the sequences of every length from [cur] on, each beam once. *)
Definition room (cur : nat) (s : BeamSearchScorer) : Prop :=
  (2 * Z.of_nat (hypothesis_buffer_used_ s)
     + Z.of_nat bb * (Z.of_nat max_length_ * (Z.of_nat max_length_ + 1)
                      - (Z.of_nat cur - 1) * Z.of_nat cur)
   <= 2 * Z.of_nat (length (hypothesis_buffer_ s)) <= 2 * INT_MAX)%Z.

Lemma hyp_in_mono buf used buf' used' h v :
  used <= used' -> used <= length buf -> take used buf' = take used buf ->
  hyp_in buf used h v -> hyp_in buf' used' h v.
Proof.
  intros Hu Hl Ht [Hs (off & Ho & Hb & Hv)]. split; [done|]. exists off. split; [done|].
  split; [lia|]. rewrite <- Hv. apply (list_eq_lt _ _ (length v.1)).
  - rewrite length_take, length_drop.
    assert (used <= length buf').
    { apply (f_equal length) in Ht. rewrite !length_take in Ht. lia. } lia.
  - rewrite length_take, length_drop. lia.
  - intros j Hj. rewrite !lookup_window by done.
    rewrite <- (lookup_take_lt buf' used), <- (lookup_take_lt buf used) by lia. by rewrite Ht.
Qed.

Lemma entry_rel_mono buf used buf' used' b e :
  used <= used' -> used <= length buf -> take used buf' = take used buf ->
  entry_rel buf used b e -> entry_rel buf' used' b e.
Proof.
  intros Hu Hl Ht (H1 & H2 & H3 & H4 & l & H5 & H6). repeat split; try done.
  exists l. split; [done|]. eapply Forall2_impl; [exact H6|]. intros. by eapply hyp_in_mono.
Qed.

(** The insertions of the stored list and of its abstraction agree. *)
Lemma ins_rel (R : HypothesisScore -> hyp -> Prop) x y l k :
  (∀ h v, R h v -> score h = v.2) -> R x y -> Forall2 R l k -> Forall2 R (ins score x l) (ins snd y k).
Proof.
  intros HR Hx. assert (∀ l k, Forall2 R l k -> forallb (lower score x) l = forallb (lower snd y) k) as F.
  { induction 1 as [|a b l' k' Hab _ IH]; [done|]. simpl. rewrite IH. f_equal.
    unfold lower. by rewrite (HR _ _ Hab), (HR _ _ Hx). }
  induction 1 as [|a b l k Hab Hlk IH]; cbn [ins]; [by apply Forall2_cons_2|].
  rewrite (F (a :: l) (b :: k)) by by constructor.
  destruct (forallb _ _); by repeat (apply Forall2_cons_2; [done|]).
Qed.

Lemma add_ref_rel (R : HypothesisScore -> hyp -> Prop) n x y l k :
  (∀ h v, R h v -> score h = v.2) -> R x y -> Forall2 R l k ->
  Forall2 R (add_ref score n x l) (add_ref snd n y k).
Proof.
  intros HR Hx Hl. unfold add_ref. rewrite (Forall2_length _ _ _ Hl).
  destruct (length k <? n); [by apply ins_rel|].
  destruct l as [|a l _] using rev_ind.
  { apply Forall2_nil_inv_l in Hl as ->. constructor. }
  apply Forall2_app_inv_l in Hl as (k' & kb & Hl & Hab & ->).
  apply Forall2_cons_inv_l in Hab as (b & ? & Hab & ->%Forall2_nil_inv_l & ->).
  rewrite !last_snoc, !removelast_last, (HR _ _ Hx), (HR _ _ Hab).
  destruct (fle _ _); [apply Forall2_app; [done|by apply Forall2_cons_2]|].
  by apply ins_rel.
Qed.

(** *** The candidates of one batch entry *)
Context (seqs : Sequences) (next_scores : list f32) (next_tokens next_indices : list Z).
Local Abbreviation cur := (current_length_ seqs).

Definition cands (batch : nat) : list cand :=
  take (2 * nb) (drop (batch * (2 * nb)) (zip (zip next_scores next_tokens) next_indices)).

Definition rows_of (batch : nat) : list (list Z) := take nb (drop (batch * nb) (rows seqs)).

(** Candidates as a search produces them: [2 * nb] of them, no two the same
    token for the same beam. *)
Definition valid_cands (cs : list cand) : Prop :=
  length cs = 2 * nb ∧ Forall (fun c => (0 <= c.2 < Z.of_nat nb)%Z) cs ∧
  NoDup (map (fun c => (c.1.2, c.2)) cs).

Local Abbreviation sel := (filter (fun c => ¬ eos_cand eos_token_id_ c)).
Local Abbreviation ends := (filter (eos_cand eos_token_id_)).

Definition ended_by (cs : list cand) (j : nat) : list cand := ends (take (j `min` nb) cs).
Arguments ended_by : simpl never.

Record cand_inv (batch : nat) (cs : list cand) (hs0 : list hyp) (s0 : BeamSearchScorer)
    (j : nat) (s : BeamSearchScorer) : Prop := {
  ci_scores : next_beam_scores_ s
    = list_inserts (batch * nb) (map (fun c => c.1.1) (selected nb eos_token_id_ (take j cs))) (next_beam_scores_ s0);
  ci_tokens : next_beam_tokens_ s
    = list_inserts (batch * nb) (map (fun c => Some c.1.2) (selected nb eos_token_id_ (take j cs))) (next_beam_tokens_ s0);
  ci_indices : next_beam_indices_ s
    = list_inserts (batch * nb) (map (fun c => Some (Z.of_nat (batch * nb) + c.2)%Z) (selected nb eos_token_id_ (take j cs)))
        (next_beam_indices_ s0);
  ci_used : hypothesis_buffer_used_ s0 <= hypothesis_buffer_used_ s
            <= hypothesis_buffer_used_ s0 + length (ended_by cs j) * cur;
  ci_len : length (hypothesis_buffer_ s) = length (hypothesis_buffer_ s0);
  ci_buf : take (hypothesis_buffer_used_ s0) (hypothesis_buffer_ s)
           = take (hypothesis_buffer_used_ s0) (hypothesis_buffer_ s0);
  ci_count : not_done_count_ s = not_done_count_ s0;
  ci_hyps : ∃ b, beam_hyps_ s = <[batch := b]> (beam_hyps_ s0) ∧
    entry_rel (hypothesis_buffer_ s) (hypothesis_buffer_used_ s) b
      (foldl (add_hyp pow nb pen (rows_of batch)) hs0 (ended_by cs j), false) }.

(** At most [nb] candidates end a sequence, so [nb] are left to continue. *)
Lemma ends_le cs : valid_cands cs -> length (ends cs) <= nb.
Proof.
  intros (_ & Hr & Hd).
  assert (NoDup (map (fun c => c.2) (ends cs))) as Hd'.
  { clear Hr. induction cs as [|c cs IH]; [constructor|]. simpl in Hd. apply NoDup_cons in Hd as [Hc Hd].
    rewrite filter_cons. destruct (decide _) as [He|]; [|auto]. simpl. constructor; [|auto].
    intros Hin. apply Hc. apply list_elem_of_fmap in Hin as (c' & E & Hin). apply list_elem_of_filter in Hin as [He' Hin].
    apply list_elem_of_fmap. exists c'. split; [|done]. unfold eos_cand, is_eos in He, He'.
    apply andb_true_iff in He as [_ He%Z.eqb_eq], He' as [_ He'%Z.eqb_eq].
    by rewrite He, He', E. }
  rewrite <- (length_map (fun c : cand => c.2)).
  pose proof (NoDup_incl_length (proj1 (NoDup_ListNoDup _) Hd') (l' := seqZ 0 (Z.of_nat nb))) as H.
  rewrite length_seqZ, Nat2Z.id in H. apply H. intros z Hz%list_elem_of_In.
  apply list_elem_of_In, elem_of_seqZ. apply list_elem_of_fmap in Hz as (c & -> & Hc).
  apply list_elem_of_filter in Hc as [_ Hc]. rewrite Forall_forall in Hr. specialize (Hr c Hc). lia.
Qed.

Lemma sel_ends_length (cs : list cand) : length (sel cs) + length (ends cs) = length cs.
Proof.
  induction cs as [|c cs IH]; [done|]. rewrite !filter_cons.
  destruct (decide (eos_cand eos_token_id_ c)) as [H|H]; repeat case_decide; simpl; try tauto; lia.
Qed.

Lemma filter_take_S {A} (P : A -> Prop) `{∀ x, Decision (P x)} l j c :
  l !! j = Some c ->
  filter P (take (S j) l) = filter P (take j l) ++ (if decide (P c) then [c] else []).
Proof.
  intros Hj. rewrite (take_S_r _ _ c) by done. rewrite filter_app. reflexivity.
Qed.

Section one_batch.
Context (batch : nat) (cs : list cand) (hs0 : list hyp) (s0 : BeamSearchScorer).
Context (Hbatch : batch < batch_size_) (Hcs : cs = cands batch) (Hvalid : valid_cands cs).
Context (Hwf : wf seqs) (Hrows : batch_beam_size_ seqs = bb).
Context (Hint : (Z.of_nat bb <= INT_MAX)%Z).
Context (Hroom : hypothesis_buffer_used_ s0 + nb * cur <= length (hypothesis_buffer_ s0))
        (Hbint : (Z.of_nat (length (hypothesis_buffer_ s0)) <= INT_MAX)%Z).
Context (Hl1 : length (next_beam_scores_ s0) = bb) (Hl2 : length (next_beam_tokens_ s0) = bb)
        (Hl3 : length (next_beam_indices_ s0) = bb) (Hlh : length (beam_hyps_ s0) = batch_size_).

Local Abbreviation INV := (cand_inv batch cs hs0 s0).
Local Abbreviation S_ := (fun j => selected nb eos_token_id_ (take j cs)).

Lemma ends_take_le j : length (ends (take j cs)) <= nb.
Proof.
  transitivity (length (ends cs)); [|by apply ends_le].
  rewrite <- (take_drop j cs) at 2. rewrite filter_app, length_app. lia.
Qed.

Lemma sel_take_all j : nb <= length (sel (take j cs)) ->
  selected nb eos_token_id_ (take j cs) = selected nb eos_token_id_ cs.
Proof.
  intros H. unfold selected. rewrite <- (take_drop j cs) at 2. rewrite filter_app.
  by rewrite take_app_le.
Qed.

(* a candidate that ends a sequence, among the best [nb] *)
Lemma clone_step j s c z :
  INV j s -> cs !! j = Some c -> j < nb -> is_eos eos_token_id_ c.1.2 = true ->
  z = (Z.of_nat (batch * nb) + c.2)%Z ->
  ∃ s', end_hypothesis pow seqs batch z c.1.1 s = Ok s' ∧ INV (S j) s'.
Proof.
  intros HI Hc Hj He ->. destruct HI as [H1 H2 H3 H4 H5 H6 H7 (b & Hb & Hrel)].
  destruct Hvalid as (Hlen & Hr & _). rewrite Forall_lookup in Hr. specialize (Hr j c Hc).
  unfold end_hypothesis. cbv zeta. rewrite decide_True by lia.
  replace (Z.to_nat (Z.of_nat (batch * nb) + c.2)) with (batch * nb + Z.to_nat c.2) by lia.
  assert (Z.to_nat c.2 < nb) as Hix by lia.
  pose proof (row_index batch batch_size_ _ nb Hbatch Hix) as Hrow.
  rewrite GetSequence_row by (done || lia). cbn.
  assert (rows_of batch !! Z.to_nat c.2 = Some (row seqs (batch * nb + Z.to_nat c.2))) as Hro.
  { unfold rows_of. rewrite lookup_window by done. apply lookup_rows. lia. }
  set (r := row seqs (batch * nb + Z.to_nat c.2)) in *.
  assert (length r = cur) as Hr' by (apply length_row; [done|lia]).
  pose proof (ends_take_le (S j `min` nb)) as HeS. fold (ended_by cs (S j)) in HeS.
  assert (ended_by cs (S j) = ended_by cs j ++ [c]) as Een.
  { unfold ended_by. rewrite !Nat.min_l by lia. by rewrite (filter_take_S _ cs j c Hc), decide_True. }
  assert (selected nb eos_token_id_ (take (S j) cs) = selected nb eos_token_id_ (take j cs)) as Esel.
  { unfold selected. rewrite (filter_take_S _ cs j c Hc), decide_False, app_nil_r; [done|].
    intros Hn. by apply Hn. }
  rewrite Een, length_app in HeS. simpl in HeS.
  assert (hypothesis_buffer_used_ s + cur <= length (hypothesis_buffer_ s)) as Hfit by (rewrite H5; nia).
  unfold GetSequenceLength. rewrite subspan_le by done. cbn. unfold copy. rewrite length_map, Hr', Nat.eqb_refl. simpl.
  rewrite blit_le by (rewrite length_map, Hr'; done). cbn.
  rewrite int_nat_ok by lia. cbn. rewrite Hb.
  rewrite (get_Some _ _ b) by (rewrite list_lookup_insert_eq; [done|lia]). cbn.
  destruct Hrel as (R1 & R2 & R3 & R4 & l & Hh & Hf).
  destruct (Add_ref pow b l (InBuffer (hypothesis_buffer_used_ s) cur) c.1.1 Hh) as (b' & E & Hh' & B1 & B2 & B3); [lia|].
  rewrite E. cbn. eexists. split; [done|]. split; simpl; rewrite ?Esel; try done.
  - rewrite Een, length_app. simpl. nia.
  - by rewrite length_inserts.
  - rewrite <- H6. rewrite !(list_eq_lt (take _ (list_inserts _ _ _)) (take (hypothesis_buffer_used_ s0) (hypothesis_buffer_ s)) (hypothesis_buffer_used_ s0)); [done|..].
    + rewrite length_take, length_inserts. lia.
    + rewrite length_take. lia.
    + intros i Hi. rewrite !lookup_take_lt by done. by rewrite list_lookup_inserts_lt by lia.
  - exists b'. split; [by rewrite list_insert_insert_eq|].
    repeat split; [congruence|congruence|by rewrite B3|done|].
    eexists. split; [exact Hh'|]. rewrite Een, foldl_app, R1. simpl.
    unfold add_hyp at 1. apply add_ref_rel; [by intros ?? [? _]|..].
    + unfold ended. rewrite (list_lookup_total_correct _ _ _ Hro). split.
      * simpl. unfold hyp_score. by rewrite R2, Hr'.
      * exists (hypothesis_buffer_used_ s). simpl. rewrite Hr'. repeat split; [lia|].
        rewrite <- Hr', <- (length_map (Some (A:=Z))). by apply window_inserts_same; rewrite length_map, Hr'.
    + eapply Forall2_impl; [exact Hf|]. intros x y. apply hyp_in_mono; [lia|lia|].
      apply (list_eq_lt _ _ (hypothesis_buffer_used_ s)).
      * rewrite length_take, length_inserts. lia.
      * rewrite length_take. lia.
      * intros i Hi. rewrite !lookup_take_lt by done. by rewrite list_lookup_inserts_lt by lia.
Qed.

(* a candidate that continues a sequence *)
Lemma next_step j s c z :
  INV j s -> cs !! j = Some c -> is_eos eos_token_id_ c.1.2 = false ->
  length (S_ j) < nb -> z = (Z.of_nat (batch * nb) + c.2)%Z ->
  ∃ s', write_next (batch * nb + length (S_ j)) c.1.1 c.1.2 z s = Ok s' ∧ INV (S j) s' ∧
        length (S_ (S j)) = S (length (S_ j)).
Proof.
  intros [H1 H2 H3 H4 H5 H6 H7 H8] Hc He Hl ->.
  pose proof (row_index batch batch_size_ _ nb Hbatch Hl) as Hrow.
  assert (S_ (S j) = S_ j ++ [c]) as Esel.
  { unfold selected in *. rewrite (filter_take_S _ cs j c Hc), decide_True; [|unfold eos_cand; congruence].
    rewrite length_take in Hl. rewrite (take_ge (sel (take j cs)) nb) by lia.
    rewrite take_ge; [done|]. rewrite length_app. simpl. lia. }
  assert (ended_by cs (S j) = ended_by cs j) as Een.
  { unfold ended_by. destruct (decide (j < nb)).
    - rewrite !Nat.min_l by lia. rewrite (filter_take_S _ cs j c Hc), decide_False, app_nil_r; [done|].
      unfold eos_cand. congruence.
    - by rewrite !Nat.min_r by lia. }
  unfold write_next. rewrite H1, H2, H3, !put_lt by (rewrite length_inserts; lia). cbn.
  eexists. split; [done|]. rewrite Esel. split; [|rewrite length_app; simpl; lia].
  split; simpl; rewrite ?Een, ?Esel, ?map_app; try done;
    simpl; rewrite <- inserts_snoc; by rewrite length_map.
Qed.

(* an end of sequence beyond the best [nb] *)
Lemma skip_step j s c :
  INV j s -> cs !! j = Some c -> is_eos eos_token_id_ c.1.2 = true -> nb <= j ->
  INV (S j) s ∧ S_ (S j) = S_ j.
Proof.
  intros [H1 H2 H3 H4 H5 H6 H7 H8] Hc He Hj.
  assert (S_ (S j) = S_ j) as Esel.
  { unfold selected. rewrite (filter_take_S _ cs j c Hc), decide_False, app_nil_r; [done|].
    intros Hn. by apply Hn. }
  assert (ended_by cs (S j) = ended_by cs j) as Een by (unfold ended_by; by rewrite !Nat.min_r by lia).
  split; [|done]. split; rewrite ?Een, ?Esel; done.
Qed.

Lemma lookup_cands j c : cs !! j = Some c ->
  next_scores !! (batch * (2 * nb) + j) = Some c.1.1 ∧
  next_tokens !! (batch * (2 * nb) + j) = Some c.1.2 ∧
  next_indices !! (batch * (2 * nb) + j) = Some c.2.
Proof.
  rewrite Hcs. unfold cands. intros H. apply lookup_lt_Some in H as Hj. rewrite length_take in Hj.
  rewrite lookup_window in H by lia.
  destruct c as [[sc tok] ix]. apply lookup_zip_Some in H as [H H3]. apply lookup_zip_Some in H as [H1 H2].
  done.
Qed.

(** The loop finds [nb] continuations and stops. *)
Lemma candidates_spec n : ∀ j s,
  j + n = 2 * nb -> INV j s -> length (S_ j) < nb ->
  ∃ s', candidates pow nb eos_token_id_ seqs next_scores next_tokens next_indices batch n j (length (S_ j)) s
          = Ok (s', nb) ∧ INV (2 * nb) s'.
Proof.
  destruct Hvalid as (Hlen & Hr & _).
  induction n as [|n IH]; intros j s Hj HI Hlt.
  { exfalso. pose proof (ends_le cs Hvalid). pose proof (sel_ends_length cs).
    rewrite Nat.add_0_r in Hj. subst j. unfold selected in Hlt.
    rewrite (take_ge cs), length_take in Hlt by lia. lia. }
  destruct (lookup_lt_is_Some_2 cs j) as [c Hc]; [lia|].
  destruct (lookup_cands j c Hc) as (L1 & L2 & L3).
  rewrite Forall_lookup in Hr. specialize (Hr j c Hc) as Hix.
  pose proof (row_index batch batch_size_ (Z.to_nat c.2) nb Hbatch ltac:(lia)) as Hrow.
  pose proof (row_bound batch batch_size_ nb Hbatch) as Hrb.
  unfold INT_MAX in Hint.
  cbn [candidates]. rewrite (get_Some _ _ _ L1), (get_Some _ _ _ L2), (get_Some _ _ _ L3), !bind_Ok.
  rewrite i32_id by (unfold INT_MIN, INT_MAX; lia).
  rewrite chk32_ok by (unfold INT_MIN, INT_MAX; lia). rewrite !bind_Ok.
  destruct (is_eos eos_token_id_ c.1.2) eqn:He; simpl andb.
  - destruct (Nat.leb_spec nb j) as [Hjn|Hjn].
    + destruct (skip_step j s c HI Hc He Hjn) as [HI' Esel].
      rewrite <- Esel. apply IH; [lia|done|by rewrite Esel].
    + destruct (clone_step j s c _ HI Hc Hjn He eq_refl) as (s1 & E & HI'). rewrite E, !bind_Ok.
      rewrite (proj2 (Nat.eqb_neq _ _)) by lia.
      assert (S_ (S j) = S_ j) as <-.
      { unfold selected. rewrite (filter_take_S _ cs j c Hc), decide_False, app_nil_r; [done|].
        intros Hn. by apply Hn. }
      apply IH; [lia|done|].
      unfold selected. rewrite (filter_take_S _ cs j c Hc), decide_False, app_nil_r; [done|].
      intros Hn. by apply Hn.
  - destruct (next_step j s c _ HI Hc He Hlt eq_refl) as (s1 & E & HI' & El). rewrite E, !bind_Ok.
    rewrite <- El. destruct (Nat.eqb_spec (length (S_ (S j))) nb) as [Hfull|Hfull].
    + rewrite Hfull. exists s1. split; [done|].
      assert (nb <= length (sel (take (S j) cs))) as Hge.
      { unfold selected in Hfull. rewrite length_take in Hfull. lia. }
      assert (nb <= S j) as Hjn.
      { pose proof (sel_ends_length (take (S j) cs)) as Hs. rewrite length_take in Hs. lia. }
      assert (ended_by cs (2 * nb) = ended_by cs (S j)) as Een
        by (unfold ended_by; by rewrite !Nat.min_r by lia).
      pose proof (sel_take_all (S j) Hge) as E1.
      assert (S_ (2 * nb) = S_ (S j)) as Esel by (rewrite E1, take_ge by lia; done).
      destruct HI' as [A1 A2 A3 A4 A5 A6 A7 A8]. split; rewrite ?Een, ?Esel; done.
    + apply IH; [lia|done|]. unfold selected in *. rewrite length_take in *. lia.
Qed.
End one_batch.

(** *** One batch entry *)
Definition window_of (batch : nat) : list f32 := take (2 * nb) (drop (batch * nb) next_scores).

Definition spec_entry_of (batch : nat) (e : entry) : entry :=
  spec_entry pow nb eos_token_id_ early_stopping_ pen (rows_of batch) (cands batch) (window_of batch) cur e.
Definition spec_next_of (batch : nat) (e : entry) : list cand :=
  spec_next nb pad_token_id_ eos_token_id_ (batch * nb) (cands batch) e.

(** [s'] is [s] with the next beams of one batch entry replaced. *)
Record next_written (batch : nat) (cs : list cand) (s s' : BeamSearchScorer) : Prop := {
  nw_scores : next_beam_scores_ s' = list_inserts (batch * nb) (map (fun c => c.1.1) cs) (next_beam_scores_ s);
  nw_tokens : next_beam_tokens_ s' = list_inserts (batch * nb) (map (fun c => Some c.1.2) cs) (next_beam_tokens_ s);
  nw_indices : next_beam_indices_ s' = list_inserts (batch * nb) (map (fun c => Some c.2) cs) (next_beam_indices_ s);
  nw_used : hypothesis_buffer_used_ s <= hypothesis_buffer_used_ s' <= hypothesis_buffer_used_ s + nb * cur;
  nw_len : length (hypothesis_buffer_ s') = length (hypothesis_buffer_ s) }.

Lemma open_insert (es : list entry) i (e e' : entry) : es !! i = Some e ->
  open (<[i := e']> es) + (if e.2 then 0 else 1) = open es + (if e'.2 then 0 else 1).
Proof.
  unfold open. revert i. induction es as [|a es IH]; intros [|i] H; [done|done|..]; simpl in H.
  - injection H as ->. simpl. rewrite !filter_cons.
    destruct e as [he []], e' as [he' []]; repeat case_decide; simpl in *; try done; lia.
  - simpl. rewrite !filter_cons. specialize (IH i H). case_decide; simpl; lia.
Qed.

Lemma pad_loop batch s n :
  n <= nb -> batch < batch_size_ -> length (next_beam_scores_ s) = bb ->
  length (next_beam_tokens_ s) = bb -> length (next_beam_indices_ s) = bb ->
  for_ n (fun j s => write_next (batch * nb + j) f0 pad_token_id_ 0%Z s) s
    = Ok (set_next (list_inserts (batch * nb) (replicate n f0) (next_beam_scores_ s))
                   (list_inserts (batch * nb) (replicate n (Some pad_token_id_)) (next_beam_tokens_ s))
                   (list_inserts (batch * nb) (replicate n (Some 0%Z)) (next_beam_indices_ s)) s).
Proof.
  intros Hn Hb H1 H2 H3. pose proof (row_bound batch batch_size_ nb Hb).
  destruct (for_inv (fun k s' => s' = set_next (list_inserts (batch * nb) (replicate k f0) (next_beam_scores_ s))
                   (list_inserts (batch * nb) (replicate k (Some pad_token_id_)) (next_beam_tokens_ s))
                   (list_inserts (batch * nb) (replicate k (Some 0%Z)) (next_beam_indices_ s)) s) n
    (fun j s => write_next (batch * nb + j) f0 pad_token_id_ 0%Z s) s) as (s' & E & ->); [..|done].
  - by destruct s.
  - intros j s1 Hj ->. eexists. split; [|reflexivity]. unfold write_next, set_next.
    cbn [next_beam_scores_ next_beam_tokens_ next_beam_indices_].
    rewrite !put_lt by (rewrite length_inserts; lia). rewrite !bind_Ok.
    unfold set_next. cbn [next_beam_scores_ next_beam_tokens_ next_beam_indices_ not_done_count_
      hypothesis_buffer_ hypothesis_buffer_used_ beam_hyps_].
    rewrite !replicate_S_end, <- !inserts_snoc, !length_replicate. done.
Qed.

(** The entries after the candidates were consumed. *)
Lemma entries_after batch hs0 s0 s1 es :
  batch < batch_size_ -> scorer_rel s0 es -> es !! batch = Some (hs0, false) ->
  cand_inv batch (cands batch) hs0 s0 (2 * nb) s1 -> length (cands batch) = 2 * nb ->
  hypothesis_buffer_used_ s1 <= length (hypothesis_buffer_ s1) ->
  scorer_rel s1 (<[batch := (new_hyps pow nb eos_token_id_ pen (rows_of batch) (cands batch) hs0, false)]> es) ∧
  next_written batch (spec_next_of batch (hs0, false)) s0 s1.
Proof.
  intros Hb [E1 E2 E3 E4 E5 E6 E7] Ee [H1 H2 H3 H4 H5 H6 H7 (b & Hbh & Hrel)] Hlen Hused.
  assert (ended_by (cands batch) (2 * nb) = filter (eos_cand eos_token_id_) (take nb (cands batch))) as Een
    by (unfold ended_by; by rewrite Nat.min_r by lia).
  rewrite Een in *. rewrite (take_ge (cands batch)) in H1, H2, H3 by lia.
  split; split.
  - rewrite Hbh. apply Forall2_insert; [|exact Hrel].
    eapply Forall2_impl; [exact E1|]. intros x y. apply entry_rel_mono; [lia|done|done].
  - by rewrite length_insert.
  - by rewrite H1, length_inserts.
  - by rewrite H2, length_inserts.
  - by rewrite H3, length_inserts.
  - done.
  - rewrite H7, E7. f_equal. pose proof (open_insert es batch _
      (new_hyps pow nb eos_token_id_ pen (rows_of batch) (cands batch) hs0, false) Ee). simpl in *. lia.
  - rewrite H1. unfold spec_next_of, spec_next. simpl. by rewrite map_map.
  - rewrite H2. unfold spec_next_of, spec_next. simpl. by rewrite map_map.
  - rewrite H3. unfold spec_next_of, spec_next. simpl. by rewrite map_map.
  - assert (length (filter (eos_cand eos_token_id_) (take nb (cands batch))) <= nb).
    { etransitivity; [apply length_filter|]. rewrite length_take. lia. } nia.
  - done.
Qed.
(** The inputs of [Process] from a search over [seqs]. *)
Record valid_input : Prop := {
  vi_nb : 0 < nb;
  vi_tokens : length next_tokens = length next_scores;
  vi_indices : length next_indices = length next_scores;
  vi_length : length next_scores = batch_size_ * (2 * nb);
  vi_cands : ∀ batch, batch < batch_size_ -> valid_cands (cands batch);
  vi_wf : wf seqs;
  vi_rows : batch_beam_size_ seqs = bb;
  vi_int : (Z.of_nat bb <= INT_MAX)%Z }.

Lemma map_replicate_ {A B} (f : A -> B) n x : map f (replicate n x) = replicate n (f x).
Proof. apply (fmap_replicate f). Qed.

Lemma selected_0 cs : selected nb eos_token_id_ (take 0 cs) = [].
Proof. unfold selected. rewrite take_0. apply take_nil. Qed.

Lemma cand_inv_0 batch hs s0 b :
  beam_hyps_ s0 !! batch = Some b ->
  entry_rel (hypothesis_buffer_ s0) (hypothesis_buffer_used_ s0) b (hs, false) ->
  cand_inv batch (cands batch) hs s0 0 s0.
Proof.
  intros Hb Hr. split; rewrite ?selected_0; unfold ended_by; simpl; try done; [lia|].
  exists b. split; [by rewrite list_insert_id|done].
Qed.

(* the comparison that decides whether an entry can still improve *)
Lemma improve_spec batch b hs buf used :
  valid_input -> batch < batch_size_ -> length hs = nb ->
  entry_rel buf used b (hs, false) ->
  (topk_scores ← subspan next_scores (batch * nb) (2 * nb);
   best ← get topk_scores (max_element topk_scores);
   CanImprove pow b best (GetSequenceLength seqs))
    = Ok (negb (cannot_improve pow pen (window_of batch) cur hs)).
Proof.
  intros Hv Hb Hl (R1 & R2 & R3 & R4 & l & Hh & Hf). destruct Hv.
  pose proof (row_bound batch batch_size_ nb Hb).
  assert (length (window_of batch) = 2 * nb) as Hw by (apply length_window; nia).
  rewrite subspan_le by nia. rewrite bind_Ok. fold (window_of batch).
  destruct (get_lt (window_of batch) (max_element (window_of batch))) as (best & E & Eb).
  { apply max_element_lt. intros E. rewrite E in Hw. simpl in Hw. lia. }
  rewrite E, bind_Ok. unfold CanImprove, cannot_improve. rewrite Eb, R1.
  apply Forall2_length in Hf as Hlen. destruct nb as [|m] eqn:Enb; [lia|].
  destruct hs as [|w hs _] using rev_ind; [done|]. rewrite last_snoc.
  apply Forall2_app_inv_r in Hf as (l' & lb & Hf & Hw' & ->).
  apply Forall2_cons_inv_r in Hw' as (h & ? & [Hs _] & ->%Forall2_nil_inv_r & ->).
  rewrite length_app in Hl. simpl in Hl.
  destruct Hh as [[rest Hr] _]. apply Forall2_length in Hf.
  rewrite (get_init_Some _ _ h).
  2:{ rewrite Hr, map_app, <- app_assoc, lookup_app_r by (rewrite length_map; lia).
      rewrite length_map. by replace (m - length l') with 0 by lia. }
  cbn. unfold hyp_score, GetSequenceLength. by rewrite negb_involutive, Hs, R2.
Qed.

Lemma process_batch_spec batch s0 es e :
  valid_input -> batch < batch_size_ -> scorer_rel s0 es -> es !! batch = Some e ->
  hypothesis_buffer_used_ s0 + nb * cur <= length (hypothesis_buffer_ s0) ->
  (Z.of_nat (length (hypothesis_buffer_ s0)) <= INT_MAX)%Z ->
  ∃ s', process_batch pow nb pad_token_id_ eos_token_id_ early_stopping_ seqs next_scores next_tokens
          next_indices batch s0 = Ok s' ∧
        scorer_rel s' (<[batch := spec_entry_of batch e]> es) ∧
        next_written batch (spec_next_of batch e) s0 s'.
Proof.
  intros Hv Hb Hrel Ee Hroom Hbint. pose proof Hrel as [E1 E2 E3 E4 E5 E6 E7].
  destruct (Forall2_lookup_r _ _ _ _ _ E1 Ee) as (b & Eb & Her).
  unfold process_batch. rewrite (get_Some _ _ _ Eb), bind_Ok.
  destruct e as [hs [|]].
  - destruct Her as (R1 & R2 & R3 & R4 & l & [Hh Hu] & Hf). simpl in R3, R4. rewrite R3.
    apply Forall2_length in Hf as Hl. simpl in Hl. rewrite Hu, Hl, R4, Nat.eqb_refl by done. simpl assert_.
    rewrite bind_Ok, (pad_loop batch s0 nb) by done. eexists. split; [done|].
    unfold spec_entry_of, spec_entry. simpl fst. simpl snd. cbv iota.
    rewrite list_insert_id by done. split.
    + by split; simpl; rewrite ?length_inserts.
    + unfold spec_next_of, spec_next. simpl snd. cbv iota.
      split; simpl; rewrite ?map_replicate_; try done; lia.
  - destruct (cand_inv_0 batch hs s0 b Eb Her) as [A1 A2 A3 A4 A5 A6 A7 A8].
    destruct (candidates_spec batch (cands batch) hs s0) with (n := 2 * nb) (j := 0) (s := s0)
      as (s1 & Ec & HI); try done; try (by destruct Hv; eauto).
    { by rewrite <- E2, <- (Forall2_length _ _ _ E1). }
    { rewrite selected_0. apply (vi_nb Hv). }
    destruct Her as (R1 & R2 & R3 & R4 & _). simpl in R3. rewrite R3.
    rewrite selected_0 in Ec. simpl (length []) in Ec.
    rewrite Ec, bind_Ok, Nat.eqb_refl. simpl assert_. rewrite bind_Ok.
    pose proof HI as [_ _ _ B4 B5 B6 B7 (b1 & Eh & Her1)].
    set (hs' := new_hyps pow nb eos_token_id_ pen (rows_of batch) (cands batch) hs).
    assert (length (ended_by (cands batch) (2 * nb)) <= nb) as Hend.
    { unfold ended_by. rewrite Nat.min_r by lia. etransitivity; [apply length_filter|].
      rewrite length_take. lia. }
    assert (hypothesis_buffer_used_ s1 <= length (hypothesis_buffer_ s1)) as Hused by (rewrite B5; nia).
    rewrite (proj2 (Nat.leb_le _ _)) by done. simpl assert_. rewrite bind_Ok.
    destruct (entries_after batch hs s0 s1 es Hb Hrel Ee HI) as [Hr1 Hw1]; [apply (vi_cands Hv batch Hb)|done|].
    fold hs' in Hr1.
    rewrite Eh, (get_Some _ _ b1), bind_Ok
      by (rewrite list_lookup_insert_eq; [done|by apply lookup_lt_Some in Eb]).
    assert (entry_rel (hypothesis_buffer_ s1) (hypothesis_buffer_used_ s1) b1 (hs', false)) as Her2.
    { unfold hs', new_hyps. unfold ended_by in Her1. by rewrite Nat.min_r in Her1 by lia. }
    pose proof Her2 as (Q1 & Q2 & Q3 & _ & l & Hh & Hf).
    pose proof (holds_length _ _ Hh) as Hll. apply Forall2_length in Hf as Hlf. simpl in Hlf.
    rewrite (proj2 Hh), Hlf.
    unfold spec_entry_of, spec_entry. simpl snd. simpl fst. fold hs'. cbv iota zeta.
    destruct (Nat.ltb_spec (length hs') nb) as [Hlt|Hge].
    { exists s1. rewrite (proj2 (Nat.eqb_neq _ _)) by lia. done. }
    assert (length hs' = nb) as Hfull by lia. rewrite Hfull, Nat.eqb_refl.
    assert (∃ s', (n ← chk32 (not_done_count_ s1 - 1);
         Ok (set_not_done_count n (set_beam_hyps
           (<[batch := mkBeamHyps (beams_ b1) nb (length_penalty_ b1) true]> (<[batch := b1]> (beam_hyps_ s0))) s1))) = Ok s' ∧
       scorer_rel s' (<[batch := (hs', true)]> es) ∧
       next_written batch (spec_next_of batch (hs, false)) s0 s') as Hdone.
    { destruct Hr1 as [F1 F2 F3 F4 F5 F6 F7], Hw1 as [W1 W2 W3 W4 W5].
      assert (open (<[batch := (hs', false)]> es) = S (open (<[batch := (hs', true)]> es))) as Ho.
      { assert (<[batch := (hs', false)]> es !! batch = Some (hs', false)) as El
          by (rewrite list_lookup_insert_eq; [done|by apply lookup_lt_Some in Ee]).
        pose proof (open_insert _ _ _ (hs', true) El) as Ho.
        rewrite list_insert_insert_eq in Ho. simpl in Ho. lia. }
      assert (open (<[batch := (hs', false)]> es) <= batch_size_).
      { unfold open. etransitivity; [apply length_filter|]. by rewrite length_insert, E2. }
      rewrite chk32_ok.
      2:{ destruct Hv as [V _ _ _ _ _ _ V']. rewrite F7. unfold INT_MIN, INT_MAX in *. nia. }
      rewrite bind_Ok. eexists. split; [done|]. split; [|split; simpl; done].
      split; simpl; try done.
      - rewrite list_insert_insert_eq. apply Forall2_insert.
        + eapply Forall2_impl; [exact E1|]. intros x y. apply entry_rel_mono; [lia|done|done].
        + repeat split; simpl; try done. exists l. split; [|done]. destruct Hh as [Hh _]. split; [done|simpl; lia].
      - by rewrite length_insert.
      - rewrite F7, Ho. lia. }
    rewrite <- Eh in Hdone |- *.
    destruct early_stopping_; simpl orb; cbv iota.
    { rewrite bind_Ok. simpl. exact Hdone. }
    rewrite (improve_spec batch b1 hs' _ _ Hv Hb Hfull Her2), bind_Ok.
    destruct (cannot_improve _ _ _ _ _); simpl; [exact Hdone|by exists s1].
Qed.
(** *** A whole step *)
Definition step_entries (k : nat) (es : list entry) : list entry :=
  imap (fun i e => if decide (i < k) then spec_entry_of i e else e) es.

Lemma step_entries_S k es e : es !! k = Some e ->
  <[k := spec_entry_of k e]> (step_entries k es) = step_entries (S k) es.
Proof.
  intros He. apply list_eq. intros i. unfold step_entries.
  destruct (decide (i = k)) as [->|Hne].
  - apply lookup_lt_Some in He as Hk.
    rewrite list_lookup_insert_eq by (by rewrite length_imap).
    rewrite list_lookup_imap, He. simpl. by rewrite decide_True by lia.
  - rewrite list_lookup_insert_ne by done. rewrite !list_lookup_imap.
    destruct (es !! i); [|done]. simpl. f_equal. repeat case_decide; try done; lia.
Qed.

Lemma spec_next_length batch e :
  valid_input -> batch < batch_size_ -> length (spec_next_of batch e) = nb.
Proof.
  intros Hv Hb. unfold spec_next_of, spec_next. destruct e.2; [apply length_replicate|].
  rewrite length_map. unfold selected. rewrite length_take.
  pose proof (vi_cands Hv batch Hb) as Hc. pose proof (ends_le _ Hc).
  pose proof (sel_ends_length (cands batch)). destruct Hc as [Hc _]. lia.
Qed.

(** The next beams of a batch entry are those of the specification. *)
Definition next_beams (s : BeamSearchScorer) (batch : nat) (cs : list cand) : Prop :=
  take nb (drop (batch * nb) (next_beam_scores_ s)) = map (fun c => c.1.1) cs ∧
  take nb (drop (batch * nb) (next_beam_tokens_ s)) = map (fun c => Some c.1.2) cs ∧
  take nb (drop (batch * nb) (next_beam_indices_ s)) = map (fun c => Some c.2) cs.

Lemma window_inserts_row {A} (l k : list A) b1 b2 :
  length l = bb -> length k = nb -> b1 < batch_size_ ->
  take nb (drop (b2 * nb) (list_inserts (b1 * nb) k l))
    = if decide (b2 = b1) then k else take nb (drop (b2 * nb) l).
Proof.
  intros Hl Hk Hb. pose proof (row_bound b1 batch_size_ nb Hb).
  case_decide as E; [subst b2; rewrite <- Hk at 1; apply window_inserts_same; lia|].
  apply window_inserts_ne. rewrite Hk. nia.
Qed.

Lemma next_written_beams batch cs s s' b2 cs2 :
  scorer_rel s cs2 -> next_written batch cs s s' -> length cs = nb -> batch < batch_size_ ->
  (next_beams s' batch cs) ∧ (∀ cs', b2 ≠ batch -> next_beams s b2 cs' -> next_beams s' b2 cs').
Proof.
  intros [_ _ E1 E2 E3 _ _] [W1 W2 W3 _ _] Hl Hb. unfold next_beams. rewrite W1, W2, W3.
  rewrite !window_inserts_row by (rewrite ?length_map; done).
  rewrite !decide_True by done. split; [done|]. intros cs' Hne H.
  by rewrite !decide_False by done.
Qed.

Lemma Process_loop s es :
  valid_input -> scorer_rel s es ->
  hypothesis_buffer_used_ s + bb * cur <= length (hypothesis_buffer_ s) ->
  (Z.of_nat (length (hypothesis_buffer_ s)) <= INT_MAX)%Z ->
  ∃ s', Process pow batch_size_ nb pad_token_id_ eos_token_id_ early_stopping_ s seqs next_scores
          next_tokens next_indices = Ok s' ∧
        scorer_rel s' (imap spec_entry_of es) ∧
        hypothesis_buffer_used_ s' <= hypothesis_buffer_used_ s + bb * cur ∧
        length (hypothesis_buffer_ s') = length (hypothesis_buffer_ s) ∧
        ∀ batch e, es !! batch = Some e -> next_beams s' batch (spec_next_of batch e).
Proof.
  intros Hv Hrel Hroom Hint. unfold Process.
  rewrite (vi_tokens Hv), (vi_indices Hv), Nat.eqb_refl. simpl assert_. rewrite !bind_Ok.
  destruct (for_inv (fun k s' => scorer_rel s' (step_entries k es) ∧
      hypothesis_buffer_used_ s' <= hypothesis_buffer_used_ s + k * nb * cur ∧
      length (hypothesis_buffer_ s') = length (hypothesis_buffer_ s) ∧
      ∀ batch e, batch < k -> es !! batch = Some e -> next_beams s' batch (spec_next_of batch e))
    batch_size_ (process_batch pow nb pad_token_id_ eos_token_id_ early_stopping_ seqs next_scores
       next_tokens next_indices) s) as (s' & E & H1 & H2 & H3 & H4).
  - split; [|split; [lia|split; [done|intros; lia]]]. unfold step_entries. rewrite (imap_ext _ (const id)).
    + by rewrite imap_const, list_fmap_id.
    + intros i e _. by rewrite decide_False by lia.
  - intros k s1 Hk (I1 & I2 & I3 & I4).
    destruct (lookup_lt_is_Some_2 es k) as [e He]; [by rewrite (sr_batch _ _ Hrel)|].
    assert (step_entries k es !! k = Some e) as He'.
    { unfold step_entries. rewrite list_lookup_imap, He. simpl. by rewrite decide_False by lia. }
    destruct (process_batch_spec k s1 _ e Hv Hk I1 He') as (s2 & E2 & J1 & J2).
    { rewrite I3. etransitivity; [|exact Hroom]. nia. }
    { by rewrite I3. }
    rewrite (step_entries_S k es e He) in J1. exists s2. split; [done|]. split; [done|].
    pose proof J2 as [_ _ _ K4 K5].
    split; [nia|]. split; [congruence|]. intros batch e' Hb He2.
    destruct (next_written_beams k _ s1 s2 batch _ I1 J2) as [N1 N2]; [by apply spec_next_length|done|].
    destruct (decide (batch = k)) as [->|Hne]; [by replace e' with e by congruence|].
    apply N2; [done|]. apply I4; [lia|done].
  - exists s'. split; [done|]. split; [|split; [done|split; [done|]]].
    + unfold step_entries in H1. rewrite (imap_ext _ spec_entry_of) in H1; [done|].
      intros i e He%lookup_lt_Some. rewrite (sr_batch _ _ Hrel) in He. by rewrite decide_True.
    + intros batch e He. apply H4; [|done]. apply lookup_lt_Some in He. by rewrite <- (sr_batch _ _ Hrel).
Qed.
End refinement.

Lemma Process_step (pow : f32 -> f32 -> f32) (batch_size_ num_beams_ max_length_ : nat)
    (pad_token_id_ eos_token_id_ : Z) (early_stopping_ : bool) (pen : f32)
    (seqs : Sequences) (next_scores : list f32) (next_tokens next_indices : list Z)
    (s : BeamSearchScorer) (es : list entry) :
  let cur := current_length_ seqs in
  valid_input batch_size_ num_beams_ seqs next_scores next_tokens next_indices ->
  scorer_rel batch_size_ num_beams_ pen s es ->
  cur <= max_length_ -> room batch_size_ num_beams_ max_length_ cur s ->
  ∃ s', Process pow batch_size_ num_beams_ pad_token_id_ eos_token_id_ early_stopping_ s seqs
          next_scores next_tokens next_indices = Ok s' ∧
        scorer_rel batch_size_ num_beams_ pen s'
          (imap (spec_entry_of pow num_beams_ eos_token_id_ early_stopping_ pen seqs
                   next_scores next_tokens next_indices) es) ∧
        room batch_size_ num_beams_ max_length_ (S cur) s' ∧
        ∀ batch e, es !! batch = Some e ->
          next_beams num_beams_ s' batch
            (spec_next_of num_beams_ pad_token_id_ eos_token_id_ next_scores next_tokens next_indices batch e).
Proof.
  intros cur Hv Hrel Hcur [Hroom Hint]. unfold room.
  set (B := batch_size_ * num_beams_) in *.
  assert (Z.of_nat B * (2 * Z.of_nat cur)
          <= Z.of_nat B * (Z.of_nat max_length_ * (Z.of_nat max_length_ + 1)
                           - (Z.of_nat cur - 1) * Z.of_nat cur))%Z by (apply Z.mul_le_mono_nonneg_l; nia).
  destruct (Process_loop pow batch_size_ num_beams_ pad_token_id_ eos_token_id_ early_stopping_ pen
              seqs next_scores next_tokens next_indices s es) as (s' & E & H1 & H2 & H3 & H4); [done|done|lia|lia|].
  exists s'. split; [done|]. split; [done|]. split; [|done].
  fold cur B in H2. rewrite H3. split; [|done].
  replace (Z.of_nat (S cur) - 1)%Z with (Z.of_nat cur) by lia.
  rewrite Nat2Z.inj_succ. nia.
Qed.

(** C4: one step of the scorer computes its specification.  Each open batch
    entry takes the first [num_beams] candidates that do not end a sequence as
    its next beams, and files the sequences ended by the best [num_beams]
    candidates with its hypotheses; it is done when it holds [num_beams] of
    them and either stops early or cannot improve; a done entry is padded and
    unchanged.  No access is out of range, no assertion fails, the clones keep
    the tokens they had although the sequences move on, [not_done_count_]
    counts the open entries, and room is left for the next, longer step. *)
Theorem Process_refines (pow : f32 -> f32 -> f32) (batch_size_ num_beams_ max_length_ : nat)
    (pad_token_id_ eos_token_id_ : Z) (early_stopping_ : bool) (pen : f32)
    (seqs : Sequences) (next_scores : list f32) (next_tokens next_indices : list Z)
    (s : BeamSearchScorer) (es : list entry) :
  let cur := current_length_ seqs in
  valid_input batch_size_ num_beams_ seqs next_scores next_tokens next_indices ->
  scorer_rel batch_size_ num_beams_ pen s es ->
  cur <= max_length_ -> room batch_size_ num_beams_ max_length_ cur s ->
  ∃ s', Process pow batch_size_ num_beams_ pad_token_id_ eos_token_id_ early_stopping_ s seqs
          next_scores next_tokens next_indices = Ok s' ∧
        scorer_rel batch_size_ num_beams_ pen s'
          (imap (spec_entry_of pow num_beams_ eos_token_id_ early_stopping_ pen seqs
                   next_scores next_tokens next_indices) es) ∧
        room batch_size_ num_beams_ max_length_ (S cur) s' ∧
        ∀ batch e, es !! batch = Some e ->
          next_beams num_beams_ s' batch
            (spec_next_of num_beams_ pad_token_id_ eos_token_id_ next_scores next_tokens next_indices batch e).
Proof. apply Process_step. Qed.

(* the hypothesis buffer holds the sum of the lengths from the prompt's to the maximum *)
Lemma per_beam_spec (max_length_ sequence_length : nat) :
  let m := Z.of_nat max_length_ in let q := Z.of_nat sequence_length in
  0 < sequence_length -> sequence_length <= max_length_ -> (m * (m + 1) <= INT_MAX)%Z ->
  ∃ pb, per_beam max_length_ q = Ok pb ∧ (2 * pb = m * (m + 1) - (q - 1) * q)%Z ∧ (0 <= pb <= INT_MAX)%Z.
Proof.
  intros m q Hseq Hle Hm. unfold per_beam. fold m.
  assert (0 < q <= m)%Z as Hq by lia.
  assert (0 <= (q - 1) * q <= m * (m + 1))%Z as Hqq by nia.
  rewrite (chk32_ok (m + 1)), bind_Ok by (unfold INT_MIN, INT_MAX in *; nia).
  rewrite (chk32_ok (m * (m + 1))), bind_Ok by (unfold INT_MIN, INT_MAX in *; nia). unfold INT_MAX in *.
  rewrite (chk32_ok (q - 1)), bind_Ok by (unfold INT_MIN, INT_MAX; nia).
  rewrite (chk32_ok ((q - 1) * q)), bind_Ok by (unfold INT_MIN, INT_MAX; nia).
  rewrite (chk32_ok (m * (m + 1) - (q - 1) * q)), bind_Ok by (unfold INT_MIN, INT_MAX; nia).
  eexists. split; [reflexivity|]. rewrite Z.quot_div_nonneg by lia.
  assert (∃ a, m * (m + 1) - (q - 1) * q = a * 2)%Z as [a Ea]; [|rewrite Ea, Z.div_mul by lia; lia].
  destruct (Z.Even_or_Odd m) as [[a Ha]|[a Ha]], (Z.Even_or_Odd q) as [[b Hb]|[b Hb]]; rewrite Ha, Hb.
  - exists (a * (2 * a + 1) - (2 * b - 1) * b)%Z. lia.
  - exists (a * (2 * a + 1) - b * (2 * b + 1))%Z. lia.
  - exists ((2 * a + 1) * (a + 1) - (2 * b - 1) * b)%Z. lia.
  - exists ((2 * a + 1) * (a + 1) - b * (2 * b + 1))%Z. lia.
Qed.

(* every beam but the first of its entry starts at -1e9 *)
Lemma first_beams_loop (batch_size_ num_beams_ : nat) :
  let B := batch_size_ * num_beams_ in
  ∃ sc, for_ batch_size_ (fun i sc => for_ (num_beams_ - 1) (fun j sc =>
          put sc (i * num_beams_ + S j) (f32_of_Z (-1000000000))) sc) (replicate B f0) = Ok sc ∧ length sc = B ∧
    ∀ batch beam, batch < batch_size_ -> beam < num_beams_ ->
      sc !! (batch * num_beams_ + beam) = Some (if decide (beam = 0) then f0 else f32_of_Z (-1000000000)).
Proof.
  intros B. destruct (for_inv (fun k sc => length sc = B ∧ ∀ b r, b < batch_size_ -> r < num_beams_ ->
      sc !! (b * num_beams_ + r) = Some (if decide (b < k ∧ r ≠ 0) then f32_of_Z (-1000000000) else f0))
    batch_size_ (fun i sc => for_ (num_beams_ - 1) (fun j sc =>
          put sc (i * num_beams_ + S j) (f32_of_Z (-1000000000))) sc) (replicate B f0)) as (sc & E & Hl & Hsc).
  - split; [by rewrite length_replicate|]. intros b r Hb Hr. rewrite decide_False by lia.
    apply lookup_replicate_2. by apply row_index.
  - intros i sc Hi [Hl Hsc]. pose proof (row_bound i batch_size_ num_beams_ Hi).
    destruct (for_inv (fun k sc' => length sc' = B ∧ ∀ b r, b < batch_size_ -> r < num_beams_ ->
        sc' !! (b * num_beams_ + r)
          = if decide (b = i ∧ 0 < r <= k) then Some (f32_of_Z (-1000000000)) else sc !! (b * num_beams_ + r))
      (num_beams_ - 1) (fun j sc => put sc (i * num_beams_ + S j) (f32_of_Z (-1000000000))) sc) as (sc' & E & Hl' & Hsc').
    + split; [done|]. intros b r Hb Hr. by rewrite decide_False by lia.
    + intros j t Hj [Ht Hp]. rewrite put_lt by (unfold B in *; lia). eexists. split; [done|].
      split; [by rewrite length_insert|]. intros b r Hb Hr. destruct (decide (b = i ∧ r = S j)) as [[-> ->]|Hne].
      * rewrite list_lookup_insert_eq by (unfold B in *; lia). by rewrite decide_True by lia.
      * rewrite list_lookup_insert_ne, Hp; [|done|done|].
        -- destruct (decide (b = i ∧ 0 < r <= j)), (decide (b = i ∧ 0 < r <= S j)); done || lia.
        -- intros Eq. destruct (row_index_inj num_beams_ i b (S j) r); lia.
    + exists sc'. split; [done|]. split; [done|]. intros b r Hb Hr. rewrite Hsc', Hsc by done.
      repeat case_decide; try done; lia.
  - exists sc. split; [done|]. split; [done|]. intros b r Hb Hr. rewrite Hsc by done.
    repeat case_decide; try done; lia.
Qed.

Lemma BeamSearchScorer_new_ok (batch_size_ num_beams_ max_length_ sequence_length : nat) (pen : f32) :
  let m := Z.of_nat max_length_ in
  0 < num_beams_ -> 0 < sequence_length -> sequence_length <= max_length_ ->
  (m * (m + 1) <= INT_MAX)%Z -> (Z.of_nat (batch_size_ * num_beams_) * (m * (m + 1)) <= 2 * INT_MAX)%Z ->
  ∃ s, BeamSearchScorer_new batch_size_ num_beams_ max_length_ pen (Z.of_nat sequence_length) = Ok s ∧
       scorer_rel batch_size_ num_beams_ pen s (replicate batch_size_ ([], false)) ∧
       room batch_size_ num_beams_ max_length_ sequence_length s ∧
       ∀ batch beam, batch < batch_size_ -> beam < num_beams_ ->
         next_beam_scores_ s !! (batch * num_beams_ + beam)
           = Some (if decide (beam = 0) then f0 else f32_of_Z (-1000000000)).
Proof.
  intros m Hnb Hseq Hle Hm Hbm. unfold BeamSearchScorer_new.
  destruct (per_beam_spec max_length_ sequence_length Hseq Hle Hm) as (pb & -> & Hpb & Hpbr). fold m in Hpb.
  set (q := Z.of_nat sequence_length) in *. rewrite bind_Ok.
  set (B := batch_size_ * num_beams_) in *. unfold INT_MAX in *.
  rewrite (u64_id pb) by lia.
  assert (0 <= Z.of_nat B * pb)%Z by (apply Z.mul_nonneg_nonneg; lia).
  assert (2 * (Z.of_nat B * pb) <= Z.of_nat B * (m * (m + 1)))%Z.
  { replace (2 * (Z.of_nat B * pb))%Z with (Z.of_nat B * (2 * pb))%Z by lia.
    apply Z.mul_le_mono_nonneg_l; [lia|]. assert (0 <= (q - 1) * q)%Z by (apply Z.mul_nonneg_nonneg; lia). lia. }
  rewrite u64_id by lia. cbv zeta.
  destruct (first_beams_loop batch_size_ num_beams_) as (sc & E & Hl & Hsc). fold B in E, Hl.
  rewrite E, bind_Ok. eexists. split; [done|]. split; [|split].
  - split; simpl; rewrite ?length_replicate; try done.
    + apply Forall2_replicate. repeat split; simpl; [apply length_replicate|done|].
      exists []. split; [apply Init_holds|constructor].
    + apply length_replicate.
    + apply length_replicate.
    + lia.
    + unfold open. f_equal. rewrite (filter_all (fun e : entry => e.2 = false)); [by rewrite length_replicate|].
      by apply Forall_replicate.
  - unfold room, uninit. simpl. rewrite length_replicate. fold m q B. unfold INT_MAX. split; lia.
  - exact Hsc.
Qed.

(** The constructor.  No batch entry has a hypothesis, the first beam of
    each starts at score 0 and the others at -1e9, and the buffer has room for
    one clone per beam at every length from the prompt's to the maximum. *)
Theorem BeamSearchScorer_new_spec (batch_size_ num_beams_ max_length_ sequence_length : nat) (pen : f32) :
  let m := Z.of_nat max_length_ in
  0 < num_beams_ -> 0 < sequence_length -> sequence_length <= max_length_ ->
  (m * (m + 1) <= INT_MAX)%Z -> (Z.of_nat (batch_size_ * num_beams_) * (m * (m + 1)) <= 2 * INT_MAX)%Z ->
  ∃ s, BeamSearchScorer_new batch_size_ num_beams_ max_length_ pen (Z.of_nat sequence_length) = Ok s ∧
       scorer_rel batch_size_ num_beams_ pen s (replicate batch_size_ ([], false)) ∧
       room batch_size_ num_beams_ max_length_ sequence_length s ∧
       ∀ batch beam, batch < batch_size_ -> beam < num_beams_ ->
         next_beam_scores_ s !! (batch * num_beams_ + beam)
           = Some (if decide (beam = 0) then f0 else f32_of_Z (-1000000000)).
Proof. apply BeamSearchScorer_new_ok. Qed.

(** ** Finalize *)
Section finalize.
Context (pow : f32 -> f32 -> f32).
Context (batch_size_ num_beams_ max_length_ : nat) (pad_token_id_ : Z) (pen : f32).
Local Abbreviation nb := num_beams_.
Context (seqs : Sequences) (Hwf : wf seqs) (Hrows : batch_beam_size_ seqs = batch_size_ * num_beams_).

(** A hypothesis whose tokens can be read now, wherever its span points. *)
Definition reads (buf : list (option Z)) (h : HypothesisScore) (v : hyp) : Prop :=
  score h = v.2 ∧ span_size (hypothesis h) = length v.1 ∧ read_span buf seqs (hypothesis h) = Ok v.1.

Lemma hyp_in_reads buf used h v : used <= length buf -> hyp_in buf used h v -> reads buf h v.
Proof.
  intros Hu [Hs (off & Ho & Hle & Hv)]. unfold reads. rewrite Ho. split; [done|]. split; [done|].
  simpl. rewrite subspan_le by lia. rewrite bind_Ok, Hv. apply read_all_Some.
Qed.

(** The hypotheses of an entry once its open beams are filed as well. *)
Definition final_hyps (rs : list (list Z)) (scores : list f32) (e : entry) : list hyp :=
  if e.2 then e.1 else
  foldl (fun hs '(r, sc) => add_ref snd nb (r, fdiv sc (pow (f32_of_Z (Z.of_nat (length r))) pen)) hs)
    e.1 (zip rs scores).

Definition entry_reads (buf : list (option Z)) (b : BeamHypotheses) (hs : list hyp) : Prop :=
  length (beams_ b) = nb ∧ length_penalty_ b = pen ∧ ∃ l, holds b l ∧ Forall2 (reads buf) l hs.

Definition beam_scores (s : BeamSearchScorer) (batch : nat) : list f32 :=
  take nb (drop (batch * nb) (next_beam_scores_ s)).

Definition final_of (s : BeamSearchScorer) (batch : nat) (e : entry) : list hyp :=
  final_hyps (rows_of num_beams_ seqs batch) (beam_scores s batch) e.

Lemma final_of_length s batch e :
  batch < batch_size_ -> length (next_beam_scores_ s) = batch_size_ * nb ->
  (e.2 = true -> length e.1 = nb) -> length e.1 <= nb -> length (final_of s batch e) = nb.
Proof.
  intros Hb Hs Hd Hle. unfold final_of, final_hyps. pose proof (row_bound batch batch_size_ nb Hb) as Hr.
  destruct e as [hs [|]]; simpl in *; [auto|].
  assert (length (zip (rows_of nb seqs batch) (beam_scores s batch)) = nb) as Hz.
  { rewrite length_zip. unfold rows_of, beam_scores.
    rewrite !length_window; [lia|lia|]. unfold rows. rewrite length_map, length_seq. lia. }
  revert Hz. generalize (zip (rows_of nb seqs batch) (beam_scores s batch)). intros z Hz.
  assert (∀ z (hs : list hyp), length hs <= nb -> nb <= length hs + length z ->
    length (foldl (fun hs '(r, sc) => add_ref snd nb (r, fdiv sc (pow (f32_of_Z (Z.of_nat (length r))) pen)) hs)
      hs z) = nb) as G; [|apply G; lia].
  clear. induction z as [|[r sc] z IH]; intros hs H1 H2; simpl in *; [lia|].
  apply IH; rewrite add_ref_length by done; lia.
Qed.

Lemma finalize_batch_spec buf s batch b e :
  batch < batch_size_ -> beam_hyps_ s !! batch = Some b -> 0 < nb ->
  length (next_beam_scores_ s) = batch_size_ * nb ->
  done_ b = e.2 -> entry_reads buf b e.1 ->
  ∃ b', finalize_batch pow nb seqs batch s = Ok (set_beam_hyps (<[batch := b']> (beam_hyps_ s)) s) ∧
        entry_reads buf b' (final_of s batch e).
Proof.
  intros Hb Hbh Hnb Hs Hd He. unfold finalize_batch. rewrite (get_Some _ _ _ Hbh), bind_Ok, Hd.
  unfold final_of, final_hyps. pose proof (row_bound batch batch_size_ nb Hb) as Hr.
  destruct e as [hs [|]]; cbn [fst snd] in *; cbv iota.
  { exists b. rewrite list_insert_id by done. split; [by destruct s|done]. }
  set (z := zip (rows_of nb seqs batch) (beam_scores s batch)).
  destruct (for_inv (fun k b' => entry_reads buf b'
      (foldl (fun hs '(r, sc) => add_ref snd nb (r, fdiv sc (pow (f32_of_Z (Z.of_nat (length r))) pen)) hs)
         hs (take k z))) nb (fun beam_index beam_hyp =>
      let batch_beam_index := batch * nb + beam_index in
      final_score ← get (next_beam_scores_ s) batch_beam_index;
      final_tokens ← GetSequence seqs batch_beam_index;
      Add pow beam_hyp (InSequences (batch_beam_index * Sequences.max_length_ seqs)
                          (length final_tokens)) final_score) b) as (b' & E & Hb').
  - done.
  - intros k b1 Hk (H1 & H2 & l & Hh & Hf). cbv zeta.
    destruct (get_lt (next_beam_scores_ s) (batch * nb + k)) as (sc & E & Esc); [lia|].
    rewrite E, bind_Ok, GetSequence_row, bind_Ok by (done || lia).
    set (r := row seqs (batch * nb + k)).
    assert (length r = current_length_ seqs) as Hlr by (apply length_row; [done|lia]).
    assert (z !! k = Some (r, sc)) as Hz.
    { unfold z. apply lookup_zip_Some. unfold rows_of, beam_scores. rewrite !lookup_window by done.
      rewrite lookup_rows by lia. done. }
    destruct (Add_ref pow b1 l (InSequences ((batch * nb + k) * Sequences.max_length_ seqs) (length r)) sc Hh)
      as (b2 & E2 & Hh2 & B1 & B2 & _); [lia|].
    exists b2. split; [done|]. split; [congruence|]. split; [congruence|].
    eexists. split; [exact Hh2|]. rewrite (take_S_r _ _ _ Hz), foldl_app, H1. simpl.
    apply add_ref_rel; [by intros ?? [? _]| |done].
    split; [simpl; unfold hyp_score; by rewrite H2|]. split; [done|]. simpl. rewrite Hlr.
    change (GetSequence seqs (batch * nb + k) = Ok r). apply GetSequence_row; [done|lia].
  - cbv zeta in E. rewrite E, bind_Ok. exists b'. split; [done|].
    rewrite (take_ge z) in Hb'; [done|]. unfold z. rewrite length_zip.
    unfold beam_scores. rewrite (length_window (next_beam_scores_ s)) by lia. lia.
Qed.

(** Row [r] of an output of [max_length_] columns. *)
Definition orow (o : list Z) (r : nat) : list Z := take max_length_ (drop (r * max_length_) o).

Lemma orow_write o n r r' toks :
  length o = n * max_length_ -> r < n -> r' < n -> length toks <= max_length_ ->
  orow (list_inserts (r * max_length_) toks o) r'
    = if decide (r' = r) then toks ++ drop (length toks) (orow o r) else orow o r'.
Proof.
  clear Hwf Hrows.
  intros Ho Hr Hr' Ht. pose proof (row_bound r n max_length_ Hr). unfold orow. case_decide as E.
  - subst r'. apply window_inserts_prefix; lia.
  - apply window_inserts_ne. nia.
Qed.

Lemma Output_spec buf b hs batch nr o sc :
  entry_reads buf b hs -> length hs = nb -> nr <= nb -> batch < batch_size_ ->
  Forall (fun v => length v.1 <= max_length_) hs ->
  length o = batch_size_ * nr * max_length_ -> (sc = [] ∨ length sc = batch_size_ * nr) ->
  ∃ o' sc', Output false buf seqs b nr max_length_ (batch * nr * max_length_)
              (bool_decide (sc = [])) (batch * nr) (o, sc) = Ok (o', sc') ∧
    length o' = length o ∧ length sc' = length sc ∧
    ∀ r, r < batch_size_ * nr ->
      orow o' r = (if decide (batch * nr <= r < batch * nr + nr) then
                     match hs !! (r - batch * nr) with
                     | Some v => v.1 ++ drop (length v.1) (orow o r) | None => [] end
                   else orow o r) ∧
      (sc ≠ [] -> sc' !! r = if decide (batch * nr <= r < batch * nr + nr) then
                     snd <$> hs !! (r - batch * nr) else sc !! r).
Proof.
  clear Hwf Hrows.
  intros (H1 & H2 & l & [[rest Hl] Hu] & Hf) Hhs Hnr Hb Hlen Ho Hsc.
  unfold Output. simpl (if false then _ else _). rewrite bind_Ok.
  pose proof (row_bound batch batch_size_ nr Hb) as Hrb.
  destruct (for_inv (fun k out => length out.1 = length o ∧ length out.2 = length sc ∧
    ∀ r, r < batch_size_ * nr ->
      orow out.1 r = (if decide (batch * nr <= r < batch * nr + k) then
                     match hs !! (r - batch * nr) with
                     | Some v => v.1 ++ drop (length v.1) (orow o r) | None => [] end
                   else orow o r) ∧
      (sc ≠ [] -> out.2 !! r = if decide (batch * nr <= r < batch * nr + k) then
                     snd <$> hs !! (r - batch * nr) else sc !! r))
    nr (fun index out =>
    item ← get_init (beams_ b) index;
    toks ← read_span buf seqs (hypothesis item);
    o ← copy false (fst out) (batch * nr * max_length_ + index * max_length_) max_length_ toks;
    if bool_decide (sc = []) then Ok (o, snd out)
    else s ← put (snd out) (batch * nr + index) (score item); Ok (o, s)) (o, sc)) as ([o' sc'] & E & H).
  - simpl. split; [done|split; [done|]]. intros r Hr. by rewrite !decide_False by lia.
  - intros k [o1 sc1] Hk (L1 & L2 & L3). cbn [fst snd] in *.
    destruct (lookup_lt_is_Some_2 hs k) as [v Hv]; [lia|].
    destruct (Forall2_lookup_r _ _ _ _ _ Hf Hv) as (h & Hh & Hs & Hsz & Hrd).
    assert (batch * nr + k < batch_size_ * nr) as Hrow by lia.
    rewrite (get_init_Some _ _ h), bind_Ok.
    2:{ rewrite Hl, lookup_app_l by (rewrite length_map; by eapply lookup_lt_Some).
        by rewrite list_lookup_fmap, Hh. }
    rewrite Hrd, bind_Ok. unfold copy. simpl andb. cbv iota.
    rewrite Forall_lookup in Hlen. specialize (Hlen k v Hv).
    pose proof (row_bound (batch * nr + k) (batch_size_ * nr) max_length_ Hrow).
    replace (batch * nr * max_length_ + k * max_length_) with ((batch * nr + k) * max_length_) by lia.
    rewrite blit_le by lia. rewrite bind_Ok.
    set (o2 := list_inserts ((batch * nr + k) * max_length_) v.1 o1).
    assert (∀ r, r < batch_size_ * nr -> orow o2 r
      = if decide (batch * nr <= r < batch * nr + S k) then
                     match hs !! (r - batch * nr) with
                     | Some v => v.1 ++ drop (length v.1) (orow o r) | None => [] end
                   else orow o r) as G.
    { intros r Hr. destruct (L3 r Hr) as [L4 _]. unfold o2.
      rewrite (orow_write o1 (batch_size_ * nr)) by (lia || done).
      destruct (decide (r = batch * nr + k)) as [->|Hne].
      - rewrite L4, decide_False, decide_True by lia.
        replace (batch * nr + k - batch * nr) with k by lia. by rewrite Hv.
      - rewrite L4. repeat case_decide; done || lia. }
    destruct (bool_decide_reflect (sc = [])) as [->|Hne].
    + eexists. split; [done|]. cbn [fst snd]. split; [unfold o2; by rewrite length_inserts|].
      split; [done|]. intros r Hr. split; [by apply G|done].
    + destruct Hsc as [?|Hsc]; [done|]. rewrite put_lt by lia. rewrite bind_Ok. eexists. split; [done|].
      cbn [fst snd]. split; [unfold o2; by rewrite length_inserts|]. split; [by rewrite length_insert|].
      intros r Hr. split; [by apply G|]. intros _. destruct (L3 r Hr) as [_ L5]. specialize (L5 Hne).
      destruct (decide (r = batch * nr + k)) as [->|Hner].
      * rewrite list_lookup_insert_eq by lia. rewrite decide_True by lia.
        replace (batch * nr + k - batch * nr) with k by lia. by rewrite Hv, Hs.
      * rewrite list_lookup_insert_ne, L5 by done. repeat case_decide; done || lia.
  - exists o', sc'. done.
Qed.

Lemma final_of_short s batch e :
  current_length_ seqs <= max_length_ -> batch < batch_size_ ->
  Forall (fun v => length v.1 <= max_length_) e.1 ->
  Forall (fun v => length v.1 <= max_length_) (final_of s batch e).
Proof.
  intros Hcur Hb He. unfold final_of, final_hyps. destruct e as [hs [|]]; cbn [fst snd] in *; [done|]. cbv iota.
  assert (Forall (fun rc => length rc.1 <= max_length_) (zip (rows_of nb seqs batch) (beam_scores s batch))) as Hz.
  { apply Forall_forall. intros [r sc] Hin%elem_of_zip_l. unfold rows_of in Hin. simpl.
    apply list_elem_of_lookup in Hin as [i Hi]. apply lookup_lt_Some in Hi as Hl.
    rewrite length_take in Hl. rewrite lookup_window in Hi by lia. apply lookup_lt_Some in Hi as Hlt. unfold rows in Hlt.
    rewrite length_map, length_seq in Hlt. rewrite lookup_rows in Hi by done. injection Hi as <-.
    by rewrite length_row. }
  revert hs He. induction Hz as [|[r sc] z Hr Hz IH]; intros hs He; simpl; [done|].
  apply IH. by apply add_ref_Forall.
Qed.

Lemma finalize_loop s es :
  scorer_rel batch_size_ nb pen s es -> 0 < nb ->
  ∃ hs, for_ batch_size_ (finalize_batch pow nb seqs) s = Ok (set_beam_hyps hs s) ∧
        ∀ batch e, es !! batch = Some e -> ∃ b, hs !! batch = Some b ∧
          entry_reads (hypothesis_buffer_ s) b (final_of s batch e).
Proof.
  intros Hrel Hnb. pose proof Hrel as [E1 E2 E3 _ _ E6 _].
  destruct (for_inv (fun k s' => ∃ hs, s' = set_beam_hyps hs s ∧
      (∀ i, k <= i -> hs !! i = beam_hyps_ s !! i) ∧
      ∀ batch e, batch < k -> es !! batch = Some e -> ∃ b, hs !! batch = Some b ∧
          entry_reads (hypothesis_buffer_ s) b (final_of s batch e))
    batch_size_ (finalize_batch pow nb seqs) s) as (s' & E & hs & -> & _ & H).
  - exists (beam_hyps_ s). split; [by destruct s|]. split; [done|intros; lia].
  - intros k s' Hk (hs & -> & Hrest & Hdone).
    destruct (lookup_lt_is_Some_2 es k) as [e He]; [lia|].
    destruct (Forall2_lookup_r _ _ _ _ _ E1 He) as (b & Hb & R1 & R2 & R3 & R4 & l & Hh & Hf).
    destruct (finalize_batch_spec (hypothesis_buffer_ s) (set_beam_hyps hs s) k b e) as (b' & Ef & Hb'); try done.
    { simpl. by rewrite Hrest. }
    { split; [done|]. split; [done|]. exists l. split; [done|].
      eapply Forall2_impl; [exact Hf|]. intros. by eapply hyp_in_reads. }
    rewrite Ef. eexists. split; [done|]. exists (<[k := b']> hs). split; [done|].
    split; [intros i Hi; rewrite list_lookup_insert_ne by lia; apply Hrest; lia|].
    intros batch e' Hbk He'. destruct (decide (batch = k)) as [->|Hne].
    + replace e' with e by congruence. exists b'. split; [|exact Hb'].
      apply list_lookup_insert_eq. apply lookup_lt_Some with b. by rewrite Hrest.
    + rewrite list_lookup_insert_ne by done. apply Hdone; [lia|done].
  - rewrite E. exists hs. split; [done|]. intros batch e He. apply H; [|done].
    apply lookup_lt_Some in He. lia.
Qed.

Lemma orow_replicate n r x : r < n -> orow (replicate (n * max_length_) x) r = replicate max_length_ x.
Proof.
  clear Hwf Hrows.
  intros Hr. pose proof (row_bound r n max_length_ Hr). unfold orow.
  rewrite drop_replicate, take_replicate. f_equal. lia.
Qed.

(** *** The outputs of a prefix of the entries *)
Section outputs.
Context (s : BeamSearchScorer) (es : list entry) (hs : list BeamHypotheses) (nr : nat) (scores : list f32).
Context (Hnr : nr <= nb) (Hes : length es = batch_size_).
Context (Hsc : scores = [] ∨ length scores = batch_size_ * nr).
Context (Hhs : ∀ batch e, es !! batch = Some e -> ∃ b, hs !! batch = Some b ∧
  entry_reads (hypothesis_buffer_ s) b (final_of s batch e)).
Context (Hfin : ∀ batch e, es !! batch = Some e -> length (final_of s batch e) = nb ∧
  Forall (fun v => length v.1 <= max_length_) (final_of s batch e)).

(* the rows of entry [batch] hold its first hypotheses, padded *)
Definition output_ok (out : list Z * list f32) (batch : nat) (e : entry) : Prop := ∀ i, i < nr -> ∃ v,
  final_of s batch e !! i = Some v ∧
  orow out.1 (batch * nr + i) = v.1 ++ replicate (max_length_ - length v.1) pad_token_id_ ∧
  (scores ≠ [] -> out.2 !! (batch * nr + i) = Some v.2).

Record outputs_done (k : nat) (out : list Z * list f32) : Prop := {
  od_length : length out.1 = batch_size_ * nr * max_length_;
  od_scores : length out.2 = length scores;
  od_rest : ∀ r, k * nr <= r < batch_size_ * nr -> orow out.1 r = replicate max_length_ pad_token_id_;
  od_rows : ∀ batch e, es !! batch = Some e -> batch < k -> output_ok out batch e }.

Lemma output_batch_ok k out : k < batch_size_ -> outputs_done k out ->
  ∃ out', output_batch max_length_ false (set_beam_hyps hs s) seqs nr k out = Ok out' ∧ outputs_done (S k) out'.
Proof.
  intros Hk [L1 L2 L3 L4]. destruct out as [o1 sc1]. cbn [fst snd] in *. unfold output_batch. cbn [fst snd]. cbv zeta.
  destruct (lookup_lt_is_Some_2 es k) as [e He]; [lia|].
  destruct (Hhs k e He) as (b & Hb & Hrd). destruct (Hfin k e He) as (F1 & F2).
  rewrite (get_Some _ _ b) by done. rewrite bind_Ok.
  pose proof (row_bound k batch_size_ nr Hk) as Hrb.
  assert (k * nr * max_length_ + nr * max_length_ <= batch_size_ * nr * max_length_) as Hrm.
  { rewrite <- Nat.mul_add_distr_r. by apply Nat.mul_le_mono_r. }
  rewrite (subspan_le o1) by (rewrite L1; exact Hrm). rewrite bind_Ok.
  assert (∃ l, (if bool_decide (sc1 = []) then Ok [] else subspan sc1 (k * nr) nr) = Ok l) as (? & ->).
  { case_bool_decide as Hs1; [by eexists|]. rewrite subspan_le; [by eexists|].
    destruct Hsc as [->|Hs]; [destruct sc1; done|]. lia. }
  rewrite bind_Ok.
  destruct (Output_spec (hypothesis_buffer_ s) b (final_of s k e) k nr o1 sc1) as (o2 & sc2 & Eo & O1 & O2 & O3); try done.
  { destruct Hsc as [->|Hs]; [left; by destruct sc1|right; lia]. }
  exists (o2, sc2). split; [exact Eo|]. assert (sc1 = [] -> scores = []) as Hempty by (intros ->; by destruct scores).
  split; cbn [fst snd]; [lia|lia| |].
  - intros r Hr. destruct (O3 r) as [O4 _]; [lia|]. rewrite O4, decide_False by lia. apply L3. lia.
  - intros batch e' He' Hbk i Hi. cbn [fst snd]. destruct (decide (batch = k)) as [->|Hne].
    + replace e' with e by congruence. destruct (lookup_lt_is_Some_2 (final_of s k e) i) as [v Hv]; [lia|].
      exists v. split; [done|]. destruct (O3 (k * nr + i)) as [O4 O5]; [lia|].
      rewrite decide_True in O4 by lia. rewrite decide_True in O5 by lia. replace (k * nr + i - k * nr) with i in O4, O5 by lia.
      rewrite Hv in O4, O5. rewrite O4, L3 by lia. split; [by rewrite drop_replicate|].
      intros Hne. rewrite O5; [done|]. intros Hs1. by apply Hne, Hempty.
    + destruct (L4 batch e' He' ltac:(lia) i Hi) as (v & Hv & V1 & V2). exists v. split; [done|]. cbn [fst snd] in *.
      pose proof (row_index batch k i nr ltac:(lia) Hi).
      destruct (O3 (batch * nr + i)) as [O4 O5]; [lia|].
      rewrite decide_False in O4 by lia. rewrite decide_False in O5 by lia. rewrite O4. split; [done|].
      intros Hn. rewrite O5; [by apply V2|]. intros Hs1. by apply Hn, Hempty.
Qed.

Lemma outputs_loop : ∃ out,
  for_ batch_size_ (output_batch max_length_ false (set_beam_hyps hs s) seqs nr)
    (replicate (batch_size_ * nr * max_length_) pad_token_id_, scores) = Ok out ∧ outputs_done batch_size_ out.
Proof.
  apply (for_inv outputs_done); [|intros k out Hk Ho; by apply output_batch_ok].
  split; cbn [fst snd]; [apply length_replicate|done| |intros; lia]. intros r Hr. apply orow_replicate. lia.
Qed.
End outputs.
End finalize.

(** C31: [Finalize] in a release build.  The open beams of every entry that is
    not done are filed with its hypotheses; row [i] of an entry in the output
    is its [i]-th best hypothesis followed by padding, and its score goes to
    the score buffer when there is one. *)
Theorem Finalize_spec (pow : f32 -> f32 -> f32) (batch_size_ num_beams_ max_length_ : nat) (pad_token_id_ : Z)
    (pen : f32) (seqs : Sequences) (s : BeamSearchScorer) (es : list entry)
    (num_return_sequences : nat) (output : list Z) (scores : list f32) :
  let nr := num_return_sequences in
  wf seqs -> batch_beam_size_ seqs = batch_size_ * num_beams_ -> current_length_ seqs <= max_length_ ->
  0 < num_beams_ -> nr <= num_beams_ -> scorer_rel batch_size_ num_beams_ pen s es ->
  Forall (fun e => Forall (fun v => length v.1 <= max_length_) e.1) es ->
  length output = batch_size_ * nr * max_length_ -> (scores = [] ∨ length scores = batch_size_ * nr) ->
  ∃ s' o' sc', Finalize pow batch_size_ num_beams_ max_length_ pad_token_id_ false s seqs nr output scores
                 = Ok (s', (o', sc')) ∧
    length o' = length output ∧ length sc' = length scores ∧
    ∀ batch e i, es !! batch = Some e -> i < nr -> ∃ v,
      final_of pow num_beams_ pen seqs s batch e !! i = Some v ∧
      orow max_length_ o' (batch * nr + i) = v.1 ++ replicate (max_length_ - length v.1) pad_token_id_ ∧
      (scores ≠ [] -> sc' !! (batch * nr + i) = Some v.2).
Proof.
  intros nr Hwf Hrows Hcur Hnb Hnr Hrel Hshort Ho Hsc. unfold Finalize.
  destruct (finalize_loop pow batch_size_ num_beams_ pen seqs Hwf Hrows s es Hrel Hnb) as (hs & E & Hhs).
  rewrite E, bind_Ok, Ho. cbv zeta. pose proof Hrel as [E1 E2 E3 _ _ _ _].
  destruct (outputs_loop pow batch_size_ num_beams_ max_length_ pad_token_id_ pen seqs Hrows s es hs nr scores Hnr E2 Hsc Hhs)
    as ([o' sc'] & E4 & [H1 H2 _ H4]).
  - intros batch e He. apply lookup_lt_Some in He as Hb. rewrite E2 in Hb.
    rewrite Forall_lookup in Hshort. specialize (Hshort batch e He).
    destruct (Forall2_lookup_r _ _ _ _ _ E1 He) as (b & _ & R1 & _ & _ & R4 & l & Hh & Hf).
    split; [eapply final_of_length; try done|by eapply final_of_short].
    rewrite <- (Forall2_length _ _ _ Hf), <- R1. by apply holds_length.
  - rewrite E4, bind_Ok. eexists _, _, _. split; [done|]. split; [done|]. split; [done|].
    intros batch e i He Hi. apply H4; [done| |done]. rewrite <- E2. by eapply lookup_lt_Some.
Qed.

(** ** Concrete runs: two batch entries, two beams, end of stream 9 *)
Module Examples.
Definition pow_id (x _ : f32) : f32 := x.
Definition ex_seqs : Sequences :=
  match Sequences_new [5; 6]%Z 2 2 4 with Ok q => q | _ => mkSequences [] [] 0 0 0 end.
Definition ex_new : outcome BeamSearchScorer := BeamSearchScorer_new 2 2 4 f1 1.
Definition ex_scorer : BeamSearchScorer :=
  match ex_new with Ok s => s | _ => mkScorer 0 [] [] [] [] 0 [] end.
(* four candidates per entry; the first of entry 1 ends a sequence *)
Definition ex_scores : list f32 := map f32_of_Z [8; 7; 6; 5; 4; 3; 2; 1]%Z.
Definition ex_tokens : list Z := [1; 2; 3; 4; 9; 2; 3; 4]%Z.
Definition ex_indices : list Z := [0; 0; 1; 1; 1; 0; 1; 0]%Z.
Definition ex_process (early : bool) (sc : list f32) (s : BeamSearchScorer) : outcome BeamSearchScorer :=
  Process pow_id 2 2 0 9 early s ex_seqs sc ex_tokens ex_indices.

Lemma Add_keeps_best_witness :
  ∃ b', Add pow_id (Init f1 2) (InBuffer 0 1) f1 = Ok b' ∧ length (beams_ b') = 2.
Proof.
  destruct (Add_keeps_best pow_id (Init f1 2) [] (InBuffer 0 1) f1) as (b' & E & H & _).
  - apply Init_holds.
  - simpl. lia.
  - constructor.
  - constructor.
  - vm_compute. reflexivity.
  - exists b'. split; [exact E|exact H].
Defined.

Lemma ex_scorer_rel : scorer_rel 2 2 f1 ex_scorer [([], false); ([], false)].
Proof.
  split; try reflexivity; [|vm_compute; lia].
  repeat (constructor; [split; [reflexivity|]; split; [reflexivity|]; split; [reflexivity|];
    split; [discriminate|]; exists []; split; [|constructor]; split; [eexists; reflexivity|reflexivity]|]).
  constructor.
Qed.

Lemma ex_valid : valid_input 2 2 ex_seqs ex_scores ex_tokens ex_indices.
Proof.
  split; try reflexivity; try lia; [|split; vm_compute; lia|vm_compute; discriminate].
  intros batch Hb. split; [destruct batch as [|[|]]; [reflexivity|reflexivity|lia]|].
  split.
  - destruct batch as [|[|]]; [| |lia]; vm_compute; repeat (constructor; [split; [discriminate|reflexivity]|]); constructor.
  - destruct batch as [|[|]]; [| |lia]; apply (bool_decide_unpack _); vm_compute; exact I.
Qed.

Lemma Process_refines_witness :
  ∃ s', ex_process false ex_scores ex_scorer = Ok s' ∧
    next_beams 2 s' 1 (spec_next_of 2 0 9 ex_scores ex_tokens ex_indices 1 ([], false)).
Proof.
  destruct (Process_refines pow_id 2 2 4 0 9 false f1 ex_seqs ex_scores ex_tokens ex_indices ex_scorer
    [([], false); ([], false)] ex_valid ex_scorer_rel) as (s' & E & _ & _ & H).
  - vm_compute. lia.
  - split; vm_compute; discriminate.
  - exists s'. split; [exact E|]. apply (H 1 ([], false)). reflexivity.
Defined.

Lemma BeamSearchScorer_new_spec_witness : ∃ s, ex_new = Ok s ∧ next_beam_scores_ s !! 0 = Some f0.
Proof.
  destruct (BeamSearchScorer_new_spec 2 2 4 1 f1) as (s & E & _ & _ & H);
    [lia|lia|lia|vm_compute; discriminate|vm_compute; discriminate|].
  exists s. split; [exact E|]. apply (H 0 0); lia.
Defined.

Lemma Finalize_spec_witness :
  ∃ s' o' sc', Finalize pow_id 2 2 4 0 false ex_scorer ex_seqs 1 (replicate 8 7%Z) [] = Ok (s', (o', sc')) ∧
    orow 4 o' 1 = [6; 0; 0; 0]%Z.
Proof.
  destruct (Finalize_spec pow_id 2 2 4 0 f1 ex_seqs ex_scorer [([], false); ([], false)] 1 (replicate 8 7%Z) [])
    as (s' & o' & sc' & E & _ & _ & H); try reflexivity; try lia.
  - split; vm_compute; lia.
  - vm_compute. lia.
  - apply ex_scorer_rel.
  - repeat constructor.
  - by left.
  - exists s', o', sc'. split; [exact E|].
    destruct (H 1 ([], false) 0) as (v & Hv & Ho & _); [reflexivity|lia|].
    vm_compute in Hv. injection Hv as <-. exact Ho.
Defined.

(** A hypothesis shorter than the maximum length fails the size check of
    [copy] in a debug build, although [Output] says it may be shorter. *)
Example Finalize_debug_asserts :
  Finalize pow_id 2 2 4 0 true ex_scorer ex_seqs 1 (replicate 8 7%Z) [] = Undef.
Proof. vm_compute. reflexivity. Qed.

(** The scores that decide whether an entry is done are taken at
    [batch * num_beams], not at [batch * 2 * num_beams]: entry 1 reads the
    last candidates of entry 0, and two inputs that agree on all the
    candidates of entry 1 leave it done or not done. *)
Definition ex_full : BeamSearchScorer :=
  let h := mkBeamHyps [Some (mkHyp (InSequences 0 1) (f32_of_Z 5)); Some (mkHyp (InSequences 0 1) (f32_of_Z 5))]
             2 f1 false in
  set_beam_hyps [h; h] ex_scorer.
Definition ex_done (e : nat) (r : outcome BeamSearchScorer) : option bool :=
  match r with Ok s => done_ <$> beam_hyps_ s !! e | _ => None end.

Example done_depends_on_other_entry :
  let a := map f32_of_Z [9; 9; 9; 9; 4; 3; 2; 1]%Z in
  let b := map f32_of_Z [9; 9; 1; 1; 4; 3; 2; 1]%Z in
  drop 4 a = drop 4 b ∧
  ex_done 1 (ex_process false a ex_full) = Some false ∧ ex_done 1 (ex_process false b ex_full) = Some true.
Proof. vm_compute. repeat split; reflexivity. Qed.
End Examples.
