(* ===== verification/Search.v ===== *)
(** * Search (src/search.h, src/search.cpp, src/softmax_cpu.cpp, src/top_k_cpu.cpp)

    Greedy search and sampling, beam search over the scorer of [BeamScorer], and
    the two logit processors.  [exp] and [log] stand for std::exp and std::log,
    [uniform] and [discrete] for the distributions over the generator state [G].
    Sorts and the priority queue leave the order of equal scores open: they are
    parameters with the law [Sorter]; so is the iteration order of an unordered
    set ([Unordered]).  The span [next_token_scores_] is kept as its contents. *)
From Stdlib Require Import ZArith Lia SpecFloat.
From stdpp Require Import base numbers list sorting.
From S2P Require Import Prelude Float32 Config Tensors Params Sequences BeamScorer.
Local Open Scope nat_scope.

(** ** Standard library routines with open choices *)

(* the first [k] indices of [ix] are those of the best scores of [l], in order *)
Definition descending (k : nat) (l : list f32) (ix : list nat) : Prop :=
  ix ≡ₚ seq 0 (length l) ∧
  ∀ i j a b x y, i < j -> i < k -> ix !! i = Some a -> ix !! j = Some b ->
    l !! a = Some x -> l !! b = Some y -> flt x y = false.

Definition numbers (l : list f32) : Prop := Forall (fun x => is_nan x = false) l.

(* std::sort, std::partial_sort and popping a std::priority_queue, on numbers *)
Class Sorter (f : nat -> list f32 -> list nat) : Prop :=
  sorter : ∀ k l, k <= length l -> numbers l -> descending k l (f k l).

(* the elements of an unordered set filled from a list *)
Class Unordered (f : list Z -> list Z) : Prop := {
  unordered_NoDup l : NoDup (f l);
  unordered_elem l x : x ∈ f l ↔ x ∈ l }.

Section softmax.
Context (exp log : f32 -> f32).

Definition SoftMax (scores : list f32) (temperature : f32) : outcome (list f32) :=
  max_score ← get scores (max_element scores);
  let scores := map (fun score => exp (fdiv (fsub score max_score) temperature)) scores in
  let exp_sum := fold_left fadd scores f0 in
  Ok (map (fun score => fdiv score exp_sum) scores).

Definition softmax (values : list f32) : outcome (list f32) :=
  max ← get values (max_element values);
  let values := map (fun v => exp (fsub v max)) values in
  let sum := fold_left fadd values f0 in
  Ok (map (fun v => fdiv v sum) values).

Definition log_softmax (values : list f32) : outcome (list f32) :=
  max ← get values (max_element values);
  let scaled := map (fun v => exp (fsub v max)) values in
  let log_max := log (fold_left fadd scaled f0) in
  Ok (map (fun v => fsub (fsub v max) log_max) values).
End softmax.

(** ** top_k_indices

    The heap of pairs with [std::greater]: the least pair is on top; the pairs
    are kept in order. *)
Definition pair_lt (a b : f32 * nat) : bool :=
  flt a.1 b.1 || (negb (flt b.1 a.1) && (a.2 <? b.2)).

Fixpoint push (e : f32 * nat) (pq : list (f32 * nat)) : list (f32 * nat) :=
  match pq with
  | [] => [e]
  | t :: pq' => if pair_lt e t then e :: pq else t :: push e pq'
  end.

Definition offer (inputs : list f32) (i : nat) (pq : list (f32 * nat)) : outcome (list (f32 * nat)) :=
  x ← get inputs i;
  match pq with
  | [] => Undef
  | t :: pq' => if fle x t.1 then Ok pq else Ok (push (x, i) pq')
  end.

Definition top_k_indices (k : nat) (inputs : list f32) : outcome (list nat) :=
  _ ← assert_ (k <=? length inputs);
  pq ← for_ k (fun i pq => x ← get inputs i; Ok (push (x, i) pq)) [];
  pq ← for_ (length inputs - k) (fun i => offer inputs (k + i)) pq;
  '(top_k, _) ← for_ k (fun i '(top_k, pq) =>
      match pq with
      | [] => Undef
      | t :: pq' => top_k ← put top_k (k - i - 1) t.2; Ok (top_k, pq')
      end) (replicate k 0, pq);
  Ok top_k.

(** ** Search_Cpu *)
Record Search_Cpu := mkSearchCpu {
  sequence_lengths_ : list (option Z);
  next_tokens_ : list Z;
  next_token_scores_ : list f32;
  sequences : Sequences;
  search_done_ : bool }.

Definition set_next_tokens (t : list Z) (c : Search_Cpu) : Search_Cpu :=
  mkSearchCpu (sequence_lengths_ c) t (next_token_scores_ c) (sequences c) (search_done_ c).
Definition set_scores (l : list f32) (c : Search_Cpu) : Search_Cpu :=
  mkSearchCpu (sequence_lengths_ c) (next_tokens_ c) l (sequences c) (search_done_ c).
Definition set_sequences (q : Sequences) (c : Search_Cpu) : Search_Cpu :=
  mkSearchCpu (sequence_lengths_ c) (next_tokens_ c) (next_token_scores_ c) q (search_done_ c).
Definition set_done (b : bool) (c : Search_Cpu) : Search_Cpu :=
  mkSearchCpu (sequence_lengths_ c) (next_tokens_ c) (next_token_scores_ c) (sequences c) b.

Section search.
Context (p : GeneratorParams).
(* the sizes; the constructor of [Generator] checks those of the batch, the vocabulary
   and the maximum length to be positive *)
Definition n_batch : nat := Z.to_nat (batch_size p).
Definition n_beams : nat := Z.to_nat (num_beams (gp_search p)).
Definition n_vocab : nat := Z.to_nat (gp_vocab_size p).
Definition n_max : nat := Z.to_nat (max_length (gp_search p)).

Definition Search_Cpu_new : outcome Search_Cpu :=
  seqs ← Sequences_new (prompt p) n_batch n_beams n_max;
  bb ← BatchBeamSize p;
  Ok (mkSearchCpu (uninit (Z.to_nat bb)) [] [] seqs false).

Definition SetLogits (logits : list f32) (c : Search_Cpu) : Search_Cpu := set_scores logits c.
Definition search_length (c : Search_Cpu) : nat := GetSequenceLength (sequences c).

Definition GetScores (batch_beam_index : nat) (c : Search_Cpu) : outcome (list f32) :=
  bb ← BatchBeamSize p;
  _ ← assert_ (Z.of_nat batch_beam_index <? bb)%Z;
  subspan (next_token_scores_ c) (batch_beam_index * n_vocab) n_vocab.

Definition put_scores (batch_beam_index : nat) (scores : list f32) (c : Search_Cpu) : outcome Search_Cpu :=
  l ← blit (next_token_scores_ c) (batch_beam_index * n_vocab) scores; Ok (set_scores l c).

Definition ApplyMinLength (min_length : Z) (c : Search_Cpu) : outcome Search_Cpu :=
  if (min_length <=? Z.of_nat (search_length c))%Z then Ok c else
  bb ← BatchBeamSize p;
  for_ (Z.to_nat bb) (fun i c =>
      beam_token_scores ← GetScores i c;
      beam_token_scores ← putZ beam_token_scores (gp_eos_token_id p) f32_lowest;
      put_scores i beam_token_scores c) c.

Definition penalise (penalty score : f32) : f32 :=
  if flt score f0 then fmul score penalty else fdiv score penalty.

Section penalty.
Context (unordered : list Z -> list Z).
Definition ApplyRepetitionPenalty (penalty : f32) (c : Search_Cpu) : outcome Search_Cpu :=
  if feq penalty f1 then Ok c else
  bb ← BatchBeamSize p;
  for_ (Z.to_nat bb) (fun i c =>
      beam_token_scores ← GetScores i c;
      beam_token_scores ← (
        sequence ← GetSequence (sequences c) i;
        for_each (fun word_id l =>
          score ← getZ l word_id;
          putZ l word_id (penalise penalty score)) (unordered sequence) beam_token_scores);
      put_scores i beam_token_scores c) c.
End penalty.

(** ** Greedy search and sampling *)
Section greedy.
Context {G : Type}.

Record GreedySearch_Cpu := mkGreedy {
  g_cpu : Search_Cpu;
  eos_seen_ : list bool;
  g_not_done_count_ : Z;
  gen_ : G }.

Definition set_cpu (c : Search_Cpu) (s : GreedySearch_Cpu) : GreedySearch_Cpu :=
  mkGreedy c (eos_seen_ s) (g_not_done_count_ s) (gen_ s).
Definition set_gen (g : G) (s : GreedySearch_Cpu) : GreedySearch_Cpu :=
  mkGreedy (g_cpu s) (eos_seen_ s) (g_not_done_count_ s) g.

Definition GreedySearch_Cpu_new (seed : Z -> G) (random : G) : outcome GreedySearch_Cpu :=
  c ← Search_Cpu_new;
  let gen := if (random_seed (gp_search p) =? -1)%Z then random else seed (random_seed (gp_search p)) in
  Ok (mkGreedy (set_next_tokens (replicate n_batch 0%Z) c) (replicate n_batch false) (batch_size p) gen).

Definition SetNextToken (batch_id : nat) (token : Z) (s : GreedySearch_Cpu) : outcome GreedySearch_Cpu :=
  tokens ← put (next_tokens_ (g_cpu s)) batch_id token;
  let s := set_cpu (set_next_tokens tokens (g_cpu s)) s in
  if (token =? gp_eos_token_id p)%Z then
    seen ← put (eos_seen_ s) batch_id true;
    count ← chk32 (g_not_done_count_ s - 1);
    Ok (mkGreedy (if (count =? 0)%Z then set_done true (g_cpu s) else g_cpu s) seen count (gen_ s))
  else Ok s.

Definition AppendNextTokensToSequences (s : GreedySearch_Cpu) : outcome GreedySearch_Cpu :=
  seqs ← AppendNextTokenToSequences (sequences (g_cpu s)) (next_tokens_ (g_cpu s));
  let c := set_sequences seqs (g_cpu s) in
  Ok (set_cpu (if (Z.of_nat (GetSequenceLength seqs) =? max_length (gp_search p))%Z then set_done true c else c) s).

(* a way to choose the token of an entry: the scores it leaves behind, the token
   and the generator *)
Definition chooser : Type := list f32 -> G -> outcome (list f32 * Z * G).

(* the part of the loops over the entries that follows the end of sequence check *)
Definition choose_entry (pick : chooser) (batch_id : nat) (s : GreedySearch_Cpu) : outcome GreedySearch_Cpu :=
  scores ← subspan (next_token_scores_ (g_cpu s)) (batch_id * n_vocab) n_vocab;
  '((scores, token, gen) : list f32 * Z * G) ← pick scores (gen_ s);
  c ← put_scores batch_id scores (g_cpu s);
  SetNextToken batch_id token (set_gen gen (set_cpu c s)).

Definition PadIfAlreadyEOS (batch_id : nat) (s : GreedySearch_Cpu) : outcome (bool * GreedySearch_Cpu) :=
  seen ← get (eos_seen_ s) batch_id;
  if (seen : bool) then
    tokens ← put (next_tokens_ (g_cpu s)) batch_id (gp_pad_token_id p);
    Ok (true, set_cpu (set_next_tokens tokens (g_cpu s)) s)
  else Ok (false, s).

Definition next_entry (pick : chooser) (batch_id : nat) (s : GreedySearch_Cpu) : outcome GreedySearch_Cpu :=
  '((padded, s) : bool * GreedySearch_Cpu) ← PadIfAlreadyEOS batch_id s;
  if padded then Ok s else choose_entry pick batch_id s.

Definition argmax : chooser := fun scores g => Ok (scores, Z.of_nat (max_element scores), g).

Definition SelectTop (s : GreedySearch_Cpu) : outcome GreedySearch_Cpu :=
  s ← for_ n_batch (next_entry argmax) s;
  AppendNextTokensToSequences s.

Context (exp : f32 -> f32) (uniform : f32 -> G -> f32 * G) (discrete : list f32 -> G -> nat * G).
Context (sort partial_sort : nat -> list f32 -> list nat).

(* the first index at which the threshold is used up *)
Fixpoint first_exceeding (scores : list f32) (indices : list nat) (threshold : f32) (token : nat) : outcome nat :=
  match indices with
  | [] => Ok token
  | i :: indices =>
      x ← get scores i;
      let threshold := fsub threshold x in
      if flt f0 threshold then first_exceeding scores indices threshold token else Ok i
  end.

Definition choose_top_k (k : nat) (temperature : f32) : chooser := fun scores g =>
  scores ← SoftMax exp scores temperature;
  if length scores <? k then Undef else
  let indices := partial_sort k scores in
  let '(i, g) := discrete (take k scores) g in
  token ← get indices i;
  Ok (scores, Z.of_nat token, g).

Definition choose_top_p (top_p temperature : f32) : chooser := fun scores g =>
  scores ← SoftMax exp scores temperature;
  let indices := sort (length scores) scores in
  let '(threshold, g) := uniform top_p g in
  token ← first_exceeding scores indices threshold 0;
  Ok (scores, Z.of_nat token, g).

Definition choose_top_k_top_p (k : nat) (top_p temperature : f32) : chooser := fun scores g =>
  scores ← SoftMax exp scores temperature;
  if length scores <? k then Undef else
  let indices := partial_sort k scores in
  let '(threshold, g) := uniform top_p g in
  last ← get indices (k - 1);
  token ← first_exceeding scores (take k indices) threshold last;
  Ok (scores, Z.of_nat token, g).

(* no end of sequence check here *)
Definition SampleTopK (k : nat) (temperature : f32) (s : GreedySearch_Cpu) : outcome GreedySearch_Cpu :=
  s ← for_ n_batch (choose_entry (choose_top_k k temperature)) s;
  AppendNextTokensToSequences s.

Definition SampleTopP (top_p temperature : f32) (s : GreedySearch_Cpu) : outcome GreedySearch_Cpu :=
  s ← for_ n_batch (next_entry (choose_top_p top_p temperature)) s;
  AppendNextTokensToSequences s.

Definition SampleTopKTopP (k : nat) (top_p temperature : f32) (s : GreedySearch_Cpu) : outcome GreedySearch_Cpu :=
  s ← for_ n_batch (next_entry (choose_top_k_top_p k top_p temperature)) s;
  AppendNextTokensToSequences s.
End greedy.

(** ** Beam search *)
Section beam.
Context (pow : f32 -> f32 -> f32) (queue : nat -> list f32 -> list nat).

Record BeamSearch_Cpu := mkBeam {
  b_cpu : Search_Cpu;
  beam_scorer_ : BeamSearchScorer }.

Definition BeamSearch_Cpu_new : outcome BeamSearch_Cpu :=
  c ← Search_Cpu_new;
  _ ← assert_ (1 <? num_beams (gp_search p))%Z;
  scorer ← BeamSearchScorer_new n_batch n_beams n_max (length_penalty (gp_search p)) (sequence_length p);
  Ok (mkBeam c scorer).

Definition GetNextTokens (s : BeamSearch_Cpu) : outcome (list Z) := read_all (next_beam_tokens_ (beam_scorer_ s)).
Definition GetNextIndices (s : BeamSearch_Cpu) : outcome (list Z) := read_all (next_beam_indices_ (beam_scorer_ s)).

(* the beam's score is added to each of its token scores; [offset] and
   [batch_beam_index] are the counters *)
Definition add_beam_scores (beam_scores : list f32) (scores : list f32) : outcome (list f32) :=
  '(scores, _, _) ← for_ n_batch (fun _ => for_ n_beams (fun _ '(l, offset, batch_beam_index) =>
      '(l, offset) ← for_ n_vocab (fun _ '(l, offset) =>
          x ← get l offset;
          b ← get beam_scores batch_beam_index;
          l ← put l offset (fadd x b);
          offset ← int_nat (offset + 1);
          Ok (l, offset)) (l, offset);
      Ok (l, offset, (batch_beam_index + 1)%nat))) (scores, 0, 0);
  Ok scores.

(* the best [top_k] of the scores of one entry; an empty queue has no top *)
Definition best_of_entry (top_k : nat) (token_scores_sub : list f32) : outcome (list (f32 * Z * Z)) :=
  let order := queue top_k token_scores_sub in
  for_ top_k (fun i out =>
      v ← get order i;
      x ← get token_scores_sub v;
      Ok (out ++ [(x, Z.of_nat (v mod n_vocab), Z.of_nat (v / n_vocab))])) [].

Definition BeamSearch_SelectTop (s : BeamSearch_Cpu) : outcome BeamSearch_Cpu :=
  scores ← add_beam_scores (next_beam_scores_ (beam_scorer_ s)) (next_token_scores_ (b_cpu s));
  top_k ← int_nat (2 * n_beams);
  let zeros := replicate (top_k * n_batch) 0%Z in
  '((next_scores, next_tokens, next_indices) : list f32 * list Z * list Z) ← for_ n_batch
    (fun batch_index '(next_scores, next_tokens, next_indices) =>
      token_scores_sub ← subspan scores (batch_index * n_beams * n_vocab) (n_beams * n_vocab);
      best ← best_of_entry top_k token_scores_sub;
      next_indices ← blit next_indices (top_k * batch_index) best.*2;
      next_tokens ← blit next_tokens (top_k * batch_index) best.*1.*2;
      next_scores ← blit next_scores (top_k * batch_index) best.*1.*1;
      Ok (next_scores, next_tokens, next_indices))
    (replicate (top_k * n_batch) f0, zeros, zeros);
  scorer ← Process pow n_batch n_beams (gp_pad_token_id p) (gp_eos_token_id p) (early_stopping (gp_search p))
             (beam_scorer_ s) (sequences (b_cpu s)) next_scores next_tokens next_indices;
  let s := mkBeam (set_scores scores (b_cpu s)) scorer in
  tokens ← GetNextTokens s;
  indices ← GetNextIndices s;
  seqs ← AppendNextTokenToSequences_beam (sequences (b_cpu s)) indices tokens;
  let c := set_sequences seqs (set_next_tokens tokens (b_cpu s)) in
  Ok (mkBeam (if (Z.of_nat (GetSequenceLength seqs) =? max_length (gp_search p))%Z then set_done true c else c) scorer).

Definition BeamSearch_Finalize (debug : bool) (num_return_sequences : nat) (output : list Z) (scores : list f32)
    (s : BeamSearch_Cpu) : outcome (BeamSearch_Cpu * (list Z * list f32)) :=
  '(scorer, out) ← Finalize pow n_batch n_beams n_max (gp_pad_token_id p) debug (beam_scorer_ s)
     (sequences (b_cpu s)) num_return_sequences output scores;
  Ok (mkBeam (b_cpu s) scorer, out).
End beam.
End search.

(** ** Greedy search: the step shared by the ways to choose a token *)
Section greedy_step.
Context (p : GeneratorParams) {G : Type}.
Local Abbreviation nb := (n_batch p).
Local Abbreviation nv := (n_vocab p).

Definition not_done (seen : list bool) : nat := length (filter (fun b => b = false) seen).

(** What holds of a greedy search between steps. *)
Record greedy_ok (s : GreedySearch_Cpu (G := G)) : Prop := {
  go_tokens : length (next_tokens_ (g_cpu s)) = nb;
  go_eos : length (eos_seen_ s) = nb;
  go_wf : wf (sequences (g_cpu s));
  go_rows : batch_beam_size_ (sequences (g_cpu s)) = nb;
  go_max : max_length_ (sequences (g_cpu s)) = n_max p;
  go_count : g_not_done_count_ s = Z.of_nat (not_done (eos_seen_ s));
  go_done : search_done_ (g_cpu s) = true
              ↔ not_done (eos_seen_ s) = 0 ∨ search_length (g_cpu s) = n_max p }.

Definition scores_row (l : list f32) (b : nat) : list f32 := take nv (drop (b * nv) l).

(** The token and the end of sequence flag of an entry after a step. *)
Definition next_of (pick : chooser (G := G)) (s : GreedySearch_Cpu (G := G)) (b : nat) (t : Z) (seen : bool) : Prop :=
  match eos_seen_ s !! b with
  | Some true => t = gp_pad_token_id p ∧ seen = true
  | _ => ∃ g l g', pick (scores_row (next_token_scores_ (g_cpu s)) b) g = Ok (l, t, g') ∧
                   seen = bool_decide (t = gp_eos_token_id p)
  end.

Definition chooses (pick : chooser (G := G)) (l : list f32) : Prop :=
  ∀ g : G, ∃ l' t g', pick l g = Ok (l', t, g') ∧ length l' = nv.

Lemma not_done_insert (seen : list bool) (b : nat) (v : bool) : seen !! b = Some false ->
  not_done (<[b := v]> seen) + (if v then 1 else 0) = not_done seen.
Proof.
  unfold not_done. revert b. induction seen as [|x seen IH]; intros [|b] H; simpl in *; [done|done| |].
  - injection H as ->. destruct v; simpl; rewrite ?filter_cons_True, ?filter_cons_False by done; simpl; lia.
  - specialize (IH b H). destruct x; rewrite ?filter_cons_True, ?filter_cons_False by done; simpl; lia.
Qed.

(* after the entries below [k] of the state [s0] *)
Record step_inv (pick : chooser (G := G)) (s0 : GreedySearch_Cpu (G := G)) (k : nat) (s : GreedySearch_Cpu (G := G)) : Prop := {
  si_tokens : length (next_tokens_ (g_cpu s)) = nb;
  si_eos : length (eos_seen_ s) = nb;
  si_seqs : sequences (g_cpu s) = sequences (g_cpu s0);
  si_scores : length (next_token_scores_ (g_cpu s)) = nb * nv;
  si_count : g_not_done_count_ s = Z.of_nat (not_done (eos_seen_ s));
  si_done : search_done_ (g_cpu s) = true ↔ not_done (eos_seen_ s) = 0;
  si_before : ∀ b, b < k -> ∃ t seen, next_of pick s0 b t seen ∧
                next_tokens_ (g_cpu s) !! b = Some t ∧ eos_seen_ s !! b = Some seen;
  si_after : ∀ b, k <= b -> eos_seen_ s !! b = eos_seen_ s0 !! b ∧
                scores_row (next_token_scores_ (g_cpu s)) b = scores_row (next_token_scores_ (g_cpu s0)) b }.

Lemma scores_row_inserts (l : list f32) k b row : length row = nv -> k ≠ b ->
  scores_row (list_inserts (k * nv) row l) b = scores_row l b.
Proof. intros Hl Hne. unfold scores_row. apply window_inserts_ne. rewrite Hl. nia. Qed.

(** [SetNextToken] on an entry that has not ended. *)
Lemma SetNextToken_spec (s : GreedySearch_Cpu (G := G)) (b : nat) (t : Z) :
  b < length (next_tokens_ (g_cpu s)) -> eos_seen_ s !! b = Some false ->
  g_not_done_count_ s = Z.of_nat (not_done (eos_seen_ s)) ->
  (search_done_ (g_cpu s) = true ↔ not_done (eos_seen_ s) = 0) ->
  (Z.of_nat (length (eos_seen_ s)) <= INT_MAX)%Z ->
  ∃ s', SetNextToken p b t s = Ok s' ∧
    next_tokens_ (g_cpu s') = <[b := t]> (next_tokens_ (g_cpu s)) ∧
    eos_seen_ s' = <[b := bool_decide (t = gp_eos_token_id p)]> (eos_seen_ s) ∧
    sequences (g_cpu s') = sequences (g_cpu s) ∧
    next_token_scores_ (g_cpu s') = next_token_scores_ (g_cpu s) ∧
    g_not_done_count_ s' = Z.of_nat (not_done (eos_seen_ s')) ∧
    (search_done_ (g_cpu s') = true ↔ not_done (eos_seen_ s') = 0).
Proof.
  intros Ht He Hc Hd Hmax. unfold SetNextToken. rewrite put_lt, bind_Ok by done. cbv zeta.
  apply lookup_lt_Some in He as Hlt.
  destruct (Z.eqb_spec t (gp_eos_token_id p)) as [->|Hne].
  - simpl eos_seen_. rewrite put_lt, bind_Ok by done. simpl g_not_done_count_.
    pose proof (not_done_insert _ b true He) as Hn. cbv iota in Hn.
    assert (not_done (eos_seen_ s) <= length (eos_seen_ s)) as Hle by apply length_filter.
    rewrite chk32_ok, bind_Ok by (unfold INT_MIN, INT_MAX in *; lia).
    eexists. split; [reflexivity|]. rewrite bool_decide_true by done. simpl.
    destruct (Z.eqb_spec (g_not_done_count_ s - 1) 0) as [E|E]; simpl;
      (split; [done|]; split; [done|]; split; [done|]; split; [done|]; split; [lia|]).
    + split; [lia|done].
    + rewrite Hd. lia.
  - eexists. split; [reflexivity|]. rewrite bool_decide_false by done. simpl.
    rewrite (list_insert_id (eos_seen_ s)) by done. done.
Qed.

Lemma next_entry_spec pick s0 k s :
  (Z.of_nat nb <= INT_MAX)%Z -> k < nb -> step_inv pick s0 k s ->
  (eos_seen_ s0 !! k = Some false -> chooses pick (scores_row (next_token_scores_ (g_cpu s0)) k)) ->
  ∃ s', next_entry p pick k s = Ok s' ∧ step_inv pick s0 (S k) s'.
Proof.
  intros Hmax Hk [I1 I2 I3 I4 I5 I6 I7 I8] Hp. destruct (I8 k (le_n k)) as [He Hrow].
  unfold next_entry, PadIfAlreadyEOS.
  destruct (get_lt (eos_seen_ s) k) as (seen & Eg & Es); [lia|]. rewrite Eg, bind_Ok.
  rewrite Es in He. symmetry in He. destruct seen.
  - cbv iota beta. rewrite put_lt, !bind_Ok by lia. eexists. split; [reflexivity|].
    split; simpl; try done; try (by rewrite length_insert).
    + intros b Hb. destruct (decide (b = k)) as [->|Hne].
      * exists (gp_pad_token_id p), true. unfold next_of. rewrite He.
        rewrite list_lookup_insert_eq by lia. done.
      * destruct (I7 b) as (t & seen & H1 & H2 & H3); [lia|]. exists t, seen.
        by rewrite list_lookup_insert_ne by done.
    + intros b Hb. apply I8. lia.
  - cbv iota beta. rewrite bind_Ok. unfold choose_entry.
    pose proof (row_bound k nb nv Hk) as Hb.
    rewrite subspan_le, bind_Ok by lia.
    change (take nv (drop (k * nv) (next_token_scores_ (g_cpu s)))) with (scores_row (next_token_scores_ (g_cpu s)) k).
    rewrite Hrow. destruct (Hp He (gen_ s)) as (l & t & g' & Epick & Hl). rewrite Epick, bind_Ok.
    unfold put_scores. rewrite blit_le, !bind_Ok by lia.
    set (s1 := set_gen _ _).
    destruct (SetNextToken_spec s1 k t) as (s' & E & J1 & J2 & J3 & J4 & J5 & J6); simpl; try done; try lia.
    exists s'. split; [exact E|]. split; rewrite ?J1, ?J2, ?J3, ?J4; simpl; try done;
      rewrite ?length_insert, ?length_inserts; try done.
    + by rewrite J2 in J5.
    + by rewrite J2 in J6.
    + intros b Hb'. destruct (decide (b = k)) as [->|Hne].
      * exists t, (bool_decide (t = gp_eos_token_id p)). rewrite !list_lookup_insert_eq by lia.
        split; [|done]. unfold next_of. rewrite He. eauto.
      * destruct (I7 b) as (t' & seen & H1 & H2 & H3); [lia|]. exists t', seen.
        by rewrite !list_lookup_insert_ne by done.
    + intros b Hb'. rewrite list_lookup_insert_ne by lia. rewrite scores_row_inserts by lia. apply I8. lia.
Qed.

Lemma greedy_step_spec pick s :
  greedy_ok s -> search_length (g_cpu s) < n_max p ->
  length (next_token_scores_ (g_cpu s)) = nb * nv ->
  int_rows nb (n_max p) -> (0 <= max_length (gp_search p))%Z ->
  (∀ b, eos_seen_ s !! b = Some false -> chooses pick (scores_row (next_token_scores_ (g_cpu s)) b)) ->
  ∃ s', (s ← for_ nb (next_entry p pick) s; AppendNextTokensToSequences p s) = Ok s' ∧ greedy_ok s' ∧
    search_length (g_cpu s') = S (search_length (g_cpu s)) ∧
    ∀ b, b < nb -> ∃ t seen, next_of pick s b t seen ∧ eos_seen_ s' !! b = Some seen ∧
      row (sequences (g_cpu s')) b = row (sequences (g_cpu s)) b ++ [t].
Proof.
  intros [O1 O2 O3 O4 O5 O6 O7] Hlt Hsc Hmax Hml Hp.
  destruct (for_inv (step_inv pick s) nb (next_entry p pick) s) as (s1 & E & [I1 I2 I3 I4 I5 I6 I7 I8]).
  - split; try done; [|intros; lia]. rewrite O7. split; [intros [?|?]; [done|lia]|by left].
  - intros k t Hk Hinv. apply next_entry_spec; try done; [apply Hmax|apply Hp].
  - rewrite E, bind_Ok. unfold AppendNextTokensToSequences. rewrite I3.
    destruct (append_greedy_spec (sequences (g_cpu s)) (next_tokens_ (g_cpu s1))) as (q & Eq & Q1 & Q2 & Q3 & Q4 & Q5 & Q6);
      [done|by rewrite O4, O5|by rewrite O5|by rewrite O4, I1|].
    rewrite Eq, bind_Ok. cbv zeta. eexists. split; [reflexivity|].
    assert (GetSequenceLength q = S (search_length (g_cpu s))) as Hql by exact Q5.
    assert ((Z.of_nat (GetSequenceLength q) =? max_length (gp_search p))%Z = true ↔ GetSequenceLength q = n_max p) as Hm.
    { unfold n_max. rewrite Z.eqb_eq. lia. }
    rewrite O4 in Q6. split; [|split].
    + split; destruct (_ =? _)%Z eqn:Em; simpl; try done; try congruence; unfold search_length; simpl.
      * split; [intros _; right; by apply Hm|done].
      * rewrite I6. split; [by left|]. intros [?|H%Hm]; [done|congruence].
    + destruct (_ =? _)%Z; done.
    + intros b Hb. destruct (I7 b Hb) as (t & seen & H1 & H2 & H3). exists t, seen.
      split; [done|]. split; [by destruct (_ =? _)%Z|]. rewrite <- (Q6 b t) by done. by destruct (_ =? _)%Z.
Qed.
End greedy_step.

(** ** The order of the scores *)
Lemma descending_lookup k l ix i : descending k l ix -> i < length l -> ∃ a x, ix !! i = Some a ∧ l !! a = Some x.
Proof.
  intros [Hp _] Hi. assert (length ix = length l) as El by (rewrite Hp; apply length_seq).
  destruct (lookup_lt_is_Some_2 ix i) as [a Ha]; [lia|].
  assert (a ∈ ix) as Hin by (by eapply list_elem_of_lookup_2).
  rewrite Hp in Hin. apply elem_of_seq in Hin.
  destruct (lookup_lt_is_Some_2 l a) as [x Hx]; [lia|]. eauto.
Qed.

Lemma seq_nth (l : list f32) : map (fun a => nth a l f0) (seq 0 (length l)) = l.
Proof.
  apply (list_eq_lt _ _ (length l)); [by rewrite length_map, length_seq|done|].
  intros i Hi. rewrite list_lookup_fmap, lookup_seq_lt by done. simpl.
  destruct (lookup_lt_is_Some_2 l i Hi) as [x Hx]. by rewrite nth_lookup, Hx.
Qed.

(** The score at place [i] of the order is exceeded by at most [i] others. *)
Lemma descending_rank k l ix i a v :
  descending k l ix -> i < k -> ix !! i = Some a -> l !! a = Some v ->
  length (filter (fun x => flt v x = true) l) <= i.
Proof.
  intros [Hp Hd] Hi Ha Hv.
  assert (l ≡ₚ map (fun a => nth a l f0) ix) as Hl by (rewrite <- (seq_nth l) at 1; by rewrite Hp).
  rewrite Hl. rewrite <- (take_drop i ix), map_app, filter_app, length_app.
  rewrite (filter_none (fun x => flt v x = true) (map _ (drop i ix))).
  - simpl. rewrite Nat.add_0_r. etransitivity; [apply length_filter|]. rewrite length_map, length_take. lia.
  - apply Forall_lookup. intros j x Hx. rewrite list_lookup_fmap, lookup_drop in Hx.
    destruct (ix !! (i + j)) as [b|] eqn:Eb; [|done]. injection Hx as <-.
    destruct (descending_lookup k l ix (i + j)) as (b' & y & Eb' & Hy); [done| |].
    { apply lookup_lt_Some in Eb. rewrite Hp, length_seq in Eb. done. }
    replace b' with b in Hy by congruence. rewrite nth_lookup, Hy. simpl.
    destruct j; [|rewrite (Hd i (i + S j) a b v y) by (done || lia); done].
    rewrite Nat.add_0_r in Eb. replace y with v by congruence. by rewrite flt_irrefl.
Qed.

(** [t] is one of the [k] best of [l]: fewer than [k] exceed it. *)
Definition among_best (k : nat) (l : list f32) (t : nat) : Prop :=
  ∃ v, l !! t = Some v ∧ length (filter (fun x => flt v x = true) l) < k.

Lemma descending_among k l ix i a : descending k l ix -> i < k -> ix !! i = Some a -> among_best k l a.
Proof.
  intros Hd Hi Ha. destruct (descending_lookup k l ix i Hd) as (a' & v & Ha' & Hv).
  { destruct Hd as [Hp _]. apply lookup_lt_Some in Ha. by rewrite Hp, length_seq in Ha. }
  replace a' with a in Hv by congruence. exists v. split; [done|].
  pose proof (descending_rank k l ix i a v Hd Hi Ha Hv). lia.
Qed.

(* what is left of the threshold after the first [r] indices *)
Definition remaining (l : list f32) (ix : list nat) (threshold : f32) (r : nat) : f32 :=
  fold_left fsub (map (fun i => nth i l f0) (take r ix)) threshold.

(* [t] is where the threshold is used up, or [token] if it never is *)
Definition exceeds_at (l : list f32) (ix : list nat) (threshold : f32) (token t : nat) : Prop :=
  (∃ r, ix !! r = Some t ∧ (∀ j, 0 < j <= r -> flt f0 (remaining l ix threshold j) = true) ∧
        flt f0 (remaining l ix threshold (S r)) = false) ∨
  (t = token ∧ ∀ j, 0 < j <= length ix -> flt f0 (remaining l ix threshold j) = true).

Lemma first_exceeding_spec scores indices : ∀ threshold token,
  (∀ i, i ∈ indices -> i < length scores) ->
  ∃ t, first_exceeding scores indices threshold token = Ok t ∧ exceeds_at scores indices threshold token t.
Proof.
  induction indices as [|i indices IH]; intros threshold token Hin; simpl.
  { exists token. split; [done|]. right. split; [done|simpl; lia]. }
  destruct (get_lt scores i) as (x & -> & Hx); [apply Hin; by left|]. rewrite bind_Ok. cbv zeta.
  assert (∀ r, remaining scores (i :: indices) threshold (S r) = remaining scores indices (fsub threshold x) r) as Hrem.
  { intros r. unfold remaining. simpl. by rewrite nth_lookup, Hx. }
  destruct (flt f0 (fsub threshold x)) eqn:Ex.
  - destruct (IH (fsub threshold x) token) as (t & E & Ht); [intros; apply Hin; by right|].
    exists t. split; [done|]. destruct Ht as [(r & Hr & Hb & Hs)|[-> Hb]].
    + left. exists (S r). split; [done|]. rewrite Hrem. split; [|done].
      intros [|[|j]] Hj; [lia|by rewrite Hrem|]. rewrite Hrem. apply Hb. lia.
    + right. split; [done|]. intros [|[|j]] Hj; [lia|by rewrite Hrem|]. rewrite Hrem. apply Hb. simpl in Hj. lia.
  - exists i. split; [done|]. left. exists 0. split; [done|]. split; [lia|]. by rewrite Hrem.
Qed.

Lemma exceeds_at_in l ix threshold token t : exceeds_at l ix threshold token t -> t ∈ ix ∨ t = token.
Proof. intros [(r & Hr & _)|[-> _]]; [left; by eapply list_elem_of_lookup_2|by right]. Qed.

Lemma length_SoftMax exp scores temperature l : SoftMax exp scores temperature = Ok l -> length l = length scores.
Proof. unfold SoftMax. intros H. inv_ok. by rewrite !length_map. Qed.

Lemma SoftMax_Ok exp scores temperature : scores ≠ [] -> ∃ l, SoftMax exp scores temperature = Ok l.
Proof.
  intros H. unfold SoftMax. destruct (get_lt scores (max_element scores)) as (x & -> & _); [by apply max_element_lt|].
  rewrite bind_Ok. eauto.
Qed.

Section choosers.
Context {G : Type} (exp : f32 -> f32) (uniform : f32 -> G -> f32 * G) (discrete : list f32 -> G -> nat * G).
Context (sort partial_sort : nat -> list f32 -> list nat) `{!Sorter sort, !Sorter partial_sort}.
Context (scores : list f32) (temperature : f32).
Context (Hne : scores ≠ []) (Hnum : ∀ l, SoftMax exp scores temperature = Ok l -> numbers l).

(** [t] is drawn from the nucleus: the threshold, drawn up to [top_p], is used up
    there in descending order of probability. *)
Definition nucleus (top_p : f32) (l : list f32) (t : nat) : Prop :=
  t < length l ∧ ∃ ix threshold g g', descending (length l) l ix ∧ uniform top_p g = (threshold, g') ∧
    exceeds_at l ix threshold 0 t.

Lemma choose_top_p_spec (top_p : f32) (g : G) :
  ∃ l t g', choose_top_p exp uniform sort top_p temperature scores g = Ok (l, Z.of_nat t, g') ∧
    SoftMax exp scores temperature = Ok l ∧ nucleus top_p l t.
Proof.
  destruct (SoftMax_Ok exp scores temperature Hne) as [l El]. specialize (Hnum l El).
  assert (0 < length l) as Hl by (rewrite (length_SoftMax _ _ _ _ El); destruct scores; [done|simpl; lia]).
  unfold choose_top_p. rewrite El, bind_Ok. cbv zeta. destruct (uniform top_p g) as [threshold g'] eqn:Eu.
  pose proof (sorter (f := sort) (length l) l (le_n _) Hnum) as Hd. pose proof Hd as [Hp _].
  assert (∀ i, i ∈ sort (length l) l -> i < length l) as Hr by (intros i; rewrite Hp, elem_of_seq; lia).
  destruct (first_exceeding_spec l (sort (length l) l) threshold 0 Hr) as (t & -> & Ht). rewrite bind_Ok.
  exists l, t, g'. split; [done|]. split; [done|]. split.
  - destruct (exceeds_at_in _ _ _ _ _ Ht) as [Hin| ->]; [by apply Hr|done].
  - exists (sort (length l) l), threshold, g, g'. done.
Qed.

Lemma choose_top_k_top_p_spec (k : nat) (top_p : f32) (g : G) : 0 < k <= length scores ->
  ∃ l t g', choose_top_k_top_p exp uniform partial_sort k top_p temperature scores g = Ok (l, Z.of_nat t, g') ∧
    SoftMax exp scores temperature = Ok l ∧ among_best k l t.
Proof.
  intros Hk. destruct (SoftMax_Ok exp scores temperature Hne) as [l El]. specialize (Hnum l El).
  pose proof (length_SoftMax _ _ _ _ El) as Ell.
  unfold choose_top_k_top_p. rewrite El, bind_Ok. destruct (Nat.ltb_spec (length l) k) as [|_]; [lia|].
  cbv zeta. destruct (uniform top_p g) as [threshold g'].
  pose proof (sorter (f := partial_sort) k l ltac:(lia) Hnum) as Hd.
  assert (length (partial_sort k l) = length l) as Eix by (destruct Hd as [-> _]; apply length_seq).
  destruct (get_lt (partial_sort k l) (k - 1)) as (last & -> & Hlast); [lia|]. rewrite bind_Ok.
  assert (∀ i, i ∈ take k (partial_sort k l) -> i < length l ∧ among_best k l i) as Hr.
  { intros i [j Hj]%list_elem_of_lookup. apply lookup_take_Some in Hj as [Hj Hjk].
    pose proof (descending_among k l _ j i Hd Hjk Hj) as Ha. split; [|done].
    destruct Ha as (v & Hv & _). by apply lookup_lt_Some in Hv. }
  destruct (first_exceeding_spec l (take k (partial_sort k l)) threshold last) as (t & -> & Ht).
  { intros i Hi. by apply Hr. }
  rewrite bind_Ok. exists l, t, g'. split; [done|]. split; [done|].
  destruct (exceeds_at_in _ _ _ _ _ Ht) as [Hin| ->]; [by apply Hr|].
  eapply descending_among; [exact Hd| |exact Hlast]. lia.
Qed.
End choosers.

(** ** What the steps of greedy search do *)
Section greedy_results.
Context (p : GeneratorParams) {G : Type}.
Local Abbreviation nb := (n_batch p).
Local Abbreviation nv := (n_vocab p).

(** A search that has its logits and is not at the maximum length. *)
Record ready (s : GreedySearch_Cpu (G := G)) : Prop := {
  rd_ok : greedy_ok p s;
  rd_room : search_length (g_cpu s) < n_max p;
  rd_scores : length (next_token_scores_ (g_cpu s)) = nb * nv;
  rd_vocab : 0 < nv;
  rd_int : int_rows nb (n_max p);
  rd_max : (0 <= max_length (gp_search p))%Z }.

Definition logits_of (s : GreedySearch_Cpu (G := G)) (b : nat) : list f32 :=
  scores_row p (next_token_scores_ (g_cpu s)) b.

Definition row_of (s : GreedySearch_Cpu (G := G)) (b : nat) : list Z := row (sequences (g_cpu s)) b.

(** [s'] is [s] after a step in which each open entry gained a token related
    to it by [R] and each ended entry the padding token. *)
Definition stepped (R : nat -> Z -> Prop) (s s' : GreedySearch_Cpu (G := G)) : Prop :=
  greedy_ok p s' ∧ search_length (g_cpu s') = S (search_length (g_cpu s)) ∧
  ∀ b, b < nb ->
    match eos_seen_ s !! b with
    | Some true => row_of s' b = row_of s b ++ [gp_pad_token_id p] ∧ eos_seen_ s' !! b = Some true
    | _ => ∃ t, R b t ∧ row_of s' b = row_of s b ++ [t] ∧
                eos_seen_ s' !! b = Some (bool_decide (t = gp_eos_token_id p))
    end.

Lemma length_logits_of s b : ready s -> b < nb -> length (logits_of s b) = nv.
Proof. intros [_ _ H _ _ _] Hb. apply length_window. rewrite H. by apply row_bound. Qed.

Lemma stepped_by (pick : chooser (G := G)) (R : nat -> Z -> Prop) s :
  ready s ->
  (∀ b g, b < nb -> eos_seen_ s !! b = Some false ->
     ∃ l t g', pick (logits_of s b) g = Ok (l, t, g') ∧ length l = nv ∧ R b t) ->
  ∃ s', (s ← for_ nb (next_entry p pick) s; AppendNextTokensToSequences p s) = Ok s' ∧ stepped R s s'.
Proof.
  intros Hr Hpick. pose proof Hr as [Hok Hlt Hsc _ Hint Hmax].
  assert (∀ b, eos_seen_ s !! b = Some false -> b < nb) as Hb
    by (intros b He%lookup_lt_Some; by rewrite (go_eos p s Hok) in He).
  destruct (greedy_step_spec p pick s) as (s' & E & H1 & H2 & H3); try done.
  - intros b He g. destruct (Hpick b g (Hb b He) He) as (l & t & g' & E & Hl & _). eauto.
  - exists s'. split; [done|]. split; [done|]. split; [done|]. intros b Hlt'.
    destruct (H3 b Hlt') as (t & seen & Hn & He & Hrow). unfold next_of in Hn.
    destruct (lookup_lt_is_Some_2 (eos_seen_ s) b) as [e Hse]; [by rewrite (go_eos p s Hok)|].
    rewrite Hse in *. destruct e.
    + destruct Hn as [-> ->]. done.
    + destruct Hn as (g & l & g' & E' & ->). exists t. split; [|done].
      destruct (Hpick b g Hlt' Hse) as (l2 & t2 & g2 & E2 & _ & HR).
      unfold logits_of in E2. rewrite E' in E2. by injection E2 as _ <- _.
Qed.
End greedy_results.

(** [t] is the first greatest score of [l]. *)
Definition first_greatest (l : list f32) (t : Z) : Prop :=
  ∃ i v, t = Z.of_nat i ∧ l !! i = Some v ∧
    ∀ j x, l !! j = Some x -> flt v x = false ∧ (j < i -> flt x v = true).

Lemma argmax_first {G} (l : list f32) (g : G) : l ≠ [] -> numbers l ->
  ∃ t, argmax l g = Ok (l, t, g) ∧ first_greatest l t.
Proof.
  intros Hne Hn. destruct (max_element_spec l Hne Hn) as (v & Hv & Hmax).
  exists (Z.of_nat (max_element l)). split; [done|]. by exists (max_element l), v.
Qed.

Lemma SelectTop_stepped (p : GeneratorParams) {G} (s : GreedySearch_Cpu (G := G)) :
  ready p s -> (∀ b, b < n_batch p -> eos_seen_ s !! b = Some false -> numbers (logits_of p s b)) ->
  ∃ s', SelectTop p s = Ok s' ∧ stepped p (fun b t => first_greatest (logits_of p s b) t) s s'.
Proof.
  intros Hr Hn. apply stepped_by; [done|]. intros b g Hb He.
  pose proof (length_logits_of p s b Hr Hb) as Hl. pose proof (rd_vocab p s Hr).
  destruct (argmax_first (logits_of p s b) g) as (t & -> & Ht); [by destruct (logits_of p s b); simpl in *; [lia|]|by apply Hn|].
  eauto 10.
Qed.

(** C32: a greedy step.  Every open entry gains the first of the tokens with
    the greatest score, every ended entry the padding token; an entry is open
    after the step exactly when its token is not the end of sequence; the count
    of open entries and the done flag agree with that and with the maximum
    length; nothing is read or written out of range. *)
Theorem SelectTop_spec (p : GeneratorParams) (G : Type) (s : GreedySearch_Cpu (G := G)) :
  ready p s -> (∀ b, b < n_batch p -> eos_seen_ s !! b = Some false -> numbers (logits_of p s b)) ->
  ∃ s', SelectTop p s = Ok s' ∧ stepped p (fun b t => first_greatest (logits_of p s b) t) s s'.
Proof. apply SelectTop_stepped. Qed.

Lemma SampleTopKTopP_stepped (p : GeneratorParams) (G : Type) (exp : f32 -> f32) (uniform : f32 -> G -> f32 * G)
    (partial_sort : nat -> list f32 -> list nat) (k : nat) (top_p temperature : f32) (s : GreedySearch_Cpu (G := G)) :
  Sorter partial_sort -> ready p s -> 0 < k <= n_vocab p ->
  (∀ b l, b < n_batch p -> eos_seen_ s !! b = Some false ->
     SoftMax exp (logits_of p s b) temperature = Ok l -> numbers l) ->
  ∃ s', SampleTopKTopP p exp uniform partial_sort k top_p temperature s = Ok s' ∧
    stepped p (fun b t => ∃ l i, SoftMax exp (logits_of p s b) temperature = Ok l ∧ t = Z.of_nat i ∧
                               among_best k l i) s s'.
Proof.
  intros Hs Hr Hk Hn. apply stepped_by; [done|]. intros b g Hb He.
  pose proof (length_logits_of p s b Hr Hb) as Hl. pose proof (rd_vocab p s Hr).
  destruct (choose_top_k_top_p_spec exp uniform partial_sort (logits_of p s b) temperature
    ltac:(by destruct (logits_of p s b); simpl in *; [lia|]) ltac:(intros l; by apply Hn) k top_p g ltac:(lia))
    as (l & t & g' & E & El & Ht).
  exists l, (Z.of_nat t), g'. split; [done|]. split; [by rewrite (length_SoftMax _ _ _ _ El)|]. eauto.
Qed.

(** C33: sampling with a limit [k].  Whatever the generator draws and however
    equal scores are sorted, an open entry gains one of its [k] most probable
    tokens. *)
Theorem SampleTopKTopP_spec (p : GeneratorParams) (G : Type) (exp : f32 -> f32) (uniform : f32 -> G -> f32 * G)
    (partial_sort : nat -> list f32 -> list nat) (k : nat) (top_p temperature : f32) (s : GreedySearch_Cpu (G := G)) :
  Sorter partial_sort -> ready p s -> 0 < k <= n_vocab p ->
  (∀ b l, b < n_batch p -> eos_seen_ s !! b = Some false ->
     SoftMax exp (logits_of p s b) temperature = Ok l -> numbers l) ->
  ∃ s', SampleTopKTopP p exp uniform partial_sort k top_p temperature s = Ok s' ∧
    stepped p (fun b t => ∃ l i, SoftMax exp (logits_of p s b) temperature = Ok l ∧ t = Z.of_nat i ∧
                               among_best k l i) s s'.
Proof. apply SampleTopKTopP_stepped. Qed.

Lemma SampleTopP_stepped (p : GeneratorParams) (G : Type) (exp : f32 -> f32) (uniform : f32 -> G -> f32 * G)
    (sort : nat -> list f32 -> list nat) (top_p temperature : f32) (s : GreedySearch_Cpu (G := G)) :
  Sorter sort -> ready p s ->
  (∀ b l, b < n_batch p -> eos_seen_ s !! b = Some false ->
     SoftMax exp (logits_of p s b) temperature = Ok l -> numbers l) ->
  ∃ s', SampleTopP p exp uniform sort top_p temperature s = Ok s' ∧
    stepped p (fun b t => ∃ l i, SoftMax exp (logits_of p s b) temperature = Ok l ∧ t = Z.of_nat i ∧
      (t < gp_vocab_size p)%Z ∧ nucleus uniform top_p l i) s s'.
Proof.
  intros Hs Hr Hn. apply stepped_by; [done|]. intros b g Hb He.
  pose proof (length_logits_of p s b Hr Hb) as Hl. pose proof (rd_vocab p s Hr).
  destruct (choose_top_p_spec exp uniform sort (logits_of p s b) temperature
    ltac:(by destruct (logits_of p s b); simpl in *; [lia|]) ltac:(intros l; by apply Hn) top_p g)
    as (l & t & g' & E & El & Ht).
  pose proof (length_SoftMax _ _ _ _ El) as Ell.
  exists l, (Z.of_nat t), g'. split; [done|]. split; [lia|]. exists l, t.
  split; [done|]. split; [done|]. split; [|done]. destruct Ht as [Ht _]. unfold n_vocab in *. lia.
Qed.

(** Nucleus sampling without a limit: an open entry gains the token at
    which the drawn threshold is used up when the probabilities are subtracted in
    descending order (token 0 if rounding leaves some of it), always one of the
    vocabulary. *)
Theorem SampleTopP_spec (p : GeneratorParams) (G : Type) (exp : f32 -> f32) (uniform : f32 -> G -> f32 * G)
    (sort : nat -> list f32 -> list nat) (top_p temperature : f32) (s : GreedySearch_Cpu (G := G)) :
  Sorter sort -> ready p s ->
  (∀ b l, b < n_batch p -> eos_seen_ s !! b = Some false ->
     SoftMax exp (logits_of p s b) temperature = Ok l -> numbers l) ->
  ∃ s', SampleTopP p exp uniform sort top_p temperature s = Ok s' ∧
    stepped p (fun b t => ∃ l i, SoftMax exp (logits_of p s b) temperature = Ok l ∧ t = Z.of_nat i ∧
      (t < gp_vocab_size p)%Z ∧ nucleus uniform top_p l i) s s'.
Proof. apply SampleTopP_stepped. Qed.

(** ** The logit processors *)
Section processors.
Context (p : GeneratorParams).
Local Abbreviation nv := (n_vocab p).

(** The scores of [bb] rows over well-formed sequences. *)
Record scores_ok (bb : nat) (c : Search_Cpu) : Prop := {
  sk_bb : BatchBeamSize p = Ok (Z.of_nat bb);
  sk_scores : length (next_token_scores_ c) = bb * nv;
  sk_wf : wf (sequences c);
  sk_rows : batch_beam_size_ (sequences c) = bb }.

(** [c'] is [c] with every row of scores changed by [f]. *)
Definition rows_changed (bb : nat) (f : nat -> list f32 -> list f32) (c c' : Search_Cpu) : Prop :=
  (∃ l, c' = set_scores l c) ∧ length (next_token_scores_ c') = length (next_token_scores_ c) ∧
  ∀ i, i < bb -> scores_row p (next_token_scores_ c') i = f i (scores_row p (next_token_scores_ c) i).

Lemma set_scores_set l l' c : set_scores l (set_scores l' c) = set_scores l c.
Proof. done. Qed.

Lemma set_scores_same c : set_scores (next_token_scores_ c) c = c.
Proof. by destruct c. Qed.

Lemma GetScores_Ok bb c i : scores_ok bb c -> i < bb -> GetScores p i c = Ok (scores_row p (next_token_scores_ c) i).
Proof.
  intros [H1 H2 H3 H4] Hi. unfold GetScores. rewrite H1, bind_Ok.
  destruct (Z.ltb_spec (Z.of_nat i) (Z.of_nat bb)); [|lia]. unfold assert_. rewrite bind_Ok.
  apply subspan_le. rewrite H2. by apply row_bound.
Qed.

Lemma length_scores_row bb c i : scores_ok bb c -> i < bb -> length (scores_row p (next_token_scores_ c) i) = nv.
Proof. intros [H1 H2 H3 H4] Hi. apply length_window. rewrite H2. by apply row_bound. Qed.

(** A loop that reads each row, computes [f] and writes it back. *)
Lemma rows_loop bb (f : nat -> list f32 -> list f32) (body : list f32 -> nat -> Search_Cpu -> outcome (list f32)) c :
  scores_ok bb c ->
  (∀ i l, i < bb -> let c' := set_scores l c in scores_ok bb c' ->
     body (scores_row p l i) i c' = Ok (f i (scores_row p l i)) ∧ length (f i (scores_row p l i)) = nv) ->
  ∃ c', for_ bb (fun i c => l ← GetScores p i c; l ← body l i c; put_scores p i l c) c = Ok c' ∧
    rows_changed bb f c c'.
Proof.
  intros Hok Hbody.
  destruct (for_inv (fun k c' => (∃ l, c' = set_scores l c) ∧
      length (next_token_scores_ c') = length (next_token_scores_ c) ∧
      ∀ i, scores_row p (next_token_scores_ c') i
         = (if decide (i < k) then f i else id) (scores_row p (next_token_scores_ c) i)) bb
    (fun i c => l ← GetScores p i c; l ← body l i c; put_scores p i l c) c) as (c' & E & H1 & H2 & H3).
  - split; [exists (next_token_scores_ c); by rewrite set_scores_same|]. split; [done|].
    intros i. by rewrite decide_False by lia.
  - intros k c1 Hk ([l ->] & Hl & Hrows). simpl in Hl, Hrows.
    assert (scores_ok bb (set_scores l c)) as Hok1.
    { destruct Hok as [A1 A2 A3 A4]. split; simpl; try done. by rewrite Hl. }
    rewrite (GetScores_Ok bb) by done. rewrite bind_Ok. simpl next_token_scores_.
    destruct (Hbody k l Hk Hok1) as [-> Hlen]. rewrite bind_Ok. unfold put_scores. simpl next_token_scores_.
    pose proof (row_bound k bb nv Hk) as Hrb. pose proof (sk_scores bb c Hok) as Hc.
    rewrite blit_le, bind_Ok by lia. eexists. split; [reflexivity|]. rewrite set_scores_set.
    split; [by eexists|]. simpl. split; [by rewrite length_inserts|]. intros i.
    destruct (decide (i = k)) as [->|Hne].
    + rewrite decide_True by lia. unfold scores_row at 1. rewrite <- Hlen at 1.
      rewrite window_inserts_same by lia. f_equal. rewrite Hrows. by rewrite decide_False by lia.
    + rewrite scores_row_inserts, Hrows by lia. destruct (decide (i < k)), (decide (i < S k)); done || lia.
  - exists c'. split; [done|]. split; [done|]. split; [done|]. intros i Hi. rewrite H3. by rewrite decide_True.
Qed.

(** *** Minimum length *)
Definition without_eos (l : list f32) : list f32 := <[Z.to_nat (gp_eos_token_id p) := f32_lowest]> l.

Lemma ApplyMinLength_rows bb min_length c :
  scores_ok bb c -> (0 <= gp_eos_token_id p < gp_vocab_size p)%Z ->
  ∃ c', ApplyMinLength p min_length c = Ok c' ∧
    rows_changed bb (fun _ l => if (Z.of_nat (search_length c) <? min_length)%Z then without_eos l else l) c c'.
Proof.
  intros Hok He. unfold ApplyMinLength.
  destruct (Z.leb_spec min_length (Z.of_nat (search_length c))) as [Hle|Hlt].
  - exists c. split; [done|]. split; [exists (next_token_scores_ c); by rewrite set_scores_same|].
    split; [done|]. intros i _. by destruct (Z.ltb_spec (Z.of_nat (search_length c)) min_length); [lia|].
  - rewrite (sk_bb bb c Hok), bind_Ok, Nat2Z.id.
    destruct (rows_loop bb (fun _ => without_eos) (fun l _ _ => putZ l (gp_eos_token_id p) f32_lowest) c Hok)
      as (c' & E & Hc).
    + intros i l Hi c1 Hok1. pose proof (length_scores_row bb c1 i Hok1 Hi) as Hl. simpl in Hl.
      rewrite putZ_put, put_lt by (unfold n_vocab in Hl; lia).
      split; [done|]. unfold without_eos. by rewrite length_insert.
    + exists c'. split; [exact E|].
      by destruct (Z.ltb_spec (Z.of_nat (search_length c)) min_length); [|lia].
Qed.

(** *** Repetition penalty *)
Definition penalised (penalty : f32) (ids : list Z) (l : list f32) : list f32 :=
  imap (fun j x => if decide (Z.of_nat j ∈ ids) then penalise penalty x else x) l.

Lemma penalty_loop (penalty : f32) (ids : list Z) : ∀ l,
  NoDup ids -> Forall (fun t => (0 <= t < Z.of_nat (length l))%Z) ids ->
  for_each (fun word_id l => score ← getZ l word_id; putZ l word_id (penalise penalty score)) ids l
    = Ok (penalised penalty ids l).
Proof.
  induction ids as [|t ids IH]; intros l Hnd Hr.
  - simpl. f_equal. unfold penalised. symmetry. rewrite (imap_ext _ (const id)).
    + by rewrite imap_const, list_fmap_id.
    + intros i x _. by rewrite decide_False by apply not_elem_of_nil.
  - apply NoDup_cons in Hnd as [Hn Hnd]. apply Forall_cons_1 in Hr as [Ht Hr].
    rewrite for_each_cons, getZ_get by lia.
    destruct (get_lt l (Z.to_nat t)) as (x & -> & Hx); [lia|]. rewrite bind_Ok, putZ_put, put_lt, bind_Ok by lia.
    rewrite IH by (done || by rewrite length_insert). f_equal. unfold penalised.
    apply (list_eq_lt _ _ (length l)); [by rewrite length_imap, length_insert|by rewrite length_imap|].
    intros i Hi. rewrite !list_lookup_imap. destruct (lookup_lt_is_Some_2 l i Hi) as [y Hy].
    destruct (decide (i = Z.to_nat t)) as [->|Hne].
    + rewrite list_lookup_insert_eq by done. rewrite Hx. simpl. rewrite Z2Nat.id by lia.
      rewrite decide_False by done. by rewrite decide_True by (by left).
    + rewrite list_lookup_insert_ne, Hy by done. simpl. f_equal.
      destruct (decide (Z.of_nat i ∈ ids)) as [Hi'|Hi'].
      * by rewrite decide_True by (by right).
      * rewrite decide_False; [done|]. intros [E|?]%elem_of_cons; [lia|done].
Qed.

Lemma penalised_set penalty ids ids' l : (∀ x, x ∈ ids ↔ x ∈ ids') -> penalised penalty ids l = penalised penalty ids' l.
Proof. intros H. apply imap_ext. intros i x _. destruct (decide _), (decide _); naive_solver. Qed.
End processors.

(** Before the minimum length, a greedy step after [ApplyMinLength] ends no
    entry, as long as each open entry has another token above the lowest float. *)
Theorem min_length_respected (p : GeneratorParams) (G : Type) (min_length : Z) (s : GreedySearch_Cpu (G := G)) :
  ready p s -> BatchBeamSize p = Ok (Z.of_nat (n_batch p)) ->
  (0 <= gp_eos_token_id p < gp_vocab_size p)%Z ->
  (Z.of_nat (search_length (g_cpu s)) < min_length)%Z ->
  (∀ b, b < n_batch p -> eos_seen_ s !! b = Some false ->
     numbers (logits_of p s b) ∧
     ∃ j x, logits_of p s b !! j = Some x ∧ Z.of_nat j ≠ gp_eos_token_id p ∧ flt f32_lowest x = true) ->
  ∃ c s', ApplyMinLength p min_length (g_cpu s) = Ok c ∧ SelectTop p (set_cpu c s) = Ok s' ∧
    eos_seen_ s' = eos_seen_ s ∧ g_not_done_count_ s' = g_not_done_count_ s.
Proof.
  intros Hr Hbb He Hlen Hrows. pose proof Hr as [Hok H1 H2 H3 H4 H5]. pose proof Hok as [O1 O2 O3 O4 O5 O6 O7].
  destruct (ApplyMinLength_rows p (n_batch p) min_length (g_cpu s)) as (c & Ec & [[l ->] [Hll Hc]]); [done|done|].
  rewrite (proj2 (Z.ltb_lt _ _) Hlen) in Hc. simpl in Hll, Hc.
  set (s1 := set_cpu (set_scores l (g_cpu s)) s).
  assert (ready p s1) as Hr1 by (split; simpl; [done|done|by rewrite Hll|done..]).
  assert (∀ b, b < n_batch p -> logits_of p s1 b = without_eos p (logits_of p s b)) as Hlo by exact Hc.
  destruct (SelectTop_stepped p s1 Hr1) as (s' & E & Hok' & _ & Hs').
  { intros b Hb Hseen. rewrite (Hlo b Hb). apply Forall_insert; [by apply Hrows|done]. }
  exists (set_scores l (g_cpu s)), s'. split; [done|]. split; [done|].
  assert (eos_seen_ s' = eos_seen_ s) as Heq.
  { apply (list_eq_lt _ _ (n_batch p)); [by apply go_eos|done|]. intros b Hb. specialize (Hs' b Hb).
    simpl in Hs'. destruct (lookup_lt_is_Some_2 (eos_seen_ s) b) as [e Hseen]; [by rewrite O2|].
    rewrite Hseen in *. destruct e; [by destruct Hs'|].
    destruct Hs' as (t & (i & v & -> & Hv & Hmax) & _ & ->). rewrite bool_decide_false; [done|]. intros Et.
    destruct (Hrows b Hb Hseen) as (_ & j & x & Hx & Hj & Hlow).
    rewrite (Hlo b Hb) in Hv, Hmax. unfold without_eos in Hv, Hmax.
    replace (Z.to_nat (gp_eos_token_id p)) with i in Hv, Hmax by lia.
    pose proof (lookup_lt_Some _ _ _ Hv) as Hi. rewrite length_insert in Hi.
    rewrite list_lookup_insert_eq in Hv by done. injection Hv as <-.
    destruct (Hmax j x) as [Hf _]; [by rewrite list_lookup_insert_ne by lia|]. congruence. }
  split; [done|]. by rewrite (go_count p s' Hok'), Heq, O6.
Qed.

Lemma ApplyRepetitionPenalty_rows (p : GeneratorParams) (unordered : list Z -> list Z) (bb : nat) (penalty : f32)
    (c : Search_Cpu) :
  Unordered unordered -> scores_ok p bb c ->
  (∀ i, i < bb -> Forall (fun t => (0 <= t < gp_vocab_size p)%Z) (row (sequences c) i)) ->
  ∃ c', ApplyRepetitionPenalty p unordered penalty c = Ok c' ∧
    rows_changed p bb (fun i l => if feq penalty f1 then l else penalised penalty (row (sequences c) i) l) c c'.
Proof.
  intros Hu Hok Hids. unfold ApplyRepetitionPenalty. destruct (feq penalty f1).
  - exists c. split; [done|]. split; [exists (next_token_scores_ c); by rewrite set_scores_same|]. done.
  - rewrite (sk_bb p bb c Hok), bind_Ok, Nat2Z.id.
    destruct (rows_loop p bb (fun i => penalised penalty (row (sequences c) i))
      (fun l i c => sequence ← GetSequence (sequences c) i;
         for_each (fun word_id l => score ← getZ l word_id; putZ l word_id (penalise penalty score))
           (unordered sequence) l) c Hok) as (c' & E & Hc).
    + intros i l Hi c1 Hok1. simpl sequences. pose proof (length_scores_row p bb c1 i Hok1 Hi) as Hl. simpl in Hl.
      rewrite GetSequence_row, bind_Ok by (apply Hok || by rewrite (sk_rows p bb c Hok)).
      rewrite penalty_loop.
      * split; [f_equal; apply penalised_set; intros; apply unordered_elem|].
        unfold penalised. by rewrite length_imap.
      * apply unordered_NoDup.
      * apply Forall_forall. intros t Ht.
        pose proof (proj1 (Forall_forall _ _) (Hids i Hi) t (proj1 (unordered_elem (row (sequences c) i) t) Ht)) as Hr. cbv beta in Hr. rewrite Hl. unfold n_vocab. lia.
    + exists c'. split; [|done]. rewrite <- E. f_equal.
Qed.

(** C37: the repetition penalty changes the score of every token that occurs in
    the row's sequence, once, whatever the order of the set, and no other. *)
Theorem ApplyRepetitionPenalty_spec (p : GeneratorParams) (unordered : list Z -> list Z) (bb : nat) (penalty : f32)
    (c : Search_Cpu) :
  Unordered unordered -> scores_ok p bb c ->
  (∀ i, i < bb -> Forall (fun t => (0 <= t < gp_vocab_size p)%Z) (row (sequences c) i)) ->
  ∃ c', ApplyRepetitionPenalty p unordered penalty c = Ok c' ∧
    rows_changed p bb (fun i l => if feq penalty f1 then l else penalised penalty (row (sequences c) i) l) c c'.
Proof. apply ApplyRepetitionPenalty_rows. Qed.

Lemma blit_filled_at {A} (a d src : list A) (off : nat) :
  off = length a -> length a + length src <= length d -> blit (filled a d) off src = Ok (filled (a ++ src) d).
Proof. intros ->. apply blit_filled. Qed.

(** ** Rows of a flat list *)
Section blocks.
Context {A : Type} (f : nat -> list A) (w : nat).

Definition blocks (n : nat) : list A := concat (map f (seq 0 n)).

Lemma blocks_S n : blocks (S n) = blocks n ++ f n.
Proof. unfold blocks. rewrite seq_S, map_app, concat_app. simpl. by rewrite app_nil_r. Qed.

Lemma length_blocks n : (∀ i, i < n -> length (f i) = w) -> length (blocks n) = n * w.
Proof.
  induction n as [|n IH]; intros H; [done|]. rewrite blocks_S, length_app, IH, H by (intros; auto with lia || lia). lia.
Qed.

Lemma block_window n i : (∀ i, i < n -> length (f i) = w) -> i < n -> take w (drop (i * w) (blocks n)) = f i.
Proof.
  induction n as [|n IH]; intros H Hi; [lia|]. rewrite blocks_S.
  assert (length (blocks n) = n * w) as Hl by (apply length_blocks; intros; apply H; lia).
  destruct (decide (i = n)) as [->|Hne].
  - rewrite drop_app_length' by done. rewrite take_ge; [done|]. rewrite H; lia.
  - pose proof (row_bound i n w ltac:(lia)). rewrite drop_app_le by lia. rewrite take_app_le by (rewrite length_drop; lia).
    apply IH; [|lia]. intros; apply H; lia.
Qed.

Lemma windows_blocks n (l : list A) : length l = n * w -> (∀ i, i < n -> take w (drop (i * w) l) = f i) -> l = blocks n.
Proof.
  revert l. induction n as [|n IH]; intros l Hl H; [by destruct l|]. rewrite blocks_S.
  rewrite <- (take_drop (n * w) l). f_equal.
  - apply IH; [rewrite length_take; lia|]. intros i Hi. pose proof (row_bound i n w Hi).
    rewrite <- (H i) by lia. rewrite <- (take_drop (n * w) l) at 2.
    rewrite drop_app_le by (rewrite length_take; lia). rewrite take_app_le; [done|].
    rewrite length_drop, length_take. lia.
  - rewrite <- (H n) by lia. rewrite take_ge; [done|]. rewrite length_drop. lia.
Qed.
End blocks.

Lemma elem_of_blocks {A} (f : nat -> list A) n x : x ∈ blocks f n -> ∃ i, i < n ∧ x ∈ f i.
Proof.
  induction n as [|n IH]; [by intros ?%not_elem_of_nil|]. rewrite blocks_S, elem_of_app.
  intros [(i & Hi & H)%IH|H]; [exists i|exists n]; (split; [lia|done]).
Qed.

Lemma map_blocks {A B} (g : A -> B) (f : nat -> list A) n : map g (blocks f n) = blocks (fun i => map g (f i)) n.
Proof. unfold blocks. rewrite concat_map, map_map. done. Qed.

(** ** Beam search: the scores of the candidates *)
Section beam_scores.
Context (p : GeneratorParams).
Local Abbreviation nb := (n_batch p).
Local Abbreviation nbeam := (n_beams p).
Local Abbreviation nv := (n_vocab p).

(* the first [off] scores have their beam's score added *)
Definition added (beam_scores l : list f32) (off : nat) : list f32 :=
  imap (fun q x => if decide (q < off) then fadd x (nth (q / nv) beam_scores f0) else x) l.

Lemma length_added bs l off : length (added bs l off) = length l.
Proof. apply length_imap. Qed.

Lemma added_0 bs l : added bs l 0 = l.
Proof. unfold added. rewrite (imap_ext _ (const id)); [by rewrite imap_const, list_fmap_id|]. intros. by rewrite decide_False by lia. Qed.

Lemma added_step bs l bbi k b : 0 < nv -> k < nv -> bbi * nv + k < length l -> bs !! bbi = Some b ->
  ∃ x, get (added bs l (bbi * nv + k)) (bbi * nv + k) = Ok x ∧
    put (added bs l (bbi * nv + k)) (bbi * nv + k) (fadd x b) = Ok (added bs l (bbi * nv + S k)).
Proof.
  intros Hnv Hk Hlt Hb. set (q := bbi * nv + k) in *.
  assert (q / nv = bbi) as Hq by (unfold q; rewrite Nat.div_add_l, Nat.div_small by lia; lia).
  destruct (lookup_lt_is_Some_2 l q Hlt) as [x Hx].
  exists x. split; [apply get_Some; unfold added; rewrite list_lookup_imap, Hx; simpl; by rewrite decide_False by lia|].
  rewrite put_lt by (rewrite length_added; lia). f_equal.
  apply (list_eq_lt _ _ (length l)); [by rewrite length_insert, length_added|by rewrite length_added|].
  intros j Hj. unfold added. destruct (decide (j = q)) as [->|Hne].
  - rewrite list_lookup_insert_eq by (by rewrite length_imap). rewrite list_lookup_imap, Hx. simpl.
    rewrite decide_True by (unfold q; lia). by rewrite Hq, nth_lookup, Hb.
  - rewrite list_lookup_insert_ne, !list_lookup_imap by done. destruct (l !! j); [|done]. simpl. f_equal.
    destruct (decide (j < q)), (decide (j < bbi * nv + S k)); done || (unfold q in *; lia).
Qed.

Lemma add_beam_scores_spec beam_scores scores :
  0 < nv -> length scores = nb * nbeam * nv -> length beam_scores = nb * nbeam ->
  (Z.of_nat (nb * nbeam * nv) <= INT_MAX)%Z ->
  add_beam_scores p beam_scores scores = Ok (added beam_scores scores (nb * nbeam * nv)).
Proof.
  intros Hnv Hl Hb Hmax. unfold add_beam_scores.
  set (P := fun bbi '((l, off, i) : list f32 * nat * nat) =>
      l = added beam_scores scores (bbi * nv) ∧ off = bbi * nv ∧ i = bbi).
  match goal with |- context [for_ nb ?b _] => set (body := b) end.
  destruct (for_inv (fun i => P (i * nbeam)) nb body (scores, 0, 0)) as ([[l off] i] & E & -> & -> & ->).
  - unfold P. by rewrite added_0.
  - intros i s Hi HP. unfold body.
    destruct (for_inv (fun j => P (i * nbeam + j)) nbeam
      (fun _ '(l, offset, batch_beam_index) =>
      '(l, offset) ← for_ nv (fun _ '(l, offset) =>
          x ← get l offset;
          b ← get beam_scores batch_beam_index;
          l ← put l offset (fadd x b);
          offset ← int_nat (offset + 1);
          Ok (l, offset)) (l, offset);
      Ok (l, offset, (batch_beam_index + 1)%nat)) s) as (s' & E & HP').
    + by rewrite Nat.add_0_r.
    + intros j [[l off] bbi] Hj (-> & -> & ->). set (bbi := i * nbeam + j).
      assert (bbi < nb * nbeam) as Hbbi by (by apply row_index).
      pose proof (row_bound bbi (nb * nbeam) nv Hbbi) as Hrb.
      destruct (lookup_lt_is_Some_2 beam_scores bbi) as [b Hbs]; [lia|].
      match goal with |- context [for_ nv ?b _] => set (inner := b) end.
      destruct (for_inv (fun k s => s = (added beam_scores scores (bbi * nv + k), bbi * nv + k)) nv inner
        (added beam_scores scores (bbi * nv), bbi * nv)) as (s' & -> & ->).
      * by rewrite Nat.add_0_r.
      * intros k s' Hk ->. unfold inner.
        destruct (added_step beam_scores scores bbi k b Hnv Hk ltac:(lia) Hbs) as (x & Hg & Hs).
        cbv beta iota. rewrite Hg, bind_Ok, (get_Some _ _ b Hbs), bind_Ok, Hs, bind_Ok, int_nat_ok, bind_Ok by lia. eexists. split; [reflexivity|].
        by replace (bbi * nv + k + 1) with (bbi * nv + S k) by lia.
      * rewrite bind_Ok. eexists. split; [reflexivity|]. unfold P. fold bbi.
        replace (i * nbeam + S j) with (S bbi) by (unfold bbi; lia).
        replace (bbi * nv + nv) with (S bbi * nv) by lia. split; [done|]. split; [done|]. lia.
    + exists s'. split; [done|]. by replace (S i * nbeam) with (i * nbeam + nbeam) by lia.
  - rewrite E. done.
Qed.
End beam_scores.

(** ** Beam search: a step *)
Section beam_step.
Context (p : GeneratorParams) (pow : f32 -> f32 -> f32) (queue : nat -> list f32 -> list nat) `{!Sorter queue}.
Local Abbreviation nb := (n_batch p).
Local Abbreviation nbeam := (n_beams p).
Local Abbreviation nv := (n_vocab p).
Local Abbreviation bb := (n_batch p * n_beams p).
Local Abbreviation pen := (length_penalty (gp_search p)).

(* a score, the token and the beam of a place of an entry's flat scores *)
Definition cand_at (l : list f32) (v : nat) : cand :=
  (nth v l f0, Z.of_nat (v mod nv), Z.of_nat (v / nv)).

(** [cs] are the [2 * num_beams] best of the scores [l] of an entry, in
    descending order. *)
Definition best_cands (l : list f32) (cs : list cand) : Prop :=
  ∃ ix, descending (2 * nbeam) l ix ∧ cs = map (cand_at l) (take (2 * nbeam) ix).

Lemma best_of_entry_spec l : 0 < nv -> length l = nbeam * nv -> 2 <= nv -> numbers l ->
  best_of_entry p queue (2 * nbeam) l = Ok (map (cand_at l) (take (2 * nbeam) (queue (2 * nbeam) l))).
Proof.
  intros Hnv Hl H2 Hn. unfold best_of_entry. set (k := 2 * nbeam). cbv zeta.
  assert (k <= length l) as Hk by (unfold k; nia).
  pose proof (sorter (f := queue) k l Hk Hn) as Hd. set (ix := queue k l) in *.
  match goal with |- for_ k ?b _ = _ => set (body := b) end.
  destruct (for_inv (fun i out => out = map (cand_at l) (take i ix)) k body []) as (out & -> & ->); [done| |done].
  intros i out Hi ->. destruct (descending_lookup k l ix i Hd ltac:(lia)) as (v & x & Hv & Hx).
  unfold body. rewrite (get_Some _ _ v Hv), bind_Ok, (get_Some _ _ x Hx), bind_Ok.
  eexists. split; [reflexivity|]. rewrite (take_S_r _ _ v Hv), map_app. unfold cand_at. simpl.
  by rewrite nth_lookup, Hx.
Qed.

Lemma best_cands_valid l cs : 0 < nv -> length l = nbeam * nv -> 2 <= nv -> best_cands l cs ->
  valid_cands nbeam cs.
Proof.
  intros Hnv Hl H2 (ix & [Hp _] & ->).
  assert (length ix = nbeam * nv) as Hix by (by rewrite Hp, length_seq).
  assert (∀ v, v ∈ take (2 * nbeam) ix -> v < nbeam * nv) as Hr.
  { intros v Hv. assert (v ∈ ix) as Hv' by (rewrite <- (take_drop (2 * nbeam) ix); apply elem_of_app; by left).
    rewrite Hp in Hv'. apply elem_of_seq in Hv'. lia. }
  split; [rewrite length_map, length_take; nia|]. split.
  - apply Forall_forall. intros c (v & -> & Hv)%list_elem_of_fmap. simpl.
    specialize (Hr v Hv). assert (v / nv < nbeam) by (apply Nat.Div0.div_lt_upper_bound; lia). lia.
  - rewrite map_map. apply NoDup_fmap_2_strong.
    + intros v w Hv Hw [= E1 E2]. rewrite (Nat.div_mod_eq v nv), (Nat.div_mod_eq w nv).
      apply Nat2Z.inj in E1, E2. by rewrite E1, E2.
    + assert (NoDup ix) as Hnd by (rewrite Hp; apply NoDup_seq).
      rewrite <- (take_drop (2 * nbeam) ix) in Hnd. by apply NoDup_app in Hnd as [? _].
Qed.

(** The scores of a batch entry once the beams' are added. *)
Definition entry_scores (scores : list f32) (b : nat) : list f32 := take (nbeam * nv) (drop (b * (nbeam * nv)) scores).

Lemma candidates_loop (scores : list f32) :
  0 < nv -> 2 <= nv -> length scores = nb * nbeam * nv -> (∀ b, b < nb -> numbers (entry_scores scores b)) ->
  ∃ cs, (∀ b, b < nb -> best_cands (entry_scores scores b) (cs b)) ∧
    for_ nb (fun batch_index '(next_scores, next_tokens, next_indices) =>
      token_scores_sub ← subspan scores (batch_index * nbeam * nv) (nbeam * nv);
      best ← best_of_entry p queue (2 * nbeam) token_scores_sub;
      next_indices ← blit next_indices (2 * nbeam * batch_index) best.*2;
      next_tokens ← blit next_tokens (2 * nbeam * batch_index) best.*1.*2;
      next_scores ← blit next_scores (2 * nbeam * batch_index) best.*1.*1;
      Ok (next_scores, next_tokens, next_indices))
    (replicate (2 * nbeam * nb) f0, replicate (2 * nbeam * nb) 0%Z, replicate (2 * nbeam * nb) 0%Z)
    = Ok ((blocks cs nb).*1.*1, (blocks cs nb).*1.*2, (blocks cs nb).*2).
Proof.
  intros Hnv H2 Hl Hn.
  set (cs := fun b => map (cand_at (entry_scores scores b)) (take (2 * nbeam) (queue (2 * nbeam) (entry_scores scores b)))).
  assert (∀ b, b < nb -> length (entry_scores scores b) = nbeam * nv) as Hle.
  { intros b Hb. apply length_window. pose proof (row_bound b nb (nbeam * nv) Hb). lia. }
  assert (∀ b, b < nb -> best_cands (entry_scores scores b) (cs b)) as Hcs.
  { intros b Hb. exists (queue (2 * nbeam) (entry_scores scores b)). split; [|done].
    apply sorter; [rewrite Hle by done; nia|by apply Hn]. }
  assert (∀ b, b < nb -> length (cs b) = 2 * nbeam) as Hlc.
  { intros b Hb. destruct (best_cands_valid _ _ Hnv (Hle b Hb) H2 (Hcs b Hb)) as [H _]. exact H. }
  exists cs. split; [done|]. set (z := replicate (2 * nbeam * nb) 0%Z). set (zf := replicate (2 * nbeam * nb) f0).
  assert (length z = 2 * nbeam * nb) as Hz by apply length_replicate.
  assert (length zf = 2 * nbeam * nb) as Hzf by apply length_replicate.
  match goal with |- for_ nb ?b _ = _ => set (body := b) end.
  destruct (for_inv (fun k '((a, t, i) : list f32 * list Z * list Z) => a = filled (blocks cs k).*1.*1 zf ∧
      t = filled (blocks cs k).*1.*2 z ∧ i = filled (blocks cs k).*2 z) nb body (zf, z, z))
    as ([[a t] i] & -> & -> & -> & ->).
  - done.
  - intros k [[a t] i] Hk (-> & -> & ->). unfold body. cbv beta iota.
    pose proof (row_bound k nb (nbeam * nv) Hk) as Hrb.
    replace (k * nbeam * nv) with (k * (nbeam * nv)) by lia.
    rewrite subspan_le, bind_Ok by lia. fold (entry_scores scores k).
    rewrite best_of_entry_spec, bind_Ok by (auto). fold (cs k).
    assert (length (blocks cs k) = 2 * nbeam * k) as Hbl by (rewrite (length_blocks cs (2 * nbeam)); [lia|intros; apply Hlc; lia]).
    pose proof (row_bound k nb (2 * nbeam) Hk) as Hrb2.
    rewrite !blit_filled_at, !bind_Ok
      by (rewrite ?length_fmap, ?Hbl, ?Hlc, ?Hz, ?Hzf by done; lia).
    eexists. split; [reflexivity|]. cbv beta iota. by rewrite !blocks_S, !fmap_app.
  - assert (length (blocks cs nb) = 2 * nbeam * nb) as Hbl by (rewrite (length_blocks cs (2 * nbeam)); [lia|done]).
    rewrite !filled_full; [done|..]; by rewrite !length_fmap, Hbl, ?Hz, ?Hzf.
Qed.
End beam_step.

(** What holds of a beam search between steps; [es] are the scorer's entries. *)
Record beam_ok (p : GeneratorParams) (s : BeamSearch_Cpu) (es : list entry) : Prop := {
  bo_scorer : scorer_rel (n_batch p) (n_beams p) (length_penalty (gp_search p)) (beam_scorer_ s) es;
  bo_room : room (n_batch p) (n_beams p) (n_max p) (search_length (b_cpu s)) (beam_scorer_ s);
  bo_wf : wf_beam (sequences (b_cpu s));
  bo_rows : batch_beam_size_ (sequences (b_cpu s)) = n_batch p * n_beams p;
  bo_max : max_length_ (sequences (b_cpu s)) = n_max p;
  bo_done : search_done_ (b_cpu s) = true ↔ search_length (b_cpu s) = n_max p }.

(** The sizes a search is built for. *)
Record beam_sizes (p : GeneratorParams) : Prop := {
  bs_batch : 0 < n_batch p;
  bs_beams : 0 < n_beams p;
  bs_vocab : 2 <= n_vocab p;
  bs_max : (0 <= max_length (gp_search p))%Z;
  bs_int : (Z.of_nat (n_batch p * n_beams p * n_vocab p) <= INT_MAX)%Z }.

Lemma read_all_blocks {A} (l : list (option A)) (f : nat -> list A) n w :
  length l = n * w -> (∀ i, i < n -> take w (drop (i * w) l) = map Some (f i)) -> read_all l = Ok (blocks f n).
Proof.
  intros Hl H. rewrite (windows_blocks (fun i => map Some (f i)) w n l Hl H), <- map_blocks. apply read_all_Some.
Qed.

Lemma lookup_blocks {A} (f : nat -> list A) w n i j : (∀ i, i < n -> length (f i) = w) -> i < n -> j < w ->
  blocks f n !! (i * w + j) = f i !! j.
Proof. intros Hf Hi Hj. rewrite <- (block_window f w n i) by done. by rewrite lookup_window. Qed.

Section beam_step2.
Context (p : GeneratorParams) (pow : f32 -> f32 -> f32) (queue : nat -> list f32 -> list nat) `{!Sorter queue}.
Local Abbreviation nb := (n_batch p).
Local Abbreviation nbeam := (n_beams p).
Local Abbreviation nv := (n_vocab p).
Local Abbreviation pad := (gp_pad_token_id p).
Local Abbreviation eos := (gp_eos_token_id p).
Local Abbreviation pen := (length_penalty (gp_search p)).

(* the sequences of the beams of an entry, and the candidates of all entries *)
Definition entry_rows (s : BeamSearch_Cpu) (b : nat) : list (list Z) :=
  take nbeam (drop (b * nbeam) (rows (sequences (b_cpu s)))).
Definition summed (s : BeamSearch_Cpu) : list f32 :=
  added p (next_beam_scores_ (beam_scorer_ s)) (next_token_scores_ (b_cpu s)) (nb * nbeam * nv).

(** The entries of the scorer after a step with the candidates [cs]; the window
    of scores that can still improve is the one the code reads. *)
Definition entries_after_step (s : BeamSearch_Cpu) (cs : nat -> list cand) (es : list entry) : list entry :=
  imap (fun b e => spec_entry pow nbeam eos (early_stopping (gp_search p)) pen (entry_rows s b) (cs b)
                     (take (2 * nbeam) (drop (b * nbeam) (blocks cs nb).*1.*1)) (search_length (b_cpu s)) e) es.

(** The sequences after it: beam [j] of entry [b] continues the row its
    candidate names with the candidate's token. *)
Definition rows_after_step (s s' : BeamSearch_Cpu) (cs : nat -> list cand) (es : list entry) : Prop :=
  ∀ b e j c, es !! b = Some e -> spec_next nbeam pad eos (b * nbeam) (cs b) e !! j = Some c ->
    row (sequences (b_cpu s')) (b * nbeam + j) = row (sequences (b_cpu s)) (Z.to_nat c.2) ++ [c.1.2].

Lemma spec_next_range cs b e c : valid_cands nbeam (cs b) -> b < nb -> 0 < nbeam ->
  c ∈ spec_next nbeam pad eos (b * nbeam) (cs b) e -> (0 <= c.2 < Z.of_nat (nb * nbeam))%Z.
Proof.
  intros (_ & Hr & _) Hb Hnb. pose proof (row_bound b nb nbeam Hb). unfold spec_next. destruct e.2.
  - intros [-> _]%elem_of_replicate. simpl. lia.
  - intros (c' & -> & Hc')%list_elem_of_fmap. simpl.
    unfold selected in Hc'. assert (c' ∈ cs b) as Hin.
    { apply (list_elem_of_filter (fun c => ¬ eos_cand eos c) (cs b)).
      rewrite <- (take_drop nbeam (filter _ (cs b))). apply elem_of_app. by left. }
    pose proof (proj1 (Forall_forall _ _) Hr c' Hin) as Hc. simpl in Hc. lia.
Qed.

(** The candidates [cs] of all entries are an input the scorer accepts. *)
Lemma step_input s cs : beam_sizes p -> wf (sequences (b_cpu s)) -> batch_beam_size_ (sequences (b_cpu s)) = nb * nbeam ->
  length (next_token_scores_ (b_cpu s)) = nb * nbeam * nv ->
  (∀ b, b < nb -> best_cands p (entry_scores p (summed s) b) (cs b)) ->
  let all := blocks cs nb in
  valid_input nb nbeam (sequences (b_cpu s)) all.*1.*1 all.*1.*2 all.*2 ∧ ∀ b, b < nb -> cands nbeam all.*1.*1 all.*1.*2 all.*2 b = cs b.
Proof.
  intros [Z1 Z2 Z3 Z4 Z5] Hwf Hrows Hsc Hcs all.
  assert (length (summed s) = nb * nbeam * nv) as Hls by (unfold summed; by rewrite length_added).
  assert (∀ b, b < nb -> valid_cands nbeam (cs b)) as Hvc.
  { intros b Hb. apply (best_cands_valid p (entry_scores p (summed s) b)); [lia| |done|by apply Hcs].
    apply length_window. pose proof (row_bound b nb (nbeam * nv) Hb). lia. }
  assert (∀ b, b < nb -> length (cs b) = 2 * nbeam) as Hlc by (intros b Hb; apply Hvc, Hb).
  assert (length all = nb * (2 * nbeam)) as Hall by (by apply length_blocks).
  assert (∀ b, b < nb -> cands nbeam all.*1.*1 all.*1.*2 all.*2 b = cs b) as Hcands.
  { intros b Hb. unfold cands. rewrite !zip_fst_snd. by apply block_window. }
  split; [|done]. split; rewrite ?length_fmap; try done; [intros b Hb; rewrite Hcands by done; by apply Hvc|].
  etransitivity; [|exact Z5]. nia.
Qed.

Lemma entries_step s cs es : (∀ b, b < nb -> cands nbeam (blocks cs nb).*1.*1 (blocks cs nb).*1.*2 (blocks cs nb).*2 b = cs b) -> length es = nb ->
  imap (spec_entry_of pow nbeam eos (early_stopping (gp_search p)) pen (sequences (b_cpu s))
    (blocks cs nb).*1.*1 (blocks cs nb).*1.*2 (blocks cs nb).*2) es = entries_after_step s cs es.
Proof.
  intros Hcands Hes. apply imap_ext. intros b e He. unfold spec_entry_of. f_equal. apply Hcands.
  rewrite <- Hes. by apply lookup_lt_Some in He.
Qed.

(* the beams of the next step, their tokens and the beams they continue *)
Definition next_cands (cs : nat -> list cand) (es : list entry) (b : nat) : list cand :=
  match es !! b with Some e => spec_next nbeam pad eos (b * nbeam) (cs b) e | None => [] end.
Definition next_toks (cs : nat -> list cand) (es : list entry) : list Z := blocks (fun b => map (fun c => c.1.2) (next_cands cs es b)) nb.
Definition next_idxs (cs : nat -> list cand) (es : list entry) : list Z := blocks (fun b => map snd (next_cands cs es b)) nb.

Section next.
Context (seqs : Sequences) (cs : nat -> list cand) (es : list entry) (sc : BeamSearchScorer) (es' : list entry).
Local Abbreviation all := (blocks cs nb).
Context (Hvi : valid_input nb nbeam seqs all.*1.*1 all.*1.*2 all.*2) (Hcands : ∀ b, b < nb -> cands nbeam all.*1.*1 all.*1.*2 all.*2 b = cs b).
Context (Hbeams : 0 < nbeam) (Hes : length es = nb) (Hrel : scorer_rel nb nbeam pen sc es').
Context (Hnext : ∀ b e, es !! b = Some e -> next_beams nbeam sc b (spec_next_of nbeam pad eos all.*1.*1 all.*1.*2 all.*2 b e)).

Lemma next_cands_ok b : b < nb -> next_beams nbeam sc b (next_cands cs es b) ∧ length (next_cands cs es b) = nbeam.
Proof.
  intros Hb. unfold next_cands. destruct (lookup_lt_is_Some_2 es b) as [e He]; [by rewrite Hes|]. rewrite He.
  rewrite <- (Hcands b Hb). split; [by apply Hnext|]. by apply (spec_next_length pow nb nbeam pad eos pen seqs all.*1.*1 all.*1.*2 all.*2).
Qed.

Lemma next_toks_ok : next_beam_tokens_ sc = map Some (next_toks cs es) ∧ length (next_toks cs es) = nb * nbeam.
Proof.
  unfold next_toks. split; [|apply length_blocks; intros; rewrite length_map; by apply next_cands_ok].
  rewrite map_blocks. apply (windows_blocks _ nbeam); [apply (sr_tokens _ _ _ _ _ Hrel)|]. intros b Hb. rewrite map_map. by apply next_cands_ok.
Qed.

Lemma next_idxs_ok : next_beam_indices_ sc = map Some (next_idxs cs es) ∧ length (next_idxs cs es) = nb * nbeam.
Proof.
  unfold next_idxs. split; [|apply length_blocks; intros; rewrite length_map; by apply next_cands_ok].
  rewrite map_blocks. apply (windows_blocks _ nbeam); [apply (sr_indices _ _ _ _ _ Hrel)|]. intros b Hb. rewrite map_map. by apply next_cands_ok.
Qed.

Lemma next_idxs_range i z : next_idxs cs es !! i = Some z -> (0 <= z < Z.of_nat (nb * nbeam))%Z.
Proof.
  intros Hz. unfold next_idxs in Hz. rewrite <- map_blocks in Hz. apply list_elem_of_lookup_2, list_elem_of_fmap in Hz as (c & -> & Hc).
  apply elem_of_blocks in Hc as (b & Hb & Hc). unfold next_cands in Hc. destruct (es !! b) as [e|]; [|by apply not_elem_of_nil in Hc].
  eapply spec_next_range; [|exact Hb|done|exact Hc]. rewrite <- (Hcands b Hb). by apply (vi_cands _ _ _ _ _ _ Hvi).
Qed.

(* the rows that the two lists describe *)
Lemma next_rows s s' : (∀ i z t, i < nb * nbeam -> next_idxs cs es !! i = Some z -> next_toks cs es !! i = Some t ->
    row (sequences (b_cpu s')) i = row (sequences (b_cpu s)) (Z.to_nat z) ++ [t]) -> rows_after_step s s' cs es.
Proof.
  intros H b e j c He Hc.
  assert (b < nb) as Hb by (rewrite <- Hes; by eapply lookup_lt_Some).
  destruct (next_cands_ok b Hb) as [_ Hln]. unfold next_cands in Hln. rewrite He in Hln.
  assert (j < nbeam) as Hj by (rewrite <- Hln; by eapply lookup_lt_Some).
  apply H; [by apply row_index| |].
  - unfold next_idxs. rewrite (lookup_blocks _ nbeam); [|intros; rewrite length_map; by apply next_cands_ok|done|done].
    unfold next_cands. rewrite He, list_lookup_fmap, Hc. done.
  - unfold next_toks. rewrite (lookup_blocks _ nbeam); [|intros; rewrite length_map; by apply next_cands_ok|done|done].
    unfold next_cands. rewrite He, list_lookup_fmap, Hc. done.
Qed.
End next.

(* the room of the scorer bounds the buffer of the sequences *)
Lemma room_rows sc cur : 0 < nb -> 0 < nbeam -> cur < n_max p -> room nb nbeam (n_max p) cur sc -> int_rows (nb * nbeam) (n_max p).
Proof.
  unfold room. intros Hb Hk Hc [H1 H2]. apply (int_rows_triangle _ (Z.of_nat cur)); [nia|lia..].
Qed.

Lemma top_k_int : beam_sizes p -> (Z.of_nat (2 * nbeam) <= INT_MAX)%Z.
Proof. intros [Z1 Z2 Z3 _ Z5]. etransitivity; [|exact Z5]. apply Nat2Z.inj_le. rewrite Nat.mul_comm. apply Nat.mul_le_mono; nia. Qed.

Lemma BeamSearch_SelectTop_step s es :
  beam_sizes p -> beam_ok p s es -> search_length (b_cpu s) < n_max p ->
  length (next_token_scores_ (b_cpu s)) = nb * nbeam * nv ->
  (∀ b, b < nb -> numbers (entry_scores p (summed s) b)) ->
  ∃ s' cs, BeamSearch_SelectTop p pow queue s = Ok s' ∧
    (∀ b, b < nb -> best_cands p (entry_scores p (summed s) b) (cs b)) ∧
    beam_ok p s' (entries_after_step s cs es) ∧ rows_after_step s s' cs es ∧
    search_length (b_cpu s') = S (search_length (b_cpu s)) ∧
    (∀ b e, es !! b = Some e -> let nx := spec_next nbeam pad eos (b * nbeam) (cs b) e in
       next_beams nbeam (beam_scorer_ s') b nx ∧ length nx = nbeam).
Proof.
  intros HZ [B1 B2 B3 B4 B5 B6] Hlt Hsc Hnum. pose proof HZ as [Z1 Z2 Z3 Z4 Z5].
  assert (length (summed s) = nb * nbeam * nv) as Hls by (unfold summed; by rewrite length_added).
  unfold BeamSearch_SelectTop.
  rewrite add_beam_scores_spec, bind_Ok; [|lia|done|apply (sr_scores _ _ _ _ _ B1)|done].
  rewrite int_nat_ok, bind_Ok by (by apply top_k_int). cbv zeta.
  change (added p (next_beam_scores_ (beam_scorer_ s)) (next_token_scores_ (b_cpu s)) (nb * nbeam * nv)) with (summed s).
  destruct (candidates_loop p queue (summed s)) as (cs & Hcs & E); [lia|done|done|done|]. rewrite E, bind_Ok. clear E.
  destruct (step_input s cs HZ) as [Hvi Hcands]; [apply B3|done|done|done|].
  set (all := blocks cs nb) in *.
  destruct (Process_step pow nb nbeam (n_max p) pad eos (early_stopping (gp_search p)) pen (sequences (b_cpu s))
    all.*1.*1 all.*1.*2 all.*2 (beam_scorer_ s) es Hvi B1) as (sc & E & P1 & P2 & P3);
    [unfold search_length, GetSequenceLength in Hlt; lia|exact B2|].
  rewrite E, bind_Ok. cbv zeta. clear E.
  assert (length es = nb) as Hes by apply (sr_batch _ _ _ _ _ B1).
  pose proof (next_cands_ok _ cs es sc Hvi Hcands Hes P3) as Hnx.
  destruct (next_toks_ok _ cs es sc _ Hvi Hcands Hes P1 P3) as [Etok Ltok].
  destruct (next_idxs_ok _ cs es sc _ Hvi Hcands Hes P1 P3) as [Eidx Lidx].
  unfold GetNextTokens, GetNextIndices. simpl beam_scorer_. rewrite Etok, Eidx, !read_all_Some, !bind_Ok. simpl b_cpu. simpl sequences.
  destruct (append_beam_spec (sequences (b_cpu s)) (next_idxs cs es) (next_toks cs es) B3) as (q & -> & Q1 & Q2 & Q3 & Q4 & Q5);
    [rewrite B4, B5; by apply (room_rows (beam_scorer_ s) (search_length (b_cpu s)))|by rewrite B5|by rewrite B4, Ltok|by rewrite B4, Lidx| |].
  { intros i z Hi Hz. rewrite B4. by eapply (next_idxs_range _ cs es). }
  rewrite bind_Ok. cbv zeta. eexists _, cs. split; [reflexivity|]. split; [done|].
  assert (GetSequenceLength q = S (search_length (b_cpu s))) as Hql by exact Q4.
  assert ((Z.of_nat (GetSequenceLength q) =? max_length (gp_search p))%Z = true ↔ GetSequenceLength q = n_max p) as Hm.
  { unfold n_max. rewrite Z.eqb_eq. lia. }
  assert (∀ (x : bool) c, sequences (if x then set_done true (set_sequences q c) else set_sequences q c) = q) as Hq
    by (by intros []).
  split; [|split].
  - split; simpl; unfold search_length; rewrite ?Hq; try done; try congruence.
    + rewrite <- (entries_step s cs es Hcands Hes). done.
    + rewrite Hql. exact P2.
    + destruct (_ =? _)%Z eqn:Em; simpl; [split; [intros _; by apply Hm|done]|].
      split; [intros ?%B6; lia|intros H%Hm; congruence].
  - apply (next_rows _ cs es sc Hvi Hcands Hes P3). intros i z t Hi Hz Ht. simpl. rewrite Hq. apply Q5; [by rewrite B4|done|done].
  - split; [unfold search_length; simpl; by rewrite Hq|]. intros b e He.
    assert (b < nb) as Hb by (rewrite <- Hes; by eapply lookup_lt_Some).
    pose proof (Hnx b Hb) as Hn. unfold next_cands in Hn. rewrite He in Hn. exact Hn.
Qed.
End beam_step2.

(** C5: a beam search step.  The [2 * num_beams] best of an entry's scores,
    however the queue orders equal ones, go to the scorer, whose entries change
    as specified; every beam continues the sequence and takes the token its
    candidate names; all arithmetic stays within [int], no access is out of
    range, no assertion fails, and the invariant the next step needs holds. *)
Theorem BeamSearch_SelectTop_spec (p : GeneratorParams) (pow : f32 -> f32 -> f32) (queue : nat -> list f32 -> list nat)
    (s : BeamSearch_Cpu) (es : list entry) :
  Sorter queue -> beam_sizes p -> beam_ok p s es -> search_length (b_cpu s) < n_max p ->
  length (next_token_scores_ (b_cpu s)) = n_batch p * n_beams p * n_vocab p ->
  (∀ b, b < n_batch p -> numbers (entry_scores p (summed p s) b)) ->
  ∃ s' cs, BeamSearch_SelectTop p pow queue s = Ok s' ∧
    (∀ b, b < n_batch p -> best_cands p (entry_scores p (summed p s) b) (cs b)) ∧
    beam_ok p s' (entries_after_step p pow s cs es) ∧ rows_after_step p s s' cs es ∧
    search_length (b_cpu s') = S (search_length (b_cpu s)).
Proof.
  intros Hq H1 H2 H3 H4 H5.
  destruct (BeamSearch_SelectTop_step p pow queue s es H1 H2 H3 H4 H5) as (s' & cs & H). exists s', cs. tauto.
Qed.

(** ** Constructors *)
Section constructors.
Context (p : GeneratorParams) (cur : nat).
Context (Hbatch : 0 < n_batch p) (Hbeams : 0 < n_beams p) (Hprompt : length (prompt p) = n_batch p * cur) (Hcur : cur <= n_max p).
Context (Hint : int_rows (n_batch p * n_beams p) (n_max p)).
Context (Hbb : ∃ bb, BatchBeamSize p = Ok bb).

Lemma Search_Cpu_new_rows : ∃ c, Search_Cpu_new p = Ok c ∧ wf (sequences c) ∧
  (n_beams p ≠ 1 -> wf_beam (sequences c)) ∧ search_length c = cur ∧
  batch_beam_size_ (sequences c) = n_batch p * n_beams p ∧ max_length_ (sequences c) = n_max p ∧
  search_done_ c = false ∧ rows (sequences c) = expand_input (prompt p) (n_batch p) (n_beams p) ∧
  length (sequence_lengths_ c) = n_batch p * n_beams p.
Proof.
  destruct (Sequences_new_rows (prompt p) (n_batch p) (n_beams p) (n_max p) cur Hbatch Hbeams Hprompt Hcur Hint)
    as (q & E & H1 & H2 & H3 & H4 & H5 & H6). destruct Hbb as [bb Ebb].
  unfold Search_Cpu_new. rewrite E, bind_Ok, Ebb, bind_Ok. eexists. split; [reflexivity|]. simpl.
  assert (length (uninit (A := Z) (Z.to_nat bb)) = n_batch p * n_beams p); [|auto 10].
  unfold uninit. rewrite length_replicate. unfold BatchBeamSize, chk32 in Ebb. destruct (in_i32 _); [|done]. injection Ebb as <-.
  unfold n_batch, n_beams in *. nia.
Qed.
End constructors.

Lemma not_done_replicate n : not_done (replicate n false) = n.
Proof. unfold not_done. rewrite filter_all; [apply length_replicate|]. by apply Forall_replicate. Qed.

Lemma GreedySearch_Cpu_new_ok (p : GeneratorParams) (G : Type) (seed : Z -> G) (random : G) (cur : nat) :
  0 < n_batch p -> n_beams p = 1 -> (0 < gp_vocab_size p)%Z -> length (prompt p) = n_batch p * cur -> cur < n_max p ->
  int_rows (n_batch p) (n_max p) -> (∃ bb, BatchBeamSize p = Ok bb) ->
  ∃ s, GreedySearch_Cpu_new p seed random = Ok s ∧ greedy_ok p s ∧ search_length (g_cpu s) = cur ∧
    eos_seen_ s = replicate (n_batch p) false ∧
    rows (sequences (g_cpu s)) = expand_input (prompt p) (n_batch p) 1 ∧
    length (sequence_lengths_ (g_cpu s)) = n_batch p.
Proof.
  intros Hb H1 Hv Hp Hc Hint Hbb. assert (int_rows (n_batch p * n_beams p) (n_max p)) as Hint' by (by rewrite H1, Nat.mul_1_r).
  destruct (Search_Cpu_new_rows p cur Hb ltac:(lia) Hp ltac:(lia) Hint' Hbb) as (c & E & C1 & C2 & C3 & C4 & C5 & C6 & C7 & C8).
  rewrite H1 in *. unfold GreedySearch_Cpu_new. rewrite E, bind_Ok. cbv zeta. eexists. split; [reflexivity|].
  split; [|split; [done|split; [done|split; [done|simpl; lia]]]].
  split; simpl; rewrite ?length_replicate, ?not_done_replicate; try done; try lia.
  - unfold n_batch in *. lia.
  - rewrite C6. split; [done|]. intros [?|Heq]; [lia|]. unfold search_length in *. simpl in Heq. lia.
Qed.

(** A greedy search starts with one row per prompt, all of them open. *)
Theorem GreedySearch_Cpu_new_spec (p : GeneratorParams) (G : Type) (seed : Z -> G) (random : G) (cur : nat) :
  0 < n_batch p -> n_beams p = 1 -> (0 < gp_vocab_size p)%Z -> length (prompt p) = n_batch p * cur -> cur < n_max p ->
  int_rows (n_batch p) (n_max p) -> (∃ bb, BatchBeamSize p = Ok bb) ->
  ∃ s, GreedySearch_Cpu_new p seed random = Ok s ∧ greedy_ok p s ∧ search_length (g_cpu s) = cur ∧
    eos_seen_ s = replicate (n_batch p) false ∧
    rows (sequences (g_cpu s)) = expand_input (prompt p) (n_batch p) 1.
Proof. intros Hb H1 Hv Hp Hc Hi Hbb. destruct (GreedySearch_Cpu_new_ok p G seed random cur Hb H1 Hv Hp Hc Hi Hbb) as (s & H). exists s. tauto. Qed.

Lemma BeamSearch_Cpu_new_ok (p : GeneratorParams) (cur : nat) :
  let m := max_length (gp_search p) in
  0 < n_batch p -> 1 < n_beams p -> length (prompt p) = n_batch p * cur ->
  sequence_length p = Z.of_nat cur -> 0 < cur < n_max p -> (∃ bb, BatchBeamSize p = Ok bb) ->
  (m * (m + 1) <= INT_MAX)%Z -> (Z.of_nat (n_batch p * n_beams p) * (m * (m + 1)) <= 2 * INT_MAX)%Z ->
  ∃ s, BeamSearch_Cpu_new p = Ok s ∧ beam_ok p s (replicate (n_batch p) ([], false)) ∧
    search_length (b_cpu s) = cur ∧ rows (sequences (b_cpu s)) = expand_input (prompt p) (n_batch p) (n_beams p) ∧
    length (sequence_lengths_ (b_cpu s)) = n_batch p * n_beams p ∧
    ∀ b j, b < n_batch p -> j < n_beams p -> next_beam_scores_ (beam_scorer_ s) !! (b * n_beams p + j)
      = Some (if decide (j = 0) then f0 else f32_of_Z (-1000000000)).
Proof.
  intros m Hb H1 Hp Hsl Hc Hbb Hm Hbm.
  assert (Z.of_nat (n_max p) = m) as Emax by (unfold n_max in *; lia).
  assert (int_rows (n_batch p * n_beams p) (n_max p)) as Hint by (apply (int_rows_triangle _ 0); rewrite ?Emax, ?Z.mul_0_r, ?Z.sub_0_r; [nia|lia|done]).
  destruct (Search_Cpu_new_rows p cur Hb ltac:(lia) Hp ltac:(lia) Hint Hbb) as (c & E & C1 & C2 & C3 & C4 & C5 & C6 & C7 & C8).
  destruct (BeamSearchScorer_new_ok (n_batch p) (n_beams p) (n_max p) cur (length_penalty (gp_search p)))
    as (sc & Esc & S1 & S2 & S3); [lia|lia|lia|by rewrite Emax|by rewrite Emax|].
  unfold BeamSearch_Cpu_new. rewrite E, bind_Ok. rewrite (proj2 (Z.ltb_lt 1 _)) by (unfold n_beams in H1; lia).
  unfold assert_. rewrite bind_Ok, Hsl, Esc, bind_Ok. eexists. split; [reflexivity|].
  split; [|split; [done|split; [done|split; done]]].
  split; simpl; try done; [by rewrite C3|apply C2; lia|].
  rewrite C6, C3. split; [done|lia].
Qed.

(** A beam search starts with every beam of an entry on the entry's prompt,
    the first at score 0 and the others far below, no hypotheses, and a
    hypothesis buffer with room for the whole search. *)
Theorem BeamSearch_Cpu_new_spec (p : GeneratorParams) (cur : nat) :
  let m := max_length (gp_search p) in
  0 < n_batch p -> 1 < n_beams p -> length (prompt p) = n_batch p * cur ->
  sequence_length p = Z.of_nat cur -> 0 < cur < n_max p -> (∃ bb, BatchBeamSize p = Ok bb) ->
  (m * (m + 1) <= INT_MAX)%Z -> (Z.of_nat (n_batch p * n_beams p) * (m * (m + 1)) <= 2 * INT_MAX)%Z ->
  ∃ s, BeamSearch_Cpu_new p = Ok s ∧ beam_ok p s (replicate (n_batch p) ([], false)) ∧
    search_length (b_cpu s) = cur ∧ rows (sequences (b_cpu s)) = expand_input (prompt p) (n_batch p) (n_beams p) ∧
    ∀ b j, b < n_batch p -> j < n_beams p -> next_beam_scores_ (beam_scorer_ s) !! (b * n_beams p + j)
      = Some (if decide (j = 0) then f0 else f32_of_Z (-1000000000)).
Proof. intros m Hb H1 Hp Hsl Hc Hbb Hm Hbm. destruct (BeamSearch_Cpu_new_ok p cur Hb H1 Hp Hsl Hc Hbb Hm Hbm) as (s & H). exists s. tauto. Qed.

(** ** top_k_indices *)
Definition ascending : list (f32 * nat) -> Prop := StronglySorted (fun a b => flt b.1 a.1 = false).

Lemma push_perm e pq : push e pq ≡ₚ e :: pq.
Proof. induction pq as [|t pq IH]; simpl; [done|]. destruct (pair_lt e t); [done|]. rewrite IH. constructor. Qed.

Lemma pair_lt_le a b : pair_lt a b = true -> flt b.1 a.1 = false.
Proof. unfold pair_lt. destruct (flt a.1 b.1) eqn:E; simpl; [intros _; by apply flt_asym|]. by destruct (flt b.1 a.1). Qed.

Lemma pair_lt_ge a b : pair_lt a b = false -> flt a.1 b.1 = false.
Proof. unfold pair_lt. by destruct (flt a.1 b.1). Qed.

Lemma push_ascending e pq : numbers (e.1 :: pq.*1) -> ascending pq -> ascending (push e pq).
Proof.
  induction pq as [|t pq IH]; intros Hn Hs; simpl; [by repeat constructor|].
  apply StronglySorted_inv in Hs as [Hs Ht]. apply Forall_cons in Hn as [He [Hnt Hn]%Forall_cons].
  destruct (pair_lt e t) eqn:E.
  - constructor; [by constructor|]. apply Forall_cons. split; [by apply pair_lt_le|].
    apply Forall_forall. intros u Hu. pose proof (proj1 (Forall_forall _ _) Ht u Hu) as Htu. simpl in Htu.
    pose proof (pair_lt_le _ _ E) as Het. assert (is_nan u.1 = false) as Hnu.
    { apply (proj1 (Forall_forall _ _) Hn). apply list_elem_of_fmap. by exists u. }
    destruct (flt u.1 e.1) eqn:Eu; [|done]. pose proof (flt_neg_trans u.1 t.1 e.1 Hnu Hnt He Htu Het). congruence.
  - constructor; [apply IH; [by apply Forall_cons|done]|].
    apply Forall_forall. intros u Hu. rewrite push_perm in Hu. apply elem_of_cons in Hu as [->|Hu].
    + by apply pair_lt_ge.
    + by apply (proj1 (Forall_forall _ _) Ht u Hu).
Qed.

(** The heap after the first [m] inputs: [k] of them in ascending order, none of
    the others above any of these. *)
Record heap_inv (inputs : list f32) (k m : nat) (pq : list (f32 * nat)) : Prop := {
  hi_length : length pq = k;
  hi_asc : ascending pq;
  hi_NoDup : NoDup pq.*2;
  hi_in : ∀ e, e ∈ pq -> e.2 < m ∧ inputs !! e.2 = Some e.1;
  hi_out : ∀ i y e, i < m -> i ∉ pq.*2 -> inputs !! i = Some y -> e ∈ pq -> flt e.1 y = false }.

Lemma heap_numbers inputs k m pq : numbers inputs -> heap_inv inputs k m pq -> numbers pq.*1.
Proof.
  intros Hn [_ _ _ Hin _]. apply Forall_forall. intros x (e & -> & He)%list_elem_of_fmap.
  destruct (Hin e He) as [_ Hx]. by eapply (proj1 (Forall_lookup _ _) Hn).
Qed.

(* a new element that the heap takes in *)
Lemma push_inv inputs k m pq x : numbers inputs -> inputs !! m = Some x -> heap_inv inputs k m pq ->
  ascending (push (x, m) pq) ∧ NoDup (push (x, m) pq).*2 ∧
  (∀ e, e ∈ push (x, m) pq -> e.2 < S m ∧ inputs !! e.2 = Some e.1) ∧
  (∀ i, i < S m -> i ∉ (push (x, m) pq).*2 -> i < m ∧ i ∉ pq.*2).
Proof.
  intros Hn Hx Hinv. pose proof (heap_numbers inputs k m pq Hn Hinv) as Hpq.
  pose proof Hinv as [H1 H2 H3 H4 H5]. split; [|split; [|split]].
  - apply push_ascending; [|done]. apply Forall_cons. split; [|done]. by eapply (proj1 (Forall_lookup _ _) Hn).
  - rewrite push_perm. simpl. apply NoDup_cons. split; [|done].
    intros (e & E & He)%list_elem_of_fmap. destruct (H4 e He) as [? _]. simpl in E. lia.
  - intros e He. rewrite push_perm in He. apply elem_of_cons in He as [->|He]; [simpl; split; [lia|done]|].
    destruct (H4 e He). split; [lia|done].
  - intros i Hi Hni. rewrite push_perm in Hni. simpl in Hni. apply not_elem_of_cons in Hni as [Hne Hni]. split; [lia|done].
Qed.

Lemma fill_step inputs m pq : numbers inputs -> m < length inputs ->
  heap_inv inputs m m pq ∧ (∀ i, i < m -> i ∈ pq.*2) ->
  ∃ x, get inputs m = Ok x ∧ heap_inv inputs (S m) (S m) (push (x, m) pq) ∧
       ∀ i, i < S m -> i ∈ (push (x, m) pq).*2.
Proof.
  intros Hn Hm [Hinv Hall]. destruct (get_lt inputs m Hm) as (x & -> & Hx). exists x. split; [done|].
  destruct (push_inv inputs m m pq x Hn Hx Hinv) as (A & B & C & D). pose proof Hinv as [H1 H2 H3 H4 H5].
  assert (∀ i, i < S m -> i ∈ (push (x, m) pq).*2) as Hall'.
  { intros i Hi. rewrite push_perm. simpl. apply elem_of_cons.
    destruct (decide (i = m)) as [->|]; [by left|right; apply Hall; lia]. }
  split; [|done]. split; try done; [rewrite push_perm; simpl; by rewrite H1|].
  intros i y e Hi Hni. by destruct (Hni (Hall' i Hi)).
Qed.

(* an input after the first [k]: kept out, or in place of the least *)
Lemma offer_step inputs k m pq : numbers inputs -> 0 < k -> m < length inputs -> heap_inv inputs k m pq ->
  ∃ pq', offer inputs m pq = Ok pq' ∧ heap_inv inputs k (S m) pq'.
Proof.
  intros Hn Hk Hm Hinv. pose proof Hinv as [H1 H2 H3 H4 H5]. unfold offer.
  destruct (get_lt inputs m Hm) as (x & -> & Hx). rewrite bind_Ok.
  assert (is_nan x = false) as Hnx by (by eapply (proj1 (Forall_lookup _ _) Hn)).
  pose proof (heap_numbers inputs k m pq Hn Hinv) as Hpq.
  destruct pq as [|t pq]; [simpl in *; lia|]. apply Forall_cons in Hpq as [Hnt Hnpq].
  apply StronglySorted_inv in H2 as [H2 Hle].
  assert (∀ e, e ∈ pq -> flt e.1 t.1 = false) as Hmin by (by apply Forall_forall).
  assert (∀ e, e ∈ pq -> is_nan e.1 = false) as Hne.
  { intros e He. apply (proj1 (Forall_forall _ _) Hnpq). apply list_elem_of_fmap. by exists e. }
  rewrite fle_flt by done. destruct (flt t.1 x) eqn:Ex; simpl.
  - eexists. split; [reflexivity|]. apply NoDup_cons in H3 as [Hnin H3].
    assert (heap_inv inputs (k - 1) m pq) as Hinv'.
    { split; [simpl in *; lia|done|done|intros e He; apply H4; by right|].
      intros i y e Hi Hni Hy He. destruct (decide (i = t.2)) as [->|Hne'].
      - destruct (H4 t) as [_ Ht]; [by left|]. replace y with t.1 by congruence. by apply Hmin.
      - apply (H5 i); [done| |done|by right]. by apply not_elem_of_cons. }
    destruct (push_inv inputs (k - 1) m pq x Hn Hx Hinv') as (A & B & C & D).
    split; try done; [rewrite push_perm; simpl in *; lia|].
    intros i y e Hi Hni Hy He. destruct (D i Hi Hni) as [Hi' Hni'].
    rewrite push_perm in He. apply elem_of_cons in He as [->|He].
    + simpl. assert (flt t.1 y = false) as Hty.
      { destruct (decide (i = t.2)) as [->|Hne'].
        - destruct (H4 t) as [_ Ht]; [by left|]. replace y with t.1 by congruence. apply flt_irrefl.
        - apply (H5 i); [done| |done|by left]. by apply not_elem_of_cons. }
      apply (flt_neg_trans x t.1 y); try done; [by eapply (proj1 (Forall_lookup _ _) Hn)|by apply flt_asym].
    + by apply (hi_out _ _ _ _ Hinv' i).
  - eexists. split; [reflexivity|]. split; try done.
    + by constructor.
    + intros e He. destruct (H4 e He). split; [lia|done].
    + intros i y e Hi Hni Hy He. destruct (decide (i = m)) as [->|Hne']; [|apply (H5 i); [lia|done..]].
      replace y with x by congruence. apply elem_of_cons in He as [->|He]; [done|].
      apply (flt_neg_trans e.1 t.1 x); try done; [by apply Hne|by apply Hmin].
Qed.

Lemma StronglySorted_lookup_lt {A} (R : A -> A -> Prop) (l : list A) i j x y :
  StronglySorted R l -> i < j -> l !! i = Some x -> l !! j = Some y -> R x y.
Proof.
  intros H. revert i j. induction H as [|z l Hs IH Hz]; intros [|i] [|j] Hij Hx Hy; try done; try lia; simpl in *.
  - injection Hx as <-. by apply (proj1 (Forall_lookup _ _) Hz j).
  - apply (IH i j); [lia|done|done].
Qed.

(* emptying the heap fills the result from the back *)
Lemma drain (pq : list (f32 * nat)) (top : list nat) k : length pq = k ->
  ∃ rest, for_ k (fun i '(top_k, pq) =>
      match pq with
      | [] => Undef
      | t :: pq' => top_k ← put top_k (k - i - 1) t.2; Ok (top_k, pq')
      end) (replicate k 0, pq) = Ok (reverse pq.*2, rest).
Proof.
  intros Hl. match goal with |- context [for_ k ?b _] => set (body := b) end.
  destruct (for_inv (fun i s => s = (replicate (k - i) 0 ++ reverse (take i pq).*2, drop i pq)) k body
    (replicate k 0, pq)) as (s & -> & ->).
  - rewrite Nat.sub_0_r. simpl. by rewrite drop_0, app_nil_r.
  - intros i s Hi ->. destruct (lookup_lt_is_Some_2 pq i) as [t Ht]; [lia|].
    unfold body. rewrite (drop_S _ _ _ Ht), put_lt, bind_Ok by (rewrite length_app, length_replicate; lia).
    eexists. split; [reflexivity|]. f_equal.
    rewrite (take_S_r _ _ _ Ht), fmap_app, reverse_app. simpl.
    replace (k - i) with (k - S i + 1) by lia. rewrite replicate_add, <- app_assoc. simpl.
    replace (k - S i + 1 - 1) with (length (replicate (k - S i) 0)) by (rewrite length_replicate; lia).
    rewrite insert_app_r_alt by lia. by rewrite Nat.sub_diag.
  - rewrite Nat.sub_diag. simpl. rewrite take_ge by lia. eauto.
Qed.

(** [top_k_indices] returns [k] different indices in descending order of
    their inputs, and no other input is above any of theirs. *)
Theorem top_k_indices_spec (k : nat) (inputs : list f32) :
  0 < k <= length inputs -> numbers inputs ->
  ∃ ix, top_k_indices k inputs = Ok ix ∧ length ix = k ∧ NoDup ix ∧
    (∀ i j a b x y, i < j -> ix !! i = Some a -> ix !! j = Some b ->
       inputs !! a = Some x -> inputs !! b = Some y -> flt x y = false) ∧
    (∀ a b x y, a ∈ ix -> b ∉ ix -> inputs !! a = Some x -> inputs !! b = Some y -> flt x y = false).
Proof.
  intros Hk Hn. unfold top_k_indices. rewrite (proj2 (Nat.leb_le _ _)) by lia. unfold assert_. rewrite bind_Ok.
  destruct (for_inv (fun m pq => heap_inv inputs m m pq ∧ ∀ i, i < m -> i ∈ pq.*2) k
    (fun i pq => x ← get inputs i; Ok (push (x, i) pq)) []) as (pq0 & E & Hpq0 & _).
  { split; [|lia]. split; simpl; try done; [constructor|constructor|by intros ? ?%not_elem_of_nil|lia]. }
  { intros m pq Hm Hinv. destruct (fill_step inputs m pq Hn ltac:(lia) Hinv) as (x & -> & H).
    rewrite bind_Ok. eauto. }
  rewrite E, bind_Ok. clear E.
  destruct (for_inv (fun i pq => heap_inv inputs k (k + i) pq) (length inputs - k)
    (fun i => offer inputs (k + i)) pq0) as (pq & E & Hinv).
  { by rewrite Nat.add_0_r. }
  { intros i pq Hi Hinv. rewrite Nat.add_succ_r. apply offer_step; [done|lia|lia|done]. }
  rewrite E, bind_Ok. clear E. pose proof Hinv as [H1 H2 H3 H4 H5].
  destruct (drain pq [] k H1) as (rest & ->). rewrite bind_Ok. exists (reverse pq.*2).
  split; [done|]. split; [by rewrite length_reverse, length_fmap|]. split; [by rewrite reverse_Permutation|].
  replace (k + (length inputs - k)) with (length inputs) in * by lia. split.
  - intros i j a b x y Hij Ha Hb Hx Hy.
    assert (j < k) as Hj by (apply lookup_lt_Some in Hb; by rewrite length_reverse, length_fmap, H1 in Hb).
    rewrite reverse_lookup in Ha, Hb by (rewrite length_fmap; lia). rewrite length_fmap, H1 in Ha, Hb.
    rewrite list_lookup_fmap in Ha, Hb.
    destruct (pq !! (k - S i)) as [ea|] eqn:Ea; [|done]. destruct (pq !! (k - S j)) as [eb|] eqn:Eb; [|done].
    injection Ha as <-. injection Hb as <-.
    destruct (H4 ea) as [_ Hxa]; [by eapply list_elem_of_lookup_2|].
    destruct (H4 eb) as [_ Hyb]; [by eapply list_elem_of_lookup_2|].
    replace x with ea.1 by congruence. replace y with eb.1 by congruence.
    exact (StronglySorted_lookup_lt _ pq (k - S j) (k - S i) eb ea H2 ltac:(lia) Eb Ea).
  - intros a b x y Ha Hb Hx Hy. rewrite elem_of_reverse in Ha, Hb.
    apply list_elem_of_fmap in Ha as (e & -> & He). destruct (H4 e He) as [_ Hxa].
    replace x with e.1 by congruence. apply (H5 b); try done. by apply lookup_lt_Some in Hy.
Qed.

(** ** A sort, and an unordered set, that have the laws *)
Fixpoint insert_index (l : list f32) (i : nat) (ix : list nat) : list nat :=
  match ix with
  | [] => [i]
  | j :: ix' => if flt (nth j l f0) (nth i l f0) then i :: ix else j :: insert_index l i ix'
  end.

Definition insertion_sort (k : nat) (l : list f32) : list nat := foldr (insert_index l) [] (seq 0 (length l)).

Lemma insert_index_perm l i ix : insert_index l i ix ≡ₚ i :: ix.
Proof. induction ix as [|j ix IH]; simpl; [done|]. destruct (flt _ _); [done|]. rewrite IH. constructor. Qed.

Lemma numbers_nth l i : numbers l -> is_nan (nth i l f0) = false.
Proof.
  intros H. rewrite nth_lookup. destruct (l !! i) as [x|] eqn:E; [|done]. by eapply (proj1 (Forall_lookup _ _) H).
Qed.

Lemma insert_index_sorted l i ix : numbers l ->
  StronglySorted (fun a b => flt (nth a l f0) (nth b l f0) = false) ix ->
  StronglySorted (fun a b => flt (nth a l f0) (nth b l f0) = false) (insert_index l i ix).
Proof.
  intros Hn. induction 1 as [|j ix Hs IH Hj]; simpl; [by repeat constructor|].
  destruct (flt (nth j l f0) (nth i l f0)) eqn:E.
  - constructor; [by constructor|]. apply Forall_cons. split; [by apply flt_asym|].
    apply Forall_forall. intros u Hu. pose proof (proj1 (Forall_forall _ _) Hj u Hu) as Hju. simpl in Hju.
    apply (flt_neg_trans _ (nth j l f0)); try (by apply numbers_nth); [by apply flt_asym|done].
  - constructor; [done|]. apply Forall_forall. intros u Hu. rewrite insert_index_perm in Hu.
    apply elem_of_cons in Hu as [->|Hu]; [done|]. by apply (proj1 (Forall_forall _ _) Hj u Hu).
Qed.

#[export] Instance insertion_sort_Sorter : Sorter insertion_sort.
Proof.
  intros k l Hk Hn. unfold insertion_sort. split.
  - induction (seq 0 (length l)) as [|i ix IH]; [done|]. simpl. by rewrite insert_index_perm, IH.
  - assert (StronglySorted (fun a b => flt (nth a l f0) (nth b l f0) = false)
      (foldr (insert_index l) [] (seq 0 (length l)))) as Hs.
    { induction (seq 0 (length l)) as [|i ix IH]; [constructor|]. by apply insert_index_sorted. }
    intros i j a b x y Hij Hi Ha Hb Hx Hy. pose proof (StronglySorted_lookup_lt _ _ i j a b Hs Hij Ha Hb) as H.
    cbv beta in H. by rewrite !nth_lookup, Hx, Hy in H.
Qed.

#[export] Instance remove_dups_Unordered : Unordered (remove_dups (A := Z)).
Proof. split; intros; [apply NoDup_remove_dups|apply elem_of_remove_dups]. Qed.

(** ** Concrete runs *)
Module Examples.
Definition ex_search : Config.Search := set_num_beams 1 (set_max_length 5 Search_default).
Definition ex_beams : Config.Search := set_num_beams 2 (set_length_penalty f1 (set_max_length 5 Search_default)).
(* two prompts of one token, three tokens of which 2 ends a sequence and 0 pads *)
Definition ex_p (se : Config.Search) : GeneratorParams :=
  mkParams se 0 2 3 5 2 0 false 1 0 CPU [1; 0]%Z [] false.
Definition fs (l : list Z) : list f32 := map f32_of_Z l.
Definition ex_exp (x : f32) : f32 := fadd x (f32_of_Z 10).
Definition ex_uniform (x : f32) (g : nat) : f32 * nat := (x, S g).
Definition ex_discrete (w : list f32) (g : nat) : nat * nat := (0, S g).

Definition ex_new : outcome (GreedySearch_Cpu (G := nat)) := GreedySearch_Cpu_new (ex_p ex_search) (fun _ => 0) 0.
Definition with_logits (l : list f32) (s : GreedySearch_Cpu (G := nat)) : GreedySearch_Cpu (G := nat) :=
  set_cpu (SetLogits l (g_cpu s)) s.
Definition ex_start : GreedySearch_Cpu (G := nat) :=
  match ex_new with Ok s => with_logits (fs [1; 2; 4; 5; 3; 3]%Z) s
  | _ => mkGreedy (mkSearchCpu [] [] [] (mkSequences [] [] 0 0 0) false) [] 0 0 end.

Lemma ex_numbers (l : list Z) : Forall (fun z => is_nan (f32_of_Z z) = false) l -> numbers (fs l).
Proof. intros H. unfold numbers, fs. by apply Forall_fmap. Qed.

Lemma ex_ready : ready (ex_p ex_search) ex_start.
Proof.
  split; try (vm_compute; lia); [|repeat split; vm_compute; discriminate|vm_compute; discriminate].
  split; try reflexivity.
  - split; [reflexivity|]. vm_compute. lia.
  - vm_compute. split; [done|]. intros [?|?]; lia.
Qed.

Lemma ex_start_numbers b : b < n_batch (ex_p ex_search) -> numbers (logits_of (ex_p ex_search) ex_start b).
Proof. intros Hb. destruct b as [|[|b]]; [| |vm_compute in Hb; lia]; repeat constructor. Qed.

Lemma ex_softmax_numbers b l : b < n_batch (ex_p ex_search) ->
  SoftMax ex_exp (logits_of (ex_p ex_search) ex_start b) f1 = Ok l -> numbers l.
Proof.
  intros Hb H. destruct b as [|[|b]]; [| |vm_compute in Hb; lia]; vm_compute in H; injection H as <-; repeat constructor.
Qed.

Lemma GreedySearch_Cpu_new_spec_witness :
  ∃ s, ex_new = Ok s ∧ rows (sequences (g_cpu s)) = [[1]; [0]]%Z.
Proof.
  destruct (GreedySearch_Cpu_new_spec (ex_p ex_search) nat (fun _ => 0) 0 1) as (s & E & _ & _ & _ & H);
    try (vm_compute; lia); try reflexivity; [repeat split; vm_compute; discriminate|by eexists|].
  exists s. split; [exact E|exact H].
Defined.

Lemma SelectTop_spec_witness :
  ∃ s', SelectTop (ex_p ex_search) ex_start = Ok s' ∧ eos_seen_ s' !! 0 = Some true ∧
    row_of s' 1 = [0; 0]%Z.
Proof.
  destruct (SelectTop_spec (ex_p ex_search) nat ex_start ex_ready) as (s' & E & Hok & _ & H).
  - intros b Hb _. by apply ex_start_numbers.
  - exists s'. split; [exact E|]. vm_compute in E. injection E as <-. split; reflexivity.
Defined.

Lemma SampleTopKTopP_spec_witness :
  ∃ s', SampleTopKTopP (ex_p ex_search) ex_exp ex_uniform insertion_sort 2 f1 f1 ex_start = Ok s' ∧
    stepped (ex_p ex_search) (fun b t => ∃ l i, SoftMax ex_exp (logits_of (ex_p ex_search) ex_start b) f1 = Ok l ∧
      t = Z.of_nat i ∧ among_best 2 l i) ex_start s'.
Proof.
  apply (SampleTopKTopP_spec (ex_p ex_search) nat ex_exp ex_uniform insertion_sort 2 f1 f1 ex_start);
    [exact _|exact ex_ready|vm_compute; lia|]. intros b l Hb _. by apply ex_softmax_numbers.
Defined.

Lemma SampleTopP_spec_witness :
  ∃ s', SampleTopP (ex_p ex_search) ex_exp ex_uniform insertion_sort f1 f1 ex_start = Ok s' ∧
    search_length (g_cpu s') = 2.
Proof.
  destruct (SampleTopP_spec (ex_p ex_search) nat ex_exp ex_uniform insertion_sort f1 f1 ex_start)
    as (s' & E & _ & H & _); [exact _|exact ex_ready|intros b l Hb _; by apply ex_softmax_numbers|].
  exists s'. split; [exact E|exact H].
Defined.

Lemma min_length_respected_witness :
  ∃ c s', ApplyMinLength (ex_p ex_search) 3 (g_cpu ex_start) = Ok c ∧
    SelectTop (ex_p ex_search) (set_cpu c ex_start) = Ok s' ∧ eos_seen_ s' = [false; false].
Proof.
  destruct (min_length_respected (ex_p ex_search) nat 3 ex_start) as (c & s' & E1 & E2 & H & _).
  - exact ex_ready.
  - reflexivity.
  - vm_compute. split; [discriminate|reflexivity].
  - reflexivity.
  - intros b Hb _. split; [by apply ex_start_numbers|].
    destruct b as [|[|b]]; [| |vm_compute in Hb; lia]; (exists 0; eexists; split; [vm_compute; reflexivity|by split]).
  - exists c, s'. split; [exact E1|]. split; [exact E2|]. rewrite H. reflexivity.
Defined.

Lemma ApplyRepetitionPenalty_spec_witness :
  ∃ c, ApplyRepetitionPenalty (ex_p ex_search) remove_dups (f32_of_Z 2) (g_cpu ex_start) = Ok c ∧
    scores_row (ex_p ex_search) (next_token_scores_ c) 0 = fs [1; 1; 4]%Z.
Proof.
  destruct (ApplyRepetitionPenalty_spec (ex_p ex_search) remove_dups 2 (f32_of_Z 2) (g_cpu ex_start))
    as (c & E & _ & _ & H).
  - exact _.
  - split; try reflexivity. split; [reflexivity|]. vm_compute. lia.
  - intros i Hi. destruct i as [|[|i]]; [| |lia]; (constructor; [vm_compute; split; [discriminate|reflexivity]|constructor]).
  - exists c. split; [exact E|]. rewrite H by lia. vm_compute. reflexivity.
Defined.

Lemma top_k_indices_spec_witness : ∃ ix, top_k_indices 2 (fs [1; 5; 2; 7]%Z) = Ok ix ∧ ix = [3; 1] ∧ NoDup ix.
Proof.
  destruct (top_k_indices_spec 2 (fs [1; 5; 2; 7]%Z)) as (ix & E & _ & Hn & _); [simpl; lia|repeat constructor|].
  exists ix. split; [exact E|]. split; [|exact Hn]. vm_compute in E. by injection E.
Defined.

(** *** Beam search *)
Definition ex_beam_new : outcome BeamSearch_Cpu := BeamSearch_Cpu_new (ex_p ex_beams).

Lemma BeamSearch_Cpu_new_spec_witness :
  ∃ s, ex_beam_new = Ok s ∧ beam_ok (ex_p ex_beams) s (replicate 2 ([], false)).
Proof.
  destruct (BeamSearch_Cpu_new_spec (ex_p ex_beams) 1) as (s & E & H & _);
    try (vm_compute; lia); try reflexivity; try (vm_compute; discriminate); [by eexists|].
  exists s. split; [exact E|exact H].
Defined.

Definition beam_logits (l : list f32) (s : BeamSearch_Cpu) : BeamSearch_Cpu :=
  mkBeam (SetLogits l (b_cpu s)) (beam_scorer_ s).
Definition ex_beam_start : BeamSearch_Cpu :=
  match ex_beam_new with Ok s => beam_logits (fs [1; 2; 9; 1; 2; 9; 5; 3; 9; 5; 3; 9]%Z) s
  | _ => mkBeam (mkSearchCpu [] [] [] (mkSequences [] [] 0 0 0) false) (mkScorer 0 [] [] [] [] 0 []) end.
Definition ex_pow (x _ : f32) : f32 := x.
Definition ex_beam_step : BeamSearch_Cpu -> outcome BeamSearch_Cpu := BeamSearch_SelectTop (ex_p ex_beams) ex_pow insertion_sort.

Lemma ex_beam_ok : beam_ok (ex_p ex_beams) ex_beam_start (replicate 2 ([], false)).
Proof.
  split; try reflexivity; [split; try reflexivity|..].
  - change (beam_hyps_ (beam_scorer_ ex_beam_start)) with (replicate 2 (Init f1 2)).
    apply Forall2_replicate. split; [reflexivity|]. split; [reflexivity|]. split; [reflexivity|].
    split; [discriminate|]. exists []. split; [apply Init_holds|constructor].
  - vm_compute. lia.
  - split; vm_compute; discriminate.
  - split; [split; [reflexivity|]|reflexivity]. vm_compute. lia.
  - vm_compute. split; [done|lia].
Qed.

Lemma BeamSearch_SelectTop_spec_witness :
  ∃ s', ex_beam_step ex_beam_start = Ok s' ∧ rows (sequences (b_cpu s')) = [[1; 1]; [1; 0]; [0; 0]; [0; 1]]%Z.
Proof.
  destruct (BeamSearch_SelectTop_spec (ex_p ex_beams) ex_pow insertion_sort ex_beam_start (replicate 2 ([], false)))
    as (s' & cs & E & _).
  - exact _.
  - split; vm_compute; lia || discriminate.
  - exact ex_beam_ok.
  - vm_compute. lia.
  - reflexivity.
  - intros b Hb. destruct b as [|[|b]]; [| |vm_compute in Hb; lia]; vm_compute; repeat constructor.
  - exists s'. split; [exact E|]. vm_compute in E. injection E as <-. reflexivity.
Defined.

(** [SampleTopK] does not skip ended entries: the first entry samples the end of
    sequence twice, both count, and the search is done with the second open. *)
Definition ex_top_k (s : GreedySearch_Cpu (G := nat)) : outcome (GreedySearch_Cpu (G := nat)) :=
  SampleTopK (ex_p ex_search) ex_exp ex_discrete insertion_sort 2 f1 s.

Example SampleTopK_counts_twice :
  match (s ← ex_top_k ex_start; ex_top_k (with_logits (fs [1; 2; 4; 5; 3; 3]%Z) s)) with
  | Ok s => search_done_ (g_cpu s) = true ∧ eos_seen_ s = [true; false] ∧ search_length (g_cpu s) = 3
  | _ => False
  end.
Proof. vm_compute. repeat split; reflexivity. Qed.

(** It draws with the weights of the first [k] tokens, not of the [k] best: with
    a draw of the greatest weight, the second best token comes out. *)
Example SampleTopK_weights :
  choose_top_k ex_exp (fun w (g : nat) => (max_element w, g)) insertion_sort 2 f1 (fs [1; 3; 2]%Z) 0
    = choose_top_k ex_exp (fun w (g : nat) => (1, g)) insertion_sort 2 f1 (fs [1; 3; 2]%Z) 0 ∧
  take 2 (insertion_sort 2 (fs [1; 3; 2]%Z)) = [1; 2].
Proof. split; vm_compute; reflexivity. Qed.

(** The beam search does not ask its scorer whether it is done. *)
Example beam_scorer_done_search_not :
  match (s ← ex_beam_step ex_beam_start; ex_beam_step (beam_logits (fs [1; 2; 9; 1; 2; 9; 5; 3; 9; 5; 3; 9]%Z) s)) with
  | Ok s => IsDone (beam_scorer_ s) = true ∧ search_done_ (b_cpu s) = false ∧ search_length (b_cpu s) = 3
  | _ => False
  end.
Proof. vm_compute. repeat split; reflexivity. Qed.
End Examples.
