(* ===== verification/Generator.v ===== *)
(** * The generator (struct Generator of src/generators.h and generators.cpp)

    A generator drives a model state and a search: [ComputeLogits] runs the
    model on the tokens of the search, [GenerateNextToken] has the search choose
    the next ones, and [Generate] repeats both until the search is done.  The
    model state is an interface, [ModelState]; the file Generation states what a
    generator relies on and shows that the decoder models provide it.  What the C++ library
    leaves open (distributions, sorts, the order of a set) is in [Library].  A
    span handed to a state is a list of memory cells, which may be uninitialised;
    the logits are handed back as their contents. *)
From Stdlib Require Import ZArith Lia.
From stdpp Require Import base numbers list strings gmap pretty.
From S2P Require Import Prelude Float32 Config Tensors Params Sequences BeamScorer GraphPool State Inputs KVCache Logits Decoders Search.
Local Open Scope Z_scope.

(** ** What the generator is built from *)

(** Model::CreateState, which fills the sequence lengths of the search, and the
    virtual State::Run; [W] is what a run changes outside of the state. *)
Class ModelState (S W : Type) : Type := {
  CreateState : list (option Z) -> W -> outcome (S * list (option Z) * W);
  Run : Z -> list (option Z) -> list (option Z) -> S -> W -> outcome (list f32 * S * W) }.

Record Library (G : Type) := mkLibrary {
  l_exp : f32 -> f32;
  l_pow : f32 -> f32 -> f32;
  l_uniform : f32 -> G -> f32 * G;
  l_discrete : list f32 -> G -> nat * G;
  l_sort : nat -> list f32 -> list nat;
  l_partial_sort : nat -> list f32 -> list nat;
  l_queue : nat -> list f32 -> list nat;
  l_unordered : list Z -> list Z;
  l_seed : Z -> G;
  l_random : G }.
Arguments l_exp {G} _. Arguments l_pow {G} _. Arguments l_uniform {G} _. Arguments l_discrete {G} _.
Arguments l_sort {G} _. Arguments l_partial_sort {G} _. Arguments l_queue {G} _. Arguments l_unordered {G} _.
Arguments l_seed {G} _. Arguments l_random {G} _.

Class LibraryLaw {G} (L : Library G) : Prop := {
  law_sort :: Sorter (l_sort L);
  law_partial_sort :: Sorter (l_partial_sort L);
  law_queue :: Sorter (l_queue L);
  law_unordered :: Unordered (l_unordered L) }.

(** ** The search behind the interface *)
Inductive AnySearch (G : Type) : Type :=
  | GreedySearch (s : GreedySearch_Cpu (G := G))
  | BeamSearch (s : BeamSearch_Cpu).
Arguments GreedySearch {G} _.
Arguments BeamSearch {G} _.

Section search.
Context {G : Type} (L : Library G) (p : GeneratorParams).

Definition CreateSearch : outcome (AnySearch G) :=
  if 1 <? num_beams (gp_search p) then s ← BeamSearch_Cpu_new p; Ok (BeamSearch s)
  else s ← GreedySearch_Cpu_new p (l_seed L) (l_random L); Ok (GreedySearch s).

Definition cpu_of (s : AnySearch G) : Search_Cpu := match s with GreedySearch s => g_cpu s | BeamSearch s => b_cpu s end.
Definition with_cpu (c : Search_Cpu) (s : AnySearch G) : AnySearch G :=
  match s with GreedySearch s => GreedySearch (set_cpu c s) | BeamSearch s => BeamSearch (mkBeam c (beam_scorer_ s)) end.
Definition set_sequence_lengths (l : list (option Z)) (c : Search_Cpu) : Search_Cpu :=
  mkSearchCpu l (next_tokens_ c) (next_token_scores_ c) (sequences c) (search_done_ c).

(* GetNextTokens and GetNextIndices, as spans *)
Definition next_tokens_span (s : AnySearch G) : list (option Z) :=
  match s with GreedySearch s => map Some (next_tokens_ (g_cpu s)) | BeamSearch s => next_beam_tokens_ (beam_scorer_ s) end.
Definition next_indices_span (s : AnySearch G) : list (option Z) :=
  match s with GreedySearch _ => [] | BeamSearch s => next_beam_indices_ (beam_scorer_ s) end.

Definition AnySearch_SelectTop (s : AnySearch G) : outcome (AnySearch G) :=
  match s with
  | GreedySearch s => s ← SelectTop p s; Ok (GreedySearch s)
  | BeamSearch s => s ← BeamSearch_SelectTop p (l_pow L) (l_queue L) s; Ok (BeamSearch s)
  end.

(* the sampling of a beam search is the base class's assert(false) *)
Definition sample (f : GreedySearch_Cpu (G := G) -> outcome (GreedySearch_Cpu (G := G))) (s : AnySearch G) : outcome (AnySearch G) :=
  match s with GreedySearch s => s ← f s; Ok (GreedySearch s) | BeamSearch _ => Undef end.

(** The dispatch of [GenerateNextToken] on the search options. *)
Definition choose_next_token (s : AnySearch G) : outcome (AnySearch G) :=
  let se := gp_search p in
  if negb (do_sample se) || (top_k se =? 1) then AnySearch_SelectTop s else
  if negb (num_beams se =? 1) then Throw (RuntimeError "TopK and TopP cannot be used with a beam search") else
  if flt (top_p se) f0 || flt f1 (top_p se) then Throw (RuntimeError "top_p must be between 0.0 and 1.0") else
  if top_k se <? 0 then Throw (RuntimeError "top_k must be 0 or greater") else
  let k := Z.to_nat (top_k se) in
  if flt f0 (top_p se) && flt (top_p se) f1 && (1 <? top_k se) then
    sample (SampleTopKTopP p (l_exp L) (l_uniform L) (l_partial_sort L) k (top_p se) (temperature se)) s
  else if 1 <? top_k se then
    sample (SampleTopK p (l_exp L) (l_discrete L) (l_partial_sort L) k (temperature se)) s
  else
    _ ← assert_ (top_k se =? 0);
    sample (SampleTopP p (l_exp L) (l_uniform L) (l_sort L) (top_p se) (temperature se)) s.
End search.

(** ** The generator *)
Record Generator (G S W : Type) := mkGenerator {
  state_ : S;
  search_ : AnySearch G;
  computed_logits_ : bool;
  world_ : W }.
Arguments mkGenerator {G S W} _ _ _ _. Arguments state_ {G S W} _. Arguments search_ {G S W} _.
Arguments computed_logits_ {G S W} _. Arguments world_ {G S W} _.

Section generator.
Context {G S W : Type} {I : ModelState S W} (L : Library G) (p : GeneratorParams).
Abbreviation gen := (Generator G S W).

Definition Generator_new (context_length : Z) (w : W) : outcome gen :=
  let se := gp_search p in
  if max_length se =? 0 then Throw (RuntimeError "search max_length is 0") else
  if context_length <? max_length se then
    Throw (RuntimeError ("max_length (" ++ pretty (max_length se) ++ ") cannot be greater than model context_length ("
                         ++ pretty context_length ++ ")")) else
  if batch_size p <? 1 then Throw (RuntimeError ("batch_size must be 1 or greater, is " ++ pretty (batch_size p))) else
  if gp_vocab_size p <? 1 then Throw (RuntimeError ("vocab_size must be 1 or greater, is " ++ pretty (gp_vocab_size p))) else
  if max_length se <=? sequence_length p then
    Throw (RuntimeError ("input sequence_length (" ++ pretty (sequence_length p) ++ ") is >= max_length ("
                         ++ pretty (max_length se) ++ ")")) else
  search ← CreateSearch L p;
  '(s, lengths, w) ← CreateState (sequence_lengths_ (cpu_of search)) w;
  Ok (mkGenerator s (with_cpu (set_sequence_lengths lengths (cpu_of search)) search) false w).

Definition set_computed (b : bool) (g : gen) : gen := mkGenerator (state_ g) (search_ g) b (world_ g).
Definition set_search (s : AnySearch G) (g : gen) : gen := mkGenerator (state_ g) s (computed_logits_ g) (world_ g).

(** [ComputeLogits], with the generator it leaves behind when it throws.  What a
    run that throws leaves of the model's state and of the world is not known: it
    is [left]. *)
Definition Generator_ComputeLogits (left : S * W) (g : gen) : outcome unit * gen :=
  if computed_logits_ g
  then (Throw (RuntimeError "ComputeLogits called again without calling GenerateNextToken first"), g) else
  let search := search_ g in
  match Run (Z.of_nat (search_length (cpu_of search))) (next_tokens_span search) (next_indices_span search) (state_ g) (world_ g) with
  | Throw e => (Throw e, mkGenerator left.1 search (computed_logits_ g) left.2)
  | Undef => (Undef, g)
  | Ok (logits, s, w) =>
      let c := SetLogits logits (cpu_of search) in
      let g := set_computed true (mkGenerator s (with_cpu c search) (computed_logits_ g) w) in
      match
        c ← ApplyMinLength p (min_length (gp_search p)) c;
        ApplyRepetitionPenalty p (l_unordered L) (repetition_penalty (gp_search p)) c
      with
      | Ok c => (Ok (), set_search (with_cpu c search) g)
      | Throw e => (Throw e, g)
      | Undef => (Undef, g)
      end
  end.

(* for a caller that does not go on after a throw *)
Definition ComputeLogits (g : gen) : outcome gen :=
  let '(r, g) := Generator_ComputeLogits (state_ g, world_ g) g in
  _ ← r; Ok g.

Definition Generator_IsDone (g : gen) : outcome bool :=
  if computed_logits_ g
  then Throw (RuntimeError "IsDone() can't be called in the middle of processing logits")
  else Ok (search_done_ (cpu_of (search_ g))).

(** [GenerateNextToken], with the generator it leaves behind when it throws. *)
Definition GenerateNextToken (g : gen) : outcome unit * gen :=
  if negb (computed_logits_ g) then (Throw (RuntimeError "Must call ComputeLogits before GenerateNextToken"), g) else
  let g := set_computed false g in
  match choose_next_token L p (search_ g) with
  | Ok s => (Ok (), set_search s g)
  | Throw e => (Throw e, g)
  | Undef => (Undef, g)
  end.

Definition Generator_GetSequence (index : nat) (g : gen) : outcome (list Z) := GetSequence (sequences (cpu_of (search_ g))) index.

(** The loop of [Generate]; without fuel it has no result. *)
Fixpoint generate_loop (fuel : nat) (g : gen) : outcome gen :=
  match fuel with
  | O => Undef
  | Datatypes.S fuel =>
      done ← Generator_IsDone g;
      if done : bool then Ok g else
      g ← ComputeLogits g;
      let '(r, g) := GenerateNextToken g in
      _ ← r; generate_loop fuel g
  end.

Definition Generate (fuel : nat) (context_length : Z) (w : W) : outcome (list (list Z)) :=
  g ← Generator_new context_length w;
  g ← generate_loop fuel g;
  for_ (n_batch p) (fun i result => sequence ← Generator_GetSequence i g; Ok (result ++ [sequence])) [].
End generator.

(** ** Properties *)

(** *** How operations change the sequences *)
Lemma put_scores_sequences p i l c c' : put_scores p i l c = Ok c' -> sequences c' = sequences c.
Proof. unfold put_scores. intros H. inv_ok. done. Qed.

Lemma ApplyMinLength_sequences p n c c' : ApplyMinLength p n c = Ok c' -> sequences c' = sequences c.
Proof.
  unfold ApplyMinLength. destruct (_ <=? _); intros H; inv_ok; [done|].
  apply (for_inv_Ok (fun _ c1 => sequences c1 = sequences c) _ _ _ _ H); [done|].
  intros i c1 c2 _ <- E. inv_ok. by eapply put_scores_sequences.
Qed.

Lemma ApplyRepetitionPenalty_sequences p u x c c' : ApplyRepetitionPenalty p u x c = Ok c' -> sequences c' = sequences c.
Proof.
  unfold ApplyRepetitionPenalty. destruct (feq x f1); intros H; inv_ok; [done|].
  apply (for_inv_Ok (fun _ c1 => sequences c1 = sequences c) _ _ _ _ H); [done|].
  intros i c1 c2 _ <- E. inv_ok. by eapply put_scores_sequences.
Qed.

Lemma append_length q toks q' : AppendNextTokenToSequences q toks = Ok q' -> GetSequenceLength q' = S (GetSequenceLength q).
Proof. unfold AppendNextTokenToSequences. intros H. inv_ok. by apply int_nat_inv in H1 as [-> _]. Qed.

Lemma append_beam_length q idx toks q' : AppendNextTokenToSequences_beam q idx toks = Ok q' -> GetSequenceLength q' = S (GetSequenceLength q).
Proof. unfold AppendNextTokenToSequences_beam. intros H. inv_ok. by apply int_nat_inv in H1 as [-> _]. Qed.

Section appends.
Context {G : Type} (L : Library G) (p : GeneratorParams).

Lemma choose_entry_sequences (pick : chooser (G := G)) b s s' :
  choose_entry p pick b s = Ok s' -> sequences (g_cpu s') = sequences (g_cpu s).
Proof.
  unfold choose_entry, SetNextToken. intros H. inv_ok. destruct x0 as [[l t] g]. inv_ok.
  match goal with E : put_scores _ _ _ _ = Ok _ |- _ => apply put_scores_sequences in E end.
  destruct (t =? _); inv_ok; [|done]. by destruct (_ =? 0).
Qed.

Lemma next_entry_sequences (pick : chooser (G := G)) b s s' :
  next_entry p pick b s = Ok s' -> sequences (g_cpu s') = sequences (g_cpu s).
Proof.
  unfold next_entry, PadIfAlreadyEOS. intros H. inv_ok. destruct x as [padded s1].
  destruct x0; inv_ok; [done|]. by apply choose_entry_sequences in H.
Qed.

(* every step of a greedy search appends one token *)
Lemma greedy_appends (f : nat -> GreedySearch_Cpu (G := G) -> outcome (GreedySearch_Cpu (G := G))) s s' :
  (∀ b s s', f b s = Ok s' -> sequences (g_cpu s') = sequences (g_cpu s)) ->
  (s ← for_ (n_batch p) f s; AppendNextTokensToSequences p s) = Ok s' ->
  search_length (g_cpu s') = S (search_length (g_cpu s)).
Proof.
  intros Hf H. inv_ok. unfold AppendNextTokensToSequences in H. inv_ok. apply append_length in H1.
  apply (for_inv_Ok (fun _ s1 => sequences (g_cpu s1) = sequences (g_cpu s))) in H0; [|done|].
  2:{ intros b s1 s2 _ <- E. by eapply Hf. }
  unfold search_length. rewrite <- H0, <- H1. simpl. by destruct (_ =? _).
Qed.

Lemma choose_next_token_appends s s' : choose_next_token L p s = Ok s' ->
  search_length (cpu_of s') = S (search_length (cpu_of s)).
Proof.
  unfold choose_next_token. destruct (_ || _).
  { destruct s as [s|s]; simpl; intros H; inv_ok.
    - by apply (greedy_appends (next_entry p argmax) s x (next_entry_sequences argmax)).
    - unfold BeamSearch_SelectTop in H0. inv_ok. destruct x2 as [[? ?] ?]. inv_ok.
      match goal with E : AppendNextTokenToSequences_beam _ _ _ = Ok _ |- _ => apply append_beam_length in E as El end.
      cbn [b_cpu set_scores sequences] in El. unfold search_length. rewrite <- El. cbn [b_cpu]. by destruct (_ =? _). }
  do 3 (case_match; [done|]). unfold sample.
  destruct (_ && _ && _); [|destruct (1 <? _)]; intros Hs; inv_ok; (destruct s as [s|s]; [|done]); inv_ok; simpl;
    (eapply greedy_appends; [|eassumption]); intros ???; apply next_entry_sequences || apply choose_entry_sequences.
Qed.

(** *** What can throw: the search routines do not *)
Lemma candidates_no_throw seqs sc tk ix b n : ∀ j bi s,
  no_throw (candidates (l_pow L) (n_beams p) (gp_eos_token_id p) seqs sc tk ix b n j bi s).
Proof.
  assert (∀ sc beams i, no_throw (rotate sc beams i)) as Hr.
  { intros x beams i. revert beams. induction i as [|i IH]; intros beams; [by intros e|]. simpl. no_throw; apply IH. }
  assert (∀ b h x, no_throw (Add (l_pow L) b h x)) as Ha by (intros; unfold Add; cbv zeta; no_throw; apply Hr).
  induction n as [|n IH]; intros j bi s; [by intros e|]. simpl.
  no_throw; try apply IH; unfold end_hypothesis, write_next, copy; no_throw; try apply Ha; unfold GetSequence; no_throw.
Qed.

#[local] Hint Resolve candidates_no_throw : nothrow.

Lemma Process_no_throw s seqs sc tk ix : no_throw (Process (l_pow L) (n_batch p) (n_beams p) (gp_pad_token_id p)
  (gp_eos_token_id p) (early_stopping (gp_search p)) s seqs sc tk ix).
Proof.
  unfold Process, process_batch, write_next, CanImprove. no_throw.
Qed.

Lemma greedy_no_throw (f : nat -> GreedySearch_Cpu (G := G) -> outcome (GreedySearch_Cpu (G := G))) s :
  (∀ b s, no_throw (f b s)) -> no_throw (s ← for_ (n_batch p) f s; AppendNextTokensToSequences p s).
Proof. intros Hf. unfold AppendNextTokensToSequences, AppendNextTokenToSequences. no_throw. Qed.

Lemma choose_entry_no_throw (pick : chooser (G := G)) b s : (∀ l g, no_throw (pick l g)) -> no_throw (choose_entry p pick b s).
Proof. intros Hp. unfold choose_entry, put_scores, SetNextToken. no_throw; apply Hp. Qed.

Lemma next_entry_no_throw (pick : chooser (G := G)) b s : (∀ l g, no_throw (pick l g)) -> no_throw (next_entry p pick b s).
Proof. intros Hp. unfold next_entry, PadIfAlreadyEOS. no_throw. Qed.

Lemma first_exceeding_no_throw l ix : ∀ x t, no_throw (first_exceeding l ix x t).
Proof. induction ix as [|i ix IH]; intros x t; [by intros e|]. simpl. no_throw. Qed.

#[local] Hint Resolve Process_no_throw first_exceeding_no_throw : nothrow.

Lemma AnySearch_SelectTop_no_throw s : no_throw (AnySearch_SelectTop L p s).
Proof.
  destruct s as [s|s]; simpl.
  - apply no_throw_bind; [|by intros ? ?]. unfold SelectTop. apply greedy_no_throw. intros b s1. by apply next_entry_no_throw.
  - unfold BeamSearch_SelectTop, add_beam_scores, best_of_entry, GetNextTokens, GetNextIndices, AppendNextTokenToSequences_beam.
    no_throw.
Qed.

Lemma sample_no_throw f (s : AnySearch G) : (∀ s, no_throw (f s)) -> no_throw (sample f s).
Proof. intros Hf. destruct s; simpl; no_throw. Qed.
End appends.

Section protocol.
Context {G S W : Type} {I : ModelState S W} (L : Library G) (p : GeneratorParams).
Abbreviation gen := (Generator G S W).

Definition generated_length (g : gen) : nat := search_length (cpu_of (search_ g)).

(** The calls a user can make, with what they return and the generator they leave. *)
Inductive Call : Type := CallCompute | CallGenerate | CallIsDone.
Definition perform (left : S * W) (c : Call) (g : gen) : outcome (option bool) * gen :=
  match c with
  | CallCompute => let '(r, g) := Generator_ComputeLogits L p left g in (_ ← r; Ok None, g)
  | CallGenerate => let '(r, g) := GenerateNextToken L p g in (_ ← r; Ok None, g)
  | CallIsDone => (b ← Generator_IsDone g; Ok (Some b), g)
  end.

Record entry := mkEntry { called : Call; before : gen; returned : outcome (option bool); after : gen }.

Inductive trace : gen -> list entry -> gen -> Prop :=
  | trace_nil g : trace g [] g
  | trace_snoc g es g1 left c r g' : trace g es g1 -> perform left c g1 = (r, g') -> r ≠ Undef ->
      trace g (es ++ [mkEntry c g1 r g']) g'.

(* the runs of the model that did not fail; the tokens generated; the calls of
   GenerateNextToken that threw over logits *)
Definition is_run (x : entry) : bool := match called x, returned x with CallCompute, Ok _ => true | _, _ => false end.
Definition is_token (x : entry) : bool := match called x, returned x with CallGenerate, Ok _ => true | _, _ => false end.
Definition is_rejected (x : entry) : bool :=
  match called x, returned x with CallGenerate, Throw _ => computed_logits_ (before x) | _, _ => false end.
Definition count (P : entry -> bool) (es : list entry) : nat := length (filter (fun x => P x = true) es).

Lemma count_snoc P es x : count P (es ++ [x]) = (count P es + Nat.b2n (P x))%nat.
Proof. unfold count. rewrite filter_app, length_app, filter_cons, filter_nil. by destruct (P x). Qed.

(** A call is at the wrong time when logits wait to be used, or do not. *)
Definition wrong_time (x : entry) : option string :=
  match called x, computed_logits_ (before x) with
  | CallCompute, true => Some "ComputeLogits called again without calling GenerateNextToken first"
  | CallGenerate, false => Some "Must call ComputeLogits before GenerateNextToken"
  | CallIsDone, true => Some "IsDone() can't be called in the middle of processing logits"
  | _, _ => None
  end.

Lemma processing_no_throw c : no_throw (
  c ← ApplyMinLength p (min_length (gp_search p)) c;
  ApplyRepetitionPenalty p (l_unordered L) (repetition_penalty (gp_search p)) c).
Proof. unfold ApplyMinLength, ApplyRepetitionPenalty, put_scores, GetScores, BatchBeamSize, GetSequence, getZ, putZ, chk32. no_throw. Qed.

Lemma ComputeLogits_flag left g r g' : Generator_ComputeLogits L p left g = (r, g') -> r ≠ Undef ->
  if computed_logits_ g then r = Throw (RuntimeError "ComputeLogits called again without calling GenerateNextToken first") ∧ g' = g
  else generated_length g' = generated_length g ∧ computed_logits_ g' = match r with Ok _ => true | _ => false end.
Proof.
  unfold Generator_ComputeLogits. destruct (computed_logits_ g) eqn:Ec; [by intros [= <- <-]|].
  destruct (Run _ _ _ _ _) as [[[l s] w]|e|]; [|by intros [= <- <-]|by intros [= <- <-]].
  set (c0 := SetLogits l (cpu_of (search_ g))). pose proof (processing_no_throw c0) as Hn.
  destruct (_ ≫= _) as [c|e|] eqn:E; intros [= <- <-] Hr; [|by destruct (Hn e)|done].
  split; [|done]. inv_ok. apply ApplyMinLength_sequences in H. apply ApplyRepetitionPenalty_sequences in E.
  unfold generated_length, search_length. simpl. rewrite H in E. simpl in E. rewrite <- E. by destruct (search_ g).
Qed.

Lemma GenerateNextToken_flag g r g' : GenerateNextToken L p g = (r, g') ->
  match r with
  | Ok _ => computed_logits_ g = true ∧ computed_logits_ g' = false ∧ generated_length g' = Datatypes.S (generated_length g)
  | Throw e => computed_logits_ g' = false ∧ search_ g' = search_ g ∧
      (computed_logits_ g = false -> e = RuntimeError "Must call ComputeLogits before GenerateNextToken" ∧ g' = g)
  | Undef => True
  end.
Proof.
  unfold GenerateNextToken. destruct (computed_logits_ g) eqn:Ec; cbn [negb].
  - change (search_ (set_computed false g)) with (search_ g). destruct (choose_next_token L p (search_ g)) as [s|e|] eqn:E; intros [= <- <-]; [|done|done].
    apply choose_next_token_appends in E. done.
  - intros [= <- <-]. done.
Qed.

(** What one call does to the count of tokens and to the waiting logits. *)
Lemma perform_step left c g r g' : perform left c g = (r, g') -> r ≠ Undef ->
  let x := mkEntry c g r g' in
  (Nat.b2n (is_run x) + Nat.b2n (computed_logits_ g) = Nat.b2n (is_token x) + Nat.b2n (is_rejected x) + Nat.b2n (computed_logits_ g'))%nat ∧
  generated_length g' = (generated_length g + Nat.b2n (is_token x))%nat ∧
  (∀ m, wrong_time x = Some m -> r = Throw (RuntimeError m) ∧ g' = g).
Proof.
  intros E Hr x. unfold is_run, is_token, is_rejected, wrong_time, x. cbn [called returned before]. destruct c; cbn [perform] in E.
  - destruct (Generator_ComputeLogits L p left g) as [r1 g1] eqn:E1. injection E as <- <-.
    apply ComputeLogits_flag in E1; [|by intros ->].
    destruct (computed_logits_ g) eqn:Ec; [destruct E1 as [-> ->]; rewrite Ec; simpl; split; [done|]; split; [lia|]; by intros m [= <-]|].
    destruct E1 as [-> ->]. split; [by destruct r1|]. split; [by rewrite Nat.add_0_r|done].
  - destruct (GenerateNextToken L p g) as [r1 g1] eqn:E1. injection E as <- <-. apply GenerateNextToken_flag in E1.
    destruct r1 as [[]|e|]; [|..]; [| |done].
    + destruct E1 as (-> & -> & ->). simpl. split; [done|]. split; [lia|done].
    + destruct E1 as (-> & E2 & E3). simpl. split; [|split].
      * destruct (computed_logits_ g); done.
      * unfold generated_length. rewrite E2. lia.
      * destruct (computed_logits_ g); [done|]. destruct E3 as [-> ->]; [done|]. by intros m [= <-].
  - injection E as <- <-. unfold Generator_IsDone. destruct (computed_logits_ g); cbn.
    + split; [done|]. split; [lia|]. by intros m [= <-].
    + split; [done|]. split; [lia|]. done.
Qed.

(** C8: whatever sequence of calls a user makes, and whatever a model run that
    fails leaves behind, the runs of the model that do not fail are as many as
    the calls of GenerateNextToken that got past the protocol check, give or take
    the one whose logits are waiting; only a GenerateNextToken that returns
    appends a token to the sequences, exactly one; and every call at the wrong
    time (ComputeLogits or IsDone with logits waiting, GenerateNextToken without)
    throws the exception of its check and changes nothing. *)
Theorem calls_one_to_one (g g' : gen) (es : list entry) : trace g es g' ->
  (count is_run es + Nat.b2n (computed_logits_ g) = count is_token es + count is_rejected es + Nat.b2n (computed_logits_ g'))%nat ∧
  generated_length g' = (generated_length g + count is_token es)%nat ∧
  (∀ x m, x ∈ es -> wrong_time x = Some m -> returned x = Throw (RuntimeError m) ∧ after x = before x).
Proof.
  induction 1 as [g|g es g1 left c r g' H (IH1 & IH2 & IH3) E Hr].
  { unfold count; simpl. split; [lia|]. split; [lia|]. intros x m Hx. by apply elem_of_nil in Hx. }
  destruct (perform_step left c g1 r g' E Hr) as (P1 & P2 & P3). rewrite !count_snoc. split; [lia|]. split; [lia|].
  intros x m [Hx|Hx]%elem_of_app Hm; [by eapply IH3|]. apply list_elem_of_singleton in Hx as ->. by apply P3.
Qed.

(** C29: GenerateNextToken throws in exactly these cases, tried in this order:
    without logits, when sampling with several beams, with a top_p outside of
    [0, 1], with a negative top_k.  Except for the first, the logits are lost
    although no token was appended, and the next call throws the first exception. *)
Theorem GenerateNextToken_errors (g : gen) :
  let se := gp_search p in
  let sampling := computed_logits_ g && do_sample se && negb (top_k se =? 1) in
  let bad_top_p := flt (top_p se) f0 || flt f1 (top_p se) in
  ∀ e g', GenerateNextToken L p g = (Throw e, g') ↔
    (computed_logits_ g = false ∧ e = RuntimeError "Must call ComputeLogits before GenerateNextToken" ∧ g' = g) ∨
    (sampling = true ∧ g' = set_computed false g ∧
     (num_beams se ≠ 1 ∧ e = RuntimeError "TopK and TopP cannot be used with a beam search" ∨
      num_beams se = 1 ∧ bad_top_p = true ∧ e = RuntimeError "top_p must be between 0.0 and 1.0" ∨
      num_beams se = 1 ∧ bad_top_p = false ∧ top_k se < 0 ∧ e = RuntimeError "top_k must be 0 or greater")).
Proof.
  intros se sampling bad_top_p e g'. unfold GenerateNextToken, sampling. destruct (computed_logits_ g); cbn [negb andb].
  2:{ split; [intros [= <- <-]; by left|]. intros [(_ & -> & ->)|[? _]]; done. }
  change (search_ (set_computed false g)) with (search_ g). unfold choose_next_token. fold se. fold bad_top_p.
  destruct (do_sample se); cbn [negb orb andb]; [destruct (Z.eqb_spec (top_k se) 1) as [Hk|Hk]; cbn [negb]|].
  - pose proof (AnySearch_SelectTop_no_throw L p (search_ g)) as Hn.
    split; [|intros [[? _]|[? _]]; done]. destruct (AnySearch_SelectTop L p (search_ g)) as [?|e'|]; try done. by destruct (Hn e').
  - destruct (Z.eqb_spec (num_beams se) 1) as [Hb|Hb]; cbn [negb].
    2:{ split; [intros [= <- <-]; right; auto|]. intros [[? _]|(_ & -> & [(_ & ->)|[(? & _)|(? & _)]])]; done. }
    destruct bad_top_p eqn:Ep.
    { split; [intros [= <- <-]; right; auto 10|]. intros [[? _]|(_ & -> & [(? & _)|[(_ & _ & ->)|(_ & ? & _)]])]; done. }
    destruct (Z.ltb_spec (top_k se) 0) as [Hneg|Hneg].
    { split; [intros [= <- <-]; right; auto 10|]. intros [[? _]|(_ & -> & [(? & _)|[(_ & ? & _)|(_ & _ & _ & ->)]])]; done. }
    split; [|intros [[? _]|(_ & _ & [(? & _)|[(_ & ? & _)|(_ & _ & ? & _)]])]; done || lia].
    match goal with |- match ?m with Ok _ => _ | _ => _ end = _ -> _ => assert (no_throw m) as Hn; [|destruct m as [?|e'|]; try done; by destruct (Hn e')] end.
    destruct (flt f0 (top_p se) && flt (top_p se) f1 && (1 <? top_k se)); [|destruct (1 <? top_k se)].
    + apply sample_no_throw. intros s. unfold SampleTopKTopP. apply greedy_no_throw. intros b s1. apply next_entry_no_throw.
      intros l g1. unfold choose_top_k_top_p, SoftMax. no_throw; apply first_exceeding_no_throw.
    + apply sample_no_throw. intros s. unfold SampleTopK. apply greedy_no_throw. intros b s1. apply choose_entry_no_throw.
      intros l g1. unfold choose_top_k, SoftMax. no_throw.
    + apply no_throw_bind; [apply no_throw_assert|]. intros _. apply sample_no_throw. intros s. unfold SampleTopP.
      apply greedy_no_throw. intros b s1. apply next_entry_no_throw. intros l g1. unfold choose_top_p, SoftMax. no_throw; apply first_exceeding_no_throw.
  - pose proof (AnySearch_SelectTop_no_throw L p (search_ g)) as Hn.
    split; [|intros [[? _]|[? _]]; done]. destruct (AnySearch_SelectTop L p (search_ g)) as [?|e'|]; try done. by destruct (Hn e').
Qed.
End protocol.

(** ** Concrete runs *)
Module Examples.
Import Search.Examples.

Definition ex_library : Library nat :=
  mkLibrary nat ex_exp ex_pow ex_uniform ex_discrete insertion_sort insertion_sort insertion_sort remove_dups (fun _ => O) O.
#[export] Instance ex_library_law : LibraryLaw ex_library.
Proof. split; apply _. Qed.

(* a state that counts its runs *)
Definition counting : ModelState unit nat := {|
  CreateState := fun l w => Ok (tt, l, w);
  Run := fun _ _ _ _ runs => Ok (fs [1; 2; 0; 3; 2; 1], tt, S runs) |}.
Definition count_p : GeneratorParams := Search.Examples.ex_p Search.Examples.ex_search.
Definition count_start : Generator nat unit nat :=
  match Generator_new (I := counting) ex_library count_p 5 O with
  | Ok g => g
  | _ => mkGenerator tt (BeamSearch ex_beam_start) false O
  end.
Definition count_computed : Generator nat unit nat :=
  match ComputeLogits (I := counting) ex_library count_p count_start with Ok g => g | _ => count_start end.
Definition count_end : Generator nat unit nat := (GenerateNextToken ex_library count_p count_computed).2.

Definition count_left : unit * nat := (tt, O).
Definition ex_entry (c : Call) (g : Generator nat unit nat) : entry :=
  let '(r, g') := perform (I := counting) ex_library count_p count_left c g in mkEntry c g r g'.
Definition count_trace : list entry :=
  [ex_entry CallIsDone count_start; ex_entry CallGenerate count_start; ex_entry CallCompute count_start;
   ex_entry CallCompute count_computed; ex_entry CallGenerate count_computed].

Lemma calls_one_to_one_witness :
  trace (I := counting) ex_library count_p count_start count_trace count_end ∧
  generated_length count_end = (generated_length count_start + 1)%nat ∧ world_ count_end = 1%nat ∧
  returned (ex_entry CallCompute count_computed)
    = Throw (RuntimeError "ComputeLogits called again without calling GenerateNextToken first").
Proof.
  assert (trace (I := counting) ex_library count_p count_start count_trace count_end) as H.
  { apply (trace_snoc _ _ _ [_; _; _; _] count_computed count_left CallGenerate); [|vm_compute; reflexivity|discriminate].
    apply (trace_snoc _ _ _ [_; _; _] count_computed count_left CallCompute); [|vm_compute; reflexivity|discriminate].
    apply (trace_snoc _ _ _ [_; _] count_start count_left CallCompute); [|vm_compute; reflexivity|discriminate].
    apply (trace_snoc _ _ _ [_] count_start count_left CallGenerate); [|vm_compute; reflexivity|discriminate].
    apply (trace_snoc _ _ _ [] count_start count_left CallIsDone); [|vm_compute; reflexivity|discriminate].
    constructor. }
  destruct (calls_one_to_one (I := counting) ex_library count_p _ _ _ H) as (_ & E & F).
  split; [exact H|]. split; [rewrite E; vm_compute; reflexivity|]. split; [vm_compute; reflexivity|].
  apply (F (ex_entry CallCompute count_computed)); [|vm_compute; reflexivity].
  unfold count_trace. do 3 right. left.
Defined.
End Examples.
