(* ===== verification/Generation.v ===== *)
(** * Generation to the end, by greedy and by beam search

    What the generator relies on ([StateLaw], for the model state behind it) and
    what [Generate] then returns: [Generate_greedy] for one beam, by the greatest
    score or sampled, [Generate_beam] for several.  Sampling rests on the soft
    maximum of finite scores being numbers ([SoftMax_numbers]).  The decoder models are such states
    ([DecoderOnly_law], [Gpt_law]), and so are the Whisper model ([Whisper_law])
    and the vision pipeline ([Vision_law]). *)
From Stdlib Require Import ZArith Lia.
From stdpp Require Import base numbers list strings gmap.
From S2P Require Import Prelude Float32 Rounding Config Tensors Params Sequences BeamScorer GraphPool State Inputs KVCache Logits Decoders Whisper Vision Search Generator.
Local Open Scope Z_scope.

(** *** What the generator relies on *)
(** A model state that starts from any world of [start] and, after [k] runs,
    gives a score of [T] to every token of every row. *)
Class StateLaw {S W : Type} (I : ModelState S W) (p : GeneratorParams) (start : W -> Prop) (ok : nat -> S -> W -> Prop)
    (T : f32 -> Prop) : Prop := {
  create_law w lengths : start w -> length lengths = beam_rows p ->
    ∃ s lengths' w', CreateState lengths w = Ok (s, lengths', w') ∧ ok O s w';
  run_law k s w toks idx : ok k s w ->
    k = O ∨ (∃ t b, read_all toks = Ok t ∧ read_all idx = Ok b ∧ step_ok p (t, b)) -> mask_int p (p_seq p + k) ->
    ∃ scores s' w', Run (Z.of_nat (p_seq p + k)) toks idx s w = Ok (scores, s', w') ∧ ok (Datatypes.S k) s' w' ∧
      length scores = (beam_rows p * n_vocab p)%nat ∧ Forall T scores }.

(* the rows a search starts from are the prompts, once per beam *)
Lemma expand_input_row p (Hp : params_ok p) n i : (i < n_batch p * n)%nat ->
  expand_input (prompt p) (n_batch p) n !! i = Some (prompt_row p (i / n)).
Proof.
  intros Hi. unfold expand_input. rewrite list_lookup_fmap, lookup_seq_lt by done. cbn [fmap option_fmap option_map].
  f_equal. unfold prompt_row, tensor_row. pose proof (po_batch p Hp).
  assert (length (prompt p) / n_batch p = p_seq p)%nat as ->; [|done].
  rewrite (po_prompt p Hp). symmetry. apply Nat.div_unique_exact; [unfold n_batch; lia|done].
Qed.

(** *** The logit processors on scores of a set [T] *)
Section processors.
Context {G : Type} (L : Library G) {HL : LibraryLaw L} (p : GeneratorParams) (T : f32 -> Prop).
Abbreviation token t := (0 <= t < gp_vocab_size p).
Abbreviation penalty := (repetition_penalty (gp_search p)).

(* with a penalty every token of a sequence must be one of the vocabulary *)
Definition penalty_ok : Prop :=
  feq penalty f1 = true ∨
  Forall (fun t => token t) (prompt p) ∧ token (gp_pad_token_id p) ∧ (∀ x, T x -> T (penalise penalty x)).

(** What a score of the model becomes: the minimum length replaces that of the
    end of sequence, the penalty scales it. *)
Definition held_back (j : nat) (x : f32) : Prop := T x ∨ Z.of_nat j = gp_eos_token_id p ∧ x = f32_lowest.
Definition processed (j : nat) (x : f32) : Prop :=
  ∃ y, held_back j y ∧ (x = y ∨ feq penalty f1 = false ∧ x = penalise penalty y).

Lemma processed_in j x : T f32_lowest -> penalty_ok -> processed j x -> T x.
Proof.
  intros Hlow Hpen (y & Hy & Hx). assert (T y) as Ty by (by destruct Hy as [?|[_ ->]]).
  destruct Hx as [->|[Hf ->]]; [done|]. destruct Hpen as [?|(_ & _ & Hp)]; [congruence|by apply Hp].
Qed.

Definition rows_in (Q : nat -> f32 -> Prop) (n : nat) (c : Search_Cpu) : Prop :=
  ∀ b, (b < n)%nat -> ∀ j x, scores_row p (next_token_scores_ c) b !! j = Some x -> Q j x.

Lemma rows_in_changed (Q Q' : nat -> f32 -> Prop) n f c c' : rows_changed p n f c c' -> rows_in Q n c ->
  (∀ b l, (b < n)%nat -> (∀ j x, l !! j = Some x -> Q j x) -> ∀ j x, f b l !! j = Some x -> Q' j x) -> rows_in Q' n c'.
Proof. intros (_ & _ & Hr) Hc Hf b Hb. rewrite Hr by done. apply Hf; [done|]. by apply Hc. Qed.

Lemma scores_ok_changed n f c c' : rows_changed p n f c c' -> scores_ok p n c -> scores_ok p n c'.
Proof. intros ([l ->] & Hl & _) [H1 H2 H3 H4]. split; try done. by rewrite Hl. Qed.

Lemma without_eos_in l : 0 <= gp_eos_token_id p -> (∀ j x, l !! j = Some x -> T x) ->
  ∀ j x, without_eos p l !! j = Some x -> held_back j x.
Proof.
  intros He Hl j x. unfold without_eos. intros [(<- & <- & _)|[_ Hx]]%list_lookup_insert_Some; [|left; by eapply Hl].
  right. split; [lia|done].
Qed.

Lemma penalised_in ids l : feq penalty f1 = false -> (∀ j x, l !! j = Some x -> held_back j x) ->
  ∀ j x, penalised penalty ids l !! j = Some x -> processed j x.
Proof.
  intros Hf Hl j x. unfold penalised. rewrite list_lookup_imap. destruct (l !! j) as [y|] eqn:Ey; [|done].
  cbn [fmap option_fmap option_map]. intros [= <-]. exists y. split; [by apply Hl|]. destruct (decide _); auto.
Qed.

(** Minimum length and penalty change nothing but the scores. *)
Lemma process_logits n c : token (gp_eos_token_id p) -> scores_ok p n c -> rows_in (fun _ => T) n c ->
  (feq penalty f1 = false -> ∀ i, (i < n)%nat -> Forall (fun t => token t) (row (sequences c) i)) ->
  ∃ c1 c2 l, ApplyMinLength p (min_length (gp_search p)) c = Ok c1 ∧
    ApplyRepetitionPenalty p (l_unordered L) penalty c1 = Ok c2 ∧
    c2 = set_scores l c ∧ length l = (n * n_vocab p)%nat ∧ rows_in processed n c2.
Proof.
  intros He Hok Hin Htok.
  destruct (ApplyMinLength_rows p n (min_length (gp_search p)) c Hok He) as (c1 & E1 & R1).
  pose proof (scores_ok_changed _ _ _ _ R1 Hok) as Hok1.
  assert (rows_in held_back n c1) as Hin1.
  { apply (rows_in_changed _ _ _ _ _ _ R1 Hin). intros b l _ Hl. destruct (_ <? _); [|intros j x Hx; left; by eapply Hl].
    apply without_eos_in; [lia|done]. }
  pose proof R1 as ([l1 ->] & _ & _). set (c1 := set_scores l1 c) in *.
  assert (∃ c2, ApplyRepetitionPenalty p (l_unordered L) penalty c1 = Ok c2 ∧ scores_ok p n c2 ∧
    (∃ l, c2 = set_scores l c1) ∧ rows_in processed n c2) as (c2 & E2 & Hok2 & [l2 ->] & Hin2).
  { destruct (feq penalty f1) eqn:Ef.
    - exists c1. unfold ApplyRepetitionPenalty. rewrite Ef. split; [done|]. split; [done|].
      split; [exists (next_token_scores_ c1); by rewrite set_scores_same|].
      intros b Hb j x Hx. exists x. split; [by eapply Hin1|by left].
    - destruct (ApplyRepetitionPenalty_rows p (l_unordered L) n penalty c1 (law_unordered (L := L)) Hok1 (Htok eq_refl))
        as (c2 & E2 & R2). exists c2. split; [done|]. split; [by eapply scores_ok_changed|]. split; [by destruct R2|].
      apply (rows_in_changed _ _ _ _ _ _ R2 Hin1). intros b l _ Hl. cbv beta. rewrite Ef. by apply penalised_in. }
  exists c1, (set_scores l2 c1), l2. split; [done|]. split; [done|]. split; [done|]. by destruct Hok2.
Qed.

(** ComputeLogits of a generator whose state is at [k], for either search. *)
Context {S W : Type} {I : ModelState S W} (start : W -> Prop) (ok : nat -> S -> W -> Prop) {HS : StateLaw I p start ok T}.

Lemma ComputeLogits_ok k (g : Generator G S W) : let c := cpu_of (search_ g) in
  token (gp_eos_token_id p) -> params_ok p -> mask_int p (p_seq p + k) ->
  computed_logits_ g = false -> ok k (state_ g) (world_ g) ->
  search_length c = (p_seq p + k)%nat -> wf (sequences c) -> batch_beam_size_ (sequences c) = beam_rows p ->
  k = O ∨ (∃ t b, read_all (next_tokens_span (search_ g)) = Ok t ∧ read_all (next_indices_span (search_ g)) = Ok b ∧ step_ok p (t, b)) ->
  (feq penalty f1 = false -> ∀ i, (i < beam_rows p)%nat -> Forall (fun t => token t) (row (sequences c) i)) ->
  ∃ g1 l, ComputeLogits L p g = Ok g1 ∧ search_ g1 = with_cpu (set_scores l c) (search_ g) ∧ computed_logits_ g1 = true ∧
    ok (Datatypes.S k) (state_ g1) (world_ g1) ∧ length l = (beam_rows p * n_vocab p)%nat ∧
    ∀ b, (b < beam_rows p)%nat -> ∀ j x, scores_row p l b !! j = Some x -> processed j x.
Proof.
  intros c He Hp Hint Hc Hst Hlen Hwf Hrows Hnext Htok. unfold ComputeLogits, Generator_ComputeLogits. rewrite Hc. cbv zeta. fold c. rewrite Hlen.
  destruct (run_law k (state_ g) (world_ g) _ _ Hst Hnext Hint) as (scores & st & w & -> & Hst' & Ls & Hn).
  destruct (process_logits (beam_rows p) (SetLogits scores c) He) as (c1 & c2 & l & E1 & E2 & -> & Hl & Hin).
  - split; [by rewrite (BatchBeamSize_ok p Hp)|exact Ls|exact Hwf|exact Hrows].
  - intros b Hb j x Hx. eapply (Forall_lookup_1 T); [|exact Hx]. unfold scores_row. apply Forall_take, Forall_drop, Hn.
  - exact Htok.
  - rewrite E1, bind_Ok, E2, bind_Ok. eexists _, l. split; [reflexivity|]. cbn [search_ set_search computed_logits_ state_ world_].
    split; [|done]. f_equal.
Qed.
End processors.

(** *** The loop of [Generate] *)
Section loop.
Context {G S W : Type} {I : ModelState S W} (L : Library G) (p : GeneratorParams).
Abbreviation cpu g := (cpu_of (search_ g)).

(** A turn of the loop for a generator that is not done, by an invariant that
    counts the turns. *)
Definition turns (inv : nat -> Generator G S W -> Prop) : Prop := ∀ k g, inv k g ->
  computed_logits_ g = false ∧ (p_seq p + k <= n_max p)%nat ∧
  wf (sequences (cpu g)) ∧ (n_batch p <= batch_beam_size_ (sequences (cpu g)))%nat ∧
  (search_done_ (cpu g) = false -> ∃ g1 g2, ComputeLogits L p g = Ok g1 ∧ GenerateNextToken L p g1 = (Ok (), g2) ∧ inv (Datatypes.S k) g2).

Lemma generate_loop_ok inv fuel : turns inv -> ∀ k g, inv k g -> (n_max p < p_seq p + k + fuel)%nat ->
  ∃ k' g', generate_loop L p fuel g = Ok g' ∧ inv k' g' ∧ search_done_ (cpu g') = true.
Proof.
  intros Ht. induction fuel as [|fuel IH]; intros k g Hg Hf; destruct (Ht k g Hg) as (Hc & Hk & _ & _ & Hturn); [lia|].
  simpl. unfold Generator_IsDone. rewrite Hc, bind_Ok. destruct (search_done_ (cpu g)) eqn:Ed; [by exists k, g|].
  destruct (Hturn eq_refl) as (g1 & g2 & E1 & E2 & Hg2). rewrite E1, bind_Ok, E2, bind_Ok.
  apply (IH (Datatypes.S k) g2 Hg2). lia.
Qed.

Lemma Generate_turns inv context_length w fuel : turns inv ->
  (∃ g, Generator_new L p context_length w = Ok g ∧ inv O g) -> (n_max p - p_seq p < fuel)%nat ->
  ∃ k g, Generate L p fuel context_length w = Ok (map (row (sequences (cpu g))) (seq 0 (n_batch p))) ∧
    inv k g ∧ search_done_ (cpu g) = true ∧ (p_seq p + k <= n_max p)%nat.
Proof.
  intros Ht (g0 & E0 & Hg0) Hfuel. destruct (Ht O g0 Hg0) as (_ & Hle & _).
  destruct (generate_loop_ok inv fuel Ht O g0 Hg0) as (k & g & E & Hg & Hd); [lia|]. exists k, g.
  destruct (Ht k g Hg) as (_ & Hk & Hwf & Hb & _). split; [|done]. unfold Generate. rewrite E0, bind_Ok, E, bind_Ok.
  match goal with |- for_ ?n ?f ?x = _ =>
    destruct (for_inv (fun i r => r = map (row (sequences (cpu g))) (seq 0 i)) n f x) as (result & -> & ->) end; [done| |done].
  intros i r Hi ->. unfold Generator_GetSequence. rewrite GetSequence_row, bind_Ok by (done || lia).
  eexists. split; [reflexivity|]. by rewrite seq_S, map_app.
Qed.
End loop.

(** *** The scores of a search with one beam *)

(** std::exp of a number that is not above 0 lies between 0 and 1, and is 1 at 0. *)
Class ExpLaw (exp : f32 -> f32) : Prop := {
  exp_zero s : exp (SpecFloat.S754_zero s) = f1;
  exp_nonpos x : nonpos x ->
    SpecFloat.valid_binary 24 128 (exp x) = true ∧ fle f0 (exp x) = true ∧ fle (exp x) f1 = true }.

(* scores that are finite or the negative infinity, one of them finite *)
Definition bounded_above (x : f32) : Prop := finite x ∨ x = SpecFloat.S754_infinity true.
Definition samplable (l : list f32) : Prop := Forall bounded_above l ∧ ∃ x, x ∈ l ∧ finite x.

Lemma bounded_above_number x : bounded_above x -> is_nan x = false.
Proof. intros [H| ->]; [by apply finite_number|done]. Qed.

Lemma exp_range exp {HE : ExpLaw exp} x : nonpos x -> nonneg_finite (exp x).
Proof.
  intros (Hv & H0 & H1)%(exp_nonpos (exp := exp)). destruct (exp x) as [s|[]| |[] m e]; try done. split; [done|].
  unfold SpecFloat.valid_binary, SpecFloat.bounded, SpecFloat.canonical_mantissa, SpecFloat.fexp, SpecFloat.emin in Hv.
  apply andb_true_iff in Hv as [Hv%Z.eqb_eq _]. lia.
Qed.

(* the greatest of such scores is finite, and the others less it are not above 0 *)
Lemma samplable_max l : samplable l -> ∃ y, get l (max_element l) = Ok y ∧ y ∈ l ∧ finite y ∧
  ∀ x, x ∈ l -> nonpos (fsub x y).
Proof.
  intros [Hl (z & Hz & Fz)]. assert (l ≠ []) as Hne by (intros ->; by apply elem_of_nil in Hz).
  destruct (max_element_spec l Hne) as (y & Ey & Hy); [by eapply Forall_impl; [exact Hl|apply bounded_above_number]|].
  assert (finite y) as Fy.
  { destruct (Forall_lookup_1 _ _ _ _ Hl Ey) as [?| ->]; [done|]. apply list_elem_of_lookup in Hz as [j Hj].
    destruct (Hy j z Hj) as [H _]. by destruct z. }
  exists y. split; [by apply get_Some|]. split; [by eapply list_elem_of_lookup_2|]. split; [done|].
  intros x Hx. pose proof (proj1 (Forall_forall _ _) Hl x Hx) as [Fx| ->].
  - apply list_elem_of_lookup in Hx as [j Hj]. apply fsub_nonpos; [done..|]. by apply (Hy j).
  - by rewrite fsub_infinity.
Qed.

(** The soft maximum of such scores at a positive temperature are numbers: the
    greatest score contributes 1 to the sum. *)
Lemma SoftMax_numbers exp {HE : ExpLaw exp} t l r :
  pos_finite t = true -> samplable l -> SoftMax exp l t = Ok r -> numbers r.
Proof.
  intros Ht Hl. destruct (samplable_max l Hl) as (y & Ey & Hy & Fy & Hsub). unfold SoftMax. rewrite Ey, bind_Ok. cbv zeta.
  set (es := map _ l). intros [= <-]. assert (Forall nonneg_finite es) as Hes.
  { apply Forall_map, Forall_forall. intros x Hx. apply exp_range; [done|]. apply fdiv_nonpos; [by apply Hsub|done]. }
  assert (above0 (fold_left fadd es f0)) as Hsum.
  { apply fold_fadd_sum; [done|]. exists f1. split; [|by vm_compute].
    destruct (fsub_self y Fy) as [s E1]. destruct (fdiv_zero s t Ht) as [s' E2].
    rewrite <- (exp_zero (exp := exp) s'), <- E2, <- E1. apply (list_elem_of_fmap_2 (fun x => exp (fdiv (fsub x y) t)) l y Hy). }
  apply Forall_map. eapply Forall_impl; [exact Hes|]. intros x Hx. by apply fdiv_share.
Qed.

(* a penalty that is a positive float keeps numbers *)
Lemma penalise_number penalty x : pos_finite penalty = true -> is_nan x = false -> is_nan (penalise penalty x) = false.
Proof.
  destruct penalty as [|?| |[] m e]; try done. intros _ Hx. unfold penalise. destruct (flt x f0).
  - destruct x as [s|s| |s m' e']; try done. apply (signed_number (xorb s false)). by apply binary_round_aux_signed.
  - destruct x as [s|s| |s m' e']; try done. apply (signed_number (xorb s false)), fdiv_finite.
Qed.

Section greedy.
Context {G S W : Type} {I : ModelState S W} (L : Library G) {HL : LibraryLaw L} (p : GeneratorParams) (T : f32 -> Prop).
Context (start : W -> Prop) (ok : nat -> S -> W -> Prop) {HS : StateLaw I p start ok T}.
Abbreviation gen := (Generator G S W).
Abbreviation token t := (0 <= t < gp_vocab_size p).
Abbreviation penalty := (repetition_penalty (gp_search p)).

(** What sampling needs: the model's scores are finite and stay so under a
    penalty, that of the lowest score may underflow to the negative infinity. *)
Record sampling_ok : Prop := {
  sa_exp :: ExpLaw (l_exp L);
  sa_temperature : pos_finite (temperature (gp_search p)) = true;
  sa_vocab : 2 <= gp_vocab_size p;
  sa_finite x : T x -> finite x;
  sa_penalty x : feq penalty f1 = false -> T x -> finite (penalise penalty x);
  sa_lowest : feq penalty f1 = false -> bounded_above (penalise penalty f32_lowest) }.

(** The choices of a token but [SampleTopK] (a [top_k] above 1 with a [top_p] of
    0 or 1), which samples ended entries on. *)
Definition mode_ok : Prop :=
  let se := gp_search p in
  do_sample se = false ∨ top_k se = 1 ∨
  sampling_ok ∧ flt (top_p se) f0 = false ∧ flt f1 (top_p se) = false ∧
  (top_k se = 0 ∨ 1 < top_k se <= gp_vocab_size p ∧ flt f0 (top_p se) = true ∧ flt (top_p se) f1 = true).

Record greedy_setup (context_length : Z) : Prop := {
  gs_params : params_ok p;
  gs_beams : num_beams (gp_search p) = 1;
  gs_vocab : 0 < gp_vocab_size p;
  gs_length : sequence_length p < max_length (gp_search p) <= context_length;
  (* the ints that index the sequences and the scores *)
  gs_int : int_rows (n_batch p) (n_max p);
  gs_scores : Z.of_nat (n_batch p * n_vocab p) <= INT_MAX;
  gs_eos : token (gp_eos_token_id p);
  gs_numbers x : T x -> is_nan x = false;
  gs_penalty : feq penalty f1 = true ∨
    pos_finite penalty = true ∧ Forall (fun t => token t) (prompt p) ∧ token (gp_pad_token_id p);
  gs_mode : mode_ok }.

(* what was generated for an entry: an ended one has one end of sequence and
   padding after it *)
Definition generated (ended : bool) (l : list Z) : Prop :=
  let eos := gp_eos_token_id p in
  ∃ l0, Forall (fun t => token t ∧ t ≠ eos) l0 ∧
    if ended then ∃ n, l = l0 ++ eos :: replicate n (gp_pad_token_id p) else l = l0.

(** After [k] tokens. *)
Record greedy_gen (k : nat) (g : gen) (s : GreedySearch_Cpu (G := G)) : Prop := {
  gg_search : search_ g = GreedySearch s;
  gg_ok : greedy_ok p s;
  gg_length : search_length (g_cpu s) = (p_seq p + k)%nat;
  gg_computed : computed_logits_ g = false;
  gg_state : ok k (state_ g) (world_ g);
  gg_rows : ∀ b, (b < n_batch p)%nat -> ∃ l ended, eos_seen_ s !! b = Some ended ∧
    row_of s b = prompt_row p b ++ l ∧ length l = k ∧ generated ended l }.

Section setup.
Context (context_length : Z) (Hsetup : greedy_setup context_length).

Lemma greedy_rows : beam_rows p = n_batch p.
Proof. unfold beam_rows, p_batch, p_beams, n_batch. rewrite (gs_beams _ Hsetup). lia. Qed.

Lemma stepped_mono (R R' : nat -> Z -> Prop) (s s' : GreedySearch_Cpu (G := G)) :
  (∀ b t, (b < n_batch p)%nat -> R b t -> R' b t) -> stepped p R s s' -> stepped p R' s s'.
Proof.
  intros H (H1 & H2 & H3). split; [done|]. split; [done|]. intros b Hb. specialize (H3 b Hb).
  destruct (eos_seen_ s !! b) as [[|]|]; [done| |]; destruct H3 as (t & Ht & H3); exists t; (split; [by apply H|done]).
Qed.

Lemma processed_number j x : processed p T j x -> is_nan x = false.
Proof.
  intros (y & Hy & Hx). assert (is_nan y = false) as Ny.
  { destruct Hy as [?|[_ ->]]; [by apply (gs_numbers _ Hsetup)|done]. }
  destruct Hx as [->|[Hf ->]]; [done|]. destruct (gs_penalty _ Hsetup) as [?|[Hp _]]; [congruence|]. by apply penalise_number.
Qed.

Lemma processed_samplable l : sampling_ok -> length l = n_vocab p -> (∀ j x, l !! j = Some x -> processed p T j x) -> samplable l.
Proof.
  intros Hs Hl Hp. assert (∀ j x, l !! j = Some x -> Z.of_nat j ≠ gp_eos_token_id p -> finite x) as Hfin.
  { intros j x Hx Hj. destruct (Hp j x Hx) as (y & [Hy|[? _]] & E); [|done].
    destruct E as [->|[Hf ->]]; [by apply sa_finite|by apply sa_penalty]. }
  split.
  - apply Forall_lookup. intros j x Hx. destruct (decide (Z.of_nat j = gp_eos_token_id p)) as [Ej|?]; [|left; by eapply Hfin].
    destruct (Hp j x Hx) as (y & Hy & E). destruct Hy as [Hy|[_ ->]].
    + left. destruct E as [->|[Hf ->]]; [by apply sa_finite|by apply sa_penalty].
    + destruct E as [->|[Hf ->]]; [left; by vm_compute|by apply sa_lowest].
  - pose proof (sa_vocab Hs) as Hv. set (j := if decide (gp_eos_token_id p = 0) then 1%nat else 0%nat).
    destruct (lookup_lt_is_Some_2 l j) as [x Hx]; [rewrite Hl; unfold j, n_vocab; destruct (decide _); lia|].
    exists x. split; [by eapply list_elem_of_lookup_2|]. apply (Hfin j x Hx). unfold j. destruct (decide _); lia.
Qed.

(** Whatever the search options, a token of the vocabulary is chosen. *)
Lemma choose_greedy_ok (s : GreedySearch_Cpu (G := G)) : ready p s ->
  (∀ b, (b < n_batch p)%nat -> ∀ j x, logits_of p s b !! j = Some x -> processed p T j x) ->
  ∃ s', choose_next_token L p (GreedySearch s) = Ok (GreedySearch s') ∧ stepped p (fun _ t => token t) s s'.
Proof.
  intros Hr Hpr. assert (∀ b, (b < n_batch p)%nat -> numbers (logits_of p s b)) as Hn.
  { intros b Hb. apply Forall_lookup. intros j x Hx. by eapply processed_number, Hpr. }
  unfold choose_next_token. set (se := gp_search p).
  destruct (negb (do_sample se) || (top_k se =? 1)) eqn:Em.
  - destruct (SelectTop_stepped p s Hr) as (s' & E & St); [by auto|]. simpl. rewrite E, bind_Ok. exists s'. split; [done|].
    eapply stepped_mono; [|exact St]. intros b t Hb (i & v & -> & Hv & _). apply lookup_lt_Some in Hv.
    rewrite (length_logits_of p s b Hr Hb) in Hv. unfold n_vocab in Hv. lia.
  - apply orb_false_iff in Em as [E1 E2]. apply negb_false_iff in E1. apply Z.eqb_neq in E2.
    destruct (gs_mode _ Hsetup) as [?|[?|(Hsm & P1 & P2 & Hk)]]; [fold se in H; congruence|done|]. fold se in P1, P2, Hk.
    rewrite (proj2 (Z.eqb_eq _ _) (gs_beams _ Hsetup : num_beams se = 1)). cbn [negb]. rewrite P1, P2. cbn [orb].
    assert (∀ b l, (b < n_batch p)%nat -> eos_seen_ s !! b = Some false ->
      SoftMax (l_exp L) (logits_of p s b) (temperature se) = Ok l -> numbers l) as Hnum.
    { intros b l Hb _ E. eapply (SoftMax_numbers (l_exp L) (HE := sa_exp Hsm)); [apply (sa_temperature Hsm)| |exact E].
      apply (processed_samplable _ Hsm); [by apply length_logits_of|by apply Hpr]. }
    destruct Hk as [Hk|(Hk & P3 & P4)].
    + rewrite Hk. cbn [Z.ltb Z.compare Z.eqb]. rewrite andb_false_r. unfold assert_. rewrite bind_Ok.
      destruct (SampleTopP_stepped p G (l_exp L) (l_uniform L) (l_sort L) (top_p se) (temperature se) s (law_sort (L := L)) Hr Hnum)
        as (s' & E & St).
      simpl. rewrite E, bind_Ok. exists s'. split; [done|]. eapply stepped_mono; [|exact St].
      intros b t Hb (l & i & _ & -> & Hi & _). lia.
    + destruct (Z.ltb_spec (top_k se) 0) as [?|_]; [lia|]. rewrite P3, P4.
      destruct (Z.ltb_spec 1 (top_k se)) as [_|?]; [|lia]. cbn [andb].
      destruct (SampleTopKTopP_stepped p G (l_exp L) (l_uniform L) (l_partial_sort L) (Z.to_nat (top_k se)) (top_p se) (temperature se) s
        (law_partial_sort (L := L)) Hr ltac:(unfold n_vocab; lia) Hnum) as (s' & E & St).
      simpl. rewrite E, bind_Ok. exists s'. split; [done|]. eapply stepped_mono; [|exact St].
      intros b t Hb (l & i & El & -> & (v & Hv & _)). apply lookup_lt_Some in Hv.
      rewrite (length_SoftMax _ _ _ _ El), (length_logits_of p s b Hr Hb) in Hv. unfold n_vocab in Hv. lia.
Qed.

(* the tokens of the rows are tokens of the vocabulary *)
Lemma greedy_tokens k g s b : feq (repetition_penalty (gp_search p)) f1 = false -> greedy_gen k g s -> (b < n_batch p)%nat ->
  Forall (fun t => token t) (row_of s b).
Proof.
  intros Hf Hg Hb. destruct (gs_penalty _ Hsetup) as [?|(_ & Hp & Hpad)]; [congruence|].
  destruct (gg_rows _ _ _ Hg b Hb) as (l & ended & _ & -> & _ & (l0 & Hl0 & Hl)). apply Forall_app. split.
  - unfold prompt_row, tensor_row. apply Forall_take, Forall_drop, Hp.
  - assert (Forall (fun t => token t) l0) as H0 by (eapply Forall_impl; [exact Hl0|]; tauto).
    destruct ended; [|by subst l]. destruct Hl as [n ->]. apply Forall_app. split; [done|]. apply Forall_cons.
    split; [apply (gs_eos _ Hsetup)|]. by apply Forall_replicate.
Qed.

Lemma greedy_int k : (p_seq p + k <= n_max p)%nat -> mask_int p (p_seq p + k).
Proof.
  intros Hk. destruct (gs_int _ Hsetup) as (_ & _ & H). eapply mask_int_mono; [|exact Hk].
  unfold mask_int. by rewrite greedy_rows.
Qed.

(** ComputeLogits of a generator that is not done. *)
Lemma ComputeLogits_greedy k g s : greedy_gen k g s -> (p_seq p + k < n_max p)%nat ->
  ∃ g1 s1, ComputeLogits L p g = Ok g1 ∧ search_ g1 = GreedySearch s1 ∧ computed_logits_ g1 = true ∧
    ok (Datatypes.S k) (state_ g1) (world_ g1) ∧ ready p s1 ∧ (∀ b, (b < n_batch p)%nat -> ∀ j x, logits_of p s1 b !! j = Some x -> processed p T j x) ∧
    eos_seen_ s1 = eos_seen_ s ∧ sequences (g_cpu s1) = sequences (g_cpu s).
Proof.
  intros Hg Hlt. pose proof Hg as [Es Hok Hlen Hc Hst Hrows]. pose proof greedy_rows as Eb.
  destruct (ComputeLogits_ok L p T start ok k g) as (g1 & l & E & E1 & E2 & E3 & Hl & Hn); rewrite ?Es, ?Eb; try done.
  - apply (gs_eos _ Hsetup).
  - apply (gs_params _ Hsetup).
  - apply greedy_int. lia.
  - apply (go_wf p s Hok).
  - apply (go_rows p s Hok).
  - right. exists (next_tokens_ (g_cpu s)), []. cbn [next_tokens_span next_indices_span]. split; [apply read_all_Some|].
    split; [done|]. split; [|split; [by left|left; apply (gs_beams _ Hsetup)]]. cbn [fst]. by rewrite (go_tokens p s Hok).
  - intros Hf i Hi. by apply (greedy_tokens k g s i Hf Hg).
  - rewrite Es in E1. cbn [cpu_of with_cpu] in E1. rewrite Eb in Hl, Hn.
    exists g1, (set_cpu (set_scores l (g_cpu s)) s). split; [done|]. split; [done|]. split; [done|]. split; [done|].
    split; [|split; [exact Hn|done]]. split; [destruct Hok; by split|by unfold search_length in *; simpl; rewrite Hlen|exact Hl|..].
    + pose proof (gs_vocab _ Hsetup). unfold n_vocab. lia.
    + apply (gs_int _ Hsetup).
    + pose proof (gs_length _ Hsetup). pose proof (po_length p (gs_params _ Hsetup)). lia.
Qed.

(** One turn of the loop of [Generate]. *)
Lemma greedy_turn k g s : greedy_gen k g s -> search_done_ (g_cpu s) = false ->
  ∃ g1 g2 s2, ComputeLogits L p g = Ok g1 ∧ GenerateNextToken L p g1 = (Ok (), g2) ∧ greedy_gen (Datatypes.S k) g2 s2 ∧
    (p_seq p + k < n_max p)%nat.
Proof.
  intros Hg Hd. pose proof Hg as [Es Hok Hlen Hc Hst Hrows].
  assert (p_seq p + k < n_max p)%nat as Hlt.
  { destruct (go_wf p s Hok) as [_ Hwf]. rewrite (go_max p s Hok) in Hwf. fold (GetSequenceLength (sequences (g_cpu s))) in Hwf.
    fold (search_length (g_cpu s)) in Hwf. assert (search_length (g_cpu s) ≠ n_max p); [|lia].
    intros E. assert (search_done_ (g_cpu s) = true) by (apply (go_done p s Hok); by right). congruence. }
  destruct (ComputeLogits_greedy k g s Hg Hlt) as (g1 & s1 & E1 & Es1 & Ec1 & Hst1 & Hr1 & Hn1 & Eeos & Eseq).
  destruct (choose_greedy_ok s1 Hr1 Hn1) as (s2 & E2 & Hok2 & Hlen2 & Hrows2).
  exists g1, (set_search (GreedySearch s2) (set_computed false g1)), s2. split; [done|].
  split; [unfold GenerateNextToken; rewrite Ec1; cbn [negb]; change (search_ (set_computed false g1)) with (search_ g1); by rewrite Es1, E2|].
  split; [|done]. split; try done.
  - rewrite Hlen2. unfold search_length in Hlen |- *. rewrite Eseq. lia.
  - intros b Hb. destruct (Hrows b Hb) as (l & ended & He & Hrow & Hl & l0 & Hl0 & Hgen). specialize (Hrows2 b Hb).
    rewrite Eeos, He in Hrows2. assert (row_of s1 b = row_of s b) as Er by (unfold row_of; by rewrite Eseq). rewrite Er, Hrow in Hrows2.
    destruct ended.
    + destruct Hrows2 as [Hr2 He2], Hgen as [n ->]. eexists _, true. split; [exact He2|]. split; [by rewrite Hr2, <- app_assoc|].
      split; [rewrite length_app; simpl; lia|]. exists l0. split; [done|]. exists (Datatypes.S n).
      rewrite <- app_assoc. cbn [app]. by rewrite (replicate_S_end n).
    + subst l. destruct Hrows2 as (t & Ht & Hr2 & He2). eexists _, _. split; [exact He2|]. split; [by rewrite Hr2, <- app_assoc|].
      split; [rewrite length_app; simpl; lia|].
      destruct (bool_decide_reflect (t = gp_eos_token_id p)) as [->|Hne]; [exists l0; split; [done|by exists O]|].
      exists (l0 ++ [t]). split; [|done]. apply Forall_app. split; [done|]. by apply Forall_singleton.
Qed.

(** *** Construction and the whole loop *)
Lemma Generator_new_greedy w : start w ->
  ∃ g s, Generator_new L p context_length w = Ok g ∧ greedy_gen 0 g s ∧ search_done_ (g_cpu s) = false.
Proof.
  intros Hw. destruct (gs_length _ Hsetup) as [H1 H2]. pose proof (gs_params _ Hsetup) as Hp. pose proof (po_batch p Hp) as Hb.
  pose proof (gs_vocab _ Hsetup) as Hv. pose proof (po_length p Hp) as Hs. unfold Generator_new.
  destruct (Z.eqb_spec (max_length (gp_search p)) 0) as [?|_]; [lia|].
  destruct (Z.ltb_spec context_length (max_length (gp_search p))) as [?|_]; [lia|].
  destruct (Z.ltb_spec (batch_size p) 1) as [?|_]; [lia|]. destruct (Z.ltb_spec (gp_vocab_size p) 1) as [?|_]; [lia|].
  destruct (Z.leb_spec (max_length (gp_search p)) (sequence_length p)) as [?|_]; [lia|].
  unfold CreateSearch. rewrite (gs_beams _ Hsetup). cbn [Z.ltb Z.compare Pos.compare Pos.compare_cont].
  destruct (GreedySearch_Cpu_new_ok p G (l_seed L) (l_random L) (p_seq p)) as (s & -> & Hok & Hlen & Hseen & Hrows & Hl).
  { unfold n_batch. lia. }
  { unfold n_beams. by rewrite (gs_beams _ Hsetup). }
  { done. }
  { apply (po_prompt p Hp). }
  { unfold p_seq, n_max. lia. }
  { apply (gs_int _ Hsetup). }
  { rewrite (BatchBeamSize_ok p Hp). by eexists. }
  rewrite !bind_Ok. cbn [cpu_of].
  destruct (create_law w (sequence_lengths_ (g_cpu s)) Hw) as (st & l' & w' & -> & Hst); [by rewrite greedy_rows|].
  rewrite bind_Ok. cbv beta iota. eexists _, (set_cpu (set_sequence_lengths l' (g_cpu s)) s). split; [reflexivity|].
  split.
  - split; try done; [destruct Hok; by split|unfold search_length in *; simpl; rewrite Hlen; lia|].
    intros b Hlt. exists [], false. split; [cbn [eos_seen_ set_cpu]; by rewrite Hseen, lookup_replicate_2|]. split; [|split; [done|by exists []]].
    rewrite app_nil_r. unfold row_of. cbn [g_cpu set_cpu set_sequence_lengths sequences].
    pose proof (lookup_rows (sequences (g_cpu s)) b) as Hlook. rewrite (go_rows p s Hok), Hrows in Hlook. specialize (Hlook Hlt).
    rewrite (expand_input_row p Hp 1) in Hlook by lia. rewrite Nat.div_1_r in Hlook. congruence.
  - cbn [g_cpu set_cpu set_sequence_lengths search_done_]. destruct (search_done_ (g_cpu s)) eqn:E; [|done].
    apply (go_done p s Hok) in E. rewrite Hseen, not_done_replicate, Hlen in E. unfold n_batch, n_max, p_seq in E. lia.
Qed.

Lemma greedy_turns : turns L p (fun k g => ∃ s, greedy_gen k g s).
Proof.
  intros k g (s & Hg). pose proof Hg as [Es Hok Hlen Hc _ _]. rewrite Es. cbn [cpu_of]. split; [done|].
  destruct (go_wf p s Hok) as [Hw Hwf]. split; [|split; [by split|split; [by rewrite (go_rows p s Hok)|]]].
  - rewrite (go_max p s Hok) in Hwf. unfold search_length, GetSequenceLength in Hlen. lia.
  - intros Hd. destruct (greedy_turn k g s Hg Hd) as (g1 & g2 & s2 & E1 & E2 & Hg2 & _). exists g1, g2. split; [done|]. split; [done|]. by exists s2.
Qed.
End setup.

(** C1: with one beam [Generate] returns, for the greatest score and for
    sampling by top p, with or without top k (but for [SampleTopK], which a top k
    above 1 with a top p of 0 or 1 chooses: it samples ended entries on).  A
    repetition penalty other than 1 must be a positive float, and the tokens it
    scores of the vocabulary.  Whatever is drawn, and whatever scores of [T] the
    model gives (numbers; finite ones to sample from), every sequence returned is
    a whole prompt followed by at least one generated token and as many as any
    other's: tokens of the vocabulary, of which at most the last is the end of
    sequence, and padding after that, within the maximum length.  Short of the maximum
    length it stops only when all sequences have ended. *)
Theorem Generate_greedy (context_length : Z) (w : W) (fuel : nat) :
  greedy_setup context_length -> start w -> (n_max p - p_seq p < fuel)%nat ->
  ∃ result k, Generate L p fuel context_length w = Ok result ∧ length result = n_batch p ∧
    (0 < k)%nat ∧ (p_seq p + k <= n_max p)%nat ∧
    (∀ b, (b < n_batch p)%nat -> ∃ l ended, result !! b = Some (prompt_row p b ++ l) ∧ length l = k ∧ generated ended l ∧
       (ended = true ∨ (p_seq p + k)%nat = n_max p)).
Proof.
  intros Hsetup Hw Hfuel.
  destruct (Generate_turns L p _ context_length w fuel (greedy_turns context_length Hsetup)) as (k & g & E & (s & Hg) & Hd & Hle); [|done|].
  { destruct (Generator_new_greedy context_length Hsetup w Hw) as (g0 & s0 & E0 & Hg0 & _). exists g0. split; [done|]. by exists s0. }
  pose proof Hg as [Es Hok Hlen _ _ Hrows]. rewrite Es in E, Hd. cbn [cpu_of] in E, Hd.
  assert (∀ b ended, eos_seen_ s !! b = Some ended -> ended = true ∨ (p_seq p + k)%nat = n_max p) as Hend.
  { intros b ended He. apply (go_done p s Hok) in Hd as [Hnd|?]; [|right; congruence]. left. destruct ended; [done|].
    pose proof (not_done_insert (eos_seen_ s) b true He). simpl in H. lia. }
  destruct (gs_length _ Hsetup) as [H1 H2]. pose proof (po_length p (gs_params _ Hsetup)) as Hs. pose proof (po_batch p (gs_params _ Hsetup)) as Hb.
  assert (0 < k)%nat as Hk.
  { destruct k as [|k]; [|lia]. destruct (Hrows O) as (l & ended & He & _ & Hl & l0 & _ & Hgen); [unfold n_batch; lia|].
    destruct (Hend O ended He) as [->|?]; [|unfold p_seq, n_max in *; lia]. destruct Hgen as [n ->]. rewrite length_app in Hl. simpl in Hl. lia. }
  eexists _, k. split; [exact E|]. rewrite length_map, length_seq. split; [done|]. split; [done|]. split; [done|].
  intros b Hlt. destruct (Hrows b Hlt) as (l & ended & He & Hrow & Hl & Hgen). exists l, ended.
  rewrite list_lookup_fmap, lookup_seq_lt by done. simpl. change (row (sequences (g_cpu s)) b) with (row_of s b). rewrite Hrow.
  split; [done|]. split; [done|]. split; [done|]. by apply (Hend b).
Qed.
End greedy.

(** ** Several beams *)

(* the summed scores of beams stay in [F] *)
Record sums_ok (T F : f32 -> Prop) : Prop := {
  so_lowest : T f32_lowest;
  so_first : F f0;
  so_others : F (f32_of_Z (-1000000000));
  so_add : ∀ x y, T x -> F y -> F (fadd x y);
  so_number : ∀ x, F x -> is_nan x = false }.

Section beam.
Context {G S W : Type} {I : ModelState S W} (L : Library G) {HL : LibraryLaw L} (p : GeneratorParams).
Context (T F : f32 -> Prop) (HF : sums_ok T F).
Context (start : W -> Prop) (ok : nat -> S -> W -> Prop) {HS : StateLaw I p start ok T}.
Abbreviation gen := (Generator G S W).
Abbreviation token t := (0 <= t < gp_vocab_size p).
Abbreviation pad := (gp_pad_token_id p).
Abbreviation nb := (n_beams p).

Record beam_setup (context_length : Z) : Prop := {
  be_params : params_ok p;
  be_beams : 1 < num_beams (gp_search p);
  be_vocab : 2 <= gp_vocab_size p;
  be_length : 0 < sequence_length p < max_length (gp_search p);
  be_context : max_length (gp_search p) <= context_length;
  be_max : let m := max_length (gp_search p) in m * (m + 1) <= INT_MAX ∧ Z.of_nat (beam_rows p) * (m * (m + 1)) <= 2 * INT_MAX;
  be_scores : Z.of_nat (beam_rows p * n_vocab p) <= INT_MAX;
  be_eos : token (gp_eos_token_id p);
  be_penalty : penalty_ok p T;
  be_mode : do_sample (gp_search p) = false ∨ top_k (gp_search p) = 1 }.

(** The row of a beam goes on from a prompt: its own entry's, or the first. *)
Definition continues (k : nat) (s : BeamSearch_Cpu) (i : nat) : Prop := ∃ r l,
  row (sequences (b_cpu s)) i = prompt_row p r ++ l ∧ length l = k ∧ Forall (fun t => token t ∨ t = pad) l ∧
  (r = (i / nb)%nat ∨ r = O).

(** After [k] tokens. *)
Record beam_gen (k : nat) (g : gen) (s : BeamSearch_Cpu) : Prop := {
  bg_search : search_ g = BeamSearch s;
  bg_ok : ∃ es, beam_ok p s es;
  bg_length : search_length (b_cpu s) = (p_seq p + k)%nat;
  bg_computed : computed_logits_ g = false;
  bg_state : ok k (state_ g) (world_ g);
  bg_scores : Forall F (next_beam_scores_ (beam_scorer_ s));
  bg_next : k = O ∨ ∃ t b, read_all (next_beam_tokens_ (beam_scorer_ s)) = Ok t ∧
    read_all (next_beam_indices_ (beam_scorer_ s)) = Ok b ∧ step_ok p (t, b);
  bg_rows : ∀ i, (i < beam_rows p)%nat -> continues k s i }.

Section setup.
Context (context_length : Z) (Hsetup : beam_setup context_length).

Lemma beam_sizes_ok : beam_sizes p.
Proof.
  destruct Hsetup as [[P1 P2 P3 P4 P5] B1 B2 B3 B4 B5 B6 _ _ _]. unfold beam_rows, p_batch, p_beams in *.
  split; unfold n_batch, n_beams, n_vocab, n_max; try lia. exact B6.
Qed.

Lemma summed_in s : Forall T (next_token_scores_ (b_cpu s)) -> Forall F (next_beam_scores_ (beam_scorer_ s)) ->
  length (next_token_scores_ (b_cpu s)) = (beam_rows p * n_vocab p)%nat ->
  length (next_beam_scores_ (beam_scorer_ s)) = beam_rows p -> Forall F (summed p s).
Proof.
  intros Ht Hf Hl Hb. pose proof (bs_vocab p beam_sizes_ok) as Hv. apply Forall_lookup. intros q x Hq.
  unfold summed, added in Hq. rewrite list_lookup_imap in Hq.
  destruct (next_token_scores_ (b_cpu s) !! q) as [y|] eqn:Ey; [|done]. injection Hq as <-.
  apply lookup_lt_Some in Ey as Hlt. rewrite decide_True by (unfold beam_rows, p_batch, p_beams in Hl; unfold n_batch, n_beams; lia).
  apply (so_add T F HF); [exact (proj1 (Forall_lookup _ _) Ht q y Ey)|].
  destruct (lookup_lt_is_Some_2 (next_beam_scores_ (beam_scorer_ s)) (q / n_vocab p)) as [z Ez].
  { rewrite Hb. apply Nat.Div0.div_lt_upper_bound. lia. }
  rewrite nth_lookup, Ez. exact (proj1 (Forall_lookup _ _) Hf _ z Ez).
Qed.

(* a candidate has one of the scores and names a token and a beam *)
Lemma best_cands_in l cs c : length l = (nb * n_vocab p)%nat -> Forall F l -> best_cands p l cs -> c ∈ cs ->
  F c.1.1 ∧ token c.1.2 ∧ 0 <= c.2 < Z.of_nat nb.
Proof.
  intros Hl Hf (ix & [Hp _] & ->) (v & -> & Hv)%list_elem_of_fmap. pose proof (bs_vocab p beam_sizes_ok) as Hnv.
  assert (v ∈ ix) as Hv' by (rewrite <- (take_drop (2 * nb) ix); apply elem_of_app; by left).
  rewrite Hp in Hv'. apply elem_of_seq in Hv'. unfold cand_at. cbn [fst snd]. split.
  - apply Forall_nth; [exact Hf|lia].
  - pose proof (Nat.mod_upper_bound v (n_vocab p) ltac:(lia)). split; [unfold n_vocab in *; lia|].
    assert (v / n_vocab p < nb)%nat by (apply Nat.Div0.div_lt_upper_bound; lia). lia.
Qed.

Lemma spec_next_in eos base cs e c : c ∈ spec_next nb pad eos base cs e ->
  c = (f0, pad, 0) ∨ ∃ c', c' ∈ cs ∧ c = (c'.1.1, c'.1.2, Z.of_nat base + c'.2).
Proof.
  unfold spec_next. destruct e.2; [intros [-> _]%elem_of_replicate; by left|].
  intros (c' & -> & Hc')%list_elem_of_fmap. right. exists c'. split; [|done]. unfold selected in Hc'.
  apply (list_elem_of_filter (fun c => ¬ eos_cand eos c) cs). rewrite <- (take_drop nb (filter _ cs)). apply elem_of_app. by left.
Qed.

(* what the next beams of an entry are *)
Lemma next_in s es cs b e c : beam_ok p s es -> Forall F (summed p s) -> length (summed p s) = (beam_rows p * n_vocab p)%nat ->
  es !! b = Some e -> best_cands p (entry_scores p (summed p s) b) (cs b) ->
  c ∈ spec_next nb pad (gp_eos_token_id p) (b * nb) (cs b) e ->
  F c.1.1 ∧ (token c.1.2 ∨ c.1.2 = pad) ∧ 0 <= c.2 < Z.of_nat (beam_rows p) ∧ (Z.to_nat c.2 = O ∨ (Z.to_nat c.2 / nb)%nat = b).
Proof.
  intros Hok Hf Hl He Hcs Hc. pose proof (bs_beams p beam_sizes_ok) as Hnb.
  assert (b < n_batch p)%nat as Hb by (rewrite <- (sr_batch _ _ _ _ _ (bo_scorer p s es Hok)); by eapply lookup_lt_Some).
  pose proof (row_bound b (n_batch p) nb Hb) as Hrow. change (beam_rows p) with (n_batch p * nb)%nat in *.
  apply spec_next_in in Hc as [->|(c' & Hc' & ->)]; cbn [fst snd].
  - split; [apply (so_first T F HF)|]. split; [by right|]. split; [lia|by left].
  - apply (best_cands_in (entry_scores p (summed p s) b)) in Hc' as (H1 & H2 & H3); [|..|exact Hcs].
    + split; [done|]. split; [by left|]. split; [lia|]. right.
      replace (Z.to_nat (Z.of_nat (b * nb) + c'.2)) with (b * nb + Z.to_nat c'.2)%nat by lia.
      rewrite Nat.div_add_l, Nat.div_small by lia. lia.
    + unfold entry_scores. apply length_window. pose proof (row_bound b (n_batch p) (nb * n_vocab p) Hb). lia.
    + unfold entry_scores. by apply Forall_take, Forall_drop.
Qed.

(** A step of the beam search. *)
Lemma SelectTop_beam k s es : beam_ok p s es -> search_length (b_cpu s) = (p_seq p + k)%nat -> (p_seq p + k < n_max p)%nat ->
  Forall T (next_token_scores_ (b_cpu s)) -> length (next_token_scores_ (b_cpu s)) = (beam_rows p * n_vocab p)%nat ->
  Forall F (next_beam_scores_ (beam_scorer_ s)) -> (∀ i, (i < beam_rows p)%nat -> continues k s i) ->
  ∃ s', BeamSearch_SelectTop p (l_pow L) (l_queue L) s = Ok s' ∧ (∃ es', beam_ok p s' es') ∧
    search_length (b_cpu s') = (p_seq p + Datatypes.S k)%nat ∧ Forall F (next_beam_scores_ (beam_scorer_ s')) ∧
    (∃ t b, read_all (next_beam_tokens_ (beam_scorer_ s')) = Ok t ∧ read_all (next_beam_indices_ (beam_scorer_ s')) = Ok b ∧
       step_ok p (t, b)) ∧
    ∀ i, (i < beam_rows p)%nat -> continues (Datatypes.S k) s' i.
Proof.
  intros Hok Hlen Hlt Ht Hl Hf Hrows. pose proof (bo_scorer p s es Hok) as Hrel. pose proof (bs_beams p beam_sizes_ok) as Hnb.
  assert (length (summed p s) = (beam_rows p * n_vocab p)%nat) as Hls by (unfold summed; by rewrite length_added).
  assert (Forall F (summed p s)) as Hsum by (apply summed_in; try done; apply (sr_scores _ _ _ _ _ Hrel)).
  destruct (BeamSearch_SelectTop_step p (l_pow L) (l_queue L) s es beam_sizes_ok Hok ltac:(lia) Hl)
    as (s' & cs & E & Hcs & Hok' & Hrow' & Hlen' & Hnx).
  { intros b _. unfold entry_scores. apply Forall_take, Forall_drop. eapply Forall_impl; [exact Hsum|]. apply (so_number T F HF). }
  set (nx := fun b => match es !! b with Some e => spec_next nb pad (gp_eos_token_id p) (b * nb) (cs b) e | None => [] end).
  assert (∀ b, (b < n_batch p)%nat -> next_beams nb (beam_scorer_ s') b (nx b) ∧ length (nx b) = nb ∧
    ∀ c, c ∈ nx b -> F c.1.1 ∧ (token c.1.2 ∨ c.1.2 = pad) ∧ 0 <= c.2 < Z.of_nat (beam_rows p) ∧
      (Z.to_nat c.2 = O ∨ (Z.to_nat c.2 / nb)%nat = b)) as Hn.
  { intros b Hb. unfold nx. destruct (lookup_lt_is_Some_2 es b) as [e He]; [by rewrite (sr_batch _ _ _ _ _ Hrel)|]. rewrite He.
    destruct (Hnx b e He) as [N1 N2]. split; [exact N1|]. split; [exact N2|]. intros c Hc. by apply (next_in s es cs b e c Hok Hsum Hls He (Hcs b Hb)). }
  pose proof (bo_scorer p s' _ Hok') as Hrel'.
  exists s'. split; [exact E|]. split; [by eexists|]. split; [lia|].
  assert (next_beam_scores_ (beam_scorer_ s') = blocks (fun b => map (fun c => c.1.1) (nx b)) (n_batch p)) as Es.
  { apply (windows_blocks _ nb); [apply (sr_scores _ _ _ _ _ Hrel')|]. intros b Hb. by apply Hn. }
  assert (read_all (next_beam_tokens_ (beam_scorer_ s')) = Ok (blocks (fun b => map (fun c => c.1.2) (nx b)) (n_batch p))) as Et.
  { apply (read_all_blocks _ _ _ nb); [apply (sr_tokens _ _ _ _ _ Hrel')|]. intros b Hb. rewrite map_map. by apply Hn. }
  assert (read_all (next_beam_indices_ (beam_scorer_ s')) = Ok (blocks (fun b => map snd (nx b)) (n_batch p))) as Ei.
  { apply (read_all_blocks _ _ _ nb); [apply (sr_indices _ _ _ _ _ Hrel')|]. intros b Hb. rewrite map_map. by apply Hn. }
  split; [|split].
  - rewrite Es. apply Forall_forall. intros x Hx. apply elem_of_blocks in Hx as (b & Hb & (c & -> & Hc)%list_elem_of_fmap).
    destruct (Hn b Hb) as (_ & _ & H). by apply H.
  - eexists _, _. split; [exact Et|]. split; [exact Ei|]. split; [|split].
    + cbn [fst]. apply length_blocks. intros b Hb. rewrite length_map. by apply Hn.
    + right. cbn [snd]. split; [apply length_blocks; intros b Hb; rewrite length_map; by apply Hn|].
      apply Forall_forall. intros x Hx. apply elem_of_blocks in Hx as (b & Hb & (c & -> & Hc)%list_elem_of_fmap).
      destruct (Hn b Hb) as (_ & _ & H). by apply H.
    + right. cbn [snd]. intros Hnil. apply (f_equal length) in Hnil. pose proof (bs_batch p beam_sizes_ok).
      rewrite (length_blocks _ nb) in Hnil by (intros b Hb; rewrite length_map; by apply Hn). simpl in Hnil. nia.
  - intros i Hi. change (beam_rows p) with (n_batch p * nb)%nat in Hi.
    assert (i / nb < n_batch p)%nat as Hb by (apply Nat.Div0.div_lt_upper_bound; lia).
    pose proof (Nat.mod_upper_bound i nb ltac:(lia)) as Hj. pose proof (Nat.div_mod_eq i nb) as Ei'.
    destruct (lookup_lt_is_Some_2 es (i / nb)) as [e He]; [by rewrite (sr_batch _ _ _ _ _ Hrel)|].
    destruct (Hn (i / nb)%nat Hb) as (_ & Hln & Hin). unfold nx in Hln, Hin. rewrite He in Hln, Hin.
    destruct (lookup_lt_is_Some_2 (spec_next nb pad (gp_eos_token_id p) (i / nb * nb) (cs (i / nb)%nat) e) (i mod nb)%nat) as [c Hc]; [by rewrite Hln|].
    pose proof (Hrow' _ e _ c He Hc) as Er. replace (i / nb * nb + i mod nb)%nat with i in Er by lia.
    destruct (Hin c (list_elem_of_lookup_2 _ _ _ Hc)) as (_ & Htok & Hrange & Hfrom).
    destruct (Hrows (Z.to_nat c.2) ltac:(lia)) as (r & l & E1 & E2 & E3 & E4). exists r, (l ++ [c.1.2]).
    split; [by rewrite Er, E1, <- app_assoc|]. split; [rewrite length_app; simpl; lia|].
    split; [apply Forall_app; split; [done|by apply Forall_singleton]|].
    destruct E4 as [E4|E4]; rewrite E4; [|by right]. destruct Hfrom as [Hz|Hz]; rewrite Hz; [right; apply Nat.Div0.div_0_l|by left].
Qed.

(** One turn of the loop of [Generate]. *)
Lemma beam_turn k g s : beam_gen k g s -> search_done_ (b_cpu s) = false ->
  ∃ g1 g2 s2, ComputeLogits L p g = Ok g1 ∧ GenerateNextToken L p g1 = (Ok (), g2) ∧ beam_gen (Datatypes.S k) g2 s2.
Proof.
  intros Hg Hd. pose proof Hg as [Es [es Hok] Hlen Hc Hst Hf Hnext Hrows]. destruct Hsetup as [Hp B1 B2 B3 B4 B5 B6 B7 B8 B9].
  assert (p_seq p + k < n_max p)%nat as Hlt.
  { destruct (bo_wf p s es Hok) as [[_ Hwf] _]. rewrite (bo_max p s es Hok) in Hwf. unfold search_length, GetSequenceLength in Hlen.
    assert (p_seq p + k ≠ n_max p)%nat; [|lia]. intros E. assert (search_done_ (b_cpu s) = true); [|congruence].
    apply (bo_done p s es Hok). unfold search_length, GetSequenceLength. lia. }
  destruct (ComputeLogits_ok L p T start ok k g) as (g1 & l & E1 & Es1 & Ec1 & Hst1 & Hl & Hin); rewrite ?Es; cbn [cpu_of]; try done.
  - destruct B5 as [B5 B5']. apply (mask_int_mono p (n_max p)); [|lia]. unfold mask_int, n_max. nia.
  - apply (bo_wf p s es Hok).
  - apply (bo_rows p s es Hok).
  - intros Hpen i Hi. destruct B8 as [?|(Hpr & Hpad & _)]; [congruence|].
    destruct (Hrows i Hi) as (r & l & -> & _ & Hl & _). apply Forall_app. split.
    + unfold prompt_row, tensor_row. by apply Forall_take, Forall_drop.
    + eapply Forall_impl; [exact Hl|]. intros t [?| ->]; done.
  - rewrite Es in Es1. cbn [cpu_of with_cpu] in Es1. set (s1 := mkBeam (set_scores l (b_cpu s)) (beam_scorer_ s)) in *.
    assert (beam_ok p s1 es) as Hok1 by (destruct Hok; by split).
    destruct (SelectTop_beam k s1 es Hok1 Hlen Hlt) as (s2 & E2 & Hok2 & Hlen2 & Hf2 & Hnext2 & Hrows2); try done.
    { apply Forall_lookup. intros q x Hq. cbn [s1 b_cpu set_scores next_token_scores_] in Hq. pose proof (bs_vocab p beam_sizes_ok) as Hv.
      apply lookup_lt_Some in Hq as Hlq. rewrite Hl in Hlq.
      assert (q / n_vocab p < beam_rows p)%nat as Hb by (apply Nat.Div0.div_lt_upper_bound; lia).
      pose proof (Nat.mod_upper_bound q (n_vocab p) ltac:(lia)) as Hm. pose proof (Nat.div_mod_eq q (n_vocab p)) as Eq.
      apply (processed_in p T (q mod n_vocab p)%nat); [apply (so_lowest T F HF)|done|]. apply (Hin _ Hb). unfold scores_row. rewrite lookup_window by done.
      by replace (q / n_vocab p * n_vocab p + q mod n_vocab p)%nat with q by lia. }
    exists g1, (set_search (BeamSearch s2) (set_computed false g1)), s2. split; [done|]. split; [|by split; auto].
    unfold GenerateNextToken. rewrite Ec1. cbn [negb]. change (search_ (set_computed false g1)) with (search_ g1). rewrite Es1.
    unfold choose_next_token. assert (negb (do_sample (gp_search p)) || (top_k (gp_search p) =? 1) = true) as ->.
    { destruct B9 as [-> | ->]; [done|by rewrite orb_true_r]. }
    simpl. by rewrite E2.
Qed.

Lemma beam_turns : turns L p (fun k g => ∃ s, beam_gen k g s).
Proof.
  intros k g (s & Hg). pose proof Hg as [Es [es Hok] Hlen Hc _ _ _ _]. rewrite Es. cbn [cpu_of]. split; [done|].
  destruct (bo_wf p s es Hok) as [[Hw Hwf] _]. split; [|split; [by split|split]].
  - rewrite (bo_max p s es Hok) in Hwf. unfold search_length, GetSequenceLength in Hlen. lia.
  - rewrite (bo_rows p s es Hok). pose proof (bs_beams p beam_sizes_ok). nia.
  - intros Hd. destruct (beam_turn k g s Hg Hd) as (g1 & g2 & s2 & E1 & E2 & Hg2). exists g1, g2. split; [done|]. split; [done|]. by exists s2.
Qed.

Lemma Generator_new_beam w : start w -> ∃ g, Generator_new L p context_length w = Ok g ∧ ∃ s, beam_gen O g s.
Proof.
  intros Hw. destruct Hsetup as [Hp B1 B2 B3 B4 [B5 B5'] B6 B7 B8 B9]. pose proof (po_batch p Hp) as Hb. unfold Generator_new.
  destruct (Z.eqb_spec (max_length (gp_search p)) 0) as [?|_]; [lia|].
  destruct (Z.ltb_spec context_length (max_length (gp_search p))) as [?|_]; [lia|].
  destruct (Z.ltb_spec (batch_size p) 1) as [?|_]; [lia|]. destruct (Z.ltb_spec (gp_vocab_size p) 1) as [?|_]; [lia|].
  destruct (Z.leb_spec (max_length (gp_search p)) (sequence_length p)) as [?|_]; [lia|].
  unfold CreateSearch. rewrite (proj2 (Z.ltb_lt 1 (num_beams (gp_search p))) B1).
  destruct (BeamSearch_Cpu_new_ok p (p_seq p)) as (s & -> & Hok & Hlen & Hrows & Hl & Hsc).
  { unfold n_batch. lia. }
  { unfold n_beams. lia. }
  { apply (po_prompt p Hp). }
  { unfold p_seq. lia. }
  { unfold p_seq, n_max. lia. }
  { rewrite (BatchBeamSize_ok p Hp). by eexists. }
  { done. }
  { exact B5'. }
  rewrite !bind_Ok. cbn [cpu_of].
  destruct (create_law w (sequence_lengths_ (b_cpu s)) Hw) as (st & l' & w' & -> & Hst); [exact Hl|].
  rewrite bind_Ok. cbv beta iota. eexists. split; [reflexivity|]. exists (mkBeam (set_sequence_lengths l' (b_cpu s)) (beam_scorer_ s)).
  pose proof (bs_beams p beam_sizes_ok) as Hnb. pose proof (bo_scorer p s _ Hok) as Hrel.
  split; try done; [eexists; destruct Hok; by split|cbn [b_cpu]; unfold search_length in *; simpl; lia| |by left|].
  - cbn [beam_scorer_]. apply Forall_lookup. intros i x Hi. apply lookup_lt_Some in Hi as Hlt. rewrite (sr_scores _ _ _ _ _ Hrel) in Hlt.
    assert (i / nb < n_batch p)%nat as Hdiv by (apply Nat.Div0.div_lt_upper_bound; lia).
    pose proof (Nat.mod_upper_bound i nb ltac:(lia)) as Hm. pose proof (Nat.div_mod_eq i nb) as Ei.
    specialize (Hsc _ _ Hdiv Hm). replace (i / nb * nb + i mod nb)%nat with i in Hsc by lia. rewrite Hi in Hsc. injection Hsc as ->.
    destruct (decide _); [apply (so_first T F HF)|apply (so_others T F HF)].
  - intros i Hi. exists (i / nb)%nat, []. rewrite app_nil_r. split; [|by auto].
    cbn [b_cpu set_sequence_lengths sequences]. pose proof (lookup_rows (sequences (b_cpu s)) i) as Hlook.
    rewrite (bo_rows p s _ Hok), Hrows in Hlook. specialize (Hlook Hi). rewrite (expand_input_row p Hp nb) in Hlook by done. congruence.
Qed.
End setup.

(** C2: with several beams and no sampling [Generate] returns, for scores whose
    sums with a beam's are numbers.  Every sequence it returns has the maximum
    length, whether or not all entries are done; sequence [i] goes on from the
    prompt of entry [i / num_beams], since it is that beam's and not the best of
    entry [i], or from the first prompt. *)
Theorem Generate_beam (context_length : Z) (w : W) (fuel : nat) :
  beam_setup context_length -> start w -> (n_max p - p_seq p < fuel)%nat ->
  ∃ result, Generate L p fuel context_length w = Ok result ∧ length result = n_batch p ∧
    ∀ i, (i < n_batch p)%nat -> ∃ r l, result !! i = Some (prompt_row p r ++ l) ∧ (p_seq p + length l)%nat = n_max p ∧
      Forall (fun t => token t ∨ t = pad) l ∧ (r = (i / nb)%nat ∨ r = O).
Proof.
  intros Hsetup Hw Hfuel.
  destruct (Generate_turns L p _ context_length w fuel (beam_turns context_length Hsetup)) as (k & g & E & (s & Hg) & Hd & _); [|done|].
  { by apply (Generator_new_beam context_length Hsetup). }
  pose proof Hg as [Es [es Hok] Hlen _ _ _ _ Hrows]. rewrite Es in E, Hd. cbn [cpu_of] in E, Hd. apply (bo_done p s es Hok) in Hd.
  eexists. split; [exact E|]. rewrite length_map, length_seq. split; [done|]. intros i Hi.
  pose proof (bs_beams p (beam_sizes_ok context_length Hsetup)) as Hnb.
  destruct (Hrows i) as (r & l & E1 & E2 & E3 & E4); [change (beam_rows p) with (n_batch p * nb)%nat; nia|].
  exists r, l. rewrite list_lookup_fmap, lookup_seq_lt by done. cbn [fmap option_fmap option_map Nat.add]. rewrite E1. split; [done|].
  split; [congruence|]. by split.
Qed.
End beam.

(** ** The decoder models as states of a generator *)

(* a span is read where it is used: the first run does not look at it *)
Definition read_arg (d : Decoder_State) (span : list (option Z)) : outcome (list Z) :=
  if first_run_ (ds_state d) then Ok [] else read_all span.

Definition as_ModelState (create : list (option Z) -> heap -> outcome (Decoder_State * list (option Z) * heap))
    (run : Z -> list Z -> list Z -> run_options -> Decoder_State -> heap -> outcome (list f32 * run_options * Decoder_State * heap))
  : ModelState Decoder_State (run_options * heap) := {|
  CreateState := fun lengths w => '(d, lengths, h) ← create lengths (snd w); Ok (d, lengths, (fst w, h));
  Run := fun current_length toks idx d w =>
    toks ← read_arg d toks; idx ← read_arg d idx;
    '(scores, o, d, h) ← run current_length toks idx (fst w) d (snd w); Ok (scores, d, (o, h)) |}.

Section decoders.
Context (oversize : Z -> Z -> Z) (f : session) (m : model) (p : GeneratorParams) (lty : ONNXTensorElementDataType).
Context (ext : list ptr) (graph : option CapturedGraphInfo) (T : f32 -> Prop).

#[export] Instance DecoderOnly_ModelState : ModelState Decoder_State (run_options * heap) :=
  as_ModelState (Decoder_State_new (K := KV_Cache_impl) m p) (DecoderOnly_Run (K := KV_Cache_impl) oversize f m p graph).
#[export] Instance Gpt_ModelState : ModelState Decoder_State (run_options * heap) :=
  as_ModelState (Decoder_State_new (K := KV_Cache_Combined_impl) m p) (Gpt_Run (K := KV_Cache_Combined_impl) oversize f m p).

(** The session's scores are in [T], and it fits the model and the caller's tensors. *)
Record session_setup : Prop := {
  ss_session : SessionLaw f;
  ss_device : device_type_ m = CPU;
  ss_graph : use_cuda_graph p = false;
  ss_params : params_ok p;
  ss_io : model_io_ok m lty;
  ss_eos : eos_ok m (n_vocab p);
  ss_prompt : prompt_tokens p (n_vocab p);
  ss_extra : owned_ptrs ext (extra_ptrs p);
  ss_scores k o toks scores : run_scores oversize f m p lty k o toks scores -> Forall T scores }.

Definition start (w : run_options * heap) : Prop := live (snd w) ext.

Lemma as_ModelState_law {K : CacheImpl} shape run : CacheLaw K m p shape -> session_setup ->
  (∀ len toks beams o d h d1 h1, update_unless_first m p len toks beams d h = Ok (d1, h1) ->
    ∃ graph b, run len toks beams o d h = run_and_get oversize f m p graph b o d1 h1) ->
  StateLaw (as_ModelState (Decoder_State_new m p) run) p start (fun k d w => Decoders.ready m p shape ext lty k d (snd w)) T.
Proof.
  intros HK [Hf Hdev Hg Hp Hio Heos Htok Hext Hnum] Hrun. split.
  - intros w lengths Hw Hlen. cbn [CreateState as_ModelState].
    destruct (Decoder_State_new_ok m p shape Hdev Hp ext lty lengths (snd w) Hio Hw Hlen) as (d & h & mid & -> & Hok & _ & Ht).
    rewrite bind_Ok. eexists _, _, _. split; [reflexivity|]. by exists mid.
  - intros k d w toks idx Hr Hstep Hmax. cbn [Run as_ModelState].
    assert (∃ t b, read_arg d toks = Ok t ∧ read_arg d idx = Ok b ∧ (k = O ∨ step_ok p (t, b))) as (t & b & -> & -> & Hs).
    { unfold read_arg. destruct Hr as [mid Hr]. destruct k as [|k].
      - destruct Hr as [Hok _]. rewrite (dk_first _ _ _ _ _ _ _ _ _ _ _ _ Hok). exists [], []. auto.
      - destruct Hr as [nr Hok]. rewrite (dk_first _ _ _ _ _ _ _ _ _ _ _ _ Hok).
        destruct Hstep as [?|(t & b & E1 & E2 & E3)]; [done|]. exists t, b. auto. }
    rewrite !bind_Ok.
    destruct (run_step oversize f m p shape Hdev Hp ext Hext lty Hg Heos Htok k t b (fst w) d (snd w) Hr Hs Hmax)
      as (d1 & h1 & E1 & H1).
    destruct (Hrun _ _ _ (fst w) _ _ _ _ E1) as (gr & bs & ->). destruct (H1 gr bs) as (scores & d' & h' & -> & Hr' & _ & Hsc).
    rewrite bind_Ok. eexists _, _, _. split; [reflexivity|]. split; [exact Hr'|]. split; [|by eapply Hnum].
    by destruct Hsc as (ins & outs & raw & _ & _ & Hl & _).
Qed.

#[export] Instance DecoderOnly_law :
  layers_ok m [past_key_names (dec_in m); past_value_names (dec_in m)] [present_key_names (dec_out m); present_value_names (dec_out m)] ->
  session_setup ->
  StateLaw DecoderOnly_ModelState p start (fun k d w => Decoders.ready m p (KV_Cache_shape m p) ext lty k d (snd w)) T.
Proof.
  intros Hl Hs. apply as_ModelState_law; [by apply KV_Cache_law; [apply Hs|]|done|].
  intros len toks beams o d h d1 h1 E. exists graph, (batch_size_of d1). unfold DecoderOnly_Run. by rewrite E, bind_Ok.
Qed.

#[export] Instance Gpt_law :
  layers_ok m [past_names (dec_in m)] [present_names (dec_out m)] -> session_setup ->
  StateLaw Gpt_ModelState p start (fun k d w => Decoders.ready m p (KV_Cache_Combined_shape m p) ext lty k d (snd w)) T.
Proof.
  intros Hl Hs. apply as_ModelState_law; [by apply KV_Cache_Combined_law; [apply Hs|]|done|].
  intros len toks beams o d h d1 h1 E. exists None, (batch_size_of d). unfold Gpt_Run. by rewrite E, bind_Ok.
Qed.
End decoders.

(** *** Whisper *)
Section whisper.
Context (oversize : Z -> Z -> Z) (encoder decoder : session) (encoder_info : SessionInfo) (m : model) (p : GeneratorParams).
Context (lty fty : ONNXTensorElementDataType) (rows : nat) (dims : list nat) (ext : list ptr) (T : f32 -> Prop).

(* the tokens and beams are read by the runs of the decoder *)
Definition read_decoder_arg (w : Whisper_State) (span : list (option Z)) : outcome (list Z) :=
  match run_state_ w with Encoder_Decoder_Init => Ok [] | _ => read_all span end.

(** The world holds the caller's features, which the constructor may move away. *)
#[export] Instance Whisper_ModelState : ModelState Whisper_State (run_options * option ptr * heap) := {|
  CreateState := fun lengths '(o, features, h) =>
    '(w, features, lengths, h) ← Whisper_State_new encoder_info m p (Some features) lengths h; Ok (w, lengths, (o, features, h));
  Run := fun current_length toks idx w '(o, features, h) =>
    toks ← read_decoder_arg w toks; idx ← read_decoder_arg w idx;
    '(scores, o, w, h) ← Whisper_Run oversize encoder decoder m p current_length toks idx o w h; Ok (scores, w, (o, features, h)) |}.

Record whisper_session_setup : Prop := {
  sws_encoder : SessionLaw encoder;
  sws_decoder : SessionLaw decoder;
  sws_device : device_type_ m = CPU;
  sws_graph : use_cuda_graph p = false;
  sws_params : params_ok p;
  sws_io : whisper_io_ok encoder_info m lty;
  sws_eos : eos_ok m (n_vocab p);
  sws_prompt : prompt_tokens p (n_vocab p);
  sws_extra : owned_ptrs ext (extra_ptrs p);
  sws_rows : rows ≠ O;
  sws_type : ∃ n, SizeOf fty = Ok n;
  sws_scores n f o ins outs scores : f = encoder ∨ f = decoder ->
    scores_of oversize m p lty n (f o ins outs) scores -> Forall T scores }.

Definition whisper_start (w : run_options * option ptr * heap) : Prop :=
  ∃ features mel, w.1.2 = Some features ∧ live w.2 (features :: ext) ∧ tensors w.2 !! features = Some (mkOrt fty (rows :: dims) mel).

Definition whisper_at (k : nat) (s : Whisper_State) (w : run_options * option ptr * heap) : Prop :=
  ∃ ext', owned_ptrs ext' (extra_ptrs p) ∧
  match k with
  | O => whisper_ok m p lty ext' (p_seq p) (p_seq p) 0 s w.2 ∧ encoder_lists m p s
  | S _ => ∃ x ds, whisper_ready m p lty ext' x ds k s w.2
  end.

#[export] Instance Whisper_law : whisper_session_setup -> StateLaw Whisper_ModelState p whisper_start whisper_at T.
Proof.
  intros [He Hd Hdev Hg Hp Hio Heos Htok Hext Hrows Hty Hnum]. split.
  - intros [[o fs] h] lengths (features & mel & Ef & Hl & Hf) Hlen. cbn [fst snd] in Ef, Hl, Hf. subst fs. cbn [CreateState Whisper_ModelState].
    destruct (Whisper_State_new_ok encoder_info m p Hdev Hp lty Hio features fty rows dims mel ext lengths h Hl Hf Hrows Hty Hlen)
      as (w0 & left & h0 & q & -> & Hok0 & Hel & _).
    rewrite bind_Ok. eexists _, _, _. split; [reflexivity|]. exists (left_to_caller p features ext). split; [|done].
    eapply owned_mono; [|exact Hext]. unfold left_to_caller. destruct (decide _); [done|]. intros r Hr. by right.
  - intros k s [[o fs] h] toks idx (ext' & Hext' & Hk) Hstep Hmax. cbn [snd] in Hk. cbn [Run Whisper_ModelState].
    destruct k as [|k].
    + destruct Hk as [Hok Hel].
      destruct (encoder_run_ok oversize encoder m p Hdev Hp lty ext' Hext' Hg Heos Htok (i32 (Z.of_nat (rows_of s))) o s h Hok Hel)
        as (scores & w1 & h1 & eins & eouts & E1 & Hok1 & Hst1 & Ex1 & _ & _ & _ & Hsc & Hcross).
      unfold read_decoder_arg, Whisper_Run. rewrite (el_state _ _ _ Hel), !bind_Ok, E1, bind_Ok.
      eexists _, _, _. split; [reflexivity|]. split; [|split].
      * exists ext'. split; [done|]. do 2 eexists. split; [reflexivity|]. split; [exact Hcross|]. exists (p_seq p). split; [done|]. by left.
      * destruct Hsc as (raw & _ & L & _). exact L.
      * apply (Hnum _ _ _ _ _ _ (or_introl eq_refl) Hsc).
    + destruct Hk as (x & ds & Hr). destruct Hstep as [?|(t & b & Et & Eb & Hs)]; [done|].
      assert (read_decoder_arg s toks = Ok t ∧ read_decoder_arg s idx = Ok b) as [-> ->].
      { unfold read_decoder_arg. destruct Hr as (_ & _ & nr & _ & [-> | [mid Hl]]); [done|]. by rewrite (dl_state _ _ _ _ Hl). }
      rewrite !bind_Ok.
      destruct (whisper_step oversize encoder decoder encoder_info m p Hdev Hp lty Hio ext' Hg Heos Htok x ds (S k) t b o s h Hr Hs)
        as (scores & w' & h' & -> & Hr' & _ & ins & outs & _ & Hsc).
      rewrite bind_Ok. eexists _, _, _. split; [reflexivity|]. split; [|split].
      * exists ext'. split; [done|]. by exists x, ds.
      * destruct Hsc as (raw & _ & L & _). exact L.
      * apply (Hnum _ _ _ _ _ _ (or_intror eq_refl) Hsc).
Qed.
End whisper.

(** *** The vision pipeline *)
Section vision.
Context (oversize : Z -> Z -> Z) (fe fv fd : session) (m : model) (p : GeneratorParams) (graph : option CapturedGraphInfo).
Context (lty ety : ONNXTensorElementDataType) (n : nat) (ext : list ptr) (T : f32 -> Prop).

(* the tokens and beams are read by the runs after the prompt's *)
Definition read_pipeline_arg (pl : MultiModalPipelineState) (span : list (option Z)) : outcome (list Z) :=
  if is_prompt_ pl then Ok [] else read_all span.

#[export] Instance Vision_ModelState : ModelState MultiModalPipelineState (run_options * heap) := {|
  CreateState := fun lengths w => '(pl, lengths, h) ← MultiModalPipelineState_new m p lengths (snd w); Ok (pl, lengths, (fst w, h));
  Run := fun current_length toks idx pl w =>
    toks ← read_pipeline_arg pl toks; idx ← read_pipeline_arg pl idx;
    '(scores, o, pl, h) ← MultiModalPipelineState_Run oversize fe fv fd m p graph current_length toks idx (fst w) pl (snd w);
    Ok (scores, pl, (o, h)) |}.

Record vision_session_setup : Prop := {
  svs_embedding : SessionLaw fe;
  svs_vision : SessionLaw fv;
  svs_decoder : SessionLaw fd;
  svs_device : device_type_ m = CPU;
  svs_graph : use_cuda_graph p = false;
  svs_params : params_ok p;
  svs_io : vision_io_ok m lty ety;
  svs_eos : eos_ok m (n_vocab p);
  svs_prompt : prompt_tokens p (n_vocab p);
  svs_extra : owned_ptrs ext (extra_ptrs p);
  svs_scores vins k o toks scores : pipeline_scores oversize fe fv fd m p lty n vins k o toks scores -> Forall T scores }.

Definition vision_start (w : run_options * heap) : Prop :=
  live (snd w) ext ∧ image m p ety n (snd w).

Definition vision_at (k : nat) (pl : MultiModalPipelineState) (w : run_options * heap) : Prop :=
  (n = O ∨ image_fits m p ety n) ∧ ∃ vins, pipeline_at m p lty ety ext n vins k pl (snd w).

#[export] Instance Vision_law : vision_session_setup -> StateLaw Vision_ModelState p vision_start vision_at T.
Proof.
  intros [He Hv Hd Hdev Hg Hp Hio Heos Htok Hext Hnum]. split.
  - intros [o h] lengths (Hl & Him) Hlen. cbn [fst snd] in *. cbn [CreateState Vision_ModelState].
    destruct (pipeline_new_ok m p Hdev Hp lty ety ext Hext Hio n lengths h Hl Hlen Him) as (pl0 & h0 & vins & E & _ & Hat & _).
    cbn [fst snd]. rewrite E, bind_Ok. eexists _, _, _. split; [reflexivity|]. split; [destruct Him as [[]|[]]; auto|]. by exists vins.
  - intros k s [o h] toks idx (Hn & vins & Hk) Hstep Hmax. cbn [snd] in Hk. cbn [Run Vision_ModelState fst snd]. unfold read_pipeline_arg.
    destruct k as [|k].
    + pose proof Hk as (_ & _ & _ & _ & -> & _). rewrite !bind_Ok.
      destruct (pipeline_first_ok oversize fe fv fd m p graph Hdev Hp Hg lty ety ext Hext Heos Htok n vins (Z.of_nat (p_seq p + 0)) [] [] o s h Hn Hk)
        as (scores & d' & h2 & -> & Hk' & _ & Hsc).
      rewrite bind_Ok. eexists _, _, _. split; [reflexivity|]. split; [split; [done|by exists vins]|]. split; [|by eapply Hnum].
      by destruct Hsc as (? & ? & ? & ? & ? & ? & ? & _ & _ & _ & _ & _ & L & _).
    + pose proof Hk as (_ & _ & _ & _ & _ & _ & -> & _). destruct Hstep as [?|(t & b & -> & -> & Hs)]; [done|]. rewrite !bind_Ok.
      destruct (pipeline_next_ok oversize fe fv fd m p graph Hdev Hp Hg lty ety ext Hio Heos Htok n vins k t b o s h Hk Hs Hmax)
        as (scores & d' & h2 & -> & Hk' & _ & Hsc).
      rewrite bind_Ok. eexists _, _, _. split; [reflexivity|]. split; [split; [done|by exists vins]|]. split; [|by eapply Hnum].
      by destruct Hsc as (? & ? & ? & ? & ? & ? & ? & _ & _ & _ & _ & _ & L & _).
Qed.
End vision.

(** ** Concrete runs *)
Module Examples.
Import Generator.Examples.

(* a session whose outputs are all the same *)
Definition flat_session (bits : Z) : session := fun _ _ outs => map (fun '(_, t) => replicate (element_count (shape t)) bits) outs.

#[export] Instance flat_session_law bits : SessionLaw (flat_session bits).
Proof.
  intros o ins outs. unfold flat_session.
  induction outs as [|[n t] outs IH]; simpl; constructor; [apply length_replicate|done].
Qed.

Lemma flat_scores bits p k o toks scores :
  run_scores Tensors.Examples.no_oversize (flat_session bits) Decoders.Examples.ex_model p T_FLOAT k o toks scores ->
  Forall (eq (f32_of_bits bits)) scores.
Proof.
  intros (ins & outs & raw & _ & Er & _ & ->). unfold flat_session in Er. rewrite list_lookup_fmap in Er.
  destruct (outs !! 0%nat) as [[a u]|]; [|done]. injection Er as <-.
  assert (Forall (eq bits) (replicate (element_count (shape u)) bits)) as H by (by apply Forall_replicate).
  apply Forall_map. change (eos_rows Decoders.Examples.ex_model) with (fun (_ _ : nat) (d : list Z) => d). cbv beta.
  apply (Forall_impl (eq bits)); [|by intros x <-].
  unfold raw_scores. cbn [decide]. destruct (decide (T_FLOAT = T_FLOAT16)) as [?|_]; [done|]. destruct (decide _); [exact H|].
  unfold last_rows, last_row, tensor_row. apply Forall_concat, Forall_map, Forall_true. intros r. by apply Forall_take, Forall_drop.
Qed.

Abbreviation ex_model := Decoders.Examples.ex_model.
(* the prompts and the model of [Decoders.Examples], sampling or not, with one
   beam or two *)
Definition ex_p (sample : bool) (beams : Z) : GeneratorParams :=
  mkParams (set_top_p f1 (set_do_sample sample (set_num_beams beams (set_max_length 6 Search_default)))) 0 3 4 20 2 0 false 3 8 CPU [0; 5; 6; 7; 8; 9] [] false.

Lemma ex_params sample beams : 0 < beams <= 1000 -> params_ok (ex_p sample beams).
Proof.
  intros Hb. split; try done; [apply Hb|]. change (num_beams (gp_search (ex_p sample beams))) with beams. unfold INT_MAX. change (batch_size (ex_p sample beams)) with 2. lia.
Qed.

Lemma ex_session_setup sample beams bits (T : f32 -> Prop) : 0 < beams <= 1000 -> T (f32_of_bits bits) ->
  session_setup Tensors.Examples.no_oversize (flat_session bits) ex_model (ex_p sample beams) T_FLOAT [] T.
Proof.
  intros Hb H1. destruct Decoders.Examples.ex_setup. split; try done.
  - apply flat_session_law.
  - by apply ex_params.
  - split; [right; split; [intros [|[|i]] Hi; [done|done|vm_compute in Hi; lia]|]|].
    + change (4 * Z.of_nat ((2 * Z.to_nat beams) * (3 * 4)) < 2 ^ 64). lia.
    + change (Z.of_nat ((2 * Z.to_nat beams) * 4) <= INT_MAX). unfold INT_MAX. lia.
  - intros k o toks scores H. apply flat_scores in H. eapply Forall_impl; [exact H|]. by intros x <-.
Qed.

Definition ex_world : run_options * heap := (∅, Inputs.Examples.ex_heap0).
Lemma ex_start : start [] ex_world.
Proof. exact (se_live _ _ _ _ _ _ _ _ Decoders.Examples.ex_setup). Qed.

Lemma ex_layers : layers_ok ex_model [past_key_names (dec_in ex_model); past_value_names (dec_in ex_model)]
  [present_key_names (dec_out ex_model); present_value_names (dec_out ex_model)].
Proof. split; [vm_compute; discriminate|]. eexists _, _, _, _. split; [reflexivity|]. by split. Qed.

Definition ex_state (sample : bool) (beams bits : Z) : ModelState Decoder_State (run_options * heap) :=
  DecoderOnly_ModelState Tensors.Examples.no_oversize (flat_session bits) ex_model (ex_p sample beams) None.
Definition ex_generate (L : Library nat) (sample : bool) (beams bits : Z) : nat -> Z -> run_options * heap -> outcome (list (list Z)) :=
  Generate (I := ex_state sample beams bits) L (ex_p sample beams).
Definition one_bits : Z := 1065353216.


(* an exponential that is 1 at 0 and vanishes below *)
Definition step_exp (x : f32) : f32 := match x with SpecFloat.S754_zero _ => f1 | _ => f0 end.
Definition step_library : Library nat :=
  mkLibrary nat step_exp Search.Examples.ex_pow Search.Examples.ex_uniform Search.Examples.ex_discrete
    insertion_sort insertion_sort insertion_sort remove_dups (fun _ => O) O.
#[export] Instance step_library_law : LibraryLaw step_library.
Proof. split; apply _. Qed.
#[export] Instance step_exp_law : ExpLaw step_exp.
Proof. split; [done|]. by intros [s|s| |s m e]. Qed.

Definition whole (result : list (list Z)) : Prop :=
  ∃ k l l', (0 < k <= 3)%nat ∧ result = [[0; 5; 6] ++ l; [7; 8; 9] ++ l'] ∧ length l = k ∧ length l' = k.

Lemma whole_intro k (result : list (list Z)) : length result = 2%nat -> (0 < k)%nat -> (3 + k <= 6)%nat ->
  (∀ b, (b < 2)%nat -> ∃ l e, result !! b = Some (prompt_row (ex_p false 1) b ++ l) ∧ length l = k ∧ generated (ex_p false 1) e l ∧ (e = true ∨ (3 + k)%nat = 6%nat)) ->
  whole result.
Proof.
  intros L H1 H2 H. destruct (H 0%nat) as (l & e & E0 & L0 & _); [lia|]. destruct (H 1%nat) as (l' & e' & E1 & L1 & _); [lia|].
  destruct result as [|r0 [|r1 [|r2 rs]]]; try discriminate L. injection E0 as ->. injection E1 as ->.
  exists k, l, l'. split; [lia|]. exact (conj eq_refl (conj L0 L1)).
Qed.

(* greedy and sampled *)
Lemma Generate_greedy_witness :
  (∃ result, ex_generate ex_library false 1 one_bits 4 20 ex_world = Ok result ∧ whole result) ∧
  (∃ result, ex_generate step_library true 1 one_bits 4 20 ex_world = Ok result ∧ whole result).
Proof.
  split; [pose (sample := false); pose (L := ex_library)|pose (sample := true); pose (L := step_library)].
  all: destruct (Generate_greedy (I := ex_state sample 1 one_bits) L (ex_p sample 1) finite (start []) _
      (HS := DecoderOnly_law Tensors.Examples.no_oversize (flat_session one_bits) ex_model (ex_p sample 1) T_FLOAT [] None finite
        ex_layers (ex_session_setup sample 1 one_bits finite ltac:(lia) eq_refl)) 20 ex_world 4) as (result & k & E & L0 & H1 & H2 & H);
    [|exact ex_start|vm_compute; lia|].
  1, 3: split; try done; [apply finite_number|by left|].
  - by left.
  - right. right. split; [split; try done; apply _|]. split; [done|]. split; [done|by left].
  - exists result. split; [exact E|]. by eapply whole_intro.
  - exists result. split; [exact E|]. by eapply whole_intro.
Defined.

(* scores of 0: the sums are 0, the start of a second beam, or an end of
   sequence that the minimum length put to the lowest float, once or more *)
Definition ex_T (x : f32) : Prop := x ∈ [f0; f32_lowest].
Definition ex_F (x : f32) : Prop := x ∈ [f0; f32_of_Z (-1000000000); f32_lowest; fadd f32_lowest f32_lowest].

Lemma ex_sums : sums_ok ex_T ex_F.
Proof.
  split; unfold ex_T, ex_F; set_solver.
Qed.

(* two prompts, two beams: both results go on from the first prompt *)
Lemma Generate_beam_witness : ∃ l l', ex_generate ex_library false 2 0 4 20 ex_world = Ok [[0; 5; 6] ++ l; [0; 5; 6] ++ l'] ∧
  length l = 3%nat ∧ length l' = 3%nat.
Proof.
  destruct (Generate_beam (I := ex_state false 2 0) ex_library (ex_p false 2) ex_T ex_F ex_sums (start []) _
    (HS := DecoderOnly_law Tensors.Examples.no_oversize (flat_session 0) ex_model (ex_p false 2) T_FLOAT [] None ex_T
      ex_layers (ex_session_setup false 2 0 ex_T ltac:(lia) ltac:(vm_compute; constructor))) 20 ex_world 4) as (result & E & L & H).
  - split; try done; [by left|by left].
  - exact ex_start.
  - vm_compute. lia.
  - destruct (H 0%nat) as (r & l & E0 & L0 & _ & Hr); [vm_compute; lia|].
    destruct (H 1%nat) as (r' & l' & E1 & L1 & _ & Hr'); [vm_compute; lia|].
    assert (r = O) as -> by (by destruct Hr). assert (r' = O) as -> by (by destruct Hr').
    destruct result as [|r0 [|r1 [|r2 rs]]]; try discriminate L. injection E0 as ->. injection E1 as ->.
    exists l, l'. split; [exact E|]. change (3 + length l = 6)%nat in L0. change (3 + length l' = 6)%nat in L1. lia.
Defined.
End Examples.
