(* ===== verification/CApi.v ===== *)
(** * The C interface (src/ort_genai_c.cpp)

    Every call but a few catches what the C++ code throws and returns its message
    ([oga]).  The first half models the calls that do something of their own:
    setting the prompt of the parameters, the calls of a generator, token
    sequences, and the C strings handed out.  The second half is about the
    lifetimes of the objects behind the handles: shared pointers, the owner that
    an object made for the caller keeps to itself, and the destroy calls. *)
From Stdlib Require Import ZArith Lia Ascii.
From Stdlib Require String.
From stdpp Require Import base numbers list strings gmap.
From S2P Require Import Prelude Float32 Config Tensors Params Inputs Models ImagePrompt Search Generator.
Local Open Scope Z_scope.

(** ** Results *)

(* [None] is the null pointer: no error *)
Definition OgaResult : Type := option string.

Section calls.
Context (what : exn -> string).   (* std::exception::what *)

(** OGA_TRY and OGA_CATCH around a call that changes [x] only when it returns. *)
Definition oga {A} (m : outcome A) (x : A) : outcome (OgaResult * A) :=
  match m with Ok y => Ok (None, y) | Throw e => Ok (Some (what e), x) | Undef => Undef end.

(** *** Parameters *)
Definition set_gp_search (s : Config.Search) (p : GeneratorParams) : GeneratorParams :=
  mkParams s (gp_pad_token_id p) (gp_eos_token_id p) (gp_vocab_size p) (gp_context_length p)
    (batch_size p) (max_batch_size p) (use_cuda_graph p) (sequence_length p) (gp_hidden_size p) (device_type p) (prompt p)
    (extra_inputs p) (is_cuda_graph_enabled_ p).
Definition OgaGeneratorParamsSetSearchNumber (name : string) (value : f64) (p : GeneratorParams) : outcome (OgaResult * GeneratorParams) :=
  oga (s ← SetSearchNumber (gp_search p) name value; Ok (set_gp_search s p)) p.
Definition OgaGeneratorParamsSetSearchBool (name : string) (value : bool) (p : GeneratorParams) : outcome (OgaResult * GeneratorParams) :=
  oga (s ← SetSearchBool (gp_search p) name value; Ok (set_gp_search s p)) p.
Definition OgaGeneratorParamsTryGraphCaptureWithMaxBatchSize (max_batch_size : Z) (p : GeneratorParams)
  : outcome (OgaResult * GeneratorParams) := oga (TryGraphCapture max_batch_size p) p.
Definition OgaGeneratorParamsSetInputs (h : heap) (config : Config) (named_tensors : list (string * ptr)) (p : GeneratorParams)
  : outcome (OgaResult * GeneratorParams) := oga (SetInputs h config named_tensors p) p.
Definition OgaGeneratorParamsSetModelInput (name : string) (tensor : ptr) (p : GeneratorParams) : outcome (OgaResult * GeneratorParams) :=
  Ok (None, set_extra_inputs (extra_inputs p ++ [mkInput name tensor]) p).

(* the parameters are set before the check; the product is of ints, the comparison of size_ts *)
Definition OgaGeneratorParamsSetInputIDs (input_ids : list Z) (sequence_length batch_size : Z) (p : GeneratorParams)
  : outcome (OgaResult * GeneratorParams) :=
  let p := set_prompt input_ids (i32 batch_size) (i32 sequence_length) p in
  n ← chk32 (i32 sequence_length * i32 batch_size);
  if u64 n =? Z.of_nat (length input_ids) then Ok (None, p)
  else Ok (Some (what (RuntimeError "sequence length * batch size is not equal to input_ids_count")), p).

Definition OgaGeneratorParamsSetInputSequences (sequences : list (list Z)) (p : GeneratorParams) : outcome (OgaResult * GeneratorParams) :=
  ids ← PadInputs sequences (gp_pad_token_id p);
  let batch := i32 (Z.of_nat (length sequences)) in
  if batch =? 0 then Undef (* division by zero *) else
  Ok (None, set_prompt ids batch (i32 (Z.of_nat (length ids) / u64 batch)) p).

(** *** Sequences and the tokenizer *)
Definition OgaSequencesCount (seqs : list (list Z)) : nat := length seqs.
Definition OgaSequencesGetSequenceCount (seqs : list (list Z)) (i : nat) : outcome nat := s ← get seqs i; Ok (length s).
Definition OgaSequencesGetSequenceData (seqs : list (list Z)) (i : nat) : outcome (list Z) := get seqs i.
Definition OgaTokenizerEncode (tokenize : string -> outcome (list Z)) (text : string) (seqs : list (list Z))
  : outcome (OgaResult * list (list Z)) := oga (ids ← Encode tokenize text; Ok (seqs ++ [ids])) seqs.

(** A decoded string is copied to a buffer of one cell more: strcpy_s with the
    Microsoft compiler; elsewhere strncpy, which fills the buffer with zeros, and
    a zero after it. *)
Fixpoint c_str (s : list ascii) : list ascii :=
  match s with [] => [] | c :: s => if Ascii.eqb c zero then [] else c :: c_str s end.
Definition copy_out (msvc : bool) (s : list ascii) : outcome (list (option ascii)) :=
  let length_ := S (length s) in
  let cstr_buffer := uninit length_ in
  let text := c_str s in
  if msvc then blit cstr_buffer 0 (map Some (text ++ [zero])) else
  cstr_buffer ← blit cstr_buffer 0 (map Some (text ++ replicate (length_ - length text)%nat zero));
  put cstr_buffer length_ (Some zero).
Definition OgaTokenizerDecode (msvc : bool) (detokenize : list Z -> outcome string) (tokens : list Z)
  : outcome (OgaResult * option (list (option ascii))) :=
  oga (s ← Decode detokenize tokens; buffer ← copy_out msvc (String.list_ascii_of_string s); Ok (Some buffer)) None.

(* a processor decodes with its tokenizer *)
Definition OgaProcessorDecode (msvc : bool) (tokenizer_ : list Z -> outcome string) (tokens : list Z)
  : outcome (OgaResult * option (list (option ascii))) := OgaTokenizerDecode msvc tokenizer_ tokens.
(* the image processor may be a null pointer *)
Definition OgaProcessorProcessImages (oversize : Z -> Z -> Z) (buckets : list (string * ptr) -> list (string * ptr)) (tokenizer_ : string -> outcome (list Z))
    (image_processor_ : option ONNXTensorElementDataType) (prompt : string)
    (images : option (outcome (RawTensor * RawTensor * list Z))) (h : heap) : outcome (OgaResult * option (list (string * ptr) * heap)) :=
  match image_processor_ with
  | Some pixel_values_type_ =>
      oga (r ← Process oversize tokenizer_ buckets pixel_values_type_ (c_str (chars prompt)) images h; Ok (Some r)) None
  | None => Undef
  end.

(** *** Tensors *)
Definition OgaTensorGetType (tensor : ptr) (h : heap) : outcome (OgaResult * option ONNXTensorElementDataType) :=
  oga (t ← deref h tensor; Ok (Some (element_type t))) None.
Definition OgaTensorGetShapeRank (tensor : ptr) (h : heap) : outcome (OgaResult * option nat) :=
  oga (t ← deref h tensor; Ok (Some (length (shape t)))) None.
(* [shape_dims] is the caller's array *)
Definition OgaTensorGetShape (tensor : ptr) (shape_dims : list Z) (rank : nat) (h : heap) : outcome (OgaResult * list Z) :=
  oga (t ← deref h tensor;
       if Nat.eqb rank (length (shape t)) then blit shape_dims 0 (map Z.of_nat (shape t))
       else Throw (RuntimeError "shape_dims_count doesn't match result of OgaTensorGetShapeRank")) shape_dims.

(** *** The generator *)
Section generator.
Context {G S W : Type} {I : ModelState S W} (L : Library G) (p : GeneratorParams).
Abbreviation gen := (Generator G S W).

Definition OgaGenerate (fuel : nat) (context_length : Z) (w : W) : outcome (OgaResult * option (list (list Z))) :=
  oga (r ← Generate L p fuel context_length w; Ok (Some r)) None.
Definition OgaCreateGenerator (context_length : Z) (w : W) : outcome (OgaResult * option gen) :=
  oga (g ← Generator_new L p context_length w; Ok (Some g)) None.
(* nothing is caught here *)
Definition OgaGenerator_IsDone (g : gen) : outcome bool := Generator_IsDone g.
(* [left]: what a failed run of the model leaves of its state and of the world *)
Definition OgaGenerator_ComputeLogits (left : S * W) (g : gen) : outcome (OgaResult * gen) :=
  let '(r, g) := Generator_ComputeLogits L p left g in oga (_ ← r; Ok g) g.
Definition OgaGenerator_GenerateNextToken (g : gen) : outcome (OgaResult * gen) :=
  let '(r, g) := GenerateNextToken L p g in oga (_ ← r; Ok g) g.
Definition OgaGenerator_GetSequenceCount (index : Z) (g : gen) : outcome nat :=
  s ← Generator_GetSequence (Z.to_nat (u64 (i32 index))) g; Ok (length s).
Definition OgaGenerator_GetSequenceData (index : Z) (g : gen) : outcome (list Z) :=
  Generator_GetSequence (Z.to_nat (u64 (i32 index))) g.
End generator.
End calls.

(** ** Lifetimes

    The objects behind the handles, each with the shared pointers it holds, the
    configuration it points to without owning it, and whether the caller owns it:
    through [external_owner_], or by the pointer itself for what is deleted. *)
Inductive kind : Type := KModel | KParams | KGenerator | KTokenizer | KTokenizerStream | KProcessor.
#[export] Instance kind_eq_dec : EqDecision kind.
Proof. solve_decision. Defined.

Record object := mkObject { o_kind : kind; o_strong : list nat; o_config : option nat; o_external : bool }.
Record store := mkStore { objects : gmap nat object; next_handle : nat }.
Definition no_objects : store := mkStore ∅ 0.

Definition make (k : kind) (strong : list nat) (config : option nat) (external : bool) (st : store) : store * nat :=
  (mkStore (<[next_handle st := mkObject k strong config external]> (objects st)) (S (next_handle st)), next_handle st).

(* a handle that is used must be of a live object of its kind *)
Definition alive (k : kind) (h : nat) (st : store) : outcome object :=
  match objects st !! h with
  | Some o => if decide (o_kind o = k) then Ok o else Undef
  | None => Undef
  end.

Definition referenced (h : nat) (objs : gmap nat object) : Prop := map_Exists (fun _ o => h ∈ o_strong o) objs.

(** A shared pointer to [h] is gone: an object nobody else holds is destroyed,
    and with it the pointers it held. *)
Fixpoint release (fuel : nat) (h : nat) (objs : gmap nat object) : gmap nat object :=
  match fuel, objs !! h with
  | S fuel, Some o =>
      if o_external o || bool_decide (referenced h objs) then objs
      else fold_left (fun objs r => release fuel r objs) (o_strong o) (delete h objs)
  | _, _ => objs
  end.

(* external_owner_ = nullptr, or delete *)
Definition destroy (h : nat) (st : store) : outcome store :=
  match objects st !! h with
  | Some o =>
      let o := mkObject (o_kind o) (o_strong o) (o_config o) false in
      Ok (mkStore (release (S h) h (<[h := o]> (objects st))) (next_handle st))
  | None => Undef
  end.

(** The calls that make and destroy objects; [ParamsSetInputs] is one that reads
    the configuration its parameters point to. *)
Inductive call : Type :=
  | CreateModel_ | CreateGeneratorParams (model : nat) | CreateGenerator_ (model params : nat)
  | CreateTokenizer (model : nat) | CreateTokenizerStream (tokenizer : nat)
  | CreateMultiModalProcessor (model : nat) | CreateTokenizerStreamFromProcessor (processor : nat)
  | ParamsSetInputs (params : nat)
  | Destroy (handle : nat).

(* each returns the handle of what it made *)
Definition make_model (st : store) : outcome (store * nat) := Ok (make KModel [] None true st).
(* the parameters keep a pointer to the model's configuration *)
Definition make_params (m : nat) (st : store) : outcome (store * nat) :=
  _ ← alive KModel m st; Ok (make KParams [] (Some m) true st).
Definition make_generator (m p : nat) (st : store) : outcome (store * nat) :=
  _ ← alive KModel m st; _ ← alive KParams p st; Ok (make KGenerator [m; p] None true st).
Definition make_tokenizer (m : nat) (st : store) : outcome (store * nat) :=
  _ ← alive KModel m st; Ok (make KTokenizer [] None true st).
Definition make_stream (t : nat) (st : store) : outcome (store * nat) :=
  _ ← alive KTokenizer t st; Ok (make KTokenizerStream [t] None true st).
(* with a tokenizer of its own *)
Definition make_processor (m : nat) (st : store) : outcome (store * nat) :=
  _ ← alive KModel m st;
  let '(st, t) := make KTokenizer [] None false st in
  Ok (make KProcessor [t] None true st).
Definition make_processor_stream (q : nat) (st : store) : outcome (store * nat) :=
  o ← alive KProcessor q st; t ← get (o_strong o) 0; Ok (make KTokenizerStream [t] None true st).
Definition use_config (p : nat) (st : store) : outcome store :=
  o ← alive KParams p st;
  match o_config o with Some m => _ ← alive KModel m st; Ok st | None => Undef end.

Definition handed (r : outcome (store * nat)) : outcome (store * option nat) := '(st, h) ← r; Ok (st, Some h).
Definition exec (c : call) (st : store) : outcome (store * option nat) :=
  match c with
  | CreateModel_ => handed (make_model st)
  | CreateGeneratorParams m => handed (make_params m st)
  | CreateGenerator_ m p => handed (make_generator m p st)
  | CreateTokenizer m => handed (make_tokenizer m st)
  | CreateTokenizerStream t => handed (make_stream t st)
  | CreateMultiModalProcessor m => handed (make_processor m st)
  | CreateTokenizerStreamFromProcessor q => handed (make_processor_stream q st)
  | ParamsSetInputs p => st ← use_config p st; Ok (st, None)
  | Destroy h => st ← destroy h st; Ok (st, None)
  end.

(** What the client owns by its own account: the handles it was returned and has
    not destroyed. *)
Definition account (c : call) (returned : option nat) (mine : gset nat) : gset nat :=
  match c, returned with
  | Destroy h, _ => mine ∖ {[h]}
  | _, Some h => {[h]} ∪ mine
  | _, None => mine
  end.

Definition exec_all (cs : list call) (st : store * gset nat) : outcome (store * gset nat) :=
  for_each (fun c '(st, mine) => '(st, r) ← exec c st; Ok (st, account c r mine)) cs st.

(** ** What the calls establish *)
Section properties.
Context (what : exn -> string).

(** C38: one or more token sequences, of any lengths, make parameters that
    are well formed: a row per sequence, as long as the longest of them,
    that is the sequence and the padding after it. *)
Theorem SetInputSequences_spec (seqs : list (list Z)) (p : GeneratorParams) :
  let n := max_size seqs in
  seqs ≠ [] -> Z.of_nat (n * length seqs) <= INT_MAX -> 0 < num_beams (gp_search p) ->
  num_beams (gp_search p) * Z.of_nat (length seqs) <= INT_MAX ->
  ∃ p', OgaGeneratorParamsSetInputSequences seqs p = Ok (None, p') ∧ params_ok p' ∧ gp_search p' = gp_search p ∧
    batch_size p' = Z.of_nat (length seqs) ∧ sequence_length p' = Z.of_nat n ∧
    ∀ i s, seqs !! i = Some s -> prompt_row p' i = padded n (gp_pad_token_id p) s.
Proof.
  intros n Hne Hsm Hn Hnb. unfold OgaGeneratorParamsSetInputSequences. rewrite PadInputs_spec, bind_Ok. cbv zeta.
  fold n. set (rows := map (padded n (gp_pad_token_id p)) seqs).
  assert (Forall (fun l => length l = n) rows) as Hrows.
  { apply Forall_forall. intros l (s & -> & Hs)%list_elem_of_fmap. unfold padded. rewrite length_app, length_replicate.
    assert (length s <= n)%nat by (by apply (fold_max_ge seqs 0)). simpl. lia. }
  assert (length (concat rows) = (length seqs * n)%nat) as Hlen.
  { rewrite (length_concat_const _ n Hrows). unfold rows. by rewrite length_map. }
  assert (0 < length seqs)%nat by (destruct seqs; [done|simpl; lia]). unfold INT_MAX in *.
  assert (Z.of_nat (length seqs) <= 2147483647) by nia.
  rewrite (i32_id (Z.of_nat (length seqs))) by (unfold INT_MIN, INT_MAX; lia).
  destruct (Z.eqb_spec (Z.of_nat (length seqs)) 0); [lia|].
  rewrite u64_id, Hlen, Nat2Z.inj_mul, (Z.mul_comm (Z.of_nat (length seqs))), Z.div_mul by lia.
  rewrite i32_id by (unfold INT_MIN, INT_MAX; nia).
  eexists. split; [reflexivity|]. split; [|do 3 (split; [done|])].
  - split; simpl; [lia|done|unfold INT_MAX; lia|unfold INT_MAX; nia|].
    rewrite Hlen. unfold p_batch, p_seq. simpl. by rewrite !Nat2Z.id.
  - intros i s Hi. unfold prompt_row, tensor_row, p_seq. simpl. rewrite Nat2Z.id, (Nat.mul_comm i).
    apply (window_concat n rows Hrows). unfold rows. by rewrite list_lookup_fmap, Hi.
Qed.

(** C40: a decoded string comes with its terminating zero where strcpy_s is used;
    elsewhere the zero written after strncpy is one past the buffer, whatever the
    string. *)
Theorem OgaTokenizerDecode_bounds (detokenize : list Z -> outcome string) (tokens : list Z) (s : string) :
  Decode detokenize tokens = Ok s ->
  OgaTokenizerDecode what false detokenize tokens = Undef ∧
  (zero ∉ String.list_ascii_of_string s ->
   OgaTokenizerDecode what true detokenize tokens =
     Ok (None, Some (map Some (String.list_ascii_of_string s ++ [zero])))).
Proof.
  intros E. unfold OgaTokenizerDecode. rewrite E, !bind_Ok. generalize (String.list_ascii_of_string s) as l. clear. intros l.
  assert (length (c_str l) <= length l)%nat as Hle.
  { induction l as [|c l IH]; [done|]. simpl. destruct (Ascii.eqb c zero); simpl; lia. }
  split.
  - unfold copy_out, uninit. cbv zeta. rewrite blit_all by (rewrite length_map, length_app, !length_replicate; lia).
    rewrite bind_Ok. unfold put. rewrite decide_False; [done|].
    rewrite length_map, length_app, length_replicate. lia.
  - intros Hz. assert (c_str l = l) as Hl.
    { clear Hle. induction l as [|c l IH]; [done|]. apply not_elem_of_cons in Hz as [Hc Hz]. simpl.
      destruct (Ascii.eqb_spec c zero); [congruence|]. by rewrite IH. }
    unfold copy_out, uninit. cbv zeta. rewrite Hl, blit_all; [done|]. rewrite length_map, length_app, length_replicate. simpl. lia.
Qed.
End properties.

(** ** The lifetimes are those of the shared pointers *)

(** What each kind of object holds a shared pointer to. *)
Definition held (k : kind) : list kind :=
  match k with
  | KModel | KParams | KTokenizer => []
  | KGenerator => [KModel; KParams]
  | KTokenizerStream | KProcessor => [KTokenizer]
  end.

Definition is_kind (objs : gmap nat object) (k : kind) (h : nat) : Prop := ∃ o, objs !! h = Some o ∧ o_kind o = k.
Definition holds (objs : gmap nat object) (h r : nat) : Prop := ∃ o, objs !! h = Some o ∧ r ∈ o_strong o.

(* the pointers of an object go to older, live objects of the right kinds *)
Definition well_typed (objs : gmap nat object) : Prop :=
  ∀ h o, objs !! h = Some o ->
    Forall2 (is_kind objs) (held (o_kind o)) (o_strong o) ∧ Forall (fun r => (r < h)%nat) (o_strong o).
(* every object has an owner, those of [pending] excepted *)
Definition owned (pending : list nat) (objs : gmap nat object) : Prop :=
  ∀ h o, objs !! h = Some o -> o_external o = true ∨ referenced h objs ∨ h ∈ pending.
Definition store_ok (pending : list nat) (st : store) : Prop :=
  well_typed (objects st) ∧ owned pending (objects st) ∧ ∀ h, is_Some (objects st !! h) -> (h < next_handle st)%nat.

#[local] Lemma referenced_spec h objs : referenced h objs ↔ ∃ k o, objs !! k = Some o ∧ h ∈ o_strong o.
Proof. apply map_Exists_lookup. Qed.
#[local] Instance referenced_dec h objs : Decision (referenced h objs).
Proof. apply _. Defined.

#[local] Lemma is_kind_delete objs k h i : h ≠ i -> is_kind objs k h -> is_kind (delete i objs) k h.
Proof. intros Hne (o & Ho & Hk). exists o. by rewrite lookup_delete_ne by congruence. Qed.

#[local] Lemma Forall2_impl_in {A B} (P Q : A -> B -> Prop) l k :
  Forall2 P l k -> (∀ x y, y ∈ k -> P x y -> Q x y) -> Forall2 Q l k.
Proof.
  induction 1 as [|x y l k Hxy _ IH]; intros Himp; constructor; [apply Himp; [by left|done]|].
  apply IH. intros. apply Himp; [by right|done].
Qed.

#[local] Lemma well_typed_delete objs h : well_typed objs -> ¬ referenced h objs -> well_typed (delete h objs).
Proof.
  intros Hw Hn k o [Hne Ho]%lookup_delete_Some. destruct (Hw k o Ho) as [Hf Hl]. split; [|done].
  eapply Forall2_impl_in; [exact Hf|]. intros x r Hin Hr. apply is_kind_delete; [|done].
  intros ->. apply Hn, referenced_spec. by exists k, o.
Qed.

#[local] Lemma owned_delete objs h o pending : objs !! h = Some o ->
  owned (h :: pending) objs -> owned (o_strong o ++ pending) (delete h objs).
Proof.
  intros Ho Hown k ok [Hne Hk]%lookup_delete_Some. destruct (Hown k ok Hk) as [He | [Hr | Hp]]; [by left| |].
  - right. apply referenced_spec in Hr as (j & oj & Hj & Hin). destruct (decide (j = h)) as [->|Hj'].
    + right. apply elem_of_app. left. rewrite Ho in Hj. by injection Hj as ->.
    + left. apply referenced_spec. exists j, oj. by rewrite lookup_delete_ne.
  - apply elem_of_cons in Hp as [->|Hp]; [done|]. right. right. apply elem_of_app. by right.
Qed.

#[local] Lemma release_inv fuel : ∀ h objs pending, (h < fuel)%nat ->
  well_typed objs -> owned (h :: pending) objs ->
  well_typed (release fuel h objs) ∧ owned pending (release fuel h objs) ∧
  (∀ k o, release fuel h objs !! k = Some o -> objs !! k = Some o).
Proof.
  induction fuel as [|fuel IH]; intros h objs pending Hlt Hw Hown; [lia|]. cbn [release].
  destruct (objs !! h) as [o|] eqn:Ho.
  2: { split; [done|]. split; [|done]. intros k ok Hk.
       destruct (Hown k ok Hk) as [?|[?|[->|?]%elem_of_cons]]; [by left|by right; left|congruence|by right; right]. }
  destruct (o_external o || bool_decide (referenced h objs)) eqn:Ekeep.
  { split; [done|]. split; [|done]. intros k ok Hk.
    destruct (Hown k ok Hk) as [?|[?|[->|?]%elem_of_cons]]; [by left|by right; left| |by right; right].
    apply orb_true_iff in Ekeep as [?|?%bool_decide_eq_true]; [left; congruence|by right; left]. }
  apply orb_false_iff in Ekeep as [_ Hn%bool_decide_eq_false].
  assert (Forall (fun r => (r < fuel)%nat) (o_strong o)) as Hsmall.
  { eapply Forall_impl; [apply (Hw h o Ho)|]. intros; simpl in *; lia. }
  pose proof (well_typed_delete _ _ Hw Hn) as Hw'. pose proof (owned_delete _ _ _ _ Ho Hown) as Hown'.
  assert (∀ k o', delete h objs !! k = Some o' -> objs !! k = Some o') as Hsub by (by intros k o' [_ ?]%lookup_delete_Some).
  clear Hown Ho Hw Hn. revert Hw' Hown' Hsub. generalize (delete h objs) as objs'.
  induction (o_strong o) as [|r rs IHrs]; intros objs' Hw Hown Hsub; [done|]. cbn [fold_left].
  apply Forall_cons in Hsmall as [Hr Hrs].
  destruct (IH r objs' (rs ++ pending) Hr Hw Hown) as (Hw' & Hown' & Hsub').
  apply IHrs; auto.
Qed.

#[local] Lemma make_ok k strong config ext st st' h pending :
  store_ok (strong ++ pending) st -> make k strong config ext st = (st', h) ->
  Forall2 (is_kind (objects st)) (held k) strong ->
  store_ok (if ext then pending else h :: pending) st' ∧ is_kind (objects st') k h.
Proof.
  intros (Hw & Hown & Hlt) [= <- <-] Hst.
  set (n := next_handle st) in *. set (o := mkObject k strong config ext).
  assert (objects st !! n = None) as Hfresh.
  { apply eq_None_not_Some. intros H. apply Hlt in H. lia. }
  assert (∀ k' h', is_kind (objects st) k' h' -> is_kind (<[n := o]> (objects st)) k' h') as Hmono.
  { intros k' h' (o' & Ho' & ?). exists o'. rewrite lookup_insert_ne by congruence. done. }
  split; [|exists o; cbn [objects]; by rewrite lookup_insert_eq].
  split; [|split]; cbn [objects next_handle].
  - intros h' o' [[<- <-] | [Hne Ho']]%lookup_insert_Some.
    + simpl. split; [eapply Forall2_impl; [exact Hst|apply Hmono]|].
      eapply Forall2_Forall_r; [exact Hst|]. apply Forall_forall. intros x _ r (y & Hy & _). apply Hlt. by exists y.
    + destruct (Hw h' o' Ho') as [Hf Hl]. split; [|done]. eapply Forall2_impl; [exact Hf|apply Hmono].
  - intros h' o' [[<- <-] | [Hne Ho']]%lookup_insert_Some.
    + destruct ext; [by left|]. right. right. by left.
    + assert (∀ j, referenced j (objects st) -> referenced j (<[n := o]> (objects st))) as Href.
      { intros j (i & oi & Hi & Hin)%referenced_spec. apply referenced_spec. exists i, oi.
        rewrite lookup_insert_ne by congruence. done. }
      destruct (Hown h' o' Ho') as [? | [Hr | [Hs | Hp]%elem_of_app]]; [by left|by right; left; apply Href| |].
      * right. left. apply referenced_spec. exists n, o. by rewrite lookup_insert_eq.
      * right. right. destruct ext; [done|by right].
  - intros h' [o' Ho']. apply lookup_insert_Some in Ho' as [[<- _] | [_ Ho']]; [lia|].
    assert (h' < n)%nat; [apply Hlt; by exists o'|lia].
Qed.

#[local] Lemma store_ok_app st l : store_ok [] st -> store_ok (l ++ []) st.
Proof.
  intros (Hw & Hown & Hlt). split; [done|]. split; [|done].
  intros h o Ho. destruct (Hown h o Ho) as [?|[?|[]%not_elem_of_nil]]; [by left|by right; left].
Qed.

(** The client's account is of the objects it is an external owner of. *)
Definition accounted (mine : gset nat) (st : store) : Prop :=
  ∀ h, h ∈ mine ↔ ∃ o, objects st !! h = Some o ∧ o_external o = true.

#[local] Lemma make_accounted k strong config (ext : bool) (st : store) (mine : gset nat) :
  (∀ h, is_Some (objects st !! h) -> (h < next_handle st)%nat) -> accounted mine st ->
  accounted (if ext then {[next_handle st]} ∪ mine else mine) (make k strong config ext st).1.
Proof.
  intros Hlt Hm h. cbn [make fst objects]. pose proof (Hm h) as Hh.
  assert (next_handle st ∉ mine) as Hn.
  { intros (o & Ho & _)%Hm. pose proof (Hlt (next_handle st) (ex_intro _ o Ho)). lia. }
  destruct (decide (h = next_handle st)) as [->|Hne].
  - rewrite lookup_insert_eq. destruct ext; split; try done; [|set_solver|]; [intros _; by eexists|]. by intros (o & [= <-] & ?).
  - rewrite lookup_insert_ne by done. rewrite <- Hh. destruct ext; set_solver.
Qed.

#[local] Lemma make_external_ok k strong config st mine st' h :
  store_ok [] st -> accounted mine st -> Forall2 (is_kind (objects st)) (held k) strong ->
  make k strong config true st = (st', h) -> store_ok [] st' ∧ accounted ({[h]} ∪ mine) st'.
Proof.
  intros H Hm Hst E. split.
  - by apply (make_ok k strong config true st st' h [] (store_ok_app st strong H) E).
  - destruct H as (_ & _ & Hlt). pose proof (make_accounted k strong config true st mine Hlt Hm) as Ha. rewrite E in Ha. by injection E as <- <-.
Qed.

#[local] Lemma alive_kind k h st o : alive k h st = Ok o -> objects st !! h = Some o ∧ o_kind o = k.
Proof. unfold alive. destruct (objects st !! h); [|done]. case_decide; [|done]. by intros [= ->]. Qed.

#[local] Lemma release_external fuel : ∀ h objs k o, objs !! k = Some o -> o_external o = true -> release fuel h objs !! k = Some o.
Proof.
  induction fuel as [|fuel IH]; intros h objs k o Hk He; [done|]. cbn [release].
  destruct (objs !! h) as [oh|] eqn:Ho; [|done]. destruct (o_external oh || _) eqn:Ekeep; [done|].
  apply orb_false_iff in Ekeep as [Ee _]. assert (delete h objs !! k = Some o) as Hd.
  { rewrite lookup_delete_ne; [done|]. intros ->. congruence. }
  revert Hd. generalize (delete h objs) as objs'. induction (o_strong oh) as [|r rs IHrs]; intros objs' Hd; [done|]. cbn [fold_left].
  by apply IHrs, IH.
Qed.

#[local] Lemma destroy_ok h st mine st' : store_ok [] st -> accounted mine st -> destroy h st = Ok st' ->
  store_ok [] st' ∧ accounted (mine ∖ {[h]}) st'.
Proof.
  unfold destroy. intros (Hw & Hown & Hlt) Hm. destruct (objects st !! h) as [o|] eqn:Ho; [|done].
  set (o' := mkObject _ _ _ false). intros [= <-].
  assert (∀ k i, is_kind (objects st) k i -> is_kind (<[h := o']> (objects st)) k i) as Hkind.
  { intros k i (oi & Hi & Hk). destruct (decide (i = h)) as [->|Hne].
    - exists o'. rewrite lookup_insert_eq. split; [done|]. simpl. congruence.
    - exists oi. by rewrite lookup_insert_ne. }
  destruct (release_inv (S h) h (<[h := o']> (objects st)) []) as (Hw' & Hown' & Hsub); [lia| | |].
  - intros k ok [[<- <-] | [Hne Hk]]%lookup_insert_Some; [destruct (Hw h o Ho) as [Hf Hl] | destruct (Hw k ok Hk) as [Hf Hl]];
      (split; [eapply Forall2_impl; [exact Hf|apply Hkind]|done]).
  - intros k ok [[<- <-] | [Hne Hk]]%lookup_insert_Some; [right; right; by left|].
    destruct (Hown k ok Hk) as [?|[Hr|[]%not_elem_of_nil]]; [by left|]. right. left.
    apply referenced_spec in Hr as (j & oj & Hj & Hin). apply referenced_spec. destruct (decide (j = h)) as [->|Hjh].
    + exists h, o'. rewrite lookup_insert_eq. split; [done|]. simpl. congruence.
    + exists j, oj. by rewrite lookup_insert_ne.
  - split; [split; [done|]; split; [done|]|]; cbn [objects next_handle].
    + intros i [oi Hi]. apply Hlt. apply Hsub, lookup_insert_Some in Hi as [[<- _] | [_ Hi]]; [by exists o|by exists oi].
    + intros k. cbn [objects]. rewrite elem_of_difference, not_elem_of_singleton, (Hm k). split.
      * intros [(ok & Hk & He) Hne]. exists ok. split; [|done]. apply (release_external (S h)); [|done]. by rewrite lookup_insert_ne.
      * intros (ok & [[<- <-] | [Hne Hk]]%Hsub%lookup_insert_Some & He); [done|]. split; [by exists ok|done].
Qed.

#[local] Lemma Ok_inj {A} (x y : A) : Ok x = Ok y -> x = y.
Proof. congruence. Qed.

#[local] Lemma exec_ok c st mine st' r : store_ok [] st -> accounted mine st -> exec c st = Ok (st', r) ->
  store_ok [] st' ∧ accounted (account c r mine) st'.
Proof.
  intros Hok Hm. destruct c as [|m|m p|t|t|m|q|p|h]; cbn [exec account];
    unfold handed, make_model, make_params, make_generator, make_tokenizer, make_stream, make_processor, make_processor_stream, use_config;
    intros H; apply bind_Ok_inv in H as (sh & H & Hr); try (destruct sh as [s1 h1]); injection Hr as <- <-;
    try (by eapply destroy_ok); repeat (let o := fresh "o" in let E := fresh "E" in
            apply bind_Ok_inv in H as (o & E & H); try apply alive_kind in E as [E ?]).
  - apply Ok_inj in H. by apply (make_external_ok _ _ _ _ _ _ _ Hok Hm) in H; [|constructor].
  - apply Ok_inj in H. by apply (make_external_ok _ _ _ _ _ _ _ Hok Hm) in H; [|constructor].
  - apply Ok_inj in H. apply (make_external_ok _ _ _ _ _ _ _ Hok Hm) in H; [done|]. repeat constructor; [by exists o|by exists o0].
  - apply Ok_inj in H. by apply (make_external_ok _ _ _ _ _ _ _ Hok Hm) in H; [|constructor].
  - apply Ok_inj in H. apply (make_external_ok _ _ _ _ _ _ _ Hok Hm) in H; [done|]. repeat constructor. by exists o.
  - destruct (make KTokenizer [] None false st) as [st1 t1] eqn:E1.
    destruct (make_ok _ _ _ _ _ _ _ [] (store_ok_app st [] Hok) E1) as [H1 H2]; [constructor|]. destruct Hok as (_ & _ & Hlt).
    pose proof (make_accounted KTokenizer [] None false st mine Hlt Hm) as Hm1. rewrite E1 in Hm1.
    pose proof H1 as (_ & _ & Hlt1). pose proof (make_accounted KProcessor [t1] None true st1 mine Hlt1 Hm1) as Hm2.
    destruct (make_ok KProcessor [t1] None true st1 _ _ [] H1 eq_refl) as [H3 _]; [by repeat constructor|].
    injection H as <- <-. by split.
  - apply get_Ok_inv in E0. apply Ok_inj in H. apply (make_external_ok _ _ _ _ _ _ _ Hok Hm) in H; [done|]. destruct Hok as [Hw _].
    destruct (Hw q o E) as [Hf _]. rewrite H0 in Hf. simpl in Hf.
    apply Forall2_cons_inv_l in Hf as (t & l & Ht & Hl & Es). rewrite Es in E0. injection E0 as ->.
    by repeat constructor.
  - destruct (o_config o); [|done]. apply bind_Ok_inv in H as (? & _ & [= <-]). done.
Qed.

#[local] Lemma exec_all_ok cs : ∀ st mine st' mine', store_ok [] st -> accounted mine st ->
  exec_all cs (st, mine) = Ok (st', mine') -> store_ok [] st' ∧ accounted mine' st'.
Proof.
  unfold exec_all. induction cs as [|c cs IH]; intros st mine st' mine' Hok Hm; [by intros [= <- <-]|].
  rewrite for_each_cons. intros ([st1 mine1] & E & H)%bind_Ok_inv. apply bind_Ok_inv in E as ([st2 r] & E & [= <- <-]).
  destruct (exec_ok c st mine st2 r Hok Hm E). by eapply IH; [..|exact H].
Qed.

#[local] Lemma no_objects_ok : store_ok [] no_objects.
Proof. split; [done|]. split; [done|]. by intros h [o Ho]. Qed.

#[local] Lemma owner_exists st h : store_ok [] st -> is_Some (objects st !! h) ->
  ∃ e o, rtc (holds (objects st)) e h ∧ objects st !! e = Some o ∧ o_external o = true.
Proof.
  intros (Hw & Hown & Hlt). remember (next_handle st - h)%nat as n eqn:En.
  revert h En. induction n as [n IH] using lt_wf_ind. intros h En [o Ho].
  destruct (Hown h o Ho) as [He | [Hr | []%not_elem_of_nil]]; [by exists h, o|].
  apply referenced_spec in Hr as (k & ok & Hk & Hin).
  pose proof (Hlt k (ex_intro _ ok Hk)). assert (h < k)%nat.
  { destruct (Hw k ok Hk) as [_ Hl]. by apply (proj1 (Forall_forall _ _) Hl). }
  destruct (IH (next_handle st - k)%nat ltac:(lia) k eq_refl (ex_intro _ ok Hk)) as (e & oe & Hre & He).
  exists e, oe. split; [|done]. eapply rtc_r; [exact Hre|]. by exists ok.
Qed.

(** C16: whatever calls the client makes, as long as it uses no handle of a
    destroyed object, an object is live exactly when a chain of shared pointers
    leads to it from one the client owns: one whose handle a call returned and
    that the client has not destroyed.  So nothing is left once the client has
    destroyed all it made.  The pointers a live object holds are to live objects
    of the kinds its constructor took; the configuration that parameters point to
    is not among them. *)
Theorem lifetimes (cs : list call) (st : store) (mine : gset nat) (h : nat) :
  exec_all cs (no_objects, ∅) = Ok (st, mine) ->
  (is_Some (objects st !! h) ↔ ∃ e, e ∈ mine ∧ rtc (holds (objects st)) e h) ∧
  (∀ o, objects st !! h = Some o -> Forall2 (is_kind (objects st)) (held (o_kind o)) (o_strong o)) ∧
  (mine = ∅ -> objects st = ∅).
Proof.
  intros H. destruct (exec_all_ok cs no_objects ∅ st mine) as [Hok Hm]; [apply no_objects_ok| |done|].
  { intros k. split; [set_solver|]. by intros (o & Ho & _). }
  split; [split|split].
  - intros Hl. destruct (owner_exists st h Hok Hl) as (e & o & Hr & He & Hx). exists e. split; [|done]. apply Hm. by exists o.
  - intros (e & (o & He & _)%Hm & Hr). destruct Hok as [Hw _]. assert (is_Some (objects st !! e)) as Hlive by (by exists o).
    clear He. induction Hr as [|x y z (ox & Hx & Hin) _ IH]; [done|]. apply IH.
    destruct (Hw x ox Hx) as [Hf _]. apply list_elem_of_lookup in Hin as [i Hi].
    destruct (Forall2_lookup_r _ _ _ _ _ Hf Hi) as (k & _ & oy & Hy & _). by exists oy.
  - intros o Ho. destruct Hok as [Hw _]. exact (proj1 (Hw h o Ho)).
  - intros ->. apply map_empty. intros k. destruct (objects st !! k) eqn:Ek; [|done].
    destruct (owner_exists st k Hok) as (e & oe & _ & He & Hext); [by eexists|].
    assert (e ∈ (∅ : gset nat)) by (apply Hm; by exists oe). set_solver.
Qed.

(** ** Concrete runs *)
Module Examples.
Definition ex_what (e : exn) : string := "error".
Definition ex_params : GeneratorParams := GeneratorParams_new Config_default CPU.

(* the parameters are set before they are checked, and no row at all is accepted *)
Example wrong_prompt_kept : ∃ r p',
  OgaGeneratorParamsSetInputIDs ex_what [1; 2; 3] 2 2 ex_params = Ok (Some r, p') ∧ prompt p' = [1; 2; 3].
Proof. do 2 eexists. split; reflexivity. Qed.

Example no_row_accepted : ∃ p',
  OgaGeneratorParamsSetInputIDs ex_what [] 5 0 ex_params = Ok (None, p') ∧ batch_size p' = 0.
Proof. eexists. split; reflexivity. Qed.

Lemma SetInputSequences_spec_witness :
  ∃ p', OgaGeneratorParamsSetInputSequences [[1]; [2; 3; 4]] ex_params = Ok (None, p') ∧
    params_ok p' ∧ prompt_row p' 0 = [1; 0; 0].
Proof.
  destruct (SetInputSequences_spec [[1]; [2; 3; 4]] ex_params) as (p' & E & Hp & _ & _ & _ & H);
    [done|by vm_compute..|]. exists p'. split; [exact E|]. split; [exact Hp|].
  rewrite (H 0%nat [1] eq_refl). reflexivity.
Defined.

Lemma OgaTokenizerDecode_bounds_witness :
  OgaTokenizerDecode ex_what false (fun _ => Ok "hi") [7] = Undef.
Proof. apply (OgaTokenizerDecode_bounds ex_what (fun _ => Ok "hi") [7] "hi"). reflexivity. Defined.

(** The inner tokenizer of a processor outlives the processor while a stream uses it. *)
Definition ex_calls : list call :=
  [CreateModel_; CreateMultiModalProcessor 0; CreateTokenizerStreamFromProcessor 2; Destroy 2; CreateGeneratorParams 0; Destroy 0].
Definition ex_end : store * gset nat :=
  match exec_all ex_calls (no_objects, ∅) with Ok r => r | _ => (no_objects, ∅) end.

Lemma lifetimes_witness : exec_all ex_calls (no_objects, ∅) = Ok ex_end ∧ elements ex_end.2 = [4; 3]%nat ∧
  is_Some (objects ex_end.1 !! 1%nat).
Proof.
  assert (exec_all ex_calls (no_objects, ∅) = Ok (ex_end.1, ex_end.2)) as E by (vm_compute; reflexivity).
  split; [vm_compute; reflexivity|]. split; [vm_compute; reflexivity|]. apply (lifetimes ex_calls ex_end.1 ex_end.2 1 E).
  exists 3%nat. split; [apply elem_of_elements; change (elements ex_end.2) with [4; 3]%nat; do 2 constructor|].
  eapply rtc_l; [|apply rtc_refl]. eexists. split; [reflexivity|]. by left.
Defined.

(** Parameters outlive the model whose configuration they point to. *)
Example params_use_destroyed_model :
  exec_all [CreateModel_; CreateGeneratorParams 0; Destroy 0; ParamsSetInputs 1] (no_objects, ∅) = Undef.
Proof. vm_compute. reflexivity. Qed.

Example everything_destroyed :
  exec_all (ex_calls ++ [Destroy 4; Destroy 3]) (no_objects, ∅) = Ok (mkStore ∅ 5, ∅).
Proof. vm_compute. reflexivity. Qed.
End Examples.
