(* ===== verification/CudaSequences.v ===== *)
(** * Token sequences on the device (src/sequences_cuda.h, src/sequences_cuda.cpp,
    src/sequences_cuda.cu, the append kernels of src/beam_search_scorer_cuda.cu)

    [Sequences_Cuda] has the members of [Sequences]; its memory is the
    device's, uninitialised until it is written ([malloc]).  The kernels that
    expand the prompt and append a token run as one thread; the beam search
    append copies a cell per thread of a two-dimensional grid. *)
From Stdlib Require Import ZArith Lia.
From stdpp Require Import base numbers list.
From S2P Require Import Prelude Cuda Sequences.
Local Open Scope nat_scope.

(** Device memory: what it holds before it is written is anything. *)
Class DeviceMalloc {A} (malloc : nat -> list A) : Prop := malloc_length n : length (malloc n) = n.

(** A grid of two dimensions, a thread per pair of indices; the grid's second
    dimension is limited to 16 bits. *)
Definition max_grid_y : Z := 65535.

Definition launch2 {M} (order : nat -> list nat) (grid_x grid_y block_x block_y : Z) (thread : Z -> Z -> M -> outcome M) (m : M) : outcome M :=
  if ((0 <? grid_x) && (0 <? grid_y) && (grid_y <=? max_grid_y) && (0 <? block_x) && (0 <? block_y) &&
      (block_x * block_y <=? max_threads_per_block))%Z then
    let width := (grid_x * block_x)%Z in
    for_each (fun k => thread (i32 (Z.of_nat k mod width)) (i32 (Z.of_nat k / width)))
      (order (Z.to_nat (width * (grid_y * block_y)))) m
  else Ok m.

(** ** The kernels *)
Definition ExpandInputSequences (input_sequences : list Z) (batch_size beam_size current_length max_length : nat) (sequences : list Z)
  : outcome (list Z) :=
  for_ batch_size (fun batch =>
    for_ beam_size (fun beam =>
      for_ current_length (fun j sequences =>
        v ← get input_sequences (batch * current_length + j);
        put sequences ((batch * beam_size + beam) * max_length + j) v))) sequences.

Definition AppendNextTokenToSequences_kernel (next_tokens : list Z) (batch_beam_size current_length max_length : nat) (sequences : list Z)
  : outcome (list Z) :=
  for_ batch_beam_size (fun i sequences =>
    at_ ← int_nat (i * max_length); at_ ← int_nat (at_ + current_length);
    t ← get next_tokens i; put sequences at_ t) sequences.

(* one cell of the sequences of the next step *)
Definition BeamSearchScorer_AppendNextTokenToSequences1 (batch_beam_size max_length : Z) (sequences_buffer : list Z) (sequence_length : Z)
    (next_beam_indices : list (option Z)) (beam_idx sequence_index : Z) (next_sequences : list Z) : outcome (list Z) :=
  if (batch_beam_size <=? beam_idx)%Z then Ok next_sequences else
  if (sequence_length <=? sequence_index)%Z then Ok next_sequences else
  o ← getZ next_beam_indices beam_idx; beam_index ← initialised o;
  to ← chk32 (beam_idx * max_length); to ← chk32 (to + sequence_index);
  from ← chk32 (beam_index * max_length); from ← chk32 (from + sequence_index);
  v ← getZ sequences_buffer from; putZ next_sequences to v.

Definition BeamSearchScorer_AppendNextTokenToSequences2 (max_length sequence_length : Z) (next_beam_tokens : list (option Z))
    (beam_idx : Z) (next_sequences : list Z) : outcome (list Z) :=
  o ← getZ next_beam_tokens beam_idx; t ← initialised o;
  to ← chk32 (beam_idx * max_length); to ← chk32 (to + sequence_length); putZ next_sequences to t.

(* the dimensions of the grid and of the block *)
Definition append_max_threads : Z := 512.
Definition append_grid (batch_beam_size sequence_length : Z) : outcome (Z * Z * Z * Z) :=
  cells ← chk32 (batch_beam_size * sequence_length);
  Ok (if (cells <=? append_max_threads)%Z then (1, 1, batch_beam_size, sequence_length)
      else if (sequence_length <=? append_max_threads)%Z then
        let x := Z.quot append_max_threads sequence_length in
        (Z.quot (batch_beam_size + x - 1) x, 1, x, sequence_length)
      else (batch_beam_size, Z.quot (sequence_length + append_max_threads - 1) append_max_threads, 1, append_max_threads))%Z.

Section device.
Context (order : nat -> list nat) (malloc : nat -> list Z).

(** ** Sequences_Cuda *)
Definition Launch_ExpandInputSequences (input_sequences : list Z) (batch_size beam_size current_length max_length : nat)
    (sequences : list Z) : outcome (list Z) :=
  launch order 1 1 (fun _ => ExpandInputSequences input_sequences batch_size beam_size current_length max_length) sequences.

Definition Launch_AppendNextTokenToSequences (next_tokens : list Z) (batch_beam_size current_length max_length : nat)
    (sequences : list Z) : outcome (list Z) :=
  launch order 1 1 (fun _ => AppendNextTokenToSequences_kernel next_tokens batch_beam_size current_length max_length) sequences.

Definition Sequences_Cuda_new (input_sequences : list Z) (batch_size beam_size max_length : nat) : outcome Sequences :=
  if decide (batch_size = 0) then Undef (* division by zero *) else
  bb ← int_nat (batch_size * beam_size);
  size ← int_nat (length input_sequences);
  let cur := size / batch_size in
  _ ← assert_ (bool_decide (cur * batch_size = length input_sequences));
  sequences_size ← int_nat (bb * max_length);
  let buffer := if decide (beam_size = 1) then malloc sequences_size else malloc (2 * sequences_size) in
  let '(sequences, next) := (take sequences_size buffer, drop sequences_size buffer) in
  sequences ← Launch_ExpandInputSequences input_sequences batch_size beam_size cur max_length sequences;
  Ok (mkSequences sequences next bb max_length cur).

Definition Sequences_Cuda_AppendNextTokenToSequences (s : Sequences) (next_tokens : list Z) : outcome Sequences :=
  sequences ← Launch_AppendNextTokenToSequences next_tokens (batch_beam_size_ s) (current_length_ s) (max_length_ s) (sequences_ s);
  cur ← int_nat (S (current_length_ s));
  Ok (mkSequences sequences (sequences_next_ s) (batch_beam_size_ s) (max_length_ s) cur).

(* the buffers are rotated; the device has filled the second one *)
Definition rotated (s : Sequences) : Sequences :=
  mkSequences (sequences_next_ s) (sequences_ s) (batch_beam_size_ s) (max_length_ s) (S (current_length_ s)).
Definition AfterDeviceAppendedNextToken (s : Sequences) : outcome Sequences :=
  _ ← int_nat (S (current_length_ s)); Ok (rotated s).

Definition LaunchBeamSearchScorer_AppendNextTokenToSequences (batch_size num_beams max_length : Z) (sequences : list Z)
    (next_sequences : list Z) (sequence_length : Z) (next_beam_tokens next_beam_indices : list (option Z)) : outcome (list Z) :=
  batch_beam_size ← chk32 (batch_size * num_beams);
  '(gx, gy, bx, by_) ← append_grid batch_beam_size sequence_length;
  next ← launch2 order gx gy bx by_
    (BeamSearchScorer_AppendNextTokenToSequences1 batch_beam_size max_length sequences sequence_length next_beam_indices) next_sequences;
  launch order 1 batch_beam_size (BeamSearchScorer_AppendNextTokenToSequences2 max_length sequence_length next_beam_tokens) next.
End device.

(** ** One thread *)
Lemma launch_single {M} (order : nat -> list nat) {Ho : Schedule order} (k : M -> outcome M) m : launch order 1 1 (fun _ => k) m = k m.
Proof.
  unfold launch. cbn. change (Z.to_nat (1 * 1)) with 1. pose proof (schedule_perm (order := order) 1) as H. simpl in H.
  apply Permutation_singleton_r in H. rewrite H. simpl. by destruct (k m).
Qed.

(** The device lays the prompt out as [Sequences::Sequences] does. *)
Lemma Sequences_Cuda_new_rows (order : nat -> list nat) {Ho : Schedule order} (malloc : nat -> list Z) {Hm : DeviceMalloc malloc}
    (input : list Z) (batch_size beam_size max_length cur : nat) :
  0 < batch_size -> length input = batch_size * cur -> cur <= max_length ->
  0 < beam_size -> (Z.of_nat (batch_size * beam_size) <= INT_MAX)%Z -> (Z.of_nat (batch_size * beam_size * max_length) <= INT_MAX)%Z ->
  ∃ s, Sequences_Cuda_new order malloc input batch_size beam_size max_length = Ok s ∧ wf s ∧
       (beam_size ≠ 1 -> wf_beam s) ∧ GetSequenceLength s = cur ∧
       batch_beam_size_ s = batch_size * beam_size ∧ max_length_ s = max_length ∧
       rows s = expand_input input batch_size beam_size.
Proof.
  intros Hb Hl Hc Hk Hi1 Hi2. unfold Sequences_Cuda_new. rewrite decide_False by lia.
  assert (length input <= batch_size * beam_size * max_length) as Hle
    by (rewrite Hl, <- Nat.mul_assoc; apply Nat.mul_le_mono_l; nia).
  rewrite !int_nat_ok, !bind_Ok by lia. cbv zeta.
  assert (length input / batch_size = cur) as -> by (rewrite Hl, Nat.mul_comm; apply Nat.div_mul; lia).
  rewrite (bool_decide_true (cur * batch_size = length input)) by lia. cbn [assert_]. rewrite bind_Ok, int_nat_ok, bind_Ok by done.
  set (size := batch_size * beam_size * max_length). set (buffer := if decide (beam_size = 1) then malloc size else malloc (2 * size)).
  assert (length buffer = size ∨ length buffer = 2 * size ∧ beam_size ≠ 1) as Hbuf0
    by (unfold buffer; case_decide; rewrite malloc_length; auto).
  assert (length buffer = size -> beam_size ≠ 1 -> size = 0) as Hz.
  { unfold buffer. case_decide; [done|]. rewrite malloc_length. lia. }
  unfold Launch_ExpandInputSequences. rewrite (launch_single order). unfold ExpandInputSequences.
  destruct (new_loops input (take size buffer) batch_size beam_size max_length cur Hl Hc) as (buf & E & Hlen & Hbuf).
  { rewrite length_take. fold size. lia. }
  rewrite E, bind_Ok. eexists. split; [done|].
  match goal with |- wf ?s ∧ _ => assert (wf s) as Hwf by (split; simpl; lia) end.
  split; [done|]. split; [|split; [done|split; [done|split; [done|]]]].
  - intros Hne. split; [done|]. simpl. rewrite length_drop. fold size. destruct Hbuf0 as [H|[H _]]; [|lia]. rewrite (Hz H Hne) in *. lia.
  - by apply expand_rows.
Qed.

(** The greedy append is [Sequences::AppendNextTokenToSequences]. *)
Lemma append_cuda_greedy (order : nat -> list nat) {Ho : Schedule order} (s : Sequences) (next_tokens : list Z) :
  (Z.of_nat (batch_beam_size_ s * max_length_ s + current_length_ s) <= INT_MAX)%Z ->
  Sequences_Cuda_AppendNextTokenToSequences order s next_tokens = AppendNextTokenToSequences s next_tokens.
Proof.
  intros Hi. unfold Sequences_Cuda_AppendNextTokenToSequences, Launch_AppendNextTokenToSequences, AppendNextTokenToSequences.
  rewrite (launch_single order). unfold AppendNextTokenToSequences_kernel.
  done.
Qed.

(** ** A launch in two dimensions *)
Section launch2.
Context {M : Type} (P : list nat -> M -> Prop) (order : nat -> list nat) {Ho : Schedule order} (thread : Z -> Z -> M -> outcome M).
Context (width : nat) (nx ny : nat).
Context (Hskip : ∀ l k m, nx <= k mod width ∨ ny <= k / width -> P l m -> P (l ++ [k]) m).
Context (Hstep : ∀ l k m, k mod width < nx -> k / width < ny -> k ∉ l -> P l m ->
  ∃ m', thread (Z.of_nat (k mod width)) (Z.of_nat (k / width)) m = Ok m' ∧ P (l ++ [k]) m').

Lemma launch2_inv (gx gy bx by_ : Z) m :
  (0 < gx -> 0 < gy <= max_grid_y -> 0 < bx -> 0 < by_ -> bx * by_ <= max_threads_per_block -> Z.of_nat width = gx * bx ->
   gx * bx <= INT_MAX -> gy * by_ <= INT_MAX ->
   (∀ i j m, Z.of_nat i < gx * bx -> Z.of_nat j < gy * by_ -> (nx <= i ∨ ny <= j)%nat -> thread (Z.of_nat i) (Z.of_nat j) m = Ok m) -> P [] m ->
   ∃ m' l, launch2 order gx gy bx by_ thread m = Ok m' ∧ P l m' ∧ l ≡ₚ seq 0 (Z.to_nat (gx * bx * (gy * by_))))%Z.
Proof.
  intros Hgx [Hgy Hgy'] Hbx Hby Hth Hw Hix Hiy Hidle Hm. unfold launch2.
  rewrite !(proj2 (Z.ltb_lt _ _)), !(proj2 (Z.leb_le _ _)) by done. cbn [andb]. cbv zeta.
  set (N := Z.to_nat (gx * bx * (gy * by_))). assert (order N ≡ₚ seq 0 N) as Hp by apply schedule_perm.
  destruct (for_each_threads P (fun k => thread (i32 (Z.of_nat k mod (gx * bx))) (i32 (Z.of_nat k / (gx * bx)))) (order N) [] m)
    as (m' & E & Hm'); [rewrite app_nil_l, Hp; apply NoDup_seq|done| |].
  - intros l k m1 Hk Hkl Hm1. rewrite Hp in Hk. apply elem_of_seq in Hk as [_ Hk].
    rewrite <- Hw, <- Nat2Z.inj_mod, <- Nat2Z.inj_div. unfold INT_MAX in *.
    assert (k mod width < width) by (apply Nat.mod_upper_bound; lia).
    assert (k / width < Z.to_nat (gy * by_)) by (apply Nat.Div0.div_lt_upper_bound; unfold N in Hk; nia).
    rewrite !i32_id by (unfold INT_MIN, INT_MAX; lia).
    destruct (decide (k mod width < nx ∧ k / width < ny)) as [[H1 H2]|Hn]; [by apply Hstep|].
    exists m1. split; [apply Hidle; unfold INT_MAX in *; lia|apply Hskip; [lia|done]].
  - exists m', (order N). split; [done|]. split; [exact Hm'|done].
Qed.
End launch2.

Lemma append_grid_ok (bb cur : nat) : 0 < bb -> 0 < cur -> (Z.of_nat (bb * cur) + 512 <= INT_MAX)%Z ->
  (Z.of_nat cur <= 512 * max_grid_y)%Z ->
  ∃ gx gy bx by_, append_grid (Z.of_nat bb) (Z.of_nat cur) = Ok (gx, gy, bx, by_) ∧
    (0 < gx ∧ 0 < gy <= max_grid_y ∧ 0 < bx ∧ 0 < by_ ∧ bx * by_ <= max_threads_per_block ∧
     Z.of_nat bb <= gx * bx <= INT_MAX ∧ Z.of_nat cur <= gy * by_ <= INT_MAX)%Z.
Proof.
  intros Hb Hc Hi Hy. unfold append_grid, append_max_threads, max_threads_per_block, max_grid_y, INT_MAX in *.
  rewrite <- Nat2Z.inj_mul, chk32_ok, bind_Ok by (unfold INT_MIN, INT_MAX; lia).
  assert (bb <= bb * cur ∧ cur <= bb * cur) as [H1 H2] by nia.
  destruct (Z.leb_spec (Z.of_nat (bb * cur)) 512) as [Hs|Hs].
  { eexists _, _, _, _. split; [reflexivity|]. rewrite Nat2Z.inj_mul in *. repeat split; lia. }
  destruct (Z.leb_spec (Z.of_nat cur) 512) as [Hl|Hl]; eexists _, _, _, _; (split; [reflexivity|]).
  - rewrite (Z.quot_div_nonneg 512) by lia. set (x := (512 / Z.of_nat cur)%Z).
    assert (0 < x)%Z by (apply Z.div_str_pos; lia).
    assert (x * Z.of_nat cur <= 512)%Z as Hx by (unfold x; rewrite Z.mul_comm; apply Z.mul_div_le; lia).
    assert (x <= 512)%Z by nia. clearbody x. rewrite Z.quot_div_nonneg by lia.
    pose proof (Z.div_mod (Z.of_nat bb + x - 1) x ltac:(lia)) as Hd. pose proof (Z.mod_pos_bound (Z.of_nat bb + x - 1) x ltac:(lia)) as Hm.
    assert (0 < (Z.of_nat bb + x - 1) / x)%Z by (apply Z.div_str_pos; lia).
    set (q := ((Z.of_nat bb + x - 1) / x)%Z) in *. clearbody q. repeat split; nia.
  - rewrite Z.quot_div_nonneg by lia.
    pose proof (Z.div_mod (Z.of_nat cur + 512 - 1) 512 ltac:(lia)) as Hd. pose proof (Z.mod_pos_bound (Z.of_nat cur + 512 - 1) 512 ltac:(lia)) as Hm.
    assert (0 < (Z.of_nat cur + 512 - 1) / 512)%Z by (apply Z.div_str_pos; lia).
    set (q := ((Z.of_nat cur + 512 - 1) / 512)%Z) in *. clearbody q. repeat split; lia.
Qed.

(** ** The beam search append *)
Section beam_append.
Context (order : nat -> list nat) {Ho : Schedule order} (s : Sequences) (indices tokens : list Z).
Local Abbreviation bb := (batch_beam_size_ s).
Local Abbreviation w := (max_length_ s).
Local Abbreviation cur := (current_length_ s).
Context (Hwf : wf_beam s) (Hb : 0 < bb) (Hc : 0 < cur) (Hlt : cur < w).
Context (Ht : length tokens = bb) (Hi : length indices = bb).
Context (Hr : ∀ i z, i < bb -> indices !! i = Some z -> (0 <= z < Z.of_nat bb)%Z).
Context (Hint : (Z.of_nat (bb * w) + 512 <= INT_MAX)%Z).

(* the cells [l] of the grid hold the tokens of their source *)
Definition copied (width : nat) (l : list nat) (next : list Z) : Prop :=
  length next = bb * w ∧
  ∀ i j z, i < bb -> j < cur -> indices !! i = Some z -> j * width + i ∈ l -> next !! (i * w + j) = sequences_ s !! (Z.to_nat z * w + j).

Lemma copy_step (width : nat) (l : list nat) (k : nat) (next : list Z) : bb <= width ->
  k mod width < bb -> k / width < cur -> copied width l next ->
  ∃ next', BeamSearchScorer_AppendNextTokenToSequences1 (Z.of_nat bb) (Z.of_nat w) (sequences_ s) (Z.of_nat cur) (map Some indices)
      (Z.of_nat (k mod width)) (Z.of_nat (k / width)) next = Ok next' ∧ copied width (l ++ [k]) next'.
Proof.
  intros Hw Hx Hy [Hl Hn]. pose proof (Nat.div_mod_eq k width) as Hk. set (x := k mod width) in *. set (y := k / width) in *. clearbody x y. subst k.
  destruct Hwf as [[Hls _] _]. unfold INT_MAX in Hint.
  destruct (lookup_lt_is_Some_2 indices x) as [z Hz]; [lia|]. pose proof (Hr x z Hx Hz) as Hzr.
  pose proof (row_index x bb y w Hx ltac:(lia)) as B1. pose proof (row_index (Z.to_nat z) bb y w ltac:(lia) ltac:(lia)) as B2.
  unfold BeamSearchScorer_AppendNextTokenToSequences1. rewrite !(proj2 (Z.leb_gt _ _)) by lia.
  rewrite getZ_get, Nat2Z.id, (get_Some _ _ (Some z)), bind_Ok by (lia || by rewrite list_lookup_fmap, Hz). cbn [initialised]. rewrite bind_Ok.
  rewrite <- Nat2Z.inj_mul, (chk32_ok (Z.of_nat (x * w))), bind_Ok by (unfold INT_MIN, INT_MAX; lia).
  rewrite <- Nat2Z.inj_add, (chk32_ok (Z.of_nat (x * w + y))), bind_Ok by (unfold INT_MIN, INT_MAX; lia).
  replace (z * Z.of_nat w)%Z with (Z.of_nat (Z.to_nat z * w)) by nia.
  rewrite (chk32_ok (Z.of_nat (Z.to_nat z * w))), bind_Ok by (unfold INT_MIN, INT_MAX; lia).
  rewrite <- Nat2Z.inj_add, (chk32_ok (Z.of_nat (Z.to_nat z * w + y))), bind_Ok by (unfold INT_MIN, INT_MAX; lia).
  rewrite getZ_get, Nat2Z.id by lia. destruct (get_lt (sequences_ s) (Z.to_nat z * w + y)) as (v & -> & Hv); [lia|].
  rewrite bind_Ok, putZ_put, Nat2Z.id, put_lt by lia. eexists. split; [reflexivity|]. split; [by rewrite length_insert|].
  intros i j z' Hi' Hj Hz' Hin. destruct (decide (i = x ∧ j = y)) as [[-> ->]|Hne].
  - rewrite list_lookup_insert_eq by lia. by replace z' with z by congruence.
  - rewrite list_lookup_insert_ne by (intros E; apply row_index_inj in E; lia). apply Hn; [done..|].
    apply elem_of_app in Hin as [Hin|Hin%list_elem_of_singleton]; [done|]. exfalso.
    rewrite (Nat.mul_comm width) in Hin. apply row_index_inj in Hin; lia.
Qed.

Lemma copy_skip (width : nat) (l : list nat) (k : nat) (next : list Z) : bb <= width ->
  bb <= k mod width ∨ cur <= k / width -> copied width l next -> copied width (l ++ [k]) next.
Proof.
  intros Hw Hk [Hl Hn]. split; [done|]. intros i j z Hi' Hj Hz [Hin|Hin%list_elem_of_singleton]%elem_of_app; [by apply Hn|]. exfalso.
  pose proof (Nat.div_mod_eq k width) as E. pose proof (Nat.mod_upper_bound k width ltac:(lia)) as Hm.
  rewrite E, (Nat.mul_comm width) in Hin. apply row_index_inj in Hin; lia.
Qed.

(* the column of the new tokens *)
Definition appended (l : list nat) (next : list Z) : Prop :=
  copied bb (seq 0 (cur * bb)) next ∧ ∀ i t, i ∈ l -> tokens !! i = Some t -> next !! (i * w + cur) = Some t.

Lemma append_step l i next : i < bb -> i ∉ l -> appended l next ->
  ∃ next', BeamSearchScorer_AppendNextTokenToSequences2 (Z.of_nat w) (Z.of_nat cur) (map Some tokens) (Z.of_nat i) next = Ok next' ∧
    appended (l ++ [i]) next'.
Proof.
  intros Hib _ [[Hl Hn] Ha]. unfold INT_MAX in Hint. destruct (lookup_lt_is_Some_2 tokens i) as [t Et]; [lia|].
  pose proof (row_index i bb cur w Hib Hlt) as B. unfold BeamSearchScorer_AppendNextTokenToSequences2.
  rewrite getZ_get, Nat2Z.id, (get_Some _ _ (Some t)), bind_Ok by (lia || by rewrite list_lookup_fmap, Et). cbn [initialised]. rewrite bind_Ok.
  rewrite <- Nat2Z.inj_mul, (chk32_ok (Z.of_nat (i * w))), bind_Ok by (unfold INT_MIN, INT_MAX; lia).
  rewrite <- Nat2Z.inj_add, (chk32_ok (Z.of_nat (i * w + cur))), bind_Ok by (unfold INT_MIN, INT_MAX; lia).
  rewrite putZ_put, Nat2Z.id, put_lt by lia. eexists. split; [reflexivity|]. split; [split; [by rewrite length_insert|]|].
  - intros i' j z Hi' Hj Hz Hin. rewrite list_lookup_insert_ne by (intros E; apply row_index_inj in E; lia). by apply Hn.
  - intros i' t' [Hin|Hin%list_elem_of_singleton]%elem_of_app Et'.
    + destruct (decide (i' = i)) as [->|Hne]; [replace t' with t by congruence; apply list_lookup_insert_eq; lia|].
      rewrite list_lookup_insert_ne by (intros E; apply row_index_inj in E; lia). by apply Ha.
    + subst i'. replace t' with t by congruence. apply list_lookup_insert_eq. lia.
Qed.

Lemma appended_rows next : appended (seq 0 bb) next ->
  let s' := rotated (mkSequences (sequences_ s) next bb w cur) in
  wf_beam s' ∧ ∀ i z t, i < bb -> indices !! i = Some z -> tokens !! i = Some t -> row s' i = row s (Z.to_nat z) ++ [t].
Proof.
  intros [[Hl2 Hn2] Ha2]. pose proof Hwf as [[Hls _] Hln]. cbv zeta. split; [split; [split; [exact Hl2|simpl; lia]|exact Hls]|].
  intros i z t Hi' Hz Et. unfold row. simpl. pose proof (Hr i z Hi' Hz) as Hzr. clear Hint Hr.
  pose proof (row_bound i bb w Hi') as B. pose proof (row_bound (Z.to_nat z) bb w ltac:(lia)) as B2.
  rewrite (row_snoc _ _ _ t); [f_equal|rewrite Hl2; lia|apply Ha2; [apply elem_of_seq; lia|done]].
  apply (list_eq_lt _ _ cur); [apply length_window; rewrite Hl2; lia|apply length_window; rewrite Hls; lia|].
  intros j Hj. rewrite !lookup_window by done. apply Hn2; [done..|]. apply elem_of_seq. pose proof (row_index j cur i bb Hj Hi'). lia.
Qed.

Lemma append_cuda_beam (batch_size num_beams : nat) : bb = batch_size * num_beams -> (Z.of_nat bb <= max_threads_per_block)%Z ->
  (Z.of_nat cur <= 512 * max_grid_y)%Z ->
  ∃ next, LaunchBeamSearchScorer_AppendNextTokenToSequences order (Z.of_nat batch_size) (Z.of_nat num_beams) (Z.of_nat w)
      (sequences_ s) (sequences_next_ s) (Z.of_nat cur) (map Some tokens) (map Some indices) = Ok next ∧
    let s' := rotated (mkSequences (sequences_ s) next bb w cur) in
    wf_beam s' ∧ ∀ i z t, i < bb -> indices !! i = Some z -> tokens !! i = Some t -> row s' i = row s (Z.to_nat z) ++ [t].
Proof.
  intros Hbb H1024 Hcy. pose proof Hwf as [[Hls _] Hln]. unfold LaunchBeamSearchScorer_AppendNextTokenToSequences.
  assert (bb * cur <= bb * w) as Hbc by nia. assert (bb <= bb * w) as Hbw by nia.
  rewrite <- Nat2Z.inj_mul, <- Hbb. rewrite chk32_ok, bind_Ok by (unfold INT_MIN, INT_MAX in *; lia).
  destruct (append_grid_ok bb cur Hb Hc) as (gx & gy & bx & by_ & -> & Hgx & Hgy & Hbx & Hby & Hth & [Hw1 Hw2] & Hh1 & Hh2); [lia|done|].
  rewrite bind_Ok. cbv iota beta. set (width := Z.to_nat (gx * bx)). assert (Z.of_nat width = gx * bx)%Z as Hwd by (unfold width; lia).
  destruct (launch2_inv (copied width) order
      (BeamSearchScorer_AppendNextTokenToSequences1 (Z.of_nat bb) (Z.of_nat w) (sequences_ s) (Z.of_nat cur) (map Some indices)) width bb cur)
    with (gx := gx) (gy := gy) (bx := bx) (by_ := by_) (m := sequences_next_ s) as (next1 & l & -> & [Hl1 Hn1] & Hl); try done.
  - intros l k m Hk Hm. apply copy_skip; [lia|done|done].
  - intros l k m Hx Hy _ Hm. apply copy_step; [lia|done..].
  - intros i j m _ _ [Hij|Hij]; unfold BeamSearchScorer_AppendNextTokenToSequences1; [by rewrite (proj2 (Z.leb_le _ _)) by lia|].
    case_match; [done|]. by rewrite (proj2 (Z.leb_le _ _)) by lia.
  - split; [done|]. intros ???? ? ? H. by apply not_elem_of_nil in H.
  - rewrite bind_Ok.
    destruct (launch_inv appended order (BeamSearchScorer_AppendNextTokenToSequences2 (Z.of_nat w) (Z.of_nat cur) (map Some tokens)) bb) with
      (grid := 1%Z) (block := Z.of_nat bb) (m := next1) as (next & -> & [[Hl2 Hn2] Ha2]).
    (* the same threads have run *)
    + intros l1 l2 m Hp [H1 H2]. split; [done|]. intros i t Hin. apply H2. by rewrite Hp.
    + intros l1 i m Hi' Hni Hm. by apply append_step.
    + lia.
    + lia.
    + unfold INT_MAX in *. lia.
    + intros i m Hge Hlt'. lia.
    + split; [split; [done|]|intros ?? H; by apply not_elem_of_nil in H]. intros i j z Hi' Hj Hz _. apply Hn1; [done..|].
      rewrite Hl. apply elem_of_seq. nia.
    + exists next. split; [done|]. by apply appended_rows.
Qed.
End beam_append.
