(* ===== verification/CudaScorer.v ===== *)
(** * Beam search scoring on the device (src/beam_search_scorer_cuda.h,
    src/beam_search_scorer_cuda.cuh, src/beam_search_scorer_cuda.cpp and the
    scorer's kernels in src/beam_search_scorer_cuda.cu)

    [BeamHypotheses] and [HypothesisScore] have the members of the CPU's, and so
    has the part of [BeamSearchScorer_Cuda] in device memory; the host keeps a
    copy of the count of open entries, which [IsDoneLater] reads.  A thread of
    [BeamSearchScorer_Process] is one batch entry; the threads share the
    hypothesis buffer and the count, through atomic additions. *)
From Stdlib Require Import ZArith Lia SpecFloat.
From stdpp Require Import base numbers list.
From S2P Require Import Prelude Float32 Cuda Sequences BeamScorer CudaSequences.
Local Open Scope nat_scope.

Record BeamSearchScorer_Cuda := mkScorerCuda {
  gpu_ : BeamSearchScorer;             (* device memory and *state_gpu_ *)
  cpu_not_done_count_ : Z }.           (* state_cpu_->not_done_count_ *)

Definition IsDoneLater (s : BeamSearchScorer_Cuda) : bool := (cpu_not_done_count_ s =? 0)%Z.

(** ** Construction *)
(* rounds the block up to whole warps, with more blocks beyond 256 threads *)
Definition GridBlock32 (count : Z) : outcome (Z * Z) :=
  n ← chk32 (count + 31);
  let block_size := Z.land n (Z.lnot 31) in
  Ok (if 256 <? block_size then (Z.quot (block_size + 255) 256, 256) else (1, block_size))%Z.

Definition InitializeBeamHypotheses (beam_hyps_count : Z) (length_penalty : f32) (num_beams : nat) (index : Z)
    (beam_hyps : list BeamHypotheses) : outcome (list BeamHypotheses) :=
  if (beam_hyps_count <=? index)%Z then Ok beam_hyps
  else putZ beam_hyps index (mkBeamHyps (uninit num_beams) 0 length_penalty false).

Definition InitScoresKernel (num_beams total_elements index : Z) (beam_scores : list f32) : outcome (list f32) :=
  if (index <? total_elements)%Z then
    if (num_beams =? 0)%Z then Undef else
    let beam_index := Z.rem index num_beams in
    putZ beam_scores index (if (0 <? beam_index)%Z then f32_of_Z (-1000000000) else f0)
  else Ok beam_scores.

Section construction.
Context (order : nat -> list nat) (malloc_hyps : nat -> list BeamHypotheses) (malloc_scores : nat -> list f32).

Definition LaunchInitializeBeamHypotheses (beam_hyps : list BeamHypotheses) (length_penalty : f32) (num_beams : nat)
  : outcome (list BeamHypotheses) :=
  let count := Z.of_nat (length beam_hyps) in
  '(grid, block) ← GridBlock32 count;
  launch order grid block (InitializeBeamHypotheses count length_penalty num_beams) beam_hyps.

Definition LaunchInitScoresKernel (beam_scores : list f32) (batch_size num_beams : Z) : outcome (list f32) :=
  total_elements ← chk32 (batch_size * num_beams);
  launch_256 order total_elements (InitScoresKernel num_beams total_elements) beam_scores.

Definition BeamSearchScorer_Cuda_new (batch_size num_beams max_length : nat) (length_penalty : f32) (sequence_length : Z)
  : outcome BeamSearchScorer_Cuda :=
  batch_beam_size ← int_nat (batch_size * num_beams);
  hyps ← LaunchInitializeBeamHypotheses (malloc_hyps batch_size) length_penalty num_beams;
  scores ← LaunchInitScoresKernel (malloc_scores batch_beam_size) (Z.of_nat batch_size) (Z.of_nat num_beams);
  pb ← per_beam max_length sequence_length;
  let count := Z.to_nat (u64 (Z.of_nat batch_beam_size * u64 pb)) in
  Ok (mkScorerCuda (mkScorer (Z.of_nat batch_size) scores (uninit batch_beam_size) (uninit batch_beam_size) (uninit count) 0 hyps)
        (Z.of_nat batch_size)).
End construction.

Section scorer.
Context (pow : f32 -> f32 -> f32).

(** The members of [BeamHypotheses], as compiled for the device. *)
Definition Device_Add : BeamHypotheses -> token_span -> f32 -> outcome BeamHypotheses := Add pow.
Definition Device_CanImprove : BeamHypotheses -> f32 -> nat -> outcome bool := CanImprove pow.

(* no check of sizes; the rest of a row is padded *)
Definition Device_Output (buffer : list (option Z)) (seqs : Sequences) (b : BeamHypotheses) (top_k max_length : nat) (pad_token_id : Z)
    (base : nat) (sequences_scores : bool) (sbase : nat) (out : list Z * list f32) : outcome (list Z * list f32) :=
  for_ top_k (fun index out =>
    item ← get_init (beams_ b) index;
    let target := base + index * max_length in
    toks ← read_span buffer seqs (hypothesis item);
    o ← blit (fst out) target toks;
    o ← blit o (target + length toks) (replicate (max_length - length toks) pad_token_id);
    if sequences_scores then sc ← put (snd out) (sbase + index) (score item); Ok (o, sc) else Ok (o, snd out)) out.

(* the members of [BeamScorerState] the constructor sets once *)
Context (batch_size_ num_beams_ max_length_ : nat) (pad_token_id_ eos_token_id_ : Z) (early_stopping_ : bool).

(* clone the sequence: a place in the buffer of its own, by an atomic addition *)
Definition clone_hypothesis (sequences : Sequences) (batch : nat) (batch_beam_idx : Z) (next_score : f32) (s : BeamSearchScorer)
  : outcome BeamSearchScorer :=
  let sequence_length := GetSequenceLength sequences in
  src ← chk32 (batch_beam_idx * Z.of_nat max_length_);
  let clone := hypothesis_buffer_used_ s in
  used ← int_nat (clone + sequence_length);
  tokens ← subspanZ (sequences_ sequences) src (Z.of_nat sequence_length);
  buf ← blit (hypothesis_buffer_ s) clone (map Some tokens);
  beam_hyp ← get (beam_hyps_ s) batch;
  beam_hyp ← Device_Add beam_hyp (InBuffer clone sequence_length) next_score;
  Ok (set_beam_hyps (<[batch := beam_hyp]> (beam_hyps_ s)) (set_buffer buf used s)).

(* for (size_t j = 0; j < top_k; j++): [n] iterations are left *)
Fixpoint next_candidates (sequences : Sequences) (next_scores : list f32) (next_tokens next_indices : list Z)
    (batch n j beam_idx : nat) (s : BeamSearchScorer) : outcome (BeamSearchScorer * nat) :=
  match n with
  | O => Ok (s, beam_idx)
  | S n' =>
      let top_k := 2 * num_beams_ in
      batch_start ← int_nat (batch * num_beams_);
      next_token ← get next_tokens (batch * top_k + j);
      next_score ← get next_scores (batch * top_k + j);
      next_index ← get next_indices (batch * top_k + j);
      batch_beam_idx ← chk32 (Z.of_nat batch_start + next_index);
      if is_eos eos_token_id_ next_token then
        if num_beams_ <=? j then next_candidates sequences next_scores next_tokens next_indices batch n' (S j) beam_idx s else
        s ← clone_hypothesis sequences batch batch_beam_idx next_score s;
        if beam_idx =? num_beams_ then Ok (s, beam_idx)
        else next_candidates sequences next_scores next_tokens next_indices batch n' (S j) beam_idx s
      else
        s ← write_next (batch_start + beam_idx) next_score next_token batch_beam_idx s;
        if S beam_idx =? num_beams_ then Ok (s, S beam_idx)
        else next_candidates sequences next_scores next_tokens next_indices batch n' (S j) (S beam_idx) s
  end.

(* if (atomicAdd(&state.not_done_count_, -1) == 0) state_cpu.not_done_count_ = 0; the addition gives the old count *)
Definition count_done (st : BeamSearchScorer_Cuda) : outcome BeamSearchScorer_Cuda :=
  let old := not_done_count_ (gpu_ st) in
  n ← chk32 (old - 1);
  Ok (mkScorerCuda (set_not_done_count n (gpu_ st)) (if (old =? 0)%Z then 0%Z else cpu_not_done_count_ st)).

Definition BeamSearchScorer_Process (sequences : Sequences) (next_scores : list f32) (next_tokens next_indices : list Z)
    (batch : nat) (st : BeamSearchScorer_Cuda) : outcome BeamSearchScorer_Cuda :=
  let s := gpu_ st in
  batch_start ← int_nat (batch * num_beams_);
  beam_hyp ← get (beam_hyps_ s) batch;
  if done_ beam_hyp then
    s ← for_ num_beams_ (fun beam_idx s => write_next (batch_start + beam_idx) f0 pad_token_id_ 0%Z s) s;
    Ok (mkScorerCuda s (cpu_not_done_count_ st))
  else
    let top_k := 2 * num_beams_ in
    '((s, beam_idx) : BeamSearchScorer * nat) ← next_candidates sequences next_scores next_tokens next_indices batch top_k 0 0 s;
    beam_hyp ← get (beam_hyps_ s) batch;
    let st := mkScorerCuda s (cpu_not_done_count_ st) in
    if negb (beams_used_ beam_hyp =? num_beams_) then Ok st else
    improve ←
      (if early_stopping_ then Ok false else
       scores ← subspan next_scores batch_start top_k;
       best ← get scores (max_element scores);
       Device_CanImprove beam_hyp best (GetSequenceLength sequences));
    if (improve : bool) then Ok st else
    let beam_hyp := mkBeamHyps (beams_ beam_hyp) (beams_used_ beam_hyp) (length_penalty_ beam_hyp) true in
    count_done (mkScorerCuda (set_beam_hyps (<[batch := beam_hyp]> (beam_hyps_ s)) s) (cpu_not_done_count_ st)).

Section launches.
Context (order : nat -> list nat).

(* <<<1, batch_size>>> *)
Definition LaunchBeamSearchScorer_Process (sequences : Sequences) (next_scores : list f32) (next_tokens next_indices : list Z)
    (st : BeamSearchScorer_Cuda) : outcome BeamSearchScorer_Cuda :=
  launch order 1 (Z.of_nat batch_size_)
    (fun batch => BeamSearchScorer_Process sequences next_scores next_tokens next_indices (Z.to_nat batch)) st.

(** [Process]: the scorer's step, then the sequences of the next one in the
    second buffer. *)
Definition Process_Cuda (st : BeamSearchScorer_Cuda) (sequences : Sequences) (next_scores : list f32)
    (next_tokens next_indices : list Z) : outcome (BeamSearchScorer_Cuda * Sequences) :=
  st ← LaunchBeamSearchScorer_Process sequences next_scores next_tokens next_indices st;
  next ← LaunchBeamSearchScorer_AppendNextTokenToSequences order (Z.of_nat batch_size_) (Z.of_nat num_beams_) (Z.of_nat max_length_)
    (sequences_ sequences) (sequences_next_ sequences) (Z.of_nat (GetSequenceLength sequences))
    (next_beam_tokens_ (gpu_ st)) (next_beam_indices_ (gpu_ st));
  Ok (st, mkSequences (sequences_ sequences) next (batch_beam_size_ sequences) (Sequences.max_length_ sequences)
            (Sequences.current_length_ sequences)).

(* a thread works on the entry's hypotheses, then on its rows of the output;
   a null [sequence_scores] is the empty list *)
Definition BeamSearchScorer_Finalize (sequences : Sequences) (batch_index : nat) (st : BeamSearchScorer * (list Z * list f32))
  : outcome (BeamSearchScorer * (list Z * list f32)) :=
  let '(s, out) := st in
  if batch_size_ <=? batch_index then Ok st else
  s ← finalize_batch pow num_beams_ sequences batch_index s;
  beam_hyp ← get (beam_hyps_ s) batch_index;
  let num_return_sequences := 1 in
  base ← int_nat (batch_index * num_return_sequences * max_length_);
  out ← Device_Output (hypothesis_buffer_ s) sequences beam_hyp num_return_sequences max_length_ pad_token_id_ base
    (negb (bool_decide (snd out = []))) (batch_index * num_return_sequences) out;
  Ok (s, out).

(* <<<1, batch_size>>>; [num_return_sequences] is not passed on *)
Definition Finalize_Cuda (st : BeamSearchScorer_Cuda) (sequences : Sequences) (num_return_sequences : nat) (output : list Z)
    (sequence_scores : list f32) : outcome (BeamSearchScorer_Cuda * (list Z * list f32)) :=
  _ ← assert_ (negb (bool_decide (output = [])));
  '(s, out) ← launch order 1 (Z.of_nat batch_size_) (fun batch => BeamSearchScorer_Finalize sequences (Z.to_nat batch))
    (gpu_ st, (output, sequence_scores));
  Ok (mkScorerCuda s (cpu_not_done_count_ st), out).
End launches.
End scorer.

(** ** A thread does what the CPU does for its entry *)
Section thread.
Context (pow : f32 -> f32 -> f32) (nb w : nat) (pad eos : Z) (early : bool).
Context (seqs : Sequences) (next_scores : list f32) (next_tokens next_indices : list Z).
Context (Hwf : wf seqs) (Hw : Sequences.max_length_ seqs = w) (Hw0 : 0 < w).
Context (Hint : (Z.of_nat (batch_beam_size_ seqs * w) <= INT_MAX)%Z).

Lemma clone_is_end batch z x s : clone_hypothesis pow w seqs batch z x s = end_hypothesis pow seqs batch z x s.
Proof.
  destruct Hwf as [Hl Hc]. rewrite Hw in Hl, Hc. unfold clone_hypothesis, end_hypothesis, GetSequence, GetSequenceLength, Device_Add.
  rewrite Hw. set (cur := Sequences.current_length_ seqs) in *. unfold INT_MAX in Hint.
  destruct (decide (0 <= z)%Z) as [Hz|Hz].
  2:{ unfold chk32. case_match; [|done]. rewrite bind_Ok. unfold int_nat. case_decide; [|done]. rewrite bind_Ok. unfold subspanZ.
      by rewrite decide_False by nia. }
  destruct (decide (Z.to_nat z * w + cur <= batch_beam_size_ seqs * w)) as [Hr|Hr].
  - assert (Z.of_nat (Z.to_nat z * w) <= Z.of_nat (batch_beam_size_ seqs * w))%Z as Hr' by lia.
    replace (z * Z.of_nat w)%Z with (Z.of_nat (Z.to_nat z * w)) by nia.
    rewrite (chk32_ok (Z.of_nat (Z.to_nat z * w))), bind_Ok by (unfold INT_MIN, INT_MAX; lia).
    rewrite (subspan_le (sequences_ seqs)), bind_Ok by (rewrite Hl; lia). unfold subspanZ.
    rewrite decide_True by (rewrite Hl; lia). rewrite !Nat2Z.id, (subspan_le (sequences_ seqs)) by (rewrite Hl; lia).
    set (src := take cur (drop (Z.to_nat z * w) (sequences_ seqs))).
    assert (length src = cur) as Ls by (apply length_window; rewrite Hl; lia).
    unfold copy. rewrite length_map, Ls, Nat.eqb_refl. cbn [negb andb].
    destruct (decide (hypothesis_buffer_used_ s + cur <= length (hypothesis_buffer_ s))) as [Hb|Hb].
    + rewrite subspan_le, bind_Ok by done. rewrite blit_le, !bind_Ok by (rewrite length_map, Ls; done).
      unfold int_nat. case_decide; [|done]. by rewrite !bind_Ok, blit_le by (rewrite length_map, Ls; done).
    + unfold subspan. rewrite decide_False by done. unfold int_nat. case_decide; [|done].
      rewrite !bind_Ok. unfold blit. by rewrite decide_False by (rewrite length_map, Ls; done).
  - assert (subspan (sequences_ seqs) (Z.to_nat z * w) cur = Undef) as -> by (unfold subspan; by rewrite decide_False by (rewrite Hl; done)).
    unfold chk32. case_match; [|done]. rewrite bind_Ok. unfold int_nat. case_decide; [|done].
    rewrite bind_Ok. unfold subspanZ. rewrite decide_False; [done|]. rewrite Hl. nia.
Qed.

Lemma candidates_agree batch : (Z.of_nat (batch * nb) <= INT_MAX)%Z -> ∀ n j beam_idx s,
  next_candidates pow nb w eos seqs next_scores next_tokens next_indices batch n j beam_idx s =
  candidates pow nb eos seqs next_scores next_tokens next_indices batch n j beam_idx s.
Proof.
  intros Hb. induction n as [|n IH]; intros j beam_idx s; [done|]. cbn [next_candidates candidates]. cbv zeta.
  rewrite int_nat_ok, bind_Ok, i32_id by (done || unfold INT_MIN; lia).
  destruct (get next_tokens _) as [t| |]; [|done|done]. rewrite !bind_Ok. destruct (get next_scores _) as [x| |]; [|done|done]. rewrite !bind_Ok.
  destruct (get next_indices _) as [ix| |]; [|done|done]. rewrite !bind_Ok. destruct (chk32 _) as [z| |]; [|done|done]. rewrite !bind_Ok.
  destruct (is_eos eos t); cbn [andb].
  - destruct (nb <=? j); [apply IH|]. rewrite clone_is_end. destruct (end_hypothesis _ _ _ _ _ _); [|done|done]. rewrite !bind_Ok.
    cbv beta iota. destruct (beam_idx =? nb); [done|]. apply IH.
  - destruct (write_next _ _ _ _ _); [|done|done]. rewrite !bind_Ok. cbv beta iota. destruct (S beam_idx =? nb); [done|]. apply IH.
Qed.

(* the count the host sees after a thread took the device from [s] to [s'] *)
Definition host_count (s s' : BeamSearchScorer) (c : Z) : Z :=
  if (not_done_count_ s =? 0)%Z && negb (not_done_count_ s' =? not_done_count_ s)%Z then 0%Z else c.

Lemma thread_agrees batch s s' c : (Z.of_nat (batch * nb) <= INT_MAX)%Z ->
  process_batch pow nb pad eos early seqs next_scores next_tokens next_indices batch s = Ok s' ->
  (∀ b, beam_hyps_ s' !! batch = Some b -> beams_used_ b <= nb) ->
  (∀ s1 i, candidates pow nb eos seqs next_scores next_tokens next_indices batch (2 * nb) 0 0 s = Ok (s1, i) ->
     not_done_count_ s1 = not_done_count_ s) ->
  BeamSearchScorer_Process pow nb w pad eos early seqs next_scores next_tokens next_indices batch (mkScorerCuda s c) =
  Ok (mkScorerCuda s' (host_count s s' c)).
Proof.
  intros Hb E Hu Hnd. unfold BeamSearchScorer_Process. cbn [gpu_ cpu_not_done_count_]. unfold process_batch in E.
  rewrite int_nat_ok, bind_Ok by done. cbv zeta in *. destruct (get (beam_hyps_ s) batch) as [b| |]; [|done|done]. rewrite bind_Ok. rewrite bind_Ok in E.
  assert (∀ s1, not_done_count_ s1 = not_done_count_ s -> host_count s s1 c = c) as Hsame.
  { intros s1 H1. unfold host_count. rewrite H1, Z.eqb_refl. by rewrite andb_false_r. }
  destruct (done_ b).
  - apply bind_Ok_inv in E as (? & ? & E). rewrite E, bind_Ok. rewrite Hsame; [done|].
    apply (for_inv_Ok (fun _ s1 => not_done_count_ s1 = not_done_count_ s) _ _ _ _ E); [done|].
    intros j s1 s2 _ H1 H2. rewrite <- H1. unfold write_next in H2. by inv_ok.
  - rewrite candidates_agree by done. apply bind_Ok_inv in E as ([s1 i] & E1 & E). rewrite E1, bind_Ok. cbv iota beta.
    specialize (Hnd s1 i E1). apply bind_Ok_inv in E as (? & ? & E). apply bind_Ok_inv in E as (? & ? & E).
    destruct (get (beam_hyps_ s1) batch) as [b1| |] eqn:Eb1; [|done|done]. rewrite bind_Ok. rewrite bind_Ok in E. apply get_Ok_inv in Eb1.
    destruct (Nat.ltb_spec (beams_used_ b1) nb) as [Hlt|Hge].
    { injection E as <-. rewrite (proj2 (Nat.eqb_neq _ _)) by lia. by rewrite Hsame. }
    assert (beams_used_ b1 <= nb) as Hle.
    { apply bind_Ok_inv in E as ([] & ? & E); [injection E as <-; by apply Hu|].
      apply bind_Ok_inv in E as (n & ? & E). injection E as <-. specialize (Hu (mkBeamHyps (beams_ b1) (beams_used_ b1) (length_penalty_ b1) true)).
      apply Hu. cbn. apply list_lookup_insert_eq. by apply lookup_lt_Some in Eb1. }
    rewrite (proj2 (Nat.eqb_eq _ _)) by lia. cbn [negb]. unfold Device_CanImprove.
    destruct (if early then Ok false else _) as [imp| |]; [|done|done]. rewrite bind_Ok. rewrite bind_Ok in E. destruct imp.
    { injection E as <-. by rewrite Hsame. }
    unfold count_done. cbn [gpu_ cpu_not_done_count_ not_done_count_ set_beam_hyps].
    destruct (chk32 (not_done_count_ s1 - 1)) as [n| |] eqn:En; [|done|done]. rewrite bind_Ok. rewrite bind_Ok in E. injection E as <-. f_equal.
    unfold chk32 in En. case_match; [|done]. injection En as <-. unfold host_count. cbn [not_done_count_ set_not_done_count].
    rewrite Hnd. by rewrite (proj2 (Z.eqb_neq (not_done_count_ s - 1) _)) by lia; rewrite andb_true_r.
Qed.
End thread.

Lemma candidates_count pow nb eos seqs next_scores next_tokens next_indices batch : ∀ n j i s s1 i1,
  candidates pow nb eos seqs next_scores next_tokens next_indices batch n j i s = Ok (s1, i1) -> not_done_count_ s1 = not_done_count_ s.
Proof.
  induction n as [|n IH]; intros j i s s1 i1 E; cbn [candidates] in E; [by injection E as <- <-|].
  cbv zeta in E. repeat (apply bind_Ok_inv in E as (? & ? & E)).
  case_match; [by eapply IH|]. apply bind_Ok_inv in E as ([s2 i2] & E2 & E). assert (not_done_count_ s2 = not_done_count_ s) as <-.
  { match type of E2 with context [if ?b then _ else _] => destruct b end; [apply bind_Ok_inv in E2 as (s3 & E3 & E2); injection E2 as <- <-|apply bind_Ok_inv in E2 as (s3 & E3 & E2); injection E2 as <- <-].
    - unfold end_hypothesis in E3. by inv_ok.
    - unfold write_next in E3. by inv_ok. }
  case_match; [by injection E as <- <-|by eapply IH].
Qed.

(** ** A launch: the threads in any order *)
Section process.
Context (pow : f32 -> f32 -> f32) (batch_size nb w : nat) (pad eos : Z) (early : bool) (pen : f32).
Context (seqs : Sequences) (next_scores : list f32) (next_tokens next_indices : list Z).
Context (Hmax : Sequences.max_length_ seqs = w) (Hw0 : 0 < w) (Hint : (Z.of_nat (batch_size * nb * w) <= INT_MAX)%Z).
Context (Hv : valid_input batch_size nb seqs next_scores next_tokens next_indices).
Local Abbreviation cur := (Sequences.current_length_ seqs).
Local Abbreviation step_entry := (spec_entry_of pow nb eos early pen seqs next_scores next_tokens next_indices).
Local Abbreviation step_next := (spec_next_of nb pad eos next_scores next_tokens next_indices).
Local Abbreviation thread := (BeamSearchScorer_Process pow nb w pad eos early seqs next_scores next_tokens next_indices).

Context (st0 : BeamSearchScorer_Cuda) (es : list (list (list Z * f32) * bool)).
Context (Hrel : scorer_rel batch_size nb pen (gpu_ st0) es).
Context (Hroom : hypothesis_buffer_used_ (gpu_ st0) + batch_size * nb * cur <= length (hypothesis_buffer_ (gpu_ st0))).
Context (Hbuf : (Z.of_nat (length (hypothesis_buffer_ (gpu_ st0))) <= INT_MAX)%Z).

(* the entries once the threads [l] have run *)
Definition entries_done (l : list nat) : list (list (list Z * f32) * bool) :=
  imap (fun i e => if decide (i ∈ l) then step_entry i e else e) es.

Record after_threads (l : list nat) (st : BeamSearchScorer_Cuda) : Prop := {
  at_nodup : NoDup l;
  at_range : ∀ i, i ∈ l -> i < batch_size;
  at_rel : scorer_rel batch_size nb pen (gpu_ st) (entries_done l);
  at_used : hypothesis_buffer_used_ (gpu_ st) <= hypothesis_buffer_used_ (gpu_ st0) + length l * nb * cur;
  at_len : length (hypothesis_buffer_ (gpu_ st)) = length (hypothesis_buffer_ (gpu_ st0));
  at_cpu : cpu_not_done_count_ st = cpu_not_done_count_ st0;
  at_next : ∀ batch e, batch ∈ l -> es !! batch = Some e -> next_beams nb (gpu_ st) batch (step_next batch e) }.

Lemma after_perm l l' st : l ≡ₚ l' -> after_threads l st -> after_threads l' st.
Proof.
  intros Hp [H1 H2 H3 H4 H5 H6 H7]. assert (entries_done l' = entries_done l) as E.
  { apply imap_ext. intros i e _. by rewrite (decide_ext (i ∈ l) (i ∈ l')) by by rewrite Hp. }
  split; [by rewrite <- Hp|intros i; rewrite <- Hp; apply H2|by rewrite E|by rewrite <- Hp|done|done|intros b e; rewrite <- Hp; apply H7].
Qed.

Lemma entries_done_step l i e : i ∉ l -> es !! i = Some e ->
  <[i := step_entry i e]> (entries_done l) = entries_done (l ++ [i]).
Proof.
  intros Hi He. apply list_eq. intros k. unfold entries_done. destruct (decide (k = i)) as [->|Hne].
  - apply lookup_lt_Some in He as Hk. rewrite list_lookup_insert_eq by (by rewrite length_imap).
    rewrite list_lookup_imap, He. simpl. rewrite decide_True; [done|]. apply elem_of_app. right. by left.
  - rewrite list_lookup_insert_ne by done. rewrite !list_lookup_imap. destruct (es !! k); [|done]. simpl. f_equal.
    rewrite (decide_ext (k ∈ l) (k ∈ l ++ [i])); [done|]. rewrite elem_of_app, list_elem_of_singleton. naive_solver.
Qed.

Lemma distinct_below (l : list nat) n : NoDup l -> (∀ i, i ∈ l -> i < n) -> length l <= n.
Proof.
  intros Hnd Hr. rewrite <- (length_seq n 0). apply submseteq_length, NoDup_submseteq; [done|].
  intros i Hi. apply elem_of_seq. specialize (Hr i Hi). lia.
Qed.

Lemma thread_step l i st : i < batch_size -> i ∉ l -> after_threads l st ->
  ∃ st', thread i st = Ok st' ∧ after_threads (l ++ [i]) st'.
Proof.
  intros Hi Hil [H1 H2 H3 H4 H5 H6 H7]. destruct (lookup_lt_is_Some_2 es i) as [e He]; [by rewrite (sr_batch _ _ _ _ _ Hrel)|].
  assert (entries_done l !! i = Some e) as He'.
  { unfold entries_done. rewrite list_lookup_imap, He. simpl. by rewrite decide_False. }
  assert (length (l ++ [i]) <= batch_size) as Hll.
  { apply distinct_below; [apply NoDup_app; split; [done|]; split; [intros x Hx ->%list_elem_of_singleton; done|apply NoDup_singleton]|].
    intros k [Hk|Hk%list_elem_of_singleton]%elem_of_app; [by apply H2|lia]. }
  rewrite length_app in Hll. simpl in Hll.
  assert (hypothesis_buffer_used_ (gpu_ st) + nb * cur <= length (hypothesis_buffer_ (gpu_ st))) as Hfit.
  { rewrite H5. etransitivity; [|exact Hroom]. nia. }
  destruct (process_batch_spec pow batch_size nb pad eos early pen seqs next_scores next_tokens next_indices i (gpu_ st) _ e
    Hv Hi H3 He' Hfit) as (s' & E & J1 & J2); [by rewrite H5|].
  pose proof (row_bound i batch_size nb Hi) as Hrow.
  assert (Z.of_nat (i * nb) <= INT_MAX)%Z as Hib by (pose proof (vi_int _ _ _ _ _ _ Hv); lia).
  destruct st as [s c]. cbn [gpu_ cpu_not_done_count_] in *.
  rewrite (thread_agrees pow nb w pad eos early seqs next_scores next_tokens next_indices (vi_wf _ _ _ _ _ _ Hv) Hmax Hw0) with (s' := s');
    [|by rewrite (vi_rows _ _ _ _ _ _ Hv)|done|done| |intros; by eapply candidates_count].
  2:{ intros b Hb. destruct (Forall2_lookup_l _ _ _ _ _ (sr_entries _ _ _ _ _ J1) Hb) as (e2 & _ & R1 & _ & _ & _ & l2 & Hh & _).
      rewrite <- R1, (proj2 Hh). by apply holds_length. }
  rewrite (entries_done_step l i e Hil He) in J1.
  eexists. split; [reflexivity|]. split; cbn [gpu_ cpu_not_done_count_].
  - apply NoDup_app. split; [done|]. split; [intros x Hx ->%list_elem_of_singleton; done|apply NoDup_singleton].
  - intros k [Hk|Hk%list_elem_of_singleton]%elem_of_app; [by apply H2|lia].
  - done.
  - destruct J2 as [_ _ _ K4 _]. rewrite length_app. simpl. nia.
  - destruct J2 as [_ _ _ _ K5]. congruence.
  - unfold host_count. destruct (Z.eqb_spec (not_done_count_ s) 0) as [H0|]; [|done]. cbn [andb].
    rewrite (sr_open _ _ _ _ _ H3) in H0.
    assert (e.2 = true) as Hdone.
    { destruct e as [hs []]; [done|]. exfalso. pose proof (open_insert (entries_done l) i _ (hs, true) He') as Ho. simpl in Ho. lia. }
    assert (step_entry i e = e) as Hsame by (unfold spec_entry_of, spec_entry; by rewrite Hdone).
    rewrite (sr_open _ _ _ _ _ J1), (sr_open _ _ _ _ _ H3), <- (entries_done_step l i e Hil He), Hsame, list_insert_id by done.
    by rewrite Z.eqb_refl.
  - intros batch e' Hb He2.
    destruct (next_written_beams batch_size nb pen seqs i _ s s' batch _ H3 J2) as [N1 N2];
      [by apply (spec_next_length pow batch_size nb pad eos pen seqs)|done|].
    apply elem_of_app in Hb as [Hb|Hb%list_elem_of_singleton].
    + apply N2; [intros ->; done|by apply H7].
    + subst batch. by replace e' with e by congruence.
Qed.
End process.

Section launch_process.
Context (pow : f32 -> f32 -> f32) (batch_size nb w : nat) (pad eos : Z) (early : bool) (pen : f32).
Context (order : nat -> list nat) {Ho : Schedule order}.
Context (seqs : Sequences) (next_scores : list f32) (next_tokens next_indices : list Z).
Context (Hmax : Sequences.max_length_ seqs = w) (Hw0 : 0 < w) (Hint : (Z.of_nat (batch_size * nb * w) <= INT_MAX)%Z).
Context (Hb : 0 < batch_size) (H1024 : (Z.of_nat batch_size <= max_threads_per_block)%Z).
Context (Hv : valid_input batch_size nb seqs next_scores next_tokens next_indices).
Local Abbreviation cur := (Sequences.current_length_ seqs).

Lemma LaunchProcess_ok st es : scorer_rel batch_size nb pen (gpu_ st) es -> cur <= w -> room batch_size nb w cur (gpu_ st) ->
  ∃ st', LaunchBeamSearchScorer_Process pow batch_size nb w pad eos early order seqs next_scores next_tokens next_indices st = Ok st' ∧
    scorer_rel batch_size nb pen (gpu_ st') (imap (spec_entry_of pow nb eos early pen seqs next_scores next_tokens next_indices) es) ∧
    room batch_size nb w (S cur) (gpu_ st') ∧ cpu_not_done_count_ st' = cpu_not_done_count_ st ∧
    ∀ batch e, es !! batch = Some e -> next_beams nb (gpu_ st') batch (spec_next_of nb pad eos next_scores next_tokens next_indices batch e).
Proof.
  intros Hrel Hcur [Hroom Hbi].
  assert (Z.of_nat (batch_size * nb) * (2 * Z.of_nat cur) <= Z.of_nat (batch_size * nb) *
    (Z.of_nat w * (Z.of_nat w + 1) - (Z.of_nat cur - 1) * Z.of_nat cur))%Z as Hfit by (apply Z.mul_le_mono_nonneg_l; nia).
  destruct (launch_inv (after_threads pow batch_size nb pad eos early pen seqs next_scores next_tokens next_indices st es) order
      (fun batch => BeamSearchScorer_Process pow nb w pad eos early seqs next_scores next_tokens next_indices (Z.to_nat batch)) batch_size)
    with (grid := 1%Z) (block := Z.of_nat batch_size) (m := st) as (st' & E & [H1 H2 H3 H4 H5 H6 H7]).
  - intros l l' m. apply after_perm.
  - intros l i m Hi Hil Hm. rewrite Nat2Z.id. apply thread_step; try done; lia.
  - lia.
  - lia.
  - unfold max_threads_per_block, INT_MAX in *. lia.
  - intros i m Hi Hlt. lia.
  - split; try done; [apply NoDup_nil_2|intros i Hi; by apply not_elem_of_nil in Hi| |simpl; lia|intros b e Hi; by apply not_elem_of_nil in Hi].
    unfold entries_done. rewrite (imap_ext _ (const id)) by (intros i e _; by rewrite decide_False by apply not_elem_of_nil).
    by rewrite imap_const, list_fmap_id.
  - exists st'. split; [exact E|]. split; [|split; [|split; [done|]]].
    + unfold entries_done in H3. rewrite (imap_ext _ (spec_entry_of pow nb eos early pen seqs next_scores next_tokens next_indices)) in H3; [done|].
      intros i e He%lookup_lt_Some. rewrite (sr_batch _ _ _ _ _ Hrel) in He. rewrite decide_True; [done|]. apply elem_of_seq. lia.
    + unfold room. rewrite length_seq in H4. rewrite H5. split; [|done].
      replace (Z.of_nat (S cur) - 1)%Z with (Z.of_nat cur) by lia. rewrite Nat2Z.inj_succ. nia.
    + intros batch e He. apply H7; [|done]. apply lookup_lt_Some in He. rewrite (sr_batch _ _ _ _ _ Hrel) in He. apply elem_of_seq. lia.
Qed.
End launch_process.

(** ** The constructor *)
Lemma GridBlock32_ok count : (0 < count)%Z -> (count + 31 + 255 <= INT_MAX)%Z ->
  ∃ grid block, GridBlock32 count = Ok (grid, block) ∧ (0 < grid ∧ 0 < block <= max_threads_per_block ∧ count <= grid * block <= INT_MAX)%Z.
Proof.
  intros Hc Hi. unfold GridBlock32, INT_MAX, max_threads_per_block in *. rewrite chk32_ok, bind_Ok by (unfold INT_MIN, INT_MAX; lia). cbv zeta.
  rewrite <- Z.ldiff_land. change 31%Z with (Z.ones 5) at 2 4 6. rewrite Z.ldiff_ones_r, Z.shiftl_mul_pow2, Z.shiftr_div_pow2 by lia.
  change (2 ^ 5)%Z with 32%Z. pose proof (Z.div_mod (count + 31) 32 ltac:(lia)) as Hd. pose proof (Z.mod_pos_bound (count + 31) 32 ltac:(lia)) as Hm.
  set (q := ((count + 31) / 32)%Z) in *. clearbody q. destruct (Z.ltb_spec 256 (q * 32)) as [Hb|Hb]; eexists _, _; (split; [reflexivity|]); [|lia].
  rewrite Z.quot_div_nonneg by lia. pose proof (Z.div_mod (q * 32 + 255) 256 ltac:(lia)) as Hd2.
  pose proof (Z.mod_pos_bound (q * 32 + 255) 256 ltac:(lia)) as Hm2. set (r := ((q * 32 + 255) / 256)%Z) in *. clearbody r. lia.
Qed.

Lemma InitializeBeamHypotheses_ok (order : nat -> list nat) {Ho : Schedule order} (hyps : list BeamHypotheses) (nb : nat) (pen : f32) :
  0 < length hyps -> (Z.of_nat (length hyps) + 512 <= INT_MAX)%Z ->
  LaunchInitializeBeamHypotheses order hyps pen nb = Ok (replicate (length hyps) (Init pen nb)).
Proof.
  intros Hb Hi. unfold LaunchInitializeBeamHypotheses, INT_MAX in *. cbv zeta. set (n := length hyps) in *.
  destruct (GridBlock32_ok (Z.of_nat n)) as (grid & block & -> & Hg & Hbl & Hgb); [lia|unfold INT_MAX; lia|]. rewrite bind_Ok. cbv iota beta.
  destruct (launch_inv (fun l hs => length hs = n ∧ ∀ i, i ∈ l -> hs !! i = Some (Init pen nb)) order
    (InitializeBeamHypotheses (Z.of_nat n) pen nb) n) with (grid := grid) (block := block) (m := hyps)
    as (hs & -> & Hlh & Hhs); try done.
  - intros l l' m Hp [H1 H2]. split; [done|]. intros i Hil. apply H2. by rewrite Hp.
  - intros l i hs Hil _ [H1 H2]. unfold InitializeBeamHypotheses. rewrite (proj2 (Z.leb_gt _ _)) by lia.
    rewrite putZ_put, Nat2Z.id, put_lt by lia. eexists. split; [reflexivity|]. split; [by rewrite length_insert|].
    intros k [Hk|Hk%list_elem_of_singleton]%elem_of_app.
    + destruct (decide (k = i)) as [->|Hne]; [by apply list_lookup_insert_eq; lia|]. rewrite list_lookup_insert_ne by done. by apply H2.
    + subst k. apply list_lookup_insert_eq. lia.
  - intros i hs Hil _. unfold InitializeBeamHypotheses. by rewrite (proj2 (Z.leb_le _ _)) by lia.
  - split; [done|]. intros i H. by apply not_elem_of_nil in H.
  - f_equal. apply (list_eq_lt _ _ n); [done|apply length_replicate|]. intros i Hil. rewrite lookup_replicate_2 by done. apply Hhs, elem_of_seq. lia.
Qed.

Lemma InitScores_ok (order : nat -> list nat) {Ho : Schedule order} (scores sc : list f32) (batch_size nb : nat) :
  0 < nb -> (Z.of_nat (batch_size * nb) + 255 <= INT_MAX)%Z -> length scores = batch_size * nb -> length sc = batch_size * nb ->
  (∀ batch beam, batch < batch_size -> beam < nb ->
     sc !! (batch * nb + beam) = Some (if decide (beam = 0) then f0 else f32_of_Z (-1000000000))) ->
  LaunchInitScoresKernel order scores (Z.of_nat batch_size) (Z.of_nat nb) = Ok sc.
Proof.
  intros Hnb Hi Hl0 Hl Hsc. unfold LaunchInitScoresKernel, INT_MAX in *.
  rewrite <- Nat2Z.inj_mul, chk32_ok, bind_Ok by (unfold INT_MIN, INT_MAX; lia).
  destruct (launch_256_inv (fun l scs => length scs = batch_size * nb ∧ ∀ i, i ∈ l -> scs !! i = sc !! i) order
    (InitScoresKernel (Z.of_nat nb) (Z.of_nat (batch_size * nb))) (batch_size * nb)) with (count := batch_size * nb) (m := scores)
    as (scs & -> & Hls & Hscs); try done.
  - intros l l' m Hp [H1 H2]. split; [done|]. intros i Hil. apply H2. by rewrite Hp.
  - intros l i scs Hil _ [H1 H2]. unfold InitScoresKernel. rewrite (proj2 (Z.ltb_lt _ _)), (proj2 (Z.eqb_neq _ _)) by lia. cbv zeta.
    rewrite putZ_put, Nat2Z.id, put_lt by lia. eexists. split; [reflexivity|]. split; [by rewrite length_insert|].
    assert (i / nb < batch_size) as Hq by (apply Nat.Div0.div_lt_upper_bound; lia). pose proof (Nat.mod_upper_bound i nb ltac:(lia)) as Hm.
    intros k [Hk|Hk%list_elem_of_singleton]%elem_of_app; [destruct (decide (k = i)) as [->|Hne]|subst k].
    1, 3: rewrite list_lookup_insert_eq by lia; pose proof (Hsc (i / nb) (i mod nb) Hq Hm) as Hi2;
      rewrite (Nat.mul_comm _ nb), <- Nat.div_mod_eq in Hi2; rewrite Hi2; f_equal; rewrite Z.rem_mod_nonneg, <- Nat2Z.inj_mod by lia;
      destruct (Z.ltb_spec 0 (Z.of_nat (i mod nb))), (decide (i mod nb = 0)); done || lia.
    rewrite list_lookup_insert_ne by done. by apply H2.
  - intros i scs Hil. unfold InitScoresKernel. by rewrite (proj2 (Z.ltb_ge _ _)) by lia.
  - split; [done|]. intros i H. by apply not_elem_of_nil in H.
  - f_equal. apply (list_eq_lt _ _ (batch_size * nb)); [done|done|]. intros i Hil. apply Hscs. apply elem_of_seq. lia.
Qed.

Lemma new_agrees (order : nat -> list nat) {Ho : Schedule order} (malloc_hyps : nat -> list BeamHypotheses) {Hmh : DeviceMalloc malloc_hyps}
    (malloc_scores : nat -> list f32) {Hms : DeviceMalloc malloc_scores} (batch_size nb w : nat) (pen : f32) (sequence_length : Z) s :
  0 < batch_size -> 0 < nb -> (Z.of_nat (batch_size * nb) + 512 <= INT_MAX)%Z ->
  BeamSearchScorer_new batch_size nb w pen sequence_length = Ok s ->
  BeamSearchScorer_Cuda_new order malloc_hyps malloc_scores batch_size nb w pen sequence_length = Ok (mkScorerCuda s (Z.of_nat batch_size)).
Proof.
  intros Hb Hnb Hi E. unfold BeamSearchScorer_new in E. unfold BeamSearchScorer_Cuda_new.
  assert (batch_size <= batch_size * nb) as Hbb by nia.
  destruct (per_beam w sequence_length) as [pb| |]; [|done|done]. rewrite bind_Ok in E. cbv zeta in E.
  destruct (first_beams_loop batch_size nb) as (sc & Esc & Hl & Hsc). rewrite Esc, bind_Ok in E. injection E as <-.
  rewrite int_nat_ok, bind_Ok, (InitializeBeamHypotheses_ok order), bind_Ok by (rewrite ?malloc_length; lia).
  rewrite (InitScores_ok order _ sc) by (rewrite ?malloc_length; done || lia). by rewrite !bind_Ok, malloc_length.
Qed.

(** ** Finalize *)
Lemma blits_row (o toks : list Z) w i n pad : length o = n * w -> i < n -> length toks <= w ->
  ∃ o', (o ← blit o (i * w + 0 * w) toks; blit o (i * w + 0 * w + length toks) (replicate (w - length toks) pad)) = Ok o' ∧
    length o' = length o ∧
    ∀ k, orow w o' k = if decide (k = i) then toks ++ replicate (w - length toks) pad else orow w o k.
Proof.
  intros Ho Hi Ht. pose proof (row_bound i n w Hi) as Hb. rewrite Nat.mul_0_l, Nat.add_0_r.
  rewrite blit_le, bind_Ok by lia. rewrite blit_le by (rewrite length_inserts, length_replicate; lia).
  set (row := toks ++ replicate (w - length toks) pad). assert (length row = w) as Lr by (unfold row; rewrite length_app, length_replicate; lia).
  assert (list_inserts (i * w + length toks) (replicate (w - length toks) pad) (list_inserts (i * w) toks o) = list_inserts (i * w) row o) as ->.
  { apply list_eq. intros j. unfold row. destruct (decide (i * w + length toks <= j)) as [H1|H1].
    - destruct (decide (j < i * w + w)) as [H2|H2].
      + rewrite list_lookup_inserts by (rewrite ?length_inserts, ?length_replicate; lia).
        rewrite list_lookup_inserts by (rewrite ?length_app, ?length_replicate; lia).
        rewrite lookup_app_r by lia. f_equal. lia.
      + rewrite !list_lookup_inserts_ge by (rewrite ?length_app, ?length_replicate; lia). done.
    - rewrite list_lookup_inserts_lt by lia. destruct (decide (i * w <= j)) as [H2|H2].
      + rewrite !list_lookup_inserts by (rewrite ?length_app; lia). by rewrite lookup_app_l by lia.
      + by rewrite !list_lookup_inserts_lt by lia. }
  eexists. split; [reflexivity|]. split; [by rewrite length_inserts|]. intros k. unfold orow. case_decide as E.
  - subst k. rewrite <- Lr at 1. apply window_inserts_same. lia.
  - apply window_inserts_ne. rewrite Lr. nia.
Qed.

Section finalize.
Context (pow : f32 -> f32 -> f32) (batch_size nb w : nat) (pad : Z) (pen : f32) (seqs : Sequences).
Context (Hwf : wf seqs) (Hrows : batch_beam_size_ seqs = batch_size * nb) (Hcur : current_length_ seqs <= w).
Context (Hnb : 0 < nb) (Hint : (Z.of_nat (batch_size * w) <= INT_MAX)%Z).
Context (s : BeamSearchScorer) (es : list (list (list Z * f32) * bool)) (Hrel : scorer_rel batch_size nb pen s es).
Context (Hshort : Forall (fun e => Forall (fun v => length v.1 <= w) e.1) es).
Context (scores : list f32) (Hsc : scores = [] ∨ length scores = batch_size).

Record finalized (l : list nat) (st : BeamSearchScorer * (list Z * list f32)) : Prop := {
  fz_hyps : ∃ hs, st.1 = set_beam_hyps hs s ∧ ∀ i, i ∉ l -> hs !! i = beam_hyps_ s !! i;
  fz_len : length st.2.1 = batch_size * w;
  fz_scores : length st.2.2 = length scores;
  fz_rows : ∀ i e, i ∈ l -> es !! i = Some e -> ∃ v, final_of pow nb pen seqs s i e !! 0 = Some v ∧
    orow w st.2.1 i = v.1 ++ replicate (w - length v.1) pad ∧ (scores ≠ [] -> st.2.2 !! i = Some v.2) }.

Lemma finalize_step l i st : i < batch_size -> i ∉ l -> finalized l st ->
  ∃ st', BeamSearchScorer_Finalize pow batch_size nb w pad seqs i st = Ok st' ∧ finalized (l ++ [i]) st'.
Proof.
  intros Hi Hil [(hs & E & Hhs) Lo Lsc Hr]. destruct st as [s1 [o sc]]. cbn [fst snd] in *. subst s1.
  pose proof Hrel as [E1 E2 E3 _ _ E6 _]. destruct (lookup_lt_is_Some_2 es i) as [e He]; [by rewrite E2|].
  destruct (Forall2_lookup_r _ _ _ _ _ E1 He) as (b & Hb & R1 & R2 & R3 & R4 & l0 & Hh & Hf).
  assert (length e.1 <= nb) as Hle by (rewrite <- (Forall2_length _ _ _ Hf), <- R1; by apply holds_length).
  unfold BeamSearchScorer_Finalize. rewrite (proj2 (Nat.leb_gt _ _)) by done.
  destruct (finalize_batch_spec pow batch_size nb pen seqs Hwf Hrows (hypothesis_buffer_ s) (set_beam_hyps hs s) i b e) as (b' & -> & H1 & H2 & l2 & Hh2 & Hf2); try done.
  { simpl. by rewrite Hhs. }
  { split; [done|]. split; [done|]. exists l0. split; [done|]. eapply Forall2_impl; [exact Hf|]. intros. by eapply hyp_in_reads. }
  change (final_of pow nb pen seqs (set_beam_hyps hs s) i e) with (final_of pow nb pen seqs s i e) in Hf2.
  pose proof (final_of_length pow batch_size nb pen seqs Hrows s i e Hi E3 R4 Hle) as Hfl.
  destruct (lookup_lt_is_Some_2 (final_of pow nb pen seqs s i e) 0) as [v Hv]; [lia|].
  destruct (Forall2_lookup_r _ _ _ _ _ Hf2 Hv) as (h & Hh0 & Q1 & Q2 & Q3).
  assert (length v.1 <= w) as Hvw.
  { pose proof (final_of_short pow batch_size nb w pen seqs Hwf Hrows s i e Hcur Hi) as Hfs. rewrite Forall_lookup in Hshort.
    specialize (Hfs (Hshort i e He)). rewrite Forall_lookup in Hfs. by apply (Hfs 0 v). }
  rewrite bind_Ok. cbn [beam_hyps_ set_beam_hyps hypothesis_buffer_]. rewrite (get_Some _ _ b'), bind_Ok.
  2:{ apply list_lookup_insert_eq. apply (lookup_lt_Some _ _ b). by rewrite Hhs. }
  cbv zeta. rewrite Nat.mul_1_r, int_nat_ok, bind_Ok by (pose proof (row_bound i batch_size w Hi); lia).
  unfold Device_Output, for_. cbn [loop]. cbv zeta. rewrite (get_init_Some _ _ h), bind_Ok.
  2:{ destruct Hh2 as [[rest ->] _]. rewrite lookup_app_l by (rewrite length_map; by eapply lookup_lt_Some). by rewrite list_lookup_fmap, Hh0. }
  rewrite Q3, bind_Ok. cbn [fst snd].
  destruct (blits_row o v.1 w i batch_size pad Lo Hi Hvw) as (o' & Eo & Lo' & Ho'). rewrite <- bind_assoc_outcome, Eo, bind_Ok.
  assert (∀ k, k ∈ l -> k ≠ i) as Hne by (intros k Hk ->; done).
  assert (∃ sc', (if negb (bool_decide (sc = [])) then sc ← put sc (i + 0) (score h); Ok (o', sc) else Ok (o', sc)) = Ok (o', sc') ∧ length sc' = length sc ∧
    (∀ k, k ≠ i -> sc' !! k = sc !! k) ∧ (scores ≠ [] -> sc' !! i = Some v.2)) as (sc' & -> & Lsc' & Hsc1 & Hsc2).
  { rewrite Nat.add_0_r. case_bool_decide as Hemp; cbn [negb].
    - exists sc. split; [done|]. split; [done|]. split; [done|]. intros Hn. subst sc. by destruct scores.
    - destruct Hsc as [->|Hl]; [by destruct sc|]. rewrite put_lt, bind_Ok by lia. eexists. split; [reflexivity|]. split; [by rewrite length_insert|].
      split; [intros k Hk; by rewrite list_lookup_insert_ne|]. intros _. rewrite list_lookup_insert_eq by lia. by rewrite Q1. }
  rewrite !bind_Ok. eexists. split; [reflexivity|]. split; cbn [fst snd].
  - exists (<[i := b']> hs). split; [done|]. intros k Hk. rewrite not_elem_of_app, list_elem_of_singleton in Hk. destruct Hk as [Hk1 Hk2].
    rewrite list_lookup_insert_ne by done. by apply Hhs.
  - congruence.
  - congruence.
  - intros k e' [Hk|Hk%list_elem_of_singleton]%elem_of_app He'.
    + destruct (Hr k e' Hk He') as (v' & V1 & V2 & V3). exists v'. split; [done|]. specialize (Hne k Hk). rewrite Ho', decide_False by done.
      split; [done|]. intros Hn. rewrite Hsc1 by done. by apply V3.
    + subst k. replace e' with e by congruence. exists v. split; [done|]. by rewrite Ho', decide_True.
Qed.
End finalize.

(** The device keeps the best hypothesis of every entry only, however many
    sequences are asked for: row [i] of the output is entry [i]'s. *)
Theorem Finalize_Cuda_spec (pow : f32 -> f32 -> f32) (order : nat -> list nat) (batch_size nb w : nat) (pad : Z) (pen : f32)
    (seqs : Sequences) (st : BeamSearchScorer_Cuda) (es : list (list (list Z * f32) * bool))
    (num_return_sequences : nat) (output : list Z) (scores : list f32) :
  Schedule order -> wf seqs -> batch_beam_size_ seqs = batch_size * nb -> current_length_ seqs <= w -> 0 < nb -> 0 < batch_size ->
  (Z.of_nat batch_size <= max_threads_per_block)%Z -> (Z.of_nat (batch_size * w) <= INT_MAX)%Z ->
  scorer_rel batch_size nb pen (gpu_ st) es -> Forall (fun e => Forall (fun v => length v.1 <= w) e.1) es ->
  output ≠ [] -> length output = batch_size * w -> (scores = [] ∨ length scores = batch_size) ->
  ∃ st' o' sc', Finalize_Cuda pow batch_size nb w pad order st seqs num_return_sequences output scores = Ok (st', (o', sc')) ∧
    length o' = length output ∧ length sc' = length scores ∧
    ∀ i e, es !! i = Some e -> ∃ v, final_of pow nb pen seqs (gpu_ st) i e !! 0 = Some v ∧
      orow w o' i = v.1 ++ replicate (w - length v.1) pad ∧ (scores ≠ [] -> sc' !! i = Some v.2).
Proof.
  intros Ho Hwf Hrows Hcur Hnb Hb H1024 Hint Hrel Hshort Hne Hlo Hsc. unfold Finalize_Cuda. rewrite bool_decide_false by done. cbn [negb assert_]. rewrite bind_Ok.
  destruct (launch_inv (finalized pow batch_size nb w pad pen seqs (gpu_ st) es scores) order
      (fun batch => BeamSearchScorer_Finalize pow batch_size nb w pad seqs (Z.to_nat batch)) batch_size)
    with (grid := 1%Z) (block := Z.of_nat batch_size) (m := (gpu_ st, (output, scores))) as ([s' [o' sc']] & E & [_ L1 L2 H]).
  - intros l l' m Hp [(hs & E & Hhs) H2 H3 H4]. split; [exists hs; split; [done|]; intros i Hi; apply Hhs; by rewrite Hp|done|done|].
    intros i e Hi. apply H4. by rewrite Hp.
  - intros l i m Hi Hil Hm. rewrite Nat2Z.id. by apply finalize_step.
  - lia.
  - lia.
  - unfold max_threads_per_block, INT_MAX in *. lia.
  - intros i m Hi Hlt. lia.
  - split; cbn [fst snd]; [|done|done|intros i e Hi; by apply not_elem_of_nil in Hi].
    exists (beam_hyps_ (gpu_ st)). split; [by destruct (gpu_ st)|done].
  - rewrite E, bind_Ok. eexists _, o', sc'. split; [reflexivity|]. cbn [fst snd] in *. split; [lia|]. split; [done|].
    intros i e He. apply H; [|done]. apply lookup_lt_Some in He. rewrite (sr_batch _ _ _ _ _ Hrel) in He. apply elem_of_seq. lia.
Qed.
