(* ===== verification/CudaTopK.v ===== *)
(** * The best candidates on the device (src/beam_search_topk.h, src/beam_search_topk.cu)

    [TopK] keeps the best values it is given, with their keys, ties going to
    the lower key; an empty place has key -1.  [BeamSearchTopK] fills one per
    thread, combines those of a block with cub's [BlockReduce], then those of
    the parts of a beam's vocabulary, and last those of the beams of an entry.
    The threads of a block work together, so a block is one step of a launch. *)
From Stdlib Require Import ZArith Lia SpecFloat.
From stdpp Require Import base numbers list sorting.
From S2P Require Import Prelude Float32 Tensors Config Params Sequences BeamScorer Search Cuda CudaSequences.
Local Open Scope Z_scope.

(** ** TopK *)
Definition f32_minus_infinity : f32 := S754_infinity true.

(* a value and its key; the best is first *)
Abbreviation slot := (f32 * Z)%type (only parsing).
Definition TopK : Type := list (f32 * Z).

Definition TopK_Init (max_k : nat) : TopK := replicate max_k (f32_minus_infinity, -1).

(* the condition of both comparisons of [Insert]: [e] goes before [x] *)
Definition replaces (x e : slot) : bool :=
  flt x.1 e.1 || (x.2 =? -1) || (feq e.1 x.1 && (e.2 <? x.2)).

Fixpoint set_last (e : slot) (t : TopK) : TopK :=
  match t with
  | [] => []
  | [x] => [if replaces x e then e else x]
  | x :: t' => x :: set_last e t'
  end.

(* for (int k = max_k - 2; k >= 0; --k): the pairs of neighbours from the end *)
Fixpoint bubble (t : TopK) : TopK :=
  match t with
  | [] => []
  | x :: t' => match bubble t' with
               | [] => [x]
               | y :: t'' => if replaces x y then y :: x :: t'' else x :: y :: t''
               end
  end.

Definition TopK_Insert (e : slot) (t : TopK) : TopK := bubble (set_last e t).

Definition reduce_topk_op (a b : TopK) : TopK := fold_left (fun res e => TopK_Insert e res) b a.

(** [BlockReduce]: some bracketing of the values of the threads, in order. *)
Inductive bracketed {A} (op : A -> A -> A) : list A -> A -> Prop :=
  | br_leaf x : bracketed op [x] x
  | br_node l1 l2 a b : bracketed op l1 a -> bracketed op l2 b -> bracketed op (l1 ++ l2) (op a b).

Class BlockReduce {A} (reduce : (A -> A -> A) -> list A -> A) : Prop :=
  block_reduce op l : l ≠ [] -> bracketed op l (reduce op l).

(** for (i = start; i < stop; i += step), step > 0 *)
Fixpoint strided_from (fuel i step stop : nat) : list nat :=
  match fuel with
  | O => []
  | S fuel => if (i <? stop)%nat then i :: strided_from fuel (i + step) step stop else []
  end.
Definition strided (start step stop : nat) : list nat := strided_from (stop - start) start step stop.

(** ** The kernels

    A block's threads fill a [TopK] each; [reduce] is cub's. *)
Section kernels.
Context (order : nat -> list nat) (reduce : (TopK -> TopK -> TopK) -> list TopK -> TopK).

Definition block_top_k (max_k threads : nat) (thread : nat -> TopK -> outcome TopK) : outcome TopK :=
  ts ← for_ threads (fun tid ts => t ← thread tid (TopK_Init max_k); Ok (ts ++ [t])) [];
  Ok (reduce reduce_topk_op ts).

Definition write_top (k off : nat) (top : TopK) (out : list f32 * list Z) : outcome (list f32 * list Z) :=
  for_ k (fun i '(values, keys) =>
    '(v, key) ← get top i;
    values ← put values (off + i)%nat v; keys ← put keys (off + i)%nat key; Ok (values, keys)) out.

Definition BeamSearchOnlineTopKStage1Kernel (max_k thread_block_size : nat) (input : list f32) (k vocab_size vocab_part_size parts : nat)
    (batch_beam voc_part_id : nat) (out : list f32 * list Z) : outcome (list f32 * list Z) :=
  token_id_base ← int_nat (voc_part_id * vocab_part_size);
  input_block ← int_nat (batch_beam * vocab_size);
  stop ← int_nat (vocab_part_size + token_id_base);
  top_k_block ← block_top_k max_k thread_block_size (fun tid top_k_thread =>
    for_each (fun i top_k_thread =>
        if (i <? vocab_size)%nat then v ← get input (input_block + i)%nat; Ok (TopK_Insert (v, Z.of_nat i) top_k_thread)
        else Ok top_k_thread) (strided (tid + token_id_base) thread_block_size stop) top_k_thread);
  (* gridDim.y is unsigned *)
  write_top k (Z.to_nat (u32 (Z.of_nat (batch_beam * parts * k + voc_part_id * k)))) top_k_block out.

(* the values and tokens go through shared memory *)
Definition BeamSearchOnlineTopKStage2Kernel (max_k thread_block_size : nat) (input : list f32 * list Z) (k parts_per_beam : nat)
    (vector_id : nat) (out : list f32 * list Z) : outcome (list f32 * list Z) :=
  base ← int_nat (vector_id * k * parts_per_beam);
  topk_block ← block_top_k max_k thread_block_size (fun thread_id thread_topk =>
    if (thread_id <? parts_per_beam)%nat then
      for_ k (fun i thread_topk =>
        v ← get input.1 (base + thread_id * k + i)%nat; key ← get input.2 (base + thread_id * k + i)%nat;
        Ok (TopK_Insert (v, key) thread_topk)) thread_topk
    else Ok thread_topk);
  off ← int_nat (vector_id * k); write_top k off topk_block out.

(* next_indices, next_tokens, next_scores *)
Definition BatchTopKKernel (max_k : nat) (topk_scores : list f32) (topk_tokens : list Z) (num_beams k block_id : nat)
    (out : list Z * list Z * list f32) : outcome (list Z * list Z * list f32) :=
  index_block ← int_nat (block_id * num_beams * k);
  thread_topk ← for_ (num_beams * k) (fun i thread_topk =>
      v ← get topk_scores (index_block + i)%nat; Ok (TopK_Insert (v, Z.of_nat (index_block + i)) thread_topk)) (TopK_Init max_k);
  index_next ← int_nat (block_id * k);
  for_ k (fun i '(next_indices, next_tokens, next_scores) =>
    '(v, key) ← get thread_topk i;
    token ← getZ topk_tokens key;
    next_tokens ← put next_tokens (index_next + i)%nat token;
    next_indices ← put next_indices (index_next + i)%nat (Z.quot (key - Z.of_nat index_block) (Z.of_nat k));
    next_scores ← put next_scores (index_next + i)%nat v;
    Ok (next_indices, next_tokens, next_scores)) out.

Definition launch_blocks {M} (grid_x grid_y : nat) (block : nat -> nat -> M -> outcome M) (m : M) : outcome M :=
  launch2 order (Z.of_nat grid_x) (Z.of_nat grid_y) 1 1 (fun x y => block (Z.to_nat x) (Z.to_nat y)) m.

(** A block is refused more shared memory than this (nobody asks for more): the
    launch then does nothing, and nobody looks at its error.  What cub keeps
    besides, a few values a warp, is not counted: no launch comes that close. *)
Definition max_shared_memory : Z := 48 * 1024.

Definition LaunchBeamSearchOnlineTopKStage2Kernel (max_k : nat) (tmp : list f32 * list Z) (batch_beam_size parts_per_beam k : nat)
    (out : list f32 * list Z) : outcome (list f32 * list Z) :=
  _ ← assert_ (parts_per_beam <=? 128)%nat;
  let smem_stage2_size := Z.of_nat (parts_per_beam * max_k * 2) * 4 in
  if max_shared_memory <? smem_stage2_size then Ok out else
  let threads := if (parts_per_beam <=? 32)%nat then 32%nat else if (parts_per_beam <=? 64)%nat then 64%nat else 128%nat in
  launch_blocks batch_beam_size 1 (fun vector_id _ => BeamSearchOnlineTopKStage2Kernel max_k threads tmp k parts_per_beam vector_id) out.

Definition voc_parts_of (batch_beam_size : nat) : outcome nat :=
  if (256 <=? batch_beam_size)%nat then Ok 4%nat
  else if decide (batch_beam_size = O) then Undef (* division by zero *)
  else Ok (Nat.min 128 ((240 + batch_beam_size - 1) / batch_beam_size)).

Definition TopKLauncherMaxK (max_k : nat) (input : list f32) (batch_beam_size vocab_size k : nat)
    (out tmp : list f32 * list Z) : outcome (list f32 * list Z) :=
  let kThreadBlockSize := if (max_k <? 16)%nat then if (max_k <? 8)%nat then 256%nat else 128%nat else 64%nat in
  voc_parts ← voc_parts_of batch_beam_size;
  n ← int_nat (vocab_size + voc_parts - 1);
  tmp ← launch_blocks batch_beam_size voc_parts
    (BeamSearchOnlineTopKStage1Kernel max_k kThreadBlockSize input k vocab_size (n / voc_parts) voc_parts) tmp;
  LaunchBeamSearchOnlineTopKStage2Kernel max_k tmp batch_beam_size voc_parts k out.

(* the capacity chosen for [k] *)
Definition top_k_capacity (k : nat) : nat :=
  if (k <=? 4)%nat then 4 else if (k <=? 8)%nat then 8 else if (k <=? 16)%nat then 16 else if (k <=? 32)%nat then 32 else 64.

Definition LaunchBatchTopKKernel (topk_scores : list f32) (topk_tokens : list Z) (batch_size num_beams k : nat)
    (out : list Z * list Z * list f32) : outcome (list Z * list Z * list f32) :=
  _ ← assert_ (k <=? 64)%nat;
  launch_blocks batch_size 1 (fun block_id _ => BatchTopKKernel (top_k_capacity k) topk_scores topk_tokens num_beams k block_id) out.

(** [output] are the tokens' beams, the tokens and their scores. *)
Definition BeamSearchTopK (input : list f32) (batch_size num_beams vocab_size k : nat)
    (tmp_1st_stage tmp_2nd_stage : list f32 * list Z) (output : list Z * list Z * list f32) : outcome (list Z * list Z * list f32) :=
  _ ← assert_ (k <=? 64)%nat;
  batch_beam_size ← int_nat (batch_size * num_beams);
  '(scores, tokens) ← TopKLauncherMaxK (top_k_capacity k) input batch_beam_size vocab_size k tmp_2nd_stage tmp_1st_stage;
  LaunchBatchTopKKernel scores tokens batch_size num_beams k output.
End kernels.

(** ** The order of candidates *)
Lemma feq_key x y : feq x y = true ↔ is_nan x = false ∧ is_nan y = false ∧ fkey x = fkey y.
Proof.
  unfold feq, SFeqb.
  destruct x as [sx|sx| |sx mx ex], y as [sy|sy| |sy my ey]; simpl; try destruct sx; try destruct sy; simpl;
    try (split; [try discriminate; intros; repeat split; try reflexivity; congruence
                |intros (?&?&?); try discriminate; try reflexivity; congruence]).
  - destruct (Z.compare_spec ex ey); [change (Pos.compare_cont Eq mx my) with (Pos.compare mx my);
      destruct (Pos.compare_spec mx my)| |]; simpl; split; try discriminate; try (intros (?&?&E); injection E; intros);
      repeat split; try reflexivity; try congruence; lia.
  - destruct (Z.compare_spec ex ey); [change (Pos.compare_cont Eq mx my) with (Pos.compare mx my);
      destruct (Pos.compare_spec mx my)| |]; simpl; split; try discriminate; try (intros (?&?&E); injection E; intros);
      repeat split; try reflexivity; try congruence; lia.
Qed.

(* a candidate: a number that is not minus infinity, with a key *)
Definition candidate (c : slot) : Prop := flt f32_minus_infinity c.1 = true ∧ 0 <= c.2.

Lemma candidate_nan c : candidate c -> is_nan c.1 = false.
Proof. intros [H _]. apply flt_key in H. tauto. Qed.

(** Best first: a greater value, or the same one with a lower key. *)
Definition before (a b : slot) : Prop := lexlt (fkey b.1) (fkey a.1) ∨ (fkey a.1 = fkey b.1 ∧ a.2 < b.2).

Lemma before_trans a b c : before a b -> before b c -> before a c.
Proof.
  unfold before. intros [H1|[H1 H1']] [H2|[H2 H2']].
  - left. by eapply lexlt_trans.
  - left. by rewrite <- H2.
  - left. by rewrite H1.
  - right. split; [congruence|lia].
Qed.

Lemma before_irrefl a : ¬ before a a.
Proof. intros [H|[_ H]]; [by apply lexlt_irrefl in H|lia]. Qed.

Lemma before_total a b : a.2 ≠ b.2 -> before a b ∨ before b a.
Proof.
  intros Hne. unfold before. destruct (lexlt_total (fkey a.1) (fkey b.1)) as [H|[H|H]]; [by right; left| |by left; left].
  destruct (Z.lt_trichotomy a.2 b.2) as [H2|[H2|H2]]; [by left; right|done|by right; right].
Qed.

#[export] Instance before_dec a b : Decision (before a b).
Proof.
  unfold before. assert (Decision (lexlt (fkey b.1) (fkey a.1))).
  { unfold lexlt. destruct (fkey b.1) as [[??]?], (fkey a.1) as [[??]?]. apply _. }
  apply _.
Defined.

Lemma before_value a b : before a b -> flt a.1 b.1 = false.
Proof.
  intros H. apply not_true_iff_false. rewrite flt_key. intros (_ & _ & L). destruct H as [H|[H _]].
  - apply (lexlt_irrefl (fkey a.1)). by eapply lexlt_trans.
  - rewrite H in L. by apply lexlt_irrefl in L.
Qed.

Lemma replaces_before x e : candidate x -> candidate e -> replaces x e = true ↔ before e x.
Proof.
  intros Hx He. pose proof (candidate_nan x Hx). pose proof (candidate_nan e He). destruct Hx as [_ Hk]. unfold replaces, before.
  rewrite !orb_true_iff, andb_true_iff, flt_key, feq_key, Z.eqb_eq, Z.ltb_lt. split.
  - intros [[(_ & _ & L)|K]|[(_ & _ & E) L]]; [by left|lia|by right].
  - intros [L|[E L]]; [by left; left|by right].
Qed.

Lemma replaces_empty e v : replaces (v, -1) e = true.
Proof. unfold replaces. cbn [fst snd]. change (-1 =? -1) with true. by rewrite orb_true_r. Qed.

Lemma empty_replaces x : candidate x -> replaces x (f32_minus_infinity, -1) = false.
Proof.
  intros Hx. pose proof (candidate_nan x Hx) as Hn. destruct Hx as [Hx Hk]. unfold replaces. cbn [fst snd].
  rewrite (flt_asym _ _ Hx), (proj2 (Z.eqb_neq x.2 (-1))) by lia. cbn [orb].
  destruct (feq f32_minus_infinity x.1) eqn:E; [|done]. apply feq_key in E as (_ & _ & E). apply flt_key in Hx as (_ & _ & Hx).
  rewrite E in Hx. by apply lexlt_irrefl in Hx.
Qed.

(** ** Insertion *)
Local Abbreviation empty := (f32_minus_infinity, -1).
Local Abbreviation sorted := (StronglySorted before).

Fixpoint place (e : slot) (l : list (f32 * Z)) : list (f32 * Z) :=
  match l with
  | [] => [e]
  | x :: l' => if decide (before e x) then e :: l else x :: place e l'
  end.

Lemma place_perm e l : place e l ≡ₚ e :: l.
Proof. induction l as [|x l IH]; cbn [place]; [done|]. case_decide; [done|]. rewrite IH. apply Permutation_swap. Qed.

Lemma length_place e l : length (place e l) = S (length l).
Proof. by rewrite place_perm. Qed.

Lemma place_sorted e l : e.2 ∉ l.*2 -> sorted l -> sorted (place e l).
Proof.
  induction l as [|x l IH]; intros He Hs; cbn [place]; [repeat constructor|]. apply StronglySorted_cons in Hs as [Hx Hs].
  rewrite fmap_cons, not_elem_of_cons in He. destruct He as [Hne He]. case_decide as H.
  - constructor; [by constructor|]. constructor; [done|]. eapply Forall_impl; [exact Hx|]. intros y Hy. by eapply before_trans.
  - constructor; [by apply IH|]. rewrite place_perm. constructor; [|done]. destruct (before_total e x Hne); done.
Qed.

Lemma place_snoc e l x : before e x -> place e (l ++ [x]) = place e l ++ [x].
Proof. intros H. induction l as [|y l IH]; cbn [place app]; [by rewrite decide_True|]. case_decide; [done|]. by rewrite IH. Qed.

Lemma place_last e l : Forall (fun y => ¬ before e y) l -> place e l = l ++ [e].
Proof. induction 1 as [|y l Hy _ IH]; cbn [place app]; [done|]. by rewrite decide_False, IH. Qed.

Lemma set_last_snoc e l x : set_last e (l ++ [x]) = l ++ [if replaces x e then e else x].
Proof. induction l as [|y l IH]; [done|]. cbn [app set_last]. rewrite IH. by destruct l. Qed.

Lemma bubble_sorted l n : sorted l -> Forall candidate l -> bubble (l ++ replicate n empty) = l ++ replicate n empty.
Proof.
  induction l as [|x l IH]; intros Hs Hc.
  - simpl. induction n as [|n IHn]; [done|]. simpl. rewrite IHn. by destruct n.
  - apply StronglySorted_cons in Hs as [Hx Hs]. apply Forall_cons in Hc as [Hcx Hc]. cbn [app bubble]. rewrite IH by done.
    destruct l as [|y l]; cbn [app].
    + destruct n; [done|]. cbn [replicate]. by rewrite empty_replaces.
    + apply Forall_cons in Hx as [Hx _]. apply Forall_cons in Hc as [Hcy _]. destruct (replaces x y) eqn:E; [|done].
      apply replaces_before in E; [|done|done]. destruct (before_irrefl x). by eapply before_trans.
Qed.

(* the new element rises to its place *)
Lemma bubble_place l n e : sorted l -> Forall candidate l -> candidate e ->
  bubble (l ++ replicate n empty ++ [e]) = place e l ++ replicate n empty.
Proof.
  induction l as [|x l IH]; intros Hs Hc He.
  - cbn [app place]. induction n as [|n IHn]; [done|]. cbn [replicate app bubble]. rewrite IHn. cbn [app]. by rewrite replaces_empty.
  - apply StronglySorted_cons in Hs as [Hx Hs]. apply Forall_cons in Hc as [Hcx Hc]. cbn [app bubble]. rewrite IH by done.
    destruct l as [|y l]; cbn [place app].
    + destruct (replaces x e) eqn:E; [|rewrite decide_False; [done|]; rewrite <- replaces_before; [by rewrite E|done|done]].
      apply replaces_before in E; [|done|done]. by rewrite decide_True.
    + apply Forall_cons in Hx as [Hxy Hx]. apply Forall_cons in Hc as [Hcy Hc]. destruct (decide (before e y)) as [Hey|Hey]; cbn [app].
      * destruct (replaces x e) eqn:E; [|rewrite decide_False; [done|]; rewrite <- replaces_before; [by rewrite E|done|done]].
        apply replaces_before in E; [|done|done]. by rewrite decide_True.
      * assert (¬ before e x) as Hex by (intros H; apply Hey; by eapply before_trans). rewrite decide_False by done.
        destruct (replaces x y) eqn:E; [|done]. apply replaces_before in E; [|done|done].
        destruct (before_irrefl x). by eapply before_trans.
Qed.

(** [t] holds the candidates [l], best first, in [k] places. *)
Record slots (k : nat) (l : list (f32 * Z)) (t : TopK) : Prop := {
  sl_eq : t = l ++ replicate (k - length l) empty;
  sl_le : (length l <= k)%nat;
  sl_sorted : sorted l;
  sl_cand : Forall candidate l }.

Lemma Init_slots k : slots k [] (TopK_Init k).
Proof. split; [by rewrite Nat.sub_0_r|simpl; lia|constructor|constructor]. Qed.

Lemma Insert_slots k l t e : (0 < k)%nat -> slots k l t -> candidate e -> e.2 ∉ l.*2 ->
  slots k (take k (place e l)) (TopK_Insert e t).
Proof.
  intros Hk [-> Hle Hs Hc] He Hf. unfold TopK_Insert.
  assert (Forall candidate (take k (place e l))) as Hcand by (apply Forall_take; rewrite place_perm; by constructor).
  assert (sorted (take k (place e l))) as Hsort.
  { pose proof (place_sorted e l Hf Hs) as Hp. rewrite <- (take_drop k (place e l)) in Hp. by apply StronglySorted_app_1_l in Hp. }
  destruct (decide (length l < k)%nat) as [Hlt|Hge].
  - replace (k - length l)%nat with (S (k - S (length l))) by lia. rewrite replicate_S_end, app_assoc, set_last_snoc, replaces_empty, <- app_assoc.
    rewrite bubble_place by done. split; [|rewrite length_take, length_place; lia|done|done].
    rewrite take_ge by (rewrite length_place; lia). by rewrite length_place.
  - replace (k - length l)%nat with O by lia. rewrite app_nil_r. destruct l as [|x l _] using rev_ind; [simpl in *; lia|].
    rewrite length_app in *. cbn [length] in *. apply Forall_app in Hc as [Hc Hcx]. rewrite Forall_singleton in Hcx.
    pose proof (StronglySorted_app_1_elem_of before l [x]) as Hlx. pose proof (StronglySorted_app_1_l before l [x] Hs) as Hs'.
    rewrite set_last_snoc. destruct (replaces x e) eqn:E.
    + apply replaces_before in E; [|done|done]. pose proof (bubble_place l 0 e Hs' Hc He) as Hb. cbn [replicate app] in Hb. rewrite app_nil_r in Hb.
      rewrite place_snoc in * by done. rewrite take_app_le, take_ge in * by (rewrite length_place; lia).
      split; [|rewrite length_place; lia|done|done]. rewrite Hb, length_place. replace (k - S (length l))%nat with O by lia. by rewrite app_nil_r.
    + assert (¬ before e x) as Hex by (rewrite <- replaces_before by done; by rewrite E).
      rewrite place_last in *.
      2, 3, 4: apply Forall_app; split; [|by constructor]; apply Forall_forall; intros y Hy Hey; apply Hex; eapply before_trans; [exact Hey|];
        apply Hlx; [done|done|by left].
      rewrite take_app_le, take_ge in * by (rewrite length_app; simpl; lia).
      pose proof (bubble_sorted (l ++ [x]) 0 Hs) as Hb. cbn [replicate] in Hb. rewrite app_nil_r in Hb. rewrite (Hb Hcand).
      split; rewrite ?length_app; cbn [length]; [|lia|done|done]. replace (k - (length l + 1))%nat with O by lia. by rewrite app_nil_r.
Qed.

Lemma Insert_empty k l t : slots k l t -> TopK_Insert empty t = t.
Proof.
  intros [-> Hle Hs Hc]. unfold TopK_Insert. destruct (decide (length l < k)%nat) as [Hlt|Hge].
  - replace (k - length l)%nat with (S (k - S (length l))) by lia. rewrite replicate_S_end, app_assoc, set_last_snoc, replaces_empty.
    rewrite <- app_assoc, <- replicate_S_end. by apply bubble_sorted.
  - replace (k - length l)%nat with O by lia. rewrite app_nil_r. destruct l as [|x l _] using rev_ind; [done|].
    pose proof Hc as Hc'. apply Forall_app in Hc' as [_ Hcx]. rewrite Forall_singleton in Hcx. rewrite set_last_snoc, empty_replaces by done.
    pose proof (bubble_sorted (l ++ [x]) 0 Hs Hc) as Hb. cbn [replicate] in Hb. by rewrite app_nil_r in Hb.
Qed.

(** ** The best of a list *)
(* [l] are the [k] best of [S], in order *)
Definition is_top (k : nat) (S l : list (f32 * Z)) : Prop :=
  sorted l ∧ length l = Nat.min k (length S) ∧ ∃ rest, S ≡ₚ l ++ rest ∧ ∀ x y, x ∈ l -> y ∈ rest -> before x y.

Lemma is_top_perm k S S' l : S ≡ₚ S' -> is_top k S l -> is_top k S' l.
Proof. intros Hp (H1 & H2 & rest & H3 & H4). split; [done|]. split; [by rewrite <- Hp|]. exists rest. split; [by rewrite <- Hp|done]. Qed.

Lemma is_top_nil k : is_top k [] [].
Proof. split; [constructor|]. split; [simpl; lia|]. exists []. split; [done|]. intros x y Hx. by apply not_elem_of_nil in Hx. Qed.

Lemma is_top_elem k S l x : is_top k S l -> x ∈ l -> x ∈ S.
Proof. intros (_ & _ & rest & -> & _) Hx. apply elem_of_app. by left. Qed.

Lemma is_top_place k S l e : (0 < k)%nat -> is_top k S l -> e.2 ∉ S.*2 -> is_top k (e :: S) (take k (place e l)).
Proof.
  intros Hk (Hs & Hl & rest & Hp & Hb) He.
  assert (e.2 ∉ l.*2) as Hel.
  { intros H. apply He. rewrite Hp, fmap_app. apply elem_of_app. by left. }
  pose proof (place_sorted e l Hel Hs) as Hps. rewrite <- (take_drop k (place e l)) in Hps.
  split; [by apply StronglySorted_app_1_l in Hps|]. split; [rewrite length_take, length_place; simpl; lia|].
  exists (drop k (place e l) ++ rest). split; [by rewrite app_assoc, take_drop, place_perm, Hp|].
  intros x y Hx [Hy|Hy]%elem_of_app; [by apply (StronglySorted_app_1_elem_of before _ _ x y Hps)|].
  assert (x ∈ place e l) as Hxp by (rewrite <- (take_drop k (place e l)); apply elem_of_app; by left).
  rewrite place_perm in Hxp. apply elem_of_cons in Hxp as [->|Hxl]; [|by apply Hb].
  (* the new element is among the best, so one of the old ones is not *)
  assert (length rest ≠ O) as Hrest by (destruct rest; [by apply not_elem_of_nil in Hy|done]).
  assert (length S = length l + length rest)%nat as Hsl by (by rewrite Hp, length_app).
  destruct (drop k (place e l)) as [|z zs] eqn:Ed.
  { apply (f_equal length) in Ed. rewrite length_drop, length_place in Ed. simpl in Ed. lia. }
  assert (before e z) as Hez by (apply (StronglySorted_app_1_elem_of before _ _ e z Hps Hx); by left).
  assert (z ∈ place e l) as Hzp by (rewrite <- (take_drop k (place e l)), Ed; apply elem_of_app; right; by left).
  rewrite place_perm in Hzp. apply elem_of_cons in Hzp as [->|Hzl]; [by destruct (before_irrefl e)|].
  eapply before_trans; [exact Hez|]. by apply Hb.
Qed.

(* the best of a part stand for the part *)
Lemma is_top_replace k A B lb l : NoDup (A ++ B) -> is_top k (A ++ lb) l -> is_top k B lb -> is_top k (A ++ B) l.
Proof.
  intros Hnd (Hs & Hl & rest & Hp & Hb) (Hsb & Hlb & restb & Hpb & Hbb).
  assert (length B = length lb + length restb)%nat as HB by (by rewrite Hpb, length_app).
  assert (A ++ B ≡ₚ l ++ (rest ++ restb)) as Hall by (by rewrite Hpb, app_assoc, Hp, <- app_assoc).
  rewrite length_app in Hl. split; [done|]. split; [rewrite length_app; lia|]. exists (rest ++ restb). split; [done|].
  intros x y Hx [Hy|Hy]%elem_of_app; [by apply Hb|].
  destruct (decide (x ∈ lb)) as [Hxb|Hxb]; [by apply Hbb|].
  (* [l] is full, so some element of [lb] is not in it *)
  assert (length restb ≠ O) as Hrest by (destruct restb; [by apply not_elem_of_nil in Hy|done]).
  assert (length l = length lb) as Hll by lia.
  rewrite Hall in Hnd. apply NoDup_app in Hnd as (Hndl & Hd & _).
  assert (NoDup lb) as Hndb by (clear - Hsb; induction Hsb as [|a t Ht IH Ha]; constructor; [intros Hin; rewrite Forall_forall in Ha; by destruct (before_irrefl a (Ha a Hin))|done]).
  destruct (decide (Forall (fun z => z ∈ l) lb)) as [Hsub|Hsub].
  - exfalso. apply Hxb. rewrite Forall_forall in Hsub. assert (lb ⊆+ l) as Hss by (by apply NoDup_submseteq).
    apply submseteq_length_Permutation in Hss; [by rewrite Hss|lia].
  - apply not_Forall_Exists in Hsub; [|apply _]. apply Exists_exists in Hsub as (z & Hz & Hzl). simpl in Hzl.
    assert (z ∈ l ++ rest) as Hzr by (rewrite <- Hp; apply elem_of_app; by right).
    apply elem_of_app in Hzr as [?|Hzr]; [done|]. eapply before_trans; [by apply (Hb x z)|]. by apply Hbb.
Qed.

Lemma is_top_take k k' S l : (k <= k')%nat -> is_top k' S l -> is_top k S (take k l).
Proof.
  intros Hk (Hs & Hl & rest & Hp & Hb). rewrite <- (take_drop k l) in Hs. split; [by apply StronglySorted_app_1_l in Hs|].
  split; [rewrite length_take; lia|]. exists (drop k l ++ rest). split; [by rewrite app_assoc, take_drop|].
  intros x y Hx [Hy|Hy]%elem_of_app; [by apply (StronglySorted_app_1_elem_of before _ _ x y Hs)|].
  apply Hb; [|done]. rewrite <- (take_drop k l). apply elem_of_app. by left.
Qed.

Lemma is_top_map k S l (g : slot -> slot) : (∀ x y, x ∈ S -> y ∈ S -> before x y -> before (g x) (g y)) ->
  is_top k S l -> is_top k (map g S) (map g l).
Proof.
  intros Hg (Hs & Hl & rest & Hp & Hb).
  assert (∀ x, x ∈ l -> x ∈ S) as HlS by (intros x Hx; rewrite Hp; apply elem_of_app; by left).
  split; [|split; [by rewrite !length_map|exists (map g rest); split; [by rewrite Hp, map_app|]]].
  - clear - Hg Hs HlS. induction Hs as [|x l Hs IH Hx]; [constructor|]. cbn [map]. constructor; [apply IH; intros y Hy; apply HlS; by right|].
    rewrite Forall_forall in Hx. apply Forall_forall. intros z (y & -> & Hy)%list_elem_of_fmap. apply Hg; [apply HlS; by left|apply HlS; by right|by apply Hx].
  - intros x y (x' & -> & Hx)%list_elem_of_fmap (y' & -> & Hy)%list_elem_of_fmap. apply Hg; [by apply HlS| |by apply Hb].
    rewrite Hp. apply elem_of_app. by right.
Qed.

Lemma NoDup_sub {A} (l l' : list A) : l ⊆+ l' -> NoDup l' -> NoDup l.
Proof. intros Hs Hnd. apply submseteq_Permutation in Hs as [r Hr]. rewrite Hr in Hnd. by apply NoDup_app in Hnd as [? _]. Qed.

Lemma is_top_sub k S l : is_top k S l -> l ⊆+ S.
Proof. intros (_ & _ & rest & Hp & _). rewrite Hp. by apply submseteq_inserts_r. Qed.

Lemma is_top_replace_all k Ss ls l : Forall2 (is_top k) Ss ls -> ∀ A, NoDup (A ++ concat Ss) -> is_top k (A ++ concat ls) l -> is_top k (A ++ concat Ss) l.
Proof.
  induction 1 as [|S lb Ss ls HS Hall IH]; intros A Hnd Ht; [done|]. cbn [concat] in *. rewrite app_assoc. apply IH; [by rewrite <- app_assoc|].
  apply (is_top_perm k ((A ++ concat ls) ++ S)); [by rewrite <- app_assoc, (Permutation_app_comm (concat ls)), app_assoc|].
  apply (is_top_replace k _ _ lb); [|apply (is_top_perm k (A ++ lb ++ concat ls)); [by rewrite <- app_assoc, (Permutation_app_comm lb)|done]|done].
  apply (NoDup_sub _ (A ++ S ++ concat Ss)); [|done]. rewrite <- app_assoc, (Permutation_app_comm (concat ls)).
  apply submseteq_app; [done|]. apply submseteq_app; [done|].
  clear - Hall. induction Hall as [|S' l' Ss ls H _ IH]; [done|]. cbn [concat]. apply submseteq_app; [by eapply is_top_sub|done].
Qed.

(** ** Filling a [TopK] *)
Definition tops (k : nat) (S : list (f32 * Z)) (t : TopK) : Prop := ∃ l, slots k l t ∧ is_top k S l.

Lemma Init_tops k : tops k [] (TopK_Init k).
Proof. exists []. split; [apply Init_slots|apply is_top_nil]. Qed.

Lemma Insert_tops k S t e : (0 < k)%nat -> candidate e -> e.2 ∉ S.*2 -> tops k S t -> tops k (S ++ [e]) (TopK_Insert e t).
Proof.
  intros Hk He Hf (l & Hs & Ht). exists (take k (place e l)). split.
  - apply Insert_slots; [done..|]. intros H. apply Hf. apply list_elem_of_fmap in H as (x & -> & Hx). apply list_elem_of_fmap. exists x.
    split; [done|]. by eapply is_top_elem.
  - apply (is_top_perm k (e :: S)); [by rewrite Permutation_app_comm|]. by apply is_top_place.
Qed.

Lemma insert_list k l : (0 < k)%nat -> Forall candidate l -> ∀ S t, NoDup (S ++ l).*2 -> tops k S t ->
  tops k (S ++ l) (fold_left (fun res e => TopK_Insert e res) l t).
Proof.
  intros Hk. induction 1 as [|e l He _ IH]; intros S t Hnd Ht; [by rewrite app_nil_r|]. cbn [fold_left].
  replace (S ++ e :: l) with ((S ++ [e]) ++ l) in * by (by rewrite <- app_assoc). apply IH; [done|]. apply Insert_tops; [done..| |done].
  rewrite fmap_app in Hnd. apply NoDup_app in Hnd as [Hnd _]. rewrite fmap_app in Hnd. apply NoDup_app in Hnd as (_ & Hd & _).
  intros H. apply (Hd _ H). by left.
Qed.

Lemma insert_empties k S t n : tops k S t -> fold_left (fun res e => TopK_Insert e res) (replicate n empty) t = t.
Proof. intros (l & Hs & _). induction n as [|n IH]; [done|]. cbn [replicate fold_left]. by rewrite (Insert_empty k l). Qed.

Lemma tops_perm k S S' t : S ≡ₚ S' -> tops k S t -> tops k S' t.
Proof. intros Hp (l & Hs & Ht). exists l. split; [done|]. by eapply is_top_perm. Qed.

Lemma NoDup_keys (l : list (f32 * Z)) : NoDup l.*2 -> NoDup l.
Proof. apply NoDup_fmap_1. Qed.

(* a list of candidates followed by empty places, inserted one by one *)
Lemma insert_slots k kb A B b lb t : (0 < k)%nat -> tops k A t -> b = lb ++ replicate (kb - length lb) empty -> is_top k B lb ->
  NoDup (A ++ B).*2 -> Forall candidate (A ++ B) -> tops k (A ++ B) (fold_left (fun res e => TopK_Insert e res) b t).
Proof.
  intros Hk Ha -> Hb Hnd Hc. pose proof (is_top_sub _ _ _ Hb) as Hsub. rewrite fold_left_app.
  apply Forall_app in Hc as [_ Hc].
  assert (tops k (A ++ lb) (fold_left (fun res e => TopK_Insert e res) lb t)) as Hl.
  { apply insert_list; [done| | |done].
    - apply Forall_forall. intros x Hx. rewrite Forall_forall in Hc. apply Hc. by eapply is_top_elem.
    - apply (NoDup_sub _ (A ++ B).*2); [|done]. apply fmap_submseteq. by apply submseteq_app. }
  rewrite (insert_empties k (A ++ lb)) by done. destruct Hl as (l & Hs & Ht). exists l. split; [done|].
  apply (is_top_replace k _ _ lb); [by apply NoDup_keys|done|done].
Qed.

Lemma reduce_tops k A B a b : (0 < k)%nat -> tops k A a -> tops k B b -> NoDup (A ++ B).*2 -> Forall candidate (A ++ B) ->
  tops k (A ++ B) (reduce_topk_op a b).
Proof.
  intros Hk Ha (lb & [-> _ _ _] & Hb) Hnd Hc. unfold reduce_topk_op. by apply (insert_slots k k A B _ lb).
Qed.

Lemma bracketed_tops k ts t : (0 < k)%nat -> bracketed reduce_topk_op ts t -> ∀ Ss, Forall2 (tops k) Ss ts ->
  NoDup (concat Ss).*2 -> Forall candidate (concat Ss) -> tops k (concat Ss) t.
Proof.
  intros Hk. induction 1 as [t|ts1 ts2 a b _ IH1 _ IH2]; intros Ss HS Hnd Hc.
  - apply Forall2_cons_inv_r in HS as (S & ? & HS & ->%Forall2_nil_inv_r & ->). cbn [concat]. by rewrite app_nil_r.
  - apply Forall2_app_inv_r in HS as (S1 & S2 & H1 & H2 & ->). rewrite concat_app in *.
    pose proof Hnd as Hnd'. rewrite fmap_app in Hnd'. apply NoDup_app in Hnd' as (Hn1 & _ & Hn2). pose proof Hc as Hc'. apply Forall_app in Hc' as [Hc1 Hc2].
    apply reduce_tops; auto.
Qed.

(** ** The elements a thread visits *)
Lemma strided_filter step base t fuel : (0 < step)%nat -> ∀ i stop, (base <= i)%nat -> ((i - base) mod step = t)%nat -> (stop - i <= fuel)%nat ->
  strided_from fuel i step stop = filter (fun x => (x - base) mod step = t)%nat (seq i (stop - i)).
Proof.
  intros Hs. induction fuel as [|fuel IH]; intros i stop Hb Ht Hf; [by replace (stop - i)%nat with O by lia|]. cbn [strided_from].
  destruct (Nat.ltb_spec i stop) as [Hlt|Hge]; [|by replace (stop - i)%nat with O by lia].
  rewrite IH; [|lia| |lia].
  2:{ replace (i + step - base)%nat with (i - base + 1 * step)%nat by lia. by rewrite Nat.Div0.mod_add. }
  set (n := Nat.min (step - 1) (stop - i - 1)). replace (stop - i)%nat with (S (n + (stop - (i + step))))%nat by lia.
  cbn [seq]. rewrite filter_cons_True by done. f_equal. rewrite seq_app, filter_app.
  replace (filter (fun x => (x - base) mod step = t)%nat (seq (S i) n)) with (@nil nat).
  - cbn [app]. destruct (decide (stop <= i + step)%nat) as [Hle|Hgt]; [by replace (stop - (i + step))%nat with O by lia|].
    by replace (S i + n)%nat with (i + step)%nat by lia.
  - symmetry. apply filter_none. apply Forall_seq. intros j Hj E.
    replace (j - base)%nat with ((i - base) + (j - i))%nat in E by lia. rewrite Nat.Div0.add_mod, Ht, (Nat.mod_small (j - i)) in E by lia.
    assert (t < step)%nat by (rewrite <- Ht; apply Nat.mod_upper_bound; lia).
    destruct (decide (t + (j - i) < step)%nat); [rewrite Nat.mod_small in E by lia; lia|].
    rewrite <- (Nat.mod_unique (t + (j - i)) step 1 (t + (j - i) - step)) in E; lia.
Qed.

Lemma strided_class base step n t : (t < step)%nat ->
  strided (t + base) step (n + base) = filter (fun x => (x - base) mod step = t)%nat (seq base n).
Proof.
  intros Ht. unfold strided. rewrite (strided_filter step base t); [|lia|lia|rewrite Nat.add_sub; by apply Nat.mod_small|lia].
  destruct (decide (t <= n)%nat) as [Hle|Hgt].
  - replace (n + base - (t + base))%nat with (n - t)%nat by lia. replace n with (t + (n - t))%nat at 2 by lia.
    rewrite seq_app, filter_app, (filter_none _ (seq base t)); [by rewrite Nat.add_comm|].
    apply Forall_seq. intros j Hj. rewrite Nat.mod_small by lia. lia.
  - replace (n + base - (t + base))%nat with O by lia. rewrite (filter_none _ (seq base n)); [done|]. apply Forall_seq. intros j Hj. rewrite Nat.mod_small by lia. lia.
Qed.

Lemma classes_perm (f : nat -> nat) m l : Forall (fun x => f x < m)%nat l ->
  concat (map (fun t => filter (fun x => f x = t) l) (seq 0 m)) ≡ₚ l.
Proof.
  induction 1 as [|x l Hx _ IH]; [induction (seq 0 m) as [|a s IHs]; [done|exact IHs]|].
  transitivity (x :: concat (map (fun t => filter (fun y => f y = t) l) (seq 0 m))); [|by rewrite IH].
  replace m with (f x + S (m - S (f x)))%nat by lia. rewrite seq_app, !map_app, !concat_app. cbn [seq map concat].
  rewrite filter_cons_True by done. cbn [app].
  assert (∀ i k, (i + k <= f x ∨ f x < i)%nat -> map (fun t => filter (fun y => f y = t) (x :: l)) (seq i k) = map (fun t => filter (fun y => f y = t) l) (seq i k)) as E.
  { intros i k Hik. apply map_ext_in. intros t Ht%in_seq. by rewrite filter_cons_False by lia. }
  rewrite !E by lia. rewrite !Nat.add_0_l. symmetry. apply Permutation_middle.
Qed.

(** Every element is visited by one thread. *)
Lemma strided_partition base step n : (0 < step)%nat ->
  concat (map (fun t => strided (t + base) step (n + base)) (seq 0 step)) ≡ₚ seq base n.
Proof.
  intros Hs. rewrite (map_ext_in _ (fun t => filter (fun x => (x - base) mod step = t)%nat (seq base n))).
  - apply classes_perm. apply Forall_seq. intros j Hj. apply Nat.mod_upper_bound. lia.
  - intros t Ht%in_seq. apply strided_class. lia.
Qed.

(** ** Blocks that write a row each *)
Section blocks.
Context {M : Type} (order : nat -> list nat) {Ho : Schedule order} (block : nat -> nat -> M -> outcome M) (gx gy : nat).
Context (I : M -> Prop) (R : nat -> nat -> M -> Prop).
Context (Hstep : ∀ b q m, (b < gx)%nat -> (q < gy)%nat -> I m ->
  ∃ m', block b q m = Ok m' ∧ I m' ∧ R b q m' ∧ ∀ b' q', (b' < gx)%nat -> (q' < gy)%nat -> ¬ (b' = b ∧ q' = q) -> R b' q' m -> R b' q' m').

Lemma launch_blocks_ok m : (0 < gx)%nat -> (0 < gy)%nat -> Z.of_nat gx <= INT_MAX -> Z.of_nat gy <= max_grid_y -> I m ->
  ∃ m', launch_blocks order gx gy block m = Ok m' ∧ I m' ∧ ∀ b q, (b < gx)%nat -> (q < gy)%nat -> R b q m'.
Proof.
  intros Hgx Hgy Hix Hiy Hm. unfold launch_blocks.
  destruct (launch2_inv (fun l m => I m ∧ ∀ b q, (b < gx)%nat -> (q < gy)%nat -> (q * gx + b)%nat ∈ l -> R b q m) order
    (fun x y => block (Z.to_nat x) (Z.to_nat y)) gx gx gy)
    with (gx := Z.of_nat gx) (gy := Z.of_nat gy) (bx := 1) (by_ := 1) (m := m) as (m' & l & E & [H1 H2] & Hl).
  - intros l k m1 Hk [H1 H2]. split; [done|]. intros b q Hb Hq [Hin|Hin%list_elem_of_singleton]%elem_of_app; [by apply H2|]. exfalso. subst k.
    rewrite Nat.add_comm, Nat.Div0.mod_add, Nat.mod_small, Nat.div_add, Nat.div_small in Hk by lia. lia.
  - intros l k m1 Hx Hy _ [H1 H2]. rewrite !Nat2Z.id.
    destruct (Hstep (k mod gx)%nat (k / gx)%nat m1 Hx Hy H1) as (m2 & E & I2 & R2 & Hrest). exists m2. split; [done|]. split; [done|].
    intros b q Hb Hq Hin. destruct (decide (b = (k mod gx)%nat ∧ q = (k / gx)%nat)) as [[-> ->]|Hne]; [done|]. apply Hrest; [done..|].
    apply H2; [done..|]. apply elem_of_app in Hin as [Hin|Hin%list_elem_of_singleton]; [done|]. exfalso. apply Hne. subst k.
    rewrite Nat.add_comm, Nat.Div0.mod_add, Nat.mod_small, Nat.div_add, Nat.div_small by lia. lia.
  - lia.
  - lia.
  - lia.
  - lia.
  - unfold max_threads_per_block. lia.
  - lia.
  - lia.
  - unfold max_grid_y, INT_MAX in *. lia.
  - intros i j m1 Hi Hj Hij. lia.
  - split; [done|]. intros b q _ _ Hin. by apply not_elem_of_nil in Hin.
  - exists m'. split; [done|]. split; [done|]. intros b q Hb Hq. apply H2; [done..|]. rewrite Hl. apply elem_of_seq.
    pose proof (row_index q gy b gx Hq Hb). lia.
Qed.
End blocks.

(** ** What a block computes *)
(* a list of scored tokens *)
Definition scored (f : nat -> f32) (ids : list nat) : list (f32 * Z) := map (fun i => (f i, Z.of_nat i)) ids.

Lemma scored_keys f ids : (scored f ids).*2 = map Z.of_nat ids.
Proof. unfold scored. induction ids; [done|]. cbn [map fmap list_fmap]. by f_equal. Qed.

Lemma scored_NoDup f ids : NoDup ids -> NoDup (scored f ids).*2.
Proof. intros H. rewrite scored_keys. by apply NoDup_fmap_2; [apply Nat2Z.inj'|]. Qed.

Lemma concat_scored f (g : nat -> list nat) l : concat (map (fun t => scored f (g t)) l) = scored f (concat (map g l)).
Proof. unfold scored. induction l as [|t l IH]; [done|]. cbn [map concat]. by rewrite IH, map_app. Qed.

Section block.
Context (reduce : (TopK -> TopK -> TopK) -> list TopK -> TopK) {Hr : BlockReduce reduce}.

Lemma block_top_k_ok max_k threads thread (Ss : nat -> list (f32 * Z)) S : (0 < max_k)%nat -> (0 < threads)%nat ->
  (∀ tid, (tid < threads)%nat -> ∃ t, thread tid (TopK_Init max_k) = Ok t ∧ tops max_k (Ss tid) t) ->
  concat (map Ss (seq 0 threads)) ≡ₚ S -> NoDup S.*2 -> Forall candidate S ->
  ∃ t, block_top_k reduce max_k threads thread = Ok t ∧ tops max_k S t.
Proof.
  intros Hk Ht Hth Hp Hnd Hc. unfold block_top_k.
  match goal with |- context [for_ threads ?b _] => set (body := b) end.
  destruct (for_inv (fun i ts => Forall2 (tops max_k) (map Ss (seq 0 i)) ts) threads body []) as (ts & -> & Hts); [constructor| |].
  - intros i ts Hi Hts. unfold body. destruct (Hth i Hi) as (t & -> & Htt). rewrite bind_Ok. eexists. split; [reflexivity|].
    rewrite seq_S, map_app. apply Forall2_app; [done|]. by constructor.
  - rewrite bind_Ok. eexists. split; [reflexivity|]. apply (tops_perm _ _ _ _ Hp).
    apply (bracketed_tops max_k ts); [done| |done|by rewrite Hp|by rewrite Hp].
    apply Hr. apply Forall2_length in Hts. rewrite length_map, length_seq in Hts. destruct ts; [simpl in Hts; lia|done].
Qed.
End block.

(** The first [k] places of a [TopK] that holds [l]. *)
Definition shown (k : nat) (l : list (f32 * Z)) : list (f32 * Z) := l ++ replicate (k - length l) empty.

Lemma tops_shown k max_k S t : (k <= max_k)%nat -> tops max_k S t -> length t = max_k ∧ ∃ l, is_top k S l ∧ take k t = shown k l.
Proof.
  intros Hk (l & [-> Hle _ _] & Ht). split; [rewrite length_app, length_replicate; lia|]. exists (take k l).
  split; [by eapply is_top_take|]. unfold shown. rewrite take_app, take_replicate, length_take. do 2 f_equal. lia.
Qed.

Lemma write_top_ok k off top v w : (k <= length top)%nat -> (off + k <= length v)%nat -> length w = length v ->
  write_top k off top (v, w) = Ok (list_inserts off (take k top).*1 v, list_inserts off (take k top).*2 w).
Proof.
  intros Hk Hv Hw. unfold write_top. match goal with |- for_ k ?b _ = _ => set (body := b) end.
  destruct (for_inv (fun i s => s = (list_inserts off (take i top).*1 v, list_inserts off (take i top).*2 w)) k body (v, w)) as (s & -> & ->); [done| |done].
  intros i s Hi ->. unfold body. destruct (lookup_lt_is_Some_2 top i) as [[x key] Hx]; [lia|].
  rewrite (get_Some _ _ _ Hx), bind_Ok. rewrite !put_lt, !bind_Ok by (rewrite length_inserts; lia). eexists. split; [reflexivity|].
  rewrite (take_S_r _ _ _ Hx), !fmap_app. cbn [fmap list_fmap fst snd]. rewrite <- !inserts_snoc. by rewrite !length_fmap, length_take, Nat.min_l by lia.
Qed.

(** Row [r] of [k] places of the two buffers shows the best of [S]. *)
Definition top_row (k r : nat) (S : list (f32 * Z)) (out : list f32 * list Z) : Prop :=
  ∃ l, is_top k S l ∧ take k (drop (r * k) out.1) = (shown k l).*1 ∧ take k (drop (r * k) out.2) = (shown k l).*2.

Definition sized (n : nat) (out : list f32 * list Z) : Prop := length out.1 = n ∧ length out.2 = n.

Lemma length_shown k S l : is_top k S l -> length (shown k l) = k.
Proof. intros (_ & H & _). unfold shown. rewrite length_app, length_replicate. lia. Qed.

Lemma write_row max_k k r S t n out : (k <= max_k)%nat -> tops max_k S t -> sized n out -> (r * k + k <= n)%nat ->
  ∃ out', write_top k (r * k) t out = Ok out' ∧ sized n out' ∧ top_row k r S out' ∧
    ∀ r' S', r' ≠ r -> top_row k r' S' out -> top_row k r' S' out'.
Proof.
  intros Hk Ht [H1 H2] Hn. destruct out as [v w]. cbn [fst snd] in *. destruct (tops_shown k max_k S t Hk Ht) as (Hlt & l & Hl & E).
  rewrite write_top_ok by lia. rewrite E. pose proof (length_shown k S l Hl) as Hs. eexists. split; [reflexivity|].
  split; [split; cbn [fst snd]; by rewrite length_inserts|]. split.
  - exists l. split; [done|]. cbn [fst snd].
    pose proof (window_inserts_same v (r * k) (shown k l).*1) as W1. pose proof (window_inserts_same w (r * k) (shown k l).*2) as W2.
    rewrite length_fmap, Hs in W1. rewrite length_fmap, Hs in W2. split; [apply W1|apply W2]; lia.
  - intros r' S' Hne (l' & Hl' & E1 & E2). exists l'. split; [done|]. cbn [fst snd] in *.
    rewrite !window_inserts_ne; [done|..]; rewrite length_fmap, Hs; nia.
Qed.

(** ** The first stage: the parts of the vocabulary *)
Lemma filter_concat {A} (P : A -> Prop) `{∀ x, Decision (P x)} ls : filter P (concat ls) = concat (map (filter P) ls).
Proof. induction ls as [|l ls IH]; [done|]. cbn [concat map]. by rewrite filter_app, IH. Qed.

Lemma u32_nat n : Z.of_nat n <= INT_MAX -> Z.to_nat (u32 (Z.of_nat n)) = n.
Proof. intros H. rewrite u32_id by (unfold INT_MAX in H; lia). apply Nat2Z.id. Qed.

Definition proper (l : list f32) : Prop := Forall (fun x => flt f32_minus_infinity x = true) l.

Lemma proper_nth l i : proper l -> (i < length l)%nat -> flt f32_minus_infinity (nth i l f0) = true.
Proof. intros H Hi. destruct (lookup_lt_is_Some_2 l i Hi) as [x Hx]. rewrite nth_lookup, Hx. by apply (Forall_lookup_1 _ _ _ _ H Hx). Qed.

Lemma choose_upto {A} (P : nat -> A -> Prop) (a : A) n : (∀ q, (q < n)%nat -> ∃ x, P q x) -> ∃ f, ∀ q, (q < n)%nat -> P q (f q).
Proof.
  induction n as [|n IH]; intros H; [exists (fun _ => a); lia|]. destruct IH as [f Hf]; [intros; apply H; lia|].
  destruct (H n) as [x Hx]; [lia|]. exists (fun q => if decide (q = n) then x else f q). intros q Hq. case_decide; [by subst|apply Hf; lia].
Qed.

Lemma insert_row n off (L : list (f32 * Z)) (v : list f32) (w : list Z) t : length L = n ->
  take n (drop off v) = L.*1 -> take n (drop off w) = L.*2 ->
  for_ n (fun i t => x ← get v (off + i)%nat; key ← get w (off + i)%nat; Ok (TopK_Insert (x, key) t)) t
  = Ok (fold_left (fun res e => TopK_Insert e res) L t).
Proof.
  intros <- Hv Hw. match goal with |- for_ _ ?b _ = _ => set (body := b) end.
  destruct (for_inv (fun i t' => t' = fold_left (fun res e => TopK_Insert e res) (take i L) t) (length L) body t) as (t' & -> & ->); [done| |by rewrite firstn_all].
  intros i t' Hi ->. unfold body. destruct (lookup_lt_is_Some_2 L i Hi) as [[x key] Hx].
  rewrite (get_Some v _ x), bind_Ok, (get_Some w _ key), bind_Ok.
  - eexists. split; [reflexivity|]. by rewrite (take_S_r _ _ _ Hx), fold_left_app.
  - by rewrite <- (lookup_window w off (length L)), Hw, list_lookup_fmap, Hx.
  - by rewrite <- (lookup_window v off (length L)), Hv, list_lookup_fmap, Hx.
Qed.

Lemma concat_empty {A} (ls : list (list A)) : Forall (fun l => l = []) ls -> concat ls = [].
Proof. induction 1 as [|l ls -> _ IH]; done. Qed.

Section stages.
Context (order : nat -> list nat) {Ho : Schedule order} (reduce : (TopK -> TopK -> TopK) -> list TopK -> TopK) {Hr : BlockReduce reduce}.
Context (max_k k nv bb parts : nat) (input : list f32).
Context (Hk : (0 < k <= max_k)%nat) (Hnv : (0 < nv)%nat) (Hparts : (0 < parts)%nat) (Hbb : (0 < bb)%nat).
Context (Hlen : length input = (bb * nv)%nat) (Hproper : proper input).
Context (Hint : Z.of_nat (bb * nv) <= INT_MAX) (Hint1 : Z.of_nat (nv + parts) <= INT_MAX) (Hint2 : Z.of_nat (bb * parts * k) <= INT_MAX).
Local Abbreviation ps := ((nv + parts - 1) / parts)%nat.

(* the score of token [i] for beam [b] *)
Definition score_at (b i : nat) : f32 := nth (b * nv + i) input f0.
Definition part_ids (q : nat) : list nat := filter (fun i => i < nv)%nat (seq (q * ps) ps).
Definition part (b q : nat) : list (f32 * Z) := scored (score_at b) (part_ids q).

Lemma part_size : (nv <= parts * ps)%nat ∧ (parts * ps <= nv + parts - 1)%nat.
Proof.
  split; [|apply Nat.Div0.mul_div_le]. pose proof (Nat.div_mod_eq (nv + parts - 1) parts) as E.
  pose proof (Nat.mod_upper_bound (nv + parts - 1) parts ltac:(lia)). lia.
Qed.

Lemma scored_candidates b ids : (b < bb)%nat -> Forall (fun i => i < nv)%nat ids -> Forall candidate (scored (score_at b) ids).
Proof.
  intros Hb H. apply Forall_forall. intros x (i & -> & Hi)%list_elem_of_fmap. rewrite Forall_forall in H. specialize (H i Hi). simpl in H.
  split; cbn [fst snd]; [|lia]. apply proper_nth; [done|]. rewrite Hlen. by apply row_index.
Qed.

Lemma part_lt q : Forall (fun i => i < nv)%nat (part_ids q).
Proof. apply Forall_forall. intros i [H _]%list_elem_of_filter. done. Qed.

Lemma part_NoDup b q : NoDup (part b q).*2.
Proof. apply scored_NoDup. unfold part_ids. apply NoDup_filter, NoDup_seq. Qed.

Lemma stage1_thread b ids t : (b < bb)%nat ->
  for_each (fun i t => if (i <? nv)%nat then v ← get input (b * nv + i)%nat; Ok (TopK_Insert (v, Z.of_nat i) t) else Ok t) ids t
  = Ok (fold_left (fun res e => TopK_Insert e res) (scored (score_at b) (filter (fun i => i < nv)%nat ids)) t).
Proof.
  intros Hb. revert t. induction ids as [|i ids IH]; intros t; [done|]. rewrite for_each_cons. destruct (Nat.ltb_spec i nv) as [Hi|Hi].
  - rewrite filter_cons_True by done. pose proof (row_index b bb i nv Hb Hi) as Hx. destruct (lookup_lt_is_Some_2 input (b * nv + i)) as [v Hv]; [lia|].
    rewrite (get_Some _ _ v Hv), !bind_Ok, IH. cbn [scored map fold_left]. unfold score_at at 3. by rewrite nth_lookup, Hv.
  - rewrite filter_cons_False by lia. rewrite bind_Ok. apply IH.
Qed.

Lemma stage1_block threads n b q out : (0 < threads)%nat -> (b < bb)%nat -> (q < parts)%nat -> (bb * parts * k <= n)%nat -> sized n out ->
  ∃ out', BeamSearchOnlineTopKStage1Kernel reduce max_k threads input k nv ps parts b q out = Ok out' ∧ sized n out' ∧
    top_row k (b * parts + q) (part b q) out' ∧ ∀ r' S', r' ≠ (b * parts + q)%nat -> top_row k r' S' out -> top_row k r' S' out'.
Proof.
  intros Ht Hb Hq Hn Hs. destruct part_size as [_ P]. pose proof (row_bound q parts ps Hq) as Hqp. pose proof (row_bound b bb nv Hb) as Hbn.
  pose proof (row_index b bb q parts Hb Hq) as Hbq. pose proof (row_bound (b * parts + q) (bb * parts) k Hbq) as Hrow.
  unfold BeamSearchOnlineTopKStage1Kernel.
  rewrite (int_nat_ok (q * ps)), bind_Ok, (int_nat_ok (b * nv)), bind_Ok, (int_nat_ok (ps + q * ps)), bind_Ok by lia.
  match goal with |- context [block_top_k _ _ _ ?th] => destruct (block_top_k_ok reduce max_k threads th
    (fun t => scored (score_at b) (filter (fun i => i < nv)%nat (strided (t + q * ps) threads (ps + q * ps)))) (part b q)) as (t & E & Htt) end.
  - lia.
  - done.
  - intros tid Htid. rewrite stage1_thread by done. eexists. split; [reflexivity|].
    apply (insert_list max_k _ ltac:(lia)) with (S := []); [| |apply Init_tops].
    + apply scored_candidates; [done|]. apply Forall_forall. intros i [H _]%list_elem_of_filter. done.
    + rewrite app_nil_l. apply scored_NoDup, NoDup_filter. rewrite strided_class by done. apply NoDup_filter, NoDup_seq.
  - rewrite concat_scored. apply Permutation_map. rewrite <- (map_map (fun t => strided _ _ _) (filter _)), <- filter_concat.
    unfold part_ids. by rewrite (strided_partition (q * ps) threads ps Ht).
  - apply part_NoDup.
  - apply scored_candidates; [done|apply part_lt].
  - rewrite E, bind_Ok. replace (b * parts * k + q * k)%nat with ((b * parts + q) * k)%nat by lia. rewrite u32_nat by lia.
    apply (write_row max_k); [lia|done|done|lia].
Qed.

(** ** The second stage: the parts of a beam together *)
Definition beam_tokens (b : nat) : list (f32 * Z) := scored (score_at b) (seq 0 nv).

Lemma parts_cover b : concat (map (part b) (seq 0 parts)) = beam_tokens b.
Proof.
  unfold part, beam_tokens. rewrite concat_scored. f_equal. unfold part_ids. destruct part_size as [P _].
  rewrite <- (map_map (fun q => seq (q * ps) ps) (filter _)), <- filter_concat.
  assert (∀ n, concat (map (fun q => seq (q * ps) ps) (seq 0 n)) = seq 0 (n * ps)) as E.
  { induction n as [|n IH]; [done|]. rewrite concat_map_S, IH. rewrite (Nat.mul_succ_l n), seq_app. done. }
  rewrite E. replace (parts * ps)%nat with (nv + (parts * ps - nv))%nat by lia. rewrite seq_app, filter_app.
  rewrite (filter_none _ (seq (0 + nv) _)), app_nil_r by (apply Forall_seq; lia).
  apply filter_all. apply Forall_seq. lia.
Qed.

Lemma stage2_block threads tmp b out : (parts <= threads)%nat -> (b < bb)%nat -> sized (bb * k) out ->
  (∀ q, (q < parts)%nat -> top_row k (b * parts + q) (part b q) tmp) ->
  ∃ out', BeamSearchOnlineTopKStage2Kernel reduce max_k threads tmp k parts b out = Ok out' ∧ sized (bb * k) out' ∧
    top_row k b (beam_tokens b) out' ∧ ∀ r' S', r' ≠ b -> top_row k r' S' out -> top_row k r' S' out'.
Proof.
  intros Ht Hb Hs Htmp. pose proof (row_bound b bb k Hb) as Hbk. pose proof (row_bound b bb (parts * k) Hb) as Hbp.
  apply (choose_upto (fun q l => is_top k (part b q) l ∧ take k (drop ((b * parts + q) * k) tmp.1) = (shown k l).*1 ∧
    take k (drop ((b * parts + q) * k) tmp.2) = (shown k l).*2) [] parts) in Htmp as (lb & Hlb).
  assert (Forall2 (is_top k) (map (part b) (seq 0 parts)) (map lb (seq 0 parts))) as Hall.
  { apply Forall2_fmap, Forall_Forall2_diag, Forall_seq. intros q Hq. apply Hlb. lia. }
  assert (NoDup (beam_tokens b).*2) as Hnd by (apply scored_NoDup, NoDup_seq).
  assert (concat (map lb (seq 0 parts)) ⊆+ beam_tokens b) as Hsub.
  { rewrite <- parts_cover. clear - Hall. induction Hall as [|S' l' Ss ls H _ IH]; [done|]. cbn [concat]. apply submseteq_app; [by eapply is_top_sub|done]. }
  assert (Forall candidate (beam_tokens b)) as Hc by (apply scored_candidates; [done|apply Forall_seq; lia]).
  unfold BeamSearchOnlineTopKStage2Kernel. rewrite (int_nat_ok (b * k * parts)), bind_Ok by lia.
  match goal with |- context [block_top_k _ _ _ ?th] => destruct (block_top_k_ok reduce max_k threads th
    (fun q => if (q <? parts)%nat then lb q else []) (concat (map lb (seq 0 parts)))) as (t & E & Htt) end.
  - lia.
  - lia.
  - intros q _. destruct (Nat.ltb_spec q parts) as [Hq|Hq]; [|eexists; split; [reflexivity|apply Init_tops]].
    destruct (Hlb q Hq) as (Hl & E1 & E2). pose proof (length_shown k _ _ Hl) as Hls.
    replace (b * k * parts + q * k)%nat with ((b * parts + q) * k)%nat by lia. rewrite (insert_row k _ _ _ _ _ Hls E1 E2). eexists. split; [reflexivity|]. unfold shown. rewrite fold_left_app.
    assert (tops max_k (lb q) (fold_left (fun res e => TopK_Insert e res) (lb q) (TopK_Init max_k))) as Hq'; [|by rewrite (insert_empties max_k (lb q))].
    apply (insert_list max_k _ ltac:(lia)) with (S := []); [| |apply Init_tops].
    + apply Forall_forall. intros x Hx. assert (x ∈ part b q) as Hx' by (by eapply is_top_elem).
      pose proof (scored_candidates b (part_ids q) Hb (part_lt q)) as Hp. rewrite Forall_forall in Hp. by apply Hp.
    + rewrite app_nil_l. apply (NoDup_sub _ (part b q).*2); [apply fmap_submseteq; by eapply is_top_sub|apply part_NoDup].
  - replace threads with (parts + (threads - parts))%nat by lia. rewrite seq_app, map_app, concat_app.
    rewrite (concat_empty (map _ (seq (0 + parts) _))), app_nil_r.
    + apply reflexive_eq. f_equal. apply map_ext_in. intros q Hq%in_seq. by rewrite (proj2 (Nat.ltb_lt q parts)) by lia.
    + apply Forall_fmap, Forall_seq. intros q Hq. cbv beta delta [compose]. by rewrite (proj2 (Nat.ltb_ge q parts)) by lia.
  - apply (NoDup_sub _ (beam_tokens b).*2); [by apply fmap_submseteq|done].
  - apply Forall_forall. intros x Hx. rewrite Forall_forall in Hc. apply Hc. by eapply elem_of_submseteq.
  - rewrite E, bind_Ok, (int_nat_ok (b * k)), bind_Ok by nia.
    destruct (write_row max_k k b (concat (map lb (seq 0 parts))) t (bb * k) out) as (out' & -> & W1 & (l & W2 & W3) & W4); [lia|done..|].
    exists out'. split; [done|]. split; [done|]. split; [|exact W4]. exists l. split; [|done].
    rewrite <- parts_cover. apply (is_top_replace_all k _ _ _ Hall []); [|done]. rewrite app_nil_l, parts_cover. by apply NoDup_keys.
Qed.
End stages.

(** ** The third stage: the beams of an entry together *)
Lemma StronglySorted_lookup {A} (R : A -> A -> Prop) l i j x y : StronglySorted R l -> (i < j)%nat -> l !! i = Some x -> l !! j = Some y -> R x y.
Proof.
  intros Hs. revert i j. induction Hs as [|a l Hs IH Ha]; intros i j Hij Hx Hy; [done|].
  destruct j as [|j]; [lia|]. destruct i as [|i]; cbn [lookup list_lookup] in *.
  - injection Hx as ->. by apply (Forall_lookup_1 _ _ _ _ Ha Hy).
  - apply (IH i j); [lia|done|done].
Qed.

Lemma concat_seq n w base : concat (map (fun j => seq (base + j * w) w) (seq 0 n)) = seq base (n * w).
Proof. induction n as [|n IH]; [done|]. by rewrite concat_map_S, IH, Nat.mul_succ_l, seq_app. Qed.

Section stage3.
Context (max_k k nv nbeam b : nat) (scores : list f32) (tokens : list Z) (score : nat -> nat -> f32) (L : nat -> list (f32 * Z)).
Context (Hk : (0 < k)%nat) (Hknv : (k <= nv)%nat).
Local Abbreviation beam j := (scored (score j) (seq 0 nv)).
Local Abbreviation first := (b * nbeam)%nat.
Context (Htop : ∀ j, (j < nbeam)%nat -> is_top k (beam j) (L j)).
Context (Hscores : ∀ j, (j < nbeam)%nat -> take k (drop ((first + j) * k) scores) = (L j).*1).
Context (Htokens : ∀ j, (j < nbeam)%nat -> take k (drop ((first + j) * k) tokens) = (L j).*2).

(* what the thread inserts: a score with its place in the buffer *)
Definition flat : list (f32 * Z) := scored (fun i => nth i scores f0) (seq (first * k) (nbeam * k)).
(* the beam and token a place stands for, as an index of the entry's scores *)
Definition position (key : Z) : Z := (key / Z.of_nat k - Z.of_nat first) * Z.of_nat nv + nth (Z.to_nat key) tokens 0.
Definition shift (j : nat) (x : f32 * Z) : f32 * Z := (x.1, Z.of_nat (j * nv) + x.2).

Lemma length_L j : (j < nbeam)%nat -> length (L j) = k.
Proof. intros Hj. destruct (Htop j Hj) as (_ & H & _). unfold scored in H. rewrite length_map, length_seq in H. lia. Qed.

Lemma L_lookup j i : (j < nbeam)%nat -> (i < k)%nat -> ∃ v t, L j !! i = Some (v, Z.of_nat t) ∧ v = score j t ∧ (t < nv)%nat ∧
  scores !! ((first + j) * k + i)%nat = Some v ∧ tokens !! ((first + j) * k + i)%nat = Some (Z.of_nat t).
Proof.
  intros Hj Hi. destruct (lookup_lt_is_Some_2 (L j) i) as [x Hx]; [by rewrite length_L|].
  assert (x ∈ beam j) as Hin by (eapply is_top_elem; [by apply Htop|by eapply list_elem_of_lookup_2]).
  apply list_elem_of_fmap in Hin as (t & -> & Ht%elem_of_seq). exists (score j t), t. split; [done|]. split; [done|]. split; [lia|].
  rewrite <- !(lookup_window _ _ k) by done. by rewrite Hscores, Htokens, !list_lookup_fmap, Hx by done.
Qed.

Lemma flat_elem x : x ∈ flat -> ∃ j i t, (j < nbeam)%nat ∧ (i < k)%nat ∧ (t < nv)%nat ∧ x = (score j t, Z.of_nat ((first + j) * k + i)) ∧
  L j !! i = Some (score j t, Z.of_nat t) ∧ tokens !! ((first + j) * k + i)%nat = Some (Z.of_nat t) ∧ position x.2 = Z.of_nat (j * nv + t).
Proof.
  intros (f & -> & Hf%elem_of_seq)%list_elem_of_fmap. set (j := (f / k - first)%nat). set (i := (f mod k)%nat).
  assert (i < k)%nat as Hi by (apply Nat.mod_upper_bound; lia). pose proof (Nat.div_mod_eq f k) as E.
  assert (first <= f / k)%nat as H1 by (apply Nat.div_le_lower_bound; lia).
  assert (f / k < first + nbeam)%nat as H2 by (apply Nat.Div0.div_lt_upper_bound; lia).
  assert (first + j = f / k)%nat as Ej by (unfold j; lia).
  assert (f = (first + j) * k + i)%nat as Ef by (rewrite Ej; unfold i; lia). assert (j < nbeam)%nat as Hj by lia.
  clearbody i j. clear E Ej H1 H2 Hf. subst f. destruct (L_lookup j i Hj Hi) as (v & t & HL & -> & Ht & Hs & Htk). exists j, i, t.
  do 3 (split; [done|]). split; [by rewrite nth_lookup, Hs|]. split; [done|]. split; [done|]. cbn [snd]. unfold position.
  rewrite Nat2Z.id, nth_lookup, Htk. cbn [default].
  replace (Z.of_nat ((first + j) * k + i) / Z.of_nat k) with (Z.of_nat (first + j)); [unfold id; lia|].
  rewrite <- Nat2Z.inj_div, Nat.div_add_l, Nat.div_small by lia. f_equal. lia.
Qed.

Lemma position_before x y : x ∈ flat -> y ∈ flat -> before x y -> before (x.1, position x.2) (y.1, position y.2).
Proof.
  intros (j & i & t & Hj & Hi & Ht & -> & HL & _ & ->)%flat_elem (j' & i' & t' & Hj' & Hi' & Ht' & -> & HL' & _ & ->)%flat_elem.
  intros [H|[H Hlt]]; [by left|]. right. cbn [fst snd] in *. split; [done|]. apply Nat2Z.inj_lt in Hlt. apply Nat2Z.inj_lt.
  destruct (decide (j = j')) as [<-|Hne].
  - assert (i < i')%nat as Hii by lia. destruct (Htop j Hj) as (Hs & _).
    pose proof (StronglySorted_lookup _ _ _ _ _ _ Hs Hii HL HL') as [Hb|[_ Hb]]; cbn [fst snd] in Hb; [|lia].
    rewrite H in Hb. by apply lexlt_irrefl in Hb.
  - assert (j < j')%nat as Hjj by nia. nia.
Qed.

Lemma flat_positions : map (fun x => (x.1, position x.2)) flat = concat (map (fun j => map (shift j) (L j)) (seq 0 nbeam)).
Proof.
  unfold flat. replace (seq (first * k) (nbeam * k)) with (concat (map (fun j => seq ((first + j) * k) k) (seq 0 nbeam))).
  2:{ rewrite <- (concat_seq nbeam k (first * k)). f_equal. apply map_ext. intros j. f_equal. lia. }
  rewrite <- concat_scored, concat_map, map_map. f_equal. apply map_ext_in. intros j Hj%in_seq.
  apply (list_eq_lt _ _ k); [unfold scored; by rewrite !length_map, length_seq|by rewrite length_map, length_L by lia|].
  intros i Hi. destruct (L_lookup j i ltac:(lia) Hi) as (v & t & HL & -> & Ht & Hs & Htk). unfold scored.
  rewrite map_map, !list_lookup_fmap, lookup_seq_lt, HL by done. cbn [fmap option_fmap option_map fst snd]. unfold shift, position. cbn [fst snd].
  rewrite nth_lookup, Hs, Nat2Z.id, nth_lookup, Htk. cbn [default]. unfold id. do 2 f_equal.
  replace (Z.of_nat ((first + j) * k + i) / Z.of_nat k) with (Z.of_nat (first + j)); [lia|].
  rewrite <- Nat2Z.inj_div, Nat.div_add_l, Nat.div_small by lia. f_equal. lia.
Qed.

Context (E : nat -> f32) (HE : ∀ j t, (j < nbeam)%nat -> (t < nv)%nat -> score j t = E (j * nv + t)%nat).
Definition entry_tokens : list (f32 * Z) := scored E (seq 0 (nbeam * nv)).

Lemma shifted_beams : concat (map (fun j => map (shift j) (beam j)) (seq 0 nbeam)) = entry_tokens.
Proof.
  unfold entry_tokens. rewrite <- (concat_seq nbeam nv 0), <- concat_scored. f_equal. apply map_ext_in. intros j Hj%in_seq.
  apply (list_eq_lt _ _ nv); [unfold scored; by rewrite !length_map, length_seq|unfold scored; by rewrite !length_map, length_seq|].
  intros t Ht. unfold scored. rewrite map_map, !list_lookup_fmap, !lookup_seq_lt by done. cbn [fmap option_fmap option_map]. unfold shift. cbn [fst snd].
  rewrite HE by lia. by rewrite Nat.add_0_l, Nat2Z.inj_add.
Qed.

Lemma entry_top l0 : is_top k flat l0 -> is_top k entry_tokens (map (fun x => (x.1, position x.2)) l0).
Proof.
  intros H. apply (is_top_map _ _ _ (fun x => (x.1, position x.2))) in H; [|by intros; apply position_before].
  rewrite flat_positions in H. rewrite <- shifted_beams. refine (is_top_replace_all k _ _ _ _ [] _ H).
  - apply Forall2_fmap, Forall_Forall2_diag, Forall_seq. intros j Hj. apply is_top_map; [|by apply Htop; lia].
    intros x y _ _ [Hb|[Hb Hb']]; [by left|right; split; [done|]]. unfold shift. cbn [fst snd]. lia.
  - rewrite app_nil_l, shifted_beams. apply NoDup_keys, scored_NoDup, NoDup_seq.
Qed.

(** Row [b] of the outputs shows the best of the entry. *)
Definition entry_row (S : list (f32 * Z)) (r : nat) (out : list Z * list Z * list f32) : Prop :=
  ∃ l, is_top k S l ∧ length l = k ∧ take k (drop (r * k) out.1.1) = map (fun x => x.2 / Z.of_nat nv) l ∧
    take k (drop (r * k) out.1.2) = map (fun x => x.2 mod Z.of_nat nv) l ∧ take k (drop (r * k) out.2) = l.*1.

Definition out_sized (n : nat) (out : list Z * list Z * list f32) : Prop :=
  length out.1.1 = n ∧ length out.1.2 = n ∧ length out.2 = n.

Lemma write_entry (l : list (f32 * Z)) t off n (out : list Z * list Z * list f32) : take k t = l -> length l = k -> Forall (fun x => x ∈ flat) l ->
  out_sized n out -> (off + k <= n)%nat ->
  for_ k (fun i '(next_indices, next_tokens, next_scores) =>
    '(v, key) ← get t i;
    token ← getZ tokens key;
    next_tokens ← put next_tokens (off + i)%nat token;
    next_indices ← put next_indices (off + i)%nat (Z.quot (key - Z.of_nat (first * k)) (Z.of_nat k));
    next_scores ← put next_scores (off + i)%nat v;
    Ok (next_indices, next_tokens, next_scores)) out
  = Ok (list_inserts off (map (fun x => position x.2 / Z.of_nat nv) l) out.1.1,
        list_inserts off (map (fun x => position x.2 mod Z.of_nat nv) l) out.1.2, list_inserts off l.*1 out.2).
Proof.
  intros Ht Hl Hf (S1 & S2 & S3) Hn. destruct out as [[a c] d]. cbn [fst snd] in *. match goal with |- for_ k ?b _ = _ => set (body := b) end.
  destruct (for_inv (fun i s => s = (list_inserts off (map (fun x => position x.2 / Z.of_nat nv) (take i l)) a,
    list_inserts off (map (fun x => position x.2 mod Z.of_nat nv) (take i l)) c, list_inserts off (take i l).*1 d)) k body (a, c, d)) as (s & -> & ->);
    [done| |by rewrite take_ge by lia].
  intros i s Hi ->. destruct (lookup_lt_is_Some_2 l i ltac:(lia)) as [x Hx].
  pose proof Hx as Hxt. rewrite <- Ht, lookup_take_lt in Hxt by done.
  pose proof (proj1 (Forall_forall _ _) Hf x (list_elem_of_lookup_2 _ _ _ Hx)) as Hin. simpl in Hin.
  apply flat_elem in Hin as (j & i' & u & Hj & Hi' & Hu & -> & _ & Htk & Hp). cbn [snd] in Hp.
  unfold body. rewrite (get_Some _ _ _ Hxt), bind_Ok, getZ_get, Nat2Z.id, (get_Some _ _ _ Htk), bind_Ok by lia.
  rewrite !put_lt, !bind_Ok by (rewrite length_inserts; lia). eexists. split; [reflexivity|].
  rewrite (take_S_r _ _ _ Hx), !map_app. cbn [map fmap list_fmap fst snd]. rewrite <- !inserts_snoc.
  rewrite !length_map, length_take, Nat.min_l by lia. rewrite Hp.
  replace (Z.quot _ _) with (Z.of_nat (j * nv + u) / Z.of_nat nv); [replace (Z.of_nat (j * nv + u) mod Z.of_nat nv) with (Z.of_nat u); [done|]|].
  - rewrite <- Nat2Z.inj_mod. f_equal. rewrite Nat.add_comm, Nat.Div0.mod_add. by rewrite Nat.mod_small.
  - rewrite <- Nat2Z.inj_div, Nat.div_add_l, Nat.div_small by lia. replace (Z.of_nat ((first + j) * k + i') - Z.of_nat (first * k)) with (Z.of_nat (j * k + i')) by lia.
    rewrite Z.quot_div_nonneg, <- Nat2Z.inj_div, Nat.div_add_l, Nat.div_small by lia. lia.
Qed.

Context (Hcand : Forall candidate flat).

Lemma insert_flat t : (0 < nbeam)%nat ->
  for_ (nbeam * k) (fun i thread_topk => v ← get scores (first * k + i)%nat; Ok (TopK_Insert (v, Z.of_nat (first * k + i)) thread_topk)) t
  = Ok (fold_left (fun res e => TopK_Insert e res) flat t).
Proof.
  intros Hn. match goal with |- for_ _ ?b _ = _ => set (body := b) end.
  assert (length flat = nbeam * k)%nat as Hl by (unfold flat, scored; by rewrite length_map, length_seq).
  destruct (for_inv (fun i t' => t' = fold_left (fun res e => TopK_Insert e res) (take i flat) t) (nbeam * k) body t) as (t' & -> & ->);
    [done| |by rewrite take_ge by lia].
  intros i t' Hi ->. unfold body.
  assert (flat !! i = Some (nth (first * k + i) scores f0, Z.of_nat (first * k + i))) as Hx
    by (unfold flat, scored; rewrite list_lookup_fmap, lookup_seq_lt by done; done).
  assert (∃ v, scores !! (first * k + i)%nat = Some v) as [v Hv].
  { pose proof (Nat.div_mod_eq i k) as E1. pose proof (Nat.mod_upper_bound i k ltac:(lia)) as E2.
    assert (i / k < nbeam)%nat as E3 by (apply Nat.Div0.div_lt_upper_bound; lia).
    destruct (L_lookup (i / k) (i mod k) E3 E2) as (v & _ & _ & _ & _ & Hs & _). exists v. rewrite <- Hs. f_equal. lia. }
  rewrite (get_Some _ _ v Hv), bind_Ok. eexists. split; [reflexivity|]. rewrite (take_S_r _ _ _ Hx), fold_left_app. by rewrite nth_lookup, Hv.
Qed.

Lemma stage3_block nb out : (k <= max_k)%nat -> (0 < nbeam)%nat -> (b < nb)%nat -> Z.of_nat (nb * nbeam * k) <= INT_MAX -> out_sized (nb * k) out ->
  ∃ out', BatchTopKKernel max_k scores tokens nbeam k b out = Ok out' ∧ out_sized (nb * k) out' ∧ entry_row entry_tokens b out' ∧
    ∀ r S', r ≠ b -> entry_row S' r out -> entry_row S' r out'.
Proof.
  intros Hkm Hn Hb Hint Hs. pose proof (row_bound b nb k Hb) as Hbk. pose proof (row_bound b nb (nbeam * k) Hb) as Hbn.
  unfold BatchTopKKernel. rewrite (int_nat_ok (first * k)), bind_Ok by nia. rewrite insert_flat, bind_Ok by done.
  assert (tops max_k flat (fold_left (fun res e => TopK_Insert e res) flat (TopK_Init max_k))) as Ht.
  { apply (insert_list max_k _ ltac:(lia)) with (S := []); [done|apply scored_NoDup, NoDup_seq|apply Init_tops]. }
  destruct (tops_shown k max_k _ _ Hkm Ht) as (_ & l & Hl & Et).
  assert (length l = k) as Hlk.
  { destruct Hl as (_ & Hl & _). unfold flat, scored in Hl. rewrite length_map, length_seq in Hl. nia. }
  unfold shown in Et. rewrite Hlk, Nat.sub_diag, app_nil_r in Et. rewrite (int_nat_ok (b * k)), bind_Ok by nia.
  rewrite (write_entry l _ _ (nb * k)); [|done|done| |done|lia].
  2:{ apply Forall_forall. intros x Hx. by eapply is_top_elem. }
  eexists. split; [reflexivity|]. destruct out as [[a c] d], Hs as (S1 & S2 & S3). cbn [fst snd] in *.
  split; [split; [|split]; cbn [fst snd]; by rewrite length_inserts|]. split.
  - exists (map (fun x => (x.1, position x.2)) l). split; [by apply entry_top|]. split; [by rewrite length_map|]. cbn [fst snd]. rewrite !map_map.
    pose proof (window_inserts_same a (b * k) (map (fun x => position x.2 / Z.of_nat nv) l)) as W1. rewrite length_map, Hlk in W1.
    pose proof (window_inserts_same c (b * k) (map (fun x => position x.2 mod Z.of_nat nv) l)) as W2. rewrite length_map, Hlk in W2.
    pose proof (window_inserts_same d (b * k) l.*1) as W3. rewrite length_fmap, Hlk in W3.
    rewrite W1, W2, W3 by lia. split; [done|]. split; [done|]. done.
  - intros r S' Hne (l' & T1 & T2 & T3). exists l'. split; [done|]. split; [done|]. cbn [fst snd] in *.
    rewrite !window_inserts_ne; [done|..]; rewrite ?length_map, ?length_fmap, Hlk; nia.
Qed.
End stage3.

(** ** The three stages *)
Lemma voc_parts_ok bb : (0 < bb)%nat -> ∃ parts, voc_parts_of bb = Ok parts ∧ (0 < parts <= 128)%nat.
Proof.
  intros Hbb. unfold voc_parts_of. destruct (256 <=? bb)%nat; [eexists; split; [reflexivity|lia]|]. rewrite decide_False by lia.
  eexists. split; [reflexivity|]. assert (1 <= (240 + bb - 1) / bb)%nat by (apply Nat.div_le_lower_bound; lia). lia.
Qed.

(* the second stage of a search for 32 or fewer, or for three rows or more *)
Lemma stage2_fits bb parts k : voc_parts_of bb = Ok parts -> (k <= 64)%nat -> (k <= 32 ∨ 3 <= bb)%nat ->
  Z.of_nat (parts * top_k_capacity k * 2) * 4 <= max_shared_memory.
Proof.
  intros Hp Hk Hkb. unfold max_shared_memory. assert (Z.of_nat (parts * top_k_capacity k) <= 6144); [|lia].
  assert (parts <= 128 ∧ (3 <= bb -> parts <= 96))%nat as [H1 H2].
  { unfold voc_parts_of in Hp. destruct (Nat.leb_spec 256 bb); [injection Hp as <-; lia|]. destruct (decide (bb = 0)%nat); [done|].
    assert (parts = Nat.min 128 ((240 + bb - 1) / bb)) as -> by congruence. clear Hp. set (x := ((240 + bb - 1) / bb)%nat).
    assert (3 <= bb -> x < 97)%nat as Hx by (intros Hb; apply Nat.Div0.div_lt_upper_bound; lia). clearbody x. lia. }
  assert (top_k_capacity k <= 64 ∧ (k <= 32 -> top_k_capacity k <= 32))%nat as [H3 H4].
  { unfold top_k_capacity. repeat match goal with |- context [(?a <=? ?b)%nat] => destruct (Nat.leb_spec a b) end; lia. }
  destruct Hkb as [Hk'|Hb]; [specialize (H4 Hk')|specialize (H2 Hb)]; nia.
Qed.

Lemma top_k_capacity_ok k : (k <= 64)%nat -> (k <= top_k_capacity k)%nat.
Proof. unfold top_k_capacity. intros. repeat match goal with |- context [(?a <=? ?b)%nat] => destruct (Nat.leb_spec a b) end; lia. Qed.

Lemma block_size_pos max_k : (0 < if (max_k <? 16)%nat then if (max_k <? 8)%nat then 256 else 128 else 64)%nat.
Proof. destruct (max_k <? 16)%nat; [destruct (max_k <? 8)%nat|]; lia. Qed.

Section launches.
Context (order : nat -> list nat) {Ho : Schedule order} (reduce : (TopK -> TopK -> TopK) -> list TopK -> TopK) {Hr : BlockReduce reduce}.
Context (nb nbeam nv k : nat) (input : list f32).
Context (Hnb : (0 < nb)%nat) (Hbeam : (0 < nbeam)%nat) (Hk : (0 < k)%nat) (Hk64 : (k <= 64)%nat) (Hknv : (k <= nv)%nat).
Context (Hlen : length input = (nb * nbeam * nv)%nat) (Hproper : proper input).
Context (Hint : Z.of_nat (nb * nbeam * nv) <= INT_MAX) (Hint1 : Z.of_nat (nv + 128) <= INT_MAX).
Context (Hint2 : Z.of_nat (nb * nbeam * 128 * k) <= INT_MAX) (Hfits : (k <= 32 ∨ 3 <= nb * nbeam)%nat).
Local Abbreviation bb := (nb * nbeam)%nat.

Lemma TopKLauncher_ok max_k out tmp n : (k <= max_k)%nat ->
  (∀ parts, voc_parts_of bb = Ok parts -> Z.of_nat (parts * max_k * 2) * 4 <= max_shared_memory) -> sized (bb * k) out -> sized n tmp -> (bb * 128 * k <= n)%nat ->
  ∃ out', TopKLauncherMaxK order reduce max_k input bb nv k out tmp = Ok out' ∧ sized (bb * k) out' ∧
    ∀ r, (r < bb)%nat -> top_row k r (beam_tokens nv input r) out'.
Proof.
  intros Hkm Hfit Hs Hst Hn. assert (0 < bb)%nat as Hbb by nia. assert (bb * 1 <= bb * 128 * k)%nat as Hbk by nia.
  destruct (voc_parts_ok bb Hbb) as (parts & Ep & Hp1 & Hp2). assert (bb * parts * k <= bb * 128 * k)%nat as Hpk by nia.
  unfold TopKLauncherMaxK. rewrite Ep, bind_Ok, int_nat_ok, bind_Ok by lia.
  match goal with |- context [BeamSearchOnlineTopKStage1Kernel _ _ ?th] => set (threads := th) end.
  assert (0 < threads)%nat as Hth by apply block_size_pos.
  destruct (launch_blocks_ok order (BeamSearchOnlineTopKStage1Kernel reduce max_k threads input k nv ((nv + parts - 1) / parts) parts)
    bb parts (sized n) (fun b q m => top_row k (b * parts + q) (part nv parts input b q) m)) with (m := tmp) as (tmp' & -> & _ & H1).
  - intros b q m Hb Hq Hm. destruct (stage1_block reduce max_k k nv bb parts input ltac:(lia) ltac:(lia) Hp1 Hbb Hlen Hproper
      Hint ltac:(lia) ltac:(lia) threads n b q m Hth Hb Hq ltac:(lia) Hm) as (m' & E & I & R & Hrest).
    exists m'. split; [done|]. split; [done|]. split; [done|]. intros b' q' Hb' Hq' Hne. apply Hrest. intros Heq.
    apply row_index_inj in Heq as [-> ->]; [by apply Hne|done|done].
  - done.
  - done.
  - lia.
  - unfold max_grid_y. lia.
  - done.
  - rewrite bind_Ok. unfold LaunchBeamSearchOnlineTopKStage2Kernel. rewrite (proj2 (Nat.leb_le parts 128)) by done. cbn [assert_]. rewrite bind_Ok.
    cbv zeta. rewrite (proj2 (Z.ltb_ge _ _) (Hfit parts Ep)).
    match goal with |- context [BeamSearchOnlineTopKStage2Kernel _ _ ?th] => set (threads2 := th) end.
    assert (parts <= threads2)%nat as Hth2 by (unfold threads2; destruct (Nat.leb_spec parts 32); [lia|destruct (Nat.leb_spec parts 64); lia]).
    destruct (launch_blocks_ok order (fun vector_id _ => BeamSearchOnlineTopKStage2Kernel reduce max_k threads2 tmp' k parts vector_id)
      bb 1 (sized (bb * k)) (fun b _ m => top_row k b (beam_tokens nv input b) m)) with (m := out) as (out' & -> & I & H2).
    + intros b q m Hb Hq Hm. destruct (stage2_block reduce max_k k nv bb parts input ltac:(lia) ltac:(lia) Hp1 Hbb Hlen Hproper
        Hint ltac:(lia) ltac:(lia) threads2 tmp' b m Hth2 Hb Hm) as (m' & E & I & R & Hrest); [by intros q' Hq'; apply H1|].
      exists m'. split; [done|]. split; [done|]. split; [done|]. intros b' q' Hb' Hq' Hne. apply Hrest. intros ->. apply Hne. split; [done|lia].
    + done.
    + lia.
    + lia.
    + unfold max_grid_y. lia.
    + done.
    + exists out'. split; [done|]. split; [done|]. intros r Hrb. apply (H2 r O); [done|lia].
Qed.

(* the scores of entry [b], flat *)
Definition entry_input (b : nat) : list f32 := take (nbeam * nv) (drop (b * (nbeam * nv)) input).

Lemma BeamSearchTopK_rows tmp1 tmp2 output n : sized n tmp1 -> (bb * 128 * k <= n)%nat -> sized (bb * k) tmp2 -> out_sized (nb * k) output ->
  ∃ out, BeamSearchTopK order reduce input nb nbeam nv k tmp1 tmp2 output = Ok out ∧ out_sized (nb * k) out ∧
    ∀ b, (b < nb)%nat -> entry_row k nv (entry_tokens nv nbeam (fun i => nth i (entry_input b) f0)) b out.
Proof.
  intros H1 Hn H2 Ho'. assert (bb * 1 <= bb * 128 * k)%nat as Hbk by nia. assert (nb * 1 <= bb)%nat as Hnbb by nia. assert (bb * k <= bb * 128 * k)%nat as Hbk2 by lia.
  unfold BeamSearchTopK. rewrite (proj2 (Nat.leb_le k 64)) by done. cbn [assert_]. rewrite bind_Ok, int_nat_ok, bind_Ok by lia.
  destruct (TopKLauncher_ok (top_k_capacity k) tmp2 tmp1 n (top_k_capacity_ok k Hk64)
    (fun parts Hp => stage2_fits bb parts k Hp Hk64 Hfits) H2 H1 Hn) as ([scores tokens] & -> & _ & Hrow). rewrite bind_Ok.
  cbv beta iota. unfold LaunchBatchTopKKernel. rewrite (proj2 (Nat.leb_le k 64)) by done. cbn [assert_]. rewrite bind_Ok.
  apply (choose_upto (fun r l => is_top k (beam_tokens nv input r) l ∧ take k (drop (r * k) scores) = (shown k l).*1 ∧
    take k (drop (r * k) tokens) = (shown k l).*2) [] bb) in Hrow as (L & HL).
  assert (∀ r, (r < bb)%nat -> shown k (L r) = L r) as Hsh.
  { intros r Hrb. destruct (HL r Hrb) as ((_ & Hl & _) & _). unfold beam_tokens, scored in Hl. rewrite length_map, length_seq in Hl.
    unfold shown. replace (k - length (L r))%nat with O by lia. apply app_nil_r. }
  destruct (launch_blocks_ok order (fun block_id _ => BatchTopKKernel (top_k_capacity k) scores tokens nbeam k block_id) nb 1 (out_sized (nb * k))
    (fun b _ m => entry_row k nv (entry_tokens nv nbeam (fun i => nth i (entry_input b) f0)) b m)) with (m := output) as (out & -> & I & H).
  - intros b q m Hb Hq1 Hm. pose proof (row_bound b nb nbeam Hb) as Hrb.
    assert (∀ j, (j < nbeam)%nat -> (b * nbeam + j < bb)%nat) as Hj by (intros; lia).
    destruct (stage3_block (top_k_capacity k) k nv nbeam b scores tokens (fun j => score_at nv input (b * nbeam + j)) (fun j => L (b * nbeam + j)%nat))
      with (E := fun i => nth i (entry_input b) f0) (nb := nb) (out := m) as (m' & E & I & R & Hrest).
    + done.
    + done.
    + intros j Hjb. apply (HL (b * nbeam + j)%nat). by apply Hj.
    + intros j Hjb. rewrite <- (Hsh (b * nbeam + j)%nat) by (by apply Hj). apply (HL (b * nbeam + j)%nat). by apply Hj.
    + intros j Hjb. rewrite <- (Hsh (b * nbeam + j)%nat) by (by apply Hj). apply (HL (b * nbeam + j)%nat). by apply Hj.
    + intros j t Hjb Ht. unfold score_at, entry_input. rewrite !nth_lookup, lookup_window by (by apply row_index). do 2 f_equal. lia.
    + apply Forall_forall. intros x Hx. apply (flat_elem k nv nbeam b scores tokens (fun j => score_at nv input (b * nbeam + j)) (fun j => L (b * nbeam + j)%nat))
        in Hx as (j & i & t & Hjb & Hi & Ht & -> & _).
      * split; cbn [fst snd]; [|lia]. apply proper_nth; [done|]. rewrite Hlen. apply row_index; [by apply Hj|done].
      * done.
      * done.
      * intros j Hjb. apply (HL (b * nbeam + j)%nat). by apply Hj.
      * intros j Hjb. rewrite <- (Hsh (b * nbeam + j)%nat) by (by apply Hj). apply (HL (b * nbeam + j)%nat). by apply Hj.
      * intros j Hjb. rewrite <- (Hsh (b * nbeam + j)%nat) by (by apply Hj). apply (HL (b * nbeam + j)%nat). by apply Hj.
    + by apply top_k_capacity_ok.
    + done.
    + done.
    + lia.
    + done.
    + exists m'. split; [done|]. split; [done|]. split; [done|]. intros b' q' Hb' Hq' Hne. apply Hrest. intros ->. apply Hne. split; [done|lia].
  - done.
  - lia.
  - lia.
  - unfold max_grid_y. lia.
  - done.
  - exists out. split; [done|]. split; [done|]. intros b Hb. apply (H b O); [done|lia].
Qed.
End launches.

(** ** The order of the best *)
(* of equal scores the one with the lower index comes first *)
Definition ties_low (k : nat) (l : list f32) (ix : list nat) : Prop :=
  ∀ i j a b x y, (i < j)%nat -> (i < k)%nat -> ix !! i = Some a -> ix !! j = Some b ->
    l !! a = Some x -> l !! b = Some y -> feq x y = true -> (a < b)%nat.

Lemma before_ties a b : before a b -> feq a.1 b.1 = true -> a.2 < b.2.
Proof. intros [H|[_ H]] E; [|done]. apply feq_key in E as (_ & _ & E). rewrite E in H. by apply lexlt_irrefl in H. Qed.

Lemma is_top_descending k (sc : list f32) l : is_top k (scored (fun i => nth i sc f0) (seq 0 (length sc))) l -> (k <= length sc)%nat ->
  ∃ ix, descending k sc ix ∧ ties_low k sc ix ∧ l = scored (fun i => nth i sc f0) (take k ix).
Proof.
  intros (Hs & Hl & rest & Hp & Hb) Hk. unfold scored in Hl. rewrite length_map, length_seq, Nat.min_l in Hl by done.
  set (g := fun x : f32 * Z => Z.to_nat x.2). set (f := fun i => (nth i sc f0, Z.of_nat i)).
  assert (∀ x, x ∈ l ++ rest -> x = f (g x)) as Hfg.
  { intros x Hx. rewrite <- Hp in Hx. apply list_elem_of_fmap in Hx as (i & -> & _). unfold f, g. cbn [snd]. by rewrite Nat2Z.id. }
  assert (∀ i j x y, (i < j)%nat -> (i < k)%nat -> (l ++ rest) !! i = Some x -> (l ++ rest) !! j = Some y -> before x y) as Hord.
  { intros i j x y Hij Hik Hx Hy. rewrite lookup_app_l in Hx by lia. destruct (decide (j < k)%nat) as [Hj|Hj].
    - rewrite lookup_app_l in Hy by lia. by apply (StronglySorted_lookup _ _ _ _ _ _ Hs Hij).
    - rewrite lookup_app_r in Hy by lia. apply Hb; by eapply list_elem_of_lookup_2. }
  assert (∀ i a x, map g (l ++ rest) !! i = Some a -> sc !! a = Some x -> (l ++ rest) !! i = Some (x, Z.of_nat a)) as Hget.
  { intros i a x Ha Hx. rewrite list_lookup_fmap in Ha. destruct ((l ++ rest) !! i) as [e|] eqn:He; [|done]. injection Ha as <-.
    rewrite (Hfg e) at 1 by (by eapply list_elem_of_lookup_2). unfold f. by rewrite nth_lookup, Hx. }
  exists (map g (l ++ rest)). split; [split|split].
  - rewrite <- Hp. unfold scored. rewrite map_map. unfold g. cbn [snd]. rewrite (map_ext _ id) by (intros; apply Nat2Z.id). by rewrite map_id.
  - intros i j a b x y Hij Hik Ha Hb' Hx Hy. apply (before_value (x, Z.of_nat a) (y, Z.of_nat b)). by apply (Hord i j); [| |apply Hget..].
  - intros i j a b x y Hij Hik Ha Hb' Hx Hy E. apply Nat2Z.inj_lt. apply (before_ties (x, Z.of_nat a) (y, Z.of_nat b)); [|done].
    by apply (Hord i j); [| |apply Hget..].
  - rewrite map_app, take_app_le, take_ge by (rewrite length_map; lia). unfold scored. rewrite map_map. fold f. symmetry. rewrite <- (map_id l) at 2.
    apply map_ext_in. intros x Hx%list_elem_of_In. symmetry. apply Hfg. apply elem_of_app. by left.
Qed.

Lemma BeamSearchTopK_best (order : nat -> list nat) (reduce : (TopK -> TopK -> TopK) -> list TopK -> TopK) (nb nbeam nv k n : nat)
    (input : list f32) (tmp1 tmp2 : list f32 * list Z) (output : list Z * list Z * list f32) :
  Schedule order -> BlockReduce reduce ->
  (0 < nb)%nat -> (0 < nbeam)%nat -> (0 < k <= 64)%nat -> (k <= nv)%nat -> length input = (nb * nbeam * nv)%nat -> proper input ->
  Z.of_nat (nb * nbeam * nv) <= INT_MAX -> Z.of_nat (nv + 128) <= INT_MAX -> Z.of_nat (nb * nbeam * 128 * k) <= INT_MAX ->
  (k <= 32 ∨ 3 <= nb * nbeam)%nat -> sized n tmp1 -> (nb * nbeam * 128 * k <= n)%nat -> sized (nb * nbeam * k) tmp2 -> out_sized (nb * k) output ->
  ∃ indices tokens scores, BeamSearchTopK order reduce input nb nbeam nv k tmp1 tmp2 output = Ok (indices, tokens, scores) ∧
    out_sized (nb * k) (indices, tokens, scores) ∧
    ∀ b, (b < nb)%nat -> let l := entry_input nbeam nv input b in
      ∃ ix, descending k l ix ∧ ties_low k l ix ∧
        take k (drop (b * k) indices) = map (fun v => Z.of_nat (v / nv)) (take k ix) ∧
        take k (drop (b * k) tokens) = map (fun v => Z.of_nat (v mod nv)) (take k ix) ∧
        take k (drop (b * k) scores) = map (fun v => nth v l f0) (take k ix).
Proof.
  intros Ho Hr Hnb Hbeam [Hk Hk64] Hknv Hlen Hp Hi1 Hi2 Hi3 Hf Ht1 Hn Ht2 Hout.
  destruct (BeamSearchTopK_rows order reduce nb nbeam nv k input Hnb Hbeam Hk Hk64 Hknv Hlen Hp Hi1 Hi2 Hi3 Hf tmp1 tmp2 output n Ht1 Hn Ht2 Hout)
    as ([[indices tokens] scores] & E & Hs & Hrow). exists indices, tokens, scores. split; [done|]. split; [done|]. intros b Hb l.
  destruct (Hrow b Hb) as (top & Htop & _ & E1 & E2 & E3). cbn [fst snd] in *.
  assert (length l = nbeam * nv)%nat as Hll by (apply length_window; pose proof (row_bound b nb (nbeam * nv) Hb); lia).
  unfold entry_tokens in Htop. fold l in Htop. rewrite <- Hll in Htop. destruct (is_top_descending k l top Htop) as (ix & Hd & Htie & ->); [nia|].
  exists ix. split; [done|]. split; [done|]. rewrite E1, E2, E3. unfold scored. rewrite !map_map. cbn [fst snd].
  split; [|split; [|done]]; apply map_ext; intros v.
  - by rewrite Nat2Z.inj_div.
  - by rewrite Nat2Z.inj_mod.
Qed.

(* otherwise its launch is refused, and what is taken for the best are the values
   the buffer of the first stage held *)
Example stage2_refused order reduce tmp out k bb : (0 < bb <= 2)%nat -> (32 < k <= 64)%nat -> ∃ parts, voc_parts_of bb = Ok parts ∧
  LaunchBeamSearchOnlineTopKStage2Kernel order reduce (top_k_capacity k) tmp bb parts k out = Ok out.
Proof.
  intros Hb Hk. assert (top_k_capacity k = 64)%nat as ->.
  { unfold top_k_capacity. repeat match goal with |- context [(?a <=? ?b)%nat] => destruct (Nat.leb_spec a b) end; lia. }
  assert (bb = 1 ∨ bb = 2)%nat as [-> | ->] by lia; eexists; split; reflexivity.
Qed.

(** C25: the search for the best: for every entry the [k] best of the scores of its
    beams are written in order, with the token and the beam of each, ties going
    to the lower beam and then to the lower token; however the blocks run, and
    however cub combines what the threads of a block found.  For [k] above 32
    there must be three beams or more in all: with fewer the second stage asks
    for more shared memory than a block is given ([stage2_refused]). *)
Theorem BeamSearchTopK_spec (order : nat -> list nat) (reduce : (TopK -> TopK -> TopK) -> list TopK -> TopK) (nb nbeam nv k n : nat)
    (input : list f32) (tmp1 tmp2 : list f32 * list Z) (output : list Z * list Z * list f32) :
  Schedule order -> BlockReduce reduce ->
  (0 < nb)%nat -> (0 < nbeam)%nat -> (0 < k <= 64)%nat -> (k <= nv)%nat -> length input = (nb * nbeam * nv)%nat -> proper input ->
  Z.of_nat (nb * nbeam * nv) <= INT_MAX -> Z.of_nat (nv + 128) <= INT_MAX -> Z.of_nat (nb * nbeam * 128 * k) <= INT_MAX ->
  (k <= 32 ∨ 3 <= nb * nbeam)%nat -> sized n tmp1 -> (nb * nbeam * 128 * k <= n)%nat -> sized (nb * nbeam * k) tmp2 -> out_sized (nb * k) output ->
  ∃ indices tokens scores, BeamSearchTopK order reduce input nb nbeam nv k tmp1 tmp2 output = Ok (indices, tokens, scores) ∧
    out_sized (nb * k) (indices, tokens, scores) ∧
    ∀ b, (b < nb)%nat -> let l := entry_input nbeam nv input b in
      ∃ ix, descending k l ix ∧ ties_low k l ix ∧
        take k (drop (b * k) indices) = map (fun v => Z.of_nat (v / nv)) (take k ix) ∧
        take k (drop (b * k) tokens) = map (fun v => Z.of_nat (v mod nv)) (take k ix) ∧
        take k (drop (b * k) scores) = map (fun v => nth v l f0) (take k ix).
Proof. apply BeamSearchTopK_best. Qed.

Module Examples.
Import Cuda.Examples.

(* cub may combine the values from the left *)
Definition fold_reduce (op : TopK -> TopK -> TopK) (l : list TopK) : TopK :=
  match l with [] => [] | x :: l' => fold_left op l' x end.

#[export] Instance fold_reduce_ok : BlockReduce fold_reduce.
Proof.
  intros op [|x l] Hne; [done|]. cbn [fold_reduce]. induction l as [|y l IH] using rev_ind; [constructor|].
  rewrite fold_left_app. change (x :: l ++ [y]) with ((x :: l) ++ [y]). constructor; [by apply IH|constructor].
Qed.

(* one entry of two beams and four tokens *)
Definition two_beams : list f32 := map f32_of_Z [3; 1; 7; 2; 5; 7; 0; 4].

Lemma BeamSearchTopK_spec_witness :
  let input := two_beams in let zero n := (replicate n f0, replicate n 0) in
  ∃ indices tokens scores, BeamSearchTopK backwards fold_reduce input 1 2 4 2 (zero 512%nat) (zero 4%nat) (replicate 2 0, replicate 2 0, replicate 2 f0)
      = Ok (indices, tokens, scores) ∧ length indices = 2%nat.
Proof.
  cbv zeta. destruct (BeamSearchTopK_spec backwards fold_reduce 1 2 4 2 512 two_beams (replicate 512 f0, replicate 512 0)
    (replicate 4 f0, replicate 4 0) (replicate 2 0, replicate 2 0, replicate 2 f0)) as (indices & tokens & scores & E & (Hs & _) & _);
    [apply backwards_schedule|apply fold_reduce_ok|lia|lia|lia|lia|reflexivity| |vm_compute; done|vm_compute; done|vm_compute; done|lia| |lia| | |].
  - unfold two_beams, proper. repeat (constructor; [vm_compute; done|]). constructor.
  - split; apply length_replicate.
  - split; apply length_replicate.
  - split; [|split]; apply length_replicate.
  - exists indices, tokens, scores. split; [exact E|exact Hs].
Defined.
End Examples.
