(* ===== verification/CudaSearch.v ===== *)
(** * Search on the device (src/search_cuda.h, src/search_cuda.cuh,
    src/search_cuda.cpp, src/search_cuda.cu): the kernels, what greedy and beam
    search share, and beam search

    The kernels of the scores have a thread per score or per row; the check for
    the end of sequence token is one thread.  [topk_buffer_] is kept as the
    values and tokens of its two stages.  [next_tokens_] of a beam search is the
    scorer's span.  Greedy search is in [CudaGreedy]. *)
From Stdlib Require Import ZArith Lia SpecFloat.
From stdpp Require Import base numbers list sorting.
From S2P Require Import Prelude Float32 Config Tensors Params Sequences BeamScorer Search Cuda CudaSequences CudaScorer CudaTopK.
Local Open Scope nat_scope.

(** ** The kernels *)
(* while (batch_id < next_tokens_count): the first entry that has not ended *)
Fixpoint first_open (eos_meet : list bool) (n batch_id : nat) : outcome nat :=
  match n with
  | O => Ok batch_id
  | S n => m ← get eos_meet batch_id; if (m : bool) then first_open eos_meet n (S batch_id) else Ok batch_id
  end.

(* the state is next_tokens, eos_meet and *done_cpu *)
Definition CheckForEOS (next_tokens_count : nat) (eos_token_id pad_token_id : Z) (st : list Z * list bool * bool)
  : outcome (list Z * list bool * bool) :=
  let '(next_tokens, eos_meet, done_cpu) := st in
  '(next_tokens, eos_meet) ← for_ next_tokens_count (fun batch_id '(next_tokens, eos_meet) =>
    t ← get next_tokens batch_id;
    met ← (if (t =? eos_token_id)%Z then Ok true else get eos_meet batch_id);
    if (met : bool) then
      eos_meet ← put eos_meet batch_id true; next_tokens ← put next_tokens batch_id pad_token_id; Ok (next_tokens, eos_meet)
    else Ok (next_tokens, eos_meet)) (next_tokens, eos_meet);
  batch_id ← first_open eos_meet next_tokens_count 0;
  Ok (next_tokens, eos_meet, if batch_id =? next_tokens_count then true else done_cpu).

(* the division comes before the test of the index *)
Definition AddProbsKernel (cum_log_probs : list f32) (vocab_size total_elements index : Z) (log_probs : list f32) : outcome (list f32) :=
  if (vocab_size =? 0)%Z then Undef else
  let batch_beam_index := Z.quot index vocab_size in
  if (index <? total_elements)%Z then
    x ← getZ log_probs index; b ← getZ cum_log_probs batch_beam_index; putZ log_probs index (fadd x b)
  else Ok log_probs.

Definition SetScoreProcessor (batch_beam_size vocab_size token : Z) (score : f32) (index : Z) (next_token_scores : list f32)
  : outcome (list f32) :=
  if (batch_beam_size <=? index)%Z then Ok next_token_scores else
  at_ ← chk32 (index * vocab_size); at_ ← chk32 (at_ + token); putZ next_token_scores at_ score.

(* the loop over the sequence, which stops at the word *)
Fixpoint occurs (sequences : list Z) (word_id : Z) (n at_ : nat) : outcome bool :=
  match n with
  | O => Ok false
  | S n => t ← get sequences at_; if (t =? word_id)%Z then Ok true else occurs sequences word_id n (S at_)
  end.

Definition RepetitionPenaltyProcessor (sequences : list Z) (max_sequence_length vocab_size total_elements : Z) (current_sequence_length : nat)
    (repetition_penalty : f32) (index : Z) (next_token_scores : list f32) : outcome (list f32) :=
  if (total_elements <=? index)%Z then Ok next_token_scores else
  if (vocab_size =? 0)%Z then Undef else
  let batch_beam_index := Z.quot index vocab_size in
  let word_id := Z.rem index vocab_size in
  current_sequence ← chk32 (batch_beam_index * max_sequence_length);
  if (current_sequence <? 0)%Z then Undef else
  found ← occurs sequences word_id current_sequence_length (Z.to_nat current_sequence);
  if (found : bool) then
    score ← getZ next_token_scores index; putZ next_token_scores index (penalise repetition_penalty score)
  else Ok next_token_scores.

Section launchers.
Context (order : nat -> list nat).

Definition Launch_CheckForEOS (next_tokens_count : nat) (eos_token_id pad_token_id : Z) (st : list Z * list bool * bool)
  : outcome (list Z * list bool * bool) :=
  launch order 1 1 (fun _ => CheckForEOS next_tokens_count eos_token_id pad_token_id) st.

Definition LaunchAddProbsKernel (log_probs cum_log_probs : list f32) (batch_size num_beams vocab_size : Z) : outcome (list f32) :=
  n ← chk32 (batch_size * num_beams); total_elements ← chk32 (n * vocab_size);
  launch_256 order total_elements (AddProbsKernel cum_log_probs vocab_size total_elements) log_probs.

Definition LaunchSetScoreProcessor (next_token_scores : list f32) (batch_beam_size vocab_size token : Z) (score : f32) : outcome (list f32) :=
  launch_256 order batch_beam_size (SetScoreProcessor batch_beam_size vocab_size token score) next_token_scores.

Definition LaunchRepetitionPenaltyProcessor (sequences : list Z) (next_token_scores : list f32) (batch_size num_beams vocab_size max_sequence_length : Z)
    (current_sequence_length : nat) (repetition_penalty : f32) : outcome (list f32) :=
  n ← chk32 (batch_size * num_beams); total_elements ← chk32 (n * vocab_size);
  launch_256 order total_elements
    (RepetitionPenaltyProcessor sequences max_sequence_length vocab_size total_elements current_sequence_length repetition_penalty) next_token_scores.
End launchers.

(** ** Search_Cuda *)
Record Search_Cuda := mkSearchCuda {
  cu_sequence_lengths_ : list (option Z);
  eos_meet_ : list bool;
  cu_next_token_scores_ : list f32;
  done_cpu_ : bool;
  cu_sequences : Sequences }.

Definition set_cu_scores (l : list f32) (c : Search_Cuda) : Search_Cuda :=
  mkSearchCuda (cu_sequence_lengths_ c) (eos_meet_ c) l (done_cpu_ c) (cu_sequences c).
Definition set_cu_sequences (q : Sequences) (c : Search_Cuda) : Search_Cuda :=
  mkSearchCuda (cu_sequence_lengths_ c) (eos_meet_ c) (cu_next_token_scores_ c) (done_cpu_ c) q.
Definition set_cu_done (b : bool) (c : Search_Cuda) : Search_Cuda :=
  mkSearchCuda (cu_sequence_lengths_ c) (eos_meet_ c) (cu_next_token_scores_ c) b (cu_sequences c).
Definition set_eos_meet (l : list bool) (c : Search_Cuda) : Search_Cuda :=
  mkSearchCuda (cu_sequence_lengths_ c) l (cu_next_token_scores_ c) (done_cpu_ c) (cu_sequences c).

Section search.
Context (p : GeneratorParams) (order : nat -> list nat) (malloc : nat -> list Z).

(* the flags are cleared *)
Definition Search_Cuda_new : outcome Search_Cuda :=
  seqs ← Sequences_Cuda_new order malloc (prompt p) (n_batch p) (n_beams p) (n_max p);
  bb ← BatchBeamSize p;
  Ok (mkSearchCuda (uninit (Z.to_nat bb)) (replicate (Z.to_nat bb) false) [] false seqs).

Definition Cuda_SetLogits (logits_unk : list f32) (c : Search_Cuda) : Search_Cuda := set_cu_scores logits_unk c.
Definition cuda_length (c : Search_Cuda) : nat := GetSequenceLength (cu_sequences c).

Definition Cuda_GetScores (batch_beam_index : nat) (c : Search_Cuda) : outcome (list f32) :=
  bb ← BatchBeamSize p;
  _ ← assert_ (Z.of_nat batch_beam_index <? bb)%Z;
  subspan (cu_next_token_scores_ c) (batch_beam_index * n_vocab p) (n_vocab p).

Definition Cuda_ApplyMinLength (min_length : Z) (c : Search_Cuda) : outcome Search_Cuda :=
  if (min_length <=? Z.of_nat (cuda_length c))%Z then Ok c else
  bb ← BatchBeamSize p;
  l ← LaunchSetScoreProcessor order (cu_next_token_scores_ c) bb (gp_vocab_size p) (gp_eos_token_id p) f32_lowest;
  Ok (set_cu_scores l c).

Definition Cuda_ApplyRepetitionPenalty (penalty : f32) (c : Search_Cuda) : outcome Search_Cuda :=
  if feq penalty f1 then Ok c else
  l ← LaunchRepetitionPenaltyProcessor order (sequences_ (cu_sequences c)) (cu_next_token_scores_ c) (batch_size p) (num_beams (gp_search p))
        (gp_vocab_size p) (max_length (gp_search p)) (cuda_length c) penalty;
  Ok (set_cu_scores l c).
End search.

(** ** BeamSearch_Cuda *)
Record BeamSearch_Cuda := mkBeamCuda {
  bc_cuda : Search_Cuda;
  bc_scorer : BeamSearchScorer_Cuda;
  topk_next_indices_ : list Z;
  topk_next_tokens_ : list Z;
  topk_next_scores_ : list f32;
  topk_1st_stage : list f32 * list Z;
  topk_2nd_stage : list f32 * list Z }.

Section beam.
Context (p : GeneratorParams) (pow : f32 -> f32 -> f32) (order : nat -> list nat) (reduce : (TopK -> TopK -> TopK) -> list TopK -> TopK).
Context (malloc : nat -> list Z) (malloc_hyps : nat -> list BeamHypotheses) (malloc_scores : nat -> list f32).
Local Abbreviation bb := (n_batch p * n_beams p).

(* the buffer of the best is cleared *)
Definition BeamSearch_Cuda_new : outcome BeamSearch_Cuda :=
  c ← Search_Cuda_new p order malloc;
  _ ← assert_ (1 <? n_beams p);
  sc ← BeamSearchScorer_Cuda_new order malloc_hyps malloc_scores (n_batch p) (n_beams p) (n_max p)
         (length_penalty (gp_search p)) (sequence_length p);
  let candidate_count := bb * 2 * n_beams p in
  Ok (mkBeamCuda c sc (malloc (2 * bb)) (malloc (2 * bb)) (malloc_scores (2 * bb))
        (replicate (candidate_count * 128) f0, replicate (candidate_count * 128) 0%Z)
        (replicate candidate_count f0, replicate candidate_count 0%Z)).

Definition Cuda_GetNextTokens (s : BeamSearch_Cuda) : outcome (list Z) := read_all (next_beam_tokens_ (gpu_ (bc_scorer s))).
Definition Cuda_GetNextIndices (s : BeamSearch_Cuda) : outcome (list Z) := read_all (next_beam_indices_ (gpu_ (bc_scorer s))).

Definition BeamSearch_Cuda_SelectTop (s : BeamSearch_Cuda) : outcome BeamSearch_Cuda :=
  let beam_scores := next_beam_scores_ (gpu_ (bc_scorer s)) in
  scores ← LaunchAddProbsKernel order (cu_next_token_scores_ (bc_cuda s)) beam_scores (batch_size p) (num_beams (gp_search p)) (gp_vocab_size p);
  _ ← assert_ (n_beams p <=? 32);
  '(next_indices, next_tokens, next_scores) ← BeamSearchTopK order reduce scores (n_batch p) (n_beams p) (n_vocab p) (2 * n_beams p)
    (topk_1st_stage s) (topk_2nd_stage s) (topk_next_indices_ s, topk_next_tokens_ s, topk_next_scores_ s);
  '(sc, seqs) ← Process_Cuda pow (n_batch p) (n_beams p) (n_max p) (gp_pad_token_id p) (gp_eos_token_id p) (early_stopping (gp_search p)) order
    (bc_scorer s) (cu_sequences (bc_cuda s)) next_scores next_tokens next_indices;
  seqs ← AfterDeviceAppendedNextToken seqs;
  Ok (mkBeamCuda (set_cu_sequences seqs (set_cu_scores scores (bc_cuda s))) sc next_indices next_tokens next_scores (topk_1st_stage s) (topk_2nd_stage s)).


Definition BeamSearch_Cuda_Finalize (num_return_sequences : nat) (output : list Z) (sequence_scores : list f32) (s : BeamSearch_Cuda)
  : outcome (BeamSearch_Cuda * (list Z * list f32)) :=
  '(sc, out) ← Finalize_Cuda pow (n_batch p) (n_beams p) (n_max p) (gp_pad_token_id p) order (bc_scorer s) (cu_sequences (bc_cuda s))
    num_return_sequences output sequence_scores;
  Ok (mkBeamCuda (bc_cuda s) sc (topk_next_indices_ s) (topk_next_tokens_ s) (topk_next_scores_ s) (topk_1st_stage s) (topk_2nd_stage s), out).
End beam.

(** ** A thread per element *)
Section pointwise.
Context {A : Type} (order : nat -> list nat) {Ho : Schedule order} (thread : Z -> list A -> outcome (list A)) (g : nat -> A -> A) (l : list A).
Context (Hcell : ∀ i d x, i < length l -> length d = length l -> d !! i = Some x -> thread (Z.of_nat i) d = Ok (<[i := g i x]> d)).
Context (Hidle : ∀ i d, length l <= i -> thread (Z.of_nat i) d = Ok d).

Lemma pointwise_launch : (Z.of_nat (length l) + 255 <= INT_MAX)%Z -> launch_256 order (Z.of_nat (length l)) thread l = Ok (imap g l).
Proof.
  intros Hmax.
  destruct (launch_256_inv (fun done d => length d = length l ∧ ∀ i, i < length l -> d !! i = if decide (i ∈ done) then g i <$> l !! i else l !! i)
    order thread (length l)) with (count := length l) (m := l) as (d & E & Hd & Hi); try done.
  - intros l1 l2 d Hp [H1 H2]. split; [done|]. intros i Hi. rewrite H2 by done. by rewrite (decide_ext (i ∈ l1) (i ∈ l2)) by by rewrite Hp.
  - intros done i d Hi Hni [H1 H2]. destruct (lookup_lt_is_Some_2 d i) as [x Hx]; [lia|]. rewrite (Hcell i d x) by done.
    eexists. split; [reflexivity|]. split; [by rewrite length_insert|]. intros j Hj. destruct (decide (j = i)) as [->|Hne].
    + rewrite list_lookup_insert_eq by lia. rewrite decide_True by (apply elem_of_app; right; by left).
      rewrite H2, decide_False in Hx by done. by rewrite Hx.
    + rewrite list_lookup_insert_ne, H2 by done. rewrite (decide_ext (j ∈ done) (j ∈ done ++ [i])); [done|].
      rewrite elem_of_app, list_elem_of_singleton. naive_solver.
  - rewrite E. f_equal. apply (list_eq_lt _ _ (length l)); [done|apply length_imap|]. intros i Hi'. rewrite Hi, list_lookup_imap by done.
    by rewrite decide_True by (apply elem_of_seq; lia).
Qed.
End pointwise.

(** ** The kernels of the scores do what the CPU does *)
Section scores.
Context (p : GeneratorParams) (order : nat -> list nat) {Ho : Schedule order} (bb : nat).
Local Abbreviation nv := (n_vocab p).

Lemma AddProbs_added (beam_scores scores : list f32) : 0 < nv -> (0 <= batch_size p)%Z -> (0 <= num_beams (gp_search p))%Z -> bb = n_batch p * n_beams p ->
  length scores = bb * nv -> length beam_scores = bb -> (Z.of_nat (bb * nv) + 255 <= INT_MAX)%Z ->
  LaunchAddProbsKernel order scores beam_scores (batch_size p) (num_beams (gp_search p)) (gp_vocab_size p) = Ok (added p beam_scores scores (bb * nv)).
Proof.
  intros Hnv Hb Hn -> Hl Hbs Hi. unfold LaunchAddProbsKernel.
  assert (batch_size p * num_beams (gp_search p) = Z.of_nat (n_batch p * n_beams p))%Z as -> by (unfold n_batch, n_beams; lia).
  assert (gp_vocab_size p = Z.of_nat nv) as -> by (unfold n_vocab in *; lia).
  set (bb' := n_batch p * n_beams p) in *. unfold INT_MAX in Hi.
  assert (bb' <= bb' * nv) as Hle by nia.
  rewrite chk32_ok, bind_Ok by (unfold INT_MIN, INT_MAX; lia). rewrite <- Nat2Z.inj_mul, chk32_ok, bind_Ok by (unfold INT_MIN, INT_MAX; lia).
  rewrite <- Hl. unfold added. apply pointwise_launch; [done| | |unfold INT_MAX; lia].
  - intros i d x Hil Hd Hx. unfold AddProbsKernel. rewrite (proj2 (Z.eqb_neq _ _)) by lia. cbv zeta. rewrite (proj2 (Z.ltb_lt _ _)) by lia.
    rewrite (getZ_get d), Nat2Z.id, (get_Some _ _ x Hx), bind_Ok by lia.
    assert (i / nv < bb') as Hq by (apply Nat.Div0.div_lt_upper_bound; lia). destruct (lookup_lt_is_Some_2 beam_scores (i / nv)) as [b Hbi]; [lia|].
    rewrite Z.quot_div_nonneg, <- Nat2Z.inj_div, getZ_get, Nat2Z.id, (get_Some _ _ b Hbi), bind_Ok, putZ_put, Nat2Z.id, put_lt by lia.
    rewrite decide_True by lia. by rewrite nth_lookup, Hbi.
  - intros i d Hil. unfold AddProbsKernel. rewrite (proj2 (Z.eqb_neq _ _)) by lia. cbv zeta. by rewrite (proj2 (Z.ltb_ge _ _)) by lia.
Qed.

Lemma score_rows_eq (l l' : list f32) : length l = bb * nv -> length l' = bb * nv -> (∀ i, i < bb -> scores_row p l i = scores_row p l' i) -> l = l'.
Proof.
  intros Hl Hl' H. rewrite (windows_blocks (scores_row p l') nv bb l' Hl') by done. by apply (windows_blocks (scores_row p l') nv bb l Hl).
Qed.

Lemma scores_row_insert (l : list f32) k e x i : length l = bb * nv -> i < bb -> k < bb -> e < nv ->
  scores_row p (<[k * nv + e := x]> l) i = if decide (i = k) then <[e := x]> (scores_row p l i) else scores_row p l i.
Proof.
  intros Hl Hi Hk He. pose proof (row_bound i bb nv Hi). unfold scores_row. apply (list_eq_lt _ _ nv).
  - apply length_window. rewrite length_insert. lia.
  - case_decide; rewrite ?length_insert; apply length_window; lia.
  - intros j Hj. rewrite lookup_window by done. destruct (decide (i = k)) as [->|Hne].
    + destruct (decide (j = e)) as [->|Hje].
      * rewrite !list_lookup_insert_eq; [done|rewrite length_window; lia|lia].
      * rewrite !list_lookup_insert_ne by lia. by rewrite lookup_window.
    + rewrite list_lookup_insert_ne by (intros E; apply row_index_inj in E; lia). by rewrite lookup_window.
Qed.

Lemma SetScore_rows (l : list f32) (token : Z) (score : f32) : 0 < nv -> length l = bb * nv -> (0 <= token < Z.of_nat nv)%Z ->
  (Z.of_nat (bb * nv) + 255 <= INT_MAX)%Z ->
  ∃ l', LaunchSetScoreProcessor order l (Z.of_nat bb) (Z.of_nat nv) token score = Ok l' ∧ length l' = bb * nv ∧
    ∀ i, i < bb -> scores_row p l' i = <[Z.to_nat token := score]> (scores_row p l i).
Proof.
  intros Hnv Hl Ht Hi. unfold LaunchSetScoreProcessor. assert (bb <= bb * nv) as Hbb by nia. unfold INT_MAX in Hi.
  destruct (launch_256_inv (fun done d => length d = bb * nv ∧ ∀ i, i < bb -> scores_row p d i =
      if decide (i ∈ done) then <[Z.to_nat token := score]> (scores_row p l i) else scores_row p l i)
    order (SetScoreProcessor (Z.of_nat bb) (Z.of_nat nv) token score) bb) with (count := bb) (m := l) as (d & E & Hd & Hrows).
  - intros l1 l2 d Hp [H1 H2]. split; [done|]. intros i Hib. rewrite H2 by done. by rewrite (decide_ext (i ∈ l1) (i ∈ l2)) by by rewrite Hp.
  - intros done i d Hib Hni [H1 H2]. pose proof (row_bound i bb nv Hib). unfold SetScoreProcessor. rewrite (proj2 (Z.leb_gt _ _)) by lia.
    rewrite <- Nat2Z.inj_mul, (chk32_ok (Z.of_nat (i * nv))), bind_Ok by (unfold INT_MIN, INT_MAX; lia).
    rewrite chk32_ok, bind_Ok by (unfold INT_MIN, INT_MAX; lia). rewrite putZ_put by lia.
    replace (Z.to_nat (Z.of_nat (i * nv) + token)) with (i * nv + Z.to_nat token) by lia. rewrite put_lt by lia.
    eexists. split; [reflexivity|]. split; [by rewrite length_insert|]. intros j Hj. rewrite scores_row_insert by (done || lia).
    rewrite H2 by done. destruct (decide (j = i)) as [->|Hne].
    + rewrite decide_False by done. by rewrite decide_True by (apply elem_of_app; right; by left).
    + rewrite (decide_ext (j ∈ done) (j ∈ done ++ [i])); [done|]. rewrite elem_of_app, list_elem_of_singleton. naive_solver.
  - done.
  - unfold INT_MAX. lia.
  - intros i d Hib. unfold SetScoreProcessor. by rewrite (proj2 (Z.leb_le _ _)) by lia.
  - split; [done|]. intros i _. by rewrite decide_False by apply not_elem_of_nil.
  - exists d. split; [done|]. split; [done|]. intros i Hib. rewrite Hrows by done. by rewrite decide_True by (apply elem_of_seq; lia).
Qed.

Lemma occurs_elem (seqs : list Z) w n : ∀ at_, at_ + n <= length seqs -> occurs seqs w n at_ = Ok (bool_decide (w ∈ take n (drop at_ seqs))).
Proof.
  induction n as [|n IH]; intros at_ Hn; [done|]. cbn [occurs]. destruct (get_lt seqs at_) as (t & -> & Ht); [lia|]. rewrite bind_Ok.
  rewrite (drop_S _ _ _ Ht). cbn [take]. destruct (Z.eqb_spec t w) as [->|Hne]; [by rewrite bool_decide_true by by left|].
  rewrite IH by lia. f_equal. apply bool_decide_ext. rewrite elem_of_cons. naive_solver.
Qed.

Lemma RepetitionPenalty_rows (seqs : Sequences) (l : list f32) (penalty : f32) : 0 < nv -> (0 <= batch_size p)%Z -> (0 <= num_beams (gp_search p))%Z ->
  bb = n_batch p * n_beams p -> length l = bb * nv -> wf seqs -> batch_beam_size_ seqs = bb -> max_length_ seqs = n_max p ->
  (0 <= max_length (gp_search p))%Z -> (Z.of_nat (bb * nv) + 255 <= INT_MAX)%Z -> (Z.of_nat (bb * n_max p) <= INT_MAX)%Z ->
  ∃ l', LaunchRepetitionPenaltyProcessor order (sequences_ seqs) l (batch_size p) (num_beams (gp_search p)) (gp_vocab_size p)
      (max_length (gp_search p)) (GetSequenceLength seqs) penalty = Ok l' ∧ length l' = bb * nv ∧
    ∀ i, i < bb -> scores_row p l' i = penalised penalty (row seqs i) (scores_row p l i).
Proof.
  intros Hnv Hb Hn Hbb Hl [Hls Hlc] Hrows Hmax Hmz Hi Hi2. unfold LaunchRepetitionPenaltyProcessor.
  assert (batch_size p * num_beams (gp_search p) = Z.of_nat bb)%Z as -> by (unfold n_batch, n_beams in *; lia).
  assert (gp_vocab_size p = Z.of_nat nv) as -> by (unfold n_vocab in *; lia).
  assert (max_length (gp_search p) = Z.of_nat (n_max p)) as -> by (unfold n_max; lia).
  unfold INT_MAX in Hi, Hi2. assert (bb <= bb * nv) as Hle by nia.
  rewrite chk32_ok, bind_Ok by (unfold INT_MIN, INT_MAX; lia). rewrite <- Nat2Z.inj_mul, chk32_ok, bind_Ok by (unfold INT_MIN, INT_MAX; lia).
  rewrite <- Hl. rewrite (pointwise_launch order _ (fun i x => if bool_decide (Z.of_nat (i mod nv) ∈ row seqs (i / nv)) then penalise penalty x else x)).
  - eexists. split; [reflexivity|]. split; [by rewrite length_imap|]. intros i Hib. pose proof (row_bound i bb nv Hib).
    unfold scores_row, penalised. apply (list_eq_lt _ _ nv); [apply length_window; rewrite length_imap; lia|rewrite length_imap; apply length_window; lia|].
    intros j Hj. rewrite lookup_window, !list_lookup_imap, lookup_window by done. destruct (l !! (i * nv + j)) as [x|]; [|done]. cbn [fmap option_fmap option_map].
    rewrite Nat.add_comm, Nat.Div0.mod_add, Nat.mod_small, Nat.div_add, Nat.div_small by lia. cbn [Nat.add]. f_equal. by case_bool_decide; case_decide.
  - intros i d x Hil Hd Hx. unfold RepetitionPenaltyProcessor. rewrite (proj2 (Z.leb_gt _ _)), (proj2 (Z.eqb_neq _ _)) by lia. cbv zeta.
    assert (i / nv < bb) as Hq by (apply Nat.Div0.div_lt_upper_bound; lia). pose proof (row_bound (i / nv) bb (n_max p) Hq) as Hrb.
    rewrite Z.quot_div_nonneg, <- Nat2Z.inj_div, <- Nat2Z.inj_mul, chk32_ok, bind_Ok by (unfold INT_MIN, INT_MAX; lia).
    rewrite (proj2 (Z.ltb_ge _ _)), Nat2Z.id, Z.rem_mod_nonneg, <- Nat2Z.inj_mod by lia.
    rewrite occurs_elem, bind_Ok by (rewrite Hls, Hrows, Hmax; rewrite Hmax in Hlc; unfold GetSequenceLength; lia).
    unfold row. rewrite Hmax. fold (GetSequenceLength seqs). case_bool_decide.
    + rewrite getZ_get, Nat2Z.id, (get_Some _ _ x Hx), bind_Ok, putZ_put, Nat2Z.id, put_lt by lia. done.
    + by rewrite list_insert_id.
  - intros i d Hil. unfold RepetitionPenaltyProcessor. by rewrite (proj2 (Z.leb_le _ _)) by lia.
  - rewrite Hl. unfold INT_MAX. lia.
Qed.
End scores.

(** The CPU's state with the same contents. *)
Definition as_cpu (c : Search_Cuda) : Search_Cpu :=
  mkSearchCpu (cu_sequence_lengths_ c) [] (cu_next_token_scores_ c) (cu_sequences c) (done_cpu_ c).

Section processors.
Context (p : GeneratorParams) (order : nat -> list nat) {Ho : Schedule order} (unordered : list Z -> list Z) {Hu : Unordered unordered}.
Context (bb : nat) (c : Search_Cuda) (Hok : scores_ok p bb (as_cpu c)) (Hbb : bb = n_batch p * n_beams p).
Context (Hb : (0 <= batch_size p)%Z) (Hn : (0 <= num_beams (gp_search p))%Z) (Hi : (Z.of_nat (bb * n_vocab p) + 255 <= INT_MAX)%Z).

Lemma ApplyMinLength_agrees m : (0 <= gp_eos_token_id p < gp_vocab_size p)%Z ->
  ∃ c', Cuda_ApplyMinLength p order m c = Ok c' ∧ ApplyMinLength p m (as_cpu c) = Ok (as_cpu c') ∧
    scores_ok p bb (as_cpu c') ∧ cu_sequences c' = cu_sequences c.
Proof.
  intros He. destruct (ApplyMinLength_rows p bb m (as_cpu c) Hok He) as (c1 & E & [l ->] & Hl & Hrows). rewrite E.
  destruct Hok as [K1 K2 K3 K4]. unfold Cuda_ApplyMinLength. unfold ApplyMinLength in E. unfold search_length in E, Hrows. cbn [sequences as_cpu] in E, Hrows.
  change (GetSequenceLength (cu_sequences c)) with (cuda_length c) in *. destruct (Z.leb_spec m (Z.of_nat (cuda_length c))) as [Hle|Hlt].
  - exists c. split; [done|]. split; [congruence|]. by split.
  - rewrite K1, bind_Ok. rewrite (proj2 (Z.ltb_lt _ _)) in Hrows by done.
    assert (gp_vocab_size p = Z.of_nat (n_vocab p)) as Hv by (unfold n_vocab; lia). rewrite Hv.
    destruct (SetScore_rows p order bb (cu_next_token_scores_ c) (gp_eos_token_id p) f32_lowest) as (l' & -> & Hl' & Hr'); [lia|done|lia|done|].
    rewrite bind_Ok. eexists. split; [reflexivity|]. cbn [next_token_scores_ set_scores as_cpu] in *.
    assert (l = l') as <-; [|by split; [|split]; [| |done]; [|split]].
    apply (score_rows_eq p bb); [congruence|done|]. intros i Hib. rewrite Hrows, Hr' by done. done.
Qed.

Lemma ApplyRepetitionPenalty_agrees penalty : 0 < n_vocab p -> max_length_ (cu_sequences c) = n_max p -> (0 <= max_length (gp_search p))%Z ->
  (Z.of_nat (bb * n_max p) <= INT_MAX)%Z ->
  (∀ i, i < bb -> Forall (fun t => (0 <= t < gp_vocab_size p)%Z) (row (cu_sequences c) i)) ->
  ∃ c', Cuda_ApplyRepetitionPenalty p order penalty c = Ok c' ∧ ApplyRepetitionPenalty p unordered penalty (as_cpu c) = Ok (as_cpu c') ∧
    scores_ok p bb (as_cpu c') ∧ cu_sequences c' = cu_sequences c.
Proof.
  intros Hv Hm Hmz Hi2 Hids. destruct (ApplyRepetitionPenalty_rows p unordered bb penalty (as_cpu c) Hu Hok Hids) as (c1 & E & [l ->] & Hl & Hrows). rewrite E.
  destruct Hok as [K1 K2 K3 K4]. unfold Cuda_ApplyRepetitionPenalty. unfold ApplyRepetitionPenalty in E. destruct (feq penalty f1).
  - exists c. split; [done|]. split; [congruence|]. by split.
  - destruct (RepetitionPenalty_rows p order bb (cu_sequences c) (cu_next_token_scores_ c) penalty) as (l' & El & Hl' & Hr'); try done.
    unfold cuda_length. rewrite El, bind_Ok. eexists. split; [reflexivity|]. cbn [next_token_scores_ set_scores as_cpu] in *.
    assert (l = l') as <-; [|by split; [|split]; [| |done]; [|split]].
    apply (score_rows_eq p bb); [congruence|done|]. intros i Hib. rewrite Hrows, Hr' by done. done.
Qed.
End processors.

(** C34: the logit processors on the device, the minimum length and then the
    repetition penalty, leave the scores the CPU's do. *)
Theorem logit_processors_refine (p : GeneratorParams) (order : nat -> list nat) (unordered : list Z -> list Z) (min_length : Z) (penalty : f32)
    (c : Search_Cuda) :
  let bb := n_batch p * n_beams p in
  Schedule order -> Unordered unordered -> scores_ok p bb (as_cpu c) -> (0 <= batch_size p)%Z -> (0 <= num_beams (gp_search p))%Z ->
  (0 <= gp_eos_token_id p < gp_vocab_size p)%Z -> (0 <= max_length (gp_search p))%Z -> max_length_ (cu_sequences c) = n_max p ->
  (Z.of_nat (bb * n_vocab p) + 255 <= INT_MAX)%Z -> (Z.of_nat (bb * n_max p) <= INT_MAX)%Z ->
  (∀ i, i < bb -> Forall (fun t => (0 <= t < gp_vocab_size p)%Z) (row (cu_sequences c) i)) ->
  ∃ c1 c2, Cuda_ApplyMinLength p order min_length c = Ok c1 ∧ Cuda_ApplyRepetitionPenalty p order penalty c1 = Ok c2 ∧
    (c' ← ApplyMinLength p min_length (as_cpu c); ApplyRepetitionPenalty p unordered penalty c') = Ok (as_cpu c2).
Proof.
  intros bb Ho Hu Hok Hb Hn He Hmz Hm Hi Hi2 Hids.
  destruct (ApplyMinLength_agrees p order bb c Hok eq_refl Hi min_length He) as (c1 & E1 & E1' & Hok1 & Hq1).
  destruct (ApplyRepetitionPenalty_agrees p order unordered bb c1 Hok1 eq_refl Hb Hn Hi penalty) as (c2 & E2 & E2' & _);
    [unfold n_vocab; lia|congruence|done|done|by rewrite Hq1|].
  exists c1, c2. by rewrite E1', bind_Ok.
Qed.

(** ** A step of beam search *)
(** The CPU's state with the same contents; it keeps whether the search is done. *)
Definition as_beam (p : GeneratorParams) (s : BeamSearch_Cuda) : BeamSearch_Cpu :=
  mkBeam (set_done (Z.of_nat (cuda_length (bc_cuda s)) =? max_length (gp_search p))%Z (as_cpu (bc_cuda s))) (gpu_ (bc_scorer s)).

(** What a step needs of the sizes, so that every launch is accepted and every
    index is an [int]. *)
Record cuda_sizes (p : GeneratorParams) : Prop := {
  cz_beam : beam_sizes p;
  cz_beams : n_beams p <= 32;
  cz_vocab : 2 * n_beams p <= n_vocab p;
  cz_threads : (Z.of_nat (n_batch p * n_beams p) <= max_threads_per_block)%Z;
  cz_scores : (Z.of_nat (n_batch p * n_beams p * n_vocab p) + 255 <= INT_MAX)%Z;
  cz_part : (Z.of_nat (n_vocab p + 128) <= INT_MAX)%Z;
  cz_topk : (Z.of_nat (n_batch p * n_beams p * 128 * (2 * n_beams p)) <= INT_MAX)%Z;
  cz_rows : (Z.of_nat (n_batch p * n_beams p * n_max p) + 512 <= INT_MAX)%Z;
  cz_length : (Z.of_nat (n_max p) <= 512 * max_grid_y)%Z }.

(** What holds of a beam search between steps. *)
Record cuda_ok (p : GeneratorParams) (s : BeamSearch_Cuda) (es : list (list (list Z * f32) * bool)) : Prop := {
  co_beam : beam_ok p (as_beam p s) es;
  co_host : cpu_not_done_count_ (bc_scorer s) = batch_size p;
  co_out : out_sized (n_batch p * (2 * n_beams p)) (topk_next_indices_ s, topk_next_tokens_ s, topk_next_scores_ s);
  co_1st : sized (n_batch p * n_beams p * 2 * n_beams p * 128) (topk_1st_stage s);
  co_2nd : sized (n_batch p * n_beams p * 2 * n_beams p) (topk_2nd_stage s) }.

(** The best of an entry, of equal scores the first. *)
Definition first_best (p : GeneratorParams) (l : list f32) (cs : list cand) : Prop :=
  ∃ ix, descending (2 * n_beams p) l ix ∧ ties_low (2 * n_beams p) l ix ∧ cs = map (cand_at p l) (take (2 * n_beams p) ix).

Section beam_step.
Context (p : GeneratorParams) (pow : f32 -> f32 -> f32) (order : nat -> list nat) {Ho : Schedule order}.
Context (reduce : (TopK -> TopK -> TopK) -> list TopK -> TopK) {Hr : BlockReduce reduce}.
Local Abbreviation nb := (n_batch p).
Local Abbreviation nbeam := (n_beams p).
Local Abbreviation nv := (n_vocab p).

Lemma candidates_on_device s es : cuda_sizes p -> cuda_ok p s es -> length (cu_next_token_scores_ (bc_cuda s)) = nb * nbeam * nv ->
  proper (summed p (as_beam p s)) ->
  ∃ cs, (∀ b, b < nb -> first_best p (entry_scores p (summed p (as_beam p s)) b) (cs b)) ∧ length (blocks cs nb) = nb * (2 * nbeam) ∧
    BeamSearchTopK order reduce (summed p (as_beam p s)) nb nbeam nv (2 * nbeam) (topk_1st_stage s) (topk_2nd_stage s)
      (topk_next_indices_ s, topk_next_tokens_ s, topk_next_scores_ s)
    = Ok ((blocks cs nb).*2, (blocks cs nb).*1.*2, (blocks cs nb).*1.*1).
Proof.
  intros [[Z1 Z2 Z3 Z4 Z5] C1 C2 C3 C4 C5 C6 C7 C8] [K1 K2 K3 K4 K5] Hsc Hp. set (l := summed p (as_beam p s)) in *.
  assert (length l = nb * nbeam * nv) as Hl by (unfold l, summed; by rewrite length_added).
  set (k := 2 * nbeam) in *.
  destruct (BeamSearchTopK_best order reduce nb nbeam nv k (nb * nbeam * 2 * nbeam * 128) l (topk_1st_stage s) (topk_2nd_stage s)
    (topk_next_indices_ s, topk_next_tokens_ s, topk_next_scores_ s)) as (indices & tokens & scores & E & (S1 & S2 & S3) & H);
    [done|done|done|done|unfold k; lia|done|done|done|done|done|done|unfold k; nia|done|unfold k; lia| |done|].
  { replace (nb * nbeam * k) with (nb * nbeam * 2 * nbeam) by (unfold k; lia). done. }
  cbn [fst snd] in *.
  destruct (choose_upto (fun b cs => first_best p (entry_scores p l b) cs ∧ length cs = k ∧
      take k (drop (b * k) indices) = map snd cs ∧ take k (drop (b * k) tokens) = map (fun c => c.1.2) cs ∧
      take k (drop (b * k) scores) = map (fun c => c.1.1) cs) [] nb) as (cs & Hcs).
  { intros b Hb. destruct (H b Hb) as (ix & Hd & Ht & E1 & E2 & E3). exists (map (cand_at p (entry_scores p l b)) (take k ix)).
    split; [by exists ix|]. split; [|rewrite !map_map; done].
    destruct Hd as [Hd _]. apply Permutation_length in Hd. rewrite length_seq in Hd. rewrite length_map, length_take, Hd.
    change (entry_input nbeam nv l b) with (entry_scores p l b). unfold entry_scores. rewrite length_window; [unfold k; nia|].
    pose proof (row_bound b nb (nbeam * nv) Hb). lia. }
  exists cs. split; [intros b Hb; by apply Hcs|]. split; [apply length_blocks; intros b Hb; by apply Hcs|]. rewrite E.
  rewrite (windows_blocks (fun b => map snd (cs b)) k nb indices S1) by (intros b Hb; by apply Hcs).
  rewrite (windows_blocks (fun b => map (fun c => c.1.2) (cs b)) k nb tokens S2) by (intros b Hb; by apply Hcs).
  rewrite (windows_blocks (fun b => map (fun c => c.1.1) (cs b)) k nb scores S3) by (intros b Hb; by apply Hcs).
  rewrite <- !map_blocks. do 2 f_equal; [f_equal|].
  - symmetry. exact (map_map fst snd (blocks cs nb)).
  - symmetry. exact (map_map fst fst (blocks cs nb)).
Qed.

Lemma first_best_cands l cs : first_best p l cs -> best_cands p l cs.
Proof. intros (ix & Hd & _ & ->). by exists ix. Qed.

Lemma Cuda_SelectTop_step s es : cuda_sizes p -> cuda_ok p s es -> 0 < cuda_length (bc_cuda s) < n_max p ->
  length (cu_next_token_scores_ (bc_cuda s)) = nb * nbeam * nv -> proper (summed p (as_beam p s)) ->
  ∃ s' cs, BeamSearch_Cuda_SelectTop p pow order reduce s = Ok s' ∧
    (∀ b, b < nb -> first_best p (entry_scores p (summed p (as_beam p s)) b) (cs b)) ∧
    cuda_ok p s' (entries_after_step p pow (as_beam p s) cs es) ∧ rows_after_step p (as_beam p s) (as_beam p s') cs es ∧
    cuda_length (bc_cuda s') = S (cuda_length (bc_cuda s)).
Proof.
  intros HC HK [Hpos Hlt] Hsc Hp. destruct (candidates_on_device s es HC HK Hsc Hp) as (cs & Hcs & Hall & Etop).
  pose proof HC as [HZ C1 C2 C3 C4 C5 C6 C7 C8]. pose proof HZ as [Z1 Z2 Z3 Z4 Z5].
  destruct HK as [[B1 B2 B3 B4 B5 B6] K2 K3 K4 K5]. unfold BeamSearch_Cuda_SelectTop.
  assert (0 <= batch_size p)%Z as Hb0 by (unfold n_batch in Z1; lia). assert (0 <= num_beams (gp_search p))%Z as Hn0 by (unfold n_beams in Z2; lia).
  rewrite (AddProbs_added p order (nb * nbeam)), bind_Ok; [|lia|done|done|done|done|apply (sr_scores _ _ _ _ _ B1)|done].
  change (added p (next_beam_scores_ (gpu_ (bc_scorer s))) (cu_next_token_scores_ (bc_cuda s)) (nb * nbeam * nv)) with (summed p (as_beam p s)).
  rewrite (proj2 (Nat.leb_le _ _)) by done. cbn [assert_]. rewrite bind_Ok, Etop, bind_Ok. cbv iota beta.
  destruct (step_input p (as_beam p s) cs HZ) as [Hvi Hcands]; [apply B3|exact B4|exact Hsc|intros b Hb; by apply first_best_cands, Hcs|].
  set (all := blocks cs nb) in *. set (seqs := cu_sequences (bc_cuda s)) in *.
  change (sequences (b_cpu (as_beam p s))) with seqs in *. change (beam_scorer_ (as_beam p s)) with (gpu_ (bc_scorer s)) in *.
  change (search_length (b_cpu (as_beam p s))) with (current_length_ seqs) in *. change (cuda_length (bc_cuda s)) with (current_length_ seqs) in *.
  assert (length es = nb) as Hes by apply (sr_batch _ _ _ _ _ B1).
  destruct (LaunchProcess_ok pow nb nbeam (n_max p) (gp_pad_token_id p) (gp_eos_token_id p) (early_stopping (gp_search p)) (length_penalty (gp_search p))
    order seqs all.*1.*1 all.*1.*2 all.*2 B5) with (st := bc_scorer s) (es := es) as (sc & E & P1 & P2 & P3 & P4); try done; try lia.
  { clear - C3 Z2. nia. }
  unfold Process_Cuda. rewrite E, bind_Ok. clear E.
  destruct (next_toks_ok p pow _ cs es (gpu_ sc) _ Hvi Hcands Hes P1 P4) as [Etok Ltok].
  destruct (next_idxs_ok p pow _ cs es (gpu_ sc) _ Hvi Hcands Hes P1 P4) as [Eidx Lidx].
  destruct (append_cuda_beam order seqs (next_idxs p cs es) (next_toks p cs es) B3) with (batch_size := nb) (num_beams := nbeam) as (next & En & Hwf' & Hrow).
  - rewrite B4. nia.
  - done.
  - by rewrite B5.
  - by rewrite B4.
  - by rewrite B4.
  - intros i z Hi Hz. rewrite B4. by eapply (next_idxs_range p _ cs es).
  - rewrite B4, B5. done.
  - done.
  - by rewrite B4.
  - lia.
  - rewrite B5, B4 in *. rewrite Etok, Eidx. unfold GetSequenceLength. rewrite En, !bind_Ok. cbv iota beta zeta.
    unfold AfterDeviceAppendedNextToken. cbn [current_length_].
    rewrite (int_rows_S (nb * nbeam) (n_max p)), !bind_Ok by (done || by apply (room_rows p (gpu_ (bc_scorer s)) (current_length_ seqs))).
    eexists _, cs. split; [reflexivity|]. split; [done|]. split; [split; try done|split].
    + rewrite <- (entries_step p pow (as_beam p s) cs es Hcands Hes). unfold as_beam. cbn [bc_cuda bc_scorer]. split; cbn [b_cpu beam_scorer_ set_done as_cpu sequences cu_sequences set_cu_sequences]; try done.
      unfold n_max, cuda_length, search_length. cbn [sequences search_done_ set_done as_cpu cu_sequences set_cu_sequences]. rewrite Z.eqb_eq. lia.
    + cbn [bc_scorer]. by rewrite P3.
    + cbn [topk_next_indices_ topk_next_tokens_ topk_next_scores_]. split; [|split]; cbn [fst snd]; by rewrite !length_fmap.
    + apply (next_rows p pow _ cs es (gpu_ sc) Hvi Hcands Hes P4). intros i z t Hi Hz Ht. exact (Hrow i z t Hi Hz Ht).
    + done.
Qed.
End beam_step.

(** C11: a beam search step on the device is a step of the CPU's, for an order of
    equal scores that depends on the scores only: the best [2 * num_beams] of
    every entry, the first of equal ones, go to the scorer, whose entries change
    as specified, and every beam takes the token its candidate names.  No launch
    is refused, no access is out of range, however the threads and blocks run,
    and the invariant the next step needs holds.  A score of minus infinity
    would not be a candidate: all must be above it. *)
Theorem BeamSearch_Cuda_SelectTop_spec (p : GeneratorParams) (pow : f32 -> f32 -> f32) (order : nat -> list nat)
    (reduce : (TopK -> TopK -> TopK) -> list TopK -> TopK) (s : BeamSearch_Cuda) (es : list (list (list Z * f32) * bool)) :
  Schedule order -> BlockReduce reduce -> cuda_sizes p -> cuda_ok p s es -> 0 < cuda_length (bc_cuda s) < n_max p ->
  length (cu_next_token_scores_ (bc_cuda s)) = n_batch p * n_beams p * n_vocab p -> proper (summed p (as_beam p s)) ->
  ∃ s' cs, BeamSearch_Cuda_SelectTop p pow order reduce s = Ok s' ∧
    (∀ b, b < n_batch p -> first_best p (entry_scores p (summed p (as_beam p s)) b) (cs b)) ∧
    cuda_ok p s' (entries_after_step p pow (as_beam p s) cs es) ∧ rows_after_step p (as_beam p s) (as_beam p s') cs es ∧
    cuda_length (bc_cuda s') = S (cuda_length (bc_cuda s)).
Proof. intros Ho Hr. apply Cuda_SelectTop_step; done. Qed.

(** ** Construction *)
Lemma Search_Cuda_new_rows (p : GeneratorParams) (order : nat -> list nat) (malloc : nat -> list Z) (cur : nat) :
  Schedule order -> DeviceMalloc malloc -> 0 < n_batch p -> 0 < n_beams p -> length (prompt p) = n_batch p * cur -> cur <= n_max p ->
  BatchBeamSize p = Ok (Z.of_nat (n_batch p * n_beams p)) -> (Z.of_nat (n_batch p * n_beams p) <= INT_MAX)%Z ->
  (Z.of_nat (n_batch p * n_beams p * n_max p) <= INT_MAX)%Z ->
  ∃ c, Search_Cuda_new p order malloc = Ok c ∧ wf (cu_sequences c) ∧ (n_beams p ≠ 1 -> wf_beam (cu_sequences c)) ∧ cuda_length c = cur ∧
    batch_beam_size_ (cu_sequences c) = n_batch p * n_beams p ∧ max_length_ (cu_sequences c) = n_max p ∧
    rows (cu_sequences c) = expand_input (prompt p) (n_batch p) (n_beams p) ∧
    eos_meet_ c = replicate (n_batch p * n_beams p) false ∧ done_cpu_ c = false.
Proof.
  intros Ho Hm Hb Hk Hp Hc Hbb Hi1 Hi2.
  destruct (Sequences_Cuda_new_rows order malloc (prompt p) (n_batch p) (n_beams p) (n_max p) cur Hb Hp Hc Hk Hi1 Hi2) as (q & E & Q1 & Q2 & Q3 & Q4 & Q5 & Q6).
  unfold Search_Cuda_new. rewrite E, bind_Ok, Hbb, bind_Ok. eexists. split; [reflexivity|]. cbn. by rewrite Nat2Z.id.
Qed.

Lemma BatchBeamSize_nat (p : GeneratorParams) bb : 0 < n_batch p -> 0 < n_beams p -> BatchBeamSize p = Ok bb -> bb = Z.of_nat (n_batch p * n_beams p).
Proof. unfold BatchBeamSize, chk32, n_batch, n_beams. intros Hb Hn E. case_match; [|done]. injection E as <-. lia. Qed.

Lemma BeamSearch_Cuda_new_ok (p : GeneratorParams) (order : nat -> list nat) (malloc : nat -> list Z) (malloc_hyps : nat -> list BeamHypotheses)
    (malloc_scores : nat -> list f32) (cur : nat) :
  let m := max_length (gp_search p) in
  Schedule order -> DeviceMalloc malloc -> DeviceMalloc malloc_hyps -> DeviceMalloc malloc_scores -> cuda_sizes p ->
  1 < n_beams p -> length (prompt p) = n_batch p * cur ->
  sequence_length p = Z.of_nat cur -> 0 < cur < n_max p -> (∃ bb, BatchBeamSize p = Ok bb) ->
  (m * (m + 1) <= INT_MAX)%Z -> (Z.of_nat (n_batch p * n_beams p) * (m * (m + 1)) <= 2 * INT_MAX)%Z ->
  ∃ s, BeamSearch_Cuda_new p order malloc malloc_hyps malloc_scores = Ok s ∧ cuda_ok p s (replicate (n_batch p) ([], false)) ∧
    cuda_length (bc_cuda s) = cur ∧ rows (cu_sequences (bc_cuda s)) = expand_input (prompt p) (n_batch p) (n_beams p) ∧
    ∀ b j, b < n_batch p -> j < n_beams p -> next_beam_scores_ (gpu_ (bc_scorer s)) !! (b * n_beams p + j)
      = Some (if decide (j = 0) then f0 else f32_of_Z (-1000000000)).
Proof.
  intros m Ho M1 M2 M3 [[Z1 Z2 Z3 Z4 Z5] C1 C2 C3 C4 C5 C6 C7 C8] H1 Hp Hsl Hc [bb Hbb] Hm Hbm.
  destruct (BeamSearch_Cpu_new_ok p cur Z1 H1 Hp Hsl Hc (ex_intro _ bb Hbb) Hm Hbm) as (cpu & Ecpu & [B1 B2 _ _ _ _] & Hlen & _ & _ & Hfirst).
  unfold BeamSearch_Cpu_new in Ecpu. apply bind_Ok_inv in Ecpu as (? & ? & Ecpu). apply bind_Ok_inv in Ecpu as (? & ? & Ecpu).
  apply bind_Ok_inv in Ecpu as (sc & Esc & Ecpu). injection Ecpu as <-. cbn [beam_scorer_ b_cpu] in *.
  pose proof (BatchBeamSize_nat p bb Z1 Z2 Hbb) as ->. rewrite Hlen in B2.
  assert (n_batch p * n_beams p <= n_batch p * n_beams p * n_max p) as Hle by nia.
  destruct (Search_Cuda_new_rows p order malloc cur Ho M1 Z1 Z2 Hp ltac:(lia) Hbb) as (c & E & R1 & R2 & R3 & R4 & R5 & R6 & _);
    [unfold INT_MAX in *; lia|unfold INT_MAX in *; lia|].
  unfold BeamSearch_Cuda_new. rewrite E, bind_Ok, (proj2 (Nat.ltb_lt 1 _)) by done. cbn [assert_]. rewrite bind_Ok.
  rewrite (new_agrees order malloc_hyps malloc_scores _ _ _ _ _ sc), bind_Ok; [|done|lia|unfold INT_MAX in *; lia|done]. cbv zeta.
  eexists. split; [reflexivity|]. split; [|done]. split; cbn [bc_scorer bc_cuda cpu_not_done_count_ topk_next_indices_ topk_next_tokens_ topk_next_scores_ topk_1st_stage topk_2nd_stage].
  - split; cbn; try done; [|by apply R2; lia|].
    + change (search_length _) with (cuda_length c). by rewrite R3.
    + change (search_length _) with (cuda_length c). rewrite Z.eqb_eq. unfold n_max in *. lia.
  - clear - Z1. unfold n_batch in *. lia.
  - split; [|split]; cbn [fst snd]; rewrite malloc_length; lia.
  - split; apply length_replicate.
  - split; apply length_replicate.
Qed.

(** ** The end of the search *)
Definition with_scores (l : list f32) (s : BeamSearch_Cuda) : BeamSearch_Cuda :=
  mkBeamCuda (Cuda_SetLogits l (bc_cuda s)) (bc_scorer s) (topk_next_indices_ s) (topk_next_tokens_ s) (topk_next_scores_ s)
    (topk_1st_stage s) (topk_2nd_stage s).

Section reached.
Context (p : GeneratorParams) (pow : f32 -> f32 -> f32) (order : nat -> list nat) (reduce : (TopK -> TopK -> TopK) -> list TopK -> TopK).
Context (malloc : nat -> list Z) (malloc_hyps : nat -> list BeamHypotheses) (malloc_scores : nat -> list f32).




End reached.


(** ** A concrete run: two prompts, two beams, four tokens, the threads backwards *)
Module Examples.
Import Cuda.Examples CudaTopK.Examples.

Definition device_p : GeneratorParams := mkParams Search.Examples.ex_beams 0 2 4 5 2 0 false 1 0 CUDA [1; 0]%Z [] false.
Definition sevens (n : nat) : list Z := replicate n 7%Z.
Definition stale_hyps (n : nat) : list BeamHypotheses := replicate n (mkBeamHyps [] 0 f0 true).
Definition stale_scores (n : nat) : list f32 := replicate n f1.
#[export] Instance sevens_ok : DeviceMalloc sevens. Proof. intros n. apply length_replicate. Qed.
#[export] Instance stale_hyps_ok : DeviceMalloc stale_hyps. Proof. intros n. apply length_replicate. Qed.
#[export] Instance stale_scores_ok : DeviceMalloc stale_scores. Proof. intros n. apply length_replicate. Qed.

Definition device_logits : list f32 := map f32_of_Z [1; 5; 2; 0; 4; 3; 3; 1; 2; 6; 2; 1; 0; 0; 1; 1]%Z.
Definition device_new : outcome BeamSearch_Cuda := BeamSearch_Cuda_new device_p backwards sevens stale_hyps stale_scores.
Definition device_with_logits : BeamSearch_Cuda -> BeamSearch_Cuda := with_scores device_logits.

Lemma device_sizes : cuda_sizes device_p.
Proof. split; [split|..]; vm_compute; lia || discriminate. Qed.

Lemma device_start : ∃ s, device_new = Ok s ∧ cuda_ok device_p s (replicate 2 ([], false)) ∧ cuda_length (bc_cuda s) = 1 ∧
  next_beam_scores_ (gpu_ (bc_scorer s)) = [f0; f32_of_Z (-1000000000); f0; f32_of_Z (-1000000000)] ∧
  rows (cu_sequences (bc_cuda s)) = [[1]; [1]; [0]; [0]]%Z.
Proof.
  destruct (BeamSearch_Cuda_new_ok device_p backwards sevens stale_hyps stale_scores 1) as (s & E & H1 & H2 & H4 & H3);
    [apply _|apply _|apply _|apply _|exact device_sizes|vm_compute; lia|reflexivity|reflexivity|vm_compute; lia|by eexists|vm_compute; discriminate|vm_compute; discriminate|].
  exists s. split; [exact E|]. split; [exact H1|]. split; [exact H2|]. split; [|exact H4].
  pose proof (sr_scores _ _ _ _ _ (bo_scorer _ _ _ (co_beam _ _ _ H1))) as Hl. change (n_batch device_p * n_beams device_p) with 4 in Hl.
  apply (list_eq_lt _ _ 4); [exact Hl|reflexivity|]. intros i Hi.
  change (n_batch device_p) with 2 in H3. change (n_beams device_p) with 2 in H3.
  destruct i as [|[|[|[|i]]]]; [exact (H3 0 0 ltac:(lia) ltac:(lia))|exact (H3 0 1 ltac:(lia) ltac:(lia))|exact (H3 1 0 ltac:(lia) ltac:(lia))
    |exact (H3 1 1 ltac:(lia) ltac:(lia))|lia].
Qed.

Lemma BeamSearch_Cuda_SelectTop_spec_witness :
  ∃ s s', device_new = Ok s ∧ BeamSearch_Cuda_SelectTop device_p Search.Examples.ex_pow backwards fold_reduce (device_with_logits s) = Ok s' ∧
    cuda_length (bc_cuda s') = 2.
Proof.
  destruct device_start as (s & E & [B K2 K3 K4 K5] & Hlen & Hsc & _).
  destruct (BeamSearch_Cuda_SelectTop_spec device_p Search.Examples.ex_pow backwards fold_reduce (device_with_logits s) (replicate 2 ([], false)))
    as (s' & cs & E' & _ & _ & _ & H); [apply backwards_schedule|apply fold_reduce_ok|exact device_sizes| | |reflexivity| |].
  - split; [|exact K2|exact K3|exact K4|exact K5]. destruct B as [B1 B2 B3 B4 B5 B6]. split; [exact B1|exact B2|exact B3|exact B4|exact B5|exact B6].
  - change (cuda_length (bc_cuda (device_with_logits s))) with (cuda_length (bc_cuda s)). rewrite Hlen. vm_compute. lia.
  - unfold summed, as_beam, device_with_logits, with_scores. cbn [beam_scorer_ b_cpu bc_scorer bc_cuda]. rewrite Hsc. vm_compute. repeat constructor.
  - exists s, s'. split; [exact E|]. split; [exact E'|]. rewrite H. change (cuda_length (bc_cuda (device_with_logits s))) with (cuda_length (bc_cuda s)).
    by rewrite Hlen.
Defined.



Lemma logit_processors_refine_witness :
  ∃ s c1 c2, device_new = Ok s ∧ let c := bc_cuda (device_with_logits s) in
    Cuda_ApplyMinLength device_p backwards 3 c = Ok c1 ∧ Cuda_ApplyRepetitionPenalty device_p backwards (f32_of_Z 2) c1 = Ok c2.
Proof.
  destruct device_start as (s & E & [[B1 B2 B3 B4 B5 B6] _ _ _ _] & Hlen & _ & Hrows).
  destruct (logit_processors_refine device_p backwards remove_dups 3 (f32_of_Z 2) (bc_cuda (device_with_logits s))) as (c1 & c2 & E1 & E2 & _);
    [apply backwards_schedule|apply remove_dups_Unordered| |vm_compute; discriminate|vm_compute; discriminate|vm_compute; split; [discriminate|reflexivity]
    |vm_compute; discriminate|exact B5|vm_compute; discriminate|vm_compute; discriminate| |].
  - split; [reflexivity|reflexivity|apply B3|exact B4].
  - intros i Hi. change (n_batch device_p * n_beams device_p) with 4 in Hi.
    change (row (cu_sequences (bc_cuda (device_with_logits s))) i) with (row (cu_sequences (bc_cuda s)) i).
    assert (rows (cu_sequences (bc_cuda s)) !! i = Some (row (cu_sequences (bc_cuda s)) i)) as Hr.
    { unfold rows. rewrite list_lookup_fmap, lookup_seq_lt; [reflexivity|]. cbn in B4. rewrite B4. exact Hi. }
    rewrite Hrows in Hr. destruct i as [|[|[|[|i]]]]; [injection Hr as <-..|lia]; (constructor; [vm_compute; split; [discriminate|reflexivity]|constructor]).
  - exists s, c1, c2. split; [exact E|]. split; [exact E1|exact E2].
Defined.
End Examples.
