(* ===== verification/CudaSoftmax.v ===== *)
(** * The softmax on the device (src/cuda_sampling.cu)

    A block computes a row: its threads reduce the row to its maximum and to the
    sum of the exponentials, reading four values at a time where the address
    allows it, and then write the row.  [fmaxf], [exp] and [log] are the
    library's.  [in_mis] and [out_mis] are the addresses of the buffers counted
    in floats, of which only the alignment matters. *)
From Stdlib Require Import ZArith Lia SpecFloat.
From stdpp Require Import base numbers list.
From S2P Require Import Prelude Float32 Cuda CudaSequences CudaTopK.
Local Open Scope nat_scope.

(** ** Reductions *)
Definition kMaxThreads : nat := 1024.
Definition kGPUWarpSize : nat := 32.
(* sizeof(float4) / sizeof(float) *)
Definition ILP : nat := 4.

(* the values of the threads of a block *)
Definition per_thread {A} (threads : nat) (thread : nat -> outcome A) : outcome (list A) :=
  for_ threads (fun tid ts => t ← thread tid; Ok (ts ++ [t])) [].

(* data -= shift; size += shift; ... size -= blockDim.x; data += blockDim.x *)
Definition past_shift (shift data size threads : nat) : nat * Z :=
  if 0 <? shift then (data + threads - shift, (Z.of_nat (size + shift) - Z.of_nat threads)%Z) else (data, Z.of_nat size).

(* the first values, one per thread, when the address is not aligned *)
Definition shifted (shift size tid : nat) : bool := (0 <? shift) && (shift <=? tid) && (tid <? size + shift).

(* for (; offset * ILP < n; offset += blockDim.x) *)
Definition vectors (tid threads n : nat) : list nat := strided tid threads ((n + (ILP - 1)) / ILP).

Definition IlpReduce (r : f32 -> f32 -> f32) (shift : nat) (input : list f32) (data size : nat) (defaultVal : f32) (threads tid : nat)
  : outcome f32 :=
  threadVal ← (if shifted shift size tid then x ← get input (data + tid - shift); Ok (r defaultVal x) else Ok defaultVal);
  let '(data, size) := past_shift shift data size threads in
  if (size <=? 0)%Z then Ok threadVal else
  let size := Z.to_nat size in
  let last := size mod (ILP * threads) in
  threadVal ← for_each (fun offset threadVal =>
    for_ ILP (fun j threadVal => x ← get input (data + offset * ILP + j); Ok (r threadVal x)) threadVal) (vectors tid threads (size - last)) threadVal;
  for_each (fun offset threadVal => x ← get input (data + offset); Ok (r threadVal x)) (strided (size - last + tid) threads size) threadVal.

(* smem holds the value of each thread; the first warp reduces every warp, the first thread the results *)
Definition SoftmaxReduce (r : f32 -> f32 -> f32) (defaultVal : f32) (threads : nat) (smem : list f32) : outcome f32 :=
  let warps_per_block := threads / kGPUWarpSize in
  smem ← for_ kGPUWarpSize (fun lane smem =>
    warpVal ← for_ warps_per_block (fun i warpVal => x ← get smem (i * kGPUWarpSize + lane); Ok (r warpVal x)) defaultVal;
    put smem lane warpVal) smem;
  for_ kGPUWarpSize (fun i blockVal => x ← get smem i; Ok (r blockVal x)) defaultVal.

(* while (block_size < max_block_size) block_size *= 2 *)
Fixpoint double_below (fuel block_size max_block_size : nat) : nat :=
  match fuel with
  | O => block_size
  | S fuel => if block_size <? max_block_size then double_below fuel (block_size * 2) max_block_size else block_size
  end.

Definition SoftmaxGetBlockSize (size : nat) : nat :=
  let max_block_size := Nat.min (size / ILP) kMaxThreads / 2 in
  Nat.max (double_below 10 1 max_block_size) kGPUWarpSize.

(* Max: a < b ? b : a *)
Definition Max (a b : f32) : f32 := if flt a b then b else a.

Section softmax.
Context (exp log : f32 -> f32) (fmaxf : f32 -> f32 -> f32).

Definition MaxFloat (max v : f32) : f32 := fmaxf max v.
Definition SumExpFloat (max_k : f32) (sum v : f32) : f32 := fadd sum (exp (fsub v max_k)).

Definition LogSoftmaxForwardEpilogue (max_input sum input : f32) : f32 := fsub (fsub input max_input) (log sum).
Definition SoftmaxForwardEpilogue (max_input sum input : f32) : f32 := fdiv (exp (fsub input max_input)) sum.

(** ** The results *)
Section write.
Context (epilogue : f32 -> f32) (input : list f32).

(* output[to] = epilogue(input[from]) *)
Definition write_one (from to : nat) (output : list f32) : outcome (list f32) := x ← get input from; put output to (epilogue x).

Definition WriteFpropResultsVectorized (size shift in_ out_ threads tid : nat) (output : list f32) : outcome (list f32) :=
  output ← (if shifted shift size tid then write_one (in_ + tid - shift) (out_ + tid - shift) output else Ok output);
  let '(out_, _) := past_shift shift out_ size threads in
  let '(in_, size) := past_shift shift in_ size threads in
  if (size <=? 0)%Z then Ok output else
  let size := Z.to_nat size in
  let last := size mod (ILP * threads) in
  output ← for_each (fun offset => for_ ILP (fun j => write_one (in_ + offset * ILP + j) (out_ + offset * ILP + j)))
    (vectors tid threads (size - last)) output;
  for_each (fun offset => write_one (in_ + offset) (out_ + offset)) (strided (size - last + tid) threads size) output.

Definition WriteFpropResults (classes in_ out_ threads tid : nat) (output : list f32) : outcome (list f32) :=
  let last := classes mod (ILP * threads) in
  let bulk := strided tid (threads * ILP) (classes - last) in
  output ← for_each (fun offset => for_ ILP (fun j => write_one (in_ + (offset + j * threads)) (out_ + (offset + j * threads)))) bulk output;
  (* offset goes on from where the first loop ended *)
  for_each (fun offset => write_one (in_ + offset) (out_ + offset)) (strided (tid + length bulk * (threads * ILP)) threads classes) output.
End write.

Section block.
Context (order : nat -> list nat) (Epilogue : f32 -> f32 -> f32 -> f32).

Definition SoftmaxBlockForward (threads : nat) (input : list f32) (classes input_stride output_stride : nat) (temperature : f32)
    (in_mis out_mis block : nat) (output : list f32) : outcome (list f32) :=
  (* blockIdx.x is unsigned, so the products are *)
  let in_ := Z.to_nat (u32 (Z.of_nat (block * input_stride))) in
  let out_ := Z.to_nat (u32 (Z.of_nat (block * output_stride))) in
  let shift := (in_mis + in_) mod ILP in
  let output_shift := (out_mis + out_) mod ILP in
  threadMax ← per_thread threads (IlpReduce MaxFloat shift input in_ classes f32_lowest threads);
  max_k ← SoftmaxReduce Max f32_lowest threads threadMax;
  threadExp ← per_thread threads (IlpReduce (SumExpFloat (fdiv max_k temperature)) shift input in_ classes f0 threads);
  sumAll ← SoftmaxReduce fadd f0 threads threadExp;
  let epilogue := Epilogue max_k sumAll in
  for_each (fun tid =>
    if shift =? output_shift then WriteFpropResultsVectorized epilogue input classes shift in_ out_ threads tid
    else WriteFpropResults epilogue input classes in_ out_ threads tid) (order threads) output.
End block.

Definition DispatchBlockwiseSoftmaxForward (order : nat -> list nat) (is_log_softmax : bool) (output input : list f32)
    (softmax_elements input_stride output_stride batch_count : nat) (temperature : f32) (in_mis out_mis : nat) : outcome (list f32) :=
  let block := SoftmaxGetBlockSize softmax_elements in
  softmax_elements ← int_nat softmax_elements;
  launch_blocks order batch_count 1 (fun b _ =>
    SoftmaxBlockForward order (if is_log_softmax then LogSoftmaxForwardEpilogue else SoftmaxForwardEpilogue) block input
      softmax_elements input_stride output_stride temperature in_mis out_mis b) output.
End softmax.

(** ** The elements of a thread *)
Section elements.
Context (shift size threads : nat).

(* what is behind the first chunk *)
Definition skipped : nat := if 0 <? shift then threads - shift else 0.
Definition rest : nat := size - skipped.
Definition whole : nat := rest - rest mod (ILP * threads).

(** The indices [IlpReduce] visits, in its order. *)
Definition elements (tid : nat) : list nat :=
  (if shifted shift size tid then [tid - shift] else []) ++
  concat (map (fun o => seq (skipped + o * ILP) ILP) (vectors tid threads whole)) ++
  map (Nat.add skipped) (strided (whole + tid) threads rest).

Context (Hs : shift < threads).

Lemma whole_rest : whole <= rest ∧ ∃ q, whole = q * ILP.
Proof.
  unfold whole. pose proof (Nat.div_mod_eq rest (ILP * threads)) as E. split; [lia|]. exists (rest / (ILP * threads) * threads).
  set (q := rest / (ILP * threads)) in *. clearbody q. unfold ILP in *. lia.
Qed.

Lemma vectors_whole tid q : whole = q * ILP -> vectors tid threads whole = strided tid threads q.
Proof. intros ->. unfold vectors, ILP. f_equal. rewrite Nat.add_comm, Nat.div_add by lia. reflexivity. Qed.

Lemma concat_app2 {A} (a b : nat -> list A) l : concat (map (fun t => a t ++ b t) l) ≡ₚ concat (map a l) ++ concat (map b l).
Proof. induction l as [|t l IH]; [done|]. cbn [map concat]. rewrite IH. solve_Permutation. Qed.

Lemma concat_concat_map {A B} (g : A -> list B) (f : nat -> list A) l : concat (map (fun t => concat (map g (f t))) l) = concat (map g (concat (map f l))).
Proof. induction l as [|t l IH]; [done|]. cbn [map concat]. by rewrite IH, map_app, concat_app. Qed.

Lemma concat_map_map {A B} (g : A -> B) (f : nat -> list A) l : concat (map (fun t => map g (f t)) l) = map g (concat (map f l)).
Proof. induction l as [|t l IH]; [done|]. cbn [map concat]. by rewrite IH, map_app. Qed.

Lemma shifted_elements : concat (map (fun tid => if shifted shift size tid then [tid - shift] else []) (seq 0 threads)) = seq 0 (Nat.min skipped size).
Proof.
  unfold shifted, skipped. destruct (Nat.ltb_spec 0 shift) as [H0|H0]; cbn [andb].
  - replace threads with (shift + (threads - shift)) at 1 by lia. rewrite seq_app, map_app, concat_app.
    rewrite (concat_empty (map _ (seq 0 shift))), app_nil_l.
    2:{ apply Forall_fmap, Forall_seq. intros t Ht. cbv beta delta [compose]. by rewrite (proj2 (Nat.leb_gt shift t)) by lia. }
    rewrite Nat.add_0_l. generalize (threads - shift). intros n. induction n as [|n IH]; [done|].
    rewrite seq_S, map_app, concat_app, IH. cbn [map concat]. rewrite app_nil_r, (proj2 (Nat.leb_le shift _)) by lia. cbn [andb].
    destruct (Nat.ltb_spec (shift + n) (size + shift)) as [Hlt|Hge].
    + rewrite !Nat.min_l by lia. rewrite seq_S. f_equal. f_equal. lia.
    + rewrite !Nat.min_r by lia. apply app_nil_r.
  - apply concat_empty, Forall_fmap, Forall_seq. done.
Qed.

(** Every element of the row is visited by one thread, once. *)
Lemma elements_partition : concat (map elements (seq 0 threads)) ≡ₚ seq 0 size.
Proof.
  destruct whole_rest as [Hw [q Hq]]. assert (0 < threads) as Ht by lia. unfold elements.
  rewrite concat_app2, concat_app2, shifted_elements, concat_concat_map, concat_map_map.
  rewrite (map_ext (fun t => vectors t threads whole) (fun t => strided (t + 0) threads (q + 0))) by (intros t; by rewrite (vectors_whole t q), !Nat.add_0_r).
  rewrite (map_ext (fun t => strided (whole + t) threads rest) (fun t => strided (t + whole) threads (rest - whole + whole)))
    by (intros t; f_equal; lia).
  rewrite (strided_partition 0 threads q Ht), (strided_partition whole threads (rest - whole) Ht), concat_seq, <- Hq.
  rewrite (fmap_add_seq skipped whole). clear Hq.
  destruct (decide (size <= skipped)) as [Hle|Hgt].
  - assert (rest = 0) as Hr by (unfold rest; lia). rewrite Hr in *. replace whole with 0 by lia. rewrite Nat.min_r by done. simpl. by rewrite app_nil_r.
  - rewrite Nat.min_l by lia. rewrite <- seq_app. replace size with (skipped + (whole + (rest - whole))) at 1 by (unfold rest in *; lia).
    by rewrite (seq_app skipped), Nat.add_0_l.
Qed.
End elements.

(** ** The loops visit the elements *)
Lemma for_each_ext {A S} (body body' : A -> S -> outcome S) l s : (∀ x s, x ∈ l -> body x s = body' x s) -> for_each body l s = for_each body' l s.
Proof.
  revert s. induction l as [|x l IH]; intros s H; [done|]. cbn [for_each]. rewrite H by (by left). destruct (body' x s); [|done|done].
  apply IH. intros y t Hy. apply H. by right.
Qed.

Lemma for_each_concat {A B S} (body : B -> S -> outcome S) (g : A -> list B) l s :
  for_each body (concat (map g l)) s = for_each (fun x => for_each body (g x)) l s.
Proof. revert s. induction l as [|x l IH]; intros s; [done|]. cbn [map concat]. rewrite for_each_app. cbn [for_each]. destruct (for_each body (g x) s); [|done|done]. apply IH. Qed.

Lemma for_each_map {A B S} (body : B -> S -> outcome S) (g : A -> B) l s : for_each body (map g l) s = for_each (fun x => body (g x)) l s.
Proof. revert s. induction l as [|x l IH]; intros s; [done|]. cbn [map for_each]. destruct (body (g x) s); [|done|done]. apply IH. Qed.

Lemma for_group {S} (body : nat -> S -> outcome S) w base s : for_ w (fun j => body (base + j)) s = for_each body (seq base w) s.
Proof.
  unfold for_. assert (∀ i s, loop w i (fun j => body (base + j)) s = for_each body (seq (base + i) w) s) as H.
  { induction w as [|w IH]; intros i t; [done|]. cbn [loop seq for_each]. destruct (body (base + i) t); [|done|done]. rewrite !bind_Ok, IH. by rewrite Nat.add_succ_r. }
  rewrite H. by rewrite Nat.add_0_r.
Qed.

Lemma past_shift_eq shift data size threads : shift < threads ->
  (past_shift shift data size threads).1 = data + skipped shift threads ∧
  Z.to_nat (past_shift shift data size threads).2 = rest shift size threads ∧
  ((past_shift shift data size threads).2 <=? 0)%Z = (rest shift size threads =? 0).
Proof.
  intros Hs. unfold past_shift, rest, skipped. destruct (Nat.ltb_spec 0 shift); cbn [fst snd].
  - split; [lia|]. split; [lia|]. destruct (Nat.eqb_spec (size - (threads - shift)) 0), (Z.leb_spec (Z.of_nat (size + shift) - Z.of_nat threads) 0); done || lia.
  - split; [lia|]. split; [lia|]. destruct (Nat.eqb_spec (size - 0) 0), (Z.leb_spec (Z.of_nat size) 0); done || lia.
Qed.

(** The shape of the loops of [IlpReduce] and [WriteFpropResultsVectorized]. *)
Lemma visit_elements {M} (body : nat -> M -> outcome M) shift size threads tid s :
  (s ← (if shifted shift size tid then body (tid - shift) s else Ok s);
   if rest shift size threads =? 0 then Ok s else
   s ← for_each (fun o => for_ ILP (fun j => body (skipped shift threads + o * ILP + j))) (vectors tid threads (whole shift size threads)) s;
   for_each (fun o => body (skipped shift threads + o)) (strided (whole shift size threads + tid) threads (rest shift size threads)) s)
  = for_each body (elements shift size threads tid) s.
Proof.
  unfold elements. rewrite for_each_app.
  replace (for_each body (if shifted shift size tid then [tid - shift] else []) s) with (if shifted shift size tid then body (tid - shift) s else Ok s).
  2:{ destruct (shifted shift size tid); [|done]. cbn [for_each]. by destruct (body (tid - shift) s). }
  destruct (if shifted shift size tid then body (tid - shift) s else Ok s) as [s'| |]; [|done|done]. rewrite !bind_Ok.
  destruct (Nat.eqb_spec (rest shift size threads) 0) as [H0|].
  - unfold whole. rewrite H0. reflexivity.
  - rewrite for_each_app, for_each_concat.
    rewrite (for_each_ext _ (fun o => for_each body (seq (skipped shift threads + o * ILP) ILP))) by (intros; apply for_group).
    destruct (for_each _ _ s'); [|done|done]. rewrite !bind_Ok. by rewrite for_each_map.
Qed.

Section row.
Context (shift size threads : nat) (Hs : shift < threads).

Lemma elements_lt tid i : tid < threads -> i ∈ elements shift size threads tid -> i < size.
Proof.
  intros Ht Hi. assert (i ∈ seq 0 size) as H; [|apply elem_of_seq in H; lia]. rewrite <- (elements_partition shift size threads Hs).
  apply list_elem_of_In, in_concat. exists (elements shift size threads tid). rewrite <- !list_elem_of_In. split; [|done].
  apply list_elem_of_In, in_map, in_seq. lia.
Qed.

Lemma elements_cover i : i < size -> ∃ tid, tid < threads ∧ i ∈ elements shift size threads tid.
Proof.
  intros Hi. assert (i ∈ seq 0 size) as H by (apply elem_of_seq; lia). rewrite <- (elements_partition shift size threads Hs) in H.
  apply list_elem_of_In, in_concat in H as (l & Hl & H). apply in_map_iff in Hl as (tid & <- & Ht). apply in_seq in Ht.
  exists tid. split; [lia|by apply list_elem_of_In].
Qed.

(* the values a thread reads *)
Definition values_of (input : list f32) (data tid : nat) : list f32 := map (fun i => nth (data + i) input f0) (elements shift size threads tid).

Lemma IlpReduce_fold r input data d tid : tid < threads -> data + size <= length input ->
  IlpReduce r shift input data size d threads tid = Ok (fold_left r (values_of input data tid) d).
Proof.
  intros Ht Hl. transitivity (for_each (fun i v => x ← get input (data + i); Ok (r v x)) (elements shift size threads tid) d).
  - rewrite <- visit_elements. unfold IlpReduce. destruct (past_shift_eq shift data size threads Hs) as (E1 & E2 & E3).
    destruct (past_shift shift data size threads) as [data' size']. cbn [fst snd] in *. subst data'. rewrite E3, E2.
    replace (if shifted shift size tid then x ← get input (data + tid - shift); Ok (r d x) else Ok d)
      with (if shifted shift size tid then x ← get input (data + (tid - shift)); Ok (r d x) else Ok d).
    2:{ destruct (shifted shift size tid) eqn:E; [|done]. unfold shifted in E. rewrite !andb_true_iff, Nat.leb_le in E. by rewrite Nat.add_sub_assoc by lia. }
    destruct (if shifted shift size tid then _ else _) as [v| |]; [|done|done]. rewrite !bind_Ok. destruct (rest shift size threads =? 0); [done|].
    fold (whole shift size threads).
    rewrite (for_each_ext _ (fun o => for_ ILP (fun j v => x ← get input (data + (skipped shift threads + o * ILP + j)); Ok (r v x)))).
    + destruct (for_each _ _ v); [|done|done]. rewrite !bind_Ok. apply for_each_ext. intros x y _. by rewrite Nat.add_assoc.
    + intros o y _. apply for_ext. intros j z _.
      by replace (data + skipped shift threads + o * ILP + j) with (data + (skipped shift threads + o * ILP + j)) by lia.
  - assert (∀ i, i ∈ elements shift size threads tid -> data + i < length input) as Hin by (intros i Hi; pose proof (elements_lt tid i Ht Hi); lia).
    unfold values_of. revert d Hin. induction (elements shift size threads tid) as [|i l IH]; intros d Hin; [done|]. cbn [for_each map fold_left].
    destruct (lookup_lt_is_Some_2 input (data + i)) as [x Hx]; [apply Hin; by left|]. rewrite (get_Some _ _ x Hx), !bind_Ok, IH by (intros; apply Hin; by right).
    by rewrite nth_lookup, Hx.
Qed.

Section writes.
Context (epilogue : f32 -> f32) (input : list f32) (in_ out_ : nat) (Hin : in_ + size <= length input).

(* one element of the row *)
Definition write_at (i : nat) (output : list f32) : outcome (list f32) := write_one epilogue input (in_ + i) (out_ + i) output.

Lemma vectorized_visits tid output :
  WriteFpropResultsVectorized epilogue input size shift in_ out_ threads tid output = for_each write_at (elements shift size threads tid) output.
Proof.
  rewrite <- visit_elements. unfold WriteFpropResultsVectorized. destruct (past_shift_eq shift in_ size threads Hs) as (E1 & E2 & E3).
  destruct (past_shift_eq shift out_ size threads Hs) as (E4 & _).
  destruct (past_shift shift in_ size threads) as [in' size']. destruct (past_shift shift out_ size threads) as [out' size'']. cbn [fst snd] in *. subst in' out'.
  rewrite E3, E2.
  replace (if shifted shift size tid then write_one epilogue input (in_ + tid - shift) (out_ + tid - shift) output else Ok output)
    with (if shifted shift size tid then write_at (tid - shift) output else Ok output).
  2:{ destruct (shifted shift size tid) eqn:E; [|done]. unfold shifted in E. rewrite !andb_true_iff, Nat.leb_le in E. unfold write_at. by rewrite !Nat.add_sub_assoc by lia. }
  destruct (if shifted shift size tid then _ else _) as [v| |]; [|done|done]. rewrite !bind_Ok. destruct (rest shift size threads =? 0); [done|].
  fold (whole shift size threads).
  rewrite (for_each_ext _ (fun o => for_ ILP (fun j => write_at (skipped shift threads + o * ILP + j)))).
  - destruct (for_each _ _ v); [|done|done]. rewrite !bind_Ok. apply for_each_ext. intros x y _. unfold write_at. by rewrite !Nat.add_assoc.
  - intros o y _. apply for_ext. intros j z _. unfold write_at. f_equal; lia.
Qed.

(* the elements of a thread of the other loop *)
Definition bulk_elements (tid : nat) : list nat :=
  let bulk := strided tid (threads * ILP) (size - size mod (ILP * threads)) in
  concat (map (fun o => map (fun j => o + j * threads) (seq 0 ILP)) bulk) ++ strided (tid + length bulk * (threads * ILP)) threads size.

Lemma bulk_visits tid output : WriteFpropResults epilogue input size in_ out_ threads tid output = for_each write_at (bulk_elements tid) output.
Proof.
  unfold WriteFpropResults, bulk_elements. cbv zeta. rewrite for_each_app, for_each_concat.
  rewrite (for_each_ext _ (fun x => for_each write_at (map (fun j => x + j * threads) (seq 0 ILP)))); [done|].
  intros o s _. rewrite for_each_map, for_each_seq. apply loop_ext. intros j m _. done.
Qed.

Lemma write_elements L output : (∀ i, i ∈ L -> i < size) -> out_ + size <= length output ->
  ∃ output', for_each write_at L output = Ok output' ∧ length output' = length output ∧
    ∀ k, output' !! k = if decide (out_ <= k ∧ k - out_ ∈ L) then Some (epilogue (nth (in_ + (k - out_)) input f0)) else output !! k.
Proof.
  revert output. induction L as [|i L IH]; intros output HL Ho; [exists output; split; [done|split; [done|]]|].
  - intros k. rewrite decide_False; [done|]. intros [_ H]. by apply not_elem_of_nil in H.
  - cbn [for_each]. assert (i < size) as Hi by (apply HL; by left).
    change (write_at i output) with (x ← get input (in_ + i); put output (out_ + i) (epilogue x)).
    destruct (lookup_lt_is_Some_2 input (in_ + i)) as [x Hx]; [lia|]. rewrite (get_Some _ _ x Hx), bind_Ok, (put_lt output), bind_Ok by lia.
    destruct (IH (<[out_ + i := epilogue x]> output)) as (o' & -> & Hl & H); [intros j Hj; apply HL; by right|by rewrite length_insert|].
    exists o'. split; [done|]. split; [by rewrite length_insert in Hl|]. intros k. rewrite H.
    destruct (decide (out_ <= k ∧ k - out_ ∈ L)) as [[H1 H2]|Hn]; [by rewrite decide_True by (split; [done|by right])|].
    destruct (decide (k = out_ + i)) as [->|Hne].
    + rewrite list_lookup_insert_eq by lia. rewrite decide_True by (split; [lia|]; apply elem_of_cons; left; lia). do 2 f_equal. rewrite nth_lookup.
      replace (in_ + (out_ + i - out_)) with (in_ + i) by lia. by rewrite Hx.
    + rewrite list_lookup_insert_ne by done. rewrite decide_False; [done|]. intros [H1 [H2|H2]%elem_of_cons]; [lia|by apply Hn].
Qed.
End writes.
End row.

Lemma strided_multiples t step q : t < step -> strided t step (q * step) = map (fun c => t + c * step) (seq 0 q).
Proof.
  intros Ht. unfold strided. assert (∀ fuel a q, q * step - t <= fuel -> strided_from fuel (t + a * step) step ((a + q) * step) = map (fun c => t + (a + c) * step) (seq 0 q)) as H.
  { clear q. induction fuel as [|fuel IH]; intros a q Hf.
    - destruct q as [|q]; [done|]. nia.
    - cbn [strided_from]. destruct q as [|q].
      + rewrite (proj2 (Nat.ltb_ge _ _)) by lia. done.
      + rewrite (proj2 (Nat.ltb_lt _ _)) by nia. cbn [seq map]. rewrite Nat.add_0_r. f_equal.
        replace (t + a * step + step) with (t + S a * step) by lia. replace (a + S q) with (S a + q) by lia. rewrite IH by lia.
        rewrite <- seq_shift, map_map. apply map_ext. intros c. lia. }
  specialize (H (q * step - t) 0 q (le_n _)). cbn [Nat.add Nat.mul] in H. rewrite Nat.add_0_r in H. exact H.
Qed.

Section bulk.
Context (size threads : nat) (Ht : 0 < threads).
Local Abbreviation Q := (size / (ILP * threads)).

Lemma bulk_eq tid : tid < threads -> bulk_elements size threads tid =
  concat (map (fun c => map (fun j => tid + c * (threads * ILP) + j * threads) (seq 0 ILP)) (seq 0 Q)) ++
  strided (tid + Q * (threads * ILP)) threads (size - Q * (threads * ILP) + Q * (threads * ILP)).
Proof.
  intros Hlt. unfold bulk_elements. cbv zeta. pose proof (Nat.div_mod_eq size (ILP * threads)) as E.
  replace (size - size mod (ILP * threads)) with (Q * (threads * ILP)) by (unfold ILP in *; lia).
  rewrite strided_multiples by (unfold ILP; lia). rewrite length_map, length_seq, map_map. do 2 f_equal. unfold ILP in *. lia.
Qed.

Lemma bulk_elem tid i : tid < threads -> i ∈ bulk_elements size threads tid ↔
  (∃ c j, c < Q ∧ j < ILP ∧ i = tid + c * (threads * ILP) + j * threads) ∨
  (Q * (threads * ILP) <= i < size ∧ (i - Q * (threads * ILP)) mod threads = tid).
Proof.
  intros Hlt. rewrite bulk_eq, elem_of_app, strided_class by done.
  match goal with |- (?a ∨ ?b) ↔ (?c ∨ ?d) => cut ((a ↔ c) ∧ (b ↔ d)); [tauto|split] end.
  - rewrite list_elem_of_In, in_concat. split.
    + intros (l & (c & <- & Hc%in_seq)%in_map_iff & (j & <- & Hj%in_seq)%in_map_iff). exists c, j. lia.
    + intros (c & j & Hc & Hj & ->). eexists. split; [apply in_map, in_seq; split; [lia|exact Hc]|]. apply in_map_iff. exists j. split; [done|apply in_seq; lia].
  - rewrite list_elem_of_filter, elem_of_seq. pose proof (Nat.div_mod_eq size (ILP * threads)) as E.
    assert (Q * (threads * ILP) <= size) by (unfold ILP in *; lia). split; [intros [H1 H2]|intros [H1 H2]]; (split; [|]); lia || done.
Qed.

Lemma bulk_lt tid i : tid < threads -> i ∈ bulk_elements size threads tid -> i < size.
Proof.
  intros Hlt. rewrite bulk_elem by done. intros [(c & j & Hc & Hj & ->)|[H _]]; [|lia]. pose proof (Nat.div_mod_eq size (ILP * threads)) as E.
  assert ((c + 1) * (threads * ILP) <= Q * (threads * ILP)) by (apply Nat.mul_le_mono_r; lia). unfold ILP in *.
  assert (j * threads <= 3 * threads) by (apply Nat.mul_le_mono_r; lia). lia.
Qed.

Lemma bulk_cover i : i < size -> ∃ tid, tid < threads ∧ i ∈ bulk_elements size threads tid.
Proof.
  intros Hi. destruct (decide (i < Q * (threads * ILP))) as [Hlt|Hge].
  - pose proof (Nat.div_mod_eq i (threads * ILP)) as E1. set (c := i / (threads * ILP)) in *. set (r := i mod (threads * ILP)) in *.
    assert (r < threads * ILP) as Hr by (apply Nat.mod_upper_bound; unfold ILP; lia).
    pose proof (Nat.div_mod_eq r threads) as E2. exists (r mod threads). assert (r mod threads < threads) as Hm by (apply Nat.mod_upper_bound; lia).
    split; [done|]. rewrite bulk_elem by done. left. exists c, (r / threads).
    split; [|split; [apply Nat.Div0.div_lt_upper_bound; lia|lia]].
    apply (Nat.mul_lt_mono_pos_r (threads * ILP)); [unfold ILP; lia|]. lia.
  - exists ((i - Q * (threads * ILP)) mod threads). assert ((i - Q * (threads * ILP)) mod threads < threads) as Hm by (apply Nat.mod_upper_bound; lia).
    split; [done|]. rewrite bulk_elem by done. right. lia.
Qed.
End bulk.

(** ** What the reductions compute *)
(** [a] combines the values [l], each once, in any order and bracketing, with
    the default any number of times. *)
Inductive reduction {A} (R : A -> A -> A -> Prop) (d : A) : list A -> A -> Prop :=
  | red_default : reduction R d [] d
  | red_leaf x : reduction R d [x] x
  | red_op l1 l2 a b c : reduction R d l1 a -> reduction R d l2 b -> R a b c -> reduction R d (l1 ++ l2) c
  | red_perm l l' a : l ≡ₚ l' -> reduction R d l a -> reduction R d l' a.

Section reduction.
Context {A : Type} (R : A -> A -> A -> Prop) (d : A).

Lemma reduction_fold {B} (r : A -> B -> A) (e : B -> A) l : (∀ a x, R a (e x) (r a x)) ->
  ∀ l0 a, reduction R d l0 a -> reduction R d (l0 ++ map e l) (fold_left r l a).
Proof.
  intros Hr. induction l as [|x l IH]; intros l0 a Ha; [by rewrite app_nil_r|]. cbn [fold_left map].
  replace (l0 ++ e x :: map e l) with ((l0 ++ [e x]) ++ map e l) by (by rewrite <- app_assoc). apply IH.
  eapply red_op; [exact Ha|apply red_leaf|apply Hr].
Qed.

(* a loop over values that are reductions themselves *)
Lemma reduction_loop (r : A -> A -> A) (V : nat -> A) (L : nat -> list A) n : (∀ a b, R a b (r a b)) ->
  (∀ i, i < n -> reduction R d (L i) (V i)) -> reduction R d (concat (map L (seq 0 n))) (fold_left r (map V (seq 0 n)) d).
Proof.
  intros Hr. induction n as [|n IH]; intros H; [apply red_default|]. rewrite concat_map_S. rewrite seq_S, map_app, fold_left_app. cbn [map fold_left].
  eapply red_op; [apply IH; intros; apply H; lia|apply H; lia|apply Hr].
Qed.
End reduction.

Lemma get_fold {A} (r : A -> A -> A) (get_ : nat -> outcome A) (V : nat -> A) n d : (∀ i, i < n -> get_ i = Ok (V i)) ->
  for_ n (fun i a => x ← get_ i; Ok (r a x)) d = Ok (fold_left r (map V (seq 0 n)) d).
Proof.
  intros H. destruct (for_inv (fun i a => a = fold_left r (map V (seq 0 i)) d) n (fun i a => x ← get_ i; Ok (r a x)) d) as (a & -> & ->); [done| |done].
  intros i a Hi ->. rewrite H, bind_Ok by done. eexists. split; [reflexivity|]. by rewrite seq_S, map_app, fold_left_app.
Qed.

Lemma SoftmaxReduce_reduction (R : f32 -> f32 -> f32 -> Prop) (r : f32 -> f32 -> f32) (d : f32) (w : nat) (V : nat -> f32) (L : nat -> list f32) :
  0 < w -> (∀ a b, R a b (r a b)) -> (∀ i, i < w * 32 -> reduction R d (L i) (V i)) ->
  ∃ v, SoftmaxReduce r d (w * 32) (map V (seq 0 (w * 32))) = Ok v ∧ reduction R d (concat (map L (seq 0 (w * 32)))) v.
Proof.
  intros Hw Hr HL. unfold SoftmaxReduce, kGPUWarpSize. rewrite Nat.div_mul by done. cbv zeta.
  set (lane_val := fun lane => fold_left r (map (fun i => V (i * 32 + lane)) (seq 0 w)) d).
  match goal with |- context [for_ 32 ?b (map V _)] => set (body := b) end.
  destruct (for_inv (fun k smem => length smem = w * 32 ∧ (∀ i, i < w * 32 -> smem !! i = Some (if decide (i < k) then lane_val i else V i))) 32 body
    (map V (seq 0 (w * 32)))) as (smem & -> & Hl & Hsm).
  - split; [by rewrite length_map, length_seq|]. intros i Hi. rewrite decide_False by lia. by rewrite list_lookup_fmap, lookup_seq_lt.
  - intros lane smem Hlane [Hl Hsm]. unfold body. rewrite (get_fold r (fun i => get smem (i * 32 + lane)) (fun i => V (i * 32 + lane))), bind_Ok.
    + rewrite put_lt by lia. eexists. split; [reflexivity|]. split; [by rewrite length_insert|]. intros i Hi. destruct (decide (i = lane)) as [->|Hne].
      * rewrite list_lookup_insert_eq by lia. by rewrite decide_True by lia.
      * rewrite list_lookup_insert_ne, Hsm by done. f_equal. destruct (decide (i < lane)), (decide (i < S lane)); done || lia.
    + intros i Hi. apply get_Some. rewrite Hsm by nia. rewrite decide_False; [done|]. destruct i; lia.
  - rewrite bind_Ok, (get_fold r (fun i => get smem i) lane_val).
    2:{ intros i Hi. apply get_Some. rewrite Hsm by lia. by rewrite decide_True by lia. }
    eexists. split; [reflexivity|].
    apply (red_perm _ _ (concat (map (fun lane => concat (map (fun i => L (i * 32 + lane)) (seq 0 w))) (seq 0 32)))).
    + rewrite (map_ext _ (fun lane => concat (map L (map (fun i => lane + i * 32) (seq 0 w))))).
      2:{ intros lane. rewrite map_map. f_equal. apply map_ext. intros i. f_equal. lia. }
      rewrite concat_concat_map.
      assert (concat (map (fun lane => map (fun i => lane + i * 32) (seq 0 w)) (seq 0 32)) ≡ₚ seq 0 (w * 32)) as Hp; [|by rewrite Hp].
      rewrite <- (strided_partition 0 32 (w * 32)) by lia. match goal with |- ?a ≡ₚ ?b => assert (a = b) as ->; [|done] end.
      f_equal. apply map_ext_in. intros lane Hlane%in_seq.
      rewrite !Nat.add_0_r. symmetry. apply strided_multiples. lia.
    + apply reduction_loop; [done|]. intros lane Hlane. unfold lane_val.
      apply (reduction_loop R d r (fun i => V (i * 32 + lane)) (fun i => L (i * 32 + lane)) w Hr). intros i Hi. apply HL. nia.
Qed.

(** ** A block *)
(* [c] is the greater of two numbers *)
Definition MaxR (a b c : f32) : Prop :=
  is_nan a = false -> is_nan b = false -> (c = a ∨ c = b) ∧ flt c a = false ∧ flt c b = false.

Class FMax (fmaxf : f32 -> f32 -> f32) : Prop := fmaxf_max a b : MaxR a b (fmaxf a b).

Lemma Max_max a b : MaxR a b (Max a b).
Proof.
  intros Ha Hb. unfold Max. destruct (flt a b) eqn:E.
  - split; [by right|]. split; [by apply flt_asym|apply flt_irrefl].
  - split; [by left|]. split; [apply flt_irrefl|done].
Qed.

(* the greatest of [l]; of an empty list, or one of minus infinities, the lowest float *)
Definition greatest (l : list f32) (m : f32) : Prop := is_nan m = false ∧ (m = f32_lowest ∨ m ∈ l) ∧ ∀ x, x ∈ l -> flt m x = false.

Lemma reduction_greatest l m : reduction MaxR f32_lowest l m -> Forall (fun x => is_nan x = false) l -> greatest l m.
Proof.
  induction 1 as [|x|l1 l2 a b c _ IH1 _ IH2 HR|l l' a Hp _ IH]; intros Hn.
  - split; [done|]. split; [by left|]. intros x Hx. by apply not_elem_of_nil in Hx.
  - apply Forall_inv in Hn. split; [exact Hn|]. split; [right; by left|]. intros y ->%list_elem_of_singleton. apply flt_irrefl.
  - pose proof Hn as Hall. apply Forall_app in Hn as [Hn1 Hn2]. destruct (IH1 Hn1) as (Na & La & Ga). destruct (IH2 Hn2) as (Nb & Lb & Gb).
    destruct (HR Na Nb) as (Hc & H1 & H2). assert (is_nan c = false) as Nc by (by destruct Hc as [->| ->]). split; [done|]. rewrite Forall_forall in Hall.
    split; [destruct Hc as [->| ->]; [destruct La as [?|?]; [by left|right; apply elem_of_app; by left]|destruct Lb as [?|?]; [by left|right; apply elem_of_app; by right]]|].
    intros x Hx. pose proof (Hall x Hx) as Nx. simpl in Nx. apply elem_of_app in Hx as [Hx|Hx].
    + specialize (Ga x Hx). apply (flt_neg_trans c a x); done.
    + specialize (Gb x Hx). apply (flt_neg_trans c b x); done.
  - rewrite <- Hp in Hn. destruct (IH Hn) as (H1 & H2 & H3). split; [done|]. split; [by rewrite <- Hp|]. intros x Hx. apply H3. by rewrite Hp.
Qed.

Lemma per_thread_ok {A} threads (thread : nat -> outcome A) V : (∀ tid, tid < threads -> thread tid = Ok (V tid)) ->
  per_thread threads thread = Ok (map V (seq 0 threads)).
Proof.
  intros H. unfold per_thread. destruct (for_inv (fun i ts => ts = map V (seq 0 i)) threads (fun tid ts => t ← thread tid; Ok (ts ++ [t])) [])
    as (ts & -> & ->); [done| |done].
  intros i ts Hi ->. rewrite H, bind_Ok by done. eexists. split; [reflexivity|]. by rewrite seq_S, map_app.
Qed.

Section softmax_block.
Context (order : nat -> list nat) {Ho : Schedule order} (exp log : f32 -> f32) (fmaxf : f32 -> f32 -> f32) {Hf : FMax fmaxf}.
Context (Epilogue : f32 -> f32 -> f32 -> f32) (w : nat) (Hw : 0 < w) (input : list f32) (classes : nat) (temperature : f32).

Lemma values_reduction (R : f32 -> f32 -> f32 -> Prop) shift data d r e : (∀ a x, R a (e x) (r a x)) -> ∀ tid,
  reduction R d (map e (values_of shift classes (w * 32) input data tid)) (fold_left r (values_of shift classes (w * 32) input data tid) d).
Proof. intros Hr tid. apply (reduction_fold R d r e _ Hr []). apply red_default. Qed.

Lemma values_row shift data (e : f32 -> f32) : shift < w * 32 -> data + classes <= length input ->
  concat (map (fun tid => map e (values_of shift classes (w * 32) input data tid)) (seq 0 (w * 32))) ≡ₚ map e (take classes (drop data input)).
Proof.
  intros Hs Hl. rewrite concat_map_map. apply Permutation_map. unfold values_of. rewrite concat_map_map, (elements_partition shift classes (w * 32) Hs).
  match goal with |- ?a ≡ₚ ?b => assert (a = b) as ->; [|done] end.
  apply (list_eq_lt _ _ classes); [by rewrite length_map, length_seq|by apply length_window|]. intros i Hi.
  rewrite list_lookup_fmap, lookup_seq_lt, lookup_window by done. cbn. rewrite nth_lookup.
  destruct (lookup_lt_is_Some_2 input (data + i)) as [x ->]; [lia|done].
Qed.

Lemma block_reduce_ok (R : f32 -> f32 -> f32 -> Prop) r shift data d (rr : f32 -> f32 -> f32) (e : f32 -> f32) : shift < w * 32 -> data + classes <= length input ->
  (∀ a x, R a (e x) (r a x)) -> (∀ a b, R a b (rr a b)) ->
  ∃ vs v, per_thread (w * 32) (IlpReduce r shift input data classes d (w * 32)) = Ok vs ∧ SoftmaxReduce rr d (w * 32) vs = Ok v ∧
    reduction R d (map e (take classes (drop data input))) v.
Proof.
  intros Hs Hl Hr Hrr.
  destruct (SoftmaxReduce_reduction R rr d w (fun tid => fold_left r (values_of shift classes (w * 32) input data tid) d)
    (fun tid => map e (values_of shift classes (w * 32) input data tid)) Hw Hrr) as (v & E & Hv).
  { intros i _. by apply values_reduction. }
  eexists _, v. split; [apply per_thread_ok; intros tid Ht; by apply IlpReduce_fold|]. split; [exact E|].
  eapply red_perm; [by apply values_row|exact Hv].
Qed.

(** What a block leaves in its row. *)
Definition softmaxed (row out : list f32) : Prop :=
  ∃ m sum, greatest row m ∧ reduction (fun a b c => c = fadd a b) f0 (map (fun x => exp (fsub x (fdiv m temperature))) row) sum ∧
    out = map (Epilogue m sum) row.

Lemma SoftmaxBlockForward_ok in_stride out_stride in_mis out_mis b output :
  (Z.of_nat (b * in_stride) < 2 ^ 32)%Z -> (Z.of_nat (b * out_stride) < 2 ^ 32)%Z ->
  b * in_stride + classes <= length input -> b * out_stride + classes <= length output ->
  Forall (fun x => is_nan x = false) (take classes (drop (b * in_stride) input)) ->
  ∃ output', SoftmaxBlockForward exp fmaxf order Epilogue (w * 32) input classes in_stride out_stride temperature in_mis out_mis b output = Ok output' ∧
    length output' = length output ∧
    softmaxed (take classes (drop (b * in_stride) input)) (take classes (drop (b * out_stride) output')) ∧
    ∀ k, (k < b * out_stride ∨ b * out_stride + classes <= k) -> output' !! k = output !! k.
Proof.
  intros Ui Uo Hi Hl Hn. unfold SoftmaxBlockForward. rewrite !u32_id, !Nat2Z.id by lia. cbv zeta. set (in_ := b * in_stride) in *. set (out_ := b * out_stride) in *.
  set (shift := (in_mis + in_) mod ILP). set (oshift := (out_mis + out_) mod ILP).
  assert (shift < w * 32) as Hs by (assert (shift < ILP) by (apply Nat.mod_upper_bound; unfold ILP; lia); unfold ILP in *; lia).
  destruct (block_reduce_ok MaxR (MaxFloat fmaxf) shift in_ f32_lowest Max (fun x => x) Hs Hi) as (vs & m & E1 & E2 & Hm);
    [intros; apply fmaxf_max|apply Max_max|].
  rewrite map_id in Hm. rewrite E1, bind_Ok, E2, bind_Ok.
  destruct (block_reduce_ok (fun a b c => c = fadd a b) (SumExpFloat exp (fdiv m temperature)) shift in_ f0 fadd
    (fun x => exp (fsub x (fdiv m temperature))) Hs Hi) as (es & sum & E3 & E4 & Hsum); [done|done|].
  rewrite E3, bind_Ok, E4, bind_Ok. set (ep := Epilogue m sum).
  set (L := fun tid => if shift =? oshift then elements shift classes (w * 32) tid else bulk_elements classes (w * 32) tid).
  assert (∀ tid i, tid < w * 32 -> i ∈ L tid -> i < classes) as HLlt.
  { intros tid i Ht. unfold L. destruct (shift =? oshift); [by apply elements_lt|by apply bulk_lt; lia]. }
  assert (∀ i, i < classes -> ∃ tid, tid < w * 32 ∧ i ∈ L tid) as HLcov.
  { intros i Hic. unfold L. destruct (shift =? oshift); [by apply elements_cover|by apply bulk_cover; lia]. }
  rewrite (for_each_ext _ (fun tid => for_each (write_at ep input in_ out_) (L tid))).
  2:{ intros tid o _. unfold L. destruct (shift =? oshift); [by apply vectorized_visits|apply bulk_visits]. }
  rewrite <- for_each_concat. assert (order (w * 32) ≡ₚ seq 0 (w * 32)) as Hp by apply schedule_perm.
  destruct (write_elements shift classes (w * 32) Hs ep input in_ out_ Hi (concat (map L (order (w * 32)))) output) as (output' & E5 & Hl' & Hout); [|done|].
  { intros i Hin. apply list_elem_of_In, in_concat in Hin as (l & Hl1 & Hin). apply in_map_iff in Hl1 as (tid & <- & Ht).
    apply (HLlt tid); [|by apply list_elem_of_In]. apply list_elem_of_In in Ht. rewrite Hp in Ht. apply elem_of_seq in Ht. lia. }
  exists output'. split; [exact E5|]. split; [done|]. split.
  - exists m, sum. split; [by apply reduction_greatest|]. split; [done|]. fold ep.
    apply (list_eq_lt _ _ classes); [apply length_window; lia|rewrite length_map; by apply length_window|]. intros i Hic.
    rewrite lookup_window, Hout, list_lookup_fmap, lookup_window by done. replace (out_ + i - out_) with i by lia.
    rewrite decide_True; [|split; [lia|]].
    + rewrite nth_lookup. destruct (lookup_lt_is_Some_2 input (in_ + i)) as [x ->]; [lia|done].
    + destruct (HLcov i Hic) as (tid & Ht & HL). apply list_elem_of_In, in_concat. exists (L tid). split; [|by apply list_elem_of_In].
      apply in_map, list_elem_of_In. rewrite Hp. apply elem_of_seq. lia.
  - intros k Hk. rewrite Hout, decide_False; [done|]. intros [H1 H2]. apply list_elem_of_In, in_concat in H2 as (l & Hl1 & Hin).
    apply in_map_iff in Hl1 as (tid & <- & Ht). apply list_elem_of_In in Ht. rewrite Hp in Ht. apply elem_of_seq in Ht.
    apply list_elem_of_In in Hin. apply HLlt in Hin; lia.
Qed.
End softmax_block.

(** ** The launch *)
Lemma double_below_power fuel b m : m <= b * 2 ^ fuel -> ∃ e, double_below fuel b m = b * 2 ^ e ∧ m <= b * 2 ^ e ∧ (e = 0 ∨ b * 2 ^ e < 2 * m).
Proof.
  revert b. induction fuel as [|fuel IH]; intros b Hm; cbn [double_below].
  - exists 0. rewrite Nat.pow_0_r in *. lia.
  - destruct (Nat.ltb_spec b m) as [Hlt|Hge].
    + destruct (IH (b * 2)) as (e & E & He & Hor); [rewrite Nat.pow_succ_r' in Hm; lia|]. exists (S e).
      rewrite Nat.pow_succ_r', Nat.mul_assoc. split; [done|]. split; [done|]. right. destruct Hor as [->|Hor]; [rewrite Nat.pow_0_r; lia|done].
    + exists 0. rewrite Nat.pow_0_r. lia.
Qed.

Lemma SoftmaxGetBlockSize_warps size : ∃ w, SoftmaxGetBlockSize size = w * 32 ∧ 0 < w < 32.
Proof.
  unfold SoftmaxGetBlockSize, kGPUWarpSize, kMaxThreads. cbv zeta. set (m := Nat.min (size / ILP) 1024 / 2).
  assert (m <= 512) as Hm. { unfold m. change 512 with (1024 / 2). apply Nat.Div0.div_le_mono, Nat.le_min_r. }
  clearbody m.
  destruct (double_below_power 10 1 m) as (e & -> & He & Hor); [change (1 * 2 ^ 10) with 1024; lia|]. rewrite !Nat.mul_1_l in *.
  destruct (decide (e <= 5)) as [Hle|Hgt].
  - exists 1. assert (2 ^ e <= 2 ^ 5) as H by (apply Nat.pow_le_mono_r; lia). change (2 ^ 5) with 32 in H. lia.
  - exists (2 ^ (e - 5)). assert (2 ^ e = 2 ^ (e - 5) * 32) as E. { change 32 with (2 ^ 5). rewrite <- Nat.pow_add_r. f_equal. lia. }
    assert (0 < 2 ^ (e - 5)) by (apply Nat.neq_0_lt_0, Nat.pow_nonzero; lia). lia.
Qed.

Section launch.
Context (order : nat -> list nat) {Ho : Schedule order} (exp log : f32 -> f32) (fmaxf : f32 -> f32 -> f32) {Hf : FMax fmaxf}.
Context (is_log : bool) (input : list f32) (n batch : nat) (temperature : f32).

(* row [b] of a matrix of rows of [n] *)
Definition row (m : list f32) (b : nat) : list f32 := take n (drop (b * n) m).

Definition epilogue : f32 -> f32 -> f32 -> f32 := if is_log then LogSoftmaxForwardEpilogue log else SoftmaxForwardEpilogue exp.

Lemma Dispatch_rows in_mis out_mis output : 0 < batch -> (Z.of_nat batch <= INT_MAX)%Z ->
  (Z.of_nat n <= INT_MAX)%Z -> (Z.of_nat (batch * n) <= 2 ^ 32)%Z -> length input = batch * n -> length output = batch * n ->
  Forall (fun x => is_nan x = false) input ->
  ∃ output', DispatchBlockwiseSoftmaxForward exp log fmaxf order is_log output input n n n batch temperature in_mis out_mis = Ok output' ∧
    length output' = batch * n ∧ ∀ b, b < batch -> softmaxed exp epilogue temperature (row input b) (row output' b).
Proof.
  intros Hb0 Hb Hint Hu Hi Hl Hn. destruct (SoftmaxGetBlockSize_warps n) as (w & Ew & Hw). unfold DispatchBlockwiseSoftmaxForward.
  rewrite Ew, int_nat_ok, bind_Ok by done. cbv zeta. fold epilogue.
  assert (∀ b, b < batch -> b * n + n <= batch * n) as Hrow. { intros b Hlt. assert (S b * n <= batch * n) by (apply Nat.mul_le_mono_r; lia). lia. }
  assert (∀ b, b < batch -> (Z.of_nat (b * n) < 2 ^ 32)%Z) as Hrow32. { intros b Hlt. specialize (Hrow b Hlt). destruct n; lia. }
  destruct (launch_blocks_ok order
    (fun b _ => SoftmaxBlockForward exp fmaxf order epilogue (w * 32) input n n n temperature in_mis out_mis b) batch 1
    (fun o => length o = batch * n) (fun b _ o => softmaxed exp epilogue temperature (row input b) (row o b))) with (m := output) as (out & -> & Hlo & HR);
    [|done|lia|done|unfold max_grid_y; lia|done|exists out; split; [done|]; split; [done|]; intros b Hlt; apply (HR b 0); [done|lia]].
  intros b q o Hlt Hq Hlen. destruct (SoftmaxBlockForward_ok order exp fmaxf epilogue w ltac:(lia) input n temperature n n in_mis out_mis b o)
    as (o' & E & Hl' & HS & Hrest); [by apply Hrow32|by apply Hrow32|rewrite Hi; by apply Hrow|rewrite Hlen; by apply Hrow|by apply Forall_take, Forall_drop|].
  exists o'. split; [done|]. split; [congruence|]. split; [done|]. intros b' q' Hb' Hq' Hne HS'.
  assert (row o' b' = row o b') as ->; [|done]. unfold row.
  apply (list_eq_lt _ _ n); [apply length_window; rewrite Hl', Hlen; by apply Hrow|apply length_window; rewrite Hlen; by apply Hrow|].
  intros i Hin. rewrite !lookup_window by done. apply Hrest.
  assert (b' ≠ b) as Hbb by (intros ->; apply Hne; split; [done|lia]).
  destruct (decide (b' < b)) as [H|H].
  - left. assert (S b' * n <= b * n) by (apply Nat.mul_le_mono_r; lia). lia.
  - right. assert (S b * n <= b' * n) by (apply Nat.mul_le_mono_r; lia). lia.
Qed.
End launch.

(** C26: The block-wise softmax of every row: whatever the alignment of the
    buffers and whatever the order of the threads, each element of a row is
    written once, from the greatest value of that row and a sum of one
    exponential per element; the temperature only divides the maximum inside
    the sum's exponent. *)
Theorem DispatchBlockwiseSoftmaxForward_spec (order : nat -> list nat) (exp log : f32 -> f32) (fmaxf : f32 -> f32 -> f32) (is_log : bool)
    (input output : list f32) (n batch : nat) (temperature : f32) (in_mis out_mis : nat) :
  Schedule order -> FMax fmaxf -> 0 < batch -> (Z.of_nat batch <= INT_MAX)%Z ->
  (Z.of_nat (n + ILP * kMaxThreads) <= INT_MAX)%Z -> (Z.of_nat (batch * n) <= 2 ^ 32)%Z -> length input = batch * n -> length output = batch * n ->
  Forall (fun x => is_nan x = false) input ->
  ∃ output', DispatchBlockwiseSoftmaxForward exp log fmaxf order is_log output input n n n batch temperature in_mis out_mis = Ok output' ∧
    length output' = batch * n ∧ ∀ b, b < batch -> softmaxed exp (epilogue exp log is_log) temperature (row n input b) (row n output' b).
Proof. intros ? ? ? ? Hn. intros. apply Dispatch_rows; try done. unfold ILP, kMaxThreads in Hn. lia. Qed.

Module Examples.
Import Cuda.Examples.
Definition two_rows : list f32 := map f32_of_Z [3; 1; 7; 2]%Z.

Lemma DispatchBlockwiseSoftmaxForward_spec_witness :
  ∃ output', DispatchBlockwiseSoftmaxForward (fun x => x) (fun x => x) Max backwards false [f0; f0; f0; f0] two_rows 2 2 2 2 f1 1 3 = Ok output' ∧
    length output' = 2 * 2 ∧ ∀ b, b < 2 -> softmaxed (fun x => x) (epilogue (fun x => x) (fun x => x) false) f1 (row 2 two_rows b) (row 2 output' b).
Proof.
  apply (DispatchBlockwiseSoftmaxForward_spec backwards); [apply _|exact Max_max|lia|unfold INT_MAX; lia|unfold INT_MAX, ILP, kMaxThreads; lia|lia|reflexivity|reflexivity|].
  repeat constructor.
Defined.
End Examples.
