(* ===== verification/CudaSampling.v ===== *)
(** * Sampling on the device (src/cuda_sampling.cu, src/cuda_sampling.cuh)

    [GetSample] takes the best scores of a row, or sorts the row, sums them up
    and picks the first whose sum reaches a random threshold.  The random
    numbers, cub's [BlockScan], [BlockReduce] and segmented sort, [fminf],
    [fmaxf] and [exp] are the libraries'.  A block of the softmax, of the prefix
    sums, of the top k and of the sample is one step of its launch; inside, the
    threads run in the order [order] gives between two barriers.  The storage
    cub asks for is not kept. *)
From Stdlib Require Import ZArith Lia SpecFloat.
From stdpp Require Import base numbers list sorting.
From S2P Require Import Prelude Float32 Search Cuda CudaSequences CudaTopK CudaSoftmax.
Local Open Scope nat_scope.

(** [BlockScan.InclusiveSum]: thread [i] gets the sum of the values of the
    threads up to it, in some bracketing. *)
Class BlockScan (inclusive_sum : list f32 -> list f32) : Prop := block_scan l :
  length (inclusive_sum l) = length l ∧ ∀ i x, inclusive_sum l !! i = Some x -> bracketed fadd (take (S i) l) x.

(** ** The data *)
Record SamplingData {rng : Type} := mkSampling {
  indices_sorted : list Z;
  scores_sorted : list f32;
  scores_softmaxed : list f32;
  prefix_sums : list f32;
  thresholds : list f32;
  indices_in : list Z;
  offsets : list Z;
  curand_states : list rng }.
Arguments SamplingData : clear implicits.

Section sampling.
Context {rng : Type} (curand_init : Z -> Z -> Z -> rng) (curand_uniform : rng -> f32 * rng).
Context (order : nat -> list nat) (exp log : f32 -> f32) (fmaxf fminf : f32 -> f32 -> f32).
Context (inclusive_sum : list f32 -> list f32) (reduce : (TopK -> TopK -> TopK) -> list TopK -> TopK).
(* keys in and out, values in and out, the numbers of items and of segments, where the segments begin and end *)
Context (SortPairs SortPairsDescending : list f32 -> list f32 -> list Z -> list Z -> nat -> nat -> list Z -> list Z -> list f32 * list Z).
Context (malloc : nat -> list Z) (malloc_scores : nat -> list f32) (malloc_states : nat -> list rng).

Definition set_sorted (i : list Z) (s : list f32) (d : SamplingData rng) : SamplingData rng :=
  mkSampling rng i s (scores_softmaxed d) (prefix_sums d) (thresholds d) (indices_in d) (offsets d) (curand_states d).
Definition set_softmaxed (s : list f32) (d : SamplingData rng) : SamplingData rng :=
  mkSampling rng (indices_sorted d) (scores_sorted d) s (prefix_sums d) (thresholds d) (indices_in d) (offsets d) (curand_states d).
Definition set_segments (i o : list Z) (d : SamplingData rng) : SamplingData rng :=
  mkSampling rng (indices_sorted d) (scores_sorted d) (scores_softmaxed d) (prefix_sums d) (thresholds d) i o (curand_states d).
Definition set_drawn (ps ts : list f32) (st : list rng) (d : SamplingData rng) : SamplingData rng :=
  mkSampling rng (indices_sorted d) (scores_sorted d) (scores_softmaxed d) ps ts (indices_in d) (offsets d) st.

Definition InitCurandStates (seed batch_size index : Z) (states : list rng) : outcome (list rng) :=
  if (batch_size <=? index)%Z then Ok states else putZ states index (curand_init seed index 0).

(* the grid of the kernels with a thread per entry *)
Definition launch_128 {M} (batch_size : nat) (thread : Z -> M -> outcome M) (m : M) : outcome M :=
  launch order (Z.of_nat (batch_size / 128 + 1)) 128 thread m.

Definition SamplingData_new (random_seed : Z) (batch_size vocab_size : nat) : outcome (SamplingData rng) :=
  n ← int_nat (vocab_size * batch_size);
  m ← int_nat (batch_size + 1);
  states ← launch_128 batch_size (InitCurandStates random_seed (Z.of_nat batch_size)) (malloc_states batch_size);
  Ok (mkSampling rng (malloc n) (malloc_scores n) (malloc_scores n) (malloc_scores n) (malloc_scores batch_size) (malloc n) (malloc m) states).

(** ** What the sort reads *)
Definition PopulateIndices (size batch_size global_index : Z) (indices : list Z) : outcome (list Z) :=
  if (size =? 0)%Z then Undef else
  let index := Z.rem global_index size in
  n ← chk32 (size * batch_size);
  if (global_index <? n)%Z then putZ indices global_index index else Ok indices.

Definition LaunchPopulateIndices (indices : list Z) (size batch_size : nat) : outcome (list Z) :=
  n ← int_nat (batch_size * size);
  launch order (Z.of_nat (n / 256 + 1)) 256 (PopulateIndices (Z.of_nat size) (Z.of_nat batch_size)) indices.

Definition PopulateOffsets (size batch_size index : Z) (offsets : list Z) : outcome (list Z) :=
  n ← chk32 (batch_size + 1);
  if (index <? n)%Z then at_ ← chk32 (index * size); putZ offsets index at_ else Ok offsets.

Definition LaunchPopulateOffsets (offsets : list Z) (size batch_size : nat) : outcome (list Z) :=
  launch_128 batch_size (PopulateOffsets (Z.of_nat size) (Z.of_nat batch_size)) offsets.

Definition LaunchSortPairs (keys_in keys_out : list f32) (values_in values_out : list Z) (num_items num_segments : nat) (offsets : list Z)
    (is_descending : bool) : list f32 * list Z :=
  (if is_descending then SortPairsDescending else SortPairs)
    keys_in keys_out values_in values_out num_items num_segments offsets (tail offsets).

(** ** The best scores *)
Definition GetTopKKernel (max_k threads : nat) (scores_in : list f32) (vocab_size k batch : nat) (out : list f32 * list Z)
  : outcome (list f32 * list Z) :=
  top_k_sequence ← block_top_k reduce max_k threads (fun tid thread_top_k =>
    for_each (fun i thread_top_k =>
      at_ ← int_nat (batch * vocab_size); v ← get scores_in (i + at_); Ok (TopK_Insert (v, Z.of_nat i) thread_top_k))
      (strided tid threads vocab_size) thread_top_k);
  off ← int_nat (batch * k); write_top k off top_k_sequence out.

Definition LaunchGetTopKSubset (max_k : nat) (scores_in : list f32) (out : list f32 * list Z) (vocab_size batch_size k : nat)
  : outcome (list f32 * list Z) :=
  launch_blocks order batch_size 1 (fun batch _ => GetTopKKernel max_k 256 scores_in vocab_size k batch) out.

(* the indices and the offsets are filled in before every sort *)
Definition sort_rows (scores : list f32) (vocab_size batch_size : nat) (d : SamplingData rng) : outcome (SamplingData rng) :=
  offsets ← LaunchPopulateOffsets (offsets d) vocab_size batch_size;
  indices ← LaunchPopulateIndices (indices_in d) vocab_size batch_size;
  n ← int_nat (vocab_size * batch_size);
  let '(keys, values) := LaunchSortPairs scores (scores_sorted d) indices (indices_sorted d) n batch_size offsets true in
  Ok (set_sorted values keys (set_segments indices offsets d)).

(* the results go to the data's buffers, which are those of the caller *)
Definition LaunchGetTopKSubsetFullSort (scores_in : list f32) (vocab_size batch_size : nat) (d : SamplingData rng) : outcome (SamplingData rng) :=
  sort_rows scores_in vocab_size batch_size d.

Section alignment.
Context (in_mis out_mis : nat).

Definition softmax_rows (scores_in : list f32) (vocab_size batch_size : nat) (temperature : f32) (d : SamplingData rng) : outcome (SamplingData rng) :=
  n ← int_nat (vocab_size * batch_size);
  _ ← assert_ (n <=? length (scores_softmaxed d));
  scores ← DispatchBlockwiseSoftmaxForward exp log fmaxf order false (scores_softmaxed d) scores_in vocab_size vocab_size vocab_size batch_size
    temperature in_mis out_mis;
  Ok (set_softmaxed scores d).

Definition GetTopKSubset (scores_in : list f32) (vocab_size batch_size k : nat) (temperature : f32) (d : SamplingData rng)
  : outcome (SamplingData rng) :=
  d ← softmax_rows scores_in vocab_size batch_size temperature d;
  if k <=? 64 then
    '(scores, indices) ← LaunchGetTopKSubset (top_k_capacity k) (scores_softmaxed d) (scores_sorted d, indices_sorted d) vocab_size batch_size k;
    Ok (set_sorted indices scores d)
  else LaunchGetTopKSubsetFullSort (scores_softmaxed d) vocab_size batch_size d.

Definition SoftmaxAndSort (scores_in : list f32) (vocab_size batch_size : nat) (temperature : f32) (d : SamplingData rng) : outcome (SamplingData rng) :=
  d ← softmax_rows scores_in vocab_size batch_size temperature d;
  sort_rows (scores_softmaxed d) vocab_size batch_size d.
End alignment.

(** ** The sample *)
(* [sums] holds what each thread has added up; the stores come after the scan of the chunk *)
Definition PrefixSumKernel (threads : nat) (scores : list f32) (sample_range batch : nat) (prefix_sums : list f32) : outcome (list f32) :=
  base ← int_nat (batch * sample_range);
  '(_, prefix_sums) ← for_each (fun i '(sums, prefix_sums) =>
    score ← per_thread threads (fun tid => if tid + i <? sample_range then get scores (tid + i + base) else Ok f0);
    let sums := zip_with fadd sums (inclusive_sum score) in
    prefix_sums ← for_each (fun tid prefix_sums =>
      if tid + i <? sample_range then x ← get sums tid; put prefix_sums (tid + i + base) x else Ok prefix_sums) (order threads) prefix_sums;
    Ok (sums, prefix_sums)) (strided 0 threads sample_range) (replicate threads f0, prefix_sums);
  Ok prefix_sums.

(* draws a number for entry [index]; the threshold is [bound] times it *)
Definition draw (bound : f32) (index : Z) (st : list f32 * list rng) : outcome (list f32 * list rng) :=
  let '(thresholds, states) := st in
  s ← getZ states index;
  let '(u, s) := curand_uniform s in
  states ← putZ states index s; thresholds ← putZ thresholds index (fmul bound u); Ok (thresholds, states).

Definition RandomThresholdKernelTopPAndK (prefix_sums : list f32) (batch_size : Z) (p : f32) (k : Z) (index : Z) (st : list f32 * list rng)
  : outcome (list f32 * list rng) :=
  k_prob ← getZ prefix_sums (k - 1);
  if (index <? batch_size)%Z then draw (fminf p k_prob) index st else Ok st.

Definition RandomThresholdKernelTopP (batch_size : Z) (p : f32) (index : Z) (st : list f32 * list rng) : outcome (list f32 * list rng) :=
  if (index <? batch_size)%Z then draw p index st else Ok st.

Definition RandomThresholdKernelTopK (prefix_sums : list f32) (batch_size : Z) (k : Z) (index : Z) (st : list f32 * list rng)
  : outcome (list f32 * list rng) :=
  if (index <? batch_size)%Z then k_prob ← getZ prefix_sums (k - 1); draw k_prob index st else Ok st.

(* the loop of a thread, which ends at the first of its elements that qualifies; the bound is unsigned *)
Fixpoint sample_from (threads : nat) (prefix_sums thresholds : list f32) (sample_range batch base : nat) (ids : list nat) (first_index : Z) : outcome Z :=
  match ids with
  | [] => Ok first_index
  | index :: ids =>
      at_ ← int_nat (index + base);
      if (Z.of_nat at_ <? u32 (Z.of_nat (threads * sample_range)))%Z then
        sum ← get prefix_sums at_; threshold ← get thresholds batch;
        if fle threshold sum || (index =? sample_range - 1) then Ok (Z.min first_index (Z.of_nat index))
        else sample_from threads prefix_sums thresholds sample_range batch base ids first_index
      else sample_from threads prefix_sums thresholds sample_range batch base ids first_index
  end.

Definition SampleKernel (threads : nat) (prefix_sums : list f32) (indices : list Z) (sample_range : nat) (thresholds : list f32) (batch : nat)
    (index_out : list Z) : outcome (list Z) :=
  base ← int_nat (batch * sample_range);
  first_index ← for_each (fun tid => sample_from threads prefix_sums thresholds sample_range batch base (strided tid threads sample_range))
    (order threads) (Z.of_nat sample_range - 1)%Z;
  token ← getZ indices (first_index + Z.of_nat base); put index_out batch token.

Definition LaunchSampleKernel (scores : list f32) (indices : list Z) (sample_range batch_size : nat) (p : f32) (k : Z)
    (st : SamplingData rng * list Z) : outcome (SamplingData rng * list Z) :=
  let '(d, index_out) := st in
  _ ← int_nat (sample_range * batch_size);
  prefix_sums ← launch_blocks order batch_size 1 (fun batch _ => PrefixSumKernel 256 scores sample_range batch) (prefix_sums d);
  let drawn := (thresholds d, curand_states d) in
  '(thresholds, states) ← (if flt f0 p && (1 <? k)%Z then
      launch_128 batch_size (RandomThresholdKernelTopPAndK prefix_sums (Z.of_nat batch_size) p k) drawn
    else if flt f0 p then launch_128 batch_size (RandomThresholdKernelTopP (Z.of_nat batch_size) p) drawn
    else if (1 <? k)%Z then launch_128 batch_size (RandomThresholdKernelTopK prefix_sums (Z.of_nat batch_size) k) drawn
    else Ok drawn);
  index_out ← launch_blocks order batch_size 1 (fun batch _ => SampleKernel 256 prefix_sums indices sample_range thresholds batch) index_out;
  Ok (set_drawn prefix_sums thresholds states d, index_out).

Definition GetSample (in_mis out_mis : nat) (scores_in : list f32) (vocab_size batch_size : nat) (k : Z) (p temperature : f32)
    (st : SamplingData rng * list Z) : outcome (SamplingData rng * list Z) :=
  let '(d, next_token_out) := st in
  let sample_range := if ((0 <? k) && (k <=? 64))%Z then Z.to_nat k else vocab_size in
  _ ← int_nat (sample_range * batch_size);
  d ← (if ((0 <? k) && (k <? Z.of_nat vocab_size))%Z then GetTopKSubset in_mis out_mis scores_in vocab_size batch_size (Z.to_nat k) temperature d
       else SoftmaxAndSort in_mis out_mis scores_in vocab_size batch_size temperature d);
  LaunchSampleKernel (scores_sorted d) (indices_sorted d) sample_range batch_size p k (d, next_token_out).
End sampling.

(** ** The prefix sums *)
Lemma chunks_eq threads range : 0 < threads -> let m := (range + threads - 1) / threads in
  strided 0 threads range = map (fun c => c * threads) (seq 0 m) ∧ ∀ i, i < m ↔ i * threads < range.
Proof.
  intros Ht m. assert (∀ i, i < m ↔ i * threads < range) as Hm.
  { intros i. unfold m. pose proof (Nat.div_mod_eq (range + threads - 1) threads) as E.
    pose proof (Nat.mod_upper_bound (range + threads - 1) threads ltac:(lia)). set (q := (range + threads - 1) / threads) in *. clearbody q. nia. }
  split; [|done]. unfold strided. rewrite Nat.sub_0_r. clearbody m.
  assert (∀ fuel a, range - a * threads <= fuel -> strided_from fuel (a * threads) threads range = map (fun c => c * threads) (seq a (m - a))) as H.
  { induction fuel as [|fuel IH]; intros a Hf; cbn [strided_from].
    - replace (m - a) with 0; [done|]. specialize (Hm a). lia.
    - destruct (Nat.ltb_spec (a * threads) range) as [Hlt|Hge].
      + apply Hm in Hlt as Hlt'. replace (m - a) with (S (m - S a)) by lia. cbn [seq map]. f_equal.
        replace (a * threads + threads) with (S a * threads) by lia. apply IH. lia.
      + replace (m - a) with 0; [done|]. specialize (Hm a). lia. }
  specialize (H range 0). rewrite Nat.mul_0_l, !Nat.sub_0_r in H. apply H. lia.
Qed.

(** What the prefix sum of element [i] is: the sum of the first [i mod threads + 1]
    elements of every chunk of [threads] up to the element's own. *)
Definition summed (threads : nat) (row : list f32) (i : nat) (v : f32) : Prop :=
  ∃ xs, length xs = S (i / threads) ∧
    (∀ q x, xs !! q = Some x -> bracketed fadd (take (S (i mod threads)) (drop (q * threads) row)) x) ∧ v = fold_left fadd xs f0.

(* for a row of one chunk it is what its name says *)
Lemma summed_prefix threads row i v : i < threads -> summed threads row i v ↔ ∃ x, bracketed fadd (take (S i) row) x ∧ v = fadd f0 x.
Proof.
  intros Hi. unfold summed. rewrite Nat.div_small, Nat.mod_small by done. split.
  - intros ([|x [|? ?]] & Hl & Hx & ->); try done. exists x. split; [by apply (Hx 0)|done].
  - intros (x & Hx & ->). exists [x]. split; [done|]. split; [|done]. intros [|q] y Hy; [|done]. by injection Hy as ->.
Qed.

Section prefix.
Context (order : nat -> list nat) {Ho : Schedule order} (inclusive_sum : list f32 -> list f32) {Hs : BlockScan inclusive_sum}.
Context (threads range base : nat) (scores : list f32) (Ht : 0 < threads) (Hscores : base + range <= length scores).
Local Abbreviation row := (take range (drop base scores)).

(* what thread [t] holds after [c] chunks *)
Definition held (c : nat) (sums : list f32) : Prop :=
  length sums = threads ∧ ∀ t, t < threads -> ∃ xs, length xs = c ∧ sums !! t = Some (fold_left fadd xs f0) ∧
    ∀ q x, xs !! q = Some x -> q * threads + t < range -> bracketed fadd (take (S t) (drop (q * threads) row)) x.

Lemma chunk_scanned i : ∃ score, per_thread threads (fun tid => if tid + i <? range then get scores (tid + i + base) else Ok f0) = Ok score ∧
  length (inclusive_sum score) = threads ∧
  ∀ t, t < threads -> ∃ x, inclusive_sum score !! t = Some x ∧ (i + t < range -> bracketed fadd (take (S t) (drop i row)) x).
Proof.
  eexists. split; [apply (per_thread_ok threads _ (fun tid => if tid + i <? range then nth (base + (tid + i)) scores f0 else f0))|].
  { intros tid _. destruct (Nat.ltb_spec (tid + i) range) as [H|H]; [|done]. destruct (lookup_lt_is_Some_2 scores (base + (tid + i))) as [x Hx]; [lia|].
    rewrite nth_lookup, Hx. apply get_Some. by replace (tid + i + base) with (base + (tid + i)) by lia. }
  match goal with |- context [inclusive_sum ?l] => set (score := l); destruct (block_scan (inclusive_sum := inclusive_sum) score) as [Hl Hb] end.
  assert (length score = threads) as Hls by (unfold score; by rewrite length_map, length_seq).
  split; [by rewrite Hl|]. intros t Htt. destruct (lookup_lt_is_Some_2 (inclusive_sum score) t) as [x Hx]; [lia|].
  exists x. split; [done|]. intros Hr. apply Hb in Hx. assert (take (S t) score = take (S t) (drop i row)) as <-; [|done].
  apply (list_eq_lt _ _ (S t)); [rewrite length_take; lia|rewrite length_take, length_drop, length_window by done; lia|].
  intros j Hj. rewrite !lookup_take_lt, lookup_drop, lookup_window by lia. unfold score. rewrite list_lookup_fmap, lookup_seq_lt by lia. cbn [fmap option_fmap option_map]. rewrite Nat.add_0_l.
  rewrite (proj2 (Nat.ltb_lt _ _)) by lia. destruct (lookup_lt_is_Some_2 scores (base + (i + j))) as [y Hy]; [lia|].
  by rewrite nth_lookup, Hy, (Nat.add_comm j i), Hy.
Qed.

Lemma store_sums i (sums ps : list f32) n : length sums = threads -> length ps = n -> base + range <= n ->
  ∃ ps', for_each (fun tid ps => if tid + i <? range then x ← get sums tid; put ps (tid + i + base) x else Ok ps) (order threads) ps = Ok ps' ∧
    length ps' = n ∧ ∀ k, ps' !! k = if decide (base + i <= k < base + range ∧ k < base + i + threads) then sums !! (k - base - i) else ps !! k.
Proof.
  intros Hl Hps Hn. assert (order threads ≡ₚ seq 0 threads) as Hp by apply schedule_perm.
  destruct (for_each_threads (fun l ps' => length ps' = n ∧ ∀ k, ps' !! k = if decide (base + i <= k < base + range ∧ k - base - i ∈ l)
    then sums !! (k - base - i) else ps !! k) (fun tid ps => if tid + i <? range then x ← get sums tid; put ps (tid + i + base) x else Ok ps)
    (order threads) [] ps) as (ps' & E & Hl' & Hk).
  - rewrite app_nil_l, Hp. apply NoDup_seq.
  - split; [done|]. intros k. rewrite decide_False; [done|]. intros [_ H]. by apply not_elem_of_nil in H.
  - intros l tid m Hin Hni [Hm Hmk]. rewrite Hp in Hin. apply elem_of_seq in Hin.
    assert (∀ k, base + i <= k < base + range -> k - base - i ∈ l ++ [tid] ↔ k - base - i ∈ l ∨ k = tid + i + base) as Hsnoc
      by (intros k Hr; rewrite elem_of_app, list_elem_of_singleton; split; (intros [?|?]; [by left|right; lia])).
    destruct (Nat.ltb_spec (tid + i) range) as [H|H].
    + destruct (lookup_lt_is_Some_2 sums tid) as [x Hx]; [lia|]. rewrite (get_Some _ _ _ Hx), bind_Ok, put_lt by lia. eexists. split; [reflexivity|].
      split; [by rewrite length_insert|]. intros k. destruct (decide (k = tid + i + base)) as [->|Hne].
      * rewrite list_lookup_insert_eq, decide_True by (lia || (split; [lia|apply Hsnoc; [lia|by right]])). by replace (tid + i + base - base - i) with tid by lia.
      * rewrite list_lookup_insert_ne, Hmk by done. apply decide_ext. split; intros [H1 H2]; (split; [done|]); [apply Hsnoc; [done|by left]|apply Hsnoc in H2 as [?|?]; done].
    + exists m. split; [done|]. split; [done|]. intros k. rewrite Hmk. apply decide_ext.
      split; intros [H1 H2]; (split; [done|]); [apply Hsnoc; [done|by left]|apply Hsnoc in H2 as [?|?]; [done|lia|done]].
  - exists ps'. split; [done|]. split; [done|]. intros k. rewrite Hk, app_nil_l. apply decide_ext. rewrite Hp, elem_of_seq. lia.
Qed.

Lemma held_next c sums scan : held c sums -> length scan = threads ->
  (∀ t, t < threads -> ∃ x, scan !! t = Some x ∧ (c * threads + t < range -> bracketed fadd (take (S t) (drop (c * threads) row)) x)) ->
  held (S c) (zip_with fadd sums scan).
Proof.
  intros [Hl Hh] Hls Hscan. split; [rewrite length_zip_with; lia|]. intros t Htt. destruct (Hh t Htt) as (xs & Hx & Hv & Hb).
  destruct (Hscan t Htt) as (x & Hxt & Hbx). exists (xs ++ [x]). split; [rewrite length_app, Hx; cbn; lia|]. split.
  - by rewrite lookup_zip_with, Hv, Hxt, fold_left_app.
  - intros q y Hy Hr. apply lookup_app_Some in Hy as [Hy|[Hge Hy]]; [by apply Hb|].
    assert (q = c) as -> by (apply lookup_lt_Some in Hy; cbn in Hy; lia). replace (c - length xs) with 0 in Hy by lia. injection Hy as <-. by apply Hbx.
Qed.

Lemma held_summed c sums t v : held (S c) sums -> t < threads -> c * threads + t < range -> sums !! t = Some v -> summed threads row (c * threads + t) v.
Proof.
  intros [_ Hh] Htt Hr Hv. destruct (Hh t Htt) as (xs & Hl & Hx & Hb). rewrite Hx in Hv. injection Hv as <-. exists xs.
  rewrite (Nat.add_comm (c * threads)), Nat.div_add, Nat.Div0.mod_add, Nat.div_small, Nat.mod_small by lia.
  split; [done|]. split; [|done]. intros q x Hq. apply Hb; [done|]. apply lookup_lt_Some in Hq.
  assert (q * threads <= c * threads) by (apply Nat.mul_le_mono_r; lia). lia.
Qed.
End prefix.

Lemma PrefixSumKernel_ok (order : nat -> list nat) (inclusive_sum : list f32 -> list f32) threads range batch scores ps n :
  Schedule order -> BlockScan inclusive_sum -> 0 < threads ->
  (Z.of_nat (batch * range) <= INT_MAX)%Z -> batch * range + range <= length scores -> length ps = n -> batch * range + range <= n ->
  ∃ ps', PrefixSumKernel order inclusive_sum threads scores range batch ps = Ok ps' ∧ length ps' = n ∧
    (∀ i, i < range -> ∃ v, ps' !! (batch * range + i) = Some v ∧ summed threads (take range (drop (batch * range) scores)) i v) ∧
    ∀ k, (k < batch * range ∨ batch * range + range <= k) -> ps' !! k = ps !! k.
Proof.
  intros Ho Hs Ht Hi Hsc Hps Hn. unfold PrefixSumKernel. rewrite int_nat_ok, bind_Ok by done. set (base := batch * range) in *. clearbody base.
  destruct (chunks_eq threads range Ht) as [-> Hm]. set (m := (range + threads - 1) / threads) in *. clearbody m.
  rewrite for_each_map, for_each_seq. match goal with |- context [loop m 0 ?b _] => set (body := b) end.
  destruct (for_inv (fun c '(sums, ps') => held threads range base scores c sums ∧ length ps' = n ∧
    (∀ i, i < range -> i < c * threads -> ∃ v, ps' !! (base + i) = Some v ∧ summed threads (take range (drop base scores)) i v) ∧
    ∀ k, (k < base ∨ base + range <= k) -> ps' !! k = ps !! k) m body (replicate threads f0, ps)) as ([sums ps'] & E & _ & Hl & Hsum & Hrest).
  - split; [split; [apply length_replicate|]|split; [done|split; [lia|done]]]. intros t Htt. exists []. split; [done|]. split; [by rewrite lookup_replicate_2|done].
  - intros c [sums ps'] Hc (Hh & Hl & Hsum & Hrest). unfold body. destruct (chunk_scanned inclusive_sum threads range base scores Ht Hsc (c * threads))
      as (score & -> & Hls & Hscan). rewrite bind_Ok. cbv zeta. assert (held threads range base scores (S c) (zip_with fadd sums (inclusive_sum score))) as Hh' by (by apply held_next).
    set (sums' := zip_with fadd sums (inclusive_sum score)) in *. clearbody sums'.
    destruct (store_sums order threads range base scores Ht Hsc (c * threads) sums' ps' n) as (ps2 & -> & Hl2 & Hk); [apply Hh'|done|done|].
    rewrite bind_Ok. eexists. split; [reflexivity|]. split; [done|]. split; [done|]. split.
    + intros i Hir Hic. rewrite Hk. destruct (decide (i < c * threads)) as [Hold|Hnew].
      * rewrite decide_False by lia. by apply Hsum.
      * rewrite decide_True by lia. replace (base + i - base - c * threads) with (i - c * threads) by lia.
        destruct (lookup_lt_is_Some_2 sums' (i - c * threads)) as [v Hv]; [destruct Hh' as [-> _]; lia|]. exists v. split; [done|].
        assert (i = c * threads + (i - c * threads)) as -> by lia. eapply held_summed; [done..|exact Hh'|lia|lia|]. by rewrite <- Hv; f_equal; lia.
    + intros k Hkr. rewrite Hk, decide_False by lia. by apply Hrest.
  - unfold for_ in E. rewrite E, bind_Ok. exists ps'. split; [done|]. split; [done|]. split; [|done]. intros i Hir. apply Hsum; [done|].
    destruct (Nat.lt_ge_cases i (m * threads)) as [H|H]; [done|]. exfalso. specialize (Hm m). apply (Nat.lt_irrefl m), Hm. lia.
Qed.

(** ** The pick *)
Section pick.
Context (order : nat -> list nat) {Ho : Schedule order} (threads range batch : nat) (sums thresholds : list f32) (threshold : f32).
Context (Ht : 0 < threads) (Hr : 0 < range) (Hb : batch < threads) (Hu : (Z.of_nat (threads * range) < 2 ^ 32)%Z).
Context (Hi : (Z.of_nat (S batch * range) <= INT_MAX)%Z) (Hsums : batch * range + range <= length sums) (Hthr : thresholds !! batch = Some threshold).

Definition reaches (i : nat) : bool := fle threshold (nth (batch * range + i) sums f0) || (i =? range - 1).

Lemma sample_from_least ids first : StronglySorted lt ids -> Forall (fun i => i < range) ids ->
  ∃ r, sample_from threads sums thresholds range batch (batch * range) ids first = Ok r ∧ (r <= first)%Z ∧
    (r = first ∨ ∃ i, i < range ∧ reaches i = true ∧ r = Z.of_nat i) ∧ ∀ i, i ∈ ids -> reaches i = true -> (r <= Z.of_nat i)%Z.
Proof.
  induction 1 as [|i ids Hs IH Hlt]; intros Hids.
  - exists first. split; [done|]. split; [lia|]. split; [by left|]. intros i Hin. by apply not_elem_of_nil in Hin.
  - apply Forall_cons in Hids as [Hir Hids]. cbn [sample_from].
    assert (batch * range + i < threads * range) as Hin by (pose proof (row_bound batch threads range Hb); lia).
    rewrite int_nat_ok, bind_Ok by lia. rewrite u32_id, (proj2 (Z.ltb_lt _ _)) by lia.
    destruct (lookup_lt_is_Some_2 sums (i + batch * range)) as [s Hsum]; [lia|]. rewrite (get_Some _ _ _ Hsum), bind_Ok, (get_Some _ _ _ Hthr), bind_Ok.
    assert (fle threshold s || (i =? range - 1) = reaches i) as -> by (unfold reaches; by rewrite nth_lookup, (Nat.add_comm (batch * range)), Hsum).
    destruct (reaches i) eqn:E.
    + eexists. split; [reflexivity|]. split; [lia|]. split.
      * destruct (Z.min_spec first (Z.of_nat i)) as [[_ ->]|[_ ->]]; [by left|]. right. by exists i.
      * intros j [->|Hj]%elem_of_cons _; [lia|]. rewrite Forall_forall in Hlt. specialize (Hlt j Hj). lia.
    + destruct (IH Hids) as (r & Er & H1 & H2 & H3). exists r. split; [done|]. split; [done|]. split; [done|].
      intros j [->|Hj]%elem_of_cons Hq; [by rewrite E in Hq|by apply H3].
Qed.

Lemma strided_sorted tid : tid < threads -> StronglySorted lt (strided tid threads range) ∧ Forall (fun i => i < range) (strided tid threads range).
Proof.
  intros Htid. pose proof (strided_class 0 threads range tid Htid) as E. rewrite !Nat.add_0_r in E. rewrite E. split.
  - assert (∀ n a, StronglySorted lt (filter (fun x => (x - 0) mod threads = tid) (seq a n))) as H; [|apply H].
    induction n as [|n IH]; intros a; [constructor|]. cbn [seq]. rewrite filter_cons. case_decide; [|apply IH]. constructor; [apply IH|].
    apply Forall_forall. intros x [_ Hx%elem_of_seq]%list_elem_of_filter. lia.
  - apply Forall_forall. intros x [_ Hx%elem_of_seq]%list_elem_of_filter. lia.
Qed.

(** Whatever the order of the threads, the first index whose sum reaches the threshold is taken, or the last. *)
Lemma SampleKernel_ok indices out : batch * range + range <= length indices -> batch < length out ->
  ∃ i token, SampleKernel order threads sums indices range thresholds batch out = Ok (<[batch := token]> out) ∧
    indices !! (batch * range + i) = Some token ∧ i < range ∧ reaches i = true ∧ ∀ j, j < i -> reaches j = false.
Proof.
  intros Hl Ho'. unfold SampleKernel. assert (batch * range <= S batch * range) by (apply Nat.mul_le_mono_r; lia).
  rewrite int_nat_ok, bind_Ok by lia.
  destruct (for_each_inv (fun done (f : Z) => (f = Z.of_nat (range - 1) ∨ ∃ i, i < range ∧ reaches i = true ∧ f = Z.of_nat i) ∧
    ∀ tid i, tid ∈ done -> i ∈ strided tid threads range -> reaches i = true -> (f <= Z.of_nat i)%Z) (order threads)
    (fun tid => sample_from threads sums thresholds range batch (batch * range) (strided tid threads range)) (Z.of_nat range - 1)%Z)
    as (f & -> & Hf & Hmin).
  - split; [left; lia|]. intros tid i Hin. by apply not_elem_of_nil in Hin.
  - intros done tid f [Hf Hmin] Hin. assert (tid < threads) as Htid.
    { assert (tid ∈ seq 0 threads) as Hs; [|apply elem_of_seq in Hs; lia]. by rewrite <- (schedule_perm (order := order) threads). }
    destruct (strided_sorted tid Htid) as [Hs Hall]. destruct (sample_from_least _ f Hs Hall) as (r & Er & H1 & H2 & H3).
    exists r. split; [done|]. split.
    + destruct H2 as [->|?]; [done|by right].
    + intros tid' i [Hd|Hd%list_elem_of_singleton]%elem_of_app Hi' Hq; [specialize (Hmin tid' i Hd Hi' Hq); lia|subst tid'; by apply H3].
  - rewrite bind_Ok. assert (∃ i, i < range ∧ reaches i = true ∧ f = Z.of_nat i) as (i & Hir & Hq & ->).
    { destruct Hf as [->|?]; [|done]. exists (range - 1). split; [lia|]. split; [|done]. unfold reaches. rewrite Nat.eqb_refl. apply orb_true_r. }
    destruct (lookup_lt_is_Some_2 indices (batch * range + i)) as [token Hx]; [lia|]. exists i, token.
    rewrite getZ_get by lia. replace (Z.to_nat (Z.of_nat i + Z.of_nat (batch * range))) with (batch * range + i) by lia.
    rewrite (get_Some _ _ _ Hx), bind_Ok, put_lt by done. split; [done|]. split; [done|]. split; [done|]. split; [done|].
    intros j Hj. destruct (reaches j) eqn:E; [|done]. exfalso.
    assert (j ∈ strided (j mod threads) threads range) as Hjs.
    { pose proof (strided_class 0 threads range (j mod threads) ltac:(apply Nat.mod_upper_bound; lia)) as Es. rewrite !Nat.add_0_r in Es. rewrite Es.
      apply list_elem_of_filter. split; [by rewrite Nat.sub_0_r|apply elem_of_seq; lia]. }
    assert (j mod threads ∈ order threads) as Hjo.
    { rewrite (schedule_perm (order := order) threads). apply elem_of_seq. pose proof (Nat.mod_upper_bound j threads ltac:(lia)). lia. }
    specialize (Hmin _ j Hjo Hjs E). lia.
Qed.
End pick.

(** ** The thresholds *)
Section draws.
Context {rng : Type} (curand_uniform : rng -> f32 * rng) (order : nat -> list nat) {Ho : Schedule order} (fminf : f32 -> f32 -> f32).

(* entry [b] of a pair of lists drew from [s] *)
Definition drew (bound : f32) (st0 st : list f32 * list rng) (b : nat) : Prop :=
  ∃ s, st0.2 !! b = Some s ∧ st.1 !! b = Some (fmul bound (curand_uniform s).1) ∧ st.2 !! b = Some (curand_uniform s).2.

Lemma draws_ok (thread : Z -> list f32 * list rng -> outcome (list f32 * list rng)) bound bs (ts : list f32) (states : list rng) :
  (Z.of_nat bs + 128 <= INT_MAX)%Z -> length ts = bs -> length states = bs ->
  (∀ i st, i < bs -> thread (Z.of_nat i) st = draw curand_uniform bound (Z.of_nat i) st) -> (∀ i st, bs <= i -> thread (Z.of_nat i) st = Ok st) ->
  ∃ st, launch_128 order bs thread (ts, states) = Ok st ∧ length st.1 = bs ∧ length st.2 = bs ∧ ∀ b, b < bs -> drew bound (ts, states) st b.
Proof.
  intros Hbs Hlt Hls Hin Hout. unfold launch_128.
  assert (bs < (bs / 128 + 1) * 128 ∧ (bs / 128 + 1) * 128 <= bs + 128) as [H1 H2].
  { pose proof (Nat.div_mod_eq bs 128). pose proof (Nat.mod_upper_bound bs 128 ltac:(lia)). set (q := bs / 128) in *. clearbody q. lia. }
  assert (Z.of_nat ((bs / 128 + 1) * 128) = Z.of_nat (bs / 128 + 1) * 128)%Z as Hg by lia. set (g := bs / 128 + 1) in *. clearbody g.
  destruct (launch_inv (fun l st => length st.1 = bs ∧ length st.2 = bs ∧
      ∀ b, b < bs -> if decide (b ∈ l) then drew bound (ts, states) st b else st.1 !! b = ts !! b ∧ st.2 !! b = states !! b) order thread bs)
    with (grid := Z.of_nat g) (block := 128%Z) (m := (ts, states)) as (st & E & Hl1 & Hl2 & Hb).
  - intros l l' st Hp (L1 & L2 & Hst). split; [done|]. split; [done|]. intros b Hb. specialize (Hst b Hb).
    destruct (decide (b ∈ l)) as [Hbl|Hbl], (decide (b ∈ l')) as [Hbl'|Hbl']; try done; exfalso; rewrite Hp in Hbl; done.
  - intros l i [t1 s1] Hi Hni (L1 & L2 & Hst). cbn [fst snd] in *. rewrite Hin by done. unfold draw.
    pose proof (Hst i Hi) as Hsi. rewrite decide_False in Hsi by done. destruct Hsi as [_ Hsi].
    destruct (lookup_lt_is_Some_2 s1 i) as [s Hs]; [lia|]. rewrite getZ_get, Nat2Z.id, (get_Some _ _ _ Hs), bind_Ok by lia.
    destruct (curand_uniform s) as [u s'] eqn:Eu. rewrite !putZ_put, !Nat2Z.id, !put_lt, bind_Ok by lia. rewrite bind_Ok.
    eexists. split; [reflexivity|]. cbn [fst snd]. split; [by rewrite length_insert|]. split; [by rewrite length_insert|]. intros b Hb.
    destruct (decide (b = i)) as [->|Hne].
    + rewrite decide_True by (apply elem_of_app; right; by left). exists s. cbn [fst snd]. rewrite !list_lookup_insert_eq by lia. rewrite Eu. split; [congruence|done].
    + specialize (Hst b Hb). unfold drew in *. cbn [fst snd] in *. rewrite !list_lookup_insert_ne by done.
      destruct (decide (b ∈ l)) as [Hbl|Hbl]; [by rewrite decide_True by (apply elem_of_app; by left)|].
      rewrite decide_False; [done|]. rewrite elem_of_app, list_elem_of_singleton. tauto.
  - lia.
  - unfold max_threads_per_block. lia.
  - unfold INT_MAX in *. lia.
  - intros i st Hi _. by apply Hout.
  - split; [done|]. split; [done|]. intros b Hb. rewrite decide_False; [done|]. apply not_elem_of_nil.
  - exists st. split; [done|]. split; [done|]. split; [done|]. intros b Hbb. specialize (Hb b Hbb).
    rewrite decide_True in Hb by (apply elem_of_seq; lia). done.
Qed.

(** What a random number is multiplied by; the sums are those of the first entry. *)
Definition threshold_bound (p : f32) (k : Z) (prefix_sums : list f32) : option f32 :=
  let k_prob := nth (Z.to_nat (k - 1)) prefix_sums f0 in
  if flt f0 p && (1 <? k)%Z then Some (fminf p k_prob) else if flt f0 p then Some p else if (1 <? k)%Z then Some k_prob else None.

(* the threshold and the state of entry [b] after the kernels of [LaunchSampleKernel] *)
Definition threshold_of (bound : option f32) (st0 st : list f32 * list rng) (b : nat) : Prop :=
  match bound with
  | Some x => drew x st0 st b
  | None => st.1 !! b = st0.1 !! b ∧ st.2 !! b = st0.2 !! b
  end.

Lemma thresholds_ok p k prefix_sums bs ts states : (Z.of_nat bs + 128 <= INT_MAX)%Z -> length ts = bs -> length states = bs ->
  (1 < k -> k <= Z.of_nat (length prefix_sums))%Z ->
  ∃ st, (if flt f0 p && (1 <? k)%Z then
        launch_128 order bs (RandomThresholdKernelTopPAndK curand_uniform fminf prefix_sums (Z.of_nat bs) p k) (ts, states)
      else if flt f0 p then launch_128 order bs (RandomThresholdKernelTopP curand_uniform (Z.of_nat bs) p) (ts, states)
      else if (1 <? k)%Z then launch_128 order bs (RandomThresholdKernelTopK curand_uniform prefix_sums (Z.of_nat bs) k) (ts, states)
      else Ok (ts, states)) = Ok st ∧
    length st.1 = bs ∧ length st.2 = bs ∧ ∀ b, b < bs -> threshold_of (threshold_bound p k prefix_sums) (ts, states) st b.
Proof.
  intros Hbs Hlt Hls Hk. unfold threshold_bound. cbv zeta.
  assert ((1 < k)%Z -> getZ prefix_sums (k - 1) = Ok (nth (Z.to_nat (k - 1)) prefix_sums f0)) as Hget.
  { intros H. specialize (Hk H). destruct (lookup_lt_is_Some_2 prefix_sums (Z.to_nat (k - 1))) as [x Hx]; [lia|].
    rewrite getZ_get, (get_Some _ _ _ Hx) by lia. by rewrite nth_lookup, Hx. }
  destruct (flt f0 p); destruct (Z.ltb_spec 1 k) as [H1|H1]; cbn [andb].
  - apply draws_ok; [done..| |]; intros i st Hi; unfold RandomThresholdKernelTopPAndK; rewrite Hget, bind_Ok by done;
      [by rewrite (proj2 (Z.ltb_lt _ _)) by lia|by rewrite (proj2 (Z.ltb_ge _ _)) by lia].
  - apply draws_ok; [done..| |]; intros i st Hi; unfold RandomThresholdKernelTopP;
      [by rewrite (proj2 (Z.ltb_lt _ _)) by lia|by rewrite (proj2 (Z.ltb_ge _ _)) by lia].
  - apply draws_ok; [done..| |]; intros i st Hi; unfold RandomThresholdKernelTopK;
      [by rewrite (proj2 (Z.ltb_lt _ _)), Hget, bind_Ok by lia|by rewrite (proj2 (Z.ltb_ge _ _)) by lia].
  - exists (ts, states). split; [done|]. split; [done|]. split; [done|]. intros b _. done.
Qed.
End draws.

(** ** The launch of the sample *)
(* [token] is at the first place of the row of [range] whose sum reaches the threshold of entry [b], or at the last *)
Definition sampled (range b : nat) (sums thresholds : list f32) (indices : list Z) (token : Z) : Prop :=
  ∃ i threshold, i < range ∧ indices !! (b * range + i) = Some token ∧ thresholds !! b = Some threshold ∧
    reaches range b sums threshold i = true ∧ ∀ j, j < i -> reaches range b sums threshold j = false.

(* entry [b] after the sample of the rows of [scores] and [indices] *)
Definition sampled_entry {rng} (curand_uniform : rng -> f32 * rng) (fminf : f32 -> f32 -> f32) (range : nat) (p : f32) (k : Z)
    (scores : list f32) (indices : list Z) (d d' : SamplingData rng) (out : list Z) (b : nat) : Prop :=
  (∀ i, i < range -> ∃ v, prefix_sums d' !! (b * range + i) = Some v ∧ summed 256 (take range (drop (b * range) scores)) i v) ∧
  threshold_of curand_uniform (threshold_bound fminf p k (prefix_sums d')) (thresholds d, curand_states d) (thresholds d', curand_states d') b ∧
  ∃ token, out !! b = Some token ∧ sampled range b (prefix_sums d') (thresholds d') indices token.

Section launch.
Context {rng : Type} (curand_uniform : rng -> f32 * rng) (order : nat -> list nat) {Ho : Schedule order} (fminf : f32 -> f32 -> f32).
Context (inclusive_sum : list f32 -> list f32) {Hs : BlockScan inclusive_sum} (bs range : nat) (p : f32) (k : Z).
Context (Hbs : 0 < bs <= 256) (Hr : 0 < range) (Hi : (Z.of_nat (256 * range) <= INT_MAX)%Z).

Lemma prefix_sums_ok scores ps n : bs * range <= length scores -> length ps = n -> bs * range <= n ->
  ∃ ps', launch_blocks order bs 1 (fun batch _ => PrefixSumKernel order inclusive_sum 256 scores range batch) ps = Ok ps' ∧ length ps' = n ∧
    ∀ b, b < bs -> ∀ i, i < range -> ∃ v, ps' !! (b * range + i) = Some v ∧ summed 256 (take range (drop (b * range) scores)) i v.
Proof.
  intros Hsc Hps Hn. destruct (launch_blocks_ok order (fun batch _ => PrefixSumKernel order inclusive_sum 256 scores range batch) bs 1
    (fun ps => length ps = n) (fun b _ ps => ∀ i, i < range -> ∃ v, ps !! (b * range + i) = Some v ∧ summed 256 (take range (drop (b * range) scores)) i v))
    with (m := ps) as (ps' & -> & Hl & HR).
  - intros b q ps1 Hb Hq Hl. pose proof (row_bound b bs range Hb) as Hrow.
    assert (b * range <= 256 * range) by (apply Nat.mul_le_mono_r; lia).
    destruct (PrefixSumKernel_ok order inclusive_sum 256 range b scores ps1 n Ho Hs ltac:(lia) ltac:(lia) ltac:(lia) Hl ltac:(lia))
      as (ps2 & E & Hl2 & Hsum & Hrest).
    exists ps2. split; [done|]. split; [done|]. split; [done|]. intros b' q' Hb' Hq' Hne H2 i Hir. destruct (H2 i Hir) as (v & Hv & Hsv). exists v.
    split; [|done]. rewrite Hrest; [done|]. assert (b' ≠ b) by (intros ->; apply Hne; split; [done|lia]).
    destruct (decide (b' < b)) as [Hlt|Hge].
    + left. pose proof (row_bound b' b range Hlt). lia.
    + right. pose proof (row_bound b b' range ltac:(lia)). lia.
  - lia.
  - lia.
  - unfold INT_MAX. lia.
  - unfold max_grid_y. lia.
  - done.
  - exists ps'. split; [done|]. split; [done|]. intros b Hb. apply (HR b 0); [done|lia].
Qed.

Lemma samples_ok sums thresholds indices out : bs * range <= length sums -> length thresholds = bs -> bs * range <= length indices -> length out = bs ->
  ∃ out', launch_blocks order bs 1 (fun batch _ => SampleKernel order 256 sums indices range thresholds batch) out = Ok out' ∧ length out' = bs ∧
    ∀ b, b < bs -> ∃ token, out' !! b = Some token ∧ sampled range b sums thresholds indices token.
Proof.
  intros Hsums Hth Hind Hout. destruct (launch_blocks_ok order (fun batch _ => SampleKernel order 256 sums indices range thresholds batch) bs 1
    (fun o => length o = bs) (fun b _ o => ∃ token, o !! b = Some token ∧ sampled range b sums thresholds indices token))
    with (m := out) as (out' & -> & Hl & HR).
  - intros b q o Hb Hq Hl. destruct (lookup_lt_is_Some_2 thresholds b) as [threshold Ht]; [lia|]. pose proof (row_bound b bs range Hb) as Hrow.
    assert (S b * range <= 256 * range) by (apply Nat.mul_le_mono_r; lia).
    destruct (SampleKernel_ok order 256 range b sums thresholds threshold ltac:(lia) Hr ltac:(lia) ltac:(unfold INT_MAX in Hi; lia) ltac:(lia) ltac:(lia) Ht
      indices o ltac:(lia) ltac:(lia)) as (i & token & E & Hx & Hir & Hq1 & Hq2).
    exists (<[b := token]> o). split; [done|]. split; [by rewrite length_insert|]. split.
    + exists token. split; [by rewrite list_lookup_insert_eq by lia|]. by exists i, threshold.
    + intros b' q' Hb' Hq' Hne H2. rewrite list_lookup_insert_ne; [done|]. intros ->. apply Hne. split; [done|lia].
  - lia.
  - lia.
  - unfold INT_MAX. lia.
  - unfold max_grid_y. lia.
  - done.
  - exists out'. split; [done|]. split; [done|]. intros b Hb. apply (HR b 0); [done|lia].
Qed.

(** The buffers of the data have room for [n] scores. *)
Definition roomy (n : nat) (d : SamplingData rng) : Prop :=
  length (indices_sorted d) = n ∧ length (scores_sorted d) = n ∧ length (scores_softmaxed d) = n ∧ length (prefix_sums d) = n ∧
  length (thresholds d) = bs ∧ length (curand_states d) = bs.

Lemma LaunchSampleKernel_ok scores indices n d out : roomy n d -> bs * range <= length scores -> bs * range <= length indices -> bs * range <= n ->
  length out = bs -> (k <= Z.of_nat n)%Z ->
  ∃ d' out', LaunchSampleKernel curand_uniform order fminf inclusive_sum scores indices range bs p k (d, out) = Ok (d', out') ∧
    roomy n d' ∧ indices_sorted d' = indices_sorted d ∧ scores_sorted d' = scores_sorted d ∧ scores_softmaxed d' = scores_softmaxed d ∧
    length out' = bs ∧ ∀ b, b < bs -> sampled_entry curand_uniform fminf range p k scores indices d d' out' b.
Proof.
  intros (L1 & L2 & L3 & L4 & L5 & L6) Hsc Hin Hn Hout Hk. unfold LaunchSampleKernel.
  assert (range * bs <= 256 * range) by (rewrite (Nat.mul_comm range); apply Nat.mul_le_mono_r; lia).
  rewrite int_nat_ok, bind_Ok by lia. destruct (prefix_sums_ok scores (prefix_sums d) n Hsc L4 Hn) as (ps & -> & Lps & Hps).
  rewrite bind_Ok. cbv zeta.
  destruct (thresholds_ok curand_uniform order fminf p k ps bs (thresholds d) (curand_states d)) as ([ts st] & -> & Lts & Lst & Hts);
    [unfold INT_MAX; lia|done|done|lia|].
  rewrite bind_Ok. cbn [fst snd] in *. destruct (samples_ok ps ts indices out ltac:(lia) Lts Hin Hout) as (out' & -> & Lo & Hb). rewrite bind_Ok.
  eexists _, out'. split; [reflexivity|]. split; [by repeat split|]. do 3 (split; [done|]). split; [done|].
  intros b Hlt. split; [by apply Hps|]. split; [by apply Hts|]. by apply Hb.
Qed.
End launch.

(** ** The best scores of a row *)
(* row [b] of [k] places shows the [k] best of [l] in order *)
Definition best_shown (k b : nat) (l : list f32) (scores : list f32) (indices : list Z) : Prop :=
  ∃ ix, descending k l ix ∧ ties_low k l ix ∧ take k (drop (b * k) scores) = map (fun v => nth v l f0) (take k ix) ∧
    take k (drop (b * k) indices) = map Z.of_nat (take k ix).

Section top_k.
Context (order : nat -> list nat) {Ho : Schedule order} (reduce : (TopK -> TopK -> TopK) -> list TopK -> TopK) {Hr : BlockReduce reduce}.
Context (nv bs k max_k : nat) (scores : list f32) (Hk : 0 < k <= max_k) (Hknv : k <= nv) (Hbs : 0 < bs).
Context (Hlen : bs * nv <= length scores) (Hproper : proper (take (bs * nv) scores)) (Hi : (Z.of_nat (bs * nv) <= INT_MAX)%Z).

Definition row_tokens (b : nat) : list (f32 * Z) := scored (fun i => nth i (row nv scores b) f0) (seq 0 nv).

Lemma row_get b i : b < bs -> i < nv -> get scores (i + b * nv) = Ok (nth i (row nv scores b) f0) ∧
  flt f32_minus_infinity (nth i (row nv scores b) f0) = true.
Proof.
  intros Hb Hin. pose proof (row_index b bs i nv Hb Hin) as Hx. destruct (lookup_lt_is_Some_2 scores (b * nv + i)) as [v Hv]; [lia|].
  unfold row. rewrite nth_lookup, lookup_window, Hv by done. cbn. split; [apply get_Some; by rewrite Nat.add_comm|].
  pose proof (proper_nth _ (b * nv + i) Hproper) as H. rewrite length_take, Nat.min_l in H by done. specialize (H Hx).
  rewrite nth_lookup, lookup_take_lt, Hv in H by done. exact H.
Qed.

Lemma row_candidates b ids : b < bs -> Forall (fun i => i < nv) ids -> Forall candidate (scored (fun i => nth i (row nv scores b) f0) ids).
Proof.
  intros Hb H. apply Forall_forall. intros x (i & -> & Hin)%list_elem_of_fmap. rewrite Forall_forall in H.
  split; cbn [fst snd]; [|lia]. apply (row_get b i Hb (H i Hin)).
Qed.

Lemma GetTopKKernel_ok b n out : b < bs -> sized n out -> bs * k <= n ->
  ∃ out', GetTopKKernel reduce max_k 256 scores nv k b out = Ok out' ∧ sized n out' ∧ top_row k b (row_tokens b) out' ∧
    ∀ r' S', r' ≠ b -> top_row k r' S' out -> top_row k r' S' out'.
Proof.
  intros Hb Hs Hn. pose proof (row_bound b bs nv Hb) as Hbn. pose proof (row_bound b bs k Hb) as Hbk.
  assert (b * k <= b * nv) by (apply Nat.mul_le_mono_l; lia). unfold GetTopKKernel.
  match goal with |- context [block_top_k _ _ _ ?th] => destruct (block_top_k_ok reduce max_k 256 th
    (fun t => scored (fun i => nth i (row nv scores b) f0) (strided (t + 0) 256 (nv + 0))) (row_tokens b)) as (t & E & Htt) end.
  - lia.
  - lia.
  - intros tid Htid. assert (Forall (fun i => i < nv) (strided (tid + 0) 256 (nv + 0))) as Hids.
    { rewrite strided_class by done. apply Forall_forall. intros i [_ Hi'%elem_of_seq]%list_elem_of_filter. lia. }
    exists (fold_left (fun res e => TopK_Insert e res) (scored (fun i => nth i (row nv scores b) f0) (strided (tid + 0) 256 (nv + 0))) (TopK_Init max_k)).
    split.
    + rewrite !Nat.add_0_r in *. rewrite (int_nat_ok (b * nv)) by lia. generalize (TopK_Init max_k).
      induction Hids as [|i ids Hin _ IH]; intros t; [done|]. rewrite for_each_cons, bind_Ok. rewrite (proj1 (row_get b i Hb Hin)), !bind_Ok, IH. done.
    + apply (insert_list max_k _ ltac:(lia)) with (S := []); [by apply row_candidates| |apply Init_tops].
      rewrite app_nil_l. apply scored_NoDup. rewrite strided_class by done. apply NoDup_filter, NoDup_seq.
  - rewrite concat_scored. apply Permutation_map. by rewrite (strided_partition 0 256 nv ltac:(lia)).
  - apply scored_NoDup, NoDup_seq.
  - apply row_candidates; [done|]. apply Forall_seq. lia.
  - rewrite E, bind_Ok, int_nat_ok, bind_Ok by lia. apply (write_row max_k); [lia|done|done|lia].
Qed.

Lemma LaunchGetTopKSubset_ok n out : sized n out -> bs * k <= n ->
  ∃ out', LaunchGetTopKSubset order reduce max_k scores out nv bs k = Ok out' ∧ sized n out' ∧
    ∀ b, b < bs -> best_shown k b (row nv scores b) out'.1 out'.2.
Proof.
  intros Hs Hn. unfold LaunchGetTopKSubset.
  destruct (launch_blocks_ok order (fun batch _ => GetTopKKernel reduce max_k 256 scores nv k batch) bs 1 (sized n)
    (fun b _ o => top_row k b (row_tokens b) o)) with (m := out) as (out' & -> & Hs' & HR).
  - intros b q o Hb Hq Ho'. destruct (GetTopKKernel_ok b n o Hb Ho' Hn) as (o' & E & I & R & Hrest). exists o'. split; [done|]. split; [done|]. split; [done|].
    intros b' q' Hb' Hq' Hne. apply Hrest. intros ->. apply Hne. split; [done|lia].
  - lia.
  - lia.
  - assert (bs * 1 <= bs * nv) by (apply Nat.mul_le_mono_l; lia). lia.
  - unfold max_grid_y. lia.
  - done.
  - exists out'. split; [done|]. split; [done|]. intros b Hb. destruct (HR b 0 Hb ltac:(lia)) as (l & Hl & E1 & E2).
    assert (length (row nv scores b) = nv) as Hrl by (apply length_window; pose proof (row_bound b bs nv Hb); lia).
    unfold row_tokens in Hl. replace (seq 0 nv) with (seq 0 (length (row nv scores b))) in Hl by (by rewrite Hrl). assert (length l = k) as Hll.
    { destruct Hl as (_ & Hl & _). rewrite Hl. unfold scored. rewrite length_map, length_seq. lia. }
    destruct (is_top_descending k _ l Hl) as (ix & Hd & Htie & ->); [lia|]. exists ix. split; [done|]. split; [done|].
    unfold shown in E1, E2. rewrite Hll, Nat.sub_diag, app_nil_r in E1, E2. rewrite E1, E2. unfold scored. split; apply map_map.
Qed.
End top_k.

(** ** GetSample *)
Section get_sample.
Context {rng : Type} (curand_uniform : rng -> f32 * rng) (order : nat -> list nat) {Ho : Schedule order} (exp log : f32 -> f32) (fmaxf fminf : f32 -> f32 -> f32).
Context {Hf : FMax fmaxf} (inclusive_sum : list f32 -> list f32) {Hs : BlockScan inclusive_sum}.
Context (reduce : (TopK -> TopK -> TopK) -> list TopK -> TopK) {Hr : BlockReduce reduce}.
Context (SortPairs SortPairsDescending : list f32 -> list f32 -> list Z -> list Z -> nat -> nat -> list Z -> list Z -> list f32 * list Z).
Context (in_mis out_mis nv bs : nat) (scores_in : list f32) (temperature : f32).
Context (Hbs : 0 < bs <= 256) (Hi : (Z.of_nat (bs * nv) <= INT_MAX)%Z) (Hlen : length scores_in = bs * nv) (Hnum : Forall (fun x => is_nan x = false) scores_in).

(* the softmax of the scores into a buffer has only scores the search for the best keeps *)
Definition softmax_proper (buffer : list f32) : Prop := ∀ soft,
  DispatchBlockwiseSoftmaxForward exp log fmaxf order false buffer scores_in nv nv nv bs temperature in_mis out_mis = Ok soft -> proper soft.

Lemma softmax_rows_ok (d : SamplingData rng) : roomy bs (bs * nv) d ->
  ∃ soft, softmax_rows order exp log fmaxf in_mis out_mis scores_in nv bs temperature d = Ok (set_softmaxed soft d) ∧ length soft = bs * nv ∧
    (softmax_proper (scores_softmaxed d) -> proper soft) ∧
    ∀ b, b < bs -> softmaxed exp (SoftmaxForwardEpilogue exp) temperature (row nv scores_in b) (row nv soft b).
Proof.
  intros (_ & _ & Ls & _). unfold softmax_rows. rewrite int_nat_ok, bind_Ok by lia. rewrite (proj2 (Nat.leb_le _ _)) by lia. cbn [assert_]. rewrite bind_Ok.
  destruct (Dispatch_rows order exp log fmaxf false scores_in nv bs temperature in_mis out_mis (scores_softmaxed d)) as (soft & E & Lsoft & Hsoft);
    [lia|unfold INT_MAX; lia|nia|unfold INT_MAX in *; lia|done|done|done|]. rewrite E, bind_Ok. exists soft. split; [done|]. split; [done|]. split; [intros H; by apply H|done].
Qed.

Context (k : nat) (p : f32) (Hk : 0 < k <= 64) (Hknv : k < nv).

Lemma GetSample_ok (d : SamplingData rng) out : roomy bs (bs * nv) d -> length out = bs -> softmax_proper (scores_softmaxed d) ->
  ∃ d' out', GetSample curand_uniform order exp log fmaxf fminf inclusive_sum reduce SortPairs SortPairsDescending in_mis out_mis scores_in nv bs
      (Z.of_nat k) p temperature (d, out) = Ok (d', out') ∧ roomy bs (bs * nv) d' ∧ length out' = bs ∧
    ∀ b, b < bs -> softmaxed exp (SoftmaxForwardEpilogue exp) temperature (row nv scores_in b) (row nv (scores_softmaxed d') b) ∧
      best_shown k b (row nv (scores_softmaxed d') b) (scores_sorted d') (indices_sorted d') ∧
      sampled_entry curand_uniform fminf k p (Z.of_nat k) (scores_sorted d') (indices_sorted d') d d' out' b.
Proof.
  intros Hd Hout Hp. pose proof Hd as (L1 & L2 & L3 & L4 & L5 & L6). unfold GetSample.
  rewrite (proj2 (Z.ltb_lt 0 (Z.of_nat k))), (proj2 (Z.leb_le (Z.of_nat k) 64)), (proj2 (Z.ltb_lt (Z.of_nat k) (Z.of_nat nv))) by lia. cbn [andb].
  rewrite Nat2Z.id. assert (k * bs <= 64 * 256) by (apply Nat.mul_le_mono; lia). assert (bs * k <= bs * nv) by (apply Nat.mul_le_mono_l; lia).
  assert (1 * nv <= bs * nv) by (apply Nat.mul_le_mono_r; lia).
  rewrite int_nat_ok, bind_Ok by (unfold INT_MAX; lia). unfold GetTopKSubset.
  destruct (softmax_rows_ok d Hd) as (soft & -> & Lsoft & Hsp & Hsoft). rewrite bind_Ok. rewrite (proj2 (Nat.leb_le k 64)) by lia.
  pose proof (top_k_capacity_ok k ltac:(lia)) as Hcap.
  destruct (LaunchGetTopKSubset_ok order reduce nv bs k (top_k_capacity k) soft ltac:(lia) ltac:(lia) ltac:(lia) ltac:(lia)
    ltac:(rewrite take_ge by lia; by apply Hsp) Hi (bs * nv) (scores_sorted d, indices_sorted d)) as ([sc ind] & E & [S1 S2] & Hbest); [done|lia|].
  cbn [set_softmaxed scores_softmaxed scores_sorted indices_sorted fst snd] in *. rewrite E, bind_Ok. cbn [bind_Ok].
  rewrite bind_Ok. set (d1 := set_sorted ind sc (set_softmaxed soft d)).
  destruct (LaunchSampleKernel_ok curand_uniform order fminf inclusive_sum bs k p (Z.of_nat k) Hbs ltac:(lia) ltac:(unfold INT_MAX; lia)
    sc ind (bs * nv) d1 out ltac:(by repeat split) ltac:(lia) ltac:(lia) ltac:(lia) Hout ltac:(lia)) as (d' & out' & E2 & Hd' & I1 & I2 & I3 & Lo & Hb).
  exists d', out'. split; [exact E2|]. split; [done|]. split; [done|]. intros b Hlt. rewrite I1, I2, I3. cbn [d1 set_sorted set_softmaxed indices_sorted scores_sorted scores_softmaxed].
  split; [by apply Hsoft|]. split; [by apply Hbest|]. exact (Hb b Hlt).
Qed.

End get_sample.

(* the token is one of the best *)
Lemma sampled_best nv k b l sums thresholds scores indices token : best_shown k b l scores indices -> length l = nv -> k < nv -> b * k + k <= length indices ->
  sampled k b sums thresholds indices token -> ∃ ix i v, descending k l ix ∧ ties_low k l ix ∧ i < k ∧ ix !! i = Some v ∧ token = Z.of_nat v ∧ v < nv.
Proof.
  intros (ix & Hd & Ht & _ & E) Hl Hknv Hin (i & threshold & Hir & Hx & _). exists ix, i.
  assert (length ix = nv) as Hix by (destruct Hd as [Hp _]; by rewrite Hp, length_seq).
  destruct (lookup_lt_is_Some_2 ix i) as [v Hv]; [lia|]. exists v. split; [done|]. split; [done|]. split; [done|]. split; [done|].
  pose proof (lookup_window indices (b * k) k i Hir) as Hw. rewrite E, Hx, list_lookup_fmap, lookup_take_lt, Hv in Hw by done. injection Hw as <-. split; [done|].
  assert (v ∈ ix) as H by (by eapply list_elem_of_lookup_2). destruct Hd as [Hp _]. rewrite Hp, Hl in H. apply elem_of_seq in H. lia.
Qed.

(** C19: Sampling of the [k] best: every entry gets the token at the first place of
    its [k] best whose prefix sum reaches the threshold drawn for it, or at the
    last, so always one of the [k] best of its softmaxed row, ties going to the
    lower token; however the blocks and threads are ordered. *)
Theorem GetSample_spec {rng : Type} (curand_uniform : rng -> f32 * rng) (order : nat -> list nat) (exp log : f32 -> f32) (fmaxf fminf : f32 -> f32 -> f32)
    (inclusive_sum : list f32 -> list f32) (reduce : (TopK -> TopK -> TopK) -> list TopK -> TopK)
    (SortPairs SortPairsDescending : list f32 -> list f32 -> list Z -> list Z -> nat -> nat -> list Z -> list Z -> list f32 * list Z)
    (in_mis out_mis nv bs k : nat) (scores_in : list f32) (p temperature : f32) (d : SamplingData rng) (out : list Z) :
  Schedule order -> FMax fmaxf -> BlockScan inclusive_sum -> BlockReduce reduce -> 0 < bs <= 256 -> 0 < k <= 64 -> k < nv ->
  (Z.of_nat (bs * nv) <= INT_MAX)%Z -> length scores_in = bs * nv -> Forall (fun x => is_nan x = false) scores_in ->
  roomy bs (bs * nv) d -> length out = bs ->
  softmax_proper order exp log fmaxf in_mis out_mis nv bs scores_in temperature (scores_softmaxed d) ->
  ∃ d' out', GetSample curand_uniform order exp log fmaxf fminf inclusive_sum reduce SortPairs SortPairsDescending in_mis out_mis scores_in nv bs
      (Z.of_nat k) p temperature (d, out) = Ok (d', out') ∧ roomy bs (bs * nv) d' ∧ length out' = bs ∧
    ∀ b, b < bs -> let soft := row nv (scores_softmaxed d') b in
      softmaxed exp (SoftmaxForwardEpilogue exp) temperature (row nv scores_in b) soft ∧
      best_shown k b soft (scores_sorted d') (indices_sorted d') ∧
      sampled_entry curand_uniform fminf k p (Z.of_nat k) (scores_sorted d') (indices_sorted d') d d' out' b ∧
      ∃ ix i v, descending k soft ix ∧ ties_low k soft ix ∧ i < k ∧ ix !! i = Some v ∧ out' !! b = Some (Z.of_nat v) ∧ v < nv.
Proof.
  intros Ho Hf Hs Hr Hbs Hk Hknv Hi Hlen Hnum Hd Hout Hp.
  destruct (GetSample_ok curand_uniform order exp log fmaxf fminf inclusive_sum reduce SortPairs SortPairsDescending in_mis out_mis nv bs scores_in
    temperature Hbs Hi Hlen Hnum k p Hk Hknv d out Hd Hout Hp) as (d' & out' & E & Hd' & Lo & Hb).
  exists d', out'. split; [exact E|]. split; [done|]. split; [done|]. intros b Hlt soft. destruct (Hb b Hlt) as (H1 & H2 & H3).
  split; [done|]. split; [done|]. split; [done|]. destruct H3 as (_ & _ & token & Htok & Hsam). destruct Hd' as (L1 & L2 & L3 & _).
  pose proof (row_bound b bs nv Hlt). pose proof (row_bound b bs k Hlt). assert (bs * k <= bs * nv) by (apply Nat.mul_le_mono_l; lia).
  destruct (sampled_best nv k b soft _ _ _ _ token H2 ltac:(apply length_window; lia) Hknv ltac:(lia) Hsam) as (ix & i & v & ? & ? & ? & ? & -> & ?).
  by exists ix, i, v.
Qed.

Module Examples.
Import Cuda.Examples CudaTopK.Examples.

(* the sums from the left *)
Definition running_sums (l : list f32) : list f32 := map (fun i => fold_left fadd (take i (tail l)) (hd f0 l)) (seq 0 (length l)).

#[export] Instance running_sums_ok : BlockScan running_sums.
Proof.
  intros l. split; [unfold running_sums; by rewrite length_map, length_seq|]. intros i x Hx. unfold running_sums in Hx.
  rewrite list_lookup_fmap in Hx. destruct (seq 0 (length l) !! i) as [j|] eqn:E; [|done]. apply lookup_seq in E as [-> Hi]. injection Hx as <-.
  destruct l as [|y l]; [cbn in Hi; lia|]. cbn [tail hd Nat.add take]. generalize (take i l). intros k. induction k as [|z k IH] using rev_ind; [constructor|].
  rewrite fold_left_app. change (y :: k ++ [z]) with ((y :: k) ++ [z]). constructor; [exact IH|constructor].
Qed.

(* three tokens of one entry, the two best of which are drawn from *)
Definition three_scores : list f32 := map f32_of_Z [3; 7; 1]%Z.
Definition fresh : SamplingData unit :=
  mkSampling unit [0; 0; 0]%Z [f0; f0; f0] [f0; f0; f0] [f0; f0; f0] [f0] [0; 0; 0]%Z [0; 0]%Z [tt].
Definition flat_exp (x : f32) : f32 := f1.

Lemma GetSample_spec_witness : ∃ d' out',
  GetSample (fun s => (f1, s)) backwards flat_exp flat_exp Max Max running_sums fold_reduce (fun a b c d _ _ _ _ => (b, d)) (fun a b c d _ _ _ _ => (b, d))
    0 0 three_scores 3 1 2 f0 f1 (fresh, [0%Z]) = Ok (d', out') ∧ ∃ v, out' !! 0 = Some (Z.of_nat v) ∧ v < 3.
Proof.
  destruct (GetSample_spec (fun s : unit => (f1, s)) backwards flat_exp flat_exp Max Max running_sums fold_reduce
    (fun a b c d _ _ _ _ => (b, d)) (fun a b c d _ _ _ _ => (b, d)) 0 0 3 1 2 three_scores f0 f1 fresh [0%Z]) as (d' & out' & E & _ & _ & Hb);
    [apply _|exact Max_max|apply _|apply _|lia|lia|lia|unfold INT_MAX; lia|reflexivity|repeat constructor|by repeat split|reflexivity| |].
  - intros soft E. vm_compute in E. injection E as <-. repeat (constructor; [vm_compute; done|]). constructor.
  - exists d', out'. split; [exact E|]. destruct (Hb 0 ltac:(lia)) as (_ & _ & _ & ix & i & v & _ & _ & _ & _ & Ho & Hv). exists v. split; [exact Ho|exact Hv].
Defined.
End Examples.
