(* ===== verification/CudaGreedy.v ===== *)
(** * Greedy search on the device (src/search_cuda.h, src/search_cuda.cpp):
    [GreedySearch_Cuda]

    Every way to choose a token is one of [GetSample]; the kernel that checks for
    the end of sequence then replaces the tokens of ended entries and a thread
    appends them.  [in_mis] and [out_mis] are the alignments of the logits and of
    the buffer of the softmax. *)
From Stdlib Require Import ZArith Lia SpecFloat.
From stdpp Require Import base numbers list sorting.
From S2P Require Import Prelude Float32 Config Params Sequences Search Cuda CudaSequences CudaTopK CudaSearch CudaSoftmax CudaSampling.
Local Open Scope nat_scope.

Record GreedySearch_Cuda {rng : Type} := mkGreedyCuda {
  gc_cuda : Search_Cuda;
  gc_next_tokens_ : list Z;
  samplingdata_ : SamplingData rng }.
Arguments GreedySearch_Cuda : clear implicits.

Section greedy.
Context (p : GeneratorParams) {rng : Type} (curand_init : Z -> Z -> Z -> rng) (curand_uniform : rng -> f32 * rng) (random_device : Z).
Context (order : nat -> list nat) (exp log : f32 -> f32) (fmaxf fminf : f32 -> f32 -> f32).
Context (inclusive_sum : list f32 -> list f32) (reduce : (TopK -> TopK -> TopK) -> list TopK -> TopK).
Context (SortPairs SortPairsDescending : list f32 -> list f32 -> list Z -> list Z -> nat -> nat -> list Z -> list Z -> list f32 * list Z).
Context (malloc : nat -> list Z) (malloc_scores : nat -> list f32) (malloc_states : nat -> list rng) (in_mis out_mis : nat).

(* the tokens are cleared *)
Definition GreedySearch_Cuda_new : outcome (GreedySearch_Cuda rng) :=
  c ← Search_Cuda_new p order malloc;
  let seed := (if random_seed (gp_search p) =? -1 then random_device else u64 (random_seed (gp_search p)))%Z in
  d ← SamplingData_new curand_init order malloc malloc_scores malloc_states seed (n_batch p) (n_vocab p);
  Ok (mkGreedyCuda rng c (replicate (n_batch p) 0%Z) d).

Definition GreedyCuda_CheckForEOS (s : GreedySearch_Cuda rng) : outcome (GreedySearch_Cuda rng) :=
  let c := gc_cuda s in
  _ ← assert_ (length (gc_next_tokens_ s) =? length (eos_meet_ c));
  '(tokens, met, done) ← Launch_CheckForEOS order (length (gc_next_tokens_ s)) (gp_eos_token_id p) (gp_pad_token_id p)
    (gc_next_tokens_ s, eos_meet_ c, done_cpu_ c);
  Ok (mkGreedyCuda rng (set_cu_done done (set_eos_meet met c)) tokens (samplingdata_ s)).

Definition GreedyCuda_AppendNextTokensToSequences (s : GreedySearch_Cuda rng) : outcome (GreedySearch_Cuda rng) :=
  let c := gc_cuda s in
  q ← Sequences_Cuda_AppendNextTokenToSequences order (cu_sequences c) (gc_next_tokens_ s);
  let c := set_cu_sequences q c in
  Ok (mkGreedyCuda rng (if (Z.of_nat (cuda_length c) =? max_length (gp_search p))%Z then set_cu_done true c else c) (gc_next_tokens_ s) (samplingdata_ s)).

(* the four ways to choose differ in the arguments of [GetSample] *)
Definition sample_and_append (k : Z) (top_p temperature : f32) (s : GreedySearch_Cuda rng) : outcome (GreedySearch_Cuda rng) :=
  n ← int_nat (n_batch p * n_vocab p);
  scores ← subspan (cu_next_token_scores_ (gc_cuda s)) 0 n;
  if decide (n_batch p = 0) then Undef else (* division by zero *)
  '(d, tokens) ← GetSample curand_uniform order exp log fmaxf fminf inclusive_sum reduce SortPairs SortPairsDescending in_mis out_mis scores
    (length scores / n_batch p) (n_batch p) k top_p temperature (samplingdata_ s, gc_next_tokens_ s);
  s ← GreedyCuda_CheckForEOS (mkGreedyCuda rng (gc_cuda s) tokens d);
  GreedyCuda_AppendNextTokensToSequences s.

Definition GreedyCuda_SelectTop := sample_and_append 1 f0 f1.
Definition GreedyCuda_SampleTopP (top_p temperature : f32) := sample_and_append (-1) top_p temperature.
Definition GreedyCuda_SampleTopK (k : Z) (temperature : f32) := sample_and_append k f0 temperature.
Definition GreedyCuda_SampleTopKTopP (k : Z) (top_p temperature : f32) := sample_and_append k top_p temperature.

Definition GreedyCuda_IsDone (s : GreedySearch_Cuda rng) : bool := done_cpu_ (gc_cuda s).
End greedy.

(** ** The check for the end of sequence *)
(* whether an entry has ended, and what becomes of its token *)
Definition ends (eos : Z) (t : Z) (met : bool) : bool := (t =? eos)%Z || met.
Definition padded (eos pad : Z) (t : Z) (met : bool) : Z := if ends eos t met then pad else t.

Lemma first_open_ok met n : n <= length met -> ∃ i, first_open met n 0 = Ok i ∧ (i =? n) = forallb id (take n met).
Proof.
  intros Hn. assert (∀ m i, i + m <= length met -> ∃ j, first_open met m i = Ok j ∧ (j =? i + m) = forallb id (take m (drop i met))) as H.
  { induction m as [|m IH]; intros i Hi; cbn [first_open].
    - exists i. split; [done|]. rewrite Nat.add_0_r. apply Nat.eqb_refl.
    - destruct (lookup_lt_is_Some_2 met i) as [b Hb]; [lia|]. rewrite (get_Some _ _ _ Hb), bind_Ok, (drop_S _ _ _ Hb). cbn [take forallb id].
      destruct b; [|exists i; split; [done|]; cbn; apply Nat.eqb_neq; lia]. destruct (IH (S i) ltac:(lia)) as (j & E & Hj). exists j. split; [done|].
      by rewrite <- Nat.add_succ_comm. }
  destruct (H n 0 ltac:(lia)) as (i & E & Hi). by exists i.
Qed.

Lemma CheckForEOS_ok eos pad tokens met done : length tokens = length met ->
  CheckForEOS (length tokens) eos pad (tokens, met, done) =
    Ok (zip_with (padded eos pad) tokens met, zip_with (ends eos) tokens met,
        if forallb id (zip_with (ends eos) tokens met) then true else done).
Proof.
  intros Hl. unfold CheckForEOS. match goal with |- context [for_ _ ?b _] => set (body := b) end. set (n := length tokens) in *.
  destruct (for_inv (fun k '(ts, ms) => length ts = n ∧ length ms = n ∧ ∀ i t m, i < n -> tokens !! i = Some t -> met !! i = Some m ->
    ts !! i = Some (if decide (i < k) then padded eos pad t m else t) ∧ ms !! i = Some (if decide (i < k) then ends eos t m else m)) n body (tokens, met))
    as ([ts ms] & E & Lt & Lm & H).
  - split; [done|]. split; [done|]. intros i t m Hi Ht Hm. by rewrite !decide_False by lia.
  - intros k [ts ms] Hk (Lt & Lm & H). destruct (lookup_lt_is_Some_2 tokens k Hk) as [t Ht]. destruct (lookup_lt_is_Some_2 met k) as [m Hm]; [lia|].
    destruct (H k t m Hk Ht Hm) as [H1 H2]. rewrite decide_False in H1 by lia. rewrite decide_False in H2 by lia. unfold body. rewrite (get_Some _ _ _ H1), bind_Ok.
    assert ((if (t =? eos)%Z then Ok true else get ms k) = Ok (ends eos t m)) as -> by (unfold ends; destruct (t =? eos)%Z; [done|by rewrite (get_Some _ _ _ H2)]).
    rewrite bind_Ok.
    assert (∀ i t' m', i < n -> tokens !! i = Some t' -> met !! i = Some m' -> i ≠ k ->
      ts !! i = Some (if decide (i < S k) then padded eos pad t' m' else t') ∧ ms !! i = Some (if decide (i < S k) then ends eos t' m' else m')) as Hother.
    { intros i t' m' Hi Ht' Hm' Hne. rewrite !(decide_ext (i < S k) (i < k)) by lia. by apply H. }
    destruct (ends eos t m) eqn:Ee.
    + rewrite !put_lt, !bind_Ok by lia. eexists. split; [reflexivity|]. split; [by rewrite length_insert|]. split; [by rewrite length_insert|].
      intros i t' m' Hi Ht' Hm'. destruct (decide (i = k)) as [->|Hne].
      * rewrite !list_lookup_insert_eq, !decide_True by lia. unfold padded. replace t' with t by congruence. replace m' with m by congruence. by rewrite Ee.
      * rewrite !list_lookup_insert_ne by done. by apply Hother.
    + eexists. split; [reflexivity|]. split; [done|]. split; [done|]. intros i t' m' Hi Ht' Hm'. destruct (decide (i = k)) as [->|Hne]; [|by apply Hother].
      rewrite !decide_True by lia. replace t' with t by congruence. replace m' with m by congruence. unfold padded. rewrite Ee. split; [done|].
      unfold ends in Ee. apply orb_false_iff in Ee as [_ ->]. done.
  - rewrite E, bind_Ok.
    assert (ts = zip_with (padded eos pad) tokens met ∧ ms = zip_with (ends eos) tokens met) as [-> ->].
    { split; apply (list_eq_lt _ _ n); try (by rewrite ?length_zip_with; lia); intros i Hi; destruct (lookup_lt_is_Some_2 tokens i Hi) as [t Ht];
        destruct (lookup_lt_is_Some_2 met i) as [m Hm]; try lia; destruct (H i t m Hi Ht Hm) as [H1 H2];
        rewrite lookup_zip_with, Ht, Hm; rewrite ?H1, ?H2; by rewrite decide_True by done. }
    destruct (first_open_ok (zip_with (ends eos) tokens met) n ltac:(rewrite length_zip_with; lia)) as (i & E1 & E2). rewrite E1, bind_Ok, E2.
    by rewrite take_ge by (rewrite length_zip_with; lia).
Qed.

(** ** A step *)
Record greedy_cuda_ok {rng} (p : GeneratorParams) (s : GreedySearch_Cuda rng) : Prop := {
  gk_wf : wf (cu_sequences (gc_cuda s));
  gk_batch : batch_beam_size_ (cu_sequences (gc_cuda s)) = n_batch p;
  gk_max : max_length_ (cu_sequences (gc_cuda s)) = n_max p;
  gk_met : length (eos_meet_ (gc_cuda s)) = n_batch p;
  gk_tokens : length (gc_next_tokens_ s) = n_batch p;
  gk_room : roomy (n_batch p) (n_batch p * n_vocab p) (samplingdata_ s) }.

Record greedy_sizes (p : GeneratorParams) : Prop := {
  gz_batch : 0 < n_batch p <= 256;
  gz_max : (0 <= max_length (gp_search p))%Z;
  gz_scores : (Z.of_nat (n_batch p * n_vocab p) <= INT_MAX)%Z;
  gz_sequences : (Z.of_nat (n_batch p * n_max p + n_max p) <= INT_MAX)%Z }.

Section step.
Context (p : GeneratorParams) {rng : Type} (curand_uniform : rng -> f32 * rng).
Context (order : nat -> list nat) {Ho : Schedule order} (exp log : f32 -> f32) (fmaxf fminf : f32 -> f32 -> f32) {Hf : FMax fmaxf}.
Context (inclusive_sum : list f32 -> list f32) {Hs : BlockScan inclusive_sum}.
Context (reduce : (TopK -> TopK -> TopK) -> list TopK -> TopK) {Hr : BlockReduce reduce}.
Context (SortPairs SortPairsDescending : list f32 -> list f32 -> list Z -> list Z -> nat -> nat -> list Z -> list Z -> list f32 * list Z).
Context (in_mis out_mis k : nat) (top_p temperature : f32) (Hz : greedy_sizes p) (Hk : 0 < k <= 64) (Hkv : k < n_vocab p).

(* [v] is one of the [k] tokens of entry [b] with the best softmaxed scores, equal ones in the order of the tokens *)
Definition one_of_best (scores : list f32) (b v : nat) : Prop :=
  ∃ soft ix i, softmaxed exp (SoftmaxForwardEpilogue exp) temperature (CudaSoftmax.row (n_vocab p) scores b) soft ∧
    descending k soft ix ∧ ties_low k soft ix ∧ i < k ∧ ix !! i = Some v ∧ v < n_vocab p.

(** What a step makes of entry [b]. *)
Definition entry_step (s s' : GreedySearch_Cuda rng) (b : nat) : Prop :=
  ∃ met v, eos_meet_ (gc_cuda s) !! b = Some met ∧ one_of_best (cu_next_token_scores_ (gc_cuda s)) b v ∧
    let token := padded (gp_eos_token_id p) (gp_pad_token_id p) (Z.of_nat v) met in
    eos_meet_ (gc_cuda s') !! b = Some (ends (gp_eos_token_id p) (Z.of_nat v) met) ∧ gc_next_tokens_ s' !! b = Some token ∧
    Sequences.row (cu_sequences (gc_cuda s')) b = Sequences.row (cu_sequences (gc_cuda s)) b ++ [token].

Lemma sample_step s : greedy_cuda_ok p s -> cuda_length (gc_cuda s) < n_max p ->
  length (cu_next_token_scores_ (gc_cuda s)) = n_batch p * n_vocab p ->
  Forall (fun x => is_nan x = false) (cu_next_token_scores_ (gc_cuda s)) ->
  softmax_proper order exp log fmaxf in_mis out_mis (n_vocab p) (n_batch p) (cu_next_token_scores_ (gc_cuda s)) temperature (scores_softmaxed (samplingdata_ s)) ->
  ∃ s', sample_and_append p curand_uniform order exp log fmaxf fminf inclusive_sum reduce SortPairs SortPairsDescending in_mis out_mis
      (Z.of_nat k) top_p temperature s = Ok s' ∧ greedy_cuda_ok p s' ∧ cuda_length (gc_cuda s') = S (cuda_length (gc_cuda s)) ∧
    (∀ b, b < n_batch p -> entry_step s s' b) ∧
    GreedyCuda_IsDone s' = forallb id (eos_meet_ (gc_cuda s')) || (S (cuda_length (gc_cuda s)) =? n_max p) || GreedyCuda_IsDone s.
Proof.
  intros [K1 K2 K3 K4 K5 K6] Hlt Hsc Hnum Hp. destruct Hz as [Z1 Z2 Z3 Z4]. unfold sample_and_append.
  rewrite int_nat_ok, bind_Ok by lia. rewrite subspan_le, bind_Ok by lia. rewrite drop_0, take_ge by lia. rewrite decide_False by lia.
  assert (length (cu_next_token_scores_ (gc_cuda s)) / n_batch p = n_vocab p) as -> by (rewrite Hsc, Nat.mul_comm; apply Nat.div_mul; lia).
  destruct (GetSample_ok curand_uniform order exp log fmaxf fminf inclusive_sum reduce SortPairs SortPairsDescending in_mis out_mis (n_vocab p) (n_batch p)
    (cu_next_token_scores_ (gc_cuda s)) temperature Z1 Z3 Hsc Hnum k top_p Hk Hkv (samplingdata_ s) (gc_next_tokens_ s) K6 K5 Hp)
    as (d & tokens & -> & Hd & Lt & Hb). rewrite bind_Ok.
  unfold GreedyCuda_CheckForEOS. cbn [gc_cuda gc_next_tokens_ samplingdata_]. rewrite Lt, K4, Nat.eqb_refl. cbn [assert_]. rewrite bind_Ok.
  unfold Launch_CheckForEOS. rewrite (launch_single order).
  pose proof (CheckForEOS_ok (gp_eos_token_id p) (gp_pad_token_id p) tokens (eos_meet_ (gc_cuda s)) (done_cpu_ (gc_cuda s)) ltac:(lia)) as Hc.
  rewrite Lt in Hc. rewrite Hc, bind_Ok, bind_Ok.
  set (met := zip_with (ends _) _ _). set (next := zip_with (padded _ _) _ _).
  assert (length met = n_batch p) as Lmet by (unfold met; rewrite length_zip_with; lia).
  assert (length next = n_batch p) as Lnext by (unfold next; rewrite length_zip_with; lia).
  unfold GreedyCuda_AppendNextTokensToSequences. cbn [gc_cuda gc_next_tokens_ samplingdata_ set_cu_done set_eos_meet cu_sequences].
  pose proof K1 as [_ Hcur]. unfold cuda_length, GetSequenceLength in *.
  rewrite (append_cuda_greedy order) by (rewrite K2, K3; lia).
  assert (int_rows (batch_beam_size_ (cu_sequences (gc_cuda s))) (max_length_ (cu_sequences (gc_cuda s)))) as Hrows
    by (rewrite K2, K3; repeat split; nia).
  destruct (append_greedy_spec (cu_sequences (gc_cuda s)) next K1 Hrows ltac:(lia) ltac:(lia)) as (q & -> & Q1 & Q2 & Q3 & Q4 & Q5 & Q6). rewrite bind_Ok.
  eexists. split; [reflexivity|]. match goal with |- context [if ?c then set_cu_done true ?x else ?x] => set (full := c); set (c1 := x) end.
  assert (cu_sequences (if full then set_cu_done true c1 else c1) = q ∧ eos_meet_ (if full then set_cu_done true c1 else c1) = met) as [Hq Hm]
    by (destruct full; done).
  split; [split; cbn [gc_cuda gc_next_tokens_ samplingdata_]; rewrite ?Hq, ?Hm; try done; congruence|].
  cbn [gc_cuda]. rewrite Hq. split; [done|]. split.
  - intros b Hlb. destruct (lookup_lt_is_Some_2 (eos_meet_ (gc_cuda s)) b) as [m Hmb]; [lia|]. destruct (Hb b Hlb) as (H1 & H2 & _ & _ & token & Htok & Hsam).
    destruct Hd as (L1 & L2 & L3 & _). pose proof (row_bound b (n_batch p) (n_vocab p) Hlb). pose proof (row_bound b (n_batch p) k Hlb).
    assert (n_batch p * k <= n_batch p * n_vocab p) by (apply Nat.mul_le_mono_l; lia).
    destruct (sampled_best (n_vocab p) k b _ _ _ _ _ token H2 ltac:(apply length_window; lia) Hkv ltac:(lia) Hsam) as (ix & i & v & D1 & D2 & D3 & D4 & -> & D5).
    exists m, v. split; [done|]. split; [by eexists _, ix, i|]. cbn [gc_cuda gc_next_tokens_]. rewrite Hq, Hm. unfold met.
    assert (next !! b = Some (padded (gp_eos_token_id p) (gp_pad_token_id p) (Z.of_nat v) m)) as Hn by (unfold next; by rewrite lookup_zip_with, Htok, Hmb).
    split; [by rewrite lookup_zip_with, Htok, Hmb|]. split; [done|]. apply Q6; [lia|done].
  - unfold GreedyCuda_IsDone. cbn [gc_cuda]. rewrite Hm.
    assert (full = (S (current_length_ (cu_sequences (gc_cuda s))) =? n_max p)) as <-.
    { unfold full, c1, cuda_length, GetSequenceLength. cbn [cu_sequences set_cu_sequences]. rewrite Q5. unfold n_max.
      destruct (Z.eqb_spec (Z.of_nat (S (current_length_ (cu_sequences (gc_cuda s))))) (max_length (gp_search p))),
        (Nat.eqb_spec (S (current_length_ (cu_sequences (gc_cuda s)))) (Z.to_nat (max_length (gp_search p)))); done || lia. }
    destruct full; cbn [set_cu_done set_cu_sequences done_cpu_ c1]; [by rewrite orb_true_r|]. rewrite orb_false_r. unfold c1. cbn. by destruct (forallb id met).
Qed.
End step.

(** ** Construction *)
Lemma InitCurandStates_launch {rng : Type} (curand_init : Z -> Z -> Z -> rng) (order : nat -> list nat) (seed : Z) (bs : nat) (states : list rng) :
  Schedule order -> (Z.of_nat bs + 128 <= INT_MAX)%Z -> length states = bs ->
  launch_128 order bs (InitCurandStates curand_init seed (Z.of_nat bs)) states = Ok (map (fun i => curand_init seed (Z.of_nat i) 0%Z) (seq 0 bs)).
Proof.
  intros Ho Hbs Hl. unfold launch_128.
  assert (bs < (bs / 128 + 1) * 128 ∧ (bs / 128 + 1) * 128 <= bs + 128) as [H1 H2].
  { pose proof (Nat.div_mod_eq bs 128). pose proof (Nat.mod_upper_bound bs 128 ltac:(lia)). set (q := bs / 128) in *. clearbody q. lia. }
  assert (Z.of_nat ((bs / 128 + 1) * 128) = Z.of_nat (bs / 128 + 1) * 128)%Z as Hg by lia. set (g := bs / 128 + 1) in *. clearbody g.
  destruct (launch_inv (fun l (st : list rng) => length st = bs ∧ ∀ i, i < bs -> i ∈ l -> st !! i = Some (curand_init seed (Z.of_nat i) 0%Z)) order
    (InitCurandStates curand_init seed (Z.of_nat bs)) bs) with (grid := Z.of_nat g) (block := 128%Z) (m := states) as (st & -> & Lst & Hst).
  - intros l l' m Hp [L H]. split; [done|]. intros i Hi Hin. apply H; [done|]. by rewrite Hp.
  - intros l i m Hi Hni [L H]. unfold InitCurandStates. rewrite (proj2 (Z.leb_gt _ _)), putZ_put, Nat2Z.id, put_lt by lia.
    eexists. split; [reflexivity|]. split; [by rewrite length_insert|]. intros j Hj Hin. destruct (decide (j = i)) as [->|Hne].
    + by rewrite list_lookup_insert_eq by lia.
    + rewrite list_lookup_insert_ne by done. apply H; [done|]. apply elem_of_app in Hin as [?|?%list_elem_of_singleton]; done.
  - lia.
  - unfold max_threads_per_block. lia.
  - unfold INT_MAX in *. lia.
  - intros i m Hi _. unfold InitCurandStates. by rewrite (proj2 (Z.leb_le _ _)) by lia.
  - split; [done|]. intros i _ Hin. by apply not_elem_of_nil in Hin.
  - f_equal. apply (list_eq_lt _ _ bs); [done|by rewrite length_map, length_seq|]. intros i Hi. rewrite Hst by (done || apply elem_of_seq; lia).
    by rewrite list_lookup_fmap, lookup_seq_lt.
Qed.

Lemma GreedySearch_Cuda_new_ok (p : GeneratorParams) {rng : Type} (curand_init : Z -> Z -> Z -> rng) (random_device : Z) (order : nat -> list nat)
    (malloc : nat -> list Z) (malloc_scores : nat -> list f32) (malloc_states : nat -> list rng) (cur : nat) :
  Schedule order -> DeviceMalloc malloc -> DeviceMalloc malloc_scores -> DeviceMalloc malloc_states -> greedy_sizes p -> n_beams p = 1 ->
  BatchBeamSize p = Ok (Z.of_nat (n_batch p)) -> length (prompt p) = n_batch p * cur -> cur <= n_max p ->
  ∃ s, GreedySearch_Cuda_new p curand_init random_device order malloc malloc_scores malloc_states = Ok s ∧ greedy_cuda_ok p s ∧
    cuda_length (gc_cuda s) = cur ∧ eos_meet_ (gc_cuda s) = replicate (n_batch p) false ∧ GreedyCuda_IsDone s = false ∧
    rows (cu_sequences (gc_cuda s)) = expand_input (prompt p) (n_batch p) 1.
Proof.
  intros Ho M1 M2 M3 [Z1 Z2 Z3 Z4] Hbeams Hbb Hp Hc.
  destruct (Search_Cuda_new_rows p order malloc cur Ho M1 ltac:(lia) ltac:(lia) Hp Hc) as (c & E & C1 & _ & C3 & C4 & C5 & C6 & C7 & C8);
    [by rewrite Hbeams, Nat.mul_1_r|rewrite Hbeams, Nat.mul_1_r; unfold INT_MAX; lia|rewrite Hbeams, Nat.mul_1_r; lia|].
  rewrite Hbeams in C4, C6, C7. rewrite Nat.mul_1_r in C4, C7.
  unfold GreedySearch_Cuda_new. rewrite E, bind_Ok. cbv zeta. unfold SamplingData_new.
  rewrite (int_nat_ok (n_vocab p * n_batch p)), bind_Ok, int_nat_ok, bind_Ok by (unfold INT_MAX in *; lia).
  rewrite InitCurandStates_launch, bind_Ok by (done || apply malloc_length || (unfold INT_MAX; lia)). rewrite bind_Ok.
  eexists. split; [reflexivity|]. split; [|done]. split; cbn [gc_cuda gc_next_tokens_ samplingdata_]; try done.
  - by rewrite C7, length_replicate.
  - apply length_replicate.
  - repeat split; cbn; rewrite ?malloc_length; try lia. by rewrite length_map, length_seq.
Qed.

(** ** A run *)
Section run.
Context (p : GeneratorParams) {rng : Type} (curand_uniform : rng -> f32 * rng).
Context (order : nat -> list nat) {Ho : Schedule order} (exp log : f32 -> f32) (fmaxf fminf : f32 -> f32 -> f32) {Hf : FMax fmaxf}.
Context (inclusive_sum : list f32 -> list f32) {Hs : BlockScan inclusive_sum}.
Context (reduce : (TopK -> TopK -> TopK) -> list TopK -> TopK) {Hr : BlockReduce reduce}.
Context (SortPairs SortPairsDescending : list f32 -> list f32 -> list Z -> list Z -> nat -> nat -> list Z -> list Z -> list f32 * list Z).
Context (in_mis out_mis : nat).

Definition with_logits (logits : list f32) (s : GreedySearch_Cuda rng) : GreedySearch_Cuda rng :=
  mkGreedyCuda rng (Cuda_SetLogits logits (gc_cuda s)) (gc_next_tokens_ s) (samplingdata_ s).

(* SetLogits and SelectTop, once for each of the logits *)
Definition select_all (ls : list (list f32)) (s : GreedySearch_Cuda rng) : outcome (GreedySearch_Cuda rng) :=
  for_each (fun logits s => GreedyCuda_SelectTop p curand_uniform order exp log fmaxf fminf inclusive_sum reduce SortPairs SortPairsDescending
    in_mis out_mis (with_logits logits s)) ls s.

(* logits whose softmax keeps every token in the race *)
Definition usable (logits : list f32) : Prop :=
  length logits = n_batch p * n_vocab p ∧ Forall (fun x => is_nan x = false) logits ∧
  ∀ buffer, length buffer = n_batch p * n_vocab p -> softmax_proper order exp log fmaxf in_mis out_mis (n_vocab p) (n_batch p) logits f1 buffer.

(* what [n] steps have appended to an entry, and whether it has ended *)
Definition continued (n : nat) (new : list Z) (met : bool) : Prop :=
  ∃ vs pads, new = map Z.of_nat vs ++ replicate pads (gp_pad_token_id p) ∧ length vs + pads = n ∧ met = (0 <? pads) ∧
    Forall (fun v => v < n_vocab p ∧ Z.of_nat v ≠ gp_eos_token_id p) vs.

Lemma continued_next n new met v : continued n new met -> v < n_vocab p ->
  continued (S n) (new ++ [padded (gp_eos_token_id p) (gp_pad_token_id p) (Z.of_nat v) met]) (ends (gp_eos_token_id p) (Z.of_nat v) met).
Proof.
  intros (vs & pads & -> & <- & -> & Hvs) Hv. unfold padded, ends.
  destruct (Z.eqb_spec (Z.of_nat v) (gp_eos_token_id p)) as [He|He], (Nat.ltb_spec 0 pads) as [Hp|Hp]; cbn [orb];
    try (exists vs, (S pads); split; [by rewrite replicate_S_end, <- app_assoc|split; [lia|split; done]]).
  replace pads with 0 by lia. exists (vs ++ [v]), 0. rewrite map_app, length_app, !app_nil_r. split; [done|]. split; [cbn; lia|]. split; [done|].
  apply Forall_app. split; [done|]. by constructor.
Qed.

Lemma select_all_ok ls : greedy_sizes p -> 1 < n_vocab p -> Forall usable ls -> ∀ s n (olds news : nat -> list Z), greedy_cuda_ok p s ->
  cuda_length (gc_cuda s) + length ls <= n_max p ->
  (∀ b, b < n_batch p -> ∃ met, eos_meet_ (gc_cuda s) !! b = Some met ∧ continued n (news b) met ∧
     Sequences.row (cu_sequences (gc_cuda s)) b = olds b ++ news b) ->
  GreedyCuda_IsDone s = forallb id (eos_meet_ (gc_cuda s)) || (cuda_length (gc_cuda s) =? n_max p) ->
  ∃ s', select_all ls s = Ok s' ∧ greedy_cuda_ok p s' ∧ cuda_length (gc_cuda s') = cuda_length (gc_cuda s) + length ls ∧
    (∀ b, b < n_batch p -> ∃ met new, eos_meet_ (gc_cuda s') !! b = Some met ∧ continued (n + length ls) new met ∧
       Sequences.row (cu_sequences (gc_cuda s')) b = olds b ++ new) ∧
    GreedyCuda_IsDone s' = forallb id (eos_meet_ (gc_cuda s')) || (cuda_length (gc_cuda s') =? n_max p).
Proof.
  intros Hz Hv. induction 1 as [|l ls (Hl & Hnum & Hprop) _ IH]; intros s n olds news Hok Hlen Hb Hdone.
  - exists s. rewrite !Nat.add_0_r. split; [done|]. split; [done|]. split; [done|]. split; [|done]. intros b Hlt. destruct (Hb b Hlt) as (met & ? & ? & ?).
    by exists met, (news b).
  - cbn [length] in *. unfold select_all. rewrite for_each_cons.
    destruct (sample_step p curand_uniform order exp log fmaxf fminf inclusive_sum reduce SortPairs SortPairsDescending in_mis out_mis 1 f0 f1 Hz
      ltac:(lia) Hv (with_logits l s)) as (s1 & E & Hok1 & Hlen1 & Hstep & Hdone1).
    + by destruct Hok as [K1 K2 K3 K4 K5 K6]; split.
    + change (cuda_length (gc_cuda (with_logits l s))) with (cuda_length (gc_cuda s)). lia.
    + exact Hl.
    + exact Hnum.
    + apply Hprop. apply (gk_room _ _ Hok).
    + change (Z.of_nat 1) with 1%Z in E. unfold GreedyCuda_SelectTop. rewrite E, bind_Ok. change (cuda_length (gc_cuda (with_logits l s))) with (cuda_length (gc_cuda s)) in *.
      assert (∃ news', ∀ b, b < n_batch p -> ∃ met, eos_meet_ (gc_cuda s1) !! b = Some met ∧ continued (S n) (news' b) met ∧
        Sequences.row (cu_sequences (gc_cuda s1)) b = olds b ++ news' b) as (news' & Hnews).
      { apply (choose_upto (fun b new => ∃ met, eos_meet_ (gc_cuda s1) !! b = Some met ∧ continued (S n) new met ∧
          Sequences.row (cu_sequences (gc_cuda s1)) b = olds b ++ new) []). intros b Hlt.
        destruct (Hb b Hlt) as (m & Hm & Hc & Hrow). destruct (Hstep b Hlt) as (m' & v & Hm' & (_ & _ & _ & _ & _ & _ & _ & _ & Hvv) & S1 & _ & S3).
        cbn [with_logits gc_cuda Cuda_SetLogits set_cu_scores eos_meet_ cu_sequences] in *. assert (m' = m) as -> by congruence.
        eexists _, _. split; [exact S1|]. split; [by apply continued_next|]. by rewrite S3, Hrow, <- app_assoc. }
      destruct (IH s1 (S n) olds news' Hok1 ltac:(lia) Hnews) as (s' & E' & H1 & H2 & H3 & H4).
      { rewrite Hdone1, Hlen1. destruct (Nat.eqb_spec (S (cuda_length (gc_cuda s))) (n_max p)) as [He|He]; [by rewrite !orb_true_r|].
        rewrite !orb_false_r. change (GreedyCuda_IsDone (with_logits l s)) with (GreedyCuda_IsDone s). rewrite Hdone.
        rewrite (proj2 (Nat.eqb_neq (cuda_length (gc_cuda s)) (n_max p))) by lia. rewrite orb_false_r.
        destruct (forallb id (eos_meet_ (gc_cuda s))) eqn:Ea; [|apply orb_false_r]. rewrite orb_true_r. symmetry.
        apply forallb_forall. intros x [b Hx]%list_elem_of_In%list_elem_of_lookup. assert (b < n_batch p) as Hlt by (rewrite <- (gk_met _ _ Hok1); by eapply lookup_lt_Some).
        destruct (Hstep b Hlt) as (m & v & Hm & _ & S1 & _). rewrite S1 in Hx. injection Hx as <-.
        assert (m = true) as ->; [|by unfold ends; rewrite orb_true_r].
        apply (proj1 (forallb_forall id _) Ea m). apply list_elem_of_In, list_elem_of_lookup. by exists b. }
      exists s'. split; [exact E'|]. split; [done|]. split; [lia|]. split; [|done].
      intros b Hlt. destruct (H3 b Hlt) as (met & new & M1 & M2 & M3). exists met, new. split; [done|]. split; [|done]. by rewrite Nat.add_succ_r.
Qed.
End run.

(** A step of sampling on the device with a limit [k]: every entry is drawn one
    of the [k] tokens with the best softmaxed scores; an entry that has ended, or
    draws the end of sequence, gets the padding token in its place; the search is
    done when every entry has ended or the maximum length is reached. *)
Theorem GreedyCuda_step_spec (p : GeneratorParams) {rng : Type} (curand_uniform : rng -> f32 * rng) (order : nat -> list nat)
    (exp log : f32 -> f32) (fmaxf fminf : f32 -> f32 -> f32) (inclusive_sum : list f32 -> list f32) (reduce : (TopK -> TopK -> TopK) -> list TopK -> TopK)
    (SortPairs SortPairsDescending : list f32 -> list f32 -> list Z -> list Z -> nat -> nat -> list Z -> list Z -> list f32 * list Z)
    (in_mis out_mis k : nat) (top_p temperature : f32) (s : GreedySearch_Cuda rng) :
  Schedule order -> FMax fmaxf -> BlockScan inclusive_sum -> BlockReduce reduce -> greedy_sizes p -> 0 < k <= 64 -> k < n_vocab p ->
  greedy_cuda_ok p s -> cuda_length (gc_cuda s) < n_max p -> length (cu_next_token_scores_ (gc_cuda s)) = n_batch p * n_vocab p ->
  Forall (fun x => is_nan x = false) (cu_next_token_scores_ (gc_cuda s)) ->
  softmax_proper order exp log fmaxf in_mis out_mis (n_vocab p) (n_batch p) (cu_next_token_scores_ (gc_cuda s)) temperature (scores_softmaxed (samplingdata_ s)) ->
  ∃ s', GreedyCuda_SampleTopKTopP p curand_uniform order exp log fmaxf fminf inclusive_sum reduce SortPairs SortPairsDescending in_mis out_mis
      (Z.of_nat k) top_p temperature s = Ok s' ∧ greedy_cuda_ok p s' ∧ cuda_length (gc_cuda s') = S (cuda_length (gc_cuda s)) ∧
    (∀ b, b < n_batch p -> entry_step p exp k temperature s s' b) ∧
    GreedyCuda_IsDone s' = forallb id (eos_meet_ (gc_cuda s')) || (S (cuda_length (gc_cuda s)) =? n_max p) || GreedyCuda_IsDone s.
Proof. intros. by apply sample_step. Qed.

(** C18: A greedy run on the device: from a fresh search, any number of steps up to
    the maximum length returns; every entry is its prompt followed by tokens of the
    vocabulary none of which is the end of sequence, and then, once it has ended,
    padding only; the search is done exactly when all have ended or the sequences
    are full. *)
Theorem GreedyCuda_runs_spec (p : GeneratorParams) {rng : Type} (curand_uniform : rng -> f32 * rng) (order : nat -> list nat)
    (exp log : f32 -> f32) (fmaxf fminf : f32 -> f32 -> f32) (inclusive_sum : list f32 -> list f32) (reduce : (TopK -> TopK -> TopK) -> list TopK -> TopK)
    (SortPairs SortPairsDescending : list f32 -> list f32 -> list Z -> list Z -> nat -> nat -> list Z -> list Z -> list f32 * list Z)
    (in_mis out_mis : nat) (ls : list (list f32)) (s : GreedySearch_Cuda rng) :
  Schedule order -> FMax fmaxf -> BlockScan inclusive_sum -> BlockReduce reduce -> greedy_sizes p -> 1 < n_vocab p ->
  greedy_cuda_ok p s -> eos_meet_ (gc_cuda s) = replicate (n_batch p) false -> GreedyCuda_IsDone s = false ->
  cuda_length (gc_cuda s) < n_max p -> cuda_length (gc_cuda s) + length ls <= n_max p ->
  Forall (usable p order exp log fmaxf in_mis out_mis) ls ->
  ∃ s', select_all p curand_uniform order exp log fmaxf fminf inclusive_sum reduce SortPairs SortPairsDescending in_mis out_mis ls s = Ok s' ∧
    greedy_cuda_ok p s' ∧ cuda_length (gc_cuda s') = cuda_length (gc_cuda s) + length ls ∧
    (∀ b, b < n_batch p -> ∃ met new, eos_meet_ (gc_cuda s') !! b = Some met ∧ continued p (length ls) new met ∧
       Sequences.row (cu_sequences (gc_cuda s')) b = Sequences.row (cu_sequences (gc_cuda s)) b ++ new) ∧
    GreedyCuda_IsDone s' = forallb id (eos_meet_ (gc_cuda s')) || (cuda_length (gc_cuda s') =? n_max p).
Proof.
  intros Ho Hf Hs Hr Hz Hv Hok Hmet Hdone Hlt Hlen Hls.
  apply (select_all_ok p curand_uniform order exp log fmaxf fminf inclusive_sum reduce SortPairs SortPairsDescending in_mis out_mis ls Hz Hv Hls s 0
    (fun b => Sequences.row (cu_sequences (gc_cuda s)) b) (fun _ => [])); [done|done| |].
  - intros b Hb. exists false. rewrite Hmet, lookup_replicate_2, app_nil_r by done. split; [done|]. split; [|done].
    exists [], 0. by repeat split.
  - rewrite Hdone, Hmet, (proj2 (Nat.eqb_neq _ _)) by lia. pose proof (gz_batch _ Hz). destruct (n_batch p); [lia|done].
Qed.

(** ** A concrete run: one prompt, three tokens, an exponential that keeps them all *)
Module Examples.
Import Cuda.Examples CudaTopK.Examples CudaSearch.Examples CudaSampling.Examples.

Definition greedy_p : GeneratorParams := mkParams Search.Examples.ex_search 9 1 3 5 1 0 false 1 0 Tensors.CUDA [2]%Z [] false.
Definition draw_one (s : unit) : f32 * unit := (f1, s).
Definition keep (a : list f32) (b : list f32) (c d : list Z) (n m : nat) (e f : list Z) : list f32 * list Z := (b, d).
Definition greedy_new : outcome (GreedySearch_Cuda unit) :=
  GreedySearch_Cuda_new greedy_p (fun _ _ _ => tt) 0 backwards sevens stale_scores (fun n => replicate n tt).

Lemma greedy_p_sizes : greedy_sizes greedy_p.
Proof. split; [change (n_batch greedy_p) with 1; lia|vm_compute; discriminate..]. Qed.

Lemma greedy_start : ∃ s, greedy_new = Ok s ∧ greedy_cuda_ok greedy_p s ∧ cuda_length (gc_cuda s) = 1 ∧
  eos_meet_ (gc_cuda s) = replicate (n_batch greedy_p) false ∧ GreedyCuda_IsDone s = false.
Proof.
  destruct (GreedySearch_Cuda_new_ok greedy_p (fun _ _ _ => tt) 0 backwards sevens stale_scores (fun n => replicate n tt) 1) as (s & E & H1 & H2 & H3 & H4 & _);
    [apply _|apply _|apply _|intros n; apply length_replicate|exact greedy_p_sizes|reflexivity|reflexivity|reflexivity|vm_compute; lia|].
  exists s. split; [exact E|]. split; [exact H1|]. split; [exact H2|]. split; [exact H3|exact H4].
Qed.

(* a sum of at most three ones is their number *)
Lemma sum_of_ones l v : reduction (fun a b c => c = fadd a b) f0 l v -> Forall (fun x => x = f1) l -> length l <= 3 -> v = f32_of_Z (Z.of_nat (length l)).
Proof.
  induction 1 as [|x|l1 l2 a b c _ IH1 _ IH2 HR|l l' a Hp _ IH]; intros Hl Hlen.
  - reflexivity.
  - by apply Forall_inv in Hl.
  - apply Forall_app in Hl as [Hl1 Hl2]. rewrite length_app in *. specialize (IH1 Hl1 ltac:(lia)). specialize (IH2 Hl2 ltac:(lia)). subst a b c.
    destruct (length l1) as [|[|[|[|n1]]]], (length l2) as [|[|[|[|n2]]]]; try lia; reflexivity.
  - rewrite <- Hp in Hl |- *. apply IH; [done|]. by rewrite Hp.
Qed.

Lemma three_usable : usable greedy_p backwards flat_exp flat_exp Max 0 0 three_scores.
Proof.
  split; [reflexivity|]. split; [repeat constructor|]. intros buffer Hb soft E.
  destruct (Dispatch_rows backwards flat_exp flat_exp Max (Hf := Max_max) false three_scores 3 1 f1 0 0 buffer) as (out & E' & Hl & Hrow);
    [lia|unfold INT_MAX; lia|unfold INT_MAX; lia|lia|reflexivity|exact Hb|repeat constructor|].
  assert (soft = out) as ->.
  { change (n_vocab greedy_p) with 3 in E. change (n_batch greedy_p) with 1 in E. rewrite E' in E. by injection E. }
  destruct (Hrow 0 ltac:(lia)) as (m & sum & _ & Hsum & Hout). unfold CudaSoftmax.row in Hout. cbn [Nat.mul] in Hout. rewrite drop_0, take_ge in Hout by lia.
  apply sum_of_ones in Hsum; [|repeat constructor|simpl; lia]. subst sum. rewrite Hout. repeat (constructor; [reflexivity|]). constructor.
Qed.

Lemma GreedyCuda_runs_spec_witness : ∃ s s', greedy_new = Ok s ∧
  select_all greedy_p draw_one backwards flat_exp flat_exp Max Max running_sums fold_reduce keep keep 0 0 [three_scores; three_scores] s = Ok s' ∧
  cuda_length (gc_cuda s') = 3.
Proof.
  destruct greedy_start as (s & E & H1 & H2 & H3 & H4). exists s.
  destruct (GreedyCuda_runs_spec greedy_p draw_one backwards flat_exp flat_exp Max Max running_sums fold_reduce keep keep 0 0 [three_scores; three_scores] s)
    as (s' & E' & _ & Hlen & _); [apply _|exact Max_max|apply _|apply _|exact greedy_p_sizes|change (n_vocab greedy_p) with 3; lia|exact H1|exact H3|exact H4
    |rewrite H2; change (n_max greedy_p) with 5; lia|rewrite H2; change (n_max greedy_p) with 5; simpl; lia| |].
  - constructor; [exact three_usable|]. constructor; [exact three_usable|constructor].
  - exists s'. split; [exact E|]. split; [exact E'|]. rewrite Hlen, H2. reflexivity.
Defined.

Lemma GreedyCuda_step_spec_witness : ∃ s s', greedy_new = Ok s ∧
  GreedyCuda_SampleTopKTopP greedy_p draw_one backwards flat_exp flat_exp Max Max running_sums fold_reduce keep keep 0 0 2 f0 f1 (with_logits three_scores s)
    = Ok s' ∧ cuda_length (gc_cuda s') = 2.
Proof.
  destruct greedy_start as (s & E & H1 & H2 & H3 & H4). exists s. destruct three_usable as (U1 & U2 & U3).
  destruct (GreedyCuda_step_spec greedy_p draw_one backwards flat_exp flat_exp Max Max running_sums fold_reduce keep keep 0 0 2 f0 f1 (with_logits three_scores s))
    as (s' & E' & _ & Hlen & _); [apply _|exact Max_max|apply _|apply _|exact greedy_p_sizes|lia|change (n_vocab greedy_p) with 3; lia| | |exact U1|exact U2| |].
  - destruct H1 as [K1 K2 K3 K4 K5 K6]. split; assumption.
  - change (cuda_length (gc_cuda (with_logits three_scores s))) with (cuda_length (gc_cuda s)). rewrite H2. change (n_max greedy_p) with 5. lia.
  - apply U3. apply (gk_room _ _ H1).
  - exists s'. split; [exact E|]. split; [exact E'|]. rewrite Hlen. change (cuda_length (gc_cuda (with_logits three_scores s))) with (cuda_length (gc_cuda s)).
    rewrite H2. reflexivity.
Defined.
End Examples.
