(* ===== verification/DmlQueue.v ===== *)
(** * DirectML: the device and its queue (src/dml/dml_gpu_event.h,
    dml_command_queue.h and .cpp, dml_command_allocator_ring.h)

    A device runs what was submitted to it in order and at its own pace:
    [progress] says how many submissions it completes before the next time the
    fence is read, and the theorems hold for any.  What a command does to
    memory is Direct3D's, the parameter [exec] with the law [Device].  There is
    one fence, the queue's, so an event is the value it waits for.  Calls of
    Direct3D succeed; a wait for a value that nothing submitted will signal
    never ends, and is [Undef]. *)
From Stdlib Require Import ZArith Lia.
From stdpp Require Import base numbers list gmap.
From S2P Require Import Prelude.
Local Open Scope Z_scope.

(** ** The device of Direct3D *)

(* a buffer: ID3D12Resource *)
Record resource : Type := mkResource { Width : Z; bytes : Z -> Z }.
Notation memory := (gmap nat resource).

(* D3D12_RESOURCE_BARRIER *)
Inductive barrier : Type :=
  | Transition (r : nat) (StateBefore StateAfter : Z)
  | UAV.

(* DML_BUFFER_BINDING, DML_BINDING_DESC *)
Record DML_BUFFER_BINDING : Type := mkBinding { Buffer : nat; Offset : Z; SizeInBytes : Z }.
Inductive DML_BINDING_DESC : Type :=
  | BINDING_NONE
  | BINDING_BUFFER (b : DML_BUFFER_BINDING)
  | BINDING_BUFFER_ARRAY (l : list DML_BUFFER_BINDING).

(* a contiguous range of descriptors *)
Record DmlDescriptorRange : Type := mkRange { r_heap : nat; cpuHandle : Z; gpuHandle : Z }.

(* a dispatchable with its binding table *)
Record dispatch : Type := mkDispatch {
  d_dispatchable : nat;
  d_range : DmlDescriptorRange;
  d_size : Z;                                  (* SizeInDescriptors *)
  d_temporary : DML_BINDING_DESC;
  d_persistent : DML_BINDING_DESC;
  d_inputs : list DML_BINDING_DESC;
  d_outputs : list DML_BINDING_DESC }.

(* the commands of a list; [External] are those of a caller's own list *)
Inductive command : Type :=
  | Copy (dst : nat) (dst_offset : Z) (src : nat) (src_offset byte_count : Z)
  | Barriers (l : list barrier)
  | DescriptorHeaps (h : nat)
  | Dispatch (d : dispatch)
  | External (id : nat) (uses : list nat).

(* the buffers a command can read or write *)
Definition binding_buffers (b : DML_BINDING_DESC) : list nat :=
  match b with
  | BINDING_NONE => []
  | BINDING_BUFFER b => [Buffer b]
  | BINDING_BUFFER_ARRAY l => map Buffer l
  end.
Definition touches (c : command) : list nat :=
  match c with
  | Copy d _ s _ _ => [d; s]
  | Barriers _ | DescriptorHeaps _ => []
  | Dispatch d => binding_buffers (d_temporary d) ++ binding_buffers (d_persistent d)
                  ++ concat (map binding_buffers (d_inputs d)) ++ concat (map binding_buffers (d_outputs d))
  | External _ uses => uses
  end.

Definition copied (rd rs : resource) (dst_offset src_offset n : Z) : resource :=
  mkResource (Width rd) (fun i =>
    if (dst_offset <=? i) && (i <? dst_offset + n) then bytes rs (src_offset + (i - dst_offset)) else bytes rd i).

Class Device (exec : command -> memory -> memory) : Prop := {
  exec_copy m d doff s soff n rd rs :
    m !! d = Some rd -> m !! s = Some rs -> d ≠ s -> 0 <= n ->
    0 <= doff -> doff + n <= Width rd -> 0 <= soff -> soff + n <= Width rs ->
    exec (Copy d doff s soff n) m = <[d := copied rd rs doff soff n]> m;
  exec_barriers l m : exec (Barriers l) m = m;
  exec_heaps h m : exec (DescriptorHeaps h) m = m;
  exec_range id r r' n t p i o m :
    exec (Dispatch (mkDispatch id r n t p i o)) m = exec (Dispatch (mkDispatch id r' n t p i o)) m;
  exec_frame c m r : r ∉ touches c -> exec c m !! r = m !! r;
  exec_insert c m r v : r ∉ touches c -> exec c (<[r := v]> m) = <[r := v]> (exec c m);
  exec_width c m r b : m !! r = Some b -> ∃ b', exec c m !! r = Some b' ∧ Width b' = Width b }.

(* a command list and the allocator of the ring its commands are in; a caller's list has its own *)
Record command_list : Type := mkList { l_allocator : option nat; l_commands : list command }.

Record device : Type := mkDevice {
  completed : Z;                               (* the value of the fence *)
  pending : list (Z * list command_list);      (* what was submitted, with the value signaled after it *)
  dev_memory : memory;
  polls : nat }.

Section device.
Context (exec : command -> memory -> memory) (progress : nat -> nat).

Definition run_commands (l : list command) (m : memory) : memory := fold_left (fun m c => exec c m) l m.
Definition run_lists (ls : list command_list) (m : memory) : memory :=
  fold_left (fun m l => run_commands (l_commands l) m) ls m.

(* the device completes the next submission *)
Definition complete_one (g : device) : device :=
  match pending g with
  | [] => g
  | (f, ls) :: p => mkDevice f p (run_lists ls (dev_memory g)) (polls g)
  end.
Definition advance (n : nat) (g : device) : device := Nat.iter n complete_one g.

(* ID3D12Fence::GetCompletedValue: the device may have gone on *)
Definition GetCompletedValue (g : device) : Z * device :=
  let g := advance (progress (polls g)) g in
  (completed g, mkDevice (completed g) (pending g) (dev_memory g) (S (polls g))).

(** ** Events (dml_gpu_event.h) *)

Record DmlGpuEvent : Type := mkEvent { fence_value : Z }.

Definition IsSignaled (e : DmlGpuEvent) (g : device) : bool * device :=
  let '(v, g) := GetCompletedValue g in (fence_value e <=? v, g).

(* the submissions that complete until the fence is at least [v] *)
Fixpoint complete_until (v c : Z) (p : list (Z * list command_list)) (m : memory) : outcome (Z * list (Z * list command_list) * memory) :=
  if v <=? c then Ok (c, p, m)
  else match p with
       | [] => Undef
       | (f, ls) :: p => complete_until v f p (run_lists ls m)
       end.

Definition WaitForSignal (e : DmlGpuEvent) (g : device) : outcome device :=
  let '(b, g) := IsSignaled e g in
  if b then Ok g
  else '(c, p, m) ← complete_until (fence_value e) (completed g) (pending g) (dev_memory g);
       Ok (GetCompletedValue (mkDevice c p m (polls g))).2.

(** ** The command queue (dml_command_queue.h and .cpp) *)

Record DmlCommandQueue : Type := mkQueue {
  queued_references_ : list (Z * nat);         (* QueuedReference: fence_value, object *)
  last_fence_value_ : Z;
  closing_ : bool }.

Definition DmlCommandQueue_new : DmlCommandQueue := mkQueue [] 0 false.

Definition ExecuteCommandLists (command_lists : list command_list) (q : DmlCommandQueue) (g : device) : DmlCommandQueue * device :=
  let last := last_fence_value_ q + 1 in
  (mkQueue (queued_references_ q) last (closing_ q),
   mkDevice (completed g) (pending g ++ [(last, command_lists)]) (dev_memory g) (polls g)).

(* the queue's Wait: the device goes on once another fence is signaled, at a time of its own *)
Definition Queue_Wait (q : DmlCommandQueue) (g : device) : DmlCommandQueue * device := ExecuteCommandLists [] q g.

Definition Queue_GetCurrentCompletionEvent (q : DmlCommandQueue) : DmlGpuEvent := mkEvent (last_fence_value_ q).
Definition GetNextCompletionEvent (q : DmlCommandQueue) : DmlGpuEvent := mkEvent (last_fence_value_ q + 1).

Definition Queue_QueueReference (object : nat) (wait_for_unsubmitted_work : bool) (q : DmlCommandQueue) : DmlCommandQueue :=
  if closing_ q then q
  else let v := last_fence_value_ q in
       let v := if wait_for_unsubmitted_work then v + 1 else v in
       mkQueue (queued_references_ q ++ [(v, object)]) (last_fence_value_ q) (closing_ q).

Fixpoint drop_completed (v : Z) (l : list (Z * nat)) : list (Z * nat) :=
  match l with
  | (f, o) :: l' => if f <=? v then drop_completed v l' else l
  | [] => []
  end.
Definition Queue_ReleaseCompletedReferences (q : DmlCommandQueue) (g : device) : DmlCommandQueue * device :=
  let '(v, g) := GetCompletedValue g in
  (mkQueue (drop_completed v (queued_references_ q)) (last_fence_value_ q) (closing_ q), g).

Definition Queue_Close (q : DmlCommandQueue) (g : device) : outcome (DmlCommandQueue * device) :=
  _ ← assert_ (negb (closing_ q));
  g ← WaitForSignal (Queue_GetCurrentCompletionEvent q) g;
  Ok (mkQueue [] (last_fence_value_ q) false, g).

(** ** The ring of command allocators (dml_command_allocator_ring.h) *)

Record DmlCommandAllocatorRing : Type := mkRing {
  completion_events : list DmlGpuEvent;        (* of command_allocators_ *)
  current_command_allocator_ : nat }.

Definition DmlCommandAllocatorRing_new (AllocatorCount : nat) (initialEvent : DmlGpuEvent) : DmlCommandAllocatorRing :=
  mkRing (replicate AllocatorCount initialEvent) 0.

(* ID3D12CommandAllocator::Reset fails while the device runs commands of the allocator *)
Definition uses_allocator (i : nat) (l : command_list) : bool := bool_decide (l_allocator l = Some i).
Definition in_use (i : nat) (g : device) : bool := existsb (fun p => existsb (uses_allocator i) p.2) (pending g).
Definition ResetAllocator (i : nat) (g : device) : outcome unit := if in_use i g then Undef else Ok ().

Definition GetNextAllocator (next_completion_event : DmlGpuEvent) (r : DmlCommandAllocatorRing) (g : device)
    : outcome (nat * DmlCommandAllocatorRing * device) :=
  let current := current_command_allocator_ r in
  let earliest_other_allocator := ((current + 1) mod length (completion_events r))%nat in
  current_event ← get (completion_events r) current;
  other_event ← get (completion_events r) earliest_other_allocator;
  let '(current_signaled, g) := IsSignaled current_event g in
  let '(fine, g) := if current_signaled then IsSignaled other_event g else (true, g) in
  _ ← assert_ fine;
  let '(other_signaled, g) := IsSignaled other_event g in
  current ← (if other_signaled then _ ← ResetAllocator earliest_other_allocator g; Ok earliest_other_allocator else Ok current);
  events ← put (completion_events r) current next_completion_event;
  Ok (current, mkRing events current, g).

Definition UpdateCurrentAllocatorCompletionEvent (next_completion_event : DmlGpuEvent) (r : DmlCommandAllocatorRing)
    : outcome DmlCommandAllocatorRing :=
  events ← put (completion_events r) (current_command_allocator_ r) next_completion_event;
  Ok (mkRing events (current_command_allocator_ r)).

(** ** What the progress of the device keeps *)

(* the memory once everything submitted is complete *)
Definition settled (g : device) : memory := fold_left (fun m p => run_lists p.2 m) (pending g) (dev_memory g).

(* the submissions are those after the fence's value, up to the queue's last *)
Definition in_step (last : Z) (g : device) : Prop :=
  completed g <= last ∧ (pending g).*1 = seqZ (completed g + 1) (last - completed g).

(* [g'] is [g] some time later *)
Definition later (g g' : device) : Prop := ∃ n,
  completed g' = completed (advance n g) ∧ pending g' = pending (advance n g) ∧ dev_memory g' = dev_memory (advance n g).

Lemma later_refl g : later g g.
Proof. by exists O. Qed.

Lemma complete_one_cong g g' :
  completed g' = completed g -> pending g' = pending g -> dev_memory g' = dev_memory g ->
  completed (complete_one g') = completed (complete_one g) ∧ pending (complete_one g') = pending (complete_one g)
  ∧ dev_memory (complete_one g') = dev_memory (complete_one g).
Proof. intros E1 E2 E3. unfold complete_one. rewrite E2. destruct (pending g) as [|[f ls] p] eqn:E; simpl; rewrite ?E3, ?E; auto. Qed.

Lemma later_trans g1 g2 g3 : later g1 g2 -> later g2 g3 -> later g1 g3.
Proof.
  intros (n & E1 & E2 & E3) (k & F1 & F2 & F3). exists (k + n)%nat. unfold advance in *. rewrite Nat.iter_add.
  set (h := Nat.iter n complete_one g1) in *.
  assert (∀ j, completed (Nat.iter j complete_one g2) = completed (Nat.iter j complete_one h)
    ∧ pending (Nat.iter j complete_one g2) = pending (Nat.iter j complete_one h)
    ∧ dev_memory (Nat.iter j complete_one g2) = dev_memory (Nat.iter j complete_one h)) as G.
  { induction j as [|j (G1 & G2 & G3)]; [done|]. simpl. by apply complete_one_cong. }
  destruct (G k) as (-> & -> & ->) in F1, F2, F3. done.
Qed.

Lemma later_poll g : later g (GetCompletedValue g).2.
Proof. by exists (progress (polls g)). Qed.

(* what completing a submission keeps, completing any number keeps *)
Lemma later_keeps (P : device -> Prop) g g' :
  (∀ h, P h -> P (complete_one h)) ->
  (∀ h h', completed h' = completed h -> pending h' = pending h -> dev_memory h' = dev_memory h -> P h -> P h') ->
  later g g' -> P g -> P g'.
Proof.
  intros Hstep Hcong (n & E1 & E2 & E3) H. apply (Hcong (advance n g)); [done..|]. clear E1 E2 E3 g'.
  unfold advance. induction n as [|n IH]; simpl; auto.
Qed.

Lemma settled_later g g' : later g g' -> settled g' = settled g.
Proof.
  intros H. apply (later_keeps (fun h => settled h = settled g) g g'); [|unfold settled; intros h h' E1 E2 E3 E4; by rewrite E2, E3|done|done].
  intros h E. rewrite <- E. unfold settled, complete_one. destruct (pending h) as [|[f ls] p] eqn:E2; [by rewrite E2|done].
Qed.

Lemma in_step_later last g g' : later g g' -> in_step last g -> in_step last g'.
Proof.
  intros L. apply (later_keeps (in_step last)); [|unfold in_step; intros h h' E1 E2 E3 ?; by rewrite E1, E2|done]. clear g g' L. intros h [H1 H2].
  unfold complete_one. destruct (pending h) as [|[f ls] p] eqn:E; [by split; rewrite ?E|]. simpl in *.
  destruct (decide (completed h = last)) as [e|Hne]; [by rewrite e, Z.sub_diag in H2|].
  replace (last - completed h) with (Z.succ (last - (completed h + 1))) in H2 by lia.
  rewrite seqZ_cons in H2 by lia. injection H2 as -> H2. split; simpl; [lia|].
  etrans; [exact H2|]. f_equal; lia.
Qed.

Lemma completed_later last g g' : in_step last g -> later g g' -> completed g <= completed g'.
Proof.
  intros H L. apply (later_keeps (fun h => in_step last h ∧ completed g <= completed h) g g'); [| |done|done].
  - intros h [Hh Hc]. pose proof (in_step_later last h (complete_one h) ltac:(by exists 1%nat) Hh) as Hs. split; [done|].
    unfold complete_one in *. destruct Hh as [Hh1 Hh2]. destruct (pending h) as [|[f ls] p]; [done|]. simpl in *.
    destruct (decide (completed h = last)) as [e|Hne]; [by rewrite e, Z.sub_diag in Hh2|].
    rewrite seqZ_cons in Hh2 by lia. injection Hh2 as -> _. lia.
  - intros h h' E1 E2 E3 [[Hh1 Hh2] Hc]. unfold in_step. by rewrite E1, E2.
Qed.

Lemma pending_later g g' p : later g g' -> p ∈ pending g' -> p ∈ pending g.
Proof.
  intros L. apply (later_keeps (fun h => p ∈ pending h -> p ∈ pending g) g g'); [| |done|done].
  - intros h IH. unfold complete_one. destruct (pending h) as [|[f ls] q] eqn:E; [by rewrite E|]. simpl. intros H. apply IH. by right.
  - intros h h' E1 E2 E3 H. by rewrite E2.
Qed.

(* what is pending has not been signaled *)
Lemma pending_fence last g f ls : in_step last g -> (f, ls) ∈ pending g -> completed g < f <= last.
Proof.
  intros [_ H2] H. assert (f ∈ (pending g).*1) as Hf by (apply list_elem_of_fmap; by exists (f, ls)).
  rewrite H2 in Hf. apply elem_of_seqZ in Hf. lia.
Qed.

Lemma IsSignaled_later e g b g' : IsSignaled e g = (b, g') -> later g g' ∧ (b = true ↔ fence_value e <= completed g').
Proof.
  unfold IsSignaled. pose proof (later_poll g) as L. destruct (GetCompletedValue g) as [v h] eqn:E. intros [= <- <-].
  split; [done|]. unfold GetCompletedValue in E. injection E as <- <-. simpl. apply Z.leb_le.
Qed.

Lemma complete_until_ok last v p : ∀ c m,
  c <= last -> p.*1 = seqZ (c + 1) (last - c) -> v <= last ->
  ∃ c' p' m', complete_until v c p m = Ok (c', p', m') ∧ v <= c' ∧ ∀ n, later (mkDevice c p m n) (mkDevice c' p' m' n).
Proof.
  induction p as [|[f ls] p IH]; intros c m Hc Hp Hv; simpl.
  - destruct (Z.leb_spec v c); [exists c, [], m; split_and!; [done..|intros; apply later_refl]|].
    destruct (decide (c = last)) as [->|]; [lia|]. rewrite seqZ_cons in Hp by lia. done.
  - destruct (Z.leb_spec v c); [exists c, ((f, ls) :: p), m; split_and!; [done..|intros; apply later_refl]|].
    destruct (decide (c = last)) as [->|]; [lia|]. rewrite seqZ_cons in Hp by lia. injection Hp as -> Hp.
    destruct (IH (c + 1) (run_lists ls m)) as (c' & p' & m' & E & Hv' & L); [lia| |done|].
    { etrans; [exact Hp|]. f_equal; lia. }
    exists c', p', m'. split_and!; [done..|]. intros k. eapply later_trans; [|apply L]. by exists 1%nat.
Qed.

(* a wait for something submitted ends *)
Lemma WaitForSignal_ok last e g : in_step last g -> fence_value e <= last ->
  ∃ g', WaitForSignal e g = Ok g' ∧ later g g' ∧ fence_value e <= completed g'.
Proof.
  intros H Hv. unfold WaitForSignal. destruct (IsSignaled e g) as [b g1] eqn:E.
  apply IsSignaled_later in E as [L Hb]. destruct b; [exists g1; split_and!; [done..|by apply Hb]|].
  pose proof (in_step_later last g g1 L H) as H1. destruct H1 as [Hc Hp].
  destruct (complete_until_ok last (fence_value e) (pending g1) (completed g1) (dev_memory g1) Hc Hp Hv) as (c & p & m & -> & Hge & L2).
  rewrite bind_Ok. set (g2 := mkDevice c p m (polls g1)).
  assert (later g g2) as L3 by (eapply later_trans; [exact L|]; destruct g1; apply L2).
  exists (GetCompletedValue g2).2. split_and!; [done| |].
  - eapply later_trans; [exact L3|apply later_poll].
  - etrans; [exact Hge|]. change c with (completed g2). apply (completed_later last); [by apply (in_step_later last g)|apply later_poll].
Qed.

Lemma in_step_submit ls q g : in_step (last_fence_value_ q) g ->
  in_step (last_fence_value_ (ExecuteCommandLists ls q g).1) (ExecuteCommandLists ls q g).2.
Proof.
  intros [H1 H2]. split; simpl; [lia|]. rewrite fmap_app, H2. simpl.
  replace (last_fence_value_ q + 1 - completed g) with (Z.succ (last_fence_value_ q - completed g)) by lia.
  unfold seqZ. rewrite Z2Nat.inj_succ by lia. rewrite seq_S, fmap_app. simpl. f_equal. f_equal. lia.
Qed.

Lemma settled_submit ls q g : settled (ExecuteCommandLists ls q g).2 = run_lists ls (settled g).
Proof. unfold settled. simpl. by rewrite fold_left_app. Qed.
End device.
