(* ===== verification/DmlDescriptors.v ===== *)
(** * DirectML: the pool of descriptors (src/dml/dml_descriptor_pool.h and .cpp)

    A heap hands out its descriptors from the front and starts again once the
    last event it was given is signaled; the pool takes the first heap with
    room, or a new one.  Where the device puts a heap ([cpu_start],
    [gpu_start]), the size of a descriptor ([increment]) and the identity of a
    new heap ([CreateDescriptorHeap]) are Direct3D's. *)
From Stdlib Require Import ZArith Lia.
From stdpp Require Import base numbers list gmap.
From S2P Require Import Prelude DmlQueue.
Local Open Scope Z_scope.

Record DmlDescriptorHeap : Type := mkHeap {
  heap_ : nat;
  capacity_ : Z;
  size_ : Z;
  handle_increment_size_ : Z;
  head_cpu_handle_ : Z;
  head_gpu_handle_ : Z;
  heap_flags_ : Z;
  completion_event_ : option DmlGpuEvent }.    (* None: its fence is null *)

Record DescriptorPool : Type := mkPool { heaps_ : list DmlDescriptorHeap; initial_heap_capacity_ : Z }.

Definition SHADER_VISIBLE : Z := 1.            (* D3D12_DESCRIPTOR_HEAP_FLAG_SHADER_VISIBLE *)

(* a new heap is none of those that are alive *)
Class FreshHeap (CreateDescriptorHeap : list nat -> nat) : Prop := fresh_heap l : CreateDescriptorHeap l ∉ l.

Section descriptors.
Context (exec : command -> memory -> memory) (progress : nat -> nat).
Context (cpu_start gpu_start : nat -> Z) (increment : Z) (CreateDescriptorHeap : list nat -> nat).
Notation IsSignaled := (IsSignaled exec progress).

Definition DmlDescriptorHeap_new (heap : nat) (NumDescriptors flags : Z) : DmlDescriptorHeap :=
  mkHeap heap NumDescriptors 0 increment (cpu_start heap) (gpu_start heap) flags None.

(* the heap from its start, once its last event is signaled *)
Definition reclaim (h : DmlDescriptorHeap) (g : device) : DmlDescriptorHeap * device :=
  match completion_event_ h with
  | None => (h, g)
  | Some e =>
      let '(b, g) := IsSignaled e g in
      (if b then mkHeap (heap_ h) (capacity_ h) 0 (handle_increment_size_ h) (cpu_start (heap_ h)) (gpu_start (heap_ h))
                        (heap_flags_ h) (completion_event_ h)
       else h, g)
  end.

Definition TryAllocDescriptors (num_descriptors : Z) (completion_event : DmlGpuEvent) (heap_flags : Z)
    (h : DmlDescriptorHeap) (g : device) : option DmlDescriptorRange * DmlDescriptorHeap * device :=
  if negb (heap_flags_ h =? heap_flags) then (None, h, g)
  else
    let '(h, g) := reclaim h g in
    let space_remaining := u32 (capacity_ h - size_ h) in
    if space_remaining <? num_descriptors then (None, h, g)
    else (Some (mkRange (heap_ h) (head_cpu_handle_ h) (head_gpu_handle_ h)),
          mkHeap (heap_ h) (capacity_ h) (u32 (size_ h + num_descriptors)) (handle_increment_size_ h)
                 (head_cpu_handle_ h + num_descriptors * handle_increment_size_ h)
                 (head_gpu_handle_ h + num_descriptors * handle_increment_size_ h) (heap_flags_ h) (Some completion_event),
          g).

Definition CreateHeap (num_descriptors heap_flags : Z) (heaps : list DmlDescriptorHeap) : list DmlDescriptorHeap :=
  heaps ++ [DmlDescriptorHeap_new (CreateDescriptorHeap (map heap_ heaps)) num_descriptors heap_flags].

Definition DescriptorPool_new (initial_capacity : Z) : DescriptorPool :=
  mkPool (CreateHeap initial_capacity SHADER_VISIBLE []) initial_capacity.

(* for (DmlDescriptorHeap& heap : heaps_) *)
Fixpoint alloc_from (num_descriptors : Z) (completion_event : DmlGpuEvent) (heap_flags : Z)
    (heaps : list DmlDescriptorHeap) (g : device) : option DmlDescriptorRange * list DmlDescriptorHeap * device :=
  match heaps with
  | [] => (None, [], g)
  | h :: heaps =>
      let '(r, h, g) := TryAllocDescriptors num_descriptors completion_event heap_flags h g in
      match r with
      | Some _ => (r, h :: heaps, g)
      | None => let '(r, heaps, g) := alloc_from num_descriptors completion_event heap_flags heaps g in (r, h :: heaps, g)
      end
  end.

Definition AllocDescriptors (num_descriptors : Z) (completion_event : DmlGpuEvent) (heap_flags : Z) (p : DescriptorPool) (g : device)
    : outcome (DmlDescriptorRange * DescriptorPool * device) :=
  let '(r, heaps, g) := alloc_from num_descriptors completion_event heap_flags (heaps_ p) g in
  match r with
  | Some r => Ok (r, mkPool heaps (initial_heap_capacity_ p), g)
  | None =>
      let new_heap_capacity := Z.max num_descriptors (initial_heap_capacity_ p) in
      let created := DmlDescriptorHeap_new (CreateDescriptorHeap (map heap_ heaps)) new_heap_capacity heap_flags in
      let '(r, h, g) := TryAllocDescriptors num_descriptors completion_event heap_flags created g in
      match r with
      | Some r => Ok (r, mkPool (heaps ++ [h]) (initial_heap_capacity_ p), g)
      | None => Undef
      end
  end.

(* std::remove_if over the heaps *)
Fixpoint trim_heaps (heaps : list DmlDescriptorHeap) (g : device) : list DmlDescriptorHeap * device :=
  match heaps with
  | [] => ([], g)
  | h :: heaps =>
      let '(removed, g) := match completion_event_ h with None => (true, g) | Some e => IsSignaled e g end in
      let '(kept, g) := trim_heaps heaps g in
      (if removed then kept else h :: kept, g)
  end.
Definition DescriptorPool_Trim (p : DescriptorPool) (g : device) : DescriptorPool * device :=
  let '(heaps, g) := trim_heaps (heaps_ p) g in (mkPool heaps (initial_heap_capacity_ p), g).

Definition GetTotalCapacity (p : DescriptorPool) : Z := fold_left (fun c h => u32 (c + capacity_ h)) (heaps_ p) 0.

(** ** Ranges in use never overlap

    An allocation is a range, the number of its descriptors and the value of the
    event after which it is not needed. *)
Record allocation : Type := mkAlloc { a_range : DmlDescriptorRange; a_count : Z; a_fence : Z }.

Definition disjoint_ranges (a b : allocation) : Prop :=
  r_heap (a_range a) = r_heap (a_range b) ->
  (cpuHandle (a_range a) + a_count a * increment <= cpuHandle (a_range b)
   ∧ gpuHandle (a_range a) + a_count a * increment <= gpuHandle (a_range b))
  ∨ (cpuHandle (a_range b) + a_count b * increment <= cpuHandle (a_range a)
   ∧ gpuHandle (a_range b) + a_count b * increment <= gpuHandle (a_range a)).

(* the range lies in what the heap has handed out, and the heap waits long enough *)
Definition in_heap (h : DmlDescriptorHeap) (a : allocation) : Prop :=
  (∃ e, completion_event_ h = Some e ∧ a_fence a <= fence_value e) ∧
  ∃ k, 0 <= k ∧ k + a_count a <= size_ h ∧ cpuHandle (a_range a) = cpu_start (heap_ h) + k * increment
       ∧ gpuHandle (a_range a) = gpu_start (heap_ h) + k * increment.

Record heap_ok (c : Z) (live : list allocation) (h : DmlDescriptorHeap) : Prop := {
  ho_size : 0 <= size_ h <= capacity_ h ∧ capacity_ h < 2 ^ 32;
  ho_increment : handle_increment_size_ h = increment;
  ho_cpu : head_cpu_handle_ h = cpu_start (heap_ h) + size_ h * increment;
  ho_gpu : head_gpu_handle_ h = gpu_start (heap_ h) + size_ h * increment;
  ho_live a : a ∈ live -> c < a_fence a -> r_heap (a_range a) = heap_ h -> in_heap h a }.

Record pool_ok (c : Z) (live : list allocation) (heaps : list DmlDescriptorHeap) : Prop := {
  po_heaps : Forall (heap_ok c live) heaps;
  po_ids : NoDup (map heap_ heaps);
  po_live a : a ∈ live -> c < a_fence a -> r_heap (a_range a) ∈ map heap_ heaps;
  po_disjoint a b : [a; b] ⊆+ live -> c < a_fence a -> c < a_fence b -> disjoint_ranges a b }.

(* no event of a heap is after [v] *)
Definition events_before (v : Z) (h : DmlDescriptorHeap) : Prop := ∀ e, completion_event_ h = Some e -> fence_value e <= v.

Lemma heap_ok_mono c c' live h : c <= c' -> heap_ok c live h -> heap_ok c' live h.
Proof. intros Hc [H1 H2 H3 H4 H5]. split; try done. intros a Ha Hf. apply H5; [done|lia]. Qed.

Lemma pool_ok_mono c c' live heaps : c <= c' -> pool_ok c live heaps -> pool_ok c' live heaps.
Proof.
  intros Hc [H1 H2 H3 H4]. split; [|done| |].
  - eapply Forall_impl; [exact H1|]. intros h. by apply heap_ok_mono.
  - intros a Ha Hf. apply H3; [done|lia].
  - intros a b Hab Ha Hb. apply H4; [done|lia|lia].
Qed.

Section alloc.
Context (last : Z) (live : list allocation) (n : Z) (ev : DmlGpuEvent) (Hn : 0 <= n < 2 ^ 32) (Hinc : 0 < increment).

Lemma reclaim_ok h g h' g' : reclaim h g = (h', g') -> in_step last g -> heap_ok (completed g) live h ->
  later exec g g' ∧ heap_ok (completed g') live h' ∧ heap_ h' = heap_ h ∧ completion_event_ h' = completion_event_ h
  ∧ capacity_ h' = capacity_ h ∧ heap_flags_ h' = heap_flags_ h ∧ size_ h' <= size_ h.
Proof.
  intros E Hs Ho. unfold reclaim in E. destruct (completion_event_ h) as [e|] eqn:Ee.
  2:{ injection E as <- <-. split_and!; [apply later_refl|done..]. }
  destruct (IsSignaled e g) as [b g1] eqn:Es. injection E as <- <-. apply IsSignaled_later in Es as [L Hb].
  pose proof (completed_later exec last g g1 Hs L) as Hc. pose proof (heap_ok_mono _ _ _ _ Hc Ho) as Ho1.
  destruct Ho1 as [H1 H2 H3 H4 H5]. destruct b; [|by split_and!]. split_and!; simpl; [done| |done..|lia].
  split; simpl; [lia|done|lia|lia|]. intros a Ha Hf Hh. destruct (H5 a Ha Hf Hh) as [(e' & E' & Hle) _].
  rewrite Ee in E'. injection E' as <-. assert (fence_value e <= completed g1) by (by apply Hb). lia.
Qed.

Lemma TryAllocDescriptors_ok flags h g r h' g' :
  TryAllocDescriptors n ev flags h g = (r, h', g') -> in_step last g -> heap_ok (completed g) live h ->
  events_before (fence_value ev) h ->
  later exec g g' ∧ heap_ h' = heap_ h ∧ events_before (fence_value ev) h' ∧
  match r with
  | None => heap_ok (completed g') live h'
  | Some r => let a := mkAlloc r n (fence_value ev) in
      heap_ok (completed g') (a :: live) h' ∧ r_heap r = heap_ h ∧
      ∀ b, b ∈ live -> completed g' < a_fence b -> r_heap (a_range b) = heap_ h -> disjoint_ranges a b
  end.
Proof.
  intros E Hs Ho Hev. unfold TryAllocDescriptors in E. destruct (negb _).
  { injection E as <- <- <-. pose proof (later_refl exec g). by split_and!. }
  destruct (reclaim h g) as [h1 g1] eqn:Er. destruct (reclaim_ok _ _ _ _ Er Hs Ho) as (L & Ho1 & Hid & He & _ & _ & _).
  destruct Ho1 as [H1 H2 H3 H4 H5]. rewrite u32_id in E by lia.
  destruct (Z.ltb_spec (capacity_ h1 - size_ h1) n); injection E as <- <- <-.
  { split_and!; [done..| |done]. intros e. rewrite He. apply Hev. }
  rewrite u32_id by lia. split_and!; simpl; [done|done| |].
  { intros e [= <-]. done. }
  split_and!; [split; simpl|done|].
  - lia.
  - done.
  - rewrite H2, H3. lia.
  - rewrite H2, H4. lia.
  - intros a Ha Hf Hh. apply elem_of_cons in Ha as [->|Ha]; simpl.
    + split; [by exists ev|]. exists (size_ h1). simpl. split_and!; [lia|lia|done|done].
    + destruct (H5 a Ha Hf Hh) as [(e & Ee & Hle) (k & ? & ? & ? & ?)]. split.
      * exists ev. split; [done|]. etrans; [exact Hle|]. apply Hev. by rewrite <- He.
      * exists k. simpl. split_and!; [done|lia|done|done].
  - intros b Hb Hf Hh. rewrite <- Hid in Hh. destruct (H5 b Hb Hf Hh) as [_ (k & ? & ? & Hk1 & Hk2)]. intros _. right. simpl.
    rewrite Hk1, Hk2, H3, H4. nia.
Qed.

(* a heap is not concerned by an allocation of another one *)
Lemma heap_ok_other c a h : heap_ok c live h -> r_heap (a_range a) ≠ heap_ h -> heap_ok c (a :: live) h.
Proof.
  intros [H1 H2 H3 H4 H5] Hne. split; try done. intros b Hb Hf Hh. apply elem_of_cons in Hb as [->|Hb]; [done|]. by apply H5.
Qed.

(* the heaps before and after the walk *)
Lemma alloc_from_ok flags : ∀ heaps g r heaps' g',
  alloc_from n ev flags heaps g = (r, heaps', g') -> in_step last g -> Forall (heap_ok (completed g) live) heaps ->
  NoDup (map heap_ heaps) -> Forall (events_before (fence_value ev)) heaps ->
  later exec g g' ∧ map heap_ heaps' = map heap_ heaps ∧ Forall (events_before (fence_value ev)) heaps' ∧
  match r with
  | None => Forall (heap_ok (completed g') live) heaps'
  | Some r => let a := mkAlloc r n (fence_value ev) in
      Forall (heap_ok (completed g') (a :: live)) heaps' ∧ r_heap r ∈ map heap_ heaps ∧
      ∀ b, b ∈ live -> completed g' < a_fence b -> r_heap (a_range b) = r_heap r -> disjoint_ranges a b
  end.
Proof.
  induction heaps as [|h heaps IH]; intros g r heaps' g' E Hs Hf Hnd Hev; simpl in E.
  { injection E as <- <- <-. split_and!; [apply later_refl|done..]. }
  apply Forall_cons in Hf as [Hh Hf]. apply Forall_cons in Hev as [Hevh Hev]. simpl in Hnd. apply NoDup_cons in Hnd as [Hni Hnd].
  destruct (TryAllocDescriptors n ev flags h g) as [[o h1] g1] eqn:Et.
  destruct (TryAllocDescriptors_ok _ _ _ _ _ _ Et Hs Hh Hevh) as (L & Hid & Hev1 & Ho).
  pose proof (completed_later exec last g g1 Hs L) as Hc.
  assert (Forall (heap_ok (completed g1) live) heaps) as Hf1 by (eapply Forall_impl; [exact Hf|]; intros x; by apply heap_ok_mono).
  destruct o as [r1|].
  - injection E as <- <- <-. destruct Ho as (Ho & Hr & Hd). simpl. rewrite Hid. split_and!; [done|done|by constructor| | |].
    + constructor; [done|]. apply Forall_forall. intros x Hx. rewrite Forall_forall in Hf1. apply heap_ok_other; [by apply Hf1|].
      simpl. rewrite Hr. intros Heq. apply Hni. rewrite Heq. by apply list_elem_of_fmap_2.
    + rewrite Hr. left.
    + intros b Hb Hfb Hrb. apply Hd; [done..|by rewrite Hrb].
  - destruct (alloc_from n ev flags heaps g1) as [[o heaps1] g2] eqn:Ea. injection E as <- <- <-.
    destruct (IH _ _ _ _ Ea (in_step_later exec last g g1 L Hs) Hf1 Hnd Hev) as (L2 & Hids & Hev2 & Ho2).
    pose proof (completed_later exec last g1 g2 (in_step_later exec last g g1 L Hs) L2) as Hc2.
    pose proof (heap_ok_mono _ _ _ _ Hc2 Ho) as Ho1.
    split_and!; [by eapply later_trans|simpl; by rewrite Hid, Hids|by constructor|].
    destruct o as [r2|]; [|by constructor]. destruct Ho2 as (Hf2 & Hr2 & Hd2). simpl. split_and!; [constructor; [|done]|by right|done].
    apply heap_ok_other; [done|]. simpl. rewrite Hid. intros Heq. apply Hni. by rewrite <- Heq.
Qed.
End alloc.

Lemma disjoint_ranges_sym a b : disjoint_ranges a b -> disjoint_ranges b a.
Proof. unfold disjoint_ranges. intros H E. destruct (H (eq_sym E)); [by right|by left]. Qed.

Lemma pool_ok_cons c live heaps heaps' a : pool_ok c live heaps -> map heap_ heaps ⊆ map heap_ heaps' -> NoDup (map heap_ heaps') ->
  Forall (heap_ok c (a :: live)) heaps' -> r_heap (a_range a) ∈ map heap_ heaps' ->
  (∀ b, b ∈ live -> c < a_fence b -> r_heap (a_range b) = r_heap (a_range a) -> disjoint_ranges a b) -> pool_ok c (a :: live) heaps'.
Proof.
  intros [H1 H2 H3 H4] Hsub Hnd Hf Ha Hd. split; [done|done| |].
  - intros b Hb Hfb. apply elem_of_cons in Hb as [->|Hb]; [done|]. apply Hsub. by apply H3.
  - assert (∀ b, b ∈ live -> c < a_fence b -> disjoint_ranges a b) as Hd'.
    { intros b Hb Hf'. destruct (decide (r_heap (a_range b) = r_heap (a_range a))) as [E|Hne]; [by apply Hd|by intros E]. }
    intros x y Hxy Hx Hy. apply pair_cons in Hxy as [Hxy|[[-> Hy']|[-> Hx']]]; [by apply H4|by apply Hd'|].
    apply disjoint_ranges_sym. by apply Hd'.
Qed.

(* fewer allocations in use *)
Lemma pool_ok_sub c live live' heaps : live' ⊆+ live -> pool_ok c live heaps -> pool_ok c live' heaps.
Proof.
  intros Hs [H1 H2 H3 H4]. assert (∀ a, a ∈ live' -> a ∈ live) as Hin by (intros a Ha; eapply elem_of_submseteq; [exact Ha|exact Hs]). split; [|done| |].
  - eapply Forall_impl; [exact H1|]. intros h [? ? ? ? H]. split; try done. intros a Ha. by apply H, Hin.
  - intros a Ha. by apply H3, Hin.
  - intros a b Hab. apply H4. by etrans.
Qed.

(* an allocation succeeds, and keeps clear of every range that is in use *)
Lemma AllocDescriptors_ok `{!FreshHeap CreateDescriptorHeap} last live n ev flags p g :
  0 <= n < 2 ^ 32 -> 0 < increment -> initial_heap_capacity_ p < 2 ^ 32 -> in_step last g ->
  pool_ok (completed g) live (heaps_ p) -> Forall (events_before (fence_value ev)) (heaps_ p) ->
  ∃ r p' g', AllocDescriptors n ev flags p g = Ok (r, p', g') ∧ later exec g g' ∧
    pool_ok (completed g') (mkAlloc r n (fence_value ev) :: live) (heaps_ p') ∧
    Forall (events_before (fence_value ev)) (heaps_ p') ∧ initial_heap_capacity_ p' = initial_heap_capacity_ p.
Proof.
  intros Hn Hinc Hinit Hs Hp Hev. unfold AllocDescriptors. destruct (alloc_from n ev flags (heaps_ p) g) as [[o heaps] g1] eqn:Ea.
  destruct (alloc_from_ok last live n ev Hn Hinc flags _ _ _ _ _ Ea Hs (po_heaps _ _ _ Hp) (po_ids _ _ _ Hp) Hev) as (L & Hids & Hev1 & Ho).
  pose proof (completed_later exec last g g1 Hs L) as Hc. apply (pool_ok_mono _ _ _ _ Hc) in Hp.
  destruct o as [r|].
  { destruct Ho as (Hf & Hr & Hd). eexists r, _, g1. split_and!; [done|done| |done|done]. simpl.
    eapply pool_ok_cons; [exact Hp|by rewrite Hids|rewrite Hids; apply Hp|done|simpl; by rewrite Hids|done]. }
  set (fresh := CreateDescriptorHeap (map heap_ heaps)). set (cap := Z.max n (initial_heap_capacity_ p)).
  assert (fresh ∉ map heap_ heaps) as Hfresh by (unfold fresh; apply fresh_heap).
  assert (heap_ok (completed g1) live (DmlDescriptorHeap_new fresh cap flags)) as Hnew.
  { split; simpl; [unfold cap; lia|done|lia|lia|]. intros a Ha Hf Hh. exfalso. apply Hfresh. rewrite Hids, <- Hh. by apply (po_live _ _ _ Hp). }
  assert (events_before (fence_value ev) (DmlDescriptorHeap_new fresh cap flags)) as Hevn by (intros e; done).
  assert (∃ r h, TryAllocDescriptors n ev flags (DmlDescriptorHeap_new fresh cap flags) g1 = (Some r, h, g1)) as (r & h & Et).
  { unfold TryAllocDescriptors. simpl. rewrite Z.eqb_refl. simpl. rewrite Z.sub_0_r, u32_id by (unfold cap; lia).
    destruct (Z.ltb_spec cap n); [unfold cap in *; lia|]. eauto. }
  fold fresh cap. rewrite Et.
  destruct (TryAllocDescriptors_ok last live n ev Hn Hinc _ _ _ _ _ _ Et (in_step_later exec last g g1 L Hs) Hnew Hevn) as (_ & Hid & Hev2 & Hh & Hr & Hd).
  simpl in Hid, Hr. eexists r, _, g1. split_and!; [done|done| |by apply Forall_app; split; [|constructor]|done]. simpl.
  eapply pool_ok_cons; [exact Hp| | | | |].
  - rewrite map_app, Hids. set_solver.
  - rewrite map_app. simpl. rewrite Hid. apply NoDup_app. split_and!; [rewrite Hids; apply Hp| |apply NoDup_singleton].
    intros x Hx ->%list_elem_of_singleton. done.
  - apply Forall_app. split; [|by constructor]. apply Forall_forall. intros x Hx. rewrite Forall_forall in Ho.
    apply heap_ok_other; [by apply Ho|]. simpl. rewrite Hr. intros E. apply Hfresh. rewrite E. by apply list_elem_of_fmap_2.
  - rewrite map_app. apply elem_of_app. right. simpl. rewrite Hid, <- Hr. by left.
  - intros b Hb Hf Hrb. apply Hd; [done..|]. simpl in Hrb |- *. by rewrite Hrb, Hr.
Qed.

Lemma DescriptorPool_new_ok `{!FreshHeap CreateDescriptorHeap} c v n : 0 <= n < 2 ^ 32 ->
  pool_ok c [] (heaps_ (DescriptorPool_new n)) ∧ Forall (events_before v) (heaps_ (DescriptorPool_new n)).
Proof.
  intros Hn. split; [|by constructor]. split; simpl.
  - constructor; [|done]. split; simpl; [lia|done|lia|lia|]. intros a Ha. by apply elem_of_nil in Ha.
  - apply NoDup_singleton.
  - intros a Ha. by apply elem_of_nil in Ha.
  - intros a b Hab. by apply submseteq_nil_r in Hab.
Qed.

(* releasing the heaps whose events are signaled takes no range that is in use *)
Lemma trim_heaps_ok last : ∀ heaps live g heaps' g',
  trim_heaps heaps g = (heaps', g') -> in_step last g -> pool_ok (completed g) live heaps ->
  later exec g g' ∧ pool_ok (completed g') live heaps'.
Proof.
  intros heaps live g heaps' g' E Hs Hp. revert g heaps' g' E Hs Hp.
  assert (∀ heaps g heaps' g', trim_heaps heaps g = (heaps', g') -> in_step last g ->
    later exec g g' ∧ sublist heaps' heaps ∧
    (∀ h, h ∈ heaps -> h ∈ heaps' ∨ events_before (completed g') h)) as G.
  { clear heaps. induction heaps as [|h heaps IH]; intros g heaps' g' E Hs; simpl in E.
    { injection E as <- <-. split_and!; [apply later_refl|done|]. intros h Hh. by apply elem_of_nil in Hh. }
    destruct (match completion_event_ h with None => (true, g) | Some e => IsSignaled e g end) as [b g1] eqn:E1.
    destruct (trim_heaps heaps g1) as [kept g2] eqn:E2. injection E as <- <-.
    assert (later exec g g1 ∧ (b = true -> events_before (completed g1) h)) as [L Hb].
    { unfold events_before. destruct (completion_event_ h) as [e|].
      - apply IsSignaled_later in E1 as [L Hb]. split; [done|]. intros ->. intros e' [= <-]. by apply Hb.
      - injection E1 as <- <-. split; [apply later_refl|done]. }
    pose proof (in_step_later exec last g g1 L Hs) as Hs1. destruct (IH _ _ _ E2 Hs1) as (L2 & Hsub & Hev).
    pose proof (completed_later exec last g1 g2 Hs1 L2) as Hc.
    split_and!; [by eapply later_trans| |].
    - destruct b; [by apply sublist_cons|by apply sublist_skip].
    - intros x [->|Hx]%elem_of_cons.
      + destruct b; [|left; left]. right. intros e He. specialize (Hb eq_refl e He). lia.
      + destruct (Hev x Hx) as [Hk|Hk]; [left; destruct b; [done|by right]|by right]. }
  intros g heaps' g' E Hs Hp. destruct (G _ _ _ _ E Hs) as (L & Hsub & Hev). split; [done|].
  apply (pool_ok_mono _ (completed g')) in Hp; [|by apply (completed_later exec last)]. destruct Hp as [H1 H2 H3 H4].
  split; [|eapply sublist_NoDup; [exact H2|]; clear -Hsub; induction Hsub; simpl; by constructor| |done].
  - apply Forall_forall. intros h Hh. rewrite Forall_forall in H1. apply H1. eapply elem_of_submseteq; [exact Hh|]. by apply sublist_submseteq.
  - intros a Ha Hf. specialize (H3 a Ha Hf). apply list_elem_of_fmap in H3 as (h & Hh & Hin).
    destruct (Hev h Hin) as [Hk|Hk]; [rewrite Hh; by apply list_elem_of_fmap_2|]. exfalso.
    rewrite Forall_forall in H1. destruct (ho_live _ _ _ (H1 h Hin) a Ha Hf Hh) as [(e & He & Hle) _]. specialize (Hk e He). lia.
Qed.
End descriptors.
