(* ===== verification/DmlContext.v ===== *)
(** * DirectML: recording and submitting (src/dml/dml_command_recorder.h and
    .cpp, dml_execution_context.h and .cpp)

    Commands are recorded in a list until something flushes it to the queue.
    Lists come from two allocators in turn; an operator's descriptors come from
    the pool.  [eventually] is the memory once everything recorded is run: the
    theorems say that a sequence of calls is, for it, the sequence of their
    commands, whatever the progress of the device. *)
From Stdlib Require Import ZArith Lia.
From stdpp Require Import base numbers list gmap.
From S2P Require Import Prelude DmlQueue DmlDescriptors.
Local Open Scope Z_scope.

Record DmlCommandRecorder : Type := mkRecorder {
  descriptor_pool_ : DescriptorPool;
  current_descriptor_heap_ : option nat;
  command_allocator_ring_ : DmlCommandAllocatorRing;
  current_command_list_ : option command_list;
  operations_recorded : bool;                  (* operations_recorded_in_current_command_list *)
  cached_command_list_ : bool }.               (* whether there is one *)

Record DmlExecutionContext : Type := mkContext {
  queue_ : DmlCommandQueue;
  current_recorder_ : bool;                    (* null, or the one recorder *)
  dml_recorder_ : DmlCommandRecorder;
  closed_ : bool }.

(* what the code asks of an operator, and the buffer it is given for its temporary data *)
Record operator : Type := mkOperator {
  o_id : nat;
  RequiredDescriptorCount : Z;
  TemporaryResourceSize : Z;
  o_temporary : nat }.

Definition COPY_DEST : Z := 1024.              (* D3D12_RESOURCE_STATE_COPY_DEST *)
Definition COPY_SOURCE : Z := 2048.            (* D3D12_RESOURCE_STATE_COPY_SOURCE *)
Definition GENERIC_READ : Z := 2755.           (* D3D12_RESOURCE_STATE_GENERIC_READ *)

(** ** The recorder *)

Section recorder.
Context (exec : command -> memory -> memory) (progress : nat -> nat).
Context (cpu_start gpu_start : nat -> Z) (increment : Z) (CreateDescriptorHeap : list nat -> nat).
Notation AllocDescriptors := (AllocDescriptors exec progress cpu_start gpu_start increment CreateDescriptorHeap).

Definition DmlCommandRecorder_new (q : DmlCommandQueue) : DmlCommandRecorder :=
  mkRecorder (DescriptorPool_new cpu_start gpu_start increment CreateDescriptorHeap 2048) None
    (DmlCommandAllocatorRing_new 2 (Queue_GetCurrentCompletionEvent q)) None false false.

Definition set_list (l : command_list) (r : DmlCommandRecorder) : DmlCommandRecorder :=
  mkRecorder (descriptor_pool_ r) (current_descriptor_heap_ r) (command_allocator_ring_ r) (Some l) (operations_recorded r) (cached_command_list_ r).
(* calls on the current command list *)
Definition append_commands (l : list command) (r : DmlCommandRecorder) : outcome DmlCommandRecorder :=
  match current_command_list_ r with
  | None => Undef
  | Some cl => Ok (set_list (mkList (l_allocator cl) (l_commands cl ++ l)) r)
  end.
Definition set_recorded (r : DmlCommandRecorder) : DmlCommandRecorder :=
  mkRecorder (descriptor_pool_ r) (current_descriptor_heap_ r) (command_allocator_ring_ r) (current_command_list_ r) true (cached_command_list_ r).
Definition set_heap (h : option nat) (r : DmlCommandRecorder) : DmlCommandRecorder :=
  mkRecorder (descriptor_pool_ r) h (command_allocator_ring_ r) (current_command_list_ r) (operations_recorded r) (cached_command_list_ r).
Definition set_pool (p : DescriptorPool) (r : DmlCommandRecorder) : DmlCommandRecorder :=
  mkRecorder p (current_descriptor_heap_ r) (command_allocator_ring_ r) (current_command_list_ r) (operations_recorded r) (cached_command_list_ r).
Definition set_ring (a : DmlCommandAllocatorRing) (r : DmlCommandRecorder) : DmlCommandRecorder :=
  mkRecorder (descriptor_pool_ r) (current_descriptor_heap_ r) a (current_command_list_ r) (operations_recorded r) (cached_command_list_ r).

Definition Recorder_CopyBufferRegion (dst : nat) (dst_offset : Z) (src : nat) (src_offset byte_count : Z) (r : DmlCommandRecorder)
    : outcome DmlCommandRecorder :=
  r ← append_commands [Copy dst dst_offset src src_offset byte_count] r;
  Ok (set_recorded r).

Definition Recorder_ResourceBarrier (barriers : list barrier) (r : DmlCommandRecorder) : outcome DmlCommandRecorder :=
  r ← append_commands [Barriers barriers] r;
  Ok (set_recorded r).

Definition Recorder_AddUAVBarrier (r : DmlCommandRecorder) : outcome DmlCommandRecorder :=
  r ← append_commands [Barriers [UAV]] r;
  Ok (set_recorded r).

Definition Recorder_GetCommandList (r : DmlCommandRecorder) : DmlCommandRecorder := set_recorded r.

Definition InvalidateDescriptorHeap (r : DmlCommandRecorder) : DmlCommandRecorder := set_heap None r.

Definition Open (q : DmlCommandQueue) (r : DmlCommandRecorder) (g : device) : outcome (DmlCommandRecorder * device) :=
  _ ← assert_ (bool_decide (current_descriptor_heap_ r = None));
  '(allocator, ring, g) ← GetNextAllocator exec progress (GetNextCompletionEvent q) (command_allocator_ring_ r) g;
  Ok (mkRecorder (descriptor_pool_ r) (current_descriptor_heap_ r) ring (Some (mkList (Some allocator) [])) (operations_recorded r) false, g).

Definition CloseAndExecute (command_list : option command_list) (r : DmlCommandRecorder) (q : DmlCommandQueue) (g : device)
    : outcome (DmlCommandRecorder * DmlCommandQueue * device) :=
  match current_command_list_ r with
  | None => Undef
  | Some current =>
      let command_lists_to_execute := (if operations_recorded r then [current] else []) ++ option_list command_list in
      let '(q, g) := if decide (command_lists_to_execute = []) then (q, g) else ExecuteCommandLists command_lists_to_execute q g in
      Ok (mkRecorder (descriptor_pool_ r) None (command_allocator_ring_ r) None false true, q, g)
  end.

Definition SetDescriptorHeap (descriptor_heap : option nat) (r : DmlCommandRecorder) : outcome DmlCommandRecorder :=
  match descriptor_heap with
  | None => Ok r
  | Some h => if decide (current_descriptor_heap_ r = Some h) then Ok r
              else append_commands [DescriptorHeaps h] (set_heap (Some h) r)
  end.

(* the value of the fence is what the caller is given *)
Definition Recorder_ExecuteCommandList (command_list : option command_list) (r : DmlCommandRecorder) (q : DmlCommandQueue) (g : device)
    : outcome (Z * DmlCommandRecorder * DmlCommandQueue * device) :=
  if negb (operations_recorded r) then
    let gpu_event := GetNextCompletionEvent q in
    match command_list with
    | None => Undef
    | Some command_list =>
        let '(q, g) := ExecuteCommandLists [command_list] q g in
        ring ← UpdateCurrentAllocatorCompletionEvent (GetNextCompletionEvent q) (command_allocator_ring_ r);
        Ok (fence_value gpu_event, set_ring ring r, q, g)
    end
  else
    let heap := current_descriptor_heap_ r in
    '(r, q, g) ← CloseAndExecute command_list r q g;
    '(r, g) ← Open q r g;
    r ← SetDescriptorHeap heap r;
    Ok (fence_value (Queue_GetCurrentCompletionEvent q), r, q, g).

Definition is_none (b : DML_BINDING_DESC) : bool := match b with BINDING_NONE => true | _ => false end.
Definition is_buffer (b : DML_BINDING_DESC) : bool := match b with BINDING_BUFFER _ => true | _ => false end.
Definition is_buffer_array (b : DML_BINDING_DESC) : bool := match b with BINDING_BUFFER_ARRAY _ => true | _ => false end.
Definition given (b : DML_BINDING_DESC) : list DML_BINDING_DESC := if is_none b then [] else [b].
Definition temporary_binding (op : operator) : DML_BINDING_DESC :=
  if 0 <? TemporaryResourceSize op then BINDING_BUFFER (mkBinding (o_temporary op) 0 (TemporaryResourceSize op)) else BINDING_NONE.

Definition Recorder_InitializeOperator (op : operator) (persistent_resource_binding input_array_binding : DML_BINDING_DESC)
    (q : DmlCommandQueue) (r : DmlCommandRecorder) (g : device) : outcome (DmlCommandRecorder * device) :=
  '(descriptor_range, pool, g) ←
    AllocDescriptors (RequiredDescriptorCount op) (GetNextCompletionEvent q) SHADER_VISIBLE (descriptor_pool_ r) g;
  let r := set_pool pool r in
  _ ← assert_ (is_none input_array_binding || is_buffer_array input_array_binding);
  _ ← assert_ (is_none persistent_resource_binding || is_buffer persistent_resource_binding);
  r ← SetDescriptorHeap (Some (r_heap descriptor_range)) r;
  r ← append_commands [Dispatch (mkDispatch (o_id op) descriptor_range (RequiredDescriptorCount op) (temporary_binding op)
                                   BINDING_NONE (given input_array_binding) (given persistent_resource_binding))] r;
  let r := set_recorded r in
  r ← (if negb (is_none persistent_resource_binding) || (0 <? TemporaryResourceSize op)
       then append_commands [Barriers [UAV]] r else Ok r);
  Ok (r, g).

Definition Recorder_ExecuteOperator (op : operator) (persistent_resource_binding : DML_BINDING_DESC)
    (input_bindings output_bindings : list DML_BINDING_DESC) (q : DmlCommandQueue) (r : DmlCommandRecorder) (g : device)
    : outcome (DmlCommandRecorder * device) :=
  '(descriptor_range, pool, g) ←
    AllocDescriptors (RequiredDescriptorCount op) (GetNextCompletionEvent q) SHADER_VISIBLE (descriptor_pool_ r) g;
  let r := set_pool pool r in
  r ← SetDescriptorHeap (Some (r_heap descriptor_range)) r;
  r ← append_commands [Dispatch (mkDispatch (o_id op) descriptor_range (RequiredDescriptorCount op) (temporary_binding op)
                                   persistent_resource_binding input_bindings output_bindings)] r;
  let r := set_recorded r in
  r ← append_commands [Barriers [UAV]] r;
  Ok (r, g).

(** ** The execution context *)

Definition DmlExecutionContext_new : DmlExecutionContext :=
  mkContext DmlCommandQueue_new false (DmlCommandRecorder_new DmlCommandQueue_new) false.

Definition set_recorder (r : DmlCommandRecorder) (c : DmlExecutionContext) : DmlExecutionContext :=
  mkContext (queue_ c) (current_recorder_ c) r (closed_ c).
Definition is_open (c : DmlExecutionContext) : outcome unit := assert_ (negb (closed_ c)).

(* the only recorder that is ever set is [dml_recorder_]; when there is none, the flush before does nothing *)
Definition SetCommandRecorder (c : DmlExecutionContext) (g : device) : outcome (DmlExecutionContext * device) :=
  _ ← is_open c;
  if current_recorder_ c then Ok (c, g)
  else
    '(r, g) ← Open (queue_ c) (dml_recorder_ c) g;
    Ok (mkContext (queue_ c) true r (closed_ c), g).

Definition ReleaseCompletedReferences (c : DmlExecutionContext) (g : device) : outcome (DmlExecutionContext * device) :=
  _ ← is_open c;
  let '(q, g) := Queue_ReleaseCompletedReferences exec progress (queue_ c) g in
  Ok (mkContext q (current_recorder_ c) (dml_recorder_ c) (closed_ c), g).

Definition HasUnsubmittedWork (c : DmlExecutionContext) : bool := current_recorder_ c && operations_recorded (dml_recorder_ c).

Definition Flush (c : DmlExecutionContext) (g : device) : outcome (DmlExecutionContext * device) :=
  _ ← is_open c;
  if negb (HasUnsubmittedWork c) then Ok (c, g)
  else
    '(r, q, g) ← CloseAndExecute None (dml_recorder_ c) (queue_ c) g;
    '(c, g) ← ReleaseCompletedReferences (mkContext q (current_recorder_ c) r (closed_ c)) g;
    SetCommandRecorder (mkContext (queue_ c) false (dml_recorder_ c) (closed_ c)) g.

(* a call on the recorder, made current *)
Definition with_recorder (f : DmlCommandRecorder -> outcome DmlCommandRecorder) (c : DmlExecutionContext) (g : device)
    : outcome (DmlExecutionContext * device) :=
  '(c, g) ← SetCommandRecorder c g;
  r ← f (dml_recorder_ c);
  Ok (set_recorder r c, g).

Definition lacks (state flag : Z) : bool := Z.land state flag =? 0.
Definition swap_states (b : barrier) : barrier :=
  match b with Transition r before after => Transition r after before | UAV => UAV end.
Definition copy_barriers (dst : nat) (dst_state : Z) (src : nat) (src_state : Z) : list barrier :=
  (if lacks dst_state COPY_DEST then [Transition dst dst_state COPY_DEST] else [])
  ++ (if lacks src_state COPY_SOURCE then [Transition src src_state COPY_SOURCE] else []).

Definition CopyBufferRegion (dst : nat) (dst_offset dst_state : Z) (src : nat) (src_offset src_state byte_count : Z)
    (c : DmlExecutionContext) (g : device) : outcome (DmlExecutionContext * device) :=
  _ ← is_open c;
  with_recorder (fun r =>
    let barriers := copy_barriers dst dst_state src src_state in
    r ← (if decide (barriers = []) then Ok r else Recorder_ResourceBarrier barriers r);
    r ← Recorder_CopyBufferRegion dst dst_offset src src_offset byte_count r;
    if decide (barriers = []) then Ok r else Recorder_ResourceBarrier (map swap_states barriers) r) c g.

Definition InitializeOperator (op : operator) (persistent_resource_binding input_array_binding : DML_BINDING_DESC)
    (c : DmlExecutionContext) (g : device) : outcome (DmlExecutionContext * device) :=
  _ ← is_open c;
  '(c, g) ← SetCommandRecorder c g;
  '(r, g) ← Recorder_InitializeOperator op persistent_resource_binding input_array_binding (queue_ c) (dml_recorder_ c) g;
  Ok (set_recorder r c, g).

Definition ExecuteCommandList (command_list : option command_list) (c : DmlExecutionContext) (g : device)
    : outcome (Z * DmlExecutionContext * device) :=
  _ ← is_open c;
  '(c, g) ← SetCommandRecorder c g;
  '(completion_value, r, q, g) ← Recorder_ExecuteCommandList command_list (dml_recorder_ c) (queue_ c) g;
  Ok (completion_value, mkContext q (current_recorder_ c) r (closed_ c), g).

Definition AddUAVBarrier (c : DmlExecutionContext) (g : device) : outcome (DmlExecutionContext * device) :=
  _ ← is_open c;
  with_recorder Recorder_AddUAVBarrier c g.

Definition ResourceBarrier (barriers : list barrier) (c : DmlExecutionContext) (g : device) : outcome (DmlExecutionContext * device) :=
  _ ← is_open c;
  with_recorder (Recorder_ResourceBarrier barriers) c g.

(* [recorded] is what the caller puts into the list it is given, before its next call *)
Definition GetCommandListForRecordingAndInvalidateState (recorded : list command) (c : DmlExecutionContext) (g : device)
    : outcome (DmlExecutionContext * device) :=
  _ ← is_open c;
  with_recorder (fun r => append_commands recorded (Recorder_GetCommandList (InvalidateDescriptorHeap r))) c g.

Definition QueueReference (object : nat) (c : DmlExecutionContext) : outcome DmlExecutionContext :=
  _ ← is_open c;
  Ok (mkContext (Queue_QueueReference object (current_recorder_ c) (queue_ c)) (current_recorder_ c) (dml_recorder_ c) (closed_ c)).

Definition GetCurrentCompletionEvent (c : DmlExecutionContext) : outcome DmlGpuEvent :=
  _ ← is_open c;
  let event := Queue_GetCurrentCompletionEvent (queue_ c) in
  Ok (if HasUnsubmittedWork c then mkEvent (fence_value event + 1) else event).

Definition Close (c : DmlExecutionContext) (g : device) : outcome (DmlExecutionContext * device) :=
  _ ← is_open c;
  '(q, g) ← Queue_Close exec progress (queue_ c) g;
  Ok (mkContext q false (dml_recorder_ c) true, g).
End recorder.

(** ** Nothing is refused, and nothing is lost *)

Definition is_heap_command (c : command) : bool := match c with DescriptorHeaps _ => true | _ => false end.
Definition is_dispatch (c : command) : bool := match c with Dispatch _ => true | _ => false end.

(* the allocations of descriptors of the operators in a list that is submitted with the value [f] *)
Definition dispatched (f : Z) (l : list command) : list allocation :=
  flat_map (fun c => match c with Dispatch d => [mkAlloc (d_range d) (d_size d) f] | _ => [] end) l.
Definition list_dispatched (f : Z) (l : command_list) : list allocation :=
  match l_allocator l with Some _ => dispatched f (l_commands l) | None => [] end.
Definition pending_dispatched (p : list (Z * list command_list)) : list allocation :=
  flat_map (fun p => flat_map (list_dispatched p.1) p.2) p.
Definition recorded (r : DmlCommandRecorder) : list command :=
  match current_command_list_ r with Some l => l_commands l | None => [] end.
(* every operator that is recorded or submitted, and not complete *)
Definition in_flight (last : Z) (r : DmlCommandRecorder) (g : device) : list allocation :=
  pending_dispatched (pending g) ++ dispatched (last + 1) (recorded r).

(* what is recorded or submitted, and not complete *)
Definition unfinished (r : DmlCommandRecorder) (g : device) : list command :=
  flat_map (fun p => flat_map l_commands p.2) (pending g) ++ recorded r.
(* a command keeps off the buffers of [private] *)
Definition spares (private : gset nat) (c : command) : Prop := ∀ r, r ∈ touches c -> r ∉ private.

Lemma spares_none private c : touches c = [] -> Forall (spares private) [c].
Proof. intros E. constructor; [|done]. intros r. rewrite E. intros Hr. by apply elem_of_nil in Hr. Qed.

(* an allocator's event is signaled only after every submission that uses it *)
Record ring_ok (bound : Z) (ring : DmlCommandAllocatorRing) (p : list (Z * list command_list)) : Prop := {
  ro_length : length (completion_events ring) = 2%nat;
  ro_current : (current_command_allocator_ ring < 2)%nat;
  ro_order i e e' : completion_events ring !! current_command_allocator_ ring = Some e' ->
    completion_events ring !! i = Some e -> fence_value e <= fence_value e';
  ro_bound e : e ∈ completion_events ring -> fence_value e <= bound;
  ro_uses f ls l i : (f, ls) ∈ p -> l ∈ ls -> l_allocator l = Some i ->
    ∃ e, completion_events ring !! i = Some e ∧ f <= fence_value e }.

Lemma dispatched_fence f l a : a ∈ dispatched f l -> a_fence a = f.
Proof.
  intros Ha. apply list_elem_of_In, in_flat_map in Ha as (c & _ & Ha). destruct c; simpl in Ha; try done. by destruct Ha as [<-|[]].
Qed.

Lemma in_flight_fence p a : a ∈ pending_dispatched p -> ∃ ls, (a_fence a, ls) ∈ p.
Proof.
  intros Ha. apply list_elem_of_In, in_flat_map in Ha as ([f ls] & Hp & Ha). apply in_flat_map in Ha as (l & _ & Ha).
  unfold list_dispatched in Ha. destruct (l_allocator l); [|done]. apply list_elem_of_In, dispatched_fence in Ha. simpl in Ha. subst.
  exists ls. by apply list_elem_of_In.
Qed.

Section proofs.
Context (exec : command -> memory -> memory) (progress : nat -> nat) `{!Device exec}.
Context (cpu_start gpu_start : nat -> Z) (increment : Z) (CreateDescriptorHeap : list nat -> nat) `{!FreshHeap CreateDescriptorHeap}.
Context (Hincrement : 0 < increment) (private : gset nat).
Notation pool_ok := (pool_ok cpu_start gpu_start increment).
Notation AllocDescriptors := (AllocDescriptors exec progress cpu_start gpu_start increment CreateDescriptorHeap).
Notation run_commands := (run_commands exec).
Notation settled := (settled exec).
Notation later := (later exec).

Record recorder_ok (open : bool) (extra : list allocation) (q : DmlCommandQueue) (r : DmlCommandRecorder) (g : device) : Prop := {
  rk_step : in_step (last_fence_value_ q) g;
  rk_ring : ring_ok (last_fence_value_ q + 1) (command_allocator_ring_ r) (pending g);
  rk_pool : pool_ok (completed g) (extra ++ in_flight (last_fence_value_ q) r g) (heaps_ (descriptor_pool_ r));
  rk_events : Forall (events_before (last_fence_value_ q + 1)) (heaps_ (descriptor_pool_ r));
  rk_capacity : initial_heap_capacity_ (descriptor_pool_ r) < 2 ^ 32;
  rk_list : if open
    then ∃ l, current_command_list_ r = Some l ∧ l_allocator l = Some (current_command_allocator_ (command_allocator_ring_ r))
         ∧ completion_events (command_allocator_ring_ r) !! current_command_allocator_ (command_allocator_ring_ r)
           = Some (mkEvent (last_fence_value_ q + 1))
         ∧ (operations_recorded r = false -> forallb is_heap_command (l_commands l) = true)
    else current_command_list_ r = None ∧ operations_recorded r = false ∧ current_descriptor_heap_ r = None;
  rk_private : Forall (spares private) (unfinished r g) }.

Record ready (c : DmlExecutionContext) (g : device) : Prop := {
  rd_recorder : recorder_ok (current_recorder_ c) [] (queue_ c) (dml_recorder_ c) g;
  rd_closed : closed_ c = false;
  rd_closing : closing_ (queue_ c) = false }.

(* the memory once everything recorded is run *)
Definition eventually (r : DmlCommandRecorder) (g : device) : memory := run_commands (recorded r) (settled g).

Lemma run_commands_app l1 l2 m : run_commands (l1 ++ l2) m = run_commands l2 (run_commands l1 m).
Proof. apply fold_left_app. Qed.

Lemma run_heaps l m : forallb is_heap_command l = true -> run_commands l m = m.
Proof.
  revert m. induction l as [|c l IH]; intros m H; [done|]. simpl in *. apply andb_true_iff in H as [Hc Hl].
  destruct c; try done. rewrite exec_heaps. by apply IH.
Qed.

Lemma pending_dispatched_later g g' : later g g' -> pending_dispatched (pending g') ⊆+ pending_dispatched (pending g).
Proof.
  intros L. apply (later_keeps exec (fun h => pending_dispatched (pending h) ⊆+ pending_dispatched (pending g)) g g'); [| |done|done].
  - intros h IH. etrans; [|exact IH]. unfold complete_one. destruct (pending h) as [|[f ls] p] eqn:E; [by rewrite E|].
    simpl. apply submseteq_inserts_l. done.
  - intros h h' E1 E2 E3 H. by rewrite E2.
Qed.

(* the recorder is as good when the device has gone on *)
Lemma ring_ok_later bound ring g g' : later g g' -> ring_ok bound ring (pending g) -> ring_ok bound ring (pending g').
Proof. intros L [H1 H2 H3 H4 H5]. split; try done. intros f ls l i Hp. apply (H5 f ls l i). by apply (pending_later exec g g'). Qed.

Lemma unfinished_later r g g' c : later g g' -> c ∈ unfinished r g' -> c ∈ unfinished r g.
Proof.
  unfold unfinished. rewrite !elem_of_app. intros L [Hc|Hc]; [left|by right].
  apply list_elem_of_In, in_flat_map in Hc as (p & Hp & Hc). apply list_elem_of_In, in_flat_map. exists p. split; [|done].
  apply list_elem_of_In. apply (pending_later exec g g' p L). by apply list_elem_of_In.
Qed.

Lemma recorder_ok_later open extra q r g g' : later g g' -> recorder_ok open extra q r g -> recorder_ok open extra q r g'.
Proof.
  intros L [H1 H2 H3 H4 H5 H6 H7]. split; [by eapply in_step_later|by eapply ring_ok_later| |done..|].
  2:{ apply Forall_forall. intros c Hc. rewrite Forall_forall in H7. apply H7. by apply (unfinished_later r g g'). }
  eapply pool_ok_sub; [|eapply pool_ok_mono; [|exact H3]; by apply (completed_later exec (last_fence_value_ q))].
  unfold in_flight. apply submseteq_app; [done|]. apply submseteq_app; [by apply pending_dispatched_later|done].
Qed.

Lemma completed_recorder open extra q r g g' : recorder_ok open extra q r g -> later g g' -> completed g <= completed g'.
Proof. intros H. apply (completed_later exec (last_fence_value_ q)). apply H. Qed.

Lemma eventually_later r g g' : later g g' -> eventually r g' = eventually r g.
Proof. intros L. unfold eventually. by rewrite (settled_later exec g g'). Qed.

(** *** The ring *)

Lemma not_in_use last ring g bound i e : in_step last g -> ring_ok bound ring (pending g) ->
  completion_events ring !! i = Some e -> fence_value e <= completed g -> in_use i g = false.
Proof.
  intros Hs Hr He Hle. unfold in_use. apply not_true_iff_false. intros H. apply existsb_exists in H as ([f ls] & Hp & H).
  apply existsb_exists in H as (l & Hl & Hu). unfold uses_allocator in Hu. apply bool_decide_eq_true in Hu.
  apply list_elem_of_In in Hp, Hl. destruct (ro_uses _ _ _ Hr f ls l i Hp Hl Hu) as (e' & He' & Hf).
  assert (e' = e) as -> by congruence. destruct (pending_fence last g f ls Hs Hp). lia.
Qed.

(* giving the current allocator the greatest event keeps the ring *)
Lemma ring_ok_set bound ring p next cur : ring_ok bound ring p -> (cur < 2)%nat -> bound <= fence_value next ->
  ring_ok (fence_value next) (mkRing (<[cur := next]> (completion_events ring)) cur) p.
Proof.
  intros [H1 H2 H3 H4 H5] Hc Hb. split; simpl.
  - by rewrite length_insert.
  - done.
  - intros i e e'. rewrite list_lookup_insert_eq by lia. intros [= <-] He. apply list_lookup_insert_Some in He as [(_ & <- & _)|[_ He]]; [done|].
    etrans; [apply H4; by eapply list_elem_of_lookup_2|done].
  - intros e He. apply list_elem_of_lookup in He as [i He]. apply list_lookup_insert_Some in He as [(_ & <- & _)|[_ He]]; [done|].
    etrans; [apply H4; by eapply list_elem_of_lookup_2|done].
  - intros f ls l i Hp Hl Hi. destruct (H5 f ls l i Hp Hl Hi) as (e & He & Hf). destruct (decide (i = cur)) as [->|Hne].
    + exists next. rewrite list_lookup_insert_eq by lia. split; [done|].
      etrans; [exact Hf|]. etrans; [apply H4; by eapply list_elem_of_lookup_2|done].
    + exists e. by rewrite list_lookup_insert_ne.
Qed.

Lemma GetNextAllocator_ok last ring g next : in_step last g -> ring_ok (fence_value next) ring (pending g) ->
  ∃ i ring' g', GetNextAllocator exec progress next ring g = Ok (i, ring', g') ∧ later g g'
    ∧ ring_ok (fence_value next) ring' (pending g') ∧ current_command_allocator_ ring' = i ∧ completion_events ring' !! i = Some next.
Proof.
  intros Hs Hr. pose proof Hr as [H1 H2 H3 H4 _]. unfold GetNextAllocator. rewrite H1.
  set (cur := current_command_allocator_ ring) in *. set (other := ((cur + 1) mod 2)%nat).
  assert (other < 2)%nat as Ho by (unfold other; apply Nat.mod_upper_bound; lia).
  destruct (lookup_lt_is_Some_2 (completion_events ring) cur) as [ec Hec]; [lia|].
  destruct (lookup_lt_is_Some_2 (completion_events ring) other) as [eo Heo]; [lia|].
  rewrite (get_Some _ _ _ Hec), (get_Some _ _ _ Heo), !bind_Ok.
  destruct (IsSignaled exec progress ec g) as [b g1] eqn:E1. apply IsSignaled_later in E1 as [L1 Hb1].
  pose proof (in_step_later exec last g g1 L1 Hs) as Hs1.
  assert (∃ g2, (if b then IsSignaled exec progress eo g1 else (true, g1)) = (true, g2) ∧ later g1 g2) as (g2 & -> & L2).
  { destruct b; [|exists g1; split; [done|apply later_refl]].
    destruct (IsSignaled exec progress eo g1) as [b2 g2] eqn:E2. apply IsSignaled_later in E2 as [L2 Hb2].
    exists g2. split; [|done]. f_equal. apply Hb2. pose proof (completed_later exec last g1 g2 Hs1 L2).
    pose proof (H3 other eo ec Hec Heo). assert (fence_value ec <= completed g1) by (by apply Hb1). lia. }
  simpl assert_. rewrite bind_Ok.
  destruct (IsSignaled exec progress eo g2) as [b3 g3] eqn:E3. apply IsSignaled_later in E3 as [L3 Hb3].
  assert (later g g3) as L by (eapply later_trans; [|exact L3]; by eapply later_trans).
  pose proof (in_step_later exec last g g3 L Hs) as Hs3. pose proof (ring_ok_later _ _ _ _ L Hr) as Hr3.
  assert (∃ i, (if b3 then _ ← ResetAllocator other g3; Ok other else Ok cur) = Ok i ∧ (i < 2)%nat) as (i & -> & Hi).
  { destruct b3; [|by exists cur]. exists other. split; [|done]. unfold ResetAllocator.
    rewrite (not_in_use last ring g3 _ other eo Hs3 Hr3 Heo) by (by apply Hb3). done. }
  rewrite bind_Ok, put_lt, bind_Ok by lia. eexists i, _, g3. split_and!; [done|done| |done|].
  - by eapply ring_ok_set.
  - simpl. by rewrite list_lookup_insert_eq by lia.
Qed.

(** *** Recording *)

Lemma dispatched_app f l1 l2 : dispatched f (l1 ++ l2) = dispatched f l1 ++ dispatched f l2.
Proof. apply flat_map_app. Qed.

Lemma dispatched_none f l : forallb (fun c => negb (is_dispatch c)) l = true -> dispatched f l = [].
Proof.
  induction l as [|c l IH]; [done|]. simpl. intros [Hc Hl]%andb_true_iff. rewrite IH by done. by destruct c.
Qed.

(* recording [l]: the allocations of its operators were made, and only a list with work in it holds more than heaps *)
Lemma append_ok (force : bool) extra extra' q r g l :
  recorder_ok true extra q r g -> extra = dispatched (last_fence_value_ q + 1) l ++ extra' ->
  forallb is_heap_command l = true ∨ operations_recorded r = true ∨ force = true -> Forall (spares private) l ->
  ∃ r', append_commands l r = Ok r' ∧ recorder_ok true extra' q (if force then set_recorded r' else r') g
    ∧ eventually r' g = run_commands l (eventually r g) ∧ operations_recorded r' = operations_recorded r.
Proof.
  intros [H1 H2 H3 H4 H5 (cl & Hcl & Ha & He & Hh) H7] -> Hf Hl. unfold append_commands. rewrite Hcl.
  set (r' := set_list _ r). exists r'. split_and!; [done| | |done].
  - assert (pool_ok (completed g) (extra' ++ in_flight (last_fence_value_ q) r' g) (heaps_ (descriptor_pool_ r))) as Hp.
    { eapply pool_ok_sub; [|exact H3]. unfold in_flight, recorded. rewrite Hcl. simpl. rewrite dispatched_app.
      rewrite (Permutation_app_comm (dispatched _ l) extra'). rewrite <- !app_assoc.
      apply submseteq_app; [done|]. by rewrite (Permutation_app_comm (dispatched _ l)), <- app_assoc. }
    assert (∀ b, (operations_recorded (if force then set_recorded r' else r')) = b -> b = false ->
      forallb is_heap_command (l_commands cl ++ l) = true) as Hw.
    { intros b <-. destruct force; [done|]. simpl. intros Hb. rewrite forallb_app, (Hh Hb). destruct Hf as [Hf|[Hf|Hf]]; [done|congruence|done]. }
    assert (Forall (spares private) (unfinished r' g)) as Hs.
    { revert H7. unfold unfinished, recorded. rewrite Hcl. simpl. intros Hx. rewrite app_assoc. apply Forall_app. by split. }
    destruct force; (split; [done|done|exact Hp|done|done| |exact Hs]); eexists; (split_and!; [done|done|done|]); by apply Hw.
  - unfold eventually, recorded. rewrite Hcl. simpl. apply run_commands_app.
Qed.

Lemma set_recorded_ok q r g : recorder_ok true [] q r g -> recorder_ok true [] q (set_recorded r) g.
Proof. intros [H1 H2 H3 H4 H5 (cl & Hcl & Ha & He & Hh) H7]. split; try done. exists cl. by split_and!. Qed.

Lemma set_heap_ok h extra q r g : recorder_ok true extra q r g -> recorder_ok true extra q (set_heap h r) g.
Proof. intros [H1 H2 H3 H4 H5 (cl & Hcl & Ha & He & Hh) H7]. split; try done. exists cl. by split_and!. Qed.

Lemma SetDescriptorHeap_ok h extra q r g : recorder_ok true extra q r g ->
  ∃ r', SetDescriptorHeap h r = Ok r' ∧ recorder_ok true extra q r' g ∧ eventually r' g = eventually r g
    ∧ operations_recorded r' = operations_recorded r.
Proof.
  intros H. unfold SetDescriptorHeap. destruct h as [h|]; [|by exists r]. case_decide; [by exists r|].
  destruct (append_ok false extra extra q (set_heap (Some h) r) g [DescriptorHeaps h]) as (r' & E & Hr & Hv & Ho); [by apply set_heap_ok|done|by left|by apply spares_none|].
  exists r'. split_and!; [done|done| |done]. rewrite Hv. apply run_heaps. done.
Qed.

(* an open list *)
Lemma Open_ok q r g : recorder_ok false [] q r g ->
  ∃ r' g', Open exec progress q r g = Ok (r', g') ∧ later g g' ∧ recorder_ok true [] q r' g' ∧ eventually r' g' = eventually r g
    ∧ operations_recorded r' = false.
Proof.
  intros [H1 H2 H3 H4 H5 (Hl & Ho & Hh) H7]. unfold Open. rewrite bool_decide_true by done. simpl assert_. rewrite bind_Ok.
  destruct (GetNextAllocator_ok (last_fence_value_ q) (command_allocator_ring_ r) g (GetNextCompletionEvent q) H1 H2)
    as (i & ring & g' & -> & L & Hr & Hi & He).
  rewrite bind_Ok. eexists _, g'. split_and!; [done|done| | |done].
  - assert (recorder_ok false [] q r g') as [K1 K2 K3 K4 K5 _ K7] by (eapply recorder_ok_later; [done|by split]).
    split; [done|done| |done|done| |].
    + eapply pool_ok_sub; [|exact K3]. unfold in_flight, recorded. by rewrite Hl.
    + eexists. split_and!; [done|simpl; by rewrite Hi|simpl; by rewrite Hi|done].
    + revert K7. unfold unfinished, recorded. by rewrite Hl.
  - rewrite <- (eventually_later r g g' L). unfold eventually, recorded. by rewrite Hl.
Qed.

(** *** Submitting *)

Lemma ring_ok_bound bound bound' ring p : bound <= bound' -> ring_ok bound ring p -> ring_ok bound' ring p.
Proof. intros Hb [H1 H2 H3 H4 H5]. split; try done. intros e He. etrans; [by apply H4|done]. Qed.

Lemma ring_ok_submit bound ring p f ls : ring_ok bound ring p ->
  (∀ l i, l ∈ ls -> l_allocator l = Some i -> ∃ e, completion_events ring !! i = Some e ∧ f <= fence_value e) ->
  ring_ok bound ring (p ++ [(f, ls)]).
Proof.
  intros [H1 H2 H3 H4 H5] H. split; try done. intros f' ls' l i [Hp|Hp]%elem_of_app; [by apply H5|].
  apply list_elem_of_singleton in Hp as [= -> ->]. apply H.
Qed.

Lemma pending_dispatched_app p1 p2 : pending_dispatched (p1 ++ p2) = pending_dispatched p1 ++ pending_dispatched p2.
Proof. apply flat_map_app. Qed.

(* a list of the caller's own *)
Definition own_list (l : command_list) : Prop := l_allocator l = None.
Definition list_commands (cl : option command_list) : list command := match cl with Some l => l_commands l | None => [] end.

Lemma CloseAndExecute_ok cl q r g : recorder_ok true [] q r g -> operations_recorded r = true ->
  (∀ l, cl = Some l -> own_list l) -> Forall (spares private) (list_commands cl) ->
  ∃ r' q' g', CloseAndExecute cl r q g = Ok (r', q', g') ∧ recorder_ok false [] q' r' g'
    ∧ q' = mkQueue (queued_references_ q) (last_fence_value_ q + 1) (closing_ q)
    ∧ eventually r' g' = run_commands (list_commands cl) (eventually r g) ∧ completed g' = completed g.
Proof.
  intros [H1 H2 H3 H4 H5 (l & Hl & Ha & He & Hh) H7] Ho Hcl Hsp. unfold CloseAndExecute. rewrite Hl, Ho.
  rewrite decide_False by (by destruct cl). set (ls := [l] ++ option_list cl).
  destruct (ExecuteCommandLists ls q g) as [q' g'] eqn:E. pose proof (in_step_submit ls q g H1) as Hs.
  pose proof (settled_submit exec ls q g) as Hv. rewrite E in Hs, Hv. simpl in Hs, Hv. injection E as <- <-.
  eexists _, _, _. split_and!; [done| |done| |done].
  - split; [done| | | |done|done|]; simpl.
    + apply ring_ok_submit; [by apply (ring_ok_bound (last_fence_value_ q + 1)); [lia|]|].
      intros x i Hx Hi. apply elem_of_app in Hx as [->%list_elem_of_singleton|Hx].
      * rewrite Ha in Hi. injection Hi as <-. by eexists.
      * destruct cl as [x'|]; simpl in Hx; [|by apply elem_of_nil in Hx]. apply list_elem_of_singleton in Hx as ->.
        rewrite (Hcl x' eq_refl) in Hi. done.
    + revert H3. unfold in_flight, recorded. simpl. rewrite Hl, app_nil_r, pending_dispatched_app. unfold pending_dispatched at 2. simpl.
      unfold list_dispatched at 2. rewrite Ha. assert (flat_map (list_dispatched (last_fence_value_ q + 1)) (option_list cl) = []) as Hn.
      { destruct cl as [x|]; [|done]. simpl. unfold list_dispatched. by rewrite (Hcl x eq_refl). }
      simpl in Hn |- *. by rewrite Hn, !app_nil_r.
    + eapply Forall_impl; [exact H4|]. intros h Hv' e Hee. specialize (Hv' e Hee). lia.
    + revert H7. unfold unfinished, recorded. simpl. rewrite Hl, flat_map_app, app_nil_r, !Forall_app. intros [? ?]. split; [done|].
      simpl. rewrite app_nil_r. apply Forall_app. split; [done|]. destruct cl; [|done]. simpl in *. by rewrite app_nil_r.
  - unfold eventually, recorded. simpl. rewrite Hv, Hl. unfold ls. simpl. unfold run_lists. by destruct cl.
Qed.

Lemma Recorder_ExecuteCommandList_ok cl q r g : recorder_ok true [] q r g -> own_list cl -> Forall (spares private) (l_commands cl) ->
  ∃ v r' q' g', Recorder_ExecuteCommandList exec progress (Some cl) r q g = Ok (v, r', q', g') ∧ recorder_ok true [] q' r' g'
    ∧ q' = mkQueue (queued_references_ q) (last_fence_value_ q + 1) (closing_ q) ∧ v = last_fence_value_ q'
    ∧ eventually r' g' = run_commands (l_commands cl) (eventually r g) ∧ operations_recorded r' = false ∧ completed g <= completed g'.
Proof.
  intros H Hcl Hsp. unfold Recorder_ExecuteCommandList. destruct (operations_recorded r) eqn:Ho; simpl negb; cbv iota.
  - destruct (CloseAndExecute_ok (Some cl) q r g H Ho) as (r1 & q1 & g1 & -> & H1 & Hq & Hv1 & Hc1); [by intros ? [= <-]|done|]. rewrite bind_Ok.
    destruct (Open_ok _ _ _ H1) as (r2 & g2 & -> & L & H2 & Hv2 & Ho2). rewrite bind_Ok.
    destruct (SetDescriptorHeap_ok (current_descriptor_heap_ r) [] q1 r2 g2 H2) as (r3 & -> & H3 & Hv3 & Ho3). rewrite bind_Ok.
    eexists _, r3, q1, g2. split_and!; [done|done|done|done|by rewrite Hv3, Hv2, Hv1|congruence|]. rewrite <- Hc1. by apply (completed_recorder _ _ _ _ _ _ H1).
  - destruct H as [H1 H2 H3 H4 H5 (l & Hl & Ha & He & Hh) H7]. specialize (Hh Ho).
    destruct (ExecuteCommandLists [cl] q g) as [q' g'] eqn:E. pose proof (in_step_submit [cl] q g H1) as Hs.
    pose proof (settled_submit exec [cl] q g) as Hv. rewrite E in Hs, Hv. simpl in Hs, Hv. injection E as <- <-.
    unfold UpdateCurrentAllocatorCompletionEvent. rewrite put_lt by (rewrite (ro_length _ _ _ H2); apply H2). rewrite !bind_Ok.
    eexists _, _, _, _. split_and!; [done| |done|done| |done|done].
    + assert (∀ f, dispatched f (l_commands l) = []) as Hd.
      { intros f. apply dispatched_none. apply forallb_forall. intros x Hx.
        apply forallb_forall with (x := x) in Hh; [by destruct x|done]. }
      split; simpl; [done| | | |done| |].
      * apply ring_ok_submit.
        { pose proof (ring_ok_set (last_fence_value_ q + 1) _ _ (mkEvent (last_fence_value_ q + 1 + 1)) _ H2 (ro_current _ _ _ H2)) as Hr.
          apply Hr. simpl. lia. }
        intros x i ->%list_elem_of_singleton Hi. unfold own_list in Hcl. congruence.
      * revert H3. unfold in_flight, recorded. simpl. rewrite Hl, !Hd, !app_nil_r, pending_dispatched_app. unfold pending_dispatched at 3. simpl.
        unfold list_dispatched at 1. by rewrite Hcl, !app_nil_r.
      * eapply Forall_impl; [exact H4|]. intros h Hv' e Hee. specialize (Hv' e Hee). lia.
      * exists l. split_and!; [done|done| |done]. rewrite list_lookup_insert_eq; [done|]. rewrite (ro_length _ _ _ H2). apply H2.
      * revert H7. unfold unfinished, recorded. simpl. rewrite Hl, flat_map_app, !Forall_app. intros [? ?].
        split_and!; [done| |done]. simpl. by rewrite !app_nil_r.
    + unfold eventually, recorded. simpl. rewrite Hv, Hl, run_heaps by done. by rewrite (run_heaps (l_commands l)).
Qed.

(** *** Operators *)

(* what the checks of InitializeOperator ask, and a count the pool can serve *)
Definition operator_ok (op : operator) : Prop := 0 <= RequiredDescriptorCount op < 2 ^ 32.

(* what an operator does does not depend on its descriptors *)
Definition no_range : DmlDescriptorRange := mkRange 0 0 0.
Definition initializing (op : operator) (persistent input : DML_BINDING_DESC) : list command :=
  [Dispatch (mkDispatch (o_id op) no_range (RequiredDescriptorCount op) (temporary_binding op) BINDING_NONE (given input) (given persistent))].
Definition executing (op : operator) (persistent : DML_BINDING_DESC) (inputs outputs : list DML_BINDING_DESC) : list command :=
  [Dispatch (mkDispatch (o_id op) no_range (RequiredDescriptorCount op) (temporary_binding op) persistent inputs outputs)].

(* descriptors are given, the heap is set and the dispatch recorded *)
Lemma dispatch_ok q r g op t p i o : recorder_ok true [] q r g -> operator_ok op ->
  spares private (Dispatch (mkDispatch (o_id op) no_range (RequiredDescriptorCount op) t p i o)) ->
  ∃ range pool g' r1 r2, AllocDescriptors (RequiredDescriptorCount op) (GetNextCompletionEvent q) SHADER_VISIBLE (descriptor_pool_ r) g = Ok (range, pool, g')
    ∧ SetDescriptorHeap (Some (r_heap range)) (set_pool pool r) = Ok r1
    ∧ append_commands [Dispatch (mkDispatch (o_id op) range (RequiredDescriptorCount op) t p i o)] r1 = Ok r2
    ∧ later g g' ∧ recorder_ok true [] q (set_recorded r2) g'
    ∧ eventually r2 g' = exec (Dispatch (mkDispatch (o_id op) no_range (RequiredDescriptorCount op) t p i o)) (eventually r g).
Proof.
  intros H Hop Hsp. pose proof H as [H1 H2 H3 H4 H5 H6 H7]. cbn [app] in H3.
  destruct (AllocDescriptors_ok exec progress cpu_start gpu_start increment CreateDescriptorHeap (last_fence_value_ q) _
    (RequiredDescriptorCount op) (GetNextCompletionEvent q) SHADER_VISIBLE (descriptor_pool_ r) g Hop Hincrement H5 H1 H3 H4)
    as (range & pool & g' & E & L & Hp & Hev & Hcap).
  set (a := mkAlloc range (RequiredDescriptorCount op) (last_fence_value_ q + 1)) in *.
  assert (recorder_ok true [a] q (set_pool pool r) g') as Ha.
  { destruct (recorder_ok_later _ _ _ _ _ _ L H) as [K1 K2 K3 K4 K5 K6 K7].
    split; [done|done| |done|simpl; by rewrite Hcap|done|exact K7]. eapply pool_ok_sub; [|exact Hp].
    unfold in_flight. simpl. apply submseteq_skip, submseteq_app; [by apply pending_dispatched_later|done]. }
  destruct (SetDescriptorHeap_ok (Some (r_heap range)) [a] q _ _ Ha) as (r1 & E1 & Ha1 & Hv1 & _).
  destruct (append_ok true [a] [] q r1 g' [Dispatch (mkDispatch (o_id op) range (RequiredDescriptorCount op) t p i o)] Ha1)
    as (r2 & E2 & Ha2 & Hv2 & _); [done|by right; right|by constructor|].
  exists range, pool, g', r1, r2. split_and!; [done..|]. rewrite Hv2, Hv1. simpl.
  rewrite (exec_range _ range no_range). f_equal. rewrite <- (eventually_later r g g' L). done.
Qed.

Lemma Recorder_InitializeOperator_ok q r g op persistent input : recorder_ok true [] q r g -> operator_ok op -> Forall (spares private) (initializing op persistent input) ->
  is_none input || is_buffer_array input = true -> is_none persistent || is_buffer persistent = true ->
  ∃ r' g', Recorder_InitializeOperator exec progress cpu_start gpu_start increment CreateDescriptorHeap op persistent input q r g = Ok (r', g')
    ∧ later g g' ∧ recorder_ok true [] q r' g' ∧ eventually r' g' = run_commands (initializing op persistent input) (eventually r g).
Proof.
  intros H Hop [Hsp _]%Forall_cons Hi Hp. unfold Recorder_InitializeOperator.
  destruct (dispatch_ok q r g op (temporary_binding op) BINDING_NONE (given input) (given persistent) H Hop Hsp)
    as (range & pool & g' & r1 & r2 & -> & E1 & E2 & L & Hr & Hv).
  rewrite bind_Ok, Hi, Hp. simpl assert_. rewrite !bind_Ok, E1, bind_Ok, E2, bind_Ok.
  destruct (negb (is_none persistent) || _).
  - destruct (append_ok false [] [] q (set_recorded r2) g' [Barriers [UAV]] Hr) as (r3 & -> & Hr3 & Hv3 & _); [done|by right; left|by apply spares_none|].
    rewrite bind_Ok. exists r3, g'. split_and!; [done|done|done|]. rewrite Hv3. simpl. rewrite exec_barriers. exact Hv.
  - rewrite bind_Ok. exists (set_recorded r2), g'. split_and!; [done|done|done|exact Hv].
Qed.

Lemma Recorder_ExecuteOperator_ok q r g op persistent inputs outputs : recorder_ok true [] q r g -> operator_ok op -> Forall (spares private) (executing op persistent inputs outputs) ->
  ∃ r' g', Recorder_ExecuteOperator exec progress cpu_start gpu_start increment CreateDescriptorHeap op persistent inputs outputs q r g = Ok (r', g')
    ∧ later g g' ∧ recorder_ok true [] q r' g' ∧ eventually r' g' = run_commands (executing op persistent inputs outputs) (eventually r g).
Proof.
  intros H Hop [Hsp _]%Forall_cons. unfold Recorder_ExecuteOperator.
  destruct (dispatch_ok q r g op (temporary_binding op) persistent inputs outputs H Hop Hsp) as (range & pool & g' & r1 & r2 & -> & E1 & E2 & L & Hr & Hv).
  rewrite !bind_Ok, E1, bind_Ok, E2, bind_Ok.
  destruct (append_ok false [] [] q (set_recorded r2) g' [Barriers [UAV]] Hr) as (r3 & -> & Hr3 & Hv3 & _); [done|by right; left|by apply spares_none|].
  rewrite bind_Ok. exists r3, g'. split_and!; [done|done|done|]. rewrite Hv3. simpl. rewrite exec_barriers. exact Hv.
Qed.

(** *** The calls of the context *)

Definition does (l : list command) (c : DmlExecutionContext) (g : device) (c' : DmlExecutionContext) (g' : device) : Prop :=
  ready c' g' ∧ eventually (dml_recorder_ c') g' = run_commands l (eventually (dml_recorder_ c) g) ∧ completed g <= completed g'.

Lemma does_trans l1 l2 c1 g1 c2 g2 c3 g3 : does l1 c1 g1 c2 g2 -> does l2 c2 g2 c3 g3 -> does (l1 ++ l2) c1 g1 c3 g3.
Proof. intros (_ & E1 & L1) (H2 & E2 & L2). split_and!; [done| |lia]. by rewrite E2, E1, run_commands_app. Qed.

Lemma ready_open c g : ready c g -> is_open c = Ok ().
Proof. intros H. unfold is_open. by rewrite (rd_closed _ _ H). Qed.

Lemma SetCommandRecorder_ok c g : ready c g ->
  ∃ c' g', SetCommandRecorder exec progress c g = Ok (c', g') ∧ does [] c g c' g' ∧ later g g' ∧ current_recorder_ c' = true
    ∧ queue_ c' = queue_ c ∧ operations_recorded (dml_recorder_ c') = operations_recorded (dml_recorder_ c).
Proof.
  intros H. unfold SetCommandRecorder. rewrite (ready_open _ _ H), bind_Ok. destruct (current_recorder_ c) eqn:Ec.
  { exists c, g. split_and!; [done|by split_and!|apply later_refl|done..]. }
  destruct H as [Hr Hc Hq]. rewrite Ec in Hr. destruct (Open_ok _ _ _ Hr) as (r & g' & -> & L & Hr' & Hv & Ho). rewrite bind_Ok.
  eexists _, g'. split_and!; [done|split_and!; [by split|exact Hv|by apply (completed_recorder _ _ _ _ _ _ Hr)]|done..|]. simpl. rewrite Ho. by destruct (rk_list _ _ _ _ _ Hr) as (_ & -> & _).
Qed.

(* what is recorded through the recorder *)
Definition records (l : list command) (q : DmlCommandQueue) (f : DmlCommandRecorder -> outcome DmlCommandRecorder) : Prop :=
  ∀ r g, recorder_ok true [] q r g ->
  ∃ r', f r = Ok r' ∧ recorder_ok true [] q r' g ∧ eventually r' g = run_commands l (eventually r g) ∧ operations_recorded r' = true.

Lemma with_recorder_ok l f c g : ready c g -> records l (queue_ c) f ->
  ∃ c' g', with_recorder exec progress f c g = Ok (c', g') ∧ does l c g c' g' ∧ HasUnsubmittedWork c' = true ∧ queue_ c' = queue_ c.
Proof.
  intros H Hf. unfold with_recorder. destruct (SetCommandRecorder_ok c g H) as (c1 & g1 & -> & (H1 & E1 & Hc1) & L & Hcur & Hq & _).
  rewrite bind_Ok. destruct H1 as [Hr Hc Hcl]. rewrite Hcur, Hq in Hr.
  destruct (Hf _ _ Hr) as (r & -> & Hr' & Hv & Ho). rewrite bind_Ok. eexists _, g1. split_and!; [done| | |done].
  - split_and!; [split; simpl; [by rewrite Hcur, Hq|done|done]| |done]. simpl. by rewrite Hv, E1.
  - unfold HasUnsubmittedWork. simpl. by rewrite Hcur, Ho.
Qed.

Lemma record_records q l : forallb (fun c => negb (is_dispatch c)) l = true -> Forall (spares private) l ->
  records l q (fun r => r ← append_commands l r; Ok (set_recorded r)).
Proof.
  intros Hl Hsp r g H. destruct (append_ok true [] [] q r g l H) as (r' & -> & Hr & Hv & _); [by rewrite dispatched_none|by right; right|done|].
  exists (set_recorded r'). by split_and!.
Qed.

Lemma records_bind q l1 l2 f1 f2 : records l1 q f1 -> records l2 q f2 -> records (l1 ++ l2) q (fun r => r ← f1 r; f2 r).
Proof.
  intros H1 H2 r g H. destruct (H1 r g H) as (r1 & -> & Hr1 & Hv1 & _). destruct (H2 r1 g Hr1) as (r2 & E & Hr2 & Hv2 & Ho).
  exists r2. split_and!; [done|done| |done]. by rewrite Hv2, Hv1, run_commands_app.
Qed.

Lemma barrier_records q bs : records [] q (Recorder_ResourceBarrier bs).
Proof.
  intros r g H. destruct (record_records q [Barriers bs] eq_refl (spares_none private (Barriers bs) eq_refl) r g H) as (r' & E & Hr & Hv & Ho). exists r'. split_and!; [done|done| |done].
  rewrite Hv. simpl. apply exec_barriers.
Qed.

Lemma CopyBufferRegion_ok d doff dstate s soff sstate n c g : ready c g -> spares private (Copy d doff s soff n) ->
  ∃ c' g', CopyBufferRegion exec progress d doff dstate s soff sstate n c g = Ok (c', g') ∧ does [Copy d doff s soff n] c g c' g'
    ∧ HasUnsubmittedWork c' = true ∧ queue_ c' = queue_ c.
Proof.
  intros H Hsp. unfold CopyBufferRegion. rewrite (ready_open _ _ H), bind_Ok. apply with_recorder_ok; [done|].
  assert (records [Copy d doff s soff n] (queue_ c) (Recorder_CopyBufferRegion d doff s soff n)) as Hcopy.
  { apply record_records; [done|by constructor]. }
  case_decide.
  - intros r g' Hr. destruct (Hcopy r g' Hr) as (r' & E & Hr'). rewrite bind_Ok, E, bind_Ok. by exists r'.
  - apply (records_bind _ [] _ _ (fun r => r ← Recorder_CopyBufferRegion d doff s soff n r; Recorder_ResourceBarrier _ r)); [apply barrier_records|].
    apply (records_bind _ [Copy d doff s soff n] []); [done|apply barrier_records].
Qed.

Lemma Flush_ok c g : ready c g ->
  ∃ c' g', Flush exec progress c g = Ok (c', g') ∧ does [] c g c' g' ∧ HasUnsubmittedWork c' = false
    ∧ last_fence_value_ (queue_ c') = last_fence_value_ (queue_ c) + (if HasUnsubmittedWork c then 1 else 0).
Proof.
  intros H. unfold Flush. rewrite (ready_open _ _ H), bind_Ok. destruct (HasUnsubmittedWork c) eqn:Hw; simpl negb; cbv iota.
  2:{ exists c, g. split_and!; [done|by split_and!|done|lia]. }
  apply andb_true_iff in Hw as [Hcur Ho]. pose proof H as [Hr Hcl Hq]. rewrite Hcur in Hr.
  destruct (CloseAndExecute_ok None _ _ _ Hr Ho) as (r1 & q1 & g1 & -> & Hr1 & Hq1 & Hv1 & Hc1); [done|by constructor|]. rewrite bind_Ok.
  unfold ReleaseCompletedReferences, is_open at 1. simpl closed_. rewrite Hcl. simpl assert_. rewrite bind_Ok. simpl queue_.
  destruct (Queue_ReleaseCompletedReferences exec progress q1 g1) as [q2 g2] eqn:Eq. rewrite bind_Ok.
  assert (later g1 g2 ∧ q2 = mkQueue (queued_references_ q2) (last_fence_value_ q1) (closing_ q1)) as [L Hq2].
  { unfold Queue_ReleaseCompletedReferences in Eq. pose proof (later_poll exec progress g1) as L.
    destruct (GetCompletedValue exec progress g1) as [v h]. by injection Eq as <- <-. }
  assert (ready (mkContext q2 false r1 false) g2) as H2.
  { split; simpl; [|done|by rewrite Hq2, Hq1]. apply (recorder_ok_later _ _ _ _ _ _ L) in Hr1. rewrite Hq2.
    destruct Hr1 as [K1 K2 K3 K4 K5 K6 K7]. by split. }
  destruct (SetCommandRecorder_ok _ _ H2) as (c3 & g3 & E3 & (H3 & Hv3 & Hc3) & _ & _ & Hq3 & Ho3).
  match goal with |- context [SetCommandRecorder _ _ ?c' g2] => change c' with (mkContext q2 false r1 false) end. rewrite E3.
  exists c3, g3. split_and!; [done| | |by rewrite Hq3; simpl; rewrite Hq2, Hq1].
  - pose proof (completed_recorder _ _ _ _ _ _ Hr1 L). split_and!; [done| |lia]. rewrite Hv3. simpl. rewrite (eventually_later _ _ _ L). rewrite Hv1. done.
  - unfold HasUnsubmittedWork. rewrite Ho3. simpl. destruct (rk_list _ _ _ _ _ Hr1) as (_ & -> & _). apply andb_false_r.
Qed.

(* everything is submitted and waited for *)
Definition Finish (c : DmlExecutionContext) (g : device) : outcome (DmlExecutionContext * device) :=
  '(c, g) ← Flush exec progress c g;
  event ← GetCurrentCompletionEvent c;
  g ← WaitForSignal exec progress event g;
  Ok (c, g).

Lemma completed_all last g : in_step last g -> last <= completed g -> pending g = [].
Proof. intros [H1 H2] Hl. replace (completed g) with last in H2 by lia. rewrite Z.sub_diag in H2. by destruct (pending g). Qed.

Lemma recorded_idle c g m : ready c g -> HasUnsubmittedWork c = false -> run_commands (recorded (dml_recorder_ c)) m = m.
Proof.
  intros [H _ _] Hw. pose proof (rk_list _ _ _ _ _ H) as Hl. unfold HasUnsubmittedWork in Hw. unfold recorded.
  destruct (current_recorder_ c); simpl in Hw.
  - destruct Hl as (l & -> & _ & _ & Hh). apply run_heaps. by apply Hh.
  - by destruct Hl as (-> & _).
Qed.

Lemma ready_later c g g' : later g g' -> ready c g -> ready c g'.
Proof. intros L [H1 H2 H3]. split; [by eapply recorder_ok_later|done..]. Qed.

Lemma wait_submitted_ok c g : ready c g -> HasUnsubmittedWork c = false ->
  ∃ e g', GetCurrentCompletionEvent c = Ok e ∧ WaitForSignal exec progress e g = Ok g' ∧ later g g' ∧ does [] c g c g'
    ∧ pending g' = [] ∧ dev_memory g' = eventually (dml_recorder_ c) g.
Proof.
  intros H Hw. unfold GetCurrentCompletionEvent. rewrite (ready_open _ _ H), bind_Ok, Hw.
  pose proof (rk_step _ _ _ _ _ (rd_recorder _ _ H)) as Hs.
  destruct (WaitForSignal_ok exec progress (last_fence_value_ (queue_ c)) (Queue_GetCurrentCompletionEvent (queue_ c)) g Hs) as (g' & E & L & Hc); [done|].
  pose proof (in_step_later exec _ _ _ L Hs) as Hs'. pose proof (completed_all _ _ Hs' Hc) as Hp.
  eexists _, g'. split_and!; [done|done|done| |done|].
  - split_and!; [by eapply ready_later|apply (eventually_later _ g g' L)|by apply (completed_recorder _ _ _ _ _ _ (rd_recorder _ _ H))].
  - rewrite <- (eventually_later _ g g' L). unfold eventually. rewrite (recorded_idle c g' _ (ready_later _ _ _ L H) Hw). unfold DmlQueue.settled. by rewrite Hp.
Qed.

(* the same with an event that is taken before the flush *)
Lemma flush_and_wait_ok c g : ready c g -> HasUnsubmittedWork c = true ->
  ∃ e c' g1 g', GetCurrentCompletionEvent c = Ok e ∧ Flush exec progress c g = Ok (c', g1) ∧ WaitForSignal exec progress e g1 = Ok g'
    ∧ does [] c g c' g' ∧ pending g' = [] ∧ HasUnsubmittedWork c' = false ∧ fence_value e <= completed g'
    ∧ last_fence_value_ (queue_ c) < fence_value e.
Proof.
  intros H Hw. destruct (Flush_ok c g H) as (c' & g1 & E & (H1 & E1 & Hc1) & Hw1 & Hl). rewrite Hw in Hl.
  unfold GetCurrentCompletionEvent. rewrite (ready_open _ _ H), bind_Ok, Hw.
  pose proof (rk_step _ _ _ _ _ (rd_recorder _ _ H1)) as Hs. set (e := mkEvent _).
  destruct (WaitForSignal_ok exec progress _ e g1 Hs) as (g' & Ew & L & Hc); [simpl; lia|].
  exists e, c', g1, g'. pose proof (completed_recorder _ _ _ _ _ _ (rd_recorder _ _ H1) L).
  split_and!; [done|done|done| | |done|done|simpl; lia].
  - split_and!; [by eapply ready_later| |lia]. rewrite (eventually_later _ g1 g' L). exact E1.
  - apply (completed_all (last_fence_value_ (queue_ c'))); [by eapply in_step_later|]. simpl in Hc. lia.
Qed.

Lemma Finish_ok c g : ready c g ->
  ∃ c' g', Finish c g = Ok (c', g') ∧ does [] c g c' g' ∧ pending g' = [] ∧ dev_memory g' = eventually (dml_recorder_ c) g.
Proof.
  intros H. unfold Finish. destruct (Flush_ok c g H) as (c1 & g1 & -> & (H1 & E1 & Hc1) & Hw & _). rewrite bind_Ok.
  destruct (wait_submitted_ok c1 g1 H1 Hw) as (e & g2 & -> & Ew & L & (H2 & E2 & Hc2) & Hp & Hm). rewrite bind_Ok, Ew, bind_Ok.
  exists c1, g2. split_and!; [done| |done|by rewrite Hm]. split_and!; [done|by rewrite E2|lia].
Qed.

(* closing waits for what was submitted and drops the rest *)
Lemma Close_ok c g : ready c g ->
  ∃ c' g', Close exec progress c g = Ok (c', g') ∧ later g g' ∧ pending g' = [] ∧ queued_references_ (queue_ c') = [] ∧ closed_ c' = true.
Proof.
  intros H. unfold Close. rewrite (ready_open _ _ H), bind_Ok. unfold Queue_Close. rewrite (rd_closing _ _ H). simpl assert_. rewrite bind_Ok.
  pose proof (rk_step _ _ _ _ _ (rd_recorder _ _ H)) as Hs.
  destruct (WaitForSignal_ok exec progress (last_fence_value_ (queue_ c)) (Queue_GetCurrentCompletionEvent (queue_ c)) g Hs) as (g' & -> & L & Hc); [done|].
  rewrite !bind_Ok. eexists _, g'. split_and!; [done|done| |done|done].
  by apply (completed_all _ _ (in_step_later exec _ _ _ L Hs)).
Qed.

(** ** Calls *)

Inductive call : Type :=
  | C_Copy (dst : nat) (dst_offset dst_state : Z) (src : nat) (src_offset src_state n : Z)
  | C_Initialize (op : operator) (persistent input : DML_BINDING_DESC)
  | C_Execute (l : command_list)
  | C_Barrier (bs : list barrier)
  | C_UAV
  | C_Record (l : list command)
  | C_Reference (object : nat)
  | C_Release
  | C_Flush
  | C_Finish.

Definition run_call (a : call) (c : DmlExecutionContext) (g : device) : outcome (DmlExecutionContext * device) :=
  match a with
  | C_Copy d doff dstate s soff sstate n => CopyBufferRegion exec progress d doff dstate s soff sstate n c g
  | C_Initialize op p i => InitializeOperator exec progress cpu_start gpu_start increment CreateDescriptorHeap op p i c g
  | C_Execute l => '(_, c, g) ← ExecuteCommandList exec progress (Some l) c g; Ok (c, g)
  | C_Barrier bs => ResourceBarrier exec progress bs c g
  | C_UAV => AddUAVBarrier exec progress c g
  | C_Record l => GetCommandListForRecordingAndInvalidateState exec progress l c g
  | C_Reference o => c ← QueueReference o c; Ok (c, g)
  | C_Release => ReleaseCompletedReferences exec progress c g
  | C_Flush => Flush exec progress c g
  | C_Finish => Finish c g
  end.
Definition run_calls (l : list call) (c : DmlExecutionContext) (g : device) : outcome (DmlExecutionContext * device) :=
  for_each (fun a w => run_call a w.1 w.2) l (c, g).

(* what a call is there for *)
Definition commands_of (a : call) : list command :=
  match a with
  | C_Copy d doff _ s soff _ n => [Copy d doff s soff n]
  | C_Initialize op p i => initializing op p i
  | C_Execute l => l_commands l
  | C_Record l => l
  | _ => []
  end.

Definition call_ok (a : call) : Prop :=
  match a with
  | C_Initialize op p i => operator_ok op ∧ is_none i || is_buffer_array i = true ∧ is_none p || is_buffer p = true
  | C_Execute l => own_list l
  | C_Record l => forallb (fun c => negb (is_dispatch c)) l = true
  | _ => True
  end.

Lemma run_call_ok a c g : ready c g -> call_ok a -> Forall (spares private) (commands_of a) -> ∃ c' g', run_call a c g = Ok (c', g') ∧ does (commands_of a) c g c' g'.
Proof.
  intros H Ha Hsp. destruct a as [d doff dstate s soff sstate n|op p i|l|bs| |l|o| | |]; simpl in Ha, Hsp |- *.
  - apply Forall_cons in Hsp as [Hsp _]. destruct (CopyBufferRegion_ok d doff dstate s soff sstate n c g H Hsp) as (c' & g' & E & Hd & _). eauto.
  - destruct Ha as (Hop & Hi & Hp). unfold InitializeOperator. rewrite (ready_open _ _ H), bind_Ok.
    destruct (SetCommandRecorder_ok c g H) as (c1 & g1 & -> & ([Hr Hc Hcl] & E1 & Hle) & L & Hcur & Hq & _). rewrite bind_Ok. rewrite Hcur in Hr.
    destruct (Recorder_InitializeOperator_ok _ _ _ op p i Hr Hop Hsp Hi Hp) as (r & g2 & -> & L2 & Hr2 & Hv2). rewrite bind_Ok.
    eexists _, g2. split; [done|]. pose proof (completed_recorder _ _ _ _ _ _ Hr L2).
    split_and!; [by split; simpl; [rewrite Hcur|..]| |lia]. simpl in Hv2 |- *. by rewrite Hv2, E1.
  - unfold ExecuteCommandList. rewrite (ready_open _ _ H), bind_Ok.
    destruct (SetCommandRecorder_ok c g H) as (c1 & g1 & -> & ([Hr Hc Hcl] & E1 & Hle) & L & Hcur & Hq & _). rewrite bind_Ok. rewrite Hcur in Hr.
    destruct (Recorder_ExecuteCommandList_ok l _ _ _ Hr Ha Hsp) as (v & r & q & g2 & -> & Hr2 & Hq2 & _ & Hv2 & _ & Hle2). rewrite !bind_Ok.
    eexists _, g2. split; [done|]. split_and!; [split; simpl; [by rewrite Hcur|done|by rewrite Hq2]| |lia]. simpl. by rewrite Hv2, E1.
  - unfold ResourceBarrier. rewrite (ready_open _ _ H), bind_Ok.
    destruct (with_recorder_ok [] _ c g H (barrier_records _ bs)) as (c' & g' & E & Hd & _). eauto.
  - unfold AddUAVBarrier. rewrite (ready_open _ _ H), bind_Ok.
    destruct (with_recorder_ok [] _ c g H (barrier_records _ [UAV])) as (c' & g' & E & Hd & _). eauto.
  - unfold GetCommandListForRecordingAndInvalidateState. rewrite (ready_open _ _ H), bind_Ok.
    destruct (with_recorder_ok l (fun r => append_commands l (Recorder_GetCommandList (InvalidateDescriptorHeap r))) c g H) as (c' & g' & E & Hd & _); [|eauto].
    intros r g' Hr. pose proof (set_recorded_ok _ _ _ (set_heap_ok None _ _ _ _ Hr)) as Hr1.
    destruct (append_ok false [] [] _ _ g' l Hr1) as (r' & E & Hr2 & Hv2 & Ho2); [by rewrite dispatched_none|by right; left|done|]. by exists r'.
  - unfold QueueReference. rewrite (ready_open _ _ H), !bind_Ok. eexists _, g. split; [done|].
    destruct H as [[K1 K2 K3 K4 K5 K6 K7] Hc Hcl]. split; [|done]. unfold Queue_QueueReference. rewrite Hcl. by split; [split|..].
  - unfold ReleaseCompletedReferences. rewrite (ready_open _ _ H), bind_Ok. unfold Queue_ReleaseCompletedReferences.
    pose proof (later_poll exec progress g) as L. destruct (GetCompletedValue exec progress g) as [v g']. simpl in L.
    eexists _, g'. split; [done|]. destruct (ready_later _ _ _ L H) as [[K1 K2 K3 K4 K5 K6 K7] Hc Hcl].
    split_and!; [by split; [split|..]|apply (eventually_later _ g g' L)|]. by apply (completed_recorder _ _ _ _ _ _ (rd_recorder _ _ H)).
  - destruct (Flush_ok c g H) as (c' & g' & E & Hd & _). eauto.
  - destruct (Finish_ok c g H) as (c' & g' & E & Hd & _). eauto.
Qed.

Lemma run_calls_ok l : ∀ c g, ready c g -> Forall call_ok l -> Forall (spares private) (flat_map commands_of l) -> ∃ c' g', run_calls l c g = Ok (c', g') ∧ does (flat_map commands_of l) c g c' g'.
Proof.
  induction l as [|a l IH]; intros c g H Hl Hsp; [exists c, g; by split_and!|]. apply Forall_cons in Hl as [Ha Hl]. simpl in Hsp. apply Forall_app in Hsp as [Hsa Hsp].
  destruct (run_call_ok a c g H Ha Hsa) as (c1 & g1 & E1 & D1). destruct (IH c1 g1 (proj1 D1) Hl Hsp) as (c2 & g2 & E2 & D2).
  exists c2, g2. unfold run_calls in *. rewrite for_each_cons. simpl. rewrite E1, bind_Ok. split; [done|]. by eapply does_trans.
Qed.

(* a device on which nothing has run *)
Definition fresh_device (m : memory) : device := mkDevice 0 [] m 0.
Notation DmlExecutionContext_new := (DmlExecutionContext_new cpu_start gpu_start increment CreateDescriptorHeap).

Lemma DmlExecutionContext_new_ok m : ready DmlExecutionContext_new (fresh_device m) ∧ eventually (dml_recorder_ DmlExecutionContext_new) (fresh_device m) = m.
Proof.
  split; [|done]. split; [|done|done]. destruct (DescriptorPool_new_ok cpu_start gpu_start increment CreateDescriptorHeap 0 1 2048) as [Hp He]; [lia|].
  split; simpl; [done| |exact Hp|exact He|lia|done|done]. split; simpl; [done|lia| | |].
  - intros i e e' [= <-] He'. by destruct i as [|[|i]]; simpl in He'; [injection He' as <-..|].
  - intros e He'. repeat (apply elem_of_cons in He' as [->|He']; [simpl; lia|]). by apply elem_of_nil in He'.
  - intros f ls l i Hp'. by apply elem_of_nil in Hp'.
Qed.

End proofs.

Section contracts.
Context (exec : command -> memory -> memory) (progress : nat -> nat) `{!Device exec}.
Context (cpu_start gpu_start : nat -> Z) (increment : Z) (CreateDescriptorHeap : list nat -> nat) `{!FreshHeap CreateDescriptorHeap}.
Context (Hincrement : 0 < increment).
Notation DmlExecutionContext_new := (DmlExecutionContext_new cpu_start gpu_start increment CreateDescriptorHeap).
Notation run_calls := (run_calls exec progress cpu_start gpu_start increment CreateDescriptorHeap).
Notation run_commands := (run_commands exec).

Lemma spares_nothing l : Forall (spares ∅) l.
Proof. apply Forall_forall. intros c _ r _. apply not_elem_of_empty. Qed.

(** C15: whatever is called on an execution context (copies, operators, the caller's own lists, barriers, flushes, references), and however slowly the device goes on, no call fails, an allocator is never reset while the device uses it and every wait ends; when the calls are finished the device's memory is what their commands make of it in the order of the calls. *)
Theorem context_refines (m : memory) (l : list call) : Forall call_ok l ->
  ∃ c g, run_calls (l ++ [C_Finish]) DmlExecutionContext_new (fresh_device m) = Ok (c, g)
    ∧ pending g = [] ∧ dev_memory g = run_commands (flat_map commands_of l) m.
Proof.
  intros Hl. destruct (DmlExecutionContext_new_ok exec cpu_start gpu_start increment CreateDescriptorHeap ∅ m) as [Hr Hv].
  destruct (run_calls_ok exec progress cpu_start gpu_start increment CreateDescriptorHeap Hincrement ∅ l _ _ Hr Hl (spares_nothing _)) as (c & g & E & (Hc & Hd & _)). destruct (Finish_ok exec progress cpu_start gpu_start increment ∅ c g Hc) as (c' & g' & Ef & _ & Hp & Hm).
  exists c', g'. split_and!; [|done|by rewrite Hm, Hd, Hv].
  unfold run_calls in *. rewrite for_each_app, E, bind_Ok, for_each_cons. simpl. by rewrite Ef.
Qed.

(** C27: after any calls the descriptors of two operators that are recorded or submitted and not yet complete do not overlap, and each lies in a heap that is alive. *)
Theorem descriptors_in_use_disjoint (m : memory) (l : list call) : Forall call_ok l ->
  ∃ c g, run_calls l DmlExecutionContext_new (fresh_device m) = Ok (c, g) ∧
    (∀ a b, [a; b] ⊆+ in_flight (last_fence_value_ (queue_ c)) (dml_recorder_ c) g -> disjoint_ranges increment a b) ∧
    (∀ a, a ∈ in_flight (last_fence_value_ (queue_ c)) (dml_recorder_ c) g ->
       ∃ h, h ∈ heaps_ (descriptor_pool_ (dml_recorder_ c)) ∧ r_heap (a_range a) = heap_ h ∧ size_ h <= capacity_ h ∧ in_heap cpu_start gpu_start increment h a).
Proof.
  intros Hl. destruct (DmlExecutionContext_new_ok exec cpu_start gpu_start increment CreateDescriptorHeap ∅ m) as [Hr Hv].
  destruct (run_calls_ok exec progress cpu_start gpu_start increment CreateDescriptorHeap Hincrement ∅ l _ _ Hr Hl (spares_nothing _)) as (c & g & E & ([Hc _ _] & _)). exists c, g. split; [done|].
  pose proof (rk_pool _ _ _ _ _ _ _ _ _ Hc) as Hp. cbn [app] in Hp. pose proof (rk_step _ _ _ _ _ _ _ _ _ Hc) as Hs.
  assert (∀ a, a ∈ in_flight (last_fence_value_ (queue_ c)) (dml_recorder_ c) g -> completed g < a_fence a) as Hf.
  { intros a [Ha|Ha]%elem_of_app.
    - apply in_flight_fence in Ha as (ls & Ha). by apply (pending_fence _ _ _ ls Hs).
    - apply dispatched_fence in Ha as ->. destruct Hs. lia. }
  split.
  - intros a b Hab. apply (po_disjoint _ _ _ _ _ _ Hp a b Hab); apply Hf; eapply elem_of_submseteq; try exact Hab; set_solver.
  - intros a Ha. pose proof (po_live _ _ _ _ _ _ Hp a Ha (Hf a Ha)) as (h & Hh & Hin)%list_elem_of_fmap.
    pose proof (po_heaps _ _ _ _ _ _ Hp) as Hok. rewrite Forall_forall in Hok. destruct (Hok h Hin) as [H1 _ _ _ H5].
    exists h. split_and!; [done|done|lia|]. by apply H5; [|apply Hf|].
Qed.
End contracts.

(** ** The context on a device that only copies *)
Module Examples.
Definition copies (c : command) (m : memory) : memory :=
  match c with
  | Copy d doff s soff n => match m !! d, m !! s with Some rd, Some rs => <[d := copied rd rs doff soff n]> m | _, _ => m end
  | _ => m
  end.

#[export] Instance copies_device : Device copies.
Proof.
  split; try done.
  - intros m d doff s soff n rd rs Hd Hs _ _ _ _ _ _. unfold copies. by rewrite Hd, Hs.
  - intros c m r Hr. destruct c as [d doff s soff n| | | |]; [|done..]. unfold touches in Hr. unfold copies.
    destruct (m !! d) as [rd|]; [|done]. destruct (m !! s) as [rs|]; [|done]. rewrite lookup_insert_ne; [done|set_solver].
  - intros c m r v Hr. destruct c as [d doff s soff n| | | |]; [|done..]. unfold touches in Hr. unfold copies.
    rewrite !lookup_insert_ne by set_solver. destruct (m !! d) as [rd|]; [|done]. destruct (m !! s) as [rs|]; [|done].
    apply insert_insert_ne. set_solver.
  - intros c m r b Hb. destruct c as [d doff s soff n| | | |]; [|by exists b..]. unfold copies.
    destruct (m !! d) as [rd|] eqn:Hd; [|by exists b]. destruct (m !! s) as [rs|]; [|by exists b].
    destruct (decide (d = r)) as [->|Hne]; [|exists b; by rewrite lookup_insert_ne].
    rewrite lookup_insert_eq. eexists. split; [done|]. by replace b with rd by congruence.
Qed.

#[export] Instance fresh_heaps : FreshHeap (fun l => fresh l).
Proof. intros l. apply infinite_is_fresh. Qed.

Definition two_buffers : memory := {[ 0%nat := mkResource 8 (fun i => i); 1%nat := mkResource 8 (fun _ => 0) ]}.
Definition calls : list call :=
  [C_Copy 1 0 0 0 4 0 4; C_Initialize (mkOperator 7 3 16 2) BINDING_NONE BINDING_NONE; C_Reference 5;
   C_Execute (mkList None [Copy 0 0 1 0 2]); C_Initialize (mkOperator 8 3000 0 2) BINDING_NONE BINDING_NONE; C_UAV].

Lemma calls_fine : Forall call_ok calls.
Proof. repeat constructor; done. Qed.

Lemma context_refines_witness :
  ∃ c g, run_calls copies (fun k => (k mod 3)%nat) (fun _ => 0) (fun _ => 0) 32 (fun l => fresh l) (calls ++ [C_Finish])
           (DmlExecutionContext_new (fun _ => 0) (fun _ => 0) 32 (fun l => fresh l)) (fresh_device two_buffers) = Ok (c, g)
    ∧ pending g = [] ∧ dev_memory g = run_commands copies (flat_map commands_of calls) two_buffers.
Proof. apply context_refines; [exact _|exact _|lia|exact calls_fine]. Defined.

Lemma descriptors_in_use_disjoint_witness :
  ∃ c g, run_calls copies (fun _ => 0%nat) (fun _ => 0) (fun _ => 0) 32 (fun l => fresh l) calls
           (DmlExecutionContext_new (fun _ => 0) (fun _ => 0) 32 (fun l => fresh l)) (fresh_device two_buffers) = Ok (c, g) ∧
    (∀ a b, [a; b] ⊆+ in_flight (last_fence_value_ (queue_ c)) (dml_recorder_ c) g -> disjoint_ranges 32 a b) ∧
    (∀ a, a ∈ in_flight (last_fence_value_ (queue_ c)) (dml_recorder_ c) g ->
       ∃ h, h ∈ heaps_ (descriptor_pool_ (dml_recorder_ c)) ∧ r_heap (a_range a) = heap_ h ∧ size_ h <= capacity_ h ∧ in_heap (fun _ => 0) (fun _ => 0) 32 h a).
Proof. apply descriptors_in_use_disjoint; [exact _|exact _|lia|exact calls_fine]. Defined.

(* the queue's Wait raises the fence behind the recorder's back: an allocator is then reset while the device uses it *)
Example Wait_resets_allocator_in_use :
  let copy := Recorder_CopyBufferRegion 1 0 0 4 4 in
  let Open := Open copies (fun k => if (k =? 5)%nat then 1%nat else 0%nat) in
  let q := DmlCommandQueue_new in
  (let r := DmlCommandRecorder_new (fun _ => 0) (fun _ => 0) 32 (fun l => 0%nat) q in
   '(r, g) ← Open q r (fresh_device two_buffers);
   let '(q, g) := Queue_Wait q g in
   r ← copy r; '(r, q, g) ← CloseAndExecute None r q g; '(r, g) ← Open q r g;
   r ← copy r; '(r, q, g) ← CloseAndExecute None r q g; '(r, g) ← Open q r g;
   Ok (q, g)) = Undef.
Proof. reflexivity. Qed.
End Examples.
