(* ===== verification/DmlHeaps.v ===== *)
(** * DirectML: uploads and readbacks (src/dml/dml_pooled_upload_heap.h and
    .cpp, dml_readback_heap.h and .cpp)

    Bytes go to the device through chunks of upload heaps, each a ring of
    allocations, and come back through one readback heap.  Where a new buffer is
    ([new_resource]) and what it holds ([contents]) are Direct3D's; a buffer
    that is released is only forgotten. *)
From Stdlib Require Import ZArith Lia.
From stdpp Require Import base numbers list gmap sorting.
From S2P Require Import Prelude DmlQueue DmlDescriptors DmlContext.
Local Open Scope Z_scope.

(** ** The upload heap *)

Record Allocation : Type := mkAllocation { size_in_bytes : Z; offset_in_chunk : Z; done_event : DmlGpuEvent }.
Record Chunk : Type := mkChunk { capacity_in_bytes : Z; c_resource : nat; allocations : list Allocation }.
Record DmlPooledUploadHeap : Type := mkUploadHeap { chunks_ : list Chunk; total_capacity_ : Z }.

Definition c_min_chunk_size : Z := 1024 * 1024.
Definition c_allocation_alignment : Z := 512.

Definition DmlPooledUploadHeap_new : DmlPooledUploadHeap := mkUploadHeap [] 0.

Definition Align (offset alignment : Z) : outcome Z :=
  _ ← assert_ (negb (alignment =? 0));
  Ok (Z.land (u64 (offset + alignment - 1)) (Z.lnot (alignment - 1))).

Definition FindOffsetForAllocation (chunk : Chunk) (size : Z) : outcome (option Z) :=
  _ ← assert_ (negb (size =? 0));
  if capacity_in_bytes chunk <? size then Ok None
  else match head (allocations chunk), last (allocations chunk) with
  | Some first_allocation, Some last_allocation =>
      new_allocation_begin ← Align (u64 (offset_in_chunk last_allocation + size_in_bytes last_allocation)) c_allocation_alignment;
      if u64 (new_allocation_begin + size) <? new_allocation_begin then Ok None
      else if offset_in_chunk first_allocation <=? offset_in_chunk last_allocation then
        if u64 (new_allocation_begin + size) <=? capacity_in_bytes chunk then Ok (Some new_allocation_begin)
        else if size <=? offset_in_chunk first_allocation then Ok (Some 0)
        else Ok None
      else
        if u64 (new_allocation_begin + size) <=? offset_in_chunk first_allocation then Ok (Some new_allocation_begin)
        else Ok None
  | _, _ => Ok (Some 0)
  end.

(* the chunks in order, up to the first with room: its index and the offset *)
Fixpoint find_chunk (i : nat) (chunks : list Chunk) (size : Z) : outcome (option (nat * Z)) :=
  match chunks with
  | [] => Ok None
  | chunk :: chunks =>
      offset_for_allocation ← FindOffsetForAllocation chunk size;
      match offset_for_allocation with
      | Some offset => Ok (Some (i, offset))
      | None => find_chunk (S i) chunks size
      end
  end.

(* the buffers that are alive: in memory, or named by a command that is not complete *)
Definition alive (r : DmlCommandRecorder) (g : device) : list nat :=
  (map_to_list (dev_memory g)).*1 ++ flat_map touches (unfinished r g).
Class FreshResource (new_resource : list nat -> nat) : Prop := fresh_resource l : new_resource l ∉ l.

Section heaps.
Context (exec : command -> memory -> memory) (progress : nat -> nat).
Context (cpu_start gpu_start : nat -> Z) (increment : Z) (CreateDescriptorHeap : list nat -> nat).
Context (new_resource : list nat -> nat) (contents : nat -> Z -> Z).

(* ID3D12Device::CreateCommittedResource for a buffer of [size] bytes *)
Definition CreateCommittedResource (size : Z) (c : DmlExecutionContext) (g : device) : nat * device :=
  let r := new_resource (alive (dml_recorder_ c) g) in
  (r, mkDevice (completed g) (pending g) (<[r := mkResource size (contents r)]> (dev_memory g)) (polls g)).

(* memcpy to and from a buffer that is mapped *)
Definition byte_at (l : list Z) (i : Z) : Z := nth (Z.to_nat i) l 0.
Definition write_bytes (b : resource) (offset : Z) (src : list Z) : resource :=
  mkResource (Width b) (fun i => if (offset <=? i) && (i <? offset + Z.of_nat (length src)) then byte_at src (i - offset) else bytes b i).
Definition read_bytes (b : resource) (offset n : Z) : list Z := map (fun i => bytes b (offset + i)) (seqZ 0 n).
Definition in_range (b : resource) (offset n : Z) : bool := (0 <=? offset) && (offset + n <=? Width b).

Definition map_write (r : nat) (offset : Z) (src : list Z) (g : device) : outcome device :=
  match dev_memory g !! r with
  | Some b => if in_range b offset (Z.of_nat (length src))
              then Ok (mkDevice (completed g) (pending g) (<[r := write_bytes b offset src]> (dev_memory g)) (polls g)) else Undef
  | None => Undef
  end.
Definition map_read (r : nat) (offset n : Z) (g : device) : outcome (list Z) :=
  match dev_memory g !! r with
  | Some b => if in_range b offset n then Ok (read_bytes b offset n) else Undef
  | None => Undef
  end.

(* the chunk's index, the offset in it *)
Definition Reserve (size : Z) (h : DmlPooledUploadHeap) (c : DmlExecutionContext) (g : device)
    : outcome (nat * Z * DmlPooledUploadHeap * device) :=
  found ← find_chunk 0 (chunks_ h) size;
  match found with
  | Some (i, offset) => Ok (i, offset, h, g)
  | None =>
      let new_chunk_size := Z.max (Z.max (total_capacity_ h) c_min_chunk_size) size in
      let '(r, g) := CreateCommittedResource new_chunk_size c g in
      Ok (length (chunks_ h), 0, mkUploadHeap (chunks_ h ++ [mkChunk new_chunk_size r []]) (u64 (total_capacity_ h + new_chunk_size)), g)
  end.

(* while (!allocs->empty() && allocs->front().done_event.IsSignaled()) *)
Fixpoint reclaim_chunk (allocs : list Allocation) (g : device) : list Allocation * device :=
  match allocs with
  | [] => ([], g)
  | a :: rest =>
      let '(b, g) := IsSignaled exec progress (done_event a) g in
      if b then reclaim_chunk rest g else (allocs, g)
  end.
Fixpoint reclaim_chunks (chunks : list Chunk) (g : device) : list Chunk * device :=
  match chunks with
  | [] => ([], g)
  | chunk :: chunks =>
      let '(allocs, g) := reclaim_chunk (allocations chunk) g in
      let '(chunks, g) := reclaim_chunks chunks g in
      (mkChunk (capacity_in_bytes chunk) (c_resource chunk) allocs :: chunks, g)
  end.
Definition ReclaimAllocations (h : DmlPooledUploadHeap) (g : device) : DmlPooledUploadHeap * device :=
  let '(chunks, g) := reclaim_chunks (chunks_ h) g in (mkUploadHeap chunks (total_capacity_ h), g).

(* std::is_sorted *)
Fixpoint is_sorted {A} (lt : A -> A -> bool) (l : list A) : bool :=
  match l with
  | a :: (b :: _) as l' => negb (lt b a) && is_sorted lt l'
  | _ => true
  end.
(* one allocation ends where the next begins, or before *)
Fixpoint no_overlap (l : list Allocation) : bool :=
  match l with
  | a :: (b :: _) as l' => (offset_in_chunk a + size_in_bytes a <=? offset_in_chunk b) && no_overlap l'
  | _ => true
  end.
#[local] Instance offset_le_dec : RelDecision (fun a b => offset_in_chunk a <= offset_in_chunk b).
Proof. intros a b. apply Z_le_dec. Defined.
Definition sorted_by_offset (l : list Allocation) : list Allocation :=
  merge_sort (fun a b => offset_in_chunk a <= offset_in_chunk b) l.

(* in a debug build; GetDesc().Width is the width of the chunk's buffer *)
Definition chunk_invariants (g : device) (chunk : Chunk) : bool :=
  is_sorted (fun a b => fence_value (done_event a) <? fence_value (done_event b)) (allocations chunk)
  && match dev_memory g !! c_resource chunk with Some b => capacity_in_bytes chunk =? Width b | None => false end
  && forallb (fun a => (offset_in_chunk a + size_in_bytes a <=? capacity_in_bytes chunk)
                       && (offset_in_chunk a mod c_allocation_alignment =? 0)) (allocations chunk)
  && no_overlap (sorted_by_offset (allocations chunk)).
Definition AssertInvariants (h : DmlPooledUploadHeap) (g : device) : outcome unit :=
  _ ← assert_ (is_sorted (fun a b => capacity_in_bytes a <? capacity_in_bytes b) (chunks_ h));
  _ ← assert_ (forallb (chunk_invariants g) (chunks_ h));
  assert_ (fold_left (fun s c => u64 (s + capacity_in_bytes c)) (chunks_ h) 0 =? total_capacity_ h).

Definition push_allocation (a : Allocation) (c : Chunk) : Chunk :=
  mkChunk (capacity_in_bytes c) (c_resource c) (allocations c ++ [a]).

Definition BeginUploadToGpu (dst : nat) (dst_offset dst_state : Z) (src : list Z)
    (h : DmlPooledUploadHeap) (c : DmlExecutionContext) (g : device)
    : outcome (DmlGpuEvent * DmlPooledUploadHeap * DmlExecutionContext * device) :=
  let size := Z.of_nat (length src) in
  _ ← assert_ (negb (size =? 0));
  _ ← AssertInvariants h g;
  let '(h, g) := ReclaimAllocations h g in
  '(i, offset_in_chunk, h, g) ← Reserve size h c g;
  chunk ← get (chunks_ h) i;
  _ ← assert_ (u64 (offset_in_chunk + size) <=? capacity_in_bytes chunk);
  g ← map_write (c_resource chunk) offset_in_chunk src g;
  '(c, g) ← CopyBufferRegion exec progress dst dst_offset dst_state (c_resource chunk) offset_in_chunk GENERIC_READ size c g;
  done_event ← GetCurrentCompletionEvent c;
  '(c, g) ← Flush exec progress c g;
  g ← WaitForSignal exec progress done_event g;
  let h := mkUploadHeap (alter (push_allocation (mkAllocation size offset_in_chunk done_event)) i (chunks_ h)) (total_capacity_ h) in
  _ ← AssertInvariants h g;
  Ok (done_event, h, c, g).

Definition Trim (h : DmlPooledUploadHeap) (g : device) : outcome (DmlPooledUploadHeap * device) :=
  _ ← AssertInvariants h g;
  let '(h, g) := ReclaimAllocations h g in
  let chunks := filter (fun c => allocations c ≠ []) (chunks_ h) in
  let h := mkUploadHeap chunks (fold_left (fun s c => u64 (s + capacity_in_bytes c)) chunks 0) in
  _ ← AssertInvariants h g;
  Ok (h, g).

(** ** The readback heap *)

Record DmlReadbackHeap : Type := mkReadbackHeap { readback_heap_ : option nat; rb_capacity_ : Z }.
Definition DmlReadbackHeap_new : DmlReadbackHeap := mkReadbackHeap None 0.
Definition c_initial_capacity : Z := 1024 * 1024.
Definition SIZE_MAX : Z := 2 ^ 64 - 1.
Definition E_OUTOFMEMORY : Z := 2147942414.

(* the loop doubles; running out of fuel stands for a loop that does not end *)
Fixpoint grow_capacity (fuel : nat) (new_capacity desired_capacity : Z) : outcome Z :=
  if new_capacity <? desired_capacity then
    if SIZE_MAX / 2 <=? new_capacity then Throw (ResultException E_OUTOFMEMORY)
    else match fuel with O => Undef | S fuel => grow_capacity fuel (u64 (new_capacity * 2)) desired_capacity end
  else Ok new_capacity.
Definition ComputeNewCapacity (existing_capacity desired_capacity : Z) : outcome Z :=
  grow_capacity 64 existing_capacity desired_capacity.

Definition EnsureReadbackHeap (size : Z) (rb : DmlReadbackHeap) (c : DmlExecutionContext) (g : device)
    : outcome (nat * DmlReadbackHeap * device) :=
  '(r, rb, g) ← (match readback_heap_ rb with
    | None =>
        _ ← assert_ (rb_capacity_ rb =? 0);
        capacity ← ComputeNewCapacity c_initial_capacity size;
        let '(r, g) := CreateCommittedResource capacity c g in
        Ok (r, mkReadbackHeap (Some r) capacity, g)
    | Some r =>
        if rb_capacity_ rb <? size then
          capacity ← ComputeNewCapacity (rb_capacity_ rb) size;
          let '(r, g) := CreateCommittedResource capacity c g in
          Ok (r, mkReadbackHeap (Some r) capacity, g)
        else Ok (r, rb, g)
    end);
  match dev_memory g !! r with
  | Some b => _ ← assert_ (size <=? Width b); Ok (r, rb, g)
  | None => Undef
  end.

(* flush and wait for everything *)
Definition wait_for_copies (c : DmlExecutionContext) (g : device) : outcome (DmlExecutionContext * device) :=
  '(c, g) ← Flush exec progress c g;
  event ← GetCurrentCompletionEvent c;
  g ← WaitForSignal exec progress event g;
  ReleaseCompletedReferences exec progress c g.

(* [n] bytes; the result is what is written to the caller's span *)
Definition ReadbackFromGpu (n : Z) (src : nat) (src_offset src_state : Z) (rb : DmlReadbackHeap) (c : DmlExecutionContext) (g : device)
    : outcome (list Z * DmlReadbackHeap * DmlExecutionContext * device) :=
  _ ← assert_ (negb (n =? 0));
  '(r, rb, g) ← EnsureReadbackHeap n rb c g;
  '(c, g) ← CopyBufferRegion exec progress r 0 COPY_DEST src src_offset src_state n c g;
  '(c, g) ← wait_for_copies c g;
  data ← map_read r 0 n g;
  Ok (data, rb, c, g).

(* the overload that takes several buffers; sizes and offsets are of 32 bits *)
Fixpoint copy_all (r : nat) (offset : Z) (src : list (nat * Z)) (src_state : Z) (c : DmlExecutionContext) (g : device)
    : outcome (DmlExecutionContext * device) :=
  match src with
  | [] => Ok (c, g)
  | (s, size) :: src =>
      '(c, g) ← CopyBufferRegion exec progress r offset COPY_DEST s 0 src_state size c g;
      copy_all r (u32 (offset + size)) src src_state c g
  end.
Fixpoint read_all_sizes (r : nat) (offset : Z) (sizes : list Z) (g : device) : outcome (list (list Z)) :=
  match sizes with
  | [] => Ok []
  | size :: sizes =>
      data ← map_read r offset size g;
      rest ← read_all_sizes r (u32 (offset + size)) sizes g;
      Ok (data :: rest)
  end.
Definition ReadbackFromGpu_batch (src : list (nat * Z)) (src_state : Z) (rb : DmlReadbackHeap) (c : DmlExecutionContext) (g : device)
    : outcome (list (list Z) * DmlReadbackHeap * DmlExecutionContext * device) :=
  if decide (src = []) then Ok ([], rb, c, g)
  else
    let total_size := fold_left (fun t s => u32 (t + s)) src.*2 0 in
    '(r, rb, g) ← EnsureReadbackHeap total_size rb c g;
    '(c, g) ← copy_all r 0 src src_state c g;
    '(c, g) ← wait_for_copies c g;
    data ← read_all_sizes r 0 src.*2 g;
    Ok (data, rb, c, g).
End heaps.

(** ** A chunk is a ring

    The allocations go up to the end of the chunk and on from its start; the
    oldest are released first. *)

(* allocations one after the other between two offsets *)
Fixpoint chain (lo hi : Z) (l : list Allocation) : Prop :=
  match l with
  | [] => lo <= hi
  | a :: l => lo <= offset_in_chunk a ∧ offset_in_chunk a mod 512 = 0 ∧ 0 < size_in_bytes a
              ∧ chain (offset_in_chunk a + size_in_bytes a) hi l
  end.
Definition ring (capacity : Z) (l : list Allocation) : Prop :=
  ∃ lo A B, l = A ++ B ∧ 0 <= lo ∧ chain lo capacity A ∧ chain 0 lo B.

Definition apart (a b : Allocation) : Prop :=
  offset_in_chunk a + size_in_bytes a <= offset_in_chunk b ∨ offset_in_chunk b + size_in_bytes b <= offset_in_chunk a.

Lemma chain_le lo hi l : chain lo hi l -> lo <= hi.
Proof. revert lo. induction l as [|a l IH]; simpl; intros lo; [done|]. intros (? & _ & ? & H%IH). lia. Qed.

Lemma chain_mono lo lo' hi hi' l : lo' <= lo -> hi <= hi' -> chain lo hi l -> chain lo' hi' l.
Proof.
  revert lo lo'. induction l as [|a l IH]; simpl; intros lo lo' Hlo Hhi; [lia|]. intros (? & ? & ? & H). split_and!; [lia|done|done|].
  eapply IH; [reflexivity|done|done].
Qed.

(* where the last allocation ends *)
Definition chain_end (lo : Z) (l : list Allocation) : Z :=
  match last l with Some a => offset_in_chunk a + size_in_bytes a | None => lo end.

Lemma chain_end_cons lo a l : chain_end lo (a :: l) = chain_end (offset_in_chunk a + size_in_bytes a) l.
Proof. unfold chain_end. rewrite last_cons. by destruct (last l). Qed.

Lemma chain_end_le lo hi l : chain lo hi l -> lo <= chain_end lo l <= hi.
Proof.
  revert lo. induction l as [|a l IH]; intros lo; [unfold chain_end; simpl; lia|]. rewrite chain_end_cons. simpl.
  intros (? & _ & ? & H%IH). lia.
Qed.

Lemma chain_snoc lo hi hi' l a : chain lo hi l -> chain_end lo l <= offset_in_chunk a -> offset_in_chunk a mod 512 = 0 ->
  0 < size_in_bytes a -> offset_in_chunk a + size_in_bytes a <= hi' -> chain lo hi' (l ++ [a]).
Proof.
  revert lo. induction l as [|b l IH]; intros lo H He Hm Hs Hh.
  - unfold chain_end in He. simpl in *. by split_and!.
  - rewrite chain_end_cons in He. simpl in *. destruct H as (? & ? & ? & H). split_and!; [done..|]. by apply IH.
Qed.

Lemma chain_in lo hi l a : chain lo hi l -> a ∈ l ->
  lo <= offset_in_chunk a ∧ offset_in_chunk a + size_in_bytes a <= hi ∧ offset_in_chunk a mod 512 = 0 ∧ 0 < size_in_bytes a.
Proof.
  revert lo. induction l as [|b l IH]; intros lo H Ha; [by apply elem_of_nil in Ha|]. simpl in H. destruct H as (? & ? & ? & H).
  apply elem_of_cons in Ha as [->|Ha]; [|destruct (IH _ H Ha) as (? & ? & ? & ?); split_and!; lia].
  apply chain_le in H. by split_and!.
Qed.

Lemma chain_apart lo hi l a b : chain lo hi l -> [a; b] ⊆+ l -> apart a b.
Proof.
  revert lo. induction l as [|x l IH]; intros lo H Hab; [by apply submseteq_nil_r in Hab|]. simpl in H. destruct H as (_ & _ & _ & H).
  apply pair_cons in Hab as [Hab|[[-> Hb]|[-> Ha]]]; [by apply (IH _ H)| |].
  - left. by apply (chain_in _ _ _ _ H).
  - right. by apply (chain_in _ _ _ _ H).
Qed.

Lemma ring_in capacity l a : ring capacity l -> a ∈ l ->
  0 <= offset_in_chunk a ∧ offset_in_chunk a + size_in_bytes a <= capacity ∧ offset_in_chunk a mod 512 = 0 ∧ 0 < size_in_bytes a.
Proof.
  intros (lo & A & B & -> & Hlo & HA & HB) Ha. pose proof (chain_le _ _ _ HA). apply elem_of_app in Ha as [Ha|Ha].
  - destruct (chain_in _ _ _ _ HA Ha) as (? & ? & ? & ?). split_and!; lia.
  - destruct (chain_in _ _ _ _ HB Ha) as (? & ? & ? & ?). split_and!; lia.
Qed.

(* no two allocations overlap *)
Lemma ring_apart capacity l a b : ring capacity l -> [a; b] ⊆+ l -> apart a b.
Proof.
  intros (lo & A & B & -> & Hlo & HA & HB) Hab. revert lo Hlo HA HB Hab. induction A as [|x A IH]; intros lo Hlo HA HB Hab.
  - by apply (chain_apart _ _ _ _ _ HB).
  - simpl in HA, Hab. destruct HA as (Hx & _ & Hs & HA).
    apply pair_cons in Hab as [Hab|Hab].
    + apply (IH (offset_in_chunk x + size_in_bytes x)); [lia|done| |done]. eapply chain_mono; [reflexivity| |exact HB]. lia.
    + assert (∀ y, y ∈ A ++ B -> apart x y) as Hy.
      { intros y [Hy|Hy]%elem_of_app; [left; by apply (chain_in _ _ _ _ HA)|]. right. destruct (chain_in _ _ _ _ HB Hy). lia. }
      destruct Hab as [[-> Hb]|[-> Ha]]; [by apply Hy|]. destruct (Hy _ Ha); [by right|by left].
Qed.

Lemma ring_nil capacity : 0 <= capacity -> ring capacity [].
Proof. intros H. exists 0, [], []. by split_and!. Qed.

(* releasing the oldest *)
Lemma ring_tail capacity a l : ring capacity (a :: l) -> ring capacity l.
Proof.
  intros (lo & A & B & E & Hlo & HA & HB). destruct A as [|x A].
  - simpl in E. subst B. simpl in HA, HB. destruct HB as (? & ? & ? & HB).
    exists (offset_in_chunk a + size_in_bytes a), l, []. rewrite app_nil_r. split_and!; [done|lia| |simpl; lia].
    eapply chain_mono; [reflexivity| |exact HB]. lia.
  - simpl in E. injection E as <- ->. simpl in HA. destruct HA as (? & ? & ? & HA).
    exists (offset_in_chunk a + size_in_bytes a), A, B. split_and!; [done|lia|done|]. eapply chain_mono; [reflexivity| |exact HB]. lia.
Qed.

Lemma Align_up z : 0 <= z -> z + 511 < 2 ^ 64 -> ∃ y, Align z 512 = Ok y ∧ z <= y <= z + 511 ∧ y mod 512 = 0.
Proof.
  intros Hz Hb. unfold Align. simpl. rewrite u64_id by lia. replace (z + 512 - 1) with (z + 511) by lia.
  exists (Z.land (z + 511) (Z.lnot 511)). split; [done|].
  assert (Z.land (z + 511) (Z.lnot 511) = (z + 511) - (z + 511) mod 512) as ->.
  { change (Z.lnot 511) with (Z.lnot (Z.ones 9)). rewrite <- Z.ldiff_land, Z.ldiff_ones_r by lia. rewrite Z.shiftr_div_pow2, Z.shiftl_mul_pow2 by lia.
    change (2 ^ 9) with 512. pose proof (Z.div_mod (z + 511) 512). lia. }
  pose proof (Z.mod_pos_bound (z + 511) 512 ltac:(lia)). split; [lia|]. rewrite Zminus_mod_idemp_r, Z.sub_diag. done.
Qed.

(* what [FindOffsetForAllocation] finds continues the ring *)
Lemma FindOffset_ring c size : ring (capacity_in_bytes c) (allocations c) -> 0 < size < 2 ^ 64 -> capacity_in_bytes c + 511 < 2 ^ 64 ->
  ∃ o, FindOffsetForAllocation c size = Ok o ∧
    match o with
    | None => allocations c ≠ [] ∨ capacity_in_bytes c < size
    | Some o => ∀ e, ring (capacity_in_bytes c) (allocations c ++ [mkAllocation size o e])
    end.
Proof.
  intros Hr Hs Hc. unfold FindOffsetForAllocation. destruct (Z.eqb_spec size 0); [lia|]. simpl assert_. rewrite bind_Ok.
  destruct (Z.ltb_spec (capacity_in_bytes c) size) as [Hlt|Hge]; [exists None; split; [done|by right]|].
  destruct (allocations c) as [|first rest] eqn:Ea.
  { exists (Some 0). split; [done|]. intros e. exists 0, [mkAllocation size 0 e], []. rewrite app_nil_r. simpl. split_and!; [done|lia|lia|done|lia|lia|lia]. }
  destruct Hr as (lo & A & B & E & Hlo & HA & HB). cbn [hd_error].
  assert (is_Some (last (first :: rest))) as [lst Hl] by by apply last_is_Some. rewrite Hl.
  assert (lst ∈ A ++ B) as Hlin by (rewrite <- E; by apply last_Some_elem_of).
  destruct (ring_in (capacity_in_bytes c) (A ++ B) lst) as (Hl0 & Hlc & Hlm & Hls); [by exists lo, A, B|done|].
  rewrite u64_id by lia. destruct (Align_up (offset_in_chunk lst + size_in_bytes lst)) as (y & Ey & Hy & Hm); [lia|lia|].
  change c_allocation_alignment with 512. rewrite Ey, bind_Ok.
  destruct (Z.ltb_spec (u64 (y + size)) y) as [Hw|Hw]; [exists None; split; [done|by left]|].
  assert (y + size < 2 ^ 64) as Hys.
  { destruct (decide (y + size < 2 ^ 64)); [done|]. exfalso. unfold u64 in Hw. rewrite <- (Z_mod_plus_full _ (-1)), Z.mod_small in Hw; lia. }
  rewrite u64_id by lia.
  destruct B as [|b B].
  - rewrite app_nil_r in E. subst A. assert (offset_in_chunk first <= offset_in_chunk lst) as Hfl.
    { rewrite app_nil_r in Hlin. simpl in HA. destruct HA as (? & ? & ? & HA). apply elem_of_cons in Hlin as [->|Hin]; [done|].
      destruct (chain_in _ _ _ _ HA Hin). lia. }
    destruct (Z.leb_spec (offset_in_chunk first) (offset_in_chunk lst)); [|lia].
    destruct (Z.leb_spec (y + size) (capacity_in_bytes c)).
    { exists (Some y). split; [done|]. intros e. exists lo, ((first :: rest) ++ [mkAllocation size y e]), []. rewrite app_nil_r.
      split_and!; [done|done| |done]. eapply chain_snoc; [exact HA| |done|simpl; lia|done]. unfold chain_end. rewrite Hl. simpl. lia. }
    destruct (Z.leb_spec size (offset_in_chunk first)); [|exists None; split; [done|by left]].
    exists (Some 0). split; [done|]. intros e. exists (offset_in_chunk first), (first :: rest), [mkAllocation size 0 e].
    simpl in HA |- *. destruct HA as (? & ? & ? & HA). split_and!; try done; lia.
  - assert (last (b :: B) = Some lst) as Hlb by (rewrite E, last_app_cons in Hl; exact Hl).
    assert (chain_end 0 (b :: B) = offset_in_chunk lst + size_in_bytes lst) as Hce by (unfold chain_end; by rewrite Hlb).
    destruct A as [|a A].
    + simpl in E. injection E as -> ->. simpl in HA.
      assert (offset_in_chunk b <= offset_in_chunk lst) as Hfl.
      { simpl in HB, Hlin. destruct HB as (? & ? & ? & HB). apply elem_of_cons in Hlin as [->|Hin]; [done|].
        destruct (chain_in _ _ _ _ HB Hin). lia. }
      destruct (Z.leb_spec (offset_in_chunk b) (offset_in_chunk lst)); [|lia].
      destruct (Z.leb_spec (y + size) (capacity_in_bytes c)).
      { exists (Some y). split; [done|]. intros e. exists (capacity_in_bytes c), [], ((b :: B) ++ [mkAllocation size y e]).
        split_and!; [done|lia|simpl; lia|]. eapply chain_snoc; [exact HB|rewrite Hce; simpl; lia|done|simpl; lia|done]. }
      destruct (Z.leb_spec size (offset_in_chunk b)); [|exists None; split; [done|by left]].
      exists (Some 0). split; [done|]. intros e. exists (offset_in_chunk b), (b :: B), [mkAllocation size 0 e].
      split_and!; [done| | |simpl; split_and!; [lia|done|lia|lia]].
      * simpl in HB. lia.
      * eapply (chain_mono (offset_in_chunk b)); [reflexivity|exact HA|]. simpl in HB |- *. destruct HB as (? & ? & ? & ?). by split_and!.
    + simpl in E. injection E as <- ->. simpl in HA. destruct HA as (Hf & Hfm & Hfs & HA).
      assert (lst ∈ b :: B) as Hin by by apply last_Some_elem_of. destruct (chain_in _ _ _ _ HB Hin) as (_ & Hlb' & _ & _).
      destruct (Z.leb_spec (offset_in_chunk first) (offset_in_chunk lst)); [lia|].
      destruct (Z.leb_spec (y + size) (offset_in_chunk first)); [|exists None; split; [done|by left]].
      exists (Some y). split; [done|]. intros e. exists (offset_in_chunk first), (first :: A), ((b :: B) ++ [mkAllocation size y e]).
      split_and!; [by rewrite app_assoc| | |].
      * lia.
      * simpl. by split_and!.
      * eapply chain_snoc; [exact HB|rewrite Hce; simpl; lia|done|simpl; lia|done].
Qed.

(* in an empty chunk there is room at the start exactly when it is large enough *)
Lemma FindOffset_empty cap r size : 0 < size -> FindOffsetForAllocation (mkChunk cap r []) size = Ok (if cap <? size then None else Some 0).
Proof. intros Hs. unfold FindOffsetForAllocation. destruct (Z.eqb_spec size 0); [lia|]. simpl. by destruct (cap <? size). Qed.

(* the check of a debug build for a chunk's allocations *)
Lemma ring_no_overlap capacity l : ring capacity l -> no_overlap (sorted_by_offset l) = true.
Proof.
  intros Hr. set (le := fun a b : Allocation => offset_in_chunk a <= offset_in_chunk b).
  assert (Sorted le (sorted_by_offset l)) as Hs.
  { apply Sorted_merge_sort. intros a b. unfold le. lia. }
  assert (∀ a b, [a; b] ⊆+ sorted_by_offset l -> apart a b ∧ 0 < size_in_bytes b) as Hab.
  { intros a b H. unfold sorted_by_offset in H. rewrite merge_sort_Permutation in H. split; [by apply (ring_apart _ _ _ _ Hr)|].
    apply (ring_in _ _ _ Hr). eapply elem_of_submseteq; [|exact H]. right. left. }
  induction Hs as [|a k Hs IH Hhd]; [done|]. destruct k as [|b k]; [done|]. cbn [no_overlap].
  apply andb_true_iff. split.
  - apply Z.leb_le. inversion Hhd as [|? ? Hle]; subst. unfold le in Hle.
    destruct (Hab a b) as [Hap Hb]; [apply (submseteq_app [a; b] [a; b] [] k); [done|apply submseteq_nil_l]|]. destruct Hap; lia.
  - apply IH. intros x y H. apply Hab. by apply submseteq_cons.
Qed.

(** ** The capacity of the readback heap *)

Lemma grow_capacity_spec fuel : ∀ c d, 1 <= c < 2 ^ 64 -> d < 2 ^ 64 -> 2 ^ 63 <= c * 2 ^ Z.of_nat fuel ->
  match grow_capacity fuel c d with
  | Ok c' => ∃ k, 0 <= k ∧ c' = c * 2 ^ k ∧ d <= c' < 2 ^ 64 ∧ (0 < k -> c' < 2 * d)
  | Throw e => e = ResultException E_OUTOFMEMORY ∧ ∃ k, 0 <= k ∧ 2 ^ 63 - 1 <= c * 2 ^ k < d
  | Undef => False
  end.
Proof.
  induction fuel as [|fuel IH]; intros c d Hc Hd Hf; simpl; (destruct (Z.ltb_spec c d); [|exists 0; split_and!; [lia|lia|lia|lia|lia]]).
  - change (SIZE_MAX / 2) with (2 ^ 63 - 1). destruct (Z.leb_spec (2 ^ 63 - 1) c); [split; [done|]; exists 0; lia|]. simpl in Hf. lia.
  - change (SIZE_MAX / 2) with (2 ^ 63 - 1). destruct (Z.leb_spec (2 ^ 63 - 1) c); [split; [done|]; exists 0; lia|].
    rewrite u64_id by lia. specialize (IH (c * 2) d). rewrite Nat2Z.inj_succ, Z.pow_succ_r in Hf by lia.
    specialize (IH ltac:(lia) Hd ltac:(lia)). destruct (grow_capacity fuel (c * 2) d) as [c'|e|]; [| |done].
    + destruct IH as (k & Hk & -> & Hc' & Hlt). exists (k + 1). rewrite Z.pow_add_r, Z.pow_1_r by lia. split_and!; [lia|lia|lia|lia|].
      intros _. destruct (decide (k = 0)) as [->|]; [lia|]. apply Hlt. lia.
    + destruct IH as (-> & k & Hk & Hb). split; [done|]. exists (k + 1). rewrite Z.pow_add_r, Z.pow_1_r by lia. lia.
Qed.

Lemma ComputeNewCapacity_ok c d : 1 <= c < 2 ^ 64 -> d < 2 ^ 64 ->
  match ComputeNewCapacity c d with
  | Ok c' => ∃ k, 0 <= k ∧ c' = c * 2 ^ k ∧ d <= c' < 2 ^ 64 ∧ (0 < k -> c' < 2 * d)
  | Throw e => e = ResultException E_OUTOFMEMORY ∧ ∃ k, 0 <= k ∧ 2 ^ 63 - 1 <= c * 2 ^ k < d
  | Undef => False
  end.
Proof. intros Hc Hd. apply grow_capacity_spec; [done|done|]. change (2 ^ Z.of_nat 64) with (2 ^ 64). lia. Qed.

(** The steps of a chunk: an allocation where [FindOffsetForAllocation] finds
    room, and the release of the oldest. *)
Inductive chunk_step : Chunk -> Chunk -> Prop :=
  | allocate c size o e : 0 < size < 2 ^ 64 -> FindOffsetForAllocation c size = Ok (Some o) -> chunk_step c (push_allocation (mkAllocation size o e) c)
  | release c a l : allocations c = a :: l -> chunk_step c (mkChunk (capacity_in_bytes c) (c_resource c) l).

(** C28: however allocations and releases of the oldest follow one another, the allocations of a chunk lie in it, start at multiples of 512 and never overlap, the check of a debug build holds, and the search for room returns for every size. *)
Theorem chunk_never_overlaps (capacity : Z) (r : nat) (c : Chunk) : 0 <= capacity -> capacity + 511 < 2 ^ 64 ->
  rtc chunk_step (mkChunk capacity r []) c ->
  (∀ a, a ∈ allocations c -> 0 <= offset_in_chunk a ∧ offset_in_chunk a + size_in_bytes a <= capacity ∧ offset_in_chunk a mod 512 = 0) ∧
  (∀ a b, [a; b] ⊆+ allocations c -> apart a b) ∧
  no_overlap (sorted_by_offset (allocations c)) = true ∧
  (∀ size, 0 < size < 2 ^ 64 -> ∃ o, FindOffsetForAllocation c size = Ok o).
Proof.
  intros H0 Hc Hs.
  assert (capacity_in_bytes c = capacity ∧ ring capacity (allocations c)) as [Hcap Hr].
  { revert Hs. apply (rtc_ind_r (fun c => capacity_in_bytes c = capacity ∧ ring capacity (allocations c))); [by split; [|apply ring_nil]|].
    intros x y _ Hxy [Hx Hr]. inversion Hxy as [z size o e Hsz E|z a l E]; subst z y; simpl; split; try done.
    - destruct (FindOffset_ring x size) as (o' & E' & Ho); [by rewrite Hx|done|by rewrite Hx|]. rewrite E in E'. injection E' as <-. rewrite <- Hx. apply Ho.
    - rewrite E in Hr. by eapply ring_tail. }
  split_and!.
  - intros a Ha. by destruct (ring_in _ _ _ Hr Ha) as (? & ? & ? & _).
  - intros a b. by apply (ring_apart capacity).
  - by apply (ring_no_overlap capacity).
  - intros size Hsz. destruct (FindOffset_ring c size) as (o & E & _); [by rewrite Hcap|done|by rewrite Hcap|]. by exists o.
Qed.

Module Examples.
(* a chunk of 2048 bytes: the third allocation goes round to the start *)
Definition wrapped : Chunk :=
  mkChunk 2048 7 [mkAllocation 600 1024 (mkEvent 2); mkAllocation 500 0 (mkEvent 3)].

Lemma wrapped_steps : rtc chunk_step (mkChunk 2048 7 []) wrapped.
Proof.
  eapply rtc_l; [apply (allocate _ 1000 0 (mkEvent 1)); [lia|reflexivity]|].
  eapply rtc_l; [apply (allocate _ 600 1024 (mkEvent 2)); [lia|reflexivity]|].
  eapply rtc_l; [by eapply release|]. eapply rtc_l; [apply (allocate _ 500 0 (mkEvent 3)); [lia|reflexivity]|]. apply rtc_refl.
Qed.

Lemma chunk_never_overlaps_witness :
  (∀ a, a ∈ allocations wrapped -> 0 <= offset_in_chunk a ∧ offset_in_chunk a + size_in_bytes a <= 2048 ∧ offset_in_chunk a mod 512 = 0) ∧
  (∀ a b, [a; b] ⊆+ allocations wrapped -> apart a b) ∧
  no_overlap (sorted_by_offset (allocations wrapped)) = true ∧
  (∀ size, 0 < size < 2 ^ 64 -> ∃ o, FindOffsetForAllocation wrapped size = Ok o).
Proof. apply (chunk_never_overlaps 2048 7 wrapped); [lia|lia|exact wrapped_steps]. Defined.

Example room : FindOffsetForAllocation wrapped 512 = Ok (Some 512) ∧ FindOffsetForAllocation wrapped 513 = Ok None.
Proof. split; reflexivity. Qed.
End Examples.
