(* ===== verification/DmlMemory.v ===== *)
(** * DirectML: the device is a memory (src/dml/dml_pooled_upload_heap.cpp,
    dml_readback_heap.cpp and the calls of dml_execution_context.cpp)

    The refinement of the heaps and the context: a driver that uploads, reads
    back and calls the context does, for the callers' buffers, what a memory
    would on which everything happens at once. *)
From Stdlib Require Import ZArith Lia FunctionalExtensionality.
From stdpp Require Import base numbers list gmap sorting.
From S2P Require Import Prelude DmlQueue DmlDescriptors DmlContext DmlHeaps.
Local Open Scope Z_scope.

(** ** Memory behind the device

    [priv] are the buffers of the heaps themselves: no command but their own
    copies touches them. *)
Definition with_memory (m : memory) (g : device) : device := mkDevice (completed g) (pending g) m (polls g).

Section run.
Context (exec : command -> memory -> memory) `{!Device exec}.
Notation run_commands := (run_commands exec).

Lemma eventually_unfinished r g : eventually exec r g = run_commands (unfinished r g) (dev_memory g).
Proof.
  unfold DmlContext.eventually, unfinished. rewrite run_commands_app. f_equal. unfold settled.
  generalize (dev_memory g). induction (pending g) as [|[f ls] p IH]; intros m; [done|]. simpl. rewrite run_commands_app, IH. f_equal.
  clear. revert m. induction ls as [|l ls IH]; intros m; [done|]. simpl. by rewrite run_commands_app, IH.
Qed.

Lemma run_insert l m r v : (∀ c, c ∈ l -> r ∉ touches c) -> run_commands l (<[r := v]> m) = <[r := v]> (run_commands l m).
Proof.
  revert m. induction l as [|c l IH]; intros m H; [done|]. simpl. rewrite exec_insert by (apply H; left). apply IH. intros d Hd. apply H. by right.
Qed.

Lemma run_frame l m r : (∀ c, c ∈ l -> r ∉ touches c) -> run_commands l m !! r = m !! r.
Proof.
  revert m. induction l as [|c l IH]; intros m H; [done|]. simpl. rewrite IH by (intros d Hd; apply H; by right). apply exec_frame. apply H. left.
Qed.

Lemma run_width l m r b : m !! r = Some b -> ∃ b', run_commands l m !! r = Some b' ∧ Width b' = Width b.
Proof.
  revert m b. induction l as [|c l IH]; intros m b H; [by exists b|]. simpl. destruct (exec_width c m r b H) as (b1 & H1 & E1).
  destruct (IH _ _ H1) as (b2 & H2 & E2). exists b2. by rewrite E2, E1.
Qed.

(* commands that keep off a part of the memory *)
Lemma run_union l (priv m : memory) : Forall (spares (dom priv)) l -> run_commands l (priv ∪ m) = priv ∪ run_commands l m.
Proof.
  intros Hl. assert (∀ r, r ∈ dom priv -> ∀ c, c ∈ l -> r ∉ touches c) as H.
  { intros r Hr c Hc Ht. rewrite Forall_forall in Hl. by apply (Hl c Hc r). }
  clear Hl. induction priv as [|r v priv Hr IH] using map_ind; [by rewrite !(left_id_L ∅ (∪))|].
  rewrite <- !insert_union_l, run_insert by (apply H; set_solver). f_equal. apply IH. intros r' Hr'. apply H. set_solver.
Qed.

End run.

Section memory.
Context (exec : command -> memory -> memory) (progress : nat -> nat) `{!Device exec}.
Context (cpu_start gpu_start : nat -> Z) (increment : Z).
Context (new_resource : list nat -> nat) (contents : nat -> Z -> Z) `{!FreshResource new_resource}.
Notation ready := (ready cpu_start gpu_start increment).
Notation eventually := (eventually exec).
Notation does := (does exec cpu_start gpu_start increment).
Notation run_commands := (run_commands exec).

Lemma touched_unfinished private c g r : ready private c g -> r ∈ private -> ∀ x, x ∈ unfinished (dml_recorder_ c) g -> r ∉ touches x.
Proof. intros H Hr x Hx Ht. pose proof (rk_private _ _ _ _ _ _ _ _ _ (rd_recorder _ _ _ _ _ _ H)) as Hp. rewrite Forall_forall in Hp. by apply (Hp x Hx r). Qed.

(* the host writes to a buffer the device keeps off *)
Lemma ready_with_memory private c g m : ready private c g -> ready private c (with_memory m g).
Proof. intros [[H1 H2 H3 H4 H5 H6 H7] Hc Hq]. by split; [split|..]. Qed.

Lemma eventually_write r g p b : (∀ x, x ∈ unfinished r g -> p ∉ touches x) ->
  eventually r (with_memory (<[p := b]> (dev_memory g)) g) = <[p := b]> (eventually r g).
Proof. intros H. rewrite !eventually_unfinished. simpl. by apply run_insert. Qed.

Lemma eventually_read r g p : (∀ x, x ∈ unfinished r g -> p ∉ touches x) -> eventually r g !! p = dev_memory g !! p.
Proof. intros H. rewrite eventually_unfinished. by apply run_frame. Qed.

Lemma ready_mono private private' c g : private' ⊆ private -> ready private c g -> ready private' c g.
Proof.
  intros Hs [[H1 H2 H3 H4 H5 H6 H7] Hc Hq]. split; [|done|done]. split; try done.
  eapply Forall_impl; [exact H7|]. intros x Hx r Hr Hin. apply (Hx r Hr). by apply Hs.
Qed.

Lemma ready_add private c g p : ready private c g -> (∀ x, x ∈ unfinished (dml_recorder_ c) g -> p ∉ touches x) -> ready ({[p]} ∪ private) c g.
Proof.
  intros [[H1 H2 H3 H4 H5 H6 H7] Hc Hq] Hp. split; [|done|done]. split; try done. rewrite Forall_forall in H7 |- *.
  intros x Hx r Hr [->%elem_of_singleton|Hin]%elem_of_union; [by apply (Hp x)|by apply (H7 x Hx r)].
Qed.

(* with nothing left to do, nothing is touched *)
Lemma ready_idle private private' c g : ready private c g -> pending g = [] -> HasUnsubmittedWork c = false -> ready private' c g.
Proof.
  intros H Hp Hw. pose proof (rk_list _ _ _ _ _ _ _ _ _ (rd_recorder _ _ _ _ _ _ H)) as Hl.
  destruct H as [[H1 H2 H3 H4 H5 H6 H7] Hc Hq]. split; [|done|done]. split; try done.
  unfold unfinished. rewrite Hp. simpl. unfold HasUnsubmittedWork in Hw. unfold recorded.
  destruct (current_recorder_ c); simpl in Hw.
  - destruct Hl as (l & -> & _ & _ & Hh). apply Forall_forall. intros x Hx r Hr. specialize (Hh Hw).
    rewrite forallb_forall in Hh. apply list_elem_of_In in Hx. specialize (Hh x Hx). destruct x; try done. by apply elem_of_nil in Hr.
  - destruct Hl as (-> & _). done.
Qed.

(* a new buffer is one of the heaps' own *)
Lemma CreateCommittedResource_ok size priv (sm : memory) c g r g' :
  CreateCommittedResource new_resource contents size c g = (r, g') -> ready (dom priv) c g -> eventually (dml_recorder_ c) g = priv ∪ sm ->
  let b := mkResource size (contents r) in
  (priv ∪ sm) !! r = None ∧ ready (dom (<[r := b]> priv)) c g' ∧ eventually (dml_recorder_ c) g' = <[r := b]> priv ∪ sm
  ∧ completed g' = completed g.
Proof.
  intros E Hr Hv b. unfold CreateCommittedResource in E. injection E as Er <-.
  pose proof (fresh_resource (alive (dml_recorder_ c) g)) as Hf. rewrite Er in Hf. unfold alive in Hf.
  apply not_elem_of_app in Hf as [Hf1 Hf2].
  assert (∀ x, x ∈ unfinished (dml_recorder_ c) g -> r ∉ touches x) as Hx.
  { intros x Hx Ht. apply Hf2. apply list_elem_of_In, in_flat_map. exists x. by rewrite <- !list_elem_of_In. }
  rewrite <- Hv. split_and!; [| | |done].
  - rewrite eventually_read by done. apply not_elem_of_dom. intros Hd. apply Hf1. apply elem_of_dom in Hd as [v Hd].
    apply list_elem_of_fmap. exists (r, v). split; [done|]. by apply elem_of_map_to_list.
  - rewrite dom_insert_L, Er. apply (ready_with_memory _ _ _ (<[r := b]> (dev_memory g))) in Hr. apply ready_add; [exact Hr|done].
  - rewrite Er. rewrite <- insert_union_l, <- Hv. by apply eventually_write.
Qed.

Lemma map_write_ok p b off src priv (sm : memory) c g : ready (dom priv) c g -> eventually (dml_recorder_ c) g = priv ∪ sm ->
  priv !! p = Some b -> 0 <= off -> off + Z.of_nat (length src) <= Width b ->
  ∃ g', map_write p off src g = Ok g' ∧ ready (dom (<[p := write_bytes b off src]> priv)) c g'
    ∧ eventually (dml_recorder_ c) g' = <[p := write_bytes b off src]> priv ∪ sm ∧ completed g' = completed g.
Proof.
  intros Hr Hv Hp H1 H2. assert (p ∈ dom priv) as Hd by (apply elem_of_dom; eauto).
  pose proof (touched_unfinished _ _ _ _ Hr Hd) as Hx. pose proof (eventually_read _ _ _ Hx) as Hm. rewrite Hv, (lookup_union_Some_l _ _ _ _ Hp) in Hm.
  unfold map_write. rewrite <- Hm. unfold in_range.
  destruct (Z.leb_spec 0 off); [|lia]. destruct (Z.leb_spec (off + Z.of_nat (length src)) (Width b)); [|lia]. simpl andb. cbv iota.
  eexists. split_and!; [done| | |done].
  - rewrite dom_insert_lookup_L by eauto. by apply (ready_with_memory _ _ _ (<[p := write_bytes b off src]> (dev_memory g))).
  - rewrite <- insert_union_l, <- Hv. by apply (eventually_write _ _ _ (write_bytes b off src)).
Qed.

Lemma map_read_ok p b off n priv (sm : memory) c g : ready (dom priv) c g -> eventually (dml_recorder_ c) g = priv ∪ sm ->
  priv !! p = Some b -> 0 <= off -> off + n <= Width b -> map_read p off n g = Ok (read_bytes b off n).
Proof.
  intros Hr Hv Hp H1 H2. assert (p ∈ dom priv) as Hd by (apply elem_of_dom; eauto).
  pose proof (eventually_read _ _ _ (touched_unfinished _ _ _ _ Hr Hd)) as Hm. rewrite Hv, (lookup_union_Some_l _ _ _ _ Hp) in Hm.
  unfold map_read. rewrite <- Hm. unfold in_range. destruct (Z.leb_spec 0 off); [|lia]. by destruct (Z.leb_spec (off + n) (Width b)); [|lia].
Qed.
End memory.

(** ** The upload heap at work *)

(* every chunk is at least as large as those before it together *)
Fixpoint growing (s : Z) (l : list Z) : Prop :=
  match l with [] => True | c :: l => s <= c ∧ growing (s + c) l end.

Lemma growing_snoc s l c : growing s l -> s + sumZ l <= c -> growing s (l ++ [c]).
Proof. revert s. induction l as [|x l IH]; intros s; simpl; [intros _ ?; split; [lia|done]|]. intros [? H] Hc. split; [done|]. apply IH; [done|lia]. Qed.

Lemma growing_bound s l n : growing s l -> Forall (fun c => c < n) l -> s < 2 * n -> s + sumZ l < 2 * n.
Proof.
  revert s. induction l as [|x l IH]; simpl; intros s; [lia|]. intros [Hs Hg] [Hx Hl]%Forall_cons H.
  specialize (IH (s + x) Hg Hl). lia.
Qed.

Lemma sumZ_nonneg l : Forall (fun c => 0 <= c) l -> 0 <= sumZ l.
Proof. induction 1; simpl; lia. Qed.

(* the chunks' own buffers are in [priv], and what is in them is done *)
Record chunk_ok (priv : memory) (now : Z) (ch : Chunk) : Prop := {
  co_capacity : 0 < capacity_in_bytes ch;
  co_resource : Width <$> priv !! c_resource ch = Some (capacity_in_bytes ch);
  co_ring : ring (capacity_in_bytes ch) (allocations ch);
  co_one : (length (allocations ch) <= 1)%nat;
  co_done : Forall (fun a => fence_value (done_event a) <= now) (allocations ch) }.

Record upload_ok (priv : memory) (now : Z) (h : DmlPooledUploadHeap) : Prop := {
  uo_chunks : Forall (chunk_ok priv now) (chunks_ h);
  uo_growing : growing 0 (map capacity_in_bytes (chunks_ h));
  uo_total : total_capacity_ h = sumZ (map capacity_in_bytes (chunks_ h));
  uo_bound : total_capacity_ h <= 2 ^ 62 }.

Definition readback_ok (priv : memory) (rb : DmlReadbackHeap) : Prop :=
  match readback_heap_ rb with
  | None => rb_capacity_ rb = 0
  | Some r => Width <$> priv !! r = Some (rb_capacity_ rb) ∧ 1 <= rb_capacity_ rb < 2 ^ 64
  end.

(* later memories have the buffers of the earlier, with their widths *)
Definition widths (priv priv' : memory) : Prop := ∀ r w, Width <$> priv !! r = Some w -> Width <$> priv' !! r = Some w.

Lemma widths_refl priv : widths priv priv.
Proof. by intros r w. Qed.
Lemma widths_trans p1 p2 p3 : widths p1 p2 -> widths p2 p3 -> widths p1 p3.
Proof. intros H1 H2 r w H. by apply H2, H1. Qed.
Lemma widths_insert (priv : memory) r b : priv !! r = None ∨ Width <$> priv !! r = Some (Width b) -> widths priv (<[r := b]> priv).
Proof.
  intros H r' w Hw. destruct (decide (r = r')) as [<-|Hne]; [|by rewrite lookup_insert_ne].
  rewrite lookup_insert_eq. destruct H as [H|H]; rewrite H in Hw; [done|]. simpl. congruence.
Qed.

Lemma chunk_ok_later priv priv' now now' ch : widths priv priv' -> now <= now' -> chunk_ok priv now ch -> chunk_ok priv' now' ch.
Proof.
  intros Hw Hn [H1 H2 H3 H4 H5]. split; [done|by apply Hw|done|done|]. eapply Forall_impl; [exact H5|]. simpl. lia.
Qed.
Lemma upload_ok_later priv priv' now now' h : widths priv priv' -> now <= now' -> upload_ok priv now h -> upload_ok priv' now' h.
Proof.
  intros Hw Hn [H1 H2 H3 H4]. split; try done. eapply Forall_impl; [exact H1|]. intros ch. by apply chunk_ok_later.
Qed.
Lemma readback_ok_later priv priv' rb : widths priv priv' -> readback_ok priv rb -> readback_ok priv' rb.
Proof. unfold readback_ok. destruct (readback_heap_ rb); [|done]. intros Hw [H1 H2]. split; [by apply Hw|done]. Qed.

Lemma total_fold l : Forall (fun c => 0 < capacity_in_bytes c) l -> ∀ s, 0 <= s -> s + sumZ (map capacity_in_bytes l) < 2 ^ 64 ->
  fold_left (fun s c => u64 (s + capacity_in_bytes c)) l s = s + sumZ (map capacity_in_bytes l).
Proof.
  induction 1 as [|c l Hc Hl IH]; intros s Hs Hb; simpl in *; [lia|].
  assert (0 <= sumZ (map capacity_in_bytes l)).
  { apply sumZ_nonneg, Forall_map. eapply Forall_impl; [exact Hl|]. simpl. lia. }
  rewrite u64_id by lia. rewrite IH; lia.
Qed.

Lemma growing_sorted l : ∀ s, 0 <= s -> growing s (map capacity_in_bytes l) ->
  is_sorted (fun a b => capacity_in_bytes a <? capacity_in_bytes b) l = true.
Proof.
  induction l as [|a l IH]; intros s Hs H; [done|]. destruct l as [|b l]; [done|]. cbn [is_sorted]. simpl in H.
  destruct H as (Ha & Hb & H). apply andb_true_iff. split; [|apply (IH (s + capacity_in_bytes a)); [lia|by split]].
  apply negb_true_iff, Z.ltb_ge. lia.
Qed.

(* the checks of a debug build hold *)
Lemma AssertInvariants_ok priv now h g : upload_ok priv now h ->
  (∀ r w, Width <$> priv !! r = Some w -> Width <$> dev_memory g !! r = Some w) -> AssertInvariants h g = Ok ().
Proof.
  intros [H1 H2 H3 H4] Hm. unfold AssertInvariants. rewrite (growing_sorted _ 0) by done. change (assert_ true) with (Ok ()). rewrite bind_Ok.
  assert (forallb (chunk_invariants g) (chunks_ h) = true) as ->.
  { apply forallb_forall. intros ch Hch. rewrite Forall_forall in H1. apply list_elem_of_In in Hch. destruct (H1 ch Hch) as [K1 K2 K3 K4 K5].
    unfold chunk_invariants. apply Hm in K2. destruct (dev_memory g !! c_resource ch) as [b|]; [|done]. simpl in K2. injection K2 as K2.
    rewrite K2, Z.eqb_refl, (ring_no_overlap _ _ K3), !andb_true_r. apply andb_true_iff. split.
    - by destruct (allocations ch) as [|a [|a' l]]; [..|simpl in K4; lia].
    - apply forallb_forall. intros a Ha. apply list_elem_of_In in Ha. destruct (ring_in _ _ _ K3 Ha) as (_ & ? & Hmod & _).
      change c_allocation_alignment with 512. rewrite Hmod. simpl. rewrite andb_true_r. by apply Z.leb_le. }
  change (assert_ true) with (Ok ()). rewrite bind_Ok. rewrite total_fold; [|eapply Forall_impl; [exact H1|]; intros ch Hc; apply Hc|lia|lia].
  simpl. by rewrite H3, Z.eqb_refl.
Qed.

Definition emptied (ch : Chunk) : Chunk := mkChunk (capacity_in_bytes ch) (c_resource ch) [].

Section upload.
Context (exec : command -> memory -> memory) (progress : nat -> nat) `{!Device exec}.
Context (cpu_start gpu_start : nat -> Z) (increment : Z).
Context (new_resource : list nat -> nat) (contents : nat -> Z -> Z) `{!FreshResource new_resource}.
Notation ready := (ready cpu_start gpu_start increment).
Notation eventually := (eventually exec).
Notation run_commands := (run_commands exec).
Notation later := (later exec).

(* everything that was uploaded has arrived, so every allocation is released *)
Lemma reclaim_chunk_ok last l : ∀ g, in_step last g -> Forall (fun a => fence_value (done_event a) <= completed g) l ->
  ∃ g', reclaim_chunk exec progress l g = ([], g') ∧ later g g'.
Proof.
  induction l as [|a l IH]; intros g Hs Hl; [exists g; split; [done|apply later_refl]|]. apply Forall_cons in Hl as [Ha Hl]. cbn [reclaim_chunk].
  destruct (IsSignaled exec progress (done_event a) g) as [b g1] eqn:E. apply IsSignaled_later in E as [L Hb].
  pose proof (completed_later exec last g g1 Hs L) as Hc. assert (b = true) as -> by (apply Hb; lia).
  destruct (IH g1) as (g2 & E2 & L2); [by eapply in_step_later|eapply Forall_impl; [exact Hl|]; simpl; lia|].
  exists g2. split; [done|by eapply later_trans].
Qed.

Lemma ReclaimAllocations_ok last priv h g : in_step last g -> upload_ok priv (completed g) h ->
  ∃ g', ReclaimAllocations exec progress h g = (mkUploadHeap (map emptied (chunks_ h)) (total_capacity_ h), g') ∧ later g g'.
Proof.
  intros Hs [H _ _ _]. unfold ReclaimAllocations.
  assert (∀ l g, in_step last g -> Forall (chunk_ok priv (completed g)) l -> ∃ g', reclaim_chunks exec progress l g = (map emptied l, g') ∧ later g g') as G.
  { clear h g Hs H. induction l as [|ch l IH]; intros g Hs Hl; [exists g; split; [done|apply later_refl]|]. apply Forall_cons in Hl as [Hc Hl]. cbn [reclaim_chunks map].
    destruct (reclaim_chunk_ok last (allocations ch) g Hs (co_done _ _ _ Hc)) as (g1 & -> & L1).
    destruct (IH g1) as (g2 & -> & L2); [by eapply in_step_later| |exists g2; split; [done|by eapply later_trans]].
    eapply Forall_impl; [exact Hl|]. intros x. apply chunk_ok_later; [apply widths_refl|by apply (completed_later exec last)]. }
  destruct (G _ g Hs H) as (g' & -> & L). by exists g'.
Qed.

Lemma emptied_ok priv now h : upload_ok priv now h -> upload_ok priv now (mkUploadHeap (map emptied (chunks_ h)) (total_capacity_ h)).
Proof.
  intros [H1 H2 H3 H4]. split; simpl; rewrite ?map_map; [|exact H2|exact H3|done].
  apply Forall_map. eapply Forall_impl; [exact H1|]. intros ch [K1 K2 K3 K4 K5]. split; simpl; [done|done|apply ring_nil; lia|lia|constructor].
Qed.

Lemma find_chunk_empty size l : 0 < size -> ∀ i,
  match find_chunk i (map emptied l) size with
  | Ok (Some (j, o)) => o = 0 ∧ ∃ ch, (i <= j)%nat ∧ l !! (j - i)%nat = Some ch ∧ size <= capacity_in_bytes ch
  | Ok None => Forall (fun ch => capacity_in_bytes ch < size) l
  | _ => False
  end.
Proof.
  intros Hs. induction l as [|ch l IH]; intros i; [constructor|]. cbn [map find_chunk].
  change (emptied ch) with (mkChunk (capacity_in_bytes ch) (c_resource ch) []). rewrite FindOffset_empty by done. rewrite bind_Ok. destruct (Z.ltb_spec (capacity_in_bytes ch) size).
  - specialize (IH (S i)). destruct (find_chunk (S i) (map emptied l) size) as [[[j o]|]| |]; [|by constructor|done|done].
    destruct IH as (-> & x & Hj & Hl & Hc). split; [done|]. exists x. split_and!; [lia| |done]. by replace (j - i)%nat with (S (j - S i)) by lia.
  - split; [done|]. exists ch. rewrite Nat.sub_diag. by split_and!.
Qed.

(* the heaps, the context and the memory the callers see *)
Record serving (m0 sm priv : memory) (h : DmlPooledUploadHeap) (rb : DmlReadbackHeap) (c : DmlExecutionContext) (g : device) : Prop := {
  sv_ready : ready (dom priv) c g;
  sv_memory : eventually (dml_recorder_ c) g = priv ∪ sm;
  sv_disjoint : priv ##ₘ sm;
  sv_shape r : Width <$> sm !! r = Width <$> m0 !! r;
  sv_upload : upload_ok priv (completed g) h;
  sv_readback : readback_ok priv rb }.

Lemma serving_own m0 sm priv h rb c g r w : serving m0 sm priv h rb c g -> Width <$> priv !! r = Some w -> Width <$> dev_memory g !! r = Some w.
Proof.
  intros [H1 H2 _ _ _ _] Hr. destruct (priv !! r) as [b|] eqn:E; [|done].
  rewrite <- (eventually_read exec _ _ _ (touched_unfinished _ _ _ _ _ _ _ H1 ltac:(apply elem_of_dom; eauto))), H2.
  by rewrite (lookup_union_Some_l _ _ _ _ E).
Qed.

Lemma serving_invariants m0 sm priv h rb c g : serving m0 sm priv h rb c g -> AssertInvariants h g = Ok ().
Proof. intros H. eapply AssertInvariants_ok; [apply H|]. intros r w. by apply (serving_own m0 sm priv h rb c). Qed.

Lemma serving_later m0 sm priv h rb c g g' : later g g' -> serving m0 sm priv h rb c g -> serving m0 sm priv h rb c g'.
Proof.
  intros L [H1 H2 H3 H4 H5 H6]. split; [by eapply ready_later|by rewrite (eventually_later exec _ g g' L)|done|done| |done].
  apply (upload_ok_later priv _ (completed g)); [apply widths_refl| |done]. apply (completed_recorder exec _ _ _ _ _ _ _ _ _ _ (rd_recorder _ _ _ _ _ _ H1) L).
Qed.

(* a chunk with room at its start, new if it must be *)
Lemma Reserve_ok m0 sm priv h rb c g size : serving m0 sm priv h rb c g -> chunks_ h = map emptied (chunks_ h) -> 0 < size <= 2 ^ 60 ->
  ∃ i h' g' priv' ch, Reserve new_resource contents size h c g = Ok (i, 0, h', g') ∧ serving m0 sm priv' h' rb c g'
    ∧ chunks_ h' !! i = Some ch ∧ allocations ch = [] ∧ size <= capacity_in_bytes ch ∧ completed g' = completed g.
Proof.
  intros H He Hs. unfold Reserve. rewrite He. pose proof (find_chunk_empty size (chunks_ h) ltac:(lia) 0) as Hf.
  destruct (find_chunk 0 (map emptied (chunks_ h)) size) as [[[i o]|]| |]; [| |done|done]; rewrite bind_Ok.
  - destruct Hf as (-> & ch & _ & Hl & Hc). rewrite Nat.sub_0_r in Hl. exists i, h, g, priv, ch. split_and!; [done|done|done| |done|done].
    rewrite He in Hl. apply list_lookup_fmap_Some in Hl as (x & -> & _). done.
  - rewrite <- He. destruct H as [H1 H2 H3 H4 [K1 K2 K3 K4] H6].
    set (n := Z.max (Z.max (total_capacity_ h) c_min_chunk_size) size).
    destruct (CreateCommittedResource new_resource contents n c g) as [r g'] eqn:E.
    destruct (CreateCommittedResource_ok exec cpu_start gpu_start increment new_resource contents n priv sm c g r g' E H1 H2) as (Hr & R1 & R2 & R3).
    set (b := mkResource n (contents r)) in *. apply lookup_union_None in Hr as [Hr1 Hr2].
    assert (widths priv (<[r := b]> priv)) as Hw by (apply widths_insert; by left).
    assert (0 <= sumZ (map capacity_in_bytes (chunks_ h)) < 2 * size) as Hsum.
    { split; [apply sumZ_nonneg, Forall_map; eapply Forall_impl; [exact K1|]; intros x Hx; simpl; pose proof (co_capacity _ _ _ Hx); lia|].
      pose proof (growing_bound 0 _ size K2) as Hb. rewrite Z.add_0_l in Hb. apply Hb; [by apply Forall_map|lia]. }
    assert (1 <= n <= 2 ^ 61 ∧ total_capacity_ h <= n ∧ size <= n) as (Hn & Hn2 & Hn3) by (unfold n, c_min_chunk_size; lia).
    eexists (length (chunks_ h)), _, g', (<[r := b]> priv), (mkChunk n r []). split_and!; [done| | |done|done|done].
    + split; [done|done|by apply map_disjoint_insert_l|done| |by eapply readback_ok_later].
      rewrite R3. split; simpl.
      * apply Forall_app. split; [eapply Forall_impl; [exact K1|]; intros x; by apply chunk_ok_later|]. constructor; [|done].
        split; simpl; [lia|by rewrite lookup_insert_eq|apply ring_nil; lia|lia|constructor].
      * rewrite map_app. simpl. apply growing_snoc; [done|lia].
      * rewrite map_app, sumZ_app. simpl. rewrite u64_id; lia.
      * rewrite u64_id; lia.
    + simpl. rewrite lookup_app_r by lia. by rewrite Nat.sub_diag.
Qed.

Lemma copied_write bd b doff src : copied bd (write_bytes b 0 src) doff 0 (Z.of_nat (length src)) = write_bytes bd doff src.
Proof.
  unfold copied, write_bytes. simpl. f_equal. apply functional_extensionality. intros i.
  destruct ((doff <=? i) && (i <? doff + Z.of_nat (length src))) eqn:E; [|done]. apply andb_true_iff in E as [E1%Z.leb_le E2%Z.ltb_lt].
  destruct (Z.leb_spec 0 (0 + (i - doff))); [|lia]. destruct (Z.ltb_spec (0 + (i - doff)) (0 + Z.of_nat (length src))); [|lia]. simpl. f_equal. lia.
Qed.

Lemma BeginUploadToGpu_ok m0 sm priv h rb c g dst doff dstate src bd : serving m0 sm priv h rb c g ->
  src ≠ [] -> Z.of_nat (length src) <= 2 ^ 60 -> sm !! dst = Some bd -> 0 <= doff -> doff + Z.of_nat (length src) <= Width bd ->
  ∃ e h' c' g' priv', BeginUploadToGpu exec progress new_resource contents dst doff dstate src h c g = Ok (e, h', c', g')
    ∧ serving m0 (<[dst := write_bytes bd doff src]> sm) priv' h' rb c' g'.
Proof.
  intros H Hne Hlen Hdst Hd1 Hd2. unfold BeginUploadToGpu. set (size := Z.of_nat (length src)) in *.
  assert (0 < size) as Hpos by (unfold size; destruct src; [done|simpl; lia]).
  destruct (Z.eqb_spec size 0); [lia|]. change (assert_ (negb false)) with (Ok ()). rewrite bind_Ok, (serving_invariants _ _ _ _ _ _ _ H), bind_Ok.
  pose proof (rk_step _ _ _ _ _ _ _ _ _ (rd_recorder _ _ _ _ _ _ (sv_ready _ _ _ _ _ _ _ H))) as Hs.
  destruct (ReclaimAllocations_ok _ priv h g Hs (sv_upload _ _ _ _ _ _ _ H)) as (g1 & -> & L1).
  apply (serving_later _ _ _ _ _ _ _ _ L1) in H.
  assert (serving m0 sm priv (mkUploadHeap (map emptied (chunks_ h)) (total_capacity_ h)) rb c g1) as H1.
  { destruct H as [K1 K2 K3 K4 K5 K6]. split; try done. by apply emptied_ok. }
  destruct (Reserve_ok _ _ _ _ _ _ _ size H1) as (i & h2 & g2 & priv2 & ch & -> & H2 & Hi & Hal & Hcap & Hc2); [simpl; by rewrite map_map|lia|].
  rewrite bind_Ok, (get_Some _ _ _ Hi), bind_Ok.
  pose proof (sv_upload _ _ _ _ _ _ _ H2) as Hu. pose proof (uo_chunks _ _ _ Hu) as Hall. rewrite Forall_lookup in Hall.
  destruct (Hall i ch Hi) as [C1 C2 C3 C4 C5]. destruct (priv2 !! c_resource ch) as [b|] eqn:Eb; [|done]. injection C2 as C2.
  rewrite Z.add_0_l, u64_id by lia. destruct (Z.leb_spec size (capacity_in_bytes ch)); [|lia]. change (assert_ true) with (Ok ()). rewrite bind_Ok.
  set (p := c_resource ch) in *. destruct H2 as [R1 R2 R3 R4 R5 R6].
  destruct (map_write_ok exec cpu_start gpu_start increment p b 0 src priv2 sm c g2 R1 R2 Eb) as (g3 & -> & W1 & W2 & W3); [done|lia|].
  rewrite bind_Ok. set (b' := write_bytes b 0 src) in *. set (priv3 := <[p := b']> priv2) in *.
  assert (sm !! p = None) as Hsp by (eapply map_disjoint_Some_l; [exact R3|exact Eb]).
  assert (dst ≠ p) as Hdp by congruence.
  assert (priv3 !! dst = None) as Hpd by (unfold priv3; rewrite lookup_insert_ne by congruence; eapply map_disjoint_Some_r; [exact R3|exact Hdst]).
  assert (priv3 ##ₘ sm) as Hdisj by (by apply map_disjoint_insert_l).
  apply (ready_mono _ _ _ _ (dom priv3 ∖ {[p]})) in W1; [|set_solver].
  destruct (CopyBufferRegion_ok exec progress cpu_start gpu_start increment (dom priv3 ∖ {[p]}) dst doff dstate p 0 GENERIC_READ size c g3 W1)
    as (c4 & g4 & -> & (D1 & D2 & D3) & Hw4 & _).
  { intros r Hr. apply elem_of_cons in Hr as [Hr|Hr%list_elem_of_singleton]; subst r; [|set_solver].
    intros [Hin _]%elem_of_difference. apply elem_of_dom in Hin as [? Hin]. congruence. }
  rewrite bind_Ok. destruct (flush_and_wait_ok exec progress cpu_start gpu_start increment _ c4 g4 D1 Hw4)
    as (e & c5 & g5 & g6 & -> & E5 & E6 & (F1 & F2 & F3) & Hp6 & Hw6 & He & _).
  rewrite bind_Ok, E5, bind_Ok, E6, bind_Ok.
  assert (priv3 !! p = Some b') as Hp3 by apply lookup_insert_eq.
  assert (eventually (dml_recorder_ c5) g6 = priv3 ∪ <[dst := write_bytes bd doff src]> sm) as Hev.
  { rewrite F2. simpl. rewrite D2. simpl. rewrite W2. erewrite (exec_copy _ dst doff p 0 size bd b'); [| | |done|lia|done|done|lia|simpl; lia].
    - unfold b', size. rewrite copied_write. by apply insert_union_r.
    - rewrite lookup_union_r by done. exact Hdst.
    - by apply lookup_union_Some_l. }
  set (h' := mkUploadHeap _ _). assert (widths priv2 priv3) as Hwd by (apply widths_insert; right; rewrite Eb; by simpl).
  assert (serving m0 (<[dst := write_bytes bd doff src]> sm) priv3 h' rb c5 g6) as Hfin.
  { split.
    - eapply ready_idle; [exact F1|done|done].
    - exact Hev.
    - by apply map_disjoint_insert_r.
    - intros r. rewrite <- R4. destruct (decide (dst = r)) as [<-|Hner]; [|by rewrite lookup_insert_ne]. by rewrite lookup_insert_eq, Hdst.
    - apply (upload_ok_later priv2 priv3 (completed g2) (completed g6) h2 Hwd) in Hu; [|lia]. destruct Hu as [U1 U2 U3 U4].
      assert (map capacity_in_bytes (alter (push_allocation (mkAllocation size 0 e)) i (chunks_ h2)) = map capacity_in_bytes (chunks_ h2)) as Hcaps.
      { clear. revert i. induction (chunks_ h2) as [|x l IH]; intros [|i]; simpl; [done..|]. f_equal. apply IH. }
      split; simpl; rewrite ?Hcaps; [|done|done|done]. apply Forall_alter; [done|]. intros x Hx Hok. rewrite Hi in Hx. injection Hx as <-.
      destruct Hok as [V1 V2 V3 V4 V5]. split; simpl; rewrite ?Hal; [done|done| |simpl; lia|repeat constructor; done].
      exists 0, [mkAllocation size 0 e], []. simpl. by split_and!.
    - by eapply readback_ok_later. }
  rewrite (serving_invariants _ _ _ _ _ _ _ Hfin), bind_Ok. by eexists e, h', c5, g6, priv3.
Qed.

Lemma Trim_ok m0 sm priv h rb c g : serving m0 sm priv h rb c g ->
  ∃ h' g', Trim exec progress h g = Ok (h', g') ∧ serving m0 sm priv h' rb c g'.
Proof.
  intros H. unfold Trim. rewrite (serving_invariants _ _ _ _ _ _ _ H), bind_Ok.
  pose proof (rk_step _ _ _ _ _ _ _ _ _ (rd_recorder _ _ _ _ _ _ (sv_ready _ _ _ _ _ _ _ H))) as Hs.
  destruct (ReclaimAllocations_ok _ priv h g Hs (sv_upload _ _ _ _ _ _ _ H)) as (g1 & -> & L1).
  apply (serving_later _ _ _ _ _ _ _ _ L1) in H. simpl chunks_.
  rewrite filter_none by (apply Forall_map, Forall_true; intros x Hx; by apply Hx).
  assert (serving m0 sm priv (mkUploadHeap [] 0) rb c g1) as H1.
  { destruct H as [K1 K2 K3 K4 K5 K6]. by split. }
  cbn [fold_left]. rewrite (serving_invariants _ _ _ _ _ _ _ H1), bind_Ok. by eexists _, g1.
Qed.
End upload.

(** ** The readback heap at work *)

Section readback.
Context (exec : command -> memory -> memory) (progress : nat -> nat) `{!Device exec}.
Context (cpu_start gpu_start : nat -> Z) (increment : Z).
Context (new_resource : list nat -> nat) (contents : nat -> Z -> Z) `{!FreshResource new_resource}.
Notation ready := (ready cpu_start gpu_start increment).
Notation eventually := (eventually exec).
Notation does := (does exec cpu_start gpu_start increment).
Notation run_commands := (run_commands exec).
Notation serving := (serving exec cpu_start gpu_start increment).

(* a capacity below 2^61 is found for any size up to 2^60 *)
Lemma ComputeNewCapacity_small c d : 1 <= c < 2 ^ 64 -> d <= 2 ^ 60 -> c < d ∨ c = c_initial_capacity ->
  ∃ n, ComputeNewCapacity c d = Ok n ∧ d <= n < 2 ^ 64 ∧ 1 <= n.
Proof.
  intros Hc Hd Hcd. pose proof (ComputeNewCapacity_ok c d Hc ltac:(lia)) as H. destruct (ComputeNewCapacity c d) as [n|e|]; [| |done].
  - destruct H as (k & Hk & -> & Hn & _). exists (c * 2 ^ k). split_and!; [done|lia|lia|]. pose proof (Z.pow_pos_nonneg 2 k). nia.
  - destruct H as (_ & k & _ & Hk). lia.
Qed.

Lemma EnsureReadbackHeap_ok m0 sm priv h rb c g n : serving m0 sm priv h rb c g -> n <= 2 ^ 60 ->
  ∃ r rb' g' priv' b, EnsureReadbackHeap new_resource contents n rb c g = Ok (r, rb', g') ∧ serving m0 sm priv' h rb' c g'
    ∧ priv' !! r = Some b ∧ n <= Width b.
Proof.
  intros H Hn. unfold EnsureReadbackHeap.
  assert (∃ r rb' g' priv', (match readback_heap_ rb with
    | None => _ ← assert_ (rb_capacity_ rb =? 0); capacity ← ComputeNewCapacity c_initial_capacity n;
        let '(r, g) := CreateCommittedResource new_resource contents capacity c g in Ok (r, mkReadbackHeap (Some r) capacity, g)
    | Some r => if rb_capacity_ rb <? n then capacity ← ComputeNewCapacity (rb_capacity_ rb) n;
        let '(r, g) := CreateCommittedResource new_resource contents capacity c g in Ok (r, mkReadbackHeap (Some r) capacity, g) else Ok (r, rb, g)
    end) = Ok (r, rb', g') ∧ serving m0 sm priv' h rb' c g' ∧ readback_heap_ rb' = Some r ∧ n <= rb_capacity_ rb') as (r & rb' & g' & priv' & -> & H' & Hr & Hc).
  { assert (∀ cap, n <= cap < 2 ^ 64 -> 1 <= cap -> ∃ r rb' g' priv',
      (let '(r, g) := CreateCommittedResource new_resource contents cap c g in Ok (r, mkReadbackHeap (Some r) cap, g)) = Ok (r, rb', g')
      ∧ serving m0 sm priv' h rb' c g' ∧ readback_heap_ rb' = Some r ∧ n <= rb_capacity_ rb') as Hnew.
    { intros cap Hcap Hpos. destruct H as [H1 H2 H3 H4 H5 H6]. destruct (CreateCommittedResource new_resource contents cap c g) as [r g'] eqn:E.
      destruct (CreateCommittedResource_ok exec cpu_start gpu_start increment new_resource contents cap priv sm c g r g' E H1 H2) as (Hr & R1 & R2 & R3).
      set (b := mkResource cap (contents r)) in *. apply lookup_union_None in Hr as [Hr1 Hr2].
      eexists r, _, g', (<[r := b]> priv). split_and!; [done| |done|simpl; lia]. split; [done|done|by apply map_disjoint_insert_l|done| |].
      - rewrite R3. apply (upload_ok_later priv _ (completed g)); [apply widths_insert; by left|lia|done].
      - unfold readback_ok. simpl. rewrite lookup_insert_eq. split; [done|lia]. }
    pose proof (sv_readback _ _ _ _ _ _ _ _ _ _ _ H) as Hrb. unfold readback_ok in Hrb. destruct (readback_heap_ rb) as [r|] eqn:Er.
    - destruct Hrb as [Hw Hcap]. destruct (Z.ltb_spec (rb_capacity_ rb) n); [|by exists r, rb, g, priv].
      destruct (ComputeNewCapacity_small (rb_capacity_ rb) n) as (cap & -> & Hc1 & Hc2); [lia|done|by left|]. rewrite bind_Ok. by apply Hnew.
    - rewrite Hrb. change (assert_ (0 =? 0)) with (Ok ()). rewrite bind_Ok.
      destruct (ComputeNewCapacity_small c_initial_capacity n) as (cap & -> & Hc1 & Hc2); [unfold c_initial_capacity; lia|done|by right|].
      rewrite bind_Ok. by apply Hnew. }
  rewrite bind_Ok. pose proof (sv_readback _ _ _ _ _ _ _ _ _ _ _ H') as Hrb. unfold readback_ok in Hrb. rewrite Hr in Hrb. destruct Hrb as [Hw Hcap].
  pose proof (serving_own exec cpu_start gpu_start increment _ _ _ _ _ _ _ r _ H' Hw) as Hm.
  destruct (dev_memory g' !! r) as [b|]; [|done]. injection Hm as Hm. destruct (priv' !! r) as [b'|] eqn:Eb; [|done]. injection Hw as Hw.
  destruct (Z.leb_spec n (Width b)); [|lia]. change (assert_ true) with (Ok ()). rewrite bind_Ok.
  exists r, rb', g', priv', b'. split_and!; [done|done|done|lia].
Qed.

Lemma wait_for_copies_ok private c g : ready private c g ->
  ∃ c' g', wait_for_copies exec progress c g = Ok (c', g') ∧ does private [] c g c' g' ∧ pending g' = [] ∧ HasUnsubmittedWork c' = false.
Proof.
  intros H. unfold wait_for_copies. destruct (Flush_ok exec progress cpu_start gpu_start increment private c g H) as (c1 & g1 & -> & D1 & Hw & _). rewrite bind_Ok.
  destruct (wait_submitted_ok exec progress cpu_start gpu_start increment private c1 g1 (proj1 D1) Hw) as (e & g2 & -> & E2 & L & D2 & Hp & _).
  rewrite bind_Ok, E2, bind_Ok. destruct D1 as (_ & D1 & K1). destruct D2 as (D2 & D2' & K2).
  unfold ReleaseCompletedReferences. rewrite (ready_open _ _ _ _ _ _ D2), bind_Ok. unfold Queue_ReleaseCompletedReferences.
  pose proof (later_poll exec progress g2) as L3. destruct (GetCompletedValue exec progress g2) as [v g3]. simpl in L3.
  eexists _, g3. split_and!; [done| | |done].
  - pose proof (completed_recorder exec _ _ _ _ _ _ _ _ _ _ (rd_recorder _ _ _ _ _ _ D2) L3).
    destruct (ready_later exec _ _ _ _ _ _ _ L3 D2) as [[M1 M2 M3 M4 M5 M6 M7] Hc Hcl].
    split_and!; [by split; [split|..]| |lia]. simpl. rewrite (eventually_later exec _ g2 g3 L3), D2', D1. done.
  - destruct (pending g3) as [|p l] eqn:E3; [done|]. pose proof (pending_later exec g2 g3 p L3 ltac:(rewrite E3; left)) as Hin. rewrite Hp in Hin. by apply elem_of_nil in Hin.
Qed.

Lemma read_copied bd bs doff soff n : read_bytes (copied bd bs doff soff n) doff n = read_bytes bs soff n.
Proof.
  apply map_ext_in. intros i Hi. apply list_elem_of_In, elem_of_seqZ in Hi. unfold copied. simpl.
  destruct (Z.leb_spec doff (doff + i)); [|lia]. destruct (Z.ltb_spec (doff + i) (doff + n)); [|lia]. simpl. f_equal. lia.
Qed.

(* a copy into the readback heap, which is kept out of what the device may not touch *)
Lemma copy_back_ok private (priv sm : memory) r b c g s sstate bs doff soff n : ready private c g -> private ⊆ dom priv ∖ {[r]} ->
  eventually (dml_recorder_ c) g = priv ∪ sm -> priv ##ₘ sm -> priv !! r = Some b -> sm !! s = Some bs ->
  0 <= n -> 0 <= doff -> doff + n <= Width b -> 0 <= soff -> soff + n <= Width bs ->
  ∃ c' g', CopyBufferRegion exec progress r doff COPY_DEST s soff sstate n c g = Ok (c', g') ∧ ready private c' g'
    ∧ eventually (dml_recorder_ c') g' = <[r := copied b bs doff soff n]> priv ∪ sm ∧ completed g <= completed g'.
Proof.
  intros H Hp Hv Hd Hr Hs Hn H1 H2 H3 H4. assert (priv !! s = None) as Hps by (eapply map_disjoint_Some_r; [exact Hd|exact Hs]).
  destruct (CopyBufferRegion_ok exec progress cpu_start gpu_start increment private r doff COPY_DEST s soff sstate n c g H) as (c' & g' & E & (D1 & D2 & D3) & _).
  { intros x Hx. apply elem_of_cons in Hx as [Hx|Hx%list_elem_of_singleton]; subst x; [set_solver|]. intros [Hin _]%Hp%elem_of_difference.
    apply elem_of_dom in Hin as [? Hin]. congruence. }
  exists c', g'. split_and!; [done|done| |done]. rewrite D2, Hv. simpl. rewrite <- insert_union_l.
  apply exec_copy; try done; [by apply lookup_union_Some_l|by rewrite lookup_union_r|congruence].
Qed.

(* what the heaps keep when the readback heap's contents change *)
Lemma serving_refill m0 sm priv h rb c g r b b' c' g' : serving m0 sm priv h rb c g -> priv !! r = Some b -> Width b' = Width b ->
  ready (dom (<[r := b']> priv)) c' g' -> eventually (dml_recorder_ c') g' = <[r := b']> priv ∪ sm -> completed g <= completed g' ->
  serving m0 sm (<[r := b']> priv) h rb c' g'.
Proof.
  intros [H1 H2 H3 H4 H5 H6] Hr Hw R1 R2 Hc. assert (widths priv (<[r := b']> priv)) as Hws by (apply widths_insert; right; rewrite Hr; simpl; by rewrite Hw).
  split; [done|done| |done|by eapply upload_ok_later|by eapply readback_ok_later].
  apply map_disjoint_insert_l. split; [|done]. by eapply map_disjoint_Some_l.
Qed.

Lemma ReadbackFromGpu_ok m0 sm priv h rb c g n s soff sstate bs : serving m0 sm priv h rb c g -> 0 < n <= 2 ^ 60 ->
  sm !! s = Some bs -> 0 <= soff -> soff + n <= Width bs ->
  ∃ rb' c' g' priv', ReadbackFromGpu exec progress new_resource contents n s soff sstate rb c g = Ok (read_bytes bs soff n, rb', c', g')
    ∧ serving m0 sm priv' h rb' c' g'.
Proof.
  intros H Hn Hs H1 H2. unfold ReadbackFromGpu. destruct (Z.eqb_spec n 0); [lia|]. change (assert_ (negb false)) with (Ok ()). rewrite bind_Ok.
  destruct (EnsureReadbackHeap_ok _ _ _ _ _ _ _ n H ltac:(lia)) as (r & rb1 & g1 & priv1 & b & -> & S1 & Hr & Hw). rewrite bind_Ok.
  assert (ready (dom priv1 ∖ {[r]}) c g1) as R1 by (eapply ready_mono; [|apply S1]; set_solver).
  destruct (copy_back_ok _ priv1 sm r b c g1 s sstate bs 0 soff n R1 ltac:(done) (sv_memory _ _ _ _ _ _ _ _ _ _ _ S1) (sv_disjoint _ _ _ _ _ _ _ _ _ _ _ S1) Hr Hs)
    as (c2 & g2 & -> & R2 & V2 & C2); [lia..|]. rewrite bind_Ok.
  destruct (wait_for_copies_ok _ c2 g2 R2) as (c3 & g3 & -> & (R3 & V3 & C3) & Hp & Hwk). rewrite bind_Ok.
  set (b' := copied b bs 0 soff n) in *.
  assert (serving m0 sm (<[r := b']> priv1) h rb1 c3 g3) as S3.
  { eapply serving_refill; [exact S1|exact Hr|done|by eapply ready_idle|by rewrite V3, V2|lia]. }
  rewrite (map_read_ok exec cpu_start gpu_start increment r b' 0 n _ sm c3 g3 (sv_ready _ _ _ _ _ _ _ _ _ _ _ S3) (sv_memory _ _ _ _ _ _ _ _ _ _ _ S3));
    [|apply lookup_insert_eq|lia|simpl; lia].
  rewrite bind_Ok. unfold b' at 1. rewrite (read_copied b bs 0 soff n). by eexists rb1, c3, g3, _.
Qed.

(* several buffers, one after the other in the readback heap *)
Fixpoint holds (sm : memory) (b : resource) (off : Z) (src : list (nat * Z)) : Prop :=
  match src with
  | [] => True
  | (s, n) :: src => (∀ bs, sm !! s = Some bs -> read_bytes b off n = read_bytes bs 0 n) ∧ holds sm b (off + n) src
  end.
Definition batch_ok (sm : memory) (src : list (nat * Z)) : Prop :=
  Forall (fun '(s, n) => 0 <= n ∧ ∃ w, Width <$> sm !! s = Some w ∧ n <= w) src ∧ sumZ src.*2 < 2 ^ 32.

Lemma sizes_nonneg (sm : memory) (src : list (nat * Z)) : Forall (fun '(s, n) => 0 <= n ∧ ∃ w, Width <$> sm !! s = Some w ∧ n <= w) src -> 0 <= sumZ src.*2.
Proof. induction 1 as [|[s n] src [Hn _] _ IH]; [done|]. rewrite fmap_cons. cbn [sumZ snd]. lia. Qed.

Lemma copy_all_ok private (priv sm : memory) r sstate src : ∀ c g off b, ready private c g -> private ⊆ dom priv ∖ {[r]} ->
  eventually (dml_recorder_ c) g = <[r := b]> priv ∪ sm -> priv ##ₘ sm -> is_Some (priv !! r) -> 0 <= off ->
  Forall (fun '(s, n) => 0 <= n ∧ ∃ w, Width <$> sm !! s = Some w ∧ n <= w) src -> off + sumZ src.*2 < 2 ^ 32 -> off + sumZ src.*2 <= Width b ->
  ∃ c' g' b', copy_all exec progress r off src sstate c g = Ok (c', g') ∧ ready private c' g'
    ∧ eventually (dml_recorder_ c') g' = <[r := b']> priv ∪ sm ∧ Width b' = Width b ∧ (∀ i, i < off -> bytes b' i = bytes b i)
    ∧ holds sm b' off src ∧ completed g <= completed g'.
Proof.
  induction src as [|[s n] src IH]; intros c g off b R Hp V Hd Hr Hoff Hall H32 Hw.
  { exists c, g, b. by split_and!. }
  apply Forall_cons in Hall as [(Hn & w & Hs & Hnw) Hall]. pose proof (sizes_nonneg sm src Hall) as Hpos. rewrite fmap_cons in H32, Hw. cbn [sumZ snd] in H32, Hw. cbn [copy_all].
  destruct (sm !! s) as [bs|] eqn:Es; [|done]. injection Hs as <-.
  destruct (copy_back_ok private (<[r := b]> priv) sm r b c g s sstate bs off 0 n R) as (c1 & g1 & -> & R1 & V1 & C1); try done; try lia.
  { rewrite dom_insert_lookup_L by done. done. }
  { apply map_disjoint_insert_l. split; [|done]. destruct Hr as [x Hr]. by eapply map_disjoint_Some_l. }
  { apply lookup_insert_eq. }
  rewrite bind_Ok, u32_id by lia. rewrite insert_insert_eq in V1. set (b1 := copied b bs off 0 n) in *.
  destruct (IH c1 g1 (off + n) b1 R1 Hp V1 Hd Hr) as (c2 & g2 & b2 & -> & R2 & V2 & W2 & B2 & Hh & C2); [lia|done|lia|simpl; lia|].
  exists c2, g2, b2. split_and!; [done|done|done|done| | |lia].
  - intros i Hi. rewrite B2 by lia. unfold b1, copied. simpl. by destruct (Z.leb_spec off i); [lia|].
  - split; [|done]. intros bs' Hbs. rewrite Es in Hbs. injection Hbs as <-. rewrite <- (read_copied b bs off 0 n). apply map_ext_in.
    intros i Hi. apply list_elem_of_In, elem_of_seqZ in Hi. apply B2. lia.
Qed.

Lemma read_all_sizes_ok priv (sm : memory) r b c g src : ready (dom priv) c g -> eventually (dml_recorder_ c) g = priv ∪ sm -> priv !! r = Some b -> ∀ off,
  0 <= off -> Forall (fun '(s, n) => 0 <= n ∧ ∃ w, Width <$> sm !! s = Some w ∧ n <= w) src -> off + sumZ src.*2 < 2 ^ 32 -> off + sumZ src.*2 <= Width b ->
  holds sm b off src ->
  read_all_sizes r off src.*2 g = Ok (map (fun '(s, n) => match sm !! s with Some bs => read_bytes bs 0 n | None => [] end) src).
Proof.
  intros R V Hr. induction src as [|[s n] src IH]; intros off Hoff Hall H32 Hw Hh; [done|].
  apply Forall_cons in Hall as [(Hn & w & Hs & Hnw) Hall]. pose proof (sizes_nonneg sm src Hall) as Hpos. rewrite fmap_cons in H32, Hw. cbn [sumZ snd] in H32, Hw. destruct Hh as [Hh1 Hh].
  destruct (sm !! s) as [bs|] eqn:Es; [|done]. cbn [fmap list_fmap read_all_sizes map snd]. rewrite Es.
  rewrite (map_read_ok exec cpu_start gpu_start increment r b off n priv sm c g R V Hr) by lia. rewrite bind_Ok, u32_id by lia.
  rewrite IH by (try done; lia). by rewrite bind_Ok, (Hh1 bs).
Qed.

Lemma total_size src : ∀ t, 0 <= t -> Forall (fun n => 0 <= n) src -> t + sumZ src < 2 ^ 32 -> fold_left (fun t s => u32 (t + s)) src t = t + sumZ src.
Proof.
  induction src as [|n src IH]; intros t Ht Hall Hb; simpl in *; [lia|]. apply Forall_cons in Hall as [Hn Hall].
  pose proof (sumZ_nonneg _ Hall). rewrite u32_id, IH by (done || lia). lia.
Qed.

Lemma ReadbackFromGpu_batch_ok m0 sm priv h rb c g src sstate : serving m0 sm priv h rb c g -> batch_ok sm src ->
  ∃ rb' c' g' priv', ReadbackFromGpu_batch exec progress new_resource contents src sstate rb c g
      = Ok (map (fun '(s, n) => match sm !! s with Some bs => read_bytes bs 0 n | None => [] end) src, rb', c', g')
    ∧ serving m0 sm priv' h rb' c' g'.
Proof.
  intros H [Hall H32]. unfold ReadbackFromGpu_batch. case_decide as He; [subst src; by exists rb, c, g, priv|].
  assert (Forall (fun n => 0 <= n) src.*2) as Hpos by (apply Forall_fmap; eapply Forall_impl; [exact Hall|]; intros [s n] [? _]; done).
  rewrite total_size by (done || lia). rewrite Z.add_0_l.
  assert (sumZ src.*2 <= 2 ^ 60) as H60 by (change (2 ^ 32) with 4294967296 in H32; change (2 ^ 60) with 1152921504606846976; lia).
  destruct (EnsureReadbackHeap_ok _ _ _ _ _ _ _ (sumZ src.*2) H H60) as (r & rb1 & g1 & priv1 & b & -> & S1 & Hr & Hw). rewrite bind_Ok.
  assert (ready (dom priv1 ∖ {[r]}) c g1) as R1 by (eapply ready_mono; [|apply S1]; set_solver).
  destruct (copy_all_ok _ priv1 sm r sstate src c g1 0 b R1 ltac:(done)) as (c2 & g2 & b2 & -> & R2 & V2 & W2 & _ & Hh & C2); try done; try lia.
  { rewrite (sv_memory _ _ _ _ _ _ _ _ _ _ _ S1). by rewrite insert_id. }
  { apply (sv_disjoint _ _ _ _ _ _ _ _ _ _ _ S1). }
  rewrite bind_Ok. destruct (wait_for_copies_ok _ c2 g2 R2) as (c3 & g3 & -> & (R3 & V3 & C3) & Hp & Hwk). rewrite bind_Ok.
  assert (serving m0 sm (<[r := b2]> priv1) h rb1 c3 g3) as S3.
  { eapply serving_refill; [exact S1|exact Hr|done|by eapply ready_idle|by rewrite V3, V2|lia]. }
  rewrite (read_all_sizes_ok _ sm r b2 c3 g3 src (sv_ready _ _ _ _ _ _ _ _ _ _ _ S3) (sv_memory _ _ _ _ _ _ _ _ _ _ _ S3) (lookup_insert_eq _ _ _)) by (done || lia).
  rewrite bind_Ok. by eexists rb1, c3, g3, _.
Qed.

End readback.

(** ** The device is a memory *)

Section refinement.
Context (exec : command -> memory -> memory) (progress : nat -> nat) `{!Device exec}.
Context (cpu_start gpu_start : nat -> Z) (increment : Z) (CreateDescriptorHeap : list nat -> nat) `{!FreshHeap CreateDescriptorHeap}.
Context (new_resource : list nat -> nat) (contents : nat -> Z -> Z) `{!FreshResource new_resource}.
Context (Hincrement : 0 < increment).
Notation eventually := (eventually exec).
Notation run_commands := (run_commands exec).
Notation serving := (serving exec cpu_start gpu_start increment).

Inductive heap_call : Type :=
  | H_Call (a : call)
  | H_Upload (dst : nat) (dst_offset dst_state : Z) (src : list Z)
  | H_Readback (n : Z) (src : nat) (src_offset src_state : Z)
  | H_Batch (src : list (nat * Z)) (src_state : Z)
  | H_Trim.

Record driver : Type := mkDriver { d_upload : DmlPooledUploadHeap; d_readback : DmlReadbackHeap; d_context : DmlExecutionContext; d_device : device }.
Definition driver_new (m : memory) : driver :=
  mkDriver DmlPooledUploadHeap_new DmlReadbackHeap_new (DmlExecutionContext_new cpu_start gpu_start increment CreateDescriptorHeap) (fresh_device m).

(* a call and what it hands back *)
Definition run_heap_call (a : heap_call) (d : driver) : outcome (list (list Z) * driver) :=
  let '(mkDriver h rb c g) := d in
  match a with
  | H_Call a => '(c, g) ← run_call exec progress cpu_start gpu_start increment CreateDescriptorHeap a c g; Ok ([], mkDriver h rb c g)
  | H_Upload dst doff dstate src => '(_, h, c, g) ← BeginUploadToGpu exec progress new_resource contents dst doff dstate src h c g; Ok ([], mkDriver h rb c g)
  | H_Readback n s soff sstate => '(data, rb, c, g) ← ReadbackFromGpu exec progress new_resource contents n s soff sstate rb c g; Ok ([data], mkDriver h rb c g)
  | H_Batch src sstate => '(data, rb, c, g) ← ReadbackFromGpu_batch exec progress new_resource contents src sstate rb c g; Ok (data, mkDriver h rb c g)
  | H_Trim => '(h, g) ← Trim exec progress h g; Ok ([], mkDriver h rb c g)
  end.
Fixpoint run_heap_calls (l : list heap_call) (d : driver) : outcome (list (list Z) * driver) :=
  match l with
  | [] => Ok ([], d)
  | a :: l => '(o, d) ← run_heap_call a d; '(os, d) ← run_heap_calls l d; Ok (o ++ os, d)
  end.

(* the same on a memory where everything happens at once *)
Definition memory_call (a : heap_call) (m : memory) : list (list Z) * memory :=
  match a with
  | H_Call a => ([], run_commands (commands_of a) m)
  | H_Upload dst doff _ src => ([], match m !! dst with Some b => <[dst := write_bytes b doff src]> m | None => m end)
  | H_Readback n s soff _ => ([match m !! s with Some b => read_bytes b soff n | None => [] end], m)
  | H_Batch src _ => (map (fun '(s, n) => match m !! s with Some b => read_bytes b 0 n | None => [] end) src, m)
  | H_Trim => ([], m)
  end.
Fixpoint memory_calls (l : list heap_call) (m : memory) : list (list Z) * memory :=
  match l with
  | [] => ([], m)
  | a :: l => let '(o, m) := memory_call a m in let '(os, m) := memory_calls l m in (o ++ os, m)
  end.

(* the buffers exist and the ranges are in them *)
Definition inside (m0 : memory) (r : nat) (off n : Z) : Prop := 0 <= off ∧ ∃ b, m0 !! r = Some b ∧ off + n <= Width b.
Definition heap_call_ok (m0 : memory) (a : heap_call) : Prop :=
  match a with
  | H_Call a => call_ok a ∧ ∀ x r, x ∈ commands_of a -> r ∈ touches x -> r ∈ dom m0
  | H_Upload dst doff _ src => src ≠ [] ∧ Z.of_nat (length src) <= 2 ^ 60 ∧ inside m0 dst doff (Z.of_nat (length src))
  | H_Readback n s soff _ => 0 < n <= 2 ^ 60 ∧ inside m0 s soff n
  | H_Batch src _ => Forall (fun '(s, n) => 0 <= n ∧ inside m0 s 0 n) src ∧ sumZ src.*2 < 2 ^ 32
  | H_Trim => True
  end.

Definition serves (m0 sm : memory) (d : driver) : Prop := ∃ priv, serving m0 sm priv (d_upload d) (d_readback d) (d_context d) (d_device d).

Lemma inside_now (m0 sm : memory) r off n : (∀ r, Width <$> sm !! r = Width <$> m0 !! r) -> inside m0 r off n ->
  0 <= off ∧ ∃ b, sm !! r = Some b ∧ off + n <= Width b.
Proof.
  intros Hs [Ho (b & Hb & Hn)]. split; [done|]. specialize (Hs r). rewrite Hb in Hs. destruct (sm !! r) as [b'|]; [|done].
  injection Hs as Hs. exists b'. split; [done|lia].
Qed.

Lemma run_heap_call_ok m0 sm a d : serves m0 sm d -> heap_call_ok m0 a ->
  ∃ d', run_heap_call a d = Ok ((memory_call a sm).1, d') ∧ serves m0 (memory_call a sm).2 d'.
Proof.
  intros (priv & H) Ha. destruct d as [h rb c g]. simpl in H. pose proof (sv_shape _ _ _ _ _ _ _ _ _ _ _ H) as Hsh.
  destruct a as [a|dst doff dstate src|n s soff sstate|src sstate|]; simpl in Ha |- *.
  - destruct Ha as [Ha Ht]. pose proof H as [H1 H2 H3 H4 H5 H6].
    assert (∀ r, r ∈ dom m0 -> r ∈ dom sm) as Hdom.
    { intros r [b Hb]%elem_of_dom. specialize (Hsh r). rewrite Hb in Hsh. apply elem_of_dom. by destruct (sm !! r). }
    assert (Forall (spares (dom priv)) (commands_of a)) as Hsp.
    { apply Forall_forall. intros x Hx r Hr Hp. specialize (Hdom r (Ht x r Hx Hr)). apply elem_of_dom in Hdom as [b Hb], Hp as [b' Hb'].
      by apply (proj1 (map_disjoint_spec priv sm) H3 r b' b). }
    destruct (run_call_ok exec progress cpu_start gpu_start increment CreateDescriptorHeap Hincrement (dom priv) a c g H1 Ha Hsp) as (c' & g' & -> & D1 & D2 & D3).
    rewrite bind_Ok. eexists. split; [done|]. exists priv. simpl. split; [done| | | | |done].
    + rewrite D2, H2. by apply run_union.
    + apply map_disjoint_dom. apply map_disjoint_dom in H3. intros r Hp Hr. apply (H3 r Hp). apply elem_of_dom in Hr as [b Hb].
      destruct (decide (r ∈ dom sm)) as [Hin|Hn]; [done|]. rewrite run_frame in Hb; [apply elem_of_dom; eauto|done|].
      intros x Hx Hrx. by apply Hn, Hdom, (Ht x).
    + intros r. rewrite <- H4. destruct (sm !! r) as [b|] eqn:Hb.
      * destruct (run_width exec (commands_of a) sm r b Hb) as (b' & -> & Hw). simpl. by rewrite Hw.
      * rewrite run_frame; [by rewrite Hb|done|]. intros x Hx Hrx. pose proof (Hdom r (Ht x r Hx Hrx)) as Hd. apply elem_of_dom in Hd as [? ?]. congruence.
    + eapply upload_ok_later; [apply widths_refl|exact D3|done].
  - destruct Ha as (Hne & Hlen & Hin). destruct (inside_now _ _ _ _ _ Hsh Hin) as (Hd & bd & Hb & Hw). rewrite Hb.
    destruct (BeginUploadToGpu_ok exec progress cpu_start gpu_start increment new_resource contents _ _ _ _ _ _ _ dst doff dstate src bd H Hne Hlen Hb Hd Hw)
      as (e & h' & c' & g' & priv' & -> & S').
    rewrite bind_Ok. eexists. split; [done|]. by exists priv'.
  - destruct Ha as (Hn & Hin). destruct (inside_now _ _ _ _ _ Hsh Hin) as (Hd & bs & Hb & Hw). rewrite Hb.
    destruct (ReadbackFromGpu_ok exec progress cpu_start gpu_start increment new_resource contents _ _ _ _ _ _ _ n s soff sstate bs H Hn Hb Hd Hw) as (rb' & c' & g' & priv' & -> & S').
    rewrite bind_Ok. eexists. split; [done|]. by exists priv'.
  - destruct Ha as (Hall & H32). destruct (ReadbackFromGpu_batch_ok exec progress cpu_start gpu_start increment new_resource contents _ _ _ _ _ _ _ src sstate H) as (rb' & c' & g' & priv' & -> & S').
    { split; [|done]. eapply Forall_impl; [exact Hall|]. intros [s n] (Hn & Hin). split; [done|].
      destruct (inside_now _ _ _ _ _ Hsh Hin) as (_ & b & Hb & Hw). exists (Width b). rewrite Hb. split; [done|lia]. }
    rewrite bind_Ok. eexists. split; [done|]. by exists priv'.
  - destruct (Trim_ok exec progress cpu_start gpu_start increment _ _ _ _ _ _ _ H) as (h' & g' & -> & S').
    rewrite bind_Ok. eexists. split; [done|]. by exists priv.
Qed.

Lemma driver_new_ok m : serves m m (driver_new m).
Proof.
  exists ∅. destruct (DmlExecutionContext_new_ok exec cpu_start gpu_start increment CreateDescriptorHeap (dom (∅ : memory)) m) as [Hr Hv].
  split; [exact Hr|etrans; [exact Hv|by rewrite (left_id_L ∅ (∪))]|apply map_disjoint_empty_l|done| |done]. by split.
Qed.

(** C14: for any sequence of uploads, readbacks, trims and calls of the context within the buffers of the callers, no call fails, no assertion of a debug build fails and every wait ends; each readback returns what it would if everything had happened at once and in order, and so does the memory in the end. *)
Theorem heaps_refine_memory (m : memory) (l : list heap_call) : Forall (heap_call_ok m) l ->
  ∃ d, run_heap_calls l (driver_new m) = Ok ((memory_calls l m).1, d) ∧
    ∀ r, r ∈ dom m -> eventually (dml_recorder_ (d_context d)) (d_device d) !! r = (memory_calls l m).2 !! r.
Proof.
  intros Hl. assert (∀ sm d, serves m sm d -> ∃ d', run_heap_calls l d = Ok ((memory_calls l sm).1, d') ∧ serves m (memory_calls l sm).2 d') as G.
  { induction Hl as [|a l Ha Hl IH]; intros sm d Hd; [by exists d|]. destruct (run_heap_call_ok m sm a d Hd Ha) as (d1 & E1 & S1).
    cbn [run_heap_calls memory_calls]. rewrite E1, bind_Ok. destruct (memory_call a sm) as [o sm1]. simpl in S1 |- *.
    destruct (IH sm1 d1 S1) as (d2 & -> & S2). rewrite bind_Ok. destruct (memory_calls l sm1) as [os sm2]. by exists d2. }
  destruct (G m (driver_new m) (driver_new_ok m)) as (d & E & priv & S). exists d. split; [done|]. intros r Hr.
  rewrite (sv_memory _ _ _ _ _ _ _ _ _ _ _ S). apply lookup_union_r.
  pose proof (sv_shape _ _ _ _ _ _ _ _ _ _ _ S r) as Hsh. apply elem_of_dom in Hr as [b Hb]. rewrite Hb in Hsh.
  destruct ((memory_calls l m).2 !! r) as [b'|] eqn:E'; [|done]. eapply map_disjoint_Some_r; [apply (sv_disjoint _ _ _ _ _ _ _ _ _ _ _ S)|exact E'].
Qed.
End refinement.

(** ** The driver on the device that only copies *)
Module Examples.
Import DmlContext.Examples.

#[export] Instance fresh_resources : FreshResource (fun l => fresh l).
Proof. intros l. apply infinite_is_fresh. Qed.

(* an upload, a copy between the buffers, a readback of both *)
Definition driven : list heap_call :=
  [H_Upload 1 2 8 [10; 11; 12]; H_Call (C_Copy 0 0 0 1 1 0 4); H_Upload 1 0 0 [5]; H_Readback 5 1 0 8; H_Trim;
   H_Batch [(0%nat, 4); (1%nat, 8)] 0].

Lemma driven_fine : Forall (heap_call_ok two_buffers) driven.
Proof.
  assert (∀ r off n, (r < 2)%nat -> 0 <= off -> off + n <= 8 -> inside two_buffers r off n) as Hin.
  { intros r off n Hr Ho Hn. split; [done|]. destruct r as [|[|r]]; [eexists; split; [reflexivity|done]..|lia]. }
  repeat (apply Forall_cons_2); [..|constructor]; simpl.
  - split_and!; [done|lia|apply Hin; lia].
  - split; [done|]. intros x r Hx%list_elem_of_singleton Hr. subst x. simpl in Hr.
    apply elem_of_cons in Hr as [Hr|Hr%list_elem_of_singleton]; subst r; apply elem_of_dom; by eexists.
  - split_and!; [done|lia|apply Hin; lia].
  - split; [lia|apply Hin; lia].
  - done.
  - split; [|lia]. repeat constructor; try apply Hin; lia.
Qed.

Lemma heaps_refine_memory_witness :
  ∃ d, run_heap_calls copies (fun k => (k mod 2)%nat) (fun _ => 0) (fun _ => 0) 32 (fun l => fresh l) (fun l => fresh l) (fun _ _ => 0) driven
         (driver_new (fun _ => 0) (fun _ => 0) 32 (fun l => fresh l) two_buffers) = Ok ((memory_calls copies driven two_buffers).1, d) ∧
    ∀ r, r ∈ dom two_buffers -> eventually copies (dml_recorder_ (d_context d)) (d_device d) !! r = (memory_calls copies driven two_buffers).2 !! r.
Proof. apply heaps_refine_memory; [exact _|exact _|exact _|lia|exact driven_fine]. Defined.

Example driven_reads : (memory_calls copies driven two_buffers).1 = [[5; 0; 10; 11; 12]; [0; 10; 11; 12]; [5; 0; 10; 11; 12; 0; 0; 0]].
Proof. vm_compute. reflexivity. Qed.

(* a total of 2^32 bytes wraps: the heap is too small for what is then read *)
Example batch_size_wraps : fold_left (fun t s => u32 (t + s)) [2 ^ 31; 2 ^ 31] 0 = 0.
Proof. reflexivity. Qed.
End Examples.
