(* ===== verification/DmlKernels.v ===== *)
(** * DirectML: the kernels of the position inputs (src/dml/dml_helpers.cpp,
    dml_update_mask_kernel.h and .cpp, dml_increment_values_kernel.h and .cpp,
    the shaders in src/dml/dml_shaders, the DirectML branches of
    src/models/position_inputs.cpp)

    A kernel records dispatches until every element has a thread.  The threads
    of a dispatch run in any order, [order]; a read of a buffer past its end is
    0 and a write there is dropped, as Direct3D has it.  A buffer is the list of
    its elements. *)
From Stdlib Require Import ZArith Lia.
From stdpp Require Import base numbers list.
From S2P Require Import Prelude Float32 Config Tensors Inputs Cuda DmlHeaps.
Local Open Scope Z_scope.

(** ** Dispatches *)

Definition MAX_THREADS_PER_GROUP : Z := 1024.              (* D3D12_CS_THREAD_GROUP_MAX_THREADS_PER_GROUP *)
Definition MAX_THREAD_GROUPS_PER_DIMENSION : Z := 65535.   (* D3D12_CS_DISPATCH_MAX_THREAD_GROUPS_PER_DIMENSION *)
Definition E_NOTIMPL : Z := 2147500033.

(* the dispatch, and the elements that are left *)
Definition GetNextDispatchSize (element_count num_threads : Z) : outcome (Z * Z) :=
  _ ← assert_ (num_threads <=? MAX_THREADS_PER_GROUP);
  let max_threads_per_dispatch := u32 (num_threads * MAX_THREAD_GROUPS_PER_DIMENSION) in
  let available_thread_count := Z.min element_count max_threads_per_dispatch in
  if num_threads =? 0 then Undef else
  let workgroup_count_1d := u32 (available_thread_count + num_threads - 1) / num_threads in
  let dispatched_element_count := u32 (workgroup_count_1d * num_threads) in
  Ok (workgroup_count_1d, if dispatched_element_count <? element_count then element_count - dispatched_element_count else 0).

(* while (pending_element_count > 0): the start index and the size of each dispatch *)
Fixpoint record_dispatches (fuel : nat) (total_element_count pending_element_count : Z) : outcome (list (Z * Z)) :=
  if 0 <? pending_element_count then
    match fuel with
    | O => Undef
    | S fuel =>
        let start_index := u32 (total_element_count - pending_element_count) in
        '(dispatch_size_x, pending) ← GetNextDispatchSize pending_element_count 256;
        rest ← record_dispatches fuel total_element_count pending;
        Ok ((start_index, dispatch_size_x) :: rest)
    end
  else Ok [].
(* a dispatch takes 256 * 65535 elements of at most 2^32 - 1 *)
Definition dispatches (total_element_count : Z) : outcome (list (Z * Z)) := record_dispatches 257 total_element_count total_element_count.

(** ** The shaders *)

(* a structured buffer *)
Definition load (l : list Z) (i : Z) : Z := if i <? 0 then 0 else nth (Z.to_nat i) l 0.
Definition store (l : list Z) (i v : Z) : list Z := if i <? 0 then l else <[Z.to_nat i := v]> l.

(* dml_increment_values.hlsl; [wrap] is the element type's *)
Definition increment_CSMain (wrap : Z -> Z) (element_count start_index x : Z) (values : list Z) : list Z :=
  let global_index := u32 (x + start_index) in
  if global_index <? element_count then store values global_index (wrap (load values global_index + 1)) else values.

(* dml_update_attention_mask.hlsl *)
Definition next_mask (max_seq_len seq_len : Z) (input_mask : list Z) (global_index : Z) : Z :=
  let sequence_index := global_index mod max_seq_len in
  if 1 <? seq_len then (if sequence_index <? seq_len then 1 else 0)
  else if (sequence_index =? 0) || (load input_mask sequence_index =? 1) || (load input_mask (sequence_index - 1) =? 1) then 1 else 0.
Definition mask_CSMain (max_seq_len seq_len element_count start_index : Z) (input_mask : list Z) (x : Z) (output_mask : list Z) : list Z :=
  let global_index := u32 (x + start_index) in
  if global_index <? element_count then store output_mask global_index (next_mask max_seq_len seq_len input_mask global_index) else output_mask.

Section kernels.
Context (order : nat -> list nat).

(* Dispatch(dispatch_size_x, 1, 1) with 256 threads to the group *)
Definition dispatch_threads (shader : Z -> Z -> list Z -> list Z) (d : Z * Z) (m : list Z) : list Z :=
  fold_left (fun m x => shader d.1 (Z.of_nat x) m) (order (Z.to_nat (d.2 * 256))) m.
Definition run_dispatches (shader : Z -> Z -> list Z -> list Z) (ds : list (Z * Z)) (m : list Z) : list Z :=
  fold_left (fun m d => dispatch_threads shader d m) ds m.

(** ** The kernels' command lists *)

Record DmlIncrementValuesKernel : Type := mkIncrementKernel { iv_element_count : Z; iv_type : ONNXTensorElementDataType; iv_dispatches : list (Z * Z) }.

Definition is_int (type : ONNXTensorElementDataType) : bool := bool_decide (type = T_INT32) || bool_decide (type = T_INT64).

Definition DmlIncrementValuesKernel_new (element_count : Z) (dtype : ONNXTensorElementDataType) : outcome DmlIncrementValuesKernel :=
  if is_int dtype then ds ← dispatches element_count; Ok (mkIncrementKernel element_count dtype ds)
  else Throw (ResultException E_NOTIMPL).

Definition wrap_int (type : ONNXTensorElementDataType) (z : Z) : Z :=
  if decide (type = T_INT32) then i32 z else (z + 2 ^ 63) mod 2 ^ 64 - 2 ^ 63.

(* the device runs the list *)
Definition run_increment (k : DmlIncrementValuesKernel) (values : list Z) : list Z :=
  run_dispatches (increment_CSMain (wrap_int (iv_type k)) (iv_element_count k)) (iv_dispatches k) values.

Record DmlUpdateMaskKernel : Type := mkMaskKernel { um_max_seq_len : Z; um_seq_len : Z; um_element_count : Z; um_dispatches : list (Z * Z) }.

Definition DmlUpdateMaskKernel_new (batch_size max_seq_len : Z) (dtype : ONNXTensorElementDataType) (seq_len : Z) : outcome DmlUpdateMaskKernel :=
  let element_count := u32 (batch_size * max_seq_len) in
  if is_int dtype then ds ← dispatches element_count; Ok (mkMaskKernel max_seq_len seq_len element_count ds)
  else Throw (ResultException E_NOTIMPL).

(* the next mask, then its copy to the mask *)
Definition run_mask (k : DmlUpdateMaskKernel) (mask mask_next : list Z) : list Z * list Z :=
  let mask_next := run_dispatches (fun start x => mask_CSMain (um_max_seq_len k) (um_seq_len k) (um_element_count k) start mask x)
                     (um_dispatches k) mask_next in
  let n := Z.to_nat (um_element_count k) in
  (take n mask_next ++ drop n mask, mask_next).

(** ** The attention mask of a captured graph (position_inputs.cpp)

    The mask and the next mask are static buffers of all rows and the maximum
    length. *)
Record mask_state : Type := mkMaskState {
  is_first_mask_update_ : bool;
  is_second_mask_update_ : bool;
  dml_update_mask_kernel_ : option DmlUpdateMaskKernel;
  attention_mask_ : list Z;
  attention_mask_next_ : list Z }.

Definition UpdateAttentionMask_dml (rows max_length : Z) (type : ONNXTensorElementDataType) (current_length : Z) (s : mask_state) : outcome mask_state :=
  '(second, kernel) ← (if is_first_mask_update_ s then
                         k ← DmlUpdateMaskKernel_new rows max_length type current_length; Ok (true, Some k)
                       else if is_second_mask_update_ s then
                         k ← DmlUpdateMaskKernel_new rows max_length type 1; Ok (false, Some k)
                       else Ok (is_second_mask_update_ s, dml_update_mask_kernel_ s));
  match kernel with
  | None => Undef
  | Some k => let '(mask, next) := run_mask k (attention_mask_ s) (attention_mask_next_ s) in
              Ok (mkMaskState false second (Some k) mask next)
  end.

(* updates for the lengths [current_length], [current_length + 1], ... *)
Fixpoint mask_updates (n : nat) (rows max_length : Z) (type : ONNXTensorElementDataType) (current_length : Z) (s : mask_state) : outcome mask_state :=
  match n with
  | O => Ok s
  | S n => s ← UpdateAttentionMask_dml rows max_length type current_length s; mask_updates n rows max_length type (current_length + 1) s
  end.
End kernels.

(** ** Every element has a thread *)

(* dispatches that cover the elements from [a] to [b] *)
Fixpoint covers (a b : Z) (ds : list (Z * Z)) : Prop :=
  match ds with
  | [] => b <= a
  | (start, size) :: ds => start = a ∧ a < b ∧ 0 < size ∧ covers (a + size * 256) b ds
  end.

Lemma GetNextDispatchSize_ok n : 0 < n < 2 ^ 32 ->
  ∃ d, GetNextDispatchSize n 256 = Ok (d, Z.max 0 (n - d * 256)) ∧ 0 < d <= 65535 ∧ d * 256 < n + 256 ∧ (n <= d * 256 ∨ d = 65535).
Proof.
  intros Hn. unfold GetNextDispatchSize. change (assert_ (256 <=? MAX_THREADS_PER_GROUP)) with (Ok ()). rewrite bind_Ok.
  change (u32 (256 * MAX_THREAD_GROUPS_PER_DIMENSION)) with 16776960. cbn [Z.eqb].
  set (a := Z.min n 16776960). rewrite (u32_id (a + 256 - 1)) by lia. replace (a + 256 - 1) with (a + 255) by lia.
  exists ((a + 255) / 256). assert (0 < (a + 255) / 256 <= 65535 ∧ a <= (a + 255) / 256 * 256 < a + 256) as [Hd1 Hd2] by (unfold a; Z.div_mod_to_equations; lia).
  rewrite u32_id by lia. destruct (Z.ltb_spec ((a + 255) / 256 * 256) n).
  - split_and!; [by rewrite Z.max_r by lia|lia|lia|lia|]. right. unfold a in *. Z.div_mod_to_equations. lia.
  - split_and!; [by rewrite Z.max_l by lia|lia|lia|lia|]. by left.
Qed.

Lemma record_dispatches_ok fuel : ∀ total pending, 0 <= pending <= total -> total < 2 ^ 32 -> pending <= Z.of_nat fuel * 16776960 ->
  ∃ ds, record_dispatches fuel total pending = Ok ds ∧ covers (total - pending) total ds ∧ Forall (fun d => 0 <= d.1 ∧ d.1 + d.2 * 256 < total + 256) ds.
Proof.
  induction fuel as [|fuel IH]; intros total pending Hp Ht Hf; cbn [record_dispatches]; (destruct (Z.ltb_spec 0 pending); [|exists []; split_and!; [done|simpl; lia|constructor]]).
  - lia.
  - destruct (GetNextDispatchSize_ok pending ltac:(lia)) as (d & -> & Hd1 & Hd2 & Hd3). rewrite bind_Ok, u32_id by lia.
    destruct (decide (pending <= d * 256)) as [Hle|Hgt].
    + rewrite Z.max_l by lia. destruct fuel; cbn [record_dispatches Z.ltb Z.compare]; rewrite bind_Ok;
        (eexists; split_and!; [done|simpl; split_and!; lia|constructor; [simpl; lia|constructor]]).
    + rewrite Z.max_r by lia. destruct (IH total (pending - d * 256)) as (ds & -> & Hc & Hall); [lia|lia|lia|]. rewrite bind_Ok.
      eexists. split_and!; [done|simpl; split_and!; [done|lia|lia|]|constructor; [simpl; lia|done]].
      by replace (total - pending + d * 256) with (total - (pending - d * 256)) by lia.
Qed.

(** ** The threads of a dispatch *)

(* a shader that updates the element of the thread, if there is one *)
Definition per_element (F : nat -> Z -> Z) (total : Z) (shader : Z -> Z -> list Z -> list Z) : Prop :=
  ∀ start x m, 0 <= start -> 0 <= x -> start + x < 2 ^ 32 ->
  shader start x m = if start + x <? total then alter (F (Z.to_nat (start + x))) (Z.to_nat (start + x)) m else m.

Section run.
Context (order : nat -> list nat) `{!Schedule order} (F : nat -> Z -> Z) (total : Z) (shader : Z -> Z -> list Z -> list Z).
Context (Hshader : per_element F total shader).

Lemma threads_ok start : 0 <= start -> ∀ xs m, NoDup xs -> Forall (fun x => start + Z.of_nat x < 2 ^ 32) xs -> ∀ k,
  fold_left (fun m x => shader start (Z.of_nat x) m) xs m !! k
  = if decide (start <= Z.of_nat k < total ∧ Z.to_nat (Z.of_nat k - start) ∈ xs) then F k <$> m !! k else m !! k.
Proof.
  intros Hs xs. induction xs as [|x xs IH]; intros m Hnd Hall k.
  { rewrite decide_False; [done|]. intros [_ H]. by apply elem_of_nil in H. }
  apply NoDup_cons in Hnd as [Hx Hnd]. apply Forall_cons in Hall as [Hb Hall]. cbn [fold_left]. rewrite IH by done.
  rewrite Hshader by lia. set (g := Z.to_nat (start + Z.of_nat x)).
  assert (k = g ↔ Z.to_nat (Z.of_nat k - start) = x ∧ start <= Z.of_nat k) as Hg by (unfold g; lia).
  destruct (decide (k = g)) as [->|Hne].
  - destruct (proj1 Hg eq_refl) as [E1 E2]. rewrite decide_False by (intros [_ H]; by rewrite E1 in H). destruct (Z.ltb_spec (start + Z.of_nat x) total).
    + rewrite list_lookup_alter_eq. rewrite decide_True; [done|]. split; [lia|rewrite E1; left].
    + rewrite decide_False; [done|]. intros [? _]. lia.
  - assert ((if start + Z.of_nat x <? total then alter (F g) g m else m) !! k = m !! k) as ->.
    { destruct (_ <? _); [|done]. by rewrite list_lookup_alter_ne. }
    apply (decide_ext). split; intros [H1 H2]; (split; [done|]); [by right|]. apply elem_of_cons in H2 as [H2|H2]; [|done].
    exfalso. apply Hne, Hg. split; [done|lia].
Qed.

Lemma run_dispatches_ok ds : ∀ a m, 0 <= a -> covers a total ds -> Forall (fun d => 0 <= d.1 ∧ d.1 + d.2 * 256 <= 2 ^ 32) ds -> ∀ k,
  run_dispatches order shader ds m !! k = if decide (a <= Z.of_nat k < total) then F k <$> m !! k else m !! k.
Proof.
  induction ds as [|[start size] ds IH]; intros a m Ha Hc Hall k; simpl in Hc.
  { rewrite decide_False by lia. done. }
  destruct Hc as (-> & Hlt & Hsz & Hc). apply Forall_cons in Hall as [[_ Hb] Hall]. simpl in Hb. cbn [run_dispatches fold_left].
  change (fold_left _ ds ?m') with (run_dispatches order shader ds m'). rewrite (IH (a + size * 256)) by (done || lia).
  unfold dispatch_threads. cbn [fst snd].
  rewrite (threads_ok a Ha).
  2:{ rewrite schedule_perm. apply NoDup_seq. }
  2:{ rewrite schedule_perm. apply Forall_seq. intros j Hj. lia. }
  assert (∀ j, j ∈ order (Z.to_nat (size * 256)) ↔ (j < Z.to_nat (size * 256))%nat) as Hin.
  { intros j. rewrite schedule_perm, elem_of_seq. lia. }
  destruct (decide (a + size * 256 <= Z.of_nat k < total)).
  - rewrite decide_False; [by rewrite decide_True by lia|]. intros [_ H]. apply Hin in H. lia.
  - destruct (decide (a <= Z.of_nat k < total)); [rewrite decide_True; [done|split; [done|apply Hin; lia]]|].
    rewrite decide_False; [done|]. intros [? _]. lia.
Qed.
End run.

Lemma dispatches_run order F total shader m k : Schedule order -> per_element F total shader -> 0 <= total -> total + 256 <= 2 ^ 32 ->
  ∃ ds, dispatches total = Ok ds ∧ run_dispatches order shader ds m !! k = if decide (Z.of_nat k < total) then F k <$> m !! k else m !! k.
Proof.
  intros Ho Hsh H0 Ht. destruct (record_dispatches_ok 257 total total) as (ds & E & Hc & Hall); [lia|lia|lia|].
  exists ds. split; [done|]. rewrite Z.sub_diag in Hc. rewrite (run_dispatches_ok order F total shader Hsh ds 0); [|lia|done|].
  - destruct (decide (Z.of_nat k < total)); [by rewrite decide_True by lia|by rewrite decide_False by lia].
  - eapply Forall_impl; [exact Hall|]. intros d Hd. simpl in Hd. lia.
Qed.

(** ** The position ids *)

Lemma increment_per_element (wrap : Z -> Z) n : n + 256 <= 2 ^ 32 -> per_element (fun _ x => wrap (x + 1)) n (increment_CSMain wrap n).
Proof.
  intros Hn start x m Hs Hx Hb. unfold increment_CSMain. rewrite u32_id by lia. replace (x + start) with (start + x) by lia.
  destruct (Z.ltb_spec (start + x) n); [|done]. unfold store, load. destruct (Z.ltb_spec (start + x) 0); [lia|].
  apply list_eq. intros i. destruct (decide (i = Z.to_nat (start + x))) as [->|Hne].
  - rewrite list_lookup_alter_eq. destruct (m !! Z.to_nat (start + x)) as [v|] eqn:E.
    + rewrite list_lookup_insert_eq by (by eapply lookup_lt_Some). by rewrite (nth_lookup_Some _ _ _ _ E).
    + rewrite list_insert_ge by (by apply lookup_ge_None). by rewrite E.
  - by rewrite list_lookup_insert_ne, list_lookup_alter_ne by done.
Qed.

Lemma int_type_is_int type : int_type type -> is_int type = true.
Proof. by intros [->| ->]. Qed.

(** In any order of the threads, and in however many dispatches, the kernel adds
    one to every position as the loop of the CPU does. *)
Theorem increment_refines (order : nat -> list nat) type (positions : list Z) : Schedule order -> int_type type ->
  Z.of_nat (length positions) + 256 <= 2 ^ 32 -> Forall (fun x => 0 <= x < INT_MAX) positions ->
  ∃ k, DmlIncrementValuesKernel_new (Z.of_nat (length positions)) type = Ok k
    ∧ UpdatePositionIDsImpl type (length positions) positions = Ok (run_increment order k positions).
Proof.
  intros Ho Hty Hn Hp. unfold DmlIncrementValuesKernel_new. rewrite int_type_is_int by done.
  destruct (record_dispatches_ok 257 (Z.of_nat (length positions)) (Z.of_nat (length positions))) as (ds & E & _); [lia..|].
  unfold dispatches at 1. rewrite E, bind_Ok. eexists. split; [done|]. rewrite UpdatePositionIDsImpl_ok by done. f_equal.
  unfold run_increment. simpl iv_dispatches. simpl iv_type. simpl iv_element_count.
  apply list_eq. intros i. rewrite list_lookup_fmap.
  destruct (dispatches_run order _ _ _ positions i Ho (increment_per_element (wrap_int type) _ Hn)) as (ds' & E' & Hr); [lia|lia|].
  unfold dispatches in E'. rewrite E in E'. injection E' as <-. rewrite Hr.
  destruct (positions !! i) as [x|] eqn:Ex; simpl; [|by destruct (decide _)].
  rewrite decide_True by (apply lookup_lt_Some in Ex; lia). f_equal.
  rewrite Forall_lookup in Hp. specialize (Hp i x Ex). unfold INT_MAX in Hp. unfold wrap_int.
  destruct Hty as [->| ->]; simpl; [rewrite i32_id by (unfold INT_MIN, INT_MAX; lia)|rewrite Z.mod_small by lia]; lia.
Qed.

(** ** The attention mask *)

(* every row has ones in its first [len] columns *)
Definition mask_of (rows max_length : nat) (len : Z) : list Z :=
  map (fun g => if Z.of_nat g mod Z.of_nat max_length <? len then 1 else 0) (seq 0 (rows * max_length)).

Lemma length_mask_of rows max_length len : length (mask_of rows max_length len) = (rows * max_length)%nat.
Proof. unfold mask_of. by rewrite length_map, length_seq. Qed.

Lemma mask_of_lookup rows max_length len g : (g < rows * max_length)%nat ->
  mask_of rows max_length len !! g = Some (if Z.of_nat g mod Z.of_nat max_length <? len then 1 else 0).
Proof. intros Hg. unfold mask_of. etrans; [apply list_lookup_fmap|]. by rewrite lookup_seq_lt. Qed.

Lemma mask_per_element max_seq_len seq_len n input : n + 256 <= 2 ^ 32 ->
  per_element (fun g _ => next_mask max_seq_len seq_len input (Z.of_nat g)) n (fun start x => mask_CSMain max_seq_len seq_len n start input x).
Proof.
  intros Hn start x m Hs Hx Hb. unfold mask_CSMain. rewrite u32_id by lia. replace (x + start) with (start + x) by lia.
  destruct (Z.ltb_spec (start + x) n); [|done]. unfold store. destruct (Z.ltb_spec (start + x) 0); [lia|].
  apply list_eq. intros i. destruct (decide (i = Z.to_nat (start + x))) as [->|Hne].
  - rewrite list_lookup_alter_eq. destruct (m !! Z.to_nat (start + x)) as [v|] eqn:E.
    + rewrite list_lookup_insert_eq by (by eapply lookup_lt_Some). simpl. by rewrite Z2Nat.id by lia.
    + rewrite list_insert_ge by (by apply lookup_ge_None). by rewrite E.
  - by rewrite list_lookup_insert_ne, list_lookup_alter_ne by done.
Qed.

Section mask.
Context (order : nat -> list nat) `{!Schedule order} (rows max_length : nat) (type : ONNXTensorElementDataType).
Context (Htype : int_type type) (Hmax : (0 < max_length)%nat) (Hsize : Z.of_nat (rows * max_length) + 256 <= 2 ^ 32).
Notation total := (rows * max_length)%nat.

(* the kernel writes the next mask over the mask *)
Lemma run_mask_ok seq_len mask next : length mask = total -> length next = total ->
  ∃ k, DmlUpdateMaskKernel_new (Z.of_nat rows) (Z.of_nat max_length) type seq_len = Ok k
    ∧ let l := map (fun g => next_mask (Z.of_nat max_length) seq_len mask (Z.of_nat g)) (seq 0 total) in run_mask order k mask next = (l, l).
Proof.
  intros Hm Hn. unfold DmlUpdateMaskKernel_new. rewrite int_type_is_int, u32_id by (done || lia).
  rewrite <- Nat2Z.inj_mul.
  destruct (record_dispatches_ok 257 (Z.of_nat total) (Z.of_nat total)) as (ds & E & _); [lia..|].
  unfold dispatches at 1. rewrite E, bind_Ok. eexists. split; [done|]. unfold run_mask. simpl um_dispatches. simpl um_max_seq_len. simpl um_seq_len. simpl um_element_count.
  set (l := map _ _). assert (run_dispatches order (fun start x => mask_CSMain (Z.of_nat max_length) seq_len (Z.of_nat total) start mask x) ds next = l) as ->.
  { apply list_eq. intros i. destruct (dispatches_run order _ _ _ next i _ (mask_per_element (Z.of_nat max_length) seq_len _ mask Hsize)) as (ds' & E' & Hr); [lia|lia|].
    unfold dispatches in E'. rewrite E in E'. injection E' as <-. rewrite Hr. unfold l. rewrite list_lookup_fmap.
    destruct (decide (i < total)%nat).
    - destruct (lookup_lt_is_Some_2 next i) as [v ->]; [lia|]. rewrite decide_True, lookup_seq_lt by lia. done.
    - rewrite (lookup_ge_None_2 next), (lookup_ge_None_2 (seq 0 total)) by (rewrite ?length_seq; lia). by destruct (decide _). }
  assert (length l = total) as Hl by (unfold l; by rewrite length_map, length_seq).
  rewrite Nat2Z.id, take_ge, drop_ge, app_nil_r by lia. done.
Qed.

Lemma next_mask_first seq_len mask : 1 < seq_len ->
  map (fun g => next_mask (Z.of_nat max_length) seq_len mask (Z.of_nat g)) (seq 0 total) = mask_of rows max_length seq_len.
Proof. intros H. apply map_ext. intros g. unfold next_mask. by destruct (Z.ltb_spec 1 seq_len); [|lia]. Qed.

Lemma next_mask_later len : 1 <= len ->
  map (fun g => next_mask (Z.of_nat max_length) 1 (mask_of rows max_length len) (Z.of_nat g)) (seq 0 total) = mask_of rows max_length (len + 1).
Proof.
  intros H. apply map_ext_in. intros g Hg. apply list_elem_of_In, elem_of_seq in Hg. unfold next_mask. cbn [Z.ltb Z.compare Pos.compare Pos.compare_cont].
  set (i := Z.of_nat g mod Z.of_nat max_length). assert (0 <= i < Z.of_nat max_length) as Hi by (apply Z.mod_pos_bound; lia).
  assert (rows ≠ 0%nat) as Hr by (intros E; rewrite E in Hg; lia). assert ((max_length <= total)%nat) as Hle by nia.
  assert (∀ j, 0 <= j < Z.of_nat max_length -> load (mask_of rows max_length len) j = if j <? len then 1 else 0) as Hload.
  { intros j Hj. unfold load. destruct (Z.ltb_spec j 0); [lia|]. erewrite nth_lookup_Some; [|apply mask_of_lookup; lia].
    rewrite Z2Nat.id, Z.mod_small by lia. done. }
  rewrite (Hload i) by done. destruct (Z.eqb_spec i 0) as [->|Hne]; [by destruct (Z.ltb_spec 0 (len + 1)); [|lia]|].
  rewrite (Hload (i - 1)) by lia.
  destruct (Z.ltb_spec i len), (Z.ltb_spec (i - 1) len), (Z.ltb_spec i (len + 1)); try lia; done.
Qed.

Lemma mask_updates_later n : ∀ len s, 1 <= len -> is_first_mask_update_ s = false ->
  (is_second_mask_update_ s = true ∨ (∃ k, DmlUpdateMaskKernel_new (Z.of_nat rows) (Z.of_nat max_length) type 1 = Ok k ∧ dml_update_mask_kernel_ s = Some k)) ->
  attention_mask_ s = mask_of rows max_length len -> length (attention_mask_next_ s) = total ->
  ∃ s', mask_updates order n (Z.of_nat rows) (Z.of_nat max_length) type (len + 1) s = Ok s' ∧ attention_mask_ s' = mask_of rows max_length (len + Z.of_nat n).
Proof.
  induction n as [|n IH]; intros len s Hlen Hf Hk Hm Hn; [exists s; split; [done|by rewrite Z.add_0_r]|].
  destruct (run_mask_ok 1 (attention_mask_ s) (attention_mask_next_ s)) as (k & Ek & Hr); [by rewrite Hm, length_mask_of|done|].
  cbn [mask_updates]. unfold UpdateAttentionMask_dml. rewrite Hf.
  assert ((if is_second_mask_update_ s then k ← DmlUpdateMaskKernel_new (Z.of_nat rows) (Z.of_nat max_length) type 1; Ok (false, Some k)
    else Ok (is_second_mask_update_ s, dml_update_mask_kernel_ s)) = Ok (false, Some k)) as ->.
  { destruct (is_second_mask_update_ s) eqn:E2; [by rewrite Ek|]. destruct Hk as [Hk|(k' & Ek' & ->)]; [done|]. congruence. }
  rewrite bind_Ok, Hr, bind_Ok. rewrite Hm, next_mask_later by done.
  destruct (IH (len + 1) (mkMaskState false false (Some k) (mask_of rows max_length (len + 1)) (mask_of rows max_length (len + 1))))
    as (s' & -> & Hs'); [lia|done|right; by exists k|done|apply length_mask_of|].
  exists s'. split; [done|]. rewrite Hs'. f_equal. lia.
Qed.

(** C36: with a captured graph on DirectML the attention mask after any number of updates has ones in every row up to the current length and zeros after, in any order of the threads and in however many dispatches the kernel takes; whatever the prompts were padded with is forgotten. *)
Theorem mask_updates_spec (n : nat) (current_length : Z) (mask next : list Z) : 1 < current_length -> length mask = total -> length next = total ->
  ∃ s, mask_updates order (S n) (Z.of_nat rows) (Z.of_nat max_length) type current_length (mkMaskState true false None mask next) = Ok s
    ∧ attention_mask_ s = mask_of rows max_length (current_length + Z.of_nat n).
Proof.
  intros Hlen Hm Hn. destruct (run_mask_ok current_length mask next Hm Hn) as (k & Ek & Hr).
  cbn [mask_updates]. unfold UpdateAttentionMask_dml at 1. simpl is_first_mask_update_. cbv iota. rewrite Ek, !bind_Ok. simpl attention_mask_. simpl attention_mask_next_.
  rewrite Hr, bind_Ok, next_mask_first by done. apply mask_updates_later; [lia|done|by left|done|apply length_mask_of].
Qed.
End mask.

Module Examples.
Definition backwards (n : nat) : list nat := reverse (seq 0 n).
#[export] Instance backwards_schedule : Schedule backwards.
Proof. intros n. unfold backwards. by rewrite reverse_Permutation. Qed.

(* two prompts of two tokens, the first padded on the left: the pad is seen from the first update on *)
Lemma mask_updates_spec_witness :
  ∃ s, mask_updates backwards 3 2 6 T_INT32 3 (mkMaskState true false None [0; 1; 0; 0; 0; 0; 1; 1; 0; 0; 0; 0] (replicate 12 0)) = Ok s
    ∧ attention_mask_ s = [1; 1; 1; 1; 1; 0; 1; 1; 1; 1; 1; 0].
Proof. apply (mask_updates_spec backwards 2 6 T_INT32 ltac:(by left) ltac:(lia) ltac:(lia) 2 3); [lia|done|done]. Defined.

Lemma increment_refines_example : ∃ k, DmlIncrementValuesKernel_new 3 T_INT64 = Ok k
  ∧ UpdatePositionIDsImpl T_INT64 3 [4; 0; 7] = Ok (run_increment backwards k [4; 0; 7]).
Proof. apply (increment_refines backwards T_INT64 [4; 0; 7]); [exact _|by right|simpl; lia|repeat constructor; unfold INT_MAX; lia]. Defined.
End Examples.
